(* ===== verification/_CoqProject ===== *)
-Q . S2P
Prelude.v
RustStr.v
Http.v
Utils.v
Preconditions.v
UriEncoding.v
Classifier.v
S3Resp.v
S3Xml.v
Bytes.v
FsHelpers.v
FileSystem.v
Handler.v
Idempotency.v
ConnLimit.v
Streaming.v
PayloadSource.v
ChunkCodec.v
Upload.v
Copy.v
GatewayHelpers.v
Objects.v
PutObject.v
GetObject.v
DeleteObject.v
CopyObject.v
RenameObject.v
ObjectMeta.v
Directory.v
DirectoryCache.v
OpenBao.v
OpenBaoProofs.v
BaoClient.v
DirectoryMoves.v
Ctl.v
CtlProofs.v
CtlWitness.v
Nss.v
BucketAcl.v
Sessions.v
Workers.v
WorkerConfig.v
WorkerSlots.v
Reconciler.v
ObjectWitness.v
Listing.v
OpenFile.v
Lustre.v
Pagination.v
ListingSpec.v
MarkerPaging.v
ListingWitness.v
Multipart.v
UploadId.v
Completion.v
PartUploads.v
UploadRefinement.v
Uring.v
BufPool.v
IoThread.v
SigV4.v
LogRedact.v
Proxy.v
StartUp.v
CtlConnect.v
ProxyProofs.v
Gateway.v
EndToEnd.v
ListBuckets.v
GatewayWitness.v
EndToEndWitness.v
XmlDocs.v
XmlText.v
XmlEcho.v
Wire.v
WireProofs.v
WireWitness.v
