(* ===== verification/Prelude.v ===== *)
(** * s32p: verification of the S3-to-POSIX proxy and gateway

    ** The program

    [s32p-proxy] is the public front.  For every request it takes a slot of
    the per-address limiter, removes the headers a client may not set,
    classifies the request, finds the user of its access key (a session of
    the in-memory store, or the directory), answers some classes itself and
    forwards the rest to a worker: a [s32p-gateway] process that runs as the
    POSIX user and sees one link per granted bucket.  The worker checks the
    signature again unless the proxy vouches for the request with the token
    of this worker, applies the bucket's access level, and serves objects as
    files.  [s32p-support] holds what both share (SigV4, classifier,
    preconditions, XML, responses), [s32p-directory] the users, buckets and
    access lists.

    ** Files of the development, and what they model (under src/crates/)

    - Prelude, RustStr, Http, Bytes, Handler: Rust's [Result] with panics,
      fixed-width integers, strings as bytes, header maps, the clock; handlers
      as state-passing programs with a weakest precondition ([post]).
    - Utils, Preconditions, UriEncoding, Classifier, S3Resp, S3Xml, SigV4:
      the modules of s32p-support/src of those names (SigV4 is lib.rs).
    - XmlDocs, XmlText, XmlEcho, Wire, WireProofs, WireWitness: the response
      documents of s3xml.rs with the trees their serde attributes write, which
      trees XML carries unchanged, documents sent back as requests, and every
      response builder of s3resp.rs down to headers and body.
    - LogRedact, Nss: log_redact.rs; nss_proto.rs and nss_lookup.rs with the
      proxy's nss_listener.rs and the worker's nss_client.rs, as a concurrent
      machine of lookups over one connection.
    - FsHelpers, FileSystem, OpenFile, Lustre: s32p-gateway/src/fs_helpers.rs
      and the tree of files the kernel keeps, in which every call may fail;
      opening files, stripes and times; lustre.rs and the read-ahead.
    - Idempotency: idempotency.rs, sequentially and as a concurrent machine.
    - Streaming, PayloadSource, ChunkCodec, Upload, Copy: streaming.rs:
      downloads, aws-chunked bodies, the write pipeline and copies.
    - BufPool, Uring, IoThread: buffer.rs and uring_io.rs: the buffer pool, the
      io_uring session with its wake-ups, and the loop of the io_uring thread
      with slots, queues, completions and failing system calls.
    - GatewayHelpers, Objects, PutObject, GetObject, DeleteObject, CopyObject,
      RenameObject, ObjectMeta: the object handlers of s32p-gateway/src/main.rs.
    - Listing, Pagination, ListingSpec, MarkerPaging, ListBuckets: the
      listings of main.rs and multipart.rs' key order.
    - Multipart, UploadId, Completion, PartUploads, UploadRefinement:
      multipart.rs.
    - Gateway: authentication, access levels and dispatch of main.rs.
    - Directory, DirectoryCache, OpenBao, OpenBaoProofs, DirectoryMoves:
      s32p-directory/src and s32p-admin/src/openbao.rs: the [Directory] trait
      with its YAML, OpenBao and caching implementations, and the
      administration that maintains the OpenBao indexes.
    - BaoClient: openbao_client.rs: tokens and their renewal, and the set-up of
      mounts, policies and roles.
    - Ctl, CtlProofs, CtlWitness, CtlConnect: s32p-ctl/src/main.rs and
      versity_iam.rs: the commands on both backends, and how the tool finds
      the proxy's store.
    - ConnLimit, Sessions, Workers, WorkerSlots, Reconciler, Proxy:
      conn_limit.rs, session.rs, worker_manager.rs, main.rs and responses.rs
      of s32p-proxy/src; ProxyProofs and EndToEnd hold the theorems on the
      front and on front and worker together.
    - StartUp: config.rs and [main] of s32p-proxy/src, with secret_file.rs;
      WorkerConfig: [load_cfg] of the gateway joined with the environment the
      proxy writes.
    - BucketAcl: the variable that carries access levels from worker_manager.rs
      to the gateway.
    - ObjectWitness, ListingWitness, GatewayWitness, EndToEndWitness: concrete
      environments in which the hypotheses of the theorems hold.

    A Rust function is a Rocq function of the same name where the language
    allows it.  Records carry the fields of the structs; shared state is
    passed explicitly; what runs concurrently is a step relation with a step
    per critical section or per call of a concurrent map.

    ** Parameters

    Crates, the kernel, the clock and random bytes are fields of type classes
    ([ObjEnv], [GatewayEnv], [ProxyEnv], [SpawnEnv], [Nss], ...): percent
    decoding, form encoding, time formats, signing (aws-sigv4), quick-xml's
    events and text, base64, uuid, SipHash, the answers of system calls.  What a theorem
    needs of them is a hypothesis of the theorem, and a witness instantiates
    it.  Interfaces between components are classes with laws: [Directory],
    [WorkerOps] and [WorkerLaws].

    ** What the theorems show

    - Nothing unauthenticated has an effect: signatures (SigV4), the worker's
      front door (Gateway), the proxy's checks (ProxyProofs), and both
      together (EndToEnd): the trust header cannot be forged, routing does
      not drift, a read-only session changes nothing.
    - Acknowledged writes are stored and readable, and their preconditions
      held: PUT, append, copy (onto itself it leaves zeros), rename, delete;
      multipart completion stores the concatenation of the parts that no other
      upload of the same part disturbed; refusals leave the objects alone.
    - Downloads deliver the bytes of the file under every interleaving of
      reads; aws-chunked decoding does not depend on framing and inverts
      encoding; io_uring sessions lose no wake-up.
    - Listings are exact, and paging through them ends with the whole listing.
    - State machines: one guarded execution per idempotency token (a full
      cache lets unknown tokens execute unguarded), sessions that live
      exactly until they expire, one worker start per slot, an exact limiter,
      one backend call per key in the cache and entries no older than their
      time to live, indexes in OpenBao that repeated operations repair.
    - The data path below the handlers: no buffer is in two hands, every
      operation given to io_uring is finished exactly once with the result of
      its own completion, and buffers stay pinned while the kernel may use
      them.
    - Answers: a GET or HEAD is answered without a panic and announces what
      it sends, and a client that reads a document finds what the handler
      meant.
    - Configuration: a started proxy has private secrets, a started worker has
      loaded what the proxy gave it and exactly the levels the directory
      grants, the operator's tool works on the proxy's store, its two
      backends agree on clean commands, and a cached OpenBao token goes out
      only with half a minute of its lease left.
    - Names: the lookups of user names never mix users up as long as no
      exchange is dropped half-way, and do when one is.
    - Theorems that state a defect of the code are linked to the findings of
      the manifest (a lost wake-up in [ensure_running], a session that
      escapes its bucket through a copy source, and others).

    ** Fuel

    Loops that are not structural take fuel that a lemma shows to be enough:
    the listing walk (the size of the tree), the chunk decoder (the length of
    its input), template rendering (the length of the template), the
    readiness wait (401 attempts, since the timeout is 400 sleeps), trimming
    (the length of the string).

    ** Not modelled

    HTTP and TLS themselves (hyper, pingora, rustls, reqwest), clap's parsing
    and the printing of s32p-ctl, the derived parsers of serde, the text
    quick-xml writes and reads, log lines, thread and process start, build
    scripts and tests.  They are third-party code, parameters of the models, or
    have no effect the other parts depend on. *)

From Stdlib Require Import ZArith Lia.
From stdpp Require Import base list strings gmap numbers option.

(** ** The result type

    A Rust [Result<A, E>] together with the third thing a Rust function can
    do: panic.  The workspace builds its release profile with
    [panic = "abort"] (Cargo.toml), so [Panics] is the end of the process,
    and a theorem that a function never [Panics] is worth stating. *)

Inductive res (E A : Type) : Type :=
| Ok (a : A)
| Err (e : E)
| Panics.
Arguments Ok {E A} _.
Arguments Err {E A} _.
Arguments Panics {E A}.

#[global] Instance res_ret {E} : MRet (res E) := fun A a => Ok a.
#[global] Instance res_bind {E} : MBind (res E) := fun A B f m =>
  match m with
  | Ok a => f a
  | Err e => Err e
  | Panics => Panics
  end.
#[global] Instance res_fmap {E} : FMap (res E) := fun A B f m =>
  match m with
  | Ok a => Ok (f a)
  | Err e => Err e
  | Panics => Panics
  end.

#[global] Instance res_eq_dec {E A} `{EqDecision E, EqDecision A} : EqDecision (res E A).
Proof. solve_decision. Defined.

(** [opt.ok_or(e)] *)
Definition ok_or {E A} (o : option A) (e : E) : res E A :=
  match o with Some a => Ok a | None => Err e end.

(** [if !b { return Err(e) }] *)
Definition ensure {E} (b : bool) (e : E) : res E unit :=
  if b then Ok tt else Err e.

Definition is_ok {E A} (r : res E A) : bool :=
  match r with Ok _ => true | _ => false end.

Definition no_panic {E A} (r : res E A) : Prop := r <> Panics.

Section res_lemmas.
Context {E A B : Type}.
Implicit Types (m : res E A) (f : A -> res E B).

Lemma bind_ok_inv m f b :
  (m ≫= f) = Ok b -> exists a, m = Ok a /\ f a = Ok b.
Proof. destruct m; cbn; [eauto | discriminate..]. Qed.

Lemma bind_no_panic m f :
  no_panic m -> (forall a, m = Ok a -> no_panic (f a)) -> no_panic (m ≫= f).
Proof. unfold no_panic. destruct m; cbn; intros ? H; [by apply H | done..]. Qed.

Lemma ok_or_ok_inv (o : option A) (e : E) a : ok_or o e = Ok a -> o = Some a.
Proof. destruct o; cbn; congruence. Qed.

Lemma ok_or_no_panic (o : option A) (e : E) : no_panic (ok_or o e).
Proof. unfold no_panic. destruct o; cbn; discriminate. Qed.

Lemma ensure_ok_inv b (e : E) u : ensure b e = Ok u -> b = true.
Proof. destruct b; cbn; congruence. Qed.

Lemma ensure_no_panic b (e : E) : no_panic (ensure b e).
Proof. unfold no_panic. destruct b; cbn; discriminate. Qed.

Lemma ok_no_panic (a : A) : no_panic (@Ok E A a).
Proof. discriminate. Qed.

Lemma err_no_panic (e : E) : no_panic (@Err E A e).
Proof. discriminate. Qed.
End res_lemmas.

(** [vec.iter().map(f).collect::<Result<Vec<_>, _>>()]: left to right, the
    first error wins. *)
Fixpoint res_mapM {E A B} (f : A -> res E B) (l : list A) : res E (list B) :=
  match l with
  | [] => Ok []
  | a :: l' => f a ≫= fun b => res_mapM f l' ≫= fun bs => Ok (b :: bs)
  end.

Lemma res_mapM_ok {E A B} (f : A -> res E B) l bs :
  res_mapM f l = Ok bs <-> Forall2 (fun a b => f a = Ok b) l bs.
Proof.
  split.
  - revert bs. induction l as [|a l IH]; intros bs; cbn.
    + intros [= <-]. constructor.
    + intros (b & Hb & (bs' & Hbs & [= <-])%bind_ok_inv)%bind_ok_inv.
      constructor; auto.
  - induction 1 as [|a b l bs Hab _ IH]; cbn; [done|]. by rewrite Hab; cbn; rewrite IH.
Qed.

(** ** Machine integers

    A [u64] (or [u32], [usize] on the 64-bit targets the gateway supports)
    is a [Z] kept in range; the operations that can leave the range are
    written out. *)
Section words.
Local Open Scope Z_scope.

Definition u64_max : Z := 2 ^ 64 - 1.
Definition u32_max : Z := 2 ^ 32 - 1.
Definition i64_max : Z := 2 ^ 63 - 1.

Definition is_u64 (n : Z) : Prop := 0 <= n <= u64_max.
Definition is_u32 (n : Z) : Prop := 0 <= n <= u32_max.

Definition wrap64 (n : Z) : Z := n mod 2 ^ 64.

(** [a.saturating_sub(b)] *)
Definition sat_sub (a b : Z) : Z := Z.max 0 (a - b).
(** [a.saturating_add(b)] on [u64] *)
Definition sat_add64 (a b : Z) : Z := Z.min u64_max (a + b).
(** [a.saturating_mul(b)] on [u64] *)
Definition sat_mul64 (a b : Z) : Z := Z.min u64_max (a * b).
(** [a.checked_add(b)] on [u64] *)
Definition checked_add64 (a b : Z) : option Z :=
  if a + b <=? u64_max then Some (a + b) else None.
(** [a.checked_mul(b)] on [u64] *)
Definition checked_mul64 (a b : Z) : option Z :=
  if a * b <=? u64_max then Some (a * b) else None.

Local Ltac reflect_arith := rewrite ?Z.leb_le, ?Z.leb_gt in *.

Lemma sat_sub_range a b : is_u64 a -> 0 <= b -> is_u64 (sat_sub a b) /\ sat_sub a b <= a.
Proof. unfold is_u64, sat_sub. lia. Qed.

Lemma checked_add64_some a b c :
  checked_add64 a b = Some c <-> c = a + b /\ a + b <= u64_max.
Proof. unfold checked_add64. case_match; reflect_arith; intuition (congruence || lia). Qed.

Lemma checked_mul64_some a b c :
  checked_mul64 a b = Some c <-> c = a * b /\ a * b <= u64_max.
Proof. unfold checked_mul64. case_match; reflect_arith; intuition (congruence || lia). Qed.

Lemma wrap64_id n : is_u64 n -> wrap64 n = n.
Proof. unfold is_u64, u64_max, wrap64. intros. apply Z.mod_small. lia. Qed.
End words.

(** ** Notations *)
Declare Scope s3_scope.
Delimit Scope s3_scope with s3.
Notation "a =s b" := (String.eqb a b) (at level 70, no associativity) : s3_scope.
Notation "a =c b" := (Ascii.eqb a b) (at level 70, no associativity) : s3_scope.
Notation "a <s b" := (negb (String.leb b a)) (at level 70, no associativity) : s3_scope.

(** ** Hints and tactics *)
Create HintDb s3.
#[export] Hint Resolve ok_no_panic err_no_panic ok_or_no_panic ensure_no_panic : s3.

(** [invert_bind H]: peel every monadic step of [H : (m ≫= f) = Ok b]. *)
Ltac invert_bind H :=
  repeat first
    [ let a := fresh "a" in let Ha := fresh "Hstep" in
      apply bind_ok_inv in H as (a & Ha & H)
    | progress cbn beta iota in H ].

(** [split_matches]: case-split every [match] or [if] of the goal, keeping
    the equations. *)
Ltac split_matches :=
  repeat (case_match; simplify_eq/=; try done).

(** [split_matches_in H]: the same on a hypothesis. *)
Ltac split_matches_in H :=
  repeat (match type of H with
          | context [match ?x with _ => _ end] =>
              let E := fresh "E" in destruct x eqn:E; simplify_eq/=
          end; try done).

(** Boolean tests on strings and characters, as propositions. *)
Lemma str_eqb_true a b : String.eqb a b = true <-> a = b.
Proof. apply String.eqb_eq. Qed.

Lemma str_eqb_false a b : String.eqb a b = false <-> a <> b.
Proof. apply String.eqb_neq. Qed.

Lemma chr_eqb_true a b : Ascii.eqb a b = true <-> a = b.
Proof. apply Ascii.eqb_eq. Qed.

Lemma chr_eqb_false a b : Ascii.eqb a b = false <-> a <> b.
Proof. apply Ascii.eqb_neq. Qed.

Create Rewrite HintDb reflectb.
#[export] Hint Rewrite str_eqb_true str_eqb_false chr_eqb_true chr_eqb_false
  andb_true_iff orb_true_iff andb_false_iff orb_false_iff negb_true_iff negb_false_iff
  Z.eqb_eq Z.eqb_neq Z.leb_le Z.ltb_lt Z.leb_gt Z.ltb_ge Nat.eqb_eq Nat.eqb_neq
  Nat.leb_le Nat.ltb_lt Nat.leb_gt Nat.ltb_ge : reflectb.

(** [reflect_all]: turn boolean equations of the context into propositions. *)
Ltac reflect_all := autorewrite with reflectb in *; destruct_and?.
