(* ===== verification/RustStr.v ===== *)
(** * Rust's [str]

    A [&str] is modelled by [string], its sequence of UTF-8 bytes.  This file
    models the methods of [core::str] the sources call, at the bytes: a
    method that takes an ASCII [char] pattern acts on the byte; [trim] knows
    the UTF-8 encodings of every [White_Space] code point. *)

From Stdlib Require Import ZArith Lia Ascii String.
From stdpp Require Import base list strings numbers option sorting.
From S2P Require Import Prelude.

Local Open Scope s3_scope.
Local Open Scope string_scope.

(** [simpl] and [cbn] compute the concatenation of a literal. *)
#[global] Arguments String.append !_ _ / : simpl nomatch.

(** ** Bytes *)
Definition byte_val (c : ascii) : Z := Z.of_nat (nat_of_ascii c).
Definition byte_of (z : Z) : ascii := ascii_of_nat (Z.to_nat z).

Definition in_range (lo hi : Z) (c : ascii) : bool :=
  ((lo <=? byte_val c) && (byte_val c <=? hi))%Z.

(** [u8::is_ascii_digit], [is_ascii_hexdigit], [is_ascii_alphanumeric], ... *)
Definition is_ascii_digit (c : ascii) : bool := in_range 48 57 c.
Definition is_ascii_upper (c : ascii) : bool := in_range 65 90 c.
Definition is_ascii_lower (c : ascii) : bool := in_range 97 122 c.
Definition is_ascii_alphabetic (c : ascii) : bool := is_ascii_upper c || is_ascii_lower c.
Definition is_ascii_alphanumeric (c : ascii) : bool := is_ascii_alphabetic c || is_ascii_digit c.
Definition is_ascii_hexdigit (c : ascii) : bool :=
  is_ascii_digit c || in_range 65 70 c || in_range 97 102 c.

Definition ascii_lower (c : ascii) : ascii :=
  if is_ascii_upper c then byte_of (byte_val c + 32) else c.
Definition ascii_upper (c : ascii) : ascii :=
  if is_ascii_lower c then byte_of (byte_val c - 32) else c.

(** ** Whole-string maps *)
Fixpoint str_map (f : ascii -> ascii) (s : string) : string :=
  match s with
  | "" => ""
  | String c s' => String (f c) (str_map f s')
  end.

Definition to_ascii_lowercase : string -> string := str_map ascii_lower.

Definition eq_ignore_ascii_case (a b : string) : bool :=
  to_ascii_lowercase a =s to_ascii_lowercase b.

(** [s.bytes().all(p)] *)
Fixpoint all_bytes (p : ascii -> bool) (s : string) : bool :=
  match s with
  | "" => true
  | String c s' => p c && all_bytes p s'
  end.

(** [s.contains(c)] for an ASCII character *)
Fixpoint contains_char (c : ascii) (s : string) : bool :=
  match s with
  | "" => false
  | String x s' => (x =c c) || contains_char c s'
  end.

Definition is_empty (s : string) : bool :=
  match s with "" => true | _ => false end.

(** ** Prefixes, suffixes, substrings *)
Fixpoint strip_prefix (p s : string) : option string :=
  match p, s with
  | "", _ => Some s
  | String a p', String b s' => if a =c b then strip_prefix p' s' else None
  | String _ _, "" => None
  end.

Definition starts_with (p s : string) : bool :=
  match strip_prefix p s with Some _ => true | None => false end.

Fixpoint strip_suffix (p s : string) : option string :=
  if s =s p then Some ""
  else match s with
       | "" => None
       | String c s' => String c <$> strip_suffix p s'
       end.

Definition ends_with (p s : string) : bool :=
  match strip_suffix p s with Some _ => true | None => false end.

(** [s.find(p)], as the text before and after the first occurrence *)
Fixpoint split_at_str (p s : string) : option (string * string) :=
  match strip_prefix p s with
  | Some rest => Some ("", rest)
  | None =>
      match s with
      | "" => None
      | String c s' => prod_map (String c) id <$> split_at_str p s'
      end
  end.

Definition contains_str (p s : string) : bool :=
  match split_at_str p s with Some _ => true | None => false end.

(** ** Splitting *)
Fixpoint split (c : ascii) (s : string) : list string :=
  match s with
  | "" => [""]
  | String x s' =>
      if x =c c then "" :: split c s'
      else match split c s' with
           | h :: t => String x h :: t
           | [] => [String x ""]
           end
  end.

Fixpoint split_once (c : ascii) (s : string) : option (string * string) :=
  match s with
  | "" => None
  | String x s' =>
      if x =c c then Some ("", s')
      else prod_map (String x) id <$> split_once c s'
  end.

(** [s.rsplit_once(c)]: at the last occurrence *)
Fixpoint rsplit_once (c : ascii) (s : string) : option (string * string) :=
  match s with
  | "" => None
  | String x s' =>
      match rsplit_once c s' with
      | Some (a, b) => Some (String x a, b)
      | None => if x =c c then Some ("", s') else None
      end
  end.

(** [parts.join(sep)] *)
Fixpoint join (sep : string) (l : list string) : string :=
  match l with
  | [] => ""
  | [x] => x
  | x :: rest => x +:+ sep +:+ join sep rest
  end.

(** ** Trimming *)
Fixpoint trim_start_matches (c : ascii) (s : string) : string :=
  match s with
  | String x s' => if x =c c then trim_start_matches c s' else s
  | "" => ""
  end.

Fixpoint trim_end_matches (c : ascii) (s : string) : string :=
  match s with
  | "" => ""
  | String x s' =>
      match trim_end_matches c s' with
      | "" => if x =c c then "" else String x ""
      | t => String x t
      end
  end.

Definition trim_matches (c : ascii) (s : string) : string :=
  trim_end_matches c (trim_start_matches c s).

(** [s.trim_end_matches(p)] for a string pattern: [p] is stripped from the
    end as long as it matches (the empty pattern strips nothing). *)
Fixpoint trim_end_matches_str_fuel (n : nat) (p s : string) : string :=
  match n with
  | O => s
  | S n' =>
      match strip_suffix p s with
      | Some s' => if is_empty p then s else trim_end_matches_str_fuel n' p s'
      | None => s
      end
  end.

Definition trim_end_matches_str (p s : string) : string :=
  trim_end_matches_str_fuel (String.length s) p s.

(** The UTF-8 encodings of the [White_Space] code points: U+0009..000D,
    U+0020, U+0085, U+00A0, U+1680, U+2000..200A, U+2028, U+2029, U+202F,
    U+205F, U+3000. *)
Definition is_ascii_ws (c : ascii) : bool := in_range 9 13 c || in_range 32 32 c.

Definition is_ws2 (a b : ascii) : bool :=
  in_range 0xC2 0xC2 a && (in_range 0x85 0x85 b || in_range 0xA0 0xA0 b).

Definition is_ws3 (a b c : ascii) : bool :=
  (in_range 0xE1 0xE1 a && in_range 0x9A 0x9A b && in_range 0x80 0x80 c) ||
  (in_range 0xE2 0xE2 a && in_range 0x80 0x80 b &&
     (in_range 0x80 0x8A c || in_range 0xA8 0xA9 c || in_range 0xAF 0xAF c)) ||
  (in_range 0xE2 0xE2 a && in_range 0x81 0x81 b && in_range 0x9F 0x9F c) ||
  (in_range 0xE3 0xE3 a && in_range 0x80 0x80 b && in_range 0x80 0x80 c).

(** The text after one leading white-space character, if there is one. *)
Definition strip_ws (s : string) : option string :=
  match s with
  | String a s1 =>
      if is_ascii_ws a then Some s1
      else match s1 with
           | String b s2 =>
               if is_ws2 a b then Some s2
               else match s2 with
                    | String c s3 => if is_ws3 a b c then Some s3 else None
                    | "" => None
                    end
           | "" => None
           end
  | "" => None
  end.

(** The same on the reversed string: the last bytes come first. *)
Definition strip_ws_rev (s : string) : option string :=
  match s with
  | String a s1 =>
      if is_ascii_ws a then Some s1
      else match s1 with
           | String b s2 =>
               if is_ws2 b a then Some s2
               else match s2 with
                    | String c s3 => if is_ws3 c b a then Some s3 else None
                    | "" => None
                    end
           | "" => None
           end
  | "" => None
  end.

Fixpoint strip_while (n : nat) (f : string -> option string) (s : string) : string :=
  match n with
  | O => s
  | S n' => match f s with Some s' => strip_while n' f s' | None => s end
  end.

Fixpoint str_rev (s : string) : string :=
  match s with
  | "" => ""
  | String c s' => str_rev s' +:+ String c ""
  end.

Definition trim_start (s : string) : string := strip_while (String.length s) strip_ws s.
Definition trim_end (s : string) : string :=
  str_rev (strip_while (String.length s) strip_ws_rev (str_rev s)).
Definition trim (s : string) : string := trim_end (trim_start s).

(** ** Parsing integers

    [s.parse::<uN>()]: one optional leading [+], then at least one ASCII
    digit, nothing else, and no overflow. *)
Definition digit_val (c : ascii) : option Z :=
  if is_ascii_digit c then Some (byte_val c - 48)%Z else None.

Fixpoint parse_digits (max : Z) (acc : Z) (s : string) : option Z :=
  match s with
  | "" => Some acc
  | String c s' =>
      match digit_val c with
      | Some d =>
          let v := (acc * 10 + d)%Z in
          if (v <=? max)%Z then parse_digits max v s' else None
      | None => None
      end
  end.

Definition strip_plus (s : string) : string :=
  match strip_prefix "+" s with Some s' => s' | None => s end.

Definition parse_uint (max : Z) (s : string) : option Z :=
  let s' := strip_plus s in
  if is_empty s' then None else parse_digits max 0 s'.

Definition parse_u64_str : string -> option Z := parse_uint u64_max.
Definition parse_u32_str : string -> option Z := parse_uint u32_max.

(** ** Printing integers: [n.to_string()] for an unsigned integer *)
Definition digit_char (d : Z) : ascii := byte_of (48 + d).

Fixpoint print_digits (fuel : nat) (n : Z) (acc : string) : string :=
  match fuel with
  | O => acc
  | S fuel' =>
      let acc' := String (digit_char (n mod 10)) acc in
      if (n <? 10)%Z then acc' else print_digits fuel' (n / 10) acc'
  end.

(** 20 digits are enough for a [u64]. *)
Definition print_u64 (n : Z) : string := print_digits 20 n "".

(** ** Facts *)

Lemma str_app_nil_r s : s +:+ "" = s.
Proof. induction s as [|x s IH]; cbn; [done|]. by rewrite IH. Qed.

Lemma str_app_assoc a b c : (a +:+ b) +:+ c = a +:+ (b +:+ c).
Proof. induction a as [|x a IH]; cbn; [done|]. by rewrite IH. Qed.

Lemma str_length_app a b : String.length (a +:+ b) = String.length a + String.length b.
Proof. induction a as [|x a IH]; cbn; [done|]. by rewrite IH. Qed.

Lemma str_app_inv_l p a b : p +:+ a = p +:+ b -> a = b.
Proof. induction p; cbn; [done|]. intros [= ?]; auto. Qed.

Lemma is_empty_true s : is_empty s = true <-> s = "".
Proof. by destruct s. Qed.

Lemma is_empty_false s : is_empty s = false <-> s <> "".
Proof. by destruct s. Qed.
#[export] Hint Rewrite is_empty_true is_empty_false : reflectb.

(** *** Prefix and suffix *)
Lemma strip_prefix_some p s r : strip_prefix p s = Some r <-> s = p +:+ r.
Proof.
  revert s. induction p as [|a p IH]; intros s; cbn.
  - split; congruence.
  - destruct s as [|b s]; [done|]. destruct (Ascii.eqb_spec a b) as [->|Hne].
    + rewrite IH. split; congruence.
    + split; congruence.
Qed.

Lemma strip_prefix_app p r : strip_prefix p (p +:+ r) = Some r.
Proof. by apply strip_prefix_some. Qed.

Lemma starts_with_spec p s : starts_with p s = true <-> exists r, s = p +:+ r.
Proof.
  unfold starts_with. destruct (strip_prefix p s) eqn:E.
  - apply strip_prefix_some in E. naive_solver.
  - split; [done|]. intros (r & ->). by rewrite strip_prefix_app in E.
Qed.

Lemma strip_suffix_cons p c s :
  strip_suffix p (String c s) =
    if String c s =s p then Some "" else String c <$> strip_suffix p s.
Proof. done. Qed.

Lemma strip_suffix_some p s r : strip_suffix p s = Some r -> s = r +:+ p.
Proof.
  revert r. induction s as [|c s IH]; intros r.
  - cbn. destruct p; [|done]. by intros [= <-].
  - rewrite strip_suffix_cons. destruct (String.eqb_spec (String c s) p) as [<-|Hne].
    + by intros [= <-].
    + destruct (strip_suffix p s) as [r'|] eqn:E; [|done]. cbn. intros [= <-]. cbn.
      f_equal. auto.
Qed.

Lemma strip_suffix_app r p : strip_suffix p (r +:+ p) = Some r.
Proof.
  induction r as [|c r IH].
  - destruct p as [|x p]; cbn; [done|]. by rewrite Ascii.eqb_refl, String.eqb_refl.
  - change (String c r +:+ p) with (String c (r +:+ p)). rewrite strip_suffix_cons.
    destruct (String.eqb_spec (String c (r +:+ p)) p) as [E|_]; [|by rewrite IH].
    apply (f_equal String.length) in E. cbn in E. rewrite str_length_app in E. lia.
Qed.

Lemma ends_with_spec p s : ends_with p s = true <-> exists r, s = r +:+ p.
Proof.
  unfold ends_with. destruct (strip_suffix p s) eqn:E.
  - apply strip_suffix_some in E. naive_solver.
  - split; [done|]. intros (r & ->). by rewrite strip_suffix_app in E.
Qed.

(** *** Occurrence of a substring *)
Lemma contains_str_spec p s : contains_str p s = true <-> exists a b, s = a +:+ p +:+ b.
Proof.
  unfold contains_str. induction s as [|c s IH]; cbn.
  - destruct p as [|x p]; cbn; [by split; [exists "", ""|]|]. split; [done|].
    intros (a & b & E). by destruct a.
  - destruct (strip_prefix p (String c s)) as [r|] eqn:E.
    + apply strip_prefix_some in E. split; [|done]. intros _. by exists "", r.
    + transitivity (exists a b, s = a +:+ p +:+ b).
      * rewrite <- IH. by destruct (split_at_str p s).
      * split.
        -- intros (a & b & ->). by exists (String c a), b.
        -- intros ([|c' a] & b & Hs).
           ++ cbn in Hs. by rewrite Hs, strip_prefix_app in E.
           ++ injection Hs as <- ->. eauto.
Qed.

Lemma contains_str_app_l p a b : contains_str p b = true -> contains_str p (a +:+ b) = true.
Proof.
  rewrite !contains_str_spec. intros (x & y & ->). exists (a +:+ x), y.
  by rewrite str_app_assoc.
Qed.

Lemma contains_str_app_r p a b : contains_str p a = true -> contains_str p (a +:+ b) = true.
Proof.
  rewrite !contains_str_spec. intros (x & y & ->). exists x, (y +:+ b).
  by rewrite !str_app_assoc.
Qed.

(** *** Splitting *)
Lemma split_nonempty c s : split c s <> [].
Proof. destruct s as [|x s]; cbn; [done|]. repeat case_match; done. Qed.

Lemma join_cons sep x l : l <> [] -> join sep (x :: l) = x +:+ sep +:+ join sep l.
Proof. by destruct l. Qed.

Lemma join_split c s : join (String c "") (split c s) = s.
Proof.
  induction s as [|x s IH]; cbn; [done|].
  destruct (Ascii.eqb_spec x c) as [->|Hne].
  - rewrite (join_cons _ _ (split c s)) by apply split_nonempty. by rewrite IH.
  - destruct (split c s) as [|h t] eqn:E; [by destruct (split_nonempty c s)|].
    rewrite <- IH. by destruct t.
Qed.

Lemma split_no_sep c s : Forall (fun x => contains_char c x = false) (split c s).
Proof.
  induction s as [|x s IH]; cbn; [by repeat constructor|].
  destruct (Ascii.eqb x c) eqn:E; [by constructor|].
  destruct (split c s) as [|h t]; cbn.
  - constructor; [|done]. cbn. by rewrite E.
  - apply Forall_cons_iff in IH as [Hh Ht]. constructor; [|done]. cbn. by rewrite E.
Qed.

Lemma contains_char_app c a b : contains_char c (a +:+ b) = contains_char c a || contains_char c b.
Proof. induction a as [|x a IH]; cbn; [done|]. by rewrite IH, orb_assoc. Qed.

Lemma split_absent c s : contains_char c s = false -> split c s = [s].
Proof.
  induction s as [|x s IH]; cbn; [done|]. rewrite orb_false_iff. intros [-> H].
  by rewrite IH.
Qed.

Lemma split_app_sep c a b :
  contains_char c a = false -> split c (a +:+ String c b) = a :: split c b.
Proof.
  induction a as [|x a IH]; cbn.
  - by rewrite Ascii.eqb_refl.
  - rewrite orb_false_iff. intros [-> H]. by rewrite IH.
Qed.

Lemma split_app c a b : split c (a +:+ String c b) = (split c a ++ split c b)%list.
Proof.
  induction a as [|x a IH]; cbn; [by rewrite Ascii.eqb_refl|]. rewrite IH.
  destruct (x =c c); [done|]. destruct (split c a) as [|h t] eqn:E; [by destruct (split_nonempty c a)|]. done.
Qed.

Lemma split_join c l :
  l <> [] -> Forall (fun x => contains_char c x = false) l -> split c (join (String c "") l) = l.
Proof.
  intros Hne Hf. induction Hf as [|x l Hx Hf IH]; [done|].
  destruct l as [|y l]; [by apply split_absent|].
  rewrite join_cons by done. cbn [append]. change (String c "" +:+ ?z) with (String c z).
  rewrite split_app_sep by done. by rewrite IH.
Qed.

Lemma rsplit_once_some c s a b : rsplit_once c s = Some (a, b) -> s = (a +:+ String c b)%string.
Proof.
  revert a b. induction s as [|x s IH]; intros a b; cbn; [done|].
  destruct (rsplit_once c s) as [[a' b']|].
  - intros [= <- <-]. cbn. f_equal. auto.
  - destruct (Ascii.eqb_spec x c) as [->|]; [|done]. by intros [= <- <-].
Qed.

Lemma split_once_some c s a b :
  split_once c s = Some (a, b) <-> s = a +:+ String c b /\ contains_char c a = false.
Proof.
  revert a b. induction s as [|x s IH]; intros a b; cbn.
  - split; [done|]. intros [E _]. by destruct a.
  - destruct (Ascii.eqb_spec x c) as [->|Hne].
    + split; [by intros [= <- <-]|]. intros [E Ha].
      destruct a as [|y a]; cbn in *; [congruence|]. injection E as <- ->.
      by rewrite Ascii.eqb_refl in Ha.
    + destruct (split_once c s) as [[a' b']|]; cbn.
      * destruct (IH a' b') as [[-> Ha'] _]; [done|]. split.
        -- intros [= <- <-]. cbn. split; [done|]. apply orb_false_iff.
           by rewrite chr_eqb_false.
        -- intros [E Ha]. destruct a as [|y a]; cbn in *; [congruence|].
           injection E as <- E. apply orb_false_iff in Ha as [_ Ha].
           destruct (IH a b) as [_ Hab]. by injection (Hab (conj E Ha)) as <- <-.
      * split; [done|]. intros [E Ha]. destruct a as [|y a]; cbn in *; [congruence|].
        injection E as <- E. apply orb_false_iff in Ha as [_ Ha].
        destruct (IH a b) as [_ Hab]. by specialize (Hab (conj E Ha)).
Qed.

Lemma split_once_none c s : split_once c s = None <-> contains_char c s = false.
Proof.
  induction s as [|x s IH]; cbn; [done|]. destruct (Ascii.eqb x c); cbn; [done|].
  rewrite <- IH. by destruct (split_once c s).
Qed.

(** The first field of [split] is what precedes the first separator. *)
Lemma split_head c s :
  head (split c s) = Some (match split_once c s with Some (a, _) => a | None => s end).
Proof.
  destruct (split_once c s) as [[a b]|] eqn:E.
  - apply split_once_some in E as [-> Ha]. by rewrite split_app_sep.
  - apply split_once_none in E. by rewrite split_absent.
Qed.

(** *** Trimming *)
Lemma trim_start_matches_spec c s :
  exists p, s = p +:+ trim_start_matches c s
            /\ all_bytes (Ascii.eqb c) p = true
            /\ starts_with (String c "") (trim_start_matches c s) = false.
Proof.
  induction s as [|x s (p & IH & Hp & Hno)]; cbn; [by exists ""|].
  destruct (Ascii.eqb_spec x c) as [->|Hne].
  - exists (String c p). cbn. by rewrite <- IH, Ascii.eqb_refl.
  - exists "". cbn. repeat split. unfold starts_with. cbn.
    by destruct (Ascii.eqb_spec c x); [congruence|].
Qed.

Lemma trim_start_matches_id c s :
  starts_with (String c "") s = false -> trim_start_matches c s = s.
Proof.
  destruct s as [|x s]; cbn; [done|]. unfold starts_with. cbn.
  rewrite (Ascii.eqb_sym c x). by destruct (Ascii.eqb x c).
Qed.

(** A byte string of visible ASCII is its own [trim]. *)
Definition is_visible (c : ascii) : bool := in_range 33 126 c.

Lemma all_bytes_app p a b : all_bytes p (a +:+ b) = all_bytes p a && all_bytes p b.
Proof. induction a as [|c a IH]; cbn; [done|]. by rewrite IH, andb_assoc. Qed.

Lemma str_rev_app_distr a b : str_rev (a +:+ b) = str_rev b +:+ str_rev a.
Proof.
  induction a as [|c a IH]; cbn.
  - by rewrite str_app_nil_r.
  - by rewrite IH, str_app_assoc.
Qed.

Lemma str_rev_involutive s : str_rev (str_rev s) = s.
Proof. induction s as [|c s IH]; cbn; [done|]. by rewrite str_rev_app_distr, IH. Qed.

Lemma all_bytes_rev p s : all_bytes p (str_rev s) = all_bytes p s.
Proof.
  induction s as [|c s IH]; cbn; [done|].
  rewrite all_bytes_app, IH. cbn. by rewrite andb_true_r, andb_comm.
Qed.

Lemma all_bytes_impl (p q : ascii -> bool) s :
  (forall c, p c = true -> q c = true) -> all_bytes p s = true -> all_bytes q s = true.
Proof.
  intros Hpq. induction s as [|c s IH]; cbn; [done|]. rewrite !andb_true_iff.
  intros [??]; auto.
Qed.

Lemma visible_not_ws c : is_visible c = true -> is_ascii_ws c = false.
Proof. unfold is_visible, is_ascii_ws, in_range. lia. Qed.

Lemma visible_not_ws2 a b : is_visible a = true -> is_ws2 a b = false.
Proof. unfold is_visible, is_ws2, in_range. lia. Qed.

Lemma visible_not_ws2_last a b : is_visible b = true -> is_ws2 a b = false.
Proof. unfold is_visible, is_ws2, in_range. lia. Qed.

Lemma visible_not_ws3 a b c : is_visible a = true -> is_ws3 a b c = false.
Proof. unfold is_visible, is_ws3, in_range. lia. Qed.

Lemma visible_not_ws3_last a b c : is_visible c = true -> is_ws3 a b c = false.
Proof. unfold is_visible, is_ws3, in_range. lia. Qed.

Lemma strip_ws_visible s : all_bytes is_visible s = true -> strip_ws s = None.
Proof.
  destruct s as [|a [|b [|c s]]]; cbn; rewrite ?andb_true_iff; intros; destruct_and?;
    rewrite ?visible_not_ws, ?visible_not_ws2, ?visible_not_ws3 by done; done.
Qed.

Lemma strip_ws_rev_visible s : all_bytes is_visible s = true -> strip_ws_rev s = None.
Proof.
  destruct s as [|a [|b [|c s]]]; cbn; rewrite ?andb_true_iff; intros; destruct_and?;
    rewrite ?visible_not_ws, ?visible_not_ws2_last, ?visible_not_ws3_last by done; done.
Qed.

Lemma strip_while_none n f s : f s = None -> strip_while n f s = s.
Proof. destruct n; cbn; [done|]. by intros ->. Qed.

Lemma trim_visible s : all_bytes is_visible s = true -> trim s = s.
Proof.
  intros H. unfold trim, trim_end, trim_start.
  rewrite (strip_while_none _ strip_ws) by by apply strip_ws_visible.
  rewrite strip_while_none by (apply strip_ws_rev_visible; by rewrite all_bytes_rev).
  apply str_rev_involutive.
Qed.
#[export] Hint Resolve trim_visible : s3.

(** *** Lower case *)
Lemma str_map_app f a b : str_map f (a +:+ b) = str_map f a +:+ str_map f b.
Proof. induction a as [|c a IH]; cbn; [done|]. by rewrite IH. Qed.

Lemma byte_val_of z : (0 <= z < 256)%Z -> byte_val (byte_of z) = z.
Proof. intros. unfold byte_val, byte_of. rewrite nat_ascii_embedding; lia. Qed.

Lemma byte_of_val c : byte_of (byte_val c) = c.
Proof. unfold byte_val, byte_of. by rewrite Nat2Z.id, ascii_nat_embedding. Qed.

Lemma byte_val_range c : (0 <= byte_val c < 256)%Z.
Proof. unfold byte_val. pose proof (nat_ascii_bounded c). lia. Qed.

Lemma ascii_lower_idem c : ascii_lower (ascii_lower c) = ascii_lower c.
Proof.
  unfold ascii_lower at 2 3. destruct (is_ascii_upper c) eqn:E; unfold ascii_lower; [|by rewrite E].
  case_match eqn:E'; [|done]. exfalso. unfold is_ascii_upper, in_range in *.
  pose proof (byte_val_range c). rewrite byte_val_of in E' by lia. lia.
Qed.

Lemma to_ascii_lowercase_idem s : to_ascii_lowercase (to_ascii_lowercase s) = to_ascii_lowercase s.
Proof.
  unfold to_ascii_lowercase. induction s as [|c s IH]; cbn; [done|].
  by rewrite ascii_lower_idem, IH.
Qed.

(** *** Integers *)
Lemma digit_val_some c d : digit_val c = Some d -> (0 <= d <= 9 /\ c = digit_char d)%Z.
Proof.
  unfold digit_val, digit_char, is_ascii_digit, in_range. case_match eqn:E; [|done].
  intros [= <-]. split; [lia|]. replace (48 + (byte_val c - 48))%Z with (byte_val c) by lia.
  by rewrite byte_of_val.
Qed.

Lemma digit_val_char d : (0 <= d <= 9)%Z -> digit_val (digit_char d) = Some d.
Proof.
  intros H. unfold digit_val, digit_char, is_ascii_digit, in_range. rewrite byte_val_of by lia.
  replace (_ && _) with true by lia. f_equal. lia.
Qed.

Lemma parse_digits_range max acc s n :
  (0 <= acc <= max)%Z -> parse_digits max acc s = Some n -> (acc <= n <= max)%Z.
Proof.
  revert acc. induction s as [|c s IH]; cbn; intros acc Hacc; [intros [= <-]; lia|].
  destruct (digit_val c) as [d|] eqn:Hd; [|done]. apply digit_val_some in Hd as [Hd _].
  destruct (Z.leb_spec (acc * 10 + d) max); [|done]. intros Hn%IH; lia.
Qed.

Lemma parse_uint_range max s n :
  (0 <= max)%Z -> parse_uint max s = Some n -> (0 <= n <= max)%Z.
Proof.
  unfold parse_uint. intros Hmax. case_match; [done|].
  intros Hn%parse_digits_range; lia.
Qed.

Lemma parse_u64_range s n : parse_u64_str s = Some n -> is_u64 n.
Proof. apply parse_uint_range. unfold u64_max. lia. Qed.

Lemma parse_u32_range s n : parse_u32_str s = Some n -> is_u32 n.
Proof. apply parse_uint_range. unfold u32_max. lia. Qed.
#[export] Hint Resolve parse_u64_range parse_u32_range : s3.

Lemma parse_print_digits max fuel n s :
  (0 < fuel)%nat -> (0 <= n <= max)%Z -> (n < 10 ^ Z.of_nat fuel)%Z ->
  parse_digits max 0 (print_digits fuel n s) = parse_digits max n s.
Proof.
  revert n s. induction fuel as [|fuel IH]; intros n s Hf Hn Hlt; [lia|].
  cbn [print_digits]. destruct (Z.ltb_spec n 10).
  - cbn -[Z.mul]. rewrite Z.mod_small, digit_val_char by lia.
    by rewrite (proj2 (Z.leb_le _ _)) by lia.
  - assert (0 <= n / 10 <= max)%Z by (split; [apply Z.div_pos | apply Z.div_le_upper_bound]; lia).
    assert (n / 10 < 10 ^ Z.of_nat fuel)%Z.
    { apply Z.div_lt_upper_bound; [lia|]. rewrite <- Z.pow_succ_r by lia.
      by rewrite <- Nat2Z.inj_succ. }
    assert (0 < fuel)%nat.
    { destruct fuel; [|lia]. cbn in *. pose proof (Z.div_le_lower_bound n 10 1). lia. }
    rewrite IH by done. cbn -[Z.mul]. pose proof (Z.mod_pos_bound n 10).
    rewrite digit_val_char by lia. pose proof (Z.div_mod n 10).
    replace (n / 10 * 10 + n mod 10)%Z with n by lia.
    by rewrite (proj2 (Z.leb_le _ _)) by lia.
Qed.

Lemma print_digits_digits fuel n s :
  (0 <= n)%Z ->
  all_bytes is_ascii_digit (print_digits fuel n s) = all_bytes is_ascii_digit s.
Proof.
  revert n s. induction fuel as [|fuel IH]; intros n s Hn; cbn; [done|].
  assert (Hd : is_ascii_digit (digit_char (n mod 10)) = true).
  { pose proof (Z.mod_pos_bound n 10). unfold is_ascii_digit, digit_char, in_range.
    rewrite byte_val_of by lia. lia. }
  case_match; [cbn; by rewrite Hd|].
  rewrite IH by (apply Z.div_pos; lia). cbn. by rewrite Hd.
Qed.

Lemma print_digits_nonempty fuel n s : (0 < fuel)%nat \/ s <> "" -> print_digits fuel n s <> "".
Proof.
  revert n s. induction fuel as [|fuel IH]; intros n s H; cbn; [by destruct H; [lia|]|].
  case_match; [done|]. apply IH. by right.
Qed.

Lemma print_u64_digits n : (0 <= n)%Z -> all_bytes is_ascii_digit (print_u64 n) = true.
Proof. intros. unfold print_u64. by rewrite print_digits_digits. Qed.

Lemma print_u64_nonempty n : print_u64 n <> "".
Proof. apply print_digits_nonempty. lia. Qed.

(** A byte of [s] satisfies whatever all bytes of [s] satisfy. *)
Lemma all_bytes_not_contains p c s :
  p c = false -> all_bytes p s = true -> contains_char c s = false.
Proof.
  intros Hc. induction s as [|x s IH]; cbn; [done|]. rewrite andb_true_iff.
  intros [Hx Hs]. rewrite IH by done. destruct (Ascii.eqb_spec x c); [congruence|done].
Qed.

Lemma strip_plus_digits s : all_bytes is_ascii_digit s = true -> strip_plus s = s.
Proof.
  destruct s as [|c s]; [done|]. cbn [all_bytes]. rewrite andb_true_iff. intros [Hc _].
  unfold strip_plus, strip_prefix.
  destruct (Ascii.eqb_spec "+" c) as [<-|]; [by vm_compute in Hc | done].
Qed.

(** [n.to_string().parse::<u64>() == Ok(n)]. *)
Lemma parse_print_u64 n : is_u64 n -> parse_u64_str (print_u64 n) = Some n.
Proof.
  intros H. unfold parse_u64_str, parse_uint.
  rewrite strip_plus_digits by (apply print_u64_digits; unfold is_u64 in H; lia).
  case_match eqn:E; [by apply is_empty_true, print_u64_nonempty in E|].
  unfold print_u64. rewrite parse_print_digits; [done|lia|done|].
  unfold is_u64, u64_max in H. cbn. lia.
Qed.

(** ** The order of strings: byte-lexicographic, as [Ord for str] *)
Definition str_le (a b : string) : Prop := String.leb a b = true.

#[global] Instance str_le_dec : RelDecision str_le.
Proof. intros a b. unfold str_le. apply _. Defined.

Lemma str_le_cons a s b t :
  str_le (String a s) (String b t) <->
  (byte_val a < byte_val b)%Z \/ (a = b /\ str_le s t).
Proof.
  unfold str_le, String.leb. cbn. unfold Ascii.compare.
  assert (Hv : forall c, byte_val c = Z.of_N (N_of_ascii c)).
  { intros c. unfold byte_val, nat_of_ascii. by rewrite N_nat_Z. }
  rewrite !Hv. destruct (N.compare_spec (N_of_ascii a) (N_of_ascii b)) as [E|E|E].
  - apply (f_equal ascii_of_N) in E. rewrite !ascii_N_embedding in E. subst b.
    intuition lia.
  - intuition lia.
  - split; [done|]. intros [?|[-> _]]; lia.
Qed.

#[global] Instance str_le_total : Total str_le.
Proof. intros a b. apply String.leb_total. Qed.

#[global] Instance str_le_antisymm : AntiSymm (=) str_le.
Proof. intros a b. apply String.leb_antisym. Qed.

#[global] Instance str_le_trans : Transitive str_le.
Proof.
  intros a. induction a as [|x a IH]; intros [|y b] [|z c]; try done.
  rewrite !str_le_cons. intros [?|[-> ?]] [?|[-> ?]]; [left; lia..|]. right. eauto.
Qed.

#[global] Instance str_le_refl : Reflexive str_le.
Proof. intros a. by destruct (str_le_total a a). Qed.

(** [a < b], as [a.cmp(b)] decides it *)
Definition str_lt (a b : string) : Prop := str_le b a -> False.

Lemma str_lt_leb a b : (a <s b) = true <-> str_lt a b.
Proof. unfold str_lt, str_le. rewrite negb_true_iff. by destruct (String.leb b a). Qed.

Lemma str_lt_iff a b : str_lt a b <-> str_le a b /\ a <> b.
Proof.
  unfold str_lt. split.
  - intros H. split; [by destruct (str_le_total a b)|]. intros ->. by apply H.
  - intros [Hle Hne] H. apply Hne. by apply (anti_symm str_le).
Qed.

#[global] Instance str_lt_trans : Transitive str_lt.
Proof.
  intros a b c [H1 N1]%str_lt_iff [H2 N2]%str_lt_iff. apply str_lt_iff. split; [by etrans|].
  intros ->. apply N1. by apply (anti_symm str_le).
Qed.

Lemma str_lt_cons a s b t :
  str_lt (String a s) (String b t) <-> (byte_val a < byte_val b)%Z \/ (a = b /\ str_lt s t).
Proof.
  rewrite !str_lt_iff, str_le_cons. split.
  - intros [[?|[-> ?]] Hne]; [by left|right]. split_and!; try done. congruence.
  - intros [H|[-> [? ?]]]; (split; [naive_solver|]); intros [=]; subst; lia || done.
Qed.

Lemma str_lt_app p a b : str_lt (p +:+ a) (p +:+ b) <-> str_lt a b.
Proof. induction p as [|x p IH]; cbn; [done|]. rewrite str_lt_cons, IH. split; [intros [?|[_ ?]]; [lia|done]|auto]. Qed.

Lemma str_lt_nil a : a <> "" -> str_lt "" a.
Proof. destruct a; [done|]. intros _ H. discriminate H. Qed.

(** *** More on trimming *)
Lemma trim_end_matches_last c s : trim_end_matches c (s +:+ String c "") = trim_end_matches c s.
Proof.
  induction s as [|x s IH]; cbn; [by rewrite Ascii.eqb_refl|]. by rewrite IH.
Qed.

Lemma ends_with_cons p c s : ends_with p s = true -> ends_with p (String c s) = true.
Proof. rewrite !ends_with_spec. intros (r & ->). by exists (String c r). Qed.

Lemma trim_end_matches_id c s : ends_with (String c "") s = false -> trim_end_matches c s = s.
Proof.
  induction s as [|x s IH]; [done|]. intros H.
  destruct (ends_with (String c "") s) eqn:E; [by rewrite ends_with_cons in H|].
  cbn. rewrite IH by done. destruct s as [|y s]; [|done].
  destruct (Ascii.eqb_spec x c) as [->|]; [|done].
  assert (H' : ends_with (String c "") (String c "") = true)
    by (apply ends_with_spec; by exists ""). congruence.
Qed.

Lemma trim_end_matches_str_once p s :
  p <> "" -> ends_with p s = false -> trim_end_matches_str p (s +:+ p) = s.
Proof.
  intros Hp Hs. unfold trim_end_matches_str. rewrite str_length_app.
  destruct (String.length p) as [|n] eqn:El; [by destruct p|].
  rewrite Nat.add_succ_r. cbn [trim_end_matches_str_fuel]. rewrite strip_suffix_app.
  rewrite (proj2 (is_empty_false p)) by done.
  unfold ends_with in Hs. destruct (strip_suffix p s) eqn:E; [done|].
  by destruct (String.length s + n); cbn; rewrite ?E.
Qed.

Lemma starts_with_char c x s : starts_with (String c "") (String x s) = (x =c c).
Proof. unfold starts_with, strip_prefix. rewrite Ascii.eqb_sym. by destruct (x =c c). Qed.

Lemma starts_with_absent c s : contains_char c s = false -> starts_with (String c "") s = false.
Proof.
  destruct s as [|x s]; [done|]. cbn [contains_char]. rewrite orb_false_iff. intros [H _].
  by rewrite starts_with_char.
Qed.
