(* ===== verification/Http.v ===== *)
(** * What the sources observe of HTTP requests and of the clock

    [http::HeaderMap], [http::HeaderValue] and [http::Uri] belong to the
    [http] crate: they enter the model only as records of the observations
    the sources make of them.  [std::time] is modelled. *)

From Stdlib Require Import ZArith Lia Ascii.
From stdpp Require Import base list strings numbers option countable.
From S2P Require Import Prelude RustStr.

Local Open Scope Z_scope.

(** A header value as the sources see it: [to_str()] is [Ok s] or fails. *)
Definition header_value : Type := option string.

(** [get] answers [headers.get(name)] (the first value of a name; names are
    case-insensitive and written in lower case here), [iter] is
    [headers.iter()] with names in the lower case the crate stores. *)
Record header_map := {
  hm_get : string -> option header_value;
  hm_iter : list (string * header_value);
}.

Definition contains_key (h : header_map) (name : string) : bool :=
  match hm_get h name with Some _ => true | None => false end.

(** A header map from the list of its lines, for concrete runs. *)
Definition headers_of (l : list (string * string)) : header_map := {|
  hm_get := fun name =>
    (fun kv => Some (snd kv)) <$> find (fun kv => String.eqb (fst kv) name) l;
  hm_iter := prod_map id Some <$> l;
|}.

(** [headers.insert(name, v)] and [headers.remove(name)]; [insert] replaces
    every value of the name. *)
Definition hm_remove (name : string) (h : header_map) : header_map := {|
  hm_get := fun n => if String.eqb n name then None else hm_get h n;
  hm_iter := filter (fun kv => fst kv <> name) (hm_iter h);
|}.
Definition hm_insert (name : string) (v : header_value) (h : header_map) : header_map := {|
  hm_get := fun n => if String.eqb n name then Some v else hm_get h n;
  hm_iter := filter (fun kv => fst kv <> name) (hm_iter h) ++ [(name, v)];
|}.

(** [IpAddr]; an IPv6 address is a 128-bit number. *)
Inductive ip_addr := V4 (a b c d : Z) | V6 (n : Z).
#[global] Instance ip_addr_eq_dec : EqDecision ip_addr.
Proof. solve_decision. Defined.
#[global] Instance ip_addr_countable : Countable ip_addr.
Proof.
  apply (inj_countable'
    (fun ip => match ip with V4 a b c d => inl (a, b, c, d) | V6 n => inr n end)
    (fun x => match x with inl (a, b, c, d) => V4 a b c d | inr n => V6 n end)).
  by intros [].
Defined.
Definition is_loopback (ip : ip_addr) : bool := match ip with V4 a _ _ _ => a =? 127 | V6 n => n =? 1 end.

(** [uri.path()], [uri.query()] and [uri.path_and_query()]. *)
Record uri := {
  uri_path : string;
  uri_query : option string;
  uri_path_and_query : option string;
}.

Definition uri_of (path : string) (query : option string) : uri := {|
  uri_path := path;
  uri_query := query;
  uri_path_and_query :=
    Some (match query with Some q => path +:+ "?" +:+ q | None => path end)%string;
|}.

(** ** [std::time]

    A [SystemTime] is the number of nanoseconds since [UNIX_EPOCH]; on the
    Unix targets its seconds are an [i64].  A [Duration] is a non-negative
    number of nanoseconds. *)
Definition system_time : Type := Z.
Definition duration : Type := Z.
Definition nanos_per_sec : Z := 1000000000.

Definition from_secs (n : Z) : duration := n * nanos_per_sec.
Definition as_secs (d : duration) : Z := d / nanos_per_sec.

Definition time_in_range (t : system_time) : bool :=
  (- (i64_max + 1) <=? t / nanos_per_sec) && (t / nanos_per_sec <=? i64_max).

(** [t + d]: panics when the seconds leave the [i64]. *)
Definition time_add {E} (t : system_time) (d : duration) : res E system_time :=
  if time_in_range (t + d) then Ok (t + d) else Panics.

(** [t.duration_since(u)] *)
Definition duration_since (t u : system_time) : option duration :=
  if u <=? t then Some (t - u) else None.

Lemma time_add_ok {E} t d r : @time_add E t d = Ok r -> r = t + d.
Proof. unfold time_add. case_match; congruence. Qed.
