(* ===== verification/Utils.v ===== *)
(** * s32p-support/src/utils.rs

    Byte ranges and the [Range] header, ETag conditions, the integer and
    date parsers the handlers use, and the server-side-encryption gate. *)

From Stdlib Require Import ZArith Lia Ascii.
From stdpp Require Import base list strings numbers option sorting.
From S2P Require Import Prelude RustStr Http.

Local Open Scope s3_scope.
Local Open Scope Z_scope.

(** The errors of this file, one per [anyhow!] site. *)
Inductive util_error :=
| EmptyValue (what : string)
| InvalidInt (what value : string)
| InvalidHttpDate (value : string)
| EmptyETagPrecondition
| NoUsableETag
| UnsupportedRangeUnit
| MultipleRanges
| BadRangeSyntax
| BadRangeSuffix
| BadRangeStart
| RangeStartBeyondEOF
| BadRangeEnd
| RangeEndBeforeStart
| EmptyRange
| TooManyRanges
| NoRanges.

#[global] Instance util_error_eq_dec : EqDecision util_error.
Proof. solve_decision. Defined.

(** ** Arithmetic that must not leave the [u64]

    Plain [-] and [+] panic in a debug build and wrap in a release build;
    [Panics] stands for either, and the theorems show it is never reached. *)
Definition sub64 {E} (a b : Z) : res E Z := if b <=? a then Ok (a - b) else Panics.
Definition add64 {E} (a b : Z) : res E Z := if a + b <=? u64_max then Ok (a + b) else Panics.

(** ** Byte ranges *)
Record ByteRange := { start : Z; end_excl : Z }.

#[global] Instance ByteRange_eq_dec : EqDecision ByteRange.
Proof. solve_decision. Defined.

Definition range_len (r : ByteRange) : Z := sat_sub (end_excl r) (start r).
Definition range_is_empty (r : ByteRange) : bool := range_len r =? 0.

(** [trim_slashes] *)
Definition trim_slashes (s : string) : string := trim_matches "/" (trim s).

(** [parse_u32] *)
Definition parse_u32 (s : string) : option Z := parse_u32_str s.

(** [parse_u64_strict] *)
Definition parse_u64_strict (s what : string) : res util_error Z :=
  let v := trim s in
  if is_empty v then Err (EmptyValue what)
  else ok_or (parse_u64_str v) (InvalidInt what s).

(** ** Ranges *)

(** [parse_one_range] *)
Definition parse_one_range (spec : string) (size : Z) : res util_error ByteRange :=
  '(a, b) ← ok_or (split_once "-" spec) BadRangeSyntax;
  if is_empty a then
    suffix ← ok_or (parse_u64_str b) BadRangeSuffix;
    if suffix =? 0 then Err BadRangeSuffix
    else Ok {| start := sat_sub size suffix; end_excl := size |}
  else
    start ← ok_or (parse_u64_str a) BadRangeStart;
    if size <=? start then Err RangeStartBeyondEOF
    else
      end_incl ←
        (if is_empty b then sub64 size 1
         else
           e ← ok_or (parse_u64_str b) BadRangeEnd;
           if size <=? e then sub64 size 1 else Ok e);
      if end_incl <? start then Err RangeEndBeforeStart
      else
        end_excl ← add64 end_incl 1;
        Ok {| start := start; end_excl := end_excl |}.

(** [parse_range_header] *)
Definition parse_range_header (h : string) (size : Z) : res util_error (option ByteRange) :=
  let h := trim h in
  if is_empty h then Ok None
  else match strip_prefix "bytes=" h with
       | None => Err UnsupportedRangeUnit
       | Some spec =>
           if contains_char "," spec then Err MultipleRanges
           else r ← parse_one_range spec size; Ok (Some r)
       end.

Definition MAX_RANGES : nat := 50.

(** The loop of [parse_ranges_header] over the comma-separated specs, with
    the ranges pushed so far. *)
Fixpoint parse_ranges_loop (specs : list string) (size : Z) (ranges : list ByteRange)
    : res util_error (list ByteRange) :=
  match specs with
  | [] => Ok ranges
  | spec :: rest =>
      let spec := trim spec in
      if is_empty spec then Err EmptyRange
      else if (length ranges =? MAX_RANGES)%nat then Err TooManyRanges
      else
        r ← parse_one_range spec size;
        parse_ranges_loop rest size (ranges ++ [r])
  end.

(** [parse_ranges_header] *)
Definition parse_ranges_header (h : string) (size : Z) : res util_error (list ByteRange) :=
  let h := trim h in
  match strip_prefix "bytes=" h with
  | None => Err UnsupportedRangeUnit
  | Some specs =>
      ranges ← parse_ranges_loop (split "," specs) size [];
      match ranges with
      | [] => Err NoRanges
      | _ => Ok ranges
      end
  end.

(** ** ETag conditions *)
Inductive ETagCondition :=
| Any
| OneOf (l : list string).

(** [ETagCondition::matches] *)
Definition etag_matches (c : ETagCondition) (current_etag_unquoted : string) : bool :=
  match c with
  | Any => true
  | OneOf l => existsb (fun t => t =s current_etag_unquoted) l
  end.

(** [s.strip_prefix(p).unwrap_or(s)] and its suffix twin *)
Definition strip_prefix_or (p s : string) : string := default s (strip_prefix p s).
Definition strip_suffix_or (p s : string) : string := default s (strip_suffix p s).

Definition quote : string := String "034" EmptyString.

(** [normalize_etag_token] *)
Definition normalize_etag_token (tok : string) : option string :=
  let t := trim tok in
  if is_empty t then None
  else if t =s "*" then Some "*"%string
  else
    let t := trim (strip_prefix_or "W/" t) in
    let t := strip_prefix_or quote t in
    let t := strip_suffix_or quote t in
    let t := trim t in
    if is_empty t then None else Some t.

(** [Vec<String>::sort] is [merge_sort str_le]; [dedup] drops consecutive repeats. *)
Fixpoint dedup (l : list string) : list string :=
  match l with
  | a :: ((b :: _) as rest) => if a =s b then dedup rest else a :: dedup rest
  | _ => l
  end.

(** The loop over the comma-separated parts: [inl tt] is the early return on
    [*], [inr out] the tokens pushed. *)
Fixpoint etag_tokens (parts : list string) (out : list string) : unit + list string :=
  match parts with
  | [] => inr out
  | part :: rest =>
      match normalize_etag_token part with
      | Some tok => if tok =s "*" then inl tt else etag_tokens rest (out ++ [tok])
      | None => etag_tokens rest out
      end
  end.

(** [parse_etag_condition] *)
Definition parse_etag_condition (value : string) : res util_error ETagCondition :=
  let raw := trim value in
  if is_empty raw then Err EmptyETagPrecondition
  else if (raw =s "*") || (raw =s (quote +:+ "*" +:+ quote)%string) then Ok Any
  else match etag_tokens (split "," raw) [] with
       | inl tt => Ok Any
       | inr [] => Err NoUsableETag
       | inr out => Ok (OneOf (dedup (merge_sort str_le out)))
       end.

(** ** Dates *)
Section dates.
(** [httpdate::parse_http_date] of the [httpdate] crate. *)
Context (httpdate_parse : string -> option system_time).

(** [parse_http_date] *)
Definition parse_http_date (s : string) : res util_error system_time :=
  ok_or (httpdate_parse (trim s)) (InvalidHttpDate s).

(** [parse_amz_last_modified_match] *)
Definition parse_amz_last_modified_match (v : string) : res util_error system_time :=
  let s := trim v in
  match parse_u64_str s with
  | Some secs => time_add 0 (from_secs secs)
  | None => parse_http_date s
  end.
End dates.

(** ** Server-side encryption *)
Definition SSE_C_HEADER_NAMES : list string :=
  [ "x-amz-server-side-encryption-customer-algorithm"
  ; "x-amz-server-side-encryption-customer-key"
  ; "x-amz-server-side-encryption-customer-key-md5"
  ; "x-amz-copy-source-server-side-encryption-customer-algorithm"
  ; "x-amz-copy-source-server-side-encryption-customer-key"
  ; "x-amz-copy-source-server-side-encryption-customer-key-md5" ]%string.

Definition SSE_ALGORITHM_HEADER : string := "x-amz-server-side-encryption"%string.

Definition SSE_KMS_AUX_HEADER_NAMES : list string :=
  [ "x-amz-server-side-encryption-aws-kms-key-id"
  ; "x-amz-server-side-encryption-context"
  ; "x-amz-server-side-encryption-bucket-key-enabled" ]%string.

Inductive DetectedSse := CustomerKey | ServerS3 | ServerKms | ServerKmsDsse | UnknownSse.

(** [detect_unsupported_sse] *)
Definition detect_unsupported_sse (headers : header_map) : option DetectedSse :=
  if existsb (contains_key headers) SSE_C_HEADER_NAMES then Some CustomerKey
  else match hm_get headers SSE_ALGORITHM_HEADER with
       | Some (Some v) =>
           let v := trim v in
           Some (if v =s "AES256" then ServerS3
                 else if v =s "aws:kms" then ServerKms
                 else if v =s "aws:kms:dsse" then ServerKmsDsse
                 else UnknownSse)
       | Some None => Some UnknownSse
       | None =>
           if existsb (contains_key headers) SSE_KMS_AUX_HEADER_NAMES then Some ServerKms
           else None
       end.

(** ** Facts on ranges *)

Lemma sub64_ok {E} a b : b <= a -> @sub64 E a b = Ok (a - b).
Proof. unfold sub64. intros. by rewrite (proj2 (Z.leb_le _ _)). Qed.

Lemma add64_ok {E} a b : a + b <= u64_max -> @add64 E a b = Ok (a + b).
Proof. unfold add64. intros. by rewrite (proj2 (Z.leb_le _ _)). Qed.

(** The end of a range whose start is inside the object: the code's
    [end_incl], with the clamp, never underflows. *)
Lemma range_end_ok b size :
  1 <= size ->
  (if is_empty b then sub64 size 1
   else e ← ok_or (parse_u64_str b) BadRangeEnd;
        if size <=? e then sub64 size 1 else Ok e)
  = if is_empty b then Ok (size - 1)
    else e ← ok_or (parse_u64_str b) BadRangeEnd; Ok (Z.min e (size - 1)).
Proof.
  intros Hs. rewrite !sub64_ok by lia. case_match; [done|].
  destruct (parse_u64_str b) as [e|]; cbn; [|done].
  destruct (Z.leb_spec size e); do 2 f_equal; lia.
Qed.

(** [parse_one_range] as one closed expression, with every arithmetic
    operation in range. *)
Lemma parse_one_range_eq spec size :
  is_u64 size ->
  parse_one_range spec size =
    match split_once "-" spec with
    | None => Err BadRangeSyntax
    | Some (a, b) =>
        if is_empty a then
          match parse_u64_str b with
          | None => Err BadRangeSuffix
          | Some n => if n =? 0 then Err BadRangeSuffix
                      else Ok {| start := sat_sub size n; end_excl := size |}
          end
        else match parse_u64_str a with
             | None => Err BadRangeStart
             | Some s =>
                 if size <=? s then Err RangeStartBeyondEOF
                 else match (if is_empty b then Some (size - 1)
                             else Z.min (size - 1) <$> parse_u64_str b) with
                      | None => Err BadRangeEnd
                      | Some e => if e <? s then Err RangeEndBeforeStart
                                  else Ok {| start := s; end_excl := e + 1 |}
                      end
             end
    end.
Proof.
  intros Hsize. unfold parse_one_range.
  destruct (split_once "-" spec) as [[a b]|]; cbn; [|done].
  destruct (is_empty a); [by destruct (parse_u64_str b)|].
  destruct (parse_u64_str a) as [s|] eqn:Ha; cbn; [|done].
  apply parse_u64_range in Ha. unfold is_u64 in *.
  destruct (Z.leb_spec size s); [done|]. rewrite range_end_ok by lia.
  destruct (is_empty b); cbn.
  - case_match; [done|]. by rewrite add64_ok by lia.
  - destruct (parse_u64_str b) as [e|]; cbn; [|done]. rewrite (Z.min_comm e).
    case_match; [done|]. by rewrite add64_ok by lia.
Qed.

Lemma parse_one_range_no_panic spec size :
  is_u64 size -> no_panic (parse_one_range spec size).
Proof. intros H. rewrite parse_one_range_eq by done. unfold no_panic. by repeat case_match. Qed.

Lemma parse_one_range_bounds spec size r :
  is_u64 size -> parse_one_range spec size = Ok r ->
  0 <= start r /\ end_excl r <= size /\
  (start r < end_excl r \/ size = 0 /\ r = {| start := 0; end_excl := 0 |}).
Proof.
  intros Hs. rewrite parse_one_range_eq by done. intros Hr. unfold is_u64 in *.
  destruct (split_once "-" spec) as [[a b]|]; [|done].
  destruct (is_empty a).
  - destruct (parse_u64_str b) as [n|] eqn:Hb; [|done].
    apply parse_u64_range in Hb as []. case_match; simplify_eq/=; reflect_all.
    unfold sat_sub. destruct (decide (size = 0)) as [->|]; [|lia].
    rewrite Z.max_l by lia. intuition lia.
  - destruct (parse_u64_str a) as [n|] eqn:Ha; [|done]. apply parse_u64_range in Ha as [].
    repeat case_match; simplify_eq/=; reflect_all; try lia.
    destruct (parse_u64_str b); simplify_eq/=; lia.
Qed.

Lemma parse_ranges_loop_ok specs size acc rs :
  (length acc <= MAX_RANGES)%nat ->
  parse_ranges_loop specs size acc = Ok rs <->
  exists new, rs = acc ++ new /\ (length rs <= MAX_RANGES)%nat
    /\ Forall2 (fun spec r => trim spec <> ""%string /\ parse_one_range (trim spec) size = Ok r)
         specs new.
Proof.
  revert acc. induction specs as [|spec specs IH]; intros acc Hacc; cbn.
  - split.
    + intros [= <-]. exists []. by rewrite app_nil_r.
    + intros (new & -> & _ & ->%Forall2_nil_inv_l). by rewrite app_nil_r.
  - destruct (is_empty (trim spec)) eqn:He.
    { apply is_empty_true in He. split; [done|].
      intros (new & _ & _ & (r & new' & [] & _)%Forall2_cons_inv_l). done. }
    apply is_empty_false in He. destruct (Nat.eqb_spec (length acc) MAX_RANGES) as [Hl|Hl].
    { split; [done|]. intros (new & -> & Hlen & (r & new' & _ & _ & ->)%Forall2_cons_inv_l).
      rewrite length_app in Hlen. cbn in Hlen. lia. }
    destruct (parse_one_range (trim spec) size) as [r| |] eqn:Hr; cbn.
    + rewrite IH by (rewrite length_app; cbn; lia). split.
      * intros (new & -> & Hlen & Hf). exists (r :: new). rewrite <- app_assoc in *. auto.
      * intros (new & -> & Hlen & (r' & new' & [_ Hr'] & Hf & ->)%Forall2_cons_inv_l).
        rewrite Hr in Hr'. injection Hr' as <-. exists new'. rewrite <- app_assoc. auto.
    + split; [done|]. intros (new & _ & _ & (r & new' & [] & _)%Forall2_cons_inv_l). congruence.
    + split; [done|]. intros (new & _ & _ & (r & new' & [] & _)%Forall2_cons_inv_l). congruence.
Qed.

Lemma parse_ranges_loop_no_panic specs size acc :
  is_u64 size -> no_panic (parse_ranges_loop specs size acc).
Proof.
  intros Hs. revert acc. induction specs as [|spec specs IH]; intros acc; cbn; [done|].
  repeat (case_match; [done|]). apply bind_no_panic; auto using parse_one_range_no_panic.
Qed.

Lemma contains_dash_digits s : all_bytes is_ascii_digit s = true -> contains_char "-" s = false.
Proof. by apply all_bytes_not_contains. Qed.

Lemma is_empty_print n : is_empty (print_u64 n) = false.
Proof. apply is_empty_false, print_u64_nonempty. Qed.

(** Whatever text a client sends, a range that [parse_one_range] accepts
    lies inside the object ([0 <= start], [end_excl <= size]) and is not
    empty, except on an empty object, where only the range [0..0] is
    produced; no subtraction or addition of the function leaves the [u64]. *)
Theorem parse_one_range_sound (spec : string) (size : Z) :
  is_u64 size ->
  no_panic (parse_one_range spec size) /\
  forall r, parse_one_range spec size = Ok r ->
    0 <= start r /\ end_excl r <= size /\
    (start r < end_excl r \/ size = 0 /\ r = {| start := 0; end_excl := 0 |}).
Proof.
  intros Hs. split; [by apply parse_one_range_no_panic|].
  intros r. by apply parse_one_range_bounds.
Qed.

(** A range [a-b] written in decimal, for any [u64] values, is the
    inclusive interval clamped to the object: [a .. min (b+1) size]; it is
    rejected exactly when [a] is at or past the end of the object or [b] is
    before [a]. *)
Theorem parse_one_range_print (a b size : Z) :
  is_u64 a -> is_u64 b -> is_u64 size ->
  parse_one_range (print_u64 a +:+ "-" +:+ print_u64 b) size =
    if size <=? a then Err RangeStartBeyondEOF
    else if b <? a then Err RangeEndBeforeStart
    else Ok {| start := a; end_excl := Z.min (b + 1) size |}.
Proof.
  intros Ha Hb Hs. rewrite parse_one_range_eq by done.
  rewrite (proj2 (split_once_some "-" _ (print_u64 a) (print_u64 b))).
  2:{ split; [done|]. apply contains_dash_digits, print_u64_digits. apply Ha. }
  rewrite !is_empty_print, !parse_print_u64 by done. cbn.
  destruct (Z.leb_spec size a); [done|].
  destruct (Z.ltb_spec (Z.min (size - 1) b) a), (Z.ltb_spec b a); try lia; [done|].
  do 2 f_equal. lia.
Qed.

Lemma parse_ranges_header_iff (h : string) (size : Z) (rs : list ByteRange) :
  parse_ranges_header h size = Ok rs <->
  exists specs, trim h = ("bytes=" +:+ specs)%string
    /\ (1 <= length rs <= MAX_RANGES)%nat
    /\ Forall2 (fun spec r => trim spec <> ""%string /\ parse_one_range (trim spec) size = Ok r)
         (split "," specs) rs.
Proof.
  unfold parse_ranges_header. destruct (strip_prefix "bytes=" (trim h)) as [specs|] eqn:Hp.
  - apply strip_prefix_some in Hp. split.
    + intros (rs' & Hrs & H)%bind_ok_inv.
      apply parse_ranges_loop_ok in Hrs as (new & -> & Hlen & Hf); [|apply Nat.le_0_l].
      destruct ([] ++ new) as [|r rs''] eqn:E; [done|]. cbn in E. simplify_eq.
      exists specs. repeat split; [done|cbn; lia|done|done].
    + intros (specs' & Hs & [Hge Hle] & Hf). rewrite Hp in Hs.
      apply str_app_inv_l in Hs as ->.
      rewrite (proj2 (parse_ranges_loop_ok _ _ [] rs (Nat.le_0_l _))) by (exists rs; auto).
      cbn. destruct rs; [cbn in Hge; lia|done].
  - split; [done|]. intros (specs & Hs & _). by rewrite Hs, strip_prefix_app in Hp.
Qed.

(** On a non-empty object every accepted range is non-empty and inside. *)
Lemma parse_ranges_header_bounds h size rs :
  is_u64 size -> 0 < size -> parse_ranges_header h size = Ok rs ->
  Forall (fun r => 0 <= start r < end_excl r /\ end_excl r <= size) rs.
Proof.
  intros Hs Hp (specs & _ & _ & Hf)%parse_ranges_header_iff.
  induction Hf as [|spec r specs' rs [_ Hr] _ IH]; constructor; [|done].
  apply parse_one_range_bounds in Hr as (? & ? & [?|[]]); [lia..|done].
Qed.

(** [parse_ranges_header] accepts a header exactly when it has the
    [bytes=] unit and at most [MAX_RANGES] comma-separated specs, all
    non-empty and all accepted by [parse_one_range]; the ranges come back in
    request order, one per spec, never empty. *)
Theorem parse_ranges_header_spec (h : string) (size : Z) (rs : list ByteRange) :
  parse_ranges_header h size = Ok rs <->
  exists specs, trim h = ("bytes=" +:+ specs)%string
    /\ (1 <= length rs <= MAX_RANGES)%nat
    /\ Forall2 (fun spec r => trim spec <> ""%string /\ parse_one_range (trim spec) size = Ok r)
         (split "," specs) rs.
Proof. apply parse_ranges_header_iff. Qed.

(** ** Facts on ETag conditions *)

(** The usable tokens of a header value. *)
Definition usable_tokens (value : string) : list string :=
  omap normalize_etag_token (split "," (trim value)).

Lemma etag_tokens_star parts out :
  "*"%string ∈ omap normalize_etag_token parts -> etag_tokens parts out = inl tt.
Proof.
  revert out. induction parts as [|p parts IH]; intros out; cbn.
  - by intros ?%not_elem_of_nil.
  - destruct (normalize_etag_token p) as [tok|]; [|apply IH].
    rewrite elem_of_cons. destruct (String.eqb_spec tok "*"); [done|].
    intros [?|?]; [congruence|auto].
Qed.

Lemma etag_tokens_no_star parts out :
  "*"%string ∉ omap normalize_etag_token parts ->
  etag_tokens parts out = inr (out ++ omap normalize_etag_token parts).
Proof.
  revert out. induction parts as [|p parts IH]; intros out; cbn.
  - by rewrite app_nil_r.
  - destruct (normalize_etag_token p) as [tok|]; [|apply IH].
    rewrite not_elem_of_cons. intros [Hne Hno].
    destruct (String.eqb_spec tok "*"); [congruence|]. by rewrite IH, <- app_assoc.
Qed.

Lemma dedup_cons2 a b l : dedup (a :: b :: l) = if a =s b then dedup (b :: l) else a :: dedup (b :: l).
Proof. done. Qed.

Lemma elem_of_dedup x l : x ∈ dedup l <-> x ∈ l.
Proof.
  induction l as [|a [|b l] IH]; [done..|]. rewrite dedup_cons2.
  destruct (String.eqb_spec a b) as [->|Hne].
  - rewrite IH, !elem_of_cons. naive_solver.
  - by rewrite (elem_of_cons (dedup _)), IH, <- elem_of_cons.
Qed.

Lemma dedup_sorted_NoDup l : StronglySorted str_le l -> NoDup (dedup l).
Proof.
  induction l as [|a [|b l] IH]; intros Hs; [constructor|apply NoDup_singleton|].
  rewrite dedup_cons2. apply StronglySorted_inv in Hs as [Hs Ha].
  destruct (String.eqb_spec a b) as [->|Hne]; [by apply IH|].
  constructor; [|by apply IH]. rewrite elem_of_dedup.
  rewrite Forall_forall in Ha. intros Hin. destruct Hne.
  apply (anti_symm str_le); [apply Ha; left|].
  apply StronglySorted_inv in Hs as [_ Hb]. rewrite Forall_forall in Hb.
  apply elem_of_cons in Hin as [->|Hin]; [done|]. by apply Hb.
Qed.

Lemma existsb_eq_elem l x : existsb (fun t => t =s x) l = true <-> x ∈ l.
Proof.
  rewrite existsb_exists, list_elem_of_In. split.
  - intros (y & Hy & ->%str_eqb_true). done.
  - intros Hx. exists x. split; [done|]. apply String.eqb_refl.
Qed.

(** What an accepted [If-Match]/[If-None-Match] value means: the parsed
    condition matches an ETag exactly when the value is [*] (plain, quoted,
    or among its tokens) or the ETag is one of its normalized tokens; the
    stored list has no duplicates and is not empty; a value with no usable
    token is rejected. *)
Theorem parse_etag_condition_spec (value : string) :
  match parse_etag_condition value with
  | Ok c =>
      (forall etag, etag_matches c etag = true <->
         trim value = "*"%string \/ trim value = (quote +:+ "*" +:+ quote)%string
         \/ "*"%string ∈ usable_tokens value \/ etag ∈ usable_tokens value)
      /\ match c with Any => True | OneOf l => NoDup l /\ l <> [] end
  | Err EmptyETagPrecondition => trim value = ""%string
  | Err e => e = NoUsableETag /\ usable_tokens value = []
  | Panics => False
  end.
Proof.
  unfold parse_etag_condition, usable_tokens.
  destruct (is_empty (trim value)) eqn:He; [by apply is_empty_true|].
  destruct (_ || _) eqn:Hstar.
  { apply orb_true_iff in Hstar as [?%str_eqb_true|?%str_eqb_true]; split; naive_solver. }
  apply orb_false_iff in Hstar as [H1%str_eqb_false H2%str_eqb_false].
  destruct (decide ("*"%string ∈ usable_tokens value)) as [Hin|Hin]; unfold usable_tokens in Hin.
  { rewrite etag_tokens_star by done. split; naive_solver. }
  rewrite etag_tokens_no_star by done. cbn [app].
  set (toks := omap normalize_etag_token (split "," (trim value))) in *.
  destruct toks as [|t toks'] eqn:E; [done|]. rewrite <- E in *. split.
  - intros etag. cbn. rewrite existsb_eq_elem, elem_of_dedup, merge_sort_Permutation. naive_solver.
  - split; [apply dedup_sorted_NoDup, StronglySorted_merge_sort; apply _|].
    intros Hnil. assert (Ht : t ∈ dedup (merge_sort str_le toks)).
    { rewrite elem_of_dedup, merge_sort_Permutation, E. left. }
    rewrite Hnil in Ht. by apply not_elem_of_nil in Ht.
Qed.

(** ** Facts on dates *)

Lemma digits_visible s : all_bytes is_ascii_digit s = true -> all_bytes is_visible s = true.
Proof. apply all_bytes_impl. intros c. unfold is_ascii_digit, is_visible, in_range. lia. Qed.

Lemma trim_print n : 0 <= n -> trim (print_u64 n) = print_u64 n.
Proof. intros. by apply trim_visible, digits_visible, print_u64_digits. Qed.

Lemma amz_last_modified_print httpdate_parse n :
  is_u64 n ->
  parse_amz_last_modified_match httpdate_parse (print_u64 n) =
    if n <=? i64_max then Ok (n * nanos_per_sec) else Panics.
Proof.
  intros Hn. unfold parse_amz_last_modified_match.
  rewrite trim_print, parse_print_u64 by (done || apply Hn).
  unfold time_add, time_in_range, from_secs.
  rewrite Z.add_0_l, Z.div_mul by done. unfold is_u64, i64_max in *.
  destruct (Z.leb_spec n (2 ^ 63 - 1)).
  - by rewrite (proj2 (andb_true_iff _ _)) by (split; lia).
  - by rewrite (proj2 (andb_false_iff _ _)) by (right; lia).
Qed.

(** The numeric form of [x-amz-if-match-last-modified-time]: a decimal
    number of seconds up to [i64::MAX] is that time after the epoch; every
    larger [u64] makes [UNIX_EPOCH + Duration] overflow, so the parser panics
    instead of rejecting the header. *)
Theorem parse_amz_last_modified_match_numeric (httpdate_parse : string -> option system_time) (n : Z) :
  is_u64 n ->
  parse_amz_last_modified_match httpdate_parse (print_u64 n) =
    if n <=? i64_max then Ok (n * nanos_per_sec) else Panics.
Proof. apply amz_last_modified_print. Qed.

(** ** Facts on server-side encryption *)

Lemma Forall_existsb {A} (f : A -> bool) l :
  Forall (fun x => f x = false) l <-> existsb f l = false.
Proof.
  induction l as [|x l IH]; cbn; [split; auto|].
  rewrite Forall_cons, IH, orb_false_iff. done.
Qed.

Lemma Exists_existsb {A} (f : A -> bool) l :
  Exists (fun x => f x = true) l <-> existsb f l = true.
Proof.
  induction l as [|x l IH]; cbn; [split; [inversion 1|done]|].
  rewrite Exists_cons, IH, orb_true_iff. done.
Qed.

(** The encryption gate lets a request pass ([None]) exactly when it
    carries none of the SSE-C, SSE or SSE-KMS headers, whatever their
    values; and a request with any customer-key header is reported as
    SSE-C. *)
Theorem detect_unsupported_sse_none (headers : header_map) :
  (detect_unsupported_sse headers = None <->
    Forall (fun n => contains_key headers n = false)
      (SSE_C_HEADER_NAMES ++ [SSE_ALGORITHM_HEADER] ++ SSE_KMS_AUX_HEADER_NAMES))
  /\ (detect_unsupported_sse headers = Some CustomerKey <->
      Exists (fun n => contains_key headers n = true) SSE_C_HEADER_NAMES).
Proof.
  unfold detect_unsupported_sse. rewrite !Forall_app, !Forall_existsb, Exists_existsb.
  destruct (existsb _ SSE_C_HEADER_NAMES); [split; split; naive_solver|].
  assert (Ha : existsb (contains_key headers) [SSE_ALGORITHM_HEADER] =
               match hm_get headers SSE_ALGORITHM_HEADER with Some _ => true | None => false end)
    by apply orb_false_r.
  rewrite Ha.
  destruct (hm_get headers SSE_ALGORITHM_HEADER) as [[v|]|]; [| split; split; naive_solver|].
  - repeat case_match; split; split; naive_solver.
  - destruct (existsb _ SSE_KMS_AUX_HEADER_NAMES); split; split; naive_solver.
Qed.

(** ** Concrete instances *)
Lemma parse_one_range_sound_witness :
  is_u64 200 /\ (0 <= 100 /\ 200 <= 200 /\ (100 < 200 \/ 200 = 0 /\ {| start := 100; end_excl := 200 |} = {| start := 0; end_excl := 0 |})).
Proof.
  assert (H : is_u64 200) by (unfold is_u64, u64_max; lia).
  split; [exact H|].
  exact (proj2 (parse_one_range_sound "100-" 200 H) {| start := 100; end_excl := 200 |} eq_refl).
Defined.

Lemma parse_one_range_print_witness :
  parse_one_range (print_u64 5 +:+ "-" +:+ print_u64 500) 200 = Ok {| start := 5; end_excl := 200 |}.
Proof.
  rewrite (parse_one_range_print 5 500 200) by (unfold is_u64, u64_max; lia). reflexivity.
Defined.

Lemma parse_amz_last_modified_match_numeric_witness :
  parse_amz_last_modified_match (fun _ => None) (print_u64 (2 ^ 63)) = Panics.
Proof.
  rewrite (parse_amz_last_modified_match_numeric (fun _ => None) (2 ^ 63))
    by (unfold is_u64, u64_max; lia).
  reflexivity.
Defined.
