(* ===== verification/Preconditions.v ===== *)
(** * s32p-support/src/preconditions.rs

    Conditional headers: parsing, and the three evaluators (read, write and
    copy source). *)

From Stdlib Require Import ZArith Lia Ascii.
From stdpp Require Import base list strings numbers option.
From S2P Require Import Prelude RustStr Http Utils.

Local Open Scope s3_scope.
Local Open Scope Z_scope.

(** [trunc_to_seconds] *)
Definition trunc_to_seconds (t : system_time) : system_time :=
  match duration_since t 0 with
  | Some d => from_secs (as_secs d)
  | None => t
  end.

Record ConditionalHeaders := {
  if_match : option ETagCondition;
  if_none_match : option ETagCondition;
  if_modified_since : option system_time;
  if_unmodified_since : option system_time;
  copy_source_if_match : option ETagCondition;
  copy_source_if_none_match : option ETagCondition;
  copy_source_if_modified_since : option system_time;
  copy_source_if_unmodified_since : option system_time;
  amz_if_match_size : option Z;
  amz_if_match_last_modified_time : option system_time;
}.

Inductive PreconditionOutcome := Proceed | NotModified | PreconditionFailed.

Inductive cond_error :=
| NotAscii (name : string)
| EmptyHeader (name : string)
| BadValue (e : util_error).

(** [header_to_str] *)
Definition header_to_str (headers : header_map) (name : string) : res cond_error (option string) :=
  match hm_get headers name with
  | None => Ok None
  | Some v =>
      s ← ok_or v (NotAscii name);
      let s := trim s in
      if is_empty s then Err (EmptyHeader name) else Ok (Some s)
  end.

(** [match header_to_str(..)? { Some(v) => Some(parse(v)?), None => None }] *)
Definition lift_util {A} (r : res util_error A) : res cond_error A :=
  match r with Ok a => Ok a | Err e => Err (BadValue e) | Panics => Panics end.

Definition header_with {A} (headers : header_map) (name : string)
    (parse : string -> res util_error A) : res cond_error (option A) :=
  o ← header_to_str headers name;
  match o with
  | Some v => a ← lift_util (parse v); Ok (Some a)
  | None => Ok None
  end.

Section parse.
Context (httpdate_parse : string -> option system_time).

(** [parse_conditional_headers] *)
Definition parse_conditional_headers (headers : header_map) : res cond_error ConditionalHeaders :=
  let date := parse_http_date httpdate_parse in
  if_match ← header_with headers "if-match" parse_etag_condition;
  if_none_match ← header_with headers "if-none-match" parse_etag_condition;
  if_modified_since ← header_with headers "if-modified-since" date;
  if_unmodified_since ← header_with headers "if-unmodified-since" date;
  copy_source_if_match ← header_with headers "x-amz-copy-source-if-match" parse_etag_condition;
  copy_source_if_none_match ←
    header_with headers "x-amz-copy-source-if-none-match" parse_etag_condition;
  copy_source_if_modified_since ← header_with headers "x-amz-copy-source-if-modified-since" date;
  copy_source_if_unmodified_since ←
    header_with headers "x-amz-copy-source-if-unmodified-since" date;
  amz_if_match_size ← header_with headers "x-amz-if-match-size"
                        (fun v => parse_u64_strict v "x-amz-if-match-size");
  amz_if_match_last_modified_time ← header_with headers "x-amz-if-match-last-modified-time"
                                      (parse_amz_last_modified_match httpdate_parse);
  Ok {| if_match := if_match;
        if_none_match := if_none_match;
        if_modified_since := if_modified_since;
        if_unmodified_since := if_unmodified_since;
        copy_source_if_match := copy_source_if_match;
        copy_source_if_none_match := copy_source_if_none_match;
        copy_source_if_modified_since := copy_source_if_modified_since;
        copy_source_if_unmodified_since := copy_source_if_unmodified_since;
        amz_if_match_size := amz_if_match_size;
        amz_if_match_last_modified_time := amz_if_match_last_modified_time |}.
End parse.

(** ** Evaluation *)

(** [if let Some(a) = o { if test(a) { .. } }] *)
Definition opt_test {A} (o : option A) (test : A -> bool) : bool :=
  match o with Some a => test a | None => false end.

(** [evaluate_read_preconditions] *)
Definition evaluate_read_preconditions (cond : ConditionalHeaders)
    (current_etag_unquoted : string) (last_modified : system_time) : PreconditionOutcome :=
  let last_modified := trunc_to_seconds last_modified in
  if opt_test (if_match cond) (fun ifm => negb (etag_matches ifm current_etag_unquoted))
  then PreconditionFailed
  else if opt_test (if_unmodified_since cond) (fun ius => trunc_to_seconds ius <? last_modified)
  then PreconditionFailed
  else if opt_test (if_none_match cond) (fun inm => etag_matches inm current_etag_unquoted)
  then NotModified
  else if opt_test (if_modified_since cond) (fun ims => last_modified <=? trunc_to_seconds ims)
  then NotModified
  else Proceed.

(** [evaluate_write_preconditions] *)
Definition evaluate_write_preconditions (cond : ConditionalHeaders)
    (existing : option (string * system_time)) : PreconditionOutcome :=
  if opt_test (if_match cond) (fun ifm =>
       match existing with
       | Some (etag, _) => negb (etag_matches ifm etag)
       | None => true
       end) then PreconditionFailed
  else if opt_test (if_none_match cond) (fun inm =>
       match existing with
       | Some (etag, _) => etag_matches inm etag
       | None => false
       end) then PreconditionFailed
  else if opt_test (if_unmodified_since cond) (fun ius =>
       match existing with
       | Some (_, lm) => trunc_to_seconds ius <? trunc_to_seconds lm
       | None => false
       end) then PreconditionFailed
  else if opt_test (if_modified_since cond) (fun ims =>
       match existing with
       | Some (_, lm) => trunc_to_seconds lm <=? trunc_to_seconds ims
       | None => true
       end) then PreconditionFailed
  else Proceed.

(** [evaluate_copy_source_preconditions] *)
Definition evaluate_copy_source_preconditions (cond : ConditionalHeaders)
    (current_etag_unquoted : string) (last_modified : system_time) : PreconditionOutcome :=
  let last_modified := trunc_to_seconds last_modified in
  if opt_test (copy_source_if_match cond) (fun ifm => negb (etag_matches ifm current_etag_unquoted))
  then PreconditionFailed
  else if opt_test (copy_source_if_unmodified_since cond)
            (fun ius => trunc_to_seconds ius <? last_modified)
  then PreconditionFailed
  else if opt_test (copy_source_if_none_match cond)
            (fun inm => etag_matches inm current_etag_unquoted)
  then PreconditionFailed
  else if opt_test (copy_source_if_modified_since cond)
            (fun ims => last_modified <=? trunc_to_seconds ims)
  then PreconditionFailed
  else Proceed.

(** ** Facts *)

Lemma trunc_to_seconds_nonneg t : 0 <= t -> trunc_to_seconds t = t / nanos_per_sec * nanos_per_sec.
Proof.
  intros. unfold trunc_to_seconds, duration_since, from_secs, as_secs.
  rewrite (proj2 (Z.leb_le _ _)), Z.sub_0_r by done. done.
Qed.

Lemma trunc_ltb a b :
  0 <= a -> 0 <= b ->
  (trunc_to_seconds a <? trunc_to_seconds b) = (a / nanos_per_sec <? b / nanos_per_sec).
Proof.
  intros. rewrite !trunc_to_seconds_nonneg by done. unfold nanos_per_sec.
  destruct (Z.ltb_spec (a / 1000000000) (b / 1000000000)); lia.
Qed.

Lemma trunc_leb a b :
  0 <= a -> 0 <= b ->
  (trunc_to_seconds a <=? trunc_to_seconds b) = (a / nanos_per_sec <=? b / nanos_per_sec).
Proof.
  intros. rewrite !trunc_to_seconds_nonneg by done. unfold nanos_per_sec.
  destruct (Z.leb_spec (a / 1000000000) (b / 1000000000)); lia.
Qed.

Lemma trunc_idem t : trunc_to_seconds (trunc_to_seconds t) = trunc_to_seconds t.
Proof.
  destruct (Z.le_gt_cases 0 t).
  - rewrite (trunc_to_seconds_nonneg t) by done. rewrite trunc_to_seconds_nonneg.
    + by rewrite Z.div_mul.
    + unfold nanos_per_sec. pose proof (Z.div_pos t 1000000000). lia.
  - unfold trunc_to_seconds at 2 3, duration_since.
    rewrite (proj2 (Z.leb_gt _ _)) by lia. unfold trunc_to_seconds, duration_since.
    by rewrite (proj2 (Z.leb_gt _ _)) by lia.
Qed.

(** ** What the evaluators decide, as propositions

    A time condition compares whole seconds: [modified_after t u] says that
    second [t/10^9] is later than second [u/10^9]. *)
Definition modified_after (t u : system_time) : Prop := u / nanos_per_sec < t / nanos_per_sec.

(** [holds o P]: the header is present and [P] holds of its value. *)
Definition holds {A} (o : option A) (P : A -> Prop) : Prop := exists a, o = Some a /\ P a.

Lemma opt_test_spec {A} (o : option A) (test : A -> bool) (P : A -> Prop) :
  (forall a, o = Some a -> test a = true <-> P a) -> opt_test o test = true <-> holds o P.
Proof. unfold holds. destruct o; cbn; naive_solver. Qed.

Lemma opt_test_reflect {A} (o : option A) (test : A -> bool) (P : A -> Prop) :
  (forall a, o = Some a -> test a = true <-> P a) -> reflect (holds o P) (opt_test o test).
Proof. intros H%opt_test_spec. apply iff_reflect. by symmetry. Qed.

(** Every date header of the request is absent or after the epoch. *)
Definition after_epoch (o : option system_time) : Prop := forall t, o = Some t -> 0 <= t.

Lemma unmodified_since_reflect o lm :
  0 <= lm -> after_epoch o ->
  reflect (holds o (modified_after lm))
    (opt_test o (fun ius => trunc_to_seconds ius <? trunc_to_seconds lm)).
Proof.
  intros Hlm Ho. apply opt_test_reflect. intros t Ht%Ho.
  rewrite trunc_ltb by done. apply Z.ltb_lt.
Qed.

Lemma modified_since_reflect o lm :
  0 <= lm -> after_epoch o ->
  reflect (holds o (fun t => ~ modified_after lm t))
    (opt_test o (fun ims => trunc_to_seconds lm <=? trunc_to_seconds ims)).
Proof.
  intros Hlm Ho. apply opt_test_reflect. intros t Ht%Ho.
  rewrite trunc_leb by done. unfold modified_after. rewrite Z.leb_le. lia.
Qed.

Lemma match_reflect o etag :
  reflect (holds o (fun c => etag_matches c etag = false))
    (opt_test o (fun c => negb (etag_matches c etag))).
Proof. apply opt_test_reflect. intros c _. apply negb_true_iff. Qed.

Lemma none_match_reflect o etag :
  reflect (holds o (fun c => etag_matches c etag = true))
    (opt_test o (fun c => etag_matches c etag)).
Proof. by apply opt_test_reflect. Qed.

(** The two ways a conditional header stops a request. *)
Definition if_match_fails (c : option ETagCondition) (u : option system_time) etag lm : Prop :=
  holds c (fun c => etag_matches c etag = false) \/ holds u (modified_after lm).
Definition unchanged (c : option ETagCondition) (m : option system_time) etag lm : Prop :=
  holds c (fun c => etag_matches c etag = true) \/ holds m (fun t => ~ modified_after lm t).

(** A read is answered 412 exactly when [If-Match] is present and does
    not match or [If-Unmodified-Since] is earlier (in whole seconds) than the
    modification time; otherwise 304 exactly when [If-None-Match] matches or
    the object was not modified after [If-Modified-Since]; otherwise it
    proceeds.  Times after the epoch. *)
Theorem evaluate_read_preconditions_spec (cond : ConditionalHeaders) (etag : string) (lm : system_time) :
  0 <= lm -> after_epoch (if_unmodified_since cond) -> after_epoch (if_modified_since cond) ->
  let failed := if_match_fails (if_match cond) (if_unmodified_since cond) etag lm in
  let same := unchanged (if_none_match cond) (if_modified_since cond) etag lm in
  match evaluate_read_preconditions cond etag lm with
  | PreconditionFailed => failed
  | NotModified => ~ failed /\ same
  | Proceed => ~ failed /\ ~ same
  end.
Proof.
  intros Hlm Hu Hm. unfold evaluate_read_preconditions, if_match_fails, unchanged.
  destruct (match_reflect (if_match cond) etag); [tauto|].
  destruct (unmodified_since_reflect _ lm Hlm Hu); [tauto|].
  destruct (none_match_reflect (if_none_match cond) etag); [tauto|].
  destruct (modified_since_reflect _ lm Hlm Hm); tauto.
Qed.

(** The copy-source conditions: the copy proceeds exactly when neither
    the failure conditions nor the "unchanged" conditions of the source hold
    (where a read would answer 304, a copy answers 412). *)
Theorem evaluate_copy_source_preconditions_spec (cond : ConditionalHeaders) (etag : string) (lm : system_time) :
  0 <= lm -> after_epoch (copy_source_if_unmodified_since cond) ->
  after_epoch (copy_source_if_modified_since cond) ->
  let stopped :=
    if_match_fails (copy_source_if_match cond) (copy_source_if_unmodified_since cond) etag lm \/
    unchanged (copy_source_if_none_match cond) (copy_source_if_modified_since cond) etag lm in
  match evaluate_copy_source_preconditions cond etag lm with
  | PreconditionFailed => stopped
  | NotModified => False
  | Proceed => ~ stopped
  end.
Proof.
  intros Hlm Hu Hm. unfold evaluate_copy_source_preconditions, if_match_fails, unchanged.
  destruct (match_reflect (copy_source_if_match cond) etag); [tauto|].
  destruct (unmodified_since_reflect _ lm Hlm Hu); [tauto|].
  destruct (none_match_reflect (copy_source_if_none_match cond) etag); [tauto|].
  destruct (modified_since_reflect _ lm Hlm Hm); tauto.
Qed.

(** What the conditional headers ask of a write: of the object that is there
    ([existing] is its ETag and modification time), or of its absence. *)
Definition write_allowed (cond : ConditionalHeaders) (existing : option (string * system_time)) : Prop :=
  match existing with
  | Some (etag, lm) =>
      (forall c, if_match cond = Some c -> etag_matches c etag = true) /\
      (forall c, if_none_match cond = Some c -> etag_matches c etag = false) /\
      (forall t, if_unmodified_since cond = Some t -> trunc_to_seconds lm <= trunc_to_seconds t) /\
      (forall t, if_modified_since cond = Some t -> trunc_to_seconds t < trunc_to_seconds lm)
  | None => if_match cond = None /\ if_modified_since cond = None
  end.

Lemma ifs_none {A} (a b c d : bool) (bad good : A) : bad <> good ->
  (if a then bad else if b then bad else if c then bad else if d then bad else good) = good <->
  a = false /\ b = false /\ c = false /\ d = false.
Proof. intros. destruct a, b, c, d; naive_solver. Qed.

Lemma opt_test_false {A} (o : option A) test : opt_test o test = false <-> forall a, o = Some a -> test a = false.
Proof. destruct o; cbn; naive_solver. Qed.

Lemma write_allowed_iff cond existing : evaluate_write_preconditions cond existing = Proceed <-> write_allowed cond existing.
Proof.
  unfold evaluate_write_preconditions, write_allowed.
  rewrite (ifs_none _ _ _ _ PreconditionFailed Proceed), !opt_test_false by done.
  destruct existing as [[etag lm]|].
  - setoid_rewrite negb_false_iff. setoid_rewrite Z.ltb_ge. setoid_rewrite Z.leb_gt. tauto.
  - destruct (if_match cond), (if_modified_since cond); naive_solver.
Qed.

Lemma write_not_failed cond existing : evaluate_write_preconditions cond existing <> PreconditionFailed -> write_allowed cond existing.
Proof. intros H. apply write_allowed_iff. revert H. unfold evaluate_write_preconditions. by repeat case_match. Qed.

(** A conditional write: onto an existing object it proceeds exactly
    when a conditional read of that object would (a 304 becomes a 412); onto
    no object it proceeds exactly when neither [If-Match] nor
    [If-Modified-Since] is present, so [If-None-Match: *] alone creates and
    never overwrites. *)
Theorem evaluate_write_preconditions_spec (cond : ConditionalHeaders) (existing : option (string * system_time)) :
  evaluate_write_preconditions cond existing =
    match existing with
    | Some (etag, lm) =>
        match evaluate_read_preconditions cond etag lm with
        | Proceed => Proceed
        | _ => PreconditionFailed
        end
    | None =>
        match if_match cond, if_modified_since cond with
        | None, None => Proceed
        | _, _ => PreconditionFailed
        end
    end.
Proof.
  unfold evaluate_write_preconditions, evaluate_read_preconditions, opt_test.
  destruct existing as [[etag lm]|].
  - by repeat case_match.
  - by destruct (if_match cond), (if_none_match cond), (if_unmodified_since cond),
      (if_modified_since cond).
Qed.

(** ** Parsing never panics but for one header *)

Lemma lift_util_no_panic {A} (r : res util_error A) : no_panic r -> no_panic (lift_util r).
Proof. by destruct r. Qed.

Lemma header_with_no_panic {A} headers name (parse : string -> res util_error A) :
  (forall v, hm_get headers name <> None -> no_panic (parse v)) ->
  no_panic (header_with headers name parse).
Proof.
  intros Hp. unfold header_with, header_to_str.
  destruct (hm_get headers name) as [[v|]|]; [|done..]. cbn.
  case_match; [done|]. cbn. apply bind_no_panic; [|done]. by apply lift_util_no_panic, Hp.
Qed.

Lemma parse_etag_condition_no_panic v : no_panic (parse_etag_condition v).
Proof. unfold parse_etag_condition. repeat case_match; done. Qed.

Lemma parse_u64_strict_no_panic v w : no_panic (parse_u64_strict v w).
Proof. unfold parse_u64_strict. case_match; auto with s3. Qed.

Lemma parse_conditional_headers_safe httpdate_parse headers :
  hm_get headers "x-amz-if-match-last-modified-time" = None ->
  no_panic (parse_conditional_headers httpdate_parse headers).
Proof.
  intros Hno. unfold parse_conditional_headers.
  repeat (apply bind_no_panic;
    [apply header_with_no_panic; intros ??;
     solve [ apply parse_etag_condition_no_panic | apply parse_u64_strict_no_panic
           | apply ok_or_no_panic | congruence ]
    | intros ? _]).
  done.
Qed.

(** [parse_conditional_headers] never panics on a request without the
    [x-amz-if-match-last-modified-time] header; a request whose only
    conditional header is that one, with a number of seconds past
    [i64::MAX], makes it panic. *)
Theorem parse_conditional_headers_panic (httpdate_parse : string -> option system_time) :
  (forall headers, hm_get headers "x-amz-if-match-last-modified-time" = None ->
     no_panic (parse_conditional_headers httpdate_parse headers)) /\
  (forall n, i64_max < n <= u64_max ->
     parse_conditional_headers httpdate_parse
       (headers_of [("x-amz-if-match-last-modified-time", print_u64 n)]%string) = Panics).
Proof.
  split; [apply parse_conditional_headers_safe|]. intros n Hn.
  unfold parse_conditional_headers, header_with, header_to_str.
  cbn -[trim print_u64 parse_amz_last_modified_match].
  rewrite trim_print, is_empty_print by (unfold i64_max in Hn; lia).
  cbn -[print_u64 parse_amz_last_modified_match].
  rewrite amz_last_modified_print by (unfold is_u64, i64_max in *; lia).
  by rewrite (proj2 (Z.leb_gt _ _)) by lia.
Qed.

(** Revalidation: a client that echoes the [Last-Modified] second it was
    given gets 304 for [If-Modified-Since] and is never failed by
    [If-Unmodified-Since], however many nanoseconds the file time has. *)
Theorem read_revalidation (cond : ConditionalHeaders) (etag : string) (lm : system_time) :
  if_match cond = None -> if_none_match cond = None ->
  (if_modified_since cond = Some (trunc_to_seconds lm) -> if_unmodified_since cond = None ->
   evaluate_read_preconditions cond etag lm = NotModified) /\
  (if_unmodified_since cond = Some (trunc_to_seconds lm) -> if_modified_since cond = None ->
   evaluate_read_preconditions cond etag lm = Proceed).
Proof.
  intros H1 H2. unfold evaluate_read_preconditions. rewrite H1, H2.
  split; intros -> ->; cbn; rewrite trunc_idem.
  - by rewrite Z.leb_refl.
  - by rewrite Z.ltb_irrefl.
Qed.

(** ** Concrete instances *)
Definition since (t : system_time) : ConditionalHeaders := {|
  if_match := None; if_none_match := None; if_modified_since := Some t; if_unmodified_since := None;
  copy_source_if_match := None; copy_source_if_none_match := None;
  copy_source_if_modified_since := Some t; copy_source_if_unmodified_since := None;
  amz_if_match_size := None; amz_if_match_last_modified_time := None |}.

Lemma evaluate_read_preconditions_spec_witness :
  evaluate_read_preconditions (since 2500000000) "e" 2700000000 = NotModified /\
  unchanged None (Some 2500000000) "e" 2700000000.
Proof.
  split; [reflexivity|].
  pose proof (evaluate_read_preconditions_spec (since 2500000000) "e" 2700000000
    ltac:(lia) ltac:(intros ? [=]) ltac:(intros ? [= <-]; lia)) as H.
  exact (proj2 H).
Defined.

Lemma evaluate_copy_source_preconditions_spec_witness :
  evaluate_copy_source_preconditions (since 2500000000) "e" 2700000000 = PreconditionFailed /\
  (if_match_fails None None "e" 2700000000 \/ unchanged None (Some 2500000000) "e" 2700000000).
Proof.
  split; [reflexivity|].
  exact (evaluate_copy_source_preconditions_spec (since 2500000000) "e" 2700000000
    ltac:(lia) ltac:(intros ? [=]) ltac:(intros ? [= <-]; lia)).
Defined.

Lemma parse_conditional_headers_panic_witness :
  parse_conditional_headers (fun _ => None)
    (headers_of [("x-amz-if-match-last-modified-time", print_u64 (2 ^ 63))]%string) = Panics.
Proof.
  apply (proj2 (parse_conditional_headers_panic (fun _ => None))).
  unfold i64_max, u64_max. lia.
Defined.

Lemma read_revalidation_witness :
  evaluate_read_preconditions (since (trunc_to_seconds 2700000000)) "e" 2700000000 = NotModified.
Proof.
  apply (proj1 (read_revalidation (since (trunc_to_seconds 2700000000)) "e" 2700000000
    eq_refl eq_refl)); reflexivity.
Defined.
