(* ===== verification/UriEncoding.v ===== *)
(** * s32p-support/src/uri_encoding.rs

    Percent-encoding of list responses, the canonical path SigV4
    verification tries, and the segment-wise decoding of object keys. *)

From Stdlib Require Import ZArith Lia Ascii.
From stdpp Require Import base list strings numbers option.
From S2P Require Import Prelude RustStr.

Local Open Scope s3_scope.
Local Open Scope string_scope.

(** ** Hexadecimal escapes *)

Definition is_unreserved (c : ascii) : bool :=
  is_ascii_alphanumeric c || (c =c "-") || (c =c ".") || (c =c "_") || (c =c "~").

(** [is_unreserved_or_slash] *)
Definition is_unreserved_or_slash (c : ascii) : bool := is_unreserved c || (c =c "/").

Definition HEX : string := "0123456789ABCDEF".

(** [HEX[n as usize]] *)
Definition hex_at (n : Z) : ascii := default "0"%char (String.get (Z.to_nat n) HEX).

(** The three bytes pushed for a byte outside the kept set. *)
Definition push_escape (b : ascii) (out : string) : string :=
  String "%" (String (hex_at (Z.shiftr (byte_val b) 4))
               (String (hex_at (Z.land (byte_val b) 0x0F)) out)).

(** [canonicalize_uri_path_for_sigv4]: the loop over the byte index, as a
    recursion on the bytes that remain ([i + 2 < len] is "two more bytes"). *)
Fixpoint canonicalize_uri_path_for_sigv4 (path : string) : string :=
  match path with
  | "" => ""
  | String b rest =>
      let other :=
        if is_unreserved_or_slash b then String b (canonicalize_uri_path_for_sigv4 rest)
        else push_escape b (canonicalize_uri_path_for_sigv4 rest) in
      match rest with
      | String h1 (String h2 rest2) =>
          if (b =c "%") && is_ascii_hexdigit h1 && is_ascii_hexdigit h2
          then String "%" (String (ascii_upper h1) (String (ascii_upper h2)
                 (canonicalize_uri_path_for_sigv4 rest2)))
          else other
      | _ => other
      end
  end.

(** ** Decoding, and the encoding of list responses *)
Section percent_encoding.
(** [percent_decode_str(s).decode_utf8()] of the [percent-encoding] crate:
    [None] when the decoded bytes are not UTF-8. *)
Context (percent_decode_utf8 : string -> option string).

(** The loop body: [(i, seg)] of [input.split('/').enumerate()]. *)
Definition decode_segment (seg : string) : string :=
  match percent_decode_utf8 seg with
  | Some decoded => decoded
  | None => seg
  end.

Fixpoint decode_segments (first : bool) (segs : list string) (out : string) : string :=
  match segs with
  | [] => out
  | seg :: rest =>
      let out := if first then out else out +:+ "/" in
      decode_segments false rest (out +:+ decode_segment seg)
  end.

(** [percent_decode_path_segments_lossy] *)
Definition percent_decode_path_segments_lossy (input : string) : string :=
  if negb (contains_char "%" input) then input
  else decode_segments true (split "/" input) "".

(** [utf8_percent_encode(input, set).to_string()] of the same crate: the
    set is the predicate "this byte is encoded". *)
Context (utf8_percent_encode : (ascii -> bool) -> string -> string).

(** [S3_URL_ENCODE_SET] *)
Definition S3_URL_ENCODE_SET (c : ascii) : bool :=
  negb (is_ascii_alphanumeric c)
  && negb (c =c "-") && negb (c =c ".") && negb (c =c "_") && negb (c =c "~").

(** [s3_url_encode] *)
Definition s3_url_encode (input : string) : string :=
  utf8_percent_encode S3_URL_ENCODE_SET input.
End percent_encoding.

(** ** The meaning of an escaped path

    [unescape] is the reference decoder: a [%] followed by two hexadecimal
    digits stands for a byte, anything else for itself. *)
Definition hex_val (c : ascii) : Z :=
  let v := byte_val c in
  if is_ascii_digit c then v - 48 else if in_range 65 70 c then v - 55 else v - 87.

Definition escape_byte (h1 h2 : ascii) : ascii := byte_of (16 * hex_val h1 + hex_val h2).

Fixpoint unescape (s : string) : string :=
  match s with
  | "" => ""
  | String b rest =>
      match rest with
      | String h1 (String h2 rest2) =>
          if (b =c "%") && is_ascii_hexdigit h1 && is_ascii_hexdigit h2
          then String (escape_byte h1 h2) (unescape rest2)
          else String b (unescape rest)
      | _ => String b (unescape rest)
      end
  end.

(** Strings made of kept bytes and upper-case escapes. *)
Definition is_upper_hex (c : ascii) : bool := is_ascii_digit c || in_range 65 70 c.

Inductive canonical : string -> Prop :=
| canonical_nil : canonical ""
| canonical_keep c s : is_unreserved_or_slash c = true -> canonical s -> canonical (String c s)
| canonical_escape h1 h2 s :
    is_upper_hex h1 = true -> is_upper_hex h2 = true -> canonical s ->
    canonical (String "%" (String h1 (String h2 s))).
#[export] Hint Constructors canonical : s3.

(** ** Facts about single bytes, by enumeration *)
Ltac byte_cases c := destruct c as [[] [] [] [] [] [] [] []]; vm_compute.

Lemma hex_upper_upper c : is_ascii_hexdigit c = true -> is_upper_hex (ascii_upper c) = true.
Proof. by byte_cases c. Qed.

Lemma upper_hex_hexdigit c : is_upper_hex c = true -> is_ascii_hexdigit c = true.
Proof. by byte_cases c. Qed.

Lemma upper_hex_upper c : is_upper_hex c = true -> ascii_upper c = c.
Proof. by byte_cases c. Qed.

Lemma hex_val_upper c : is_ascii_hexdigit c = true -> hex_val (ascii_upper c) = hex_val c.
Proof. by byte_cases c. Qed.

Lemma escape_hi_upper b : is_upper_hex (hex_at (Z.shiftr (byte_val b) 4)) = true.
Proof. by byte_cases b. Qed.

Lemma escape_lo_upper b : is_upper_hex (hex_at (Z.land (byte_val b) 0x0F)) = true.
Proof. by byte_cases b. Qed.

Lemma escape_byte_hex b :
  escape_byte (hex_at (Z.shiftr (byte_val b) 4)) (hex_at (Z.land (byte_val b) 0x0F)) = b.
Proof. by byte_cases b. Qed.

Lemma unreserved_not_percent c : is_unreserved_or_slash c = true -> (c =c "%") = false.
Proof. by byte_cases c. Qed.

Lemma encode_set_unreserved c : S3_URL_ENCODE_SET c = negb (is_unreserved c).
Proof. by byte_cases c. Qed.
#[export] Hint Resolve hex_upper_upper upper_hex_hexdigit escape_hi_upper escape_lo_upper : s3.

(** ** Recursion along the escapes

    The functions consume one byte or one escape; this induction follows
    them. *)
Lemma escape_ind (P : string -> Prop) :
  P "" ->
  (forall h1 h2 s, is_ascii_hexdigit h1 = true -> is_ascii_hexdigit h2 = true -> P s ->
     P (String "%" (String h1 (String h2 s)))) ->
  (forall b s,
     (forall h1 h2 s', s = String h1 (String h2 s') ->
        (b =c "%") && is_ascii_hexdigit h1 && is_ascii_hexdigit h2 = false) ->
     P s -> P (String b s)) ->
  forall s, P s.
Proof.
  intros Hnil Hesc Hone s.
  induction s as [s IH] using (induction_ltof1 _ String.length). unfold ltof in IH.
  destruct s as [|b [|h1 [|h2 s]]]; [done|by apply Hone, IH; cbn; try lia..|].
  destruct ((b =c "%") && is_ascii_hexdigit h1 && is_ascii_hexdigit h2) eqn:E.
  - rewrite !andb_true_iff in E. destruct E as [[->%chr_eqb_true Hh1] Hh2].
    apply Hesc; [done..|]. apply IH. cbn. lia.
  - apply Hone; [|apply IH; cbn; lia]. by intros ??? [= <- <- <-].
Qed.

Lemma canon_escape h1 h2 s :
  is_ascii_hexdigit h1 = true -> is_ascii_hexdigit h2 = true ->
  canonicalize_uri_path_for_sigv4 (String "%" (String h1 (String h2 s))) =
    String "%" (String (ascii_upper h1) (String (ascii_upper h2) (canonicalize_uri_path_for_sigv4 s))).
Proof. intros H1 H2. cbn. by rewrite H1, H2. Qed.

Lemma canon_one b s :
  (forall h1 h2 s', s = String h1 (String h2 s') ->
     (b =c "%") && is_ascii_hexdigit h1 && is_ascii_hexdigit h2 = false) ->
  canonicalize_uri_path_for_sigv4 (String b s) =
    if is_unreserved_or_slash b then String b (canonicalize_uri_path_for_sigv4 s)
    else push_escape b (canonicalize_uri_path_for_sigv4 s).
Proof.
  intros H. destruct s as [|h1 [|h2 s]]; [done..|].
  cbn [canonicalize_uri_path_for_sigv4]. by rewrite (H _ _ _ eq_refl).
Qed.

Lemma unescape_escape h1 h2 s :
  is_ascii_hexdigit h1 = true -> is_ascii_hexdigit h2 = true ->
  unescape (String "%" (String h1 (String h2 s))) = String (escape_byte h1 h2) (unescape s).
Proof. intros H1 H2. cbn. by rewrite H1, H2. Qed.

Lemma unescape_one b s :
  (forall h1 h2 s', s = String h1 (String h2 s') ->
     (b =c "%") && is_ascii_hexdigit h1 && is_ascii_hexdigit h2 = false) ->
  unescape (String b s) = String b (unescape s).
Proof.
  intros H. destruct s as [|h1 [|h2 s]]; [done..|]. cbn [unescape]. by rewrite (H _ _ _ eq_refl).
Qed.

Lemma unescape_keep b s : is_unreserved_or_slash b = true -> unescape (String b s) = String b (unescape s).
Proof. intros Hb%unreserved_not_percent. apply unescape_one. intros. by rewrite Hb. Qed.

Lemma unescape_push b s : unescape (push_escape b s) = String b (unescape s).
Proof.
  unfold push_escape. rewrite unescape_escape by auto with s3. by rewrite escape_byte_hex.
Qed.

Lemma canon_canonical s : canonical (canonicalize_uri_path_for_sigv4 s).
Proof.
  induction s as [|h1 h2 s H1 H2 IH|b s Hb IH] using escape_ind; [constructor| |].
  - rewrite canon_escape by done. auto with s3.
  - rewrite canon_one by done. case_match; unfold push_escape; auto with s3.
Qed.

Lemma canonical_fixed s : canonical s -> canonicalize_uri_path_for_sigv4 s = s.
Proof.
  induction 1 as [|c s Hc _ IH|h1 h2 s H1 H2 _ IH]; [done| |].
  - rewrite canon_one; [by rewrite Hc, IH|]. intros. by rewrite unreserved_not_percent.
  - rewrite canon_escape, IH by auto with s3. by rewrite !upper_hex_upper.
Qed.

(** The canonical path has the AWS form whatever the wire path is: only
    unreserved bytes, [/] and upper-case [%XX] escapes; canonicalizing again
    changes nothing, and a path is left alone exactly when it already has
    that form. *)
Theorem canonicalize_canonical (path : string) :
  canonical (canonicalize_uri_path_for_sigv4 path) /\
  canonicalize_uri_path_for_sigv4 (canonicalize_uri_path_for_sigv4 path)
    = canonicalize_uri_path_for_sigv4 path /\
  (canonicalize_uri_path_for_sigv4 path = path <-> canonical path).
Proof.
  pose proof (canon_canonical path) as H. split; [done|].
  split; [by apply canonical_fixed|]. split; [by intros <-|apply canonical_fixed].
Qed.

Lemma unescape_canon path : unescape (canonicalize_uri_path_for_sigv4 path) = unescape path.
Proof.
  induction path as [|h1 h2 s H1 H2 IH|b s Hb IH] using escape_ind; [done| |].
  - rewrite canon_escape, !unescape_escape by auto with s3.
    unfold escape_byte. by rewrite !hex_val_upper, IH.
  - rewrite canon_one, (unescape_one b s) by done. case_match.
    + by rewrite unescape_keep, IH.
    + by rewrite unescape_push, IH.
Qed.

(** Canonicalization does not change which resource a path names: the
    canonical path and the wire path unescape to the same bytes. *)
Theorem canonicalize_preserves_meaning (path : string) :
  unescape (canonicalize_uri_path_for_sigv4 path) = unescape path.
Proof. apply unescape_canon. Qed.

(** ** Key decoding *)
Section decoding.
Context (percent_decode_utf8 : string -> option string).
(** Documented behaviour of the crate: text without [%] decodes to itself
    (a [&str] is UTF-8). *)
Hypothesis decode_plain :
  forall s, contains_char "%" s = false -> percent_decode_utf8 s = Some s.

Lemma decode_segments_acc first segs out :
  decode_segments percent_decode_utf8 first segs out =
    out +:+ (match segs with
             | [] => ""
             | _ => (if first then "" else "/") +:+
                    join "/" (decode_segment percent_decode_utf8 <$> segs)
             end).
Proof using Type.
  revert first out. induction segs as [|seg segs IH]; intros first out; cbn [decode_segments].
  - by rewrite str_app_nil_r.
  - rewrite IH. destruct segs as [|seg' segs].
    + cbn. rewrite !str_app_nil_r. destruct first; [done|]. by rewrite str_app_assoc.
    + rewrite !fmap_cons, (join_cons "/" (decode_segment _ seg)) by done.
      by destruct first; rewrite !str_app_assoc.
Qed.

Lemma split_keeps_absent c d s :
  contains_char d s = false -> Forall (fun x => contains_char d x = false) (split c s).
Proof using Type.
  induction s as [|x s IH]; cbn; [by repeat constructor|].
  rewrite orb_false_iff. intros [Hx Hs%IH]. case_match; [by constructor|].
  destruct (split c s) as [|h t]; [constructor; [|done]; cbn; by rewrite Hx|].
  apply Forall_cons_iff in Hs as [Hh Ht]. constructor; [|done]. cbn. by rewrite Hx.
Qed.

(** Decoding an object key is decoding each [/]-separated segment and
    joining them back, empty segments included; the fast path (no [%])
    agrees with it. *)
Theorem percent_decode_path_segments_spec (input : string) :
  percent_decode_path_segments_lossy percent_decode_utf8 input =
    join "/" (decode_segment percent_decode_utf8 <$> split "/" input).
Proof using decode_plain.
  unfold percent_decode_path_segments_lossy. destruct (contains_char "%" input) eqn:E; cbn.
  - rewrite decode_segments_acc. pose proof (split_nonempty "/" input).
    by destruct (split "/" input).
  - rewrite <- (join_split "/" input) at 1. f_equal.
    apply (split_keeps_absent "/") in E.
    induction E as [|seg segs Hseg _ IH]; cbn; [done|]. rewrite <- IH.
    unfold decode_segment. by rewrite decode_plain.
Qed.
End decoding.

(** ** List-response encoding *)

(** Documented behaviour of [utf8_percent_encode]: each byte of the set, and
    each non-ASCII byte, becomes its upper-case escape; the rest is kept. *)
Fixpoint percent_encode_with (set : ascii -> bool) (s : string) : string :=
  match s with
  | "" => ""
  | String c s' =>
      if set c || in_range 128 255 c then push_escape c (percent_encode_with set s')
      else String c (percent_encode_with set s')
  end.

Section list_encoding.
Context (utf8_percent_encode : (ascii -> bool) -> string -> string).
Hypothesis encode_documented : forall set s, utf8_percent_encode set s = percent_encode_with set s.

Lemma encode_test c : S3_URL_ENCODE_SET c || in_range 128 255 c = negb (is_unreserved c).
Proof using Type. by byte_cases c. Qed.

(** [encoding-type=url] is lossless: unescaping an encoded key gives
    the key back, and the encoded text holds only unreserved bytes and
    escapes, so no [/], [&] or [<] of a key survives in a list response. *)
Theorem s3_url_encode_roundtrip (key : string) :
  unescape (s3_url_encode utf8_percent_encode key) = key /\
  all_bytes (fun c => is_unreserved c || (c =c "%")) (s3_url_encode utf8_percent_encode key) = true.
Proof using encode_documented.
  unfold s3_url_encode. rewrite encode_documented.
  induction key as [|c s [IH1 IH2]]; [done|]. cbn [percent_encode_with].
  rewrite encode_test. destruct (is_unreserved c) eqn:E; cbn [negb]; split.
  - rewrite unescape_keep, IH1; [done|]. unfold is_unreserved_or_slash. by rewrite E.
  - cbn [all_bytes]. by rewrite E, IH2.
  - by rewrite unescape_push, IH1.
  - unfold push_escape. cbn [all_bytes]. rewrite IH2.
    clear. by byte_cases c.
Qed.
End list_encoding.

(** ** Concrete instances *)

(** A decoder with the documented behaviour, enough for ASCII keys. *)
Definition ascii_decoder (s : string) : option string := Some (unescape s).

Lemma unescape_plain s : contains_char "%" s = false -> unescape s = s.
Proof.
  induction s as [|b s IH]; [done|]. cbn [contains_char]. rewrite orb_false_iff. intros [Hb Hs].
  rewrite unescape_one, IH by (intros; by rewrite ?Hb). done.
Qed.

Lemma percent_decode_path_segments_spec_witness :
  percent_decode_path_segments_lossy ascii_decoder "a//b%20c" = "a//b c".
Proof.
  rewrite (percent_decode_path_segments_spec ascii_decoder).
  - reflexivity.
  - intros s Hs. unfold ascii_decoder. by rewrite unescape_plain.
Defined.

Lemma s3_url_encode_roundtrip_witness :
  s3_url_encode percent_encode_with "a/b c" = "a%2Fb%20c" /\
  unescape (s3_url_encode percent_encode_with "a/b c") = "a/b c".
Proof.
  split; [reflexivity|].
  exact (proj1 (s3_url_encode_roundtrip percent_encode_with (fun _ _ => eq_refl) "a/b c")).
Defined.

(** A malformed escape does not keep its segment as it was: the other
    escapes of the segment are decoded. *)
Example malformed_escape_segment :
  percent_decode_path_segments_lossy ascii_decoder "%zz%41/x" = "%zzA/x".
Proof. reflexivity. Qed.
