(* ===== verification/Classifier.v ===== *)
(** * s32p-support/src/classifier.rs

    The classification of an S3 REST request into an operation, shared by
    the proxy (routing) and the gateway (dispatch and ACL level). *)

From Stdlib Require Import ZArith Lia Ascii.
From stdpp Require Import base list strings gmap numbers option.
From S2P Require Import Prelude RustStr Http Utils UriEncoding.

Local Open Scope s3_scope.
Local Open Scope string_scope.

(** ** Operations *)
Inductive MultipartOp :=
| CreateMultipartUpload
| UploadPart (upload_id : string) (part_number : Z)
| ListParts (upload_id : string)
| CompleteMultipartUpload (upload_id : string)
| AbortMultipartUpload (upload_id : string)
| ListMultipartUploads
| MultipartUnknown.

Inductive VersioningOp :=
| GetBucketVersioning
| PutBucketVersioning
| ListObjectVersions
| ObjectWithVersionId (version_id : string)
| VersioningUnknown.

Inductive ObjectLockOp :=
| GetBucketObjectLockConfiguration
| PutBucketObjectLockConfiguration
| GetObjectRetention
| PutObjectRetention
| GetObjectLegalHold
| PutObjectLegalHold
| ObjectLockUnknown.

Inductive ReadOp :=
| ListBuckets | GetObject | HeadObject | HeadBucket | GetBucketLocation
| ListObjectsV2 | ListObjectsV1 | GetObjectAcl | GetBucketAcl | GetObjectTagging.

Inductive WriteOp :=
| PutObject | CopyObject | RenameObject | DeleteObject | DeleteObjects
| PutObjectAcl | PutBucketAcl | PutObjectTagging | DeleteObjectTagging.

Inductive BucketAdminOp := CreateBucket | DeleteBucket.

Inductive SessionOp := CreateSession.

Inductive S3Op :=
| Multipart (op : MultipartOp)
| Versioning (op : VersioningOp)
| ObjectLock (op : ObjectLockOp)
| Read (op : ReadOp)
| Write (op : WriteOp)
| BucketAdmin (op : BucketAdminOp)
| Session (op : SessionOp)
| HeadService
| Other.

(** ** Query parameters

    [HashMap<String, Vec<String>>]: lower-case key to the values in request
    order. *)
Abbreviation QueryParams := (gmap string (list string)).

Record S3RequestClass := {
  bucket : option string;
  key : option string;
  query : QueryParams;
  op : S3Op;
}.

Definition push_value (v : string) (o : option (list string)) : option (list string) :=
  Some (default [] o ++ [v])%list.

(** One iteration of the loop of [from_uri]. *)
Definition add_pair (out : QueryParams) (kv : string * string) : QueryParams :=
  let key := to_ascii_lowercase (trim (fst kv)) in
  if is_empty key then out else partial_alter (push_value (snd kv)) key out.

Section from_uri.
(** [url::form_urlencoded::parse] *)
Context (form_parse : string -> list (string * string)).

(** [QueryParams::from_uri] *)
Definition from_uri (u : uri) : QueryParams :=
  match uri_query u with
  | Some q => if is_empty q then ∅ else foldl add_pair ∅ (form_parse q)
  | None => ∅
  end.
End from_uri.

(** [QueryParams::has] and [QueryParams::first] *)
Definition has (q : QueryParams) (key : string) : bool :=
  match q !! to_ascii_lowercase key with Some _ => true | None => false end.

Definition first (q : QueryParams) (key : string) : option string :=
  q !! to_ascii_lowercase key ≫= head.

(** [QueryParams::is_sigv4_presign_key] *)
Definition is_sigv4_presign_key (key_lc : string) : bool :=
  existsb (String.eqb key_lc)
    [ "x-amz-algorithm"; "x-amz-credential"; "x-amz-date"; "x-amz-expires";
      "x-amz-signedheaders"; "x-amz-signature"; "x-amz-security-token";
      "x-amz-s3session-token" ].

(** [QueryParams::is_non_effective_key] *)
Definition is_non_effective_key (key_lc : string) : bool :=
  existsb (String.eqb key_lc)
    [ "x-id"; "content-type"; "cache-control"; "content-encoding";
      "content-disposition"; "expires"; "x-amz-storage-class" ].

Definition ignored_key (k : string) : bool := is_sigv4_presign_key k || is_non_effective_key k.

(** [QueryParams::validate_xid] *)
Definition validate_xid (q : QueryParams) (expected_op_name : string) : bool :=
  match first q "x-id" with
  | Some xid_value => xid_value =s expected_op_name
  | None => true
  end.

(** [self.inner.keys()] *)
Definition keys (q : QueryParams) : list string := (map_to_list q).*1.

(** [QueryParams::is_empty_effective] *)
Definition is_empty_effective (q : QueryParams) : bool := forallb ignored_key (keys q).

(** [QueryParams::is_only_effective]: the loop's two counters. *)
Definition is_only_effective (q : QueryParams) (key : string) : bool :=
  let key_lc := to_ascii_lowercase key in
  let step '(n, has_key) k :=
    if ignored_key k then (n, has_key)
    else (S n, if k =s key_lc then true else has_key) in
  let '(non_effective_keys, has_key) := foldl step (0%nat, false) (keys q) in
  (non_effective_keys =? 1)%nat && has_key.

(** [QueryParams::is_empty] and [QueryParams::is_only] *)
Definition params_is_empty (q : QueryParams) : bool := (size q =? 0)%nat.
Definition is_only (q : QueryParams) (key : string) : bool := (size q =? 1)%nat && has q key.

(** ** Properties of an operation *)

(** [S3Op::needs_write] *)
Definition needs_write (o : S3Op) : bool :=
  match o with
  | Read _ => false
  | Write _ => true
  | Multipart op =>
      match op with
      | ListParts _ | ListMultipartUploads => false
      | CreateMultipartUpload | UploadPart _ _ | CompleteMultipartUpload _
      | AbortMultipartUpload _ | MultipartUnknown => true
      end
  | Versioning op =>
      match op with
      | GetBucketVersioning | ListObjectVersions | ObjectWithVersionId _ => false
      | PutBucketVersioning | VersioningUnknown => true
      end
  | ObjectLock op =>
      match op with
      | GetBucketObjectLockConfiguration | GetObjectRetention | GetObjectLegalHold => false
      | PutBucketObjectLockConfiguration | PutObjectRetention | PutObjectLegalHold
      | ObjectLockUnknown => true
      end
  | BucketAdmin _ => true
  | Session _ => false
  | HeadService => false
  | Other => true
  end.

(** [class_key] *)
Definition class_key (c : S3RequestClass) : string :=
  match op c with
  | Multipart _ => "multipart"
  | Versioning _ => "versioning"
  | ObjectLock _ => "object_lock"
  | Read _ => "read"
  | Write _ => "write"
  | BucketAdmin _ => "bucket_admin"
  | Session _ => "session"
  | HeadService => "service"
  | Other => "other"
  end.

(** [not_implemented_reason] *)
Definition not_implemented_reason (c : S3RequestClass) : option string :=
  match op c with
  | Multipart _ => Some "multipart uploads are not implemented"
  | Versioning _ => Some "versioning is not implemented"
  | ObjectLock _ => Some "object locking is not implemented"
  | Read _ | Write _ => None
  | BucketAdmin _ => Some "bucket administration is not implemented"
  | Session _ | HeadService | Other => None
  end.

(** ** Sub-resource families *)
Definition is_some {A} (o : option A) : bool := match o with Some _ => true | None => false end.
Definition is_none {A} (o : option A) : bool := negb (is_some o).

(** [classify_multipart] *)
Definition classify_multipart (method : string) (bucket key : option string) (q : QueryParams)
    : option MultipartOp :=
  if (method =s "GET") && is_some bucket && is_none key && has q "uploads"
     && validate_xid q "ListMultipartUploads" then Some ListMultipartUploads
  else if (method =s "POST") && is_some bucket && is_some key && has q "uploads"
     && validate_xid q "CreateMultipartUpload" then Some CreateMultipartUpload
  else match first q "uploadid" with
       | Some upload_id =>
           if (method =s "PUT") && validate_xid q "UploadPart" then
             match first q "partnumber" ≫= parse_u32 with
             | Some pn => Some (UploadPart upload_id pn)
             | None => Some MultipartUnknown
             end
           else if (method =s "GET") && validate_xid q "ListParts" then Some (ListParts upload_id)
           else if (method =s "POST") && validate_xid q "CompleteMultipartUpload"
           then Some (CompleteMultipartUpload upload_id)
           else if (method =s "DELETE") && validate_xid q "AbortMultipartUpload"
           then Some (AbortMultipartUpload upload_id)
           else Some MultipartUnknown
       | None => None
       end.

(** [classify_versioning] *)
Definition classify_versioning (method : string) (bucket key : option string) (q : QueryParams)
    : option VersioningOp :=
  if is_some bucket && is_none key && has q "versioning" then
    Some (if (method =s "GET") && validate_xid q "GetBucketVersioning" then GetBucketVersioning
          else if (method =s "PUT") && validate_xid q "PutBucketVersioning" then PutBucketVersioning
          else VersioningUnknown)
  else if (method =s "GET") && is_some bucket && is_none key && has q "versions"
          && validate_xid q "ListObjectVersions" then Some ListObjectVersions
  else if is_some key then
    match first q "versionid" with
    | Some vid => if validate_xid q "ObjectWithVersionId" then Some (ObjectWithVersionId vid) else None
    | None => None
    end
  else None.

(** [classify_object_lock] *)
Definition classify_object_lock (method : string) (bucket key : option string) (q : QueryParams)
    : option ObjectLockOp :=
  if is_some bucket && is_none key && has q "object-lock" then
    Some (if (method =s "GET") && validate_xid q "GetBucketObjectLockConfiguration"
          then GetBucketObjectLockConfiguration
          else if (method =s "PUT") && validate_xid q "PutBucketObjectLockConfiguration"
          then PutBucketObjectLockConfiguration
          else ObjectLockUnknown)
  else if is_some bucket && is_some key && has q "retention" then
    Some (if (method =s "GET") && validate_xid q "GetObjectRetention" then GetObjectRetention
          else if (method =s "PUT") && validate_xid q "PutObjectRetention" then PutObjectRetention
          else ObjectLockUnknown)
  else if is_some bucket && is_some key && has q "legal-hold" then
    Some (if (method =s "GET") && validate_xid q "GetObjectLegalHold" then GetObjectLegalHold
          else if (method =s "PUT") && validate_xid q "PutObjectLegalHold" then PutObjectLegalHold
          else ObjectLockUnknown)
  else None.

(** ** Bucket and key *)
Section parse_bucket_key.
Context (percent_decode_utf8 : string -> option string).
Let decode_key := percent_decode_path_segments_lossy percent_decode_utf8.

(** [parse_bucket_key_path_style] *)
Definition parse_bucket_key_path_style (path : string) : option string * option string :=
  let p := trim_start_matches "/" path in
  if is_empty p then (None, None)
  else match split_once "/" p with
       | None => (Some p, None)
       | Some (bucket, rest) =>
           let rest := default rest (strip_prefix "/" rest) in
           (Some bucket, if is_empty rest then None else Some (decode_key rest))
       end.

(** The loop over the suffixes, for a host without its port. *)
Fixpoint virtual_hosted (host_without_port path : string) (suffixes : list string)
    : option (string * option string) :=
  match suffixes with
  | [] => None
  | suffix :: rest =>
      if is_empty suffix then virtual_hosted host_without_port path rest
      else if ends_with suffix host_without_port then
        let prefix := trim_end_matches_str suffix host_without_port in
        let prefix := trim_end_matches "." prefix in
        if is_empty prefix then virtual_hosted host_without_port path rest
        else
          let path' := trim_start_matches "/" path in
          Some (prefix, if is_empty path' then None else Some (decode_key path'))
      else virtual_hosted host_without_port path rest
  end.

(** [headers.and_then(|h| h.get("host").and_then(|v| v.to_str().ok()))] *)
Definition host_header (headers : option header_map) : option string :=
  headers ≫= fun h => hm_get h "host" ≫= fun v => v.

(** [parse_bucket_key_auto] *)
Definition parse_bucket_key_auto (method : string) (u : uri) (headers : option header_map)
    (virtual_hosted_suffixes : list string) : option string * option string * bool :=
  let hosted :=
    host ← host_header headers;
    let host_without_port := default host (head (split ":" host)) in
    virtual_hosted host_without_port (uri_path u) virtual_hosted_suffixes in
  match hosted with
  | Some (bucket, key) => (Some bucket, key, true)
  | None =>
      if (method =s "GET") && (uri_path u =s "/") then (None, None, false)
      else let '(bucket, key) := parse_bucket_key_path_style (uri_path u) in (bucket, key, false)
  end.
End parse_bucket_key.

(** ** The decision list of [classify_with_headers] *)

(** The service probes and the query sub-resources, which come first. *)
Definition classify_subresource (method : string) (bucket key : option string) (q : QueryParams)
    : option S3Op :=
  if (method =s "GET") && is_none bucket && is_none key && validate_xid q "ListBuckets"
  then Some (Read ListBuckets)
  else if (method =s "HEAD") && is_none bucket && is_none key && is_empty_effective q
  then Some HeadService
  else match classify_multipart method bucket key q with
  | Some o => Some (Multipart o)
  | None =>
  if (method =s "GET") && is_some bucket && has q "acl" && is_some key && validate_xid q "GetObjectAcl"
  then Some (Read GetObjectAcl)
  else if (method =s "GET") && is_some bucket && has q "acl" && is_none key && validate_xid q "GetBucketAcl"
  then Some (Read GetBucketAcl)
  else if (method =s "PUT") && is_some bucket && has q "acl" && is_some key && validate_xid q "PutObjectAcl"
  then Some (Write PutObjectAcl)
  else if (method =s "PUT") && is_some bucket && has q "acl" && is_none key && validate_xid q "PutBucketAcl"
  then Some (Write PutBucketAcl)
  else if is_some bucket && is_some key && has q "tagging"
          && (method =s "GET") && validate_xid q "GetObjectTagging"
  then Some (Read GetObjectTagging)
  else if is_some bucket && is_some key && has q "tagging"
          && (method =s "PUT") && validate_xid q "PutObjectTagging"
  then Some (Write PutObjectTagging)
  else if is_some bucket && is_some key && has q "tagging"
          && (method =s "DELETE") && validate_xid q "DeleteObjectTagging"
  then Some (Write DeleteObjectTagging)
  else match classify_versioning method bucket key q with
  | Some o => Some (Versioning o)
  | None => ObjectLock <$> classify_object_lock method bucket key q
  end end.

(** The plain bucket and object operations. *)
Definition classify_plain (method : string) (bucket key : option string) (q : QueryParams)
    (headers : option header_map) : S3Op :=
  let has_header name := match headers with Some h => contains_key h name | None => false end in
  if (method =s "GET") && is_some bucket && is_none key && is_only_effective q "location"
     && validate_xid q "GetBucketLocation" then Read GetBucketLocation
  else if (method =s "GET") && is_some bucket && is_none key && is_only_effective q "session"
     && validate_xid q "CreateSession" then Session CreateSession
  else if (method =s "HEAD") && is_some bucket && is_none key && is_empty_effective q
     && validate_xid q "HeadBucket" then Read HeadBucket
  else if (method =s "PUT") && is_some bucket && is_none key && is_empty_effective q
     && validate_xid q "CreateBucket" then BucketAdmin CreateBucket
  else if (method =s "DELETE") && is_some bucket && is_none key && is_empty_effective q
     && validate_xid q "DeleteBucket" then BucketAdmin DeleteBucket
  else if (method =s "GET") && is_some bucket && is_some key && is_empty_effective q
     && validate_xid q "GetObject" then Read GetObject
  else if (method =s "HEAD") && is_some bucket && is_some key && is_empty_effective q
     && validate_xid q "HeadObject" then Read HeadObject
  else if (method =s "GET") && is_some bucket && is_none key
     && (match first q "list-type" with Some v => v =s "2" | None => false end)
     && validate_xid q "ListObjectsV2" then Read ListObjectsV2
  else if (method =s "GET") && is_some bucket && is_none key
     && validate_xid q "ListObjects" then Read ListObjectsV1
  else if (method =s "PUT") && is_some bucket && is_some key && is_empty_effective q
     && has_header "x-amz-copy-source" && validate_xid q "CopyObject" then Write CopyObject
  else if (method =s "PUT") && is_some bucket && is_some key && has q "renameobject"
     && has_header "x-amz-rename-source" && validate_xid q "RenameObject" then Write RenameObject
  else if (method =s "PUT") && is_some bucket && is_some key && is_empty_effective q
     && validate_xid q "PutObject" then Write PutObject
  else if (method =s "POST") && is_some bucket && is_none key && has q "delete"
     && validate_xid q "DeleteObjects" then Write DeleteObjects
  else if (method =s "DELETE") && is_some bucket && is_some key && is_empty_effective q
     && validate_xid q "DeleteObject" then Write DeleteObject
  else Other.

Definition classify_op (method : string) (bucket key : option string) (q : QueryParams)
    (headers : option header_map) : S3Op :=
  match classify_subresource method bucket key q with
  | Some o => o
  | None => classify_plain method bucket key q headers
  end.

Section classify.
Context (percent_decode_utf8 : string -> option string).
Context (form_parse : string -> list (string * string)).

(** [classify_with_headers] *)
Definition classify_with_headers (method : string) (u : uri) (headers : option header_map)
    (virtual_hosted_suffixes : list string) : S3RequestClass :=
  let '(bucket, key, _) :=
    parse_bucket_key_auto percent_decode_utf8 method u headers virtual_hosted_suffixes in
  let q := from_uri form_parse u in
  {| bucket := bucket; key := key; query := q; op := classify_op method bucket key q headers |}.
End classify.

(** ** Facts on query parameters *)

Lemma elem_of_keys (q : QueryParams) k : k ∈ keys q <-> is_Some (q !! k).
Proof.
  unfold keys. rewrite list_elem_of_fmap. split.
  - intros ([k' v] & -> & H%elem_of_map_to_list). cbn. eauto.
  - intros [v H]. exists (k, v). by rewrite elem_of_map_to_list.
Qed.

Lemma NoDup_keys (q : QueryParams) : NoDup (keys q).
Proof. apply NoDup_fst_map_to_list. Qed.

Lemma is_empty_effective_spec (q : QueryParams) :
  is_empty_effective q = true <-> forall k, is_Some (q !! k) -> ignored_key k = true.
Proof.
  unfold is_empty_effective. rewrite forallb_forall. setoid_rewrite <- list_elem_of_In.
  by setoid_rewrite elem_of_keys.
Qed.

(** The keys that count for routing. *)
Definition effective_keys (l : list string) : list string :=
  filter (fun k => ignored_key k = false) l.

Lemma only_effective_loop key_lc l n b :
  foldl (fun '(n, has_key) k =>
           if ignored_key k then (n, has_key)
           else (S n, if k =s key_lc then true else has_key)) (n, b) l
  = ((n + length (effective_keys l))%nat, b || bool_decide (key_lc ∈ effective_keys l)).
Proof.
  revert n b. induction l as [|k l IH]; intros n b; cbn [foldl].
  - cbn. by rewrite Nat.add_0_r, orb_false_r.
  - unfold effective_keys. rewrite filter_cons. destruct (ignored_key k) eqn:E.
    + rewrite decide_False by done. apply IH.
    + rewrite decide_True by done. rewrite IH. cbn [length]. f_equal; [unfold effective_keys; lia|].
      destruct (String.eqb_spec k key_lc) as [->|Hne].
      * rewrite (bool_decide_true (_ ∈ _ :: _)) by left. by destruct b.
      * f_equal. apply bool_decide_ext. rewrite elem_of_cons. unfold effective_keys. naive_solver.
Qed.

Lemma is_only_effective_spec (q : QueryParams) key :
  is_only_effective q key = true <->
  is_Some (q !! to_ascii_lowercase key) /\ ignored_key (to_ascii_lowercase key) = false /\
  forall k, is_Some (q !! k) -> ignored_key k = true \/ k = to_ascii_lowercase key.
Proof.
  unfold is_only_effective. rewrite only_effective_loop. set (lc := to_ascii_lowercase key).
  rewrite orb_false_l, andb_true_iff, Nat.eqb_eq, bool_decide_eq_true. cbn.
  assert (Hin : forall k, k ∈ effective_keys (keys q) <-> ignored_key k = false /\ is_Some (q !! k)).
  { intros k. unfold effective_keys. by rewrite list_elem_of_filter, elem_of_keys. }
  rewrite Hin. split.
  - intros [Hlen [Hlc Hsome]]. split; [done|]. split; [done|]. intros k Hk.
    destruct (ignored_key k) eqn:E; [by left|]. right.
    destruct (effective_keys (keys q)) as [|x [|y l]] eqn:El; [done| |done].
    assert (k ∈ [x]) as Hk' by by apply Hin. assert (lc ∈ [x]) as Hl by by apply Hin.
    apply list_elem_of_singleton in Hk', Hl. congruence.
  - intros (Hsome & Hlc & Hall). split; [|done].
    assert (Hnd : NoDup (effective_keys (keys q))) by apply list.NoDup_filter, NoDup_keys.
    assert (Hlc' : lc ∈ effective_keys (keys q)) by by apply Hin.
    destruct (effective_keys (keys q)) as [|x [|y l]] eqn:El; [by apply not_elem_of_nil in Hlc'|done|].
    exfalso. assert (forall k, k ∈ x :: y :: l -> k = lc) as Heq.
    { intros k [Hk1 Hk2]%Hin. destruct (Hall k Hk2); congruence. }
    apply list.NoDup_cons in Hnd as [Hnd _]. apply Hnd.
    rewrite (Heq x) by left. rewrite (Heq y) by (right; left). left.
Qed.

(** ** Presigned requests route like header-signed ones

    Two queries that differ only in SigV4 presign parameters. *)
Definition same_unsigned (q q' : QueryParams) : Prop :=
  forall k, is_sigv4_presign_key k = false -> q !! k = q' !! k.

#[global] Instance same_unsigned_equivalence : Equivalence same_unsigned.
Proof.
  split; unfold same_unsigned.
  - done.
  - intros q q' H k Hk. symmetry. auto.
  - intros q1 q2 q3 H12 H23 k Hk. rewrite H12; auto.
Qed.

Section same_unsigned.
Context (q q' : QueryParams) (Hsame : same_unsigned q q').

Lemma has_same k : is_sigv4_presign_key (to_ascii_lowercase k) = false -> has q k = has q' k.
Proof using Hsame. intros Hk. unfold has. by rewrite Hsame. Qed.

Lemma first_same k : is_sigv4_presign_key (to_ascii_lowercase k) = false -> first q k = first q' k.
Proof using Hsame. intros Hk. unfold first. by rewrite Hsame. Qed.

Lemma validate_xid_same name : validate_xid q name = validate_xid q' name.
Proof using Hsame. unfold validate_xid. by rewrite (first_same "x-id" eq_refl). Qed.

Lemma unsigned_keys_same k : ignored_key k = false -> is_Some (q !! k) <-> is_Some (q' !! k).
Proof using Hsame. unfold ignored_key. intros [Hk _]%orb_false_iff. by rewrite Hsame. Qed.
End same_unsigned.

Lemma is_empty_effective_mono (q q' : QueryParams) :
  same_unsigned q q' -> is_empty_effective q = true -> is_empty_effective q' = true.
Proof.
  intros Hs. rewrite !is_empty_effective_spec. intros H k Hk.
  destruct (ignored_key k) eqn:E; [done|]. rewrite <- E. apply H.
  by rewrite (unsigned_keys_same q q').
Qed.

Lemma is_only_effective_mono (q q' : QueryParams) key :
  same_unsigned q q' -> is_only_effective q key = true -> is_only_effective q' key = true.
Proof.
  intros Hs. rewrite !is_only_effective_spec. intros (H1 & H2 & H3).
  split; [by rewrite <- (unsigned_keys_same q q')|]. split; [done|]. intros k Hk.
  destruct (ignored_key k) eqn:E; [by left|]. rewrite <- E. apply H3.
  by rewrite (unsigned_keys_same q q').
Qed.

#[global] Instance is_empty_effective_proper : Proper (same_unsigned ==> (=)) is_empty_effective.
Proof.
  intros q q' H. destruct (is_empty_effective q) eqn:E, (is_empty_effective q') eqn:E'; [done| | |done].
  - by rewrite (is_empty_effective_mono q q') in E'.
  - by rewrite (is_empty_effective_mono q' q) in E.
Qed.

#[global] Instance is_only_effective_proper : Proper (same_unsigned ==> (=) ==> (=)) is_only_effective.
Proof.
  intros q q' H k _ <-.
  destruct (is_only_effective q k) eqn:E, (is_only_effective q' k) eqn:E'; [done| | |done].
  - by rewrite (is_only_effective_mono q q') in E'.
  - by rewrite (is_only_effective_mono q' q) in E.
Qed.

(** Replace [q] by [q'] in every query test of the goal. *)
Ltac to_same q q' H :=
  repeat match goal with
         | |- context [has q ?k] => rewrite (has_same q q' H k eq_refl)
         | |- context [first q ?k] => rewrite (first_same q q' H k eq_refl)
         | |- context [validate_xid q ?n] => rewrite (validate_xid_same q q' H n)
         | |- context [is_empty_effective q] => rewrite (is_empty_effective_proper q q' H)
         | |- context [is_only_effective q ?k] => rewrite (is_only_effective_proper q q' H k k eq_refl)
         end.

Lemma classify_op_same m b k q q' h :
  same_unsigned q q' -> classify_op m b k q h = classify_op m b k q' h.
Proof.
  intros H. unfold classify_op, classify_subresource, classify_multipart, classify_versioning,
    classify_object_lock, classify_plain. cbn zeta. to_same q q' H. done.
Qed.

(** Presigning never changes what a request is: for the same method,
    bucket, key and headers, two query strings that agree outside the SigV4
    presign parameters get the same operation. *)
Theorem presign_transparent (method : string) (bucket key : option string) (q q' : QueryParams)
    (headers : option header_map) :
  same_unsigned q q' ->
  classify_op method bucket key q headers = classify_op method bucket key q' headers.
Proof. apply classify_op_same. Qed.

(** ** Reads and methods *)

Definition read_method (m : string) : Prop := m = "GET" \/ m = "HEAD".

(** Decide the chain of tests of a classification hypothesis. *)
Ltac decide_tests H :=
  repeat match type of H with
         | (if ?b then _ else _) = _ => let E := fresh "E" in destruct b eqn:E
         end; simplify_eq/=; reflect_all; try done.

Lemma multipart_read_method m b k q o :
  classify_multipart m b k q = Some o -> needs_write (Multipart o) = false -> read_method m.
Proof.
  unfold classify_multipart, read_method. intros H Hn. decide_tests H; [by left|].
  destruct (first q "uploadid"); [|done].
  decide_tests H; [|by left]. destruct (_ ≫= parse_u32); by simplify_eq.
Qed.

Lemma versioning_read_method m b k q o :
  classify_versioning m b k q = Some o -> needs_write (Versioning o) = false ->
  read_method m \/ exists vid, o = ObjectWithVersionId vid.
Proof.
  unfold classify_versioning, read_method. intros H Hn. decide_tests H.
  - repeat (case_match; reflect_all; try done). by left; left.
  - by left; left.
  - repeat case_match; simplify_eq. eauto.
Qed.

Lemma object_lock_read_method m b k q o :
  classify_object_lock m b k q = Some o -> needs_write (ObjectLock o) = false -> read_method m.
Proof.
  unfold classify_object_lock, read_method. intros H Hn.
  decide_tests H; repeat (case_match; reflect_all; try done); by left.
Qed.

Lemma subresource_read_method m b k q o :
  classify_subresource m b k q = Some o -> needs_write o = false ->
  read_method m \/ exists vid, o = Versioning (ObjectWithVersionId vid).
Proof.
  unfold classify_subresource. intros H Hn. unfold read_method.
  decide_tests H; [by left; left|by left; right|].
  destruct (classify_multipart m b k q) eqn:Em; [simplify_eq; left; by eapply multipart_read_method|].
  decide_tests H; [by left; left..|].
  destruct (classify_versioning m b k q) eqn:Ev; simplify_eq.
  - apply versioning_read_method in Ev as [?|(vid & ->)]; eauto.
  - destruct (classify_object_lock m b k q) eqn:El; simplify_eq/=. left.
    by eapply object_lock_read_method.
Qed.

Lemma plain_read_method m b k q h :
  needs_write (classify_plain m b k q h) = false -> read_method m.
Proof.
  unfold classify_plain, read_method. cbn zeta. intros H.
  repeat match type of H with
         | needs_write (if ?b then _ else _) = _ =>
             let E := fresh "E" in
             destruct b eqn:E; [cbn in H; try discriminate H; reflect_all; by auto|]; clear E
         end. done.
Qed.

(** What the ACL level rests on: an operation that is not a write (and
    so passes a [read_only] grant) came with [GET] or [HEAD], with a single
    exception, the object requests that carry [versionId]. *)
Theorem reads_use_read_methods (method : string) (bucket key : option string) (q : QueryParams)
    (headers : option header_map) :
  needs_write (classify_op method bucket key q headers) = false ->
  method = "GET" \/ method = "HEAD" \/
  exists vid, classify_op method bucket key q headers = Versioning (ObjectWithVersionId vid).
Proof.
  unfold classify_op. destruct (classify_subresource method bucket key q) eqn:E.
  - intros H. apply subresource_read_method in E as [[?|?]|?]; auto.
  - intros [?|?]%plain_read_method; auto.
Qed.

(** The exception is real: a [DELETE] (or any method but those of the
    earlier families) of an object with [versionId] counts as a read. *)
Theorem delete_with_version_id_is_read (b k vid : string) (headers : option header_map) :
  let q := {[ "versionid" := [vid] ]} : QueryParams in
  classify_op "DELETE" (Some b) (Some k) q headers = Versioning (ObjectWithVersionId vid) /\
  needs_write (classify_op "DELETE" (Some b) (Some k) q headers) = false.
Proof.
  cbn zeta. split; [|]; reflexivity.
Qed.

(** A request for an object's retention that also carries [versionId]
    is classified as versioning, not as object lock: [classify_versioning]
    runs first. *)
Theorem retention_with_version_id_is_versioning (b k vid : string) (headers : option header_map) :
  let q := {[ "retention" := [""]; "versionid" := [vid] ]} : QueryParams in
  classify_op "GET" (Some b) (Some k) q headers = Versioning (ObjectWithVersionId vid).
Proof. reflexivity. Qed.

(** Without an [x-id] that contradicts it, a [GET] on a bucket is never
    [Other]: it is one of the listings, configuration reads or the session
    request, and [GET] without a bucket is [ListBuckets]. *)
Theorem bucket_get_is_classified (b : option string) (q : QueryParams) (headers : option header_map) :
  first q "x-id" = None ->
  classify_op "GET" b None q headers <> Other /\
  (b = None -> classify_op "GET" b None q headers = Read ListBuckets).
Proof.
  intros Hx. assert (Hv : forall n, validate_xid q n = true) by (intros n; unfold validate_xid; by rewrite Hx).
  split.
  - unfold classify_op. destruct (classify_subresource "GET" b None q) as [o|] eqn:E.
    + intros ->. revert E. unfold classify_subresource.
      repeat (case_match; simplify_eq/=; try done).
      by destruct (classify_object_lock "GET" b None q).
    + destruct b as [b|]; [|revert E; unfold classify_subresource; by rewrite Hv].
      unfold classify_plain. cbn. rewrite !Hv. repeat (case_match; try done).
  - intros ->. unfold classify_op, classify_subresource. cbn. by rewrite Hv.
Qed.

(** ** Bucket and key of a request *)
Section bucket_key.
Context (dec : string -> option string).
Let decode := percent_decode_path_segments_lossy dec.

Lemma trim_leading_slash b s :
  b <> "" -> contains_char "/" b = false -> trim_start_matches "/" ("/" +:+ b +:+ s) = b +:+ s.
Proof using Type.
  intros Hne Hb. cbn [String.append trim_start_matches]. rewrite Ascii.eqb_refl.
  apply trim_start_matches_id. destruct b as [|x b]; [done|]. cbn [contains_char] in Hb.
  apply orb_false_iff in Hb as [Hx _]. cbn [String.append]. by rewrite starts_with_char.
Qed.

Lemma is_empty_app_l a b : a <> "" -> is_empty (a +:+ b) = false.
Proof using Type. by destruct a. Qed.

Lemma path_style_key b k :
  b <> "" -> contains_char "/" b = false -> k <> "" -> starts_with "/" k = false ->
  parse_bucket_key_path_style dec ("/" +:+ b +:+ "/" +:+ k) = (Some b, Some (decode k)).
Proof using Type.
  intros Hb Hbs Hk Hks. unfold parse_bucket_key_path_style.
  rewrite trim_leading_slash, is_empty_app_l by done.
  rewrite (proj2 (split_once_some "/" _ b k)) by done.
  unfold starts_with in Hks. destruct (strip_prefix "/" k) eqn:E; [done|]. cbn [from_option].
  by rewrite (proj2 (is_empty_false k)).
Qed.

(** A doubled separator is swallowed: [/bucket//key] names the same
    object as [/bucket/key], so a key that starts with [/] cannot be
    addressed path-style. *)
Theorem path_style_double_slash (b k : string) :
  b <> "" -> contains_char "/" b = false -> k <> "" -> starts_with "/" k = false ->
  parse_bucket_key_path_style dec ("/" +:+ b +:+ "/" +:+ "/" +:+ k) = (Some b, Some (decode k)) /\
  parse_bucket_key_path_style dec ("/" +:+ b +:+ "/" +:+ k) = (Some b, Some (decode k)).
Proof using Type.
  intros Hb Hbs Hk Hks. split; [|by apply path_style_key].
  unfold parse_bucket_key_path_style. rewrite trim_leading_slash, is_empty_app_l by done.
  rewrite (proj2 (split_once_some "/" _ b ("/" +:+ k))) by done.
  rewrite strip_prefix_app. cbn [from_option]. unfold id. by rewrite (proj2 (is_empty_false k)).
Qed.

(** A suffix that does not claim the host. *)
Definition not_suffix (host suffix : string) : Prop := suffix = "" \/ ends_with suffix host = false.

Lemma virtual_hosted_skip host path pre rest :
  Forall (not_suffix host) pre ->
  virtual_hosted dec host path (pre ++ rest) = virtual_hosted dec host path rest.
Proof using Type.
  induction 1 as [|s pre [->|Hs] _ IH]; [done|done|]. cbn. case_match; [done|].
  by rewrite Hs.
Qed.

Lemma virtual_hosted_bucket b suffix path rest :
  b <> "" -> ends_with "." b = false -> suffix <> "" -> ends_with suffix (b +:+ ".") = false ->
  virtual_hosted dec (b +:+ "." +:+ suffix) path (suffix :: rest) =
    Some (b, if is_empty (trim_start_matches "/" path) then None
             else Some (decode (trim_start_matches "/" path))).
Proof using Type.
  intros Hb Hdot Hs Hsb. rewrite <- (str_app_assoc b ".").
  cbn [virtual_hosted]. rewrite (proj2 (is_empty_false suffix)) by done.
  rewrite (proj2 (ends_with_spec _ _)) by eauto.
  rewrite trim_end_matches_str_once, trim_end_matches_last, trim_end_matches_id by done.
  by rewrite (proj2 (is_empty_false b)).
Qed.

(** The two addressing styles agree: a virtual-hosted request
    [Host: b.suffix[:port]] with path [/k], for the first configured suffix
    that claims the host, has the same bucket and key as the path-style
    request [/b/k]. *)
Theorem virtual_hosted_is_path_style (method b k suffix port : string) (h : header_map)
    (pre rest : list string) (query query' : option string) :
  b <> "" -> contains_char "/" b = false -> ends_with "." b = false ->
  contains_char ":" (b +:+ "." +:+ suffix) = false ->
  suffix <> "" -> ends_with suffix (b +:+ ".") = false ->
  Forall (not_suffix (b +:+ "." +:+ suffix)) pre ->
  k <> "" -> starts_with "/" k = false ->
  hm_get h "host" = Some (Some ((b +:+ "." +:+ suffix) +:+ ":" +:+ port)) ->
  parse_bucket_key_auto dec method (uri_of ("/" +:+ k) query) (Some h) (pre ++ suffix :: rest)
    = (Some b, Some (decode k), true) /\
  parse_bucket_key_auto dec method (uri_of ("/" +:+ b +:+ "/" +:+ k) query') None
      (pre ++ suffix :: rest)
    = (Some b, Some (decode k), false).
Proof using Type.
  intros Hb Hbs Hdot Hcolon Hs Hsb Hpre Hk Hks Hhost. unfold parse_bucket_key_auto. split.
  - unfold host_header. cbn [mbind option_bind]. rewrite Hhost. cbn [mbind option_bind].
    change (":" +:+ port) with (String ":" port).
    rewrite (split_app_sep ":") by done. cbn [head from_option]. unfold id.
    rewrite virtual_hosted_skip, virtual_hosted_bucket by done. cbn [uri_path uri_of].
    assert (Ht : trim_start_matches "/" ("/" +:+ k) = k).
    { cbn [String.append trim_start_matches]. rewrite Ascii.eqb_refl. by apply trim_start_matches_id. }
    by rewrite Ht, (proj2 (is_empty_false k)).
  - cbn [host_header mbind option_bind uri_path uri_of].
    destruct ((method =s "GET") && _) eqn:E.
    + apply andb_true_iff in E as [_ E%str_eqb_true]. cbn in E. injection E as E. by destruct b.
    + by rewrite path_style_key.
Qed.
End bucket_key.

(** ** Query parsing *)

(** The values of a key, in request order. *)
Definition values_of (key : string) (pairs : list (string * string)) : list string :=
  omap (fun kv => if to_ascii_lowercase (trim (fst kv)) =s key then Some (snd kv) else None) pairs.

Lemma foldl_add_pair pairs (q : QueryParams) key :
  key <> "" ->
  foldl add_pair q pairs !! key =
    match values_of key pairs with
    | [] => q !! key
    | vs => Some (default [] (q !! key) ++ vs)%list
    end.
Proof.
  intros Hkey. revert q. induction pairs as [|[k v] pairs IH]; intros q; [done|].
  cbn [foldl]. rewrite IH. unfold add_pair, values_of. cbn [fst snd omap list_omap].
  destruct (is_empty (to_ascii_lowercase (trim k))) eqn:He.
  - apply is_empty_true in He. rewrite He. by destruct (String.eqb_spec "" key).
  - destruct (String.eqb_spec (to_ascii_lowercase (trim k)) key) as [->|Hne].
    + rewrite lookup_partial_alter_eq. unfold push_value. cbn [from_option].
      destruct (omap _ pairs); cbn; [done|]. by rewrite <- app_assoc.
    + by rewrite lookup_partial_alter_ne.
Qed.

(** [from_uri] keeps, for every key, exactly the values the query gives
    it (names compared trimmed and ASCII-case-insensitively), in request
    order: [first] is the first of them and [has] holds when there is one. *)
Theorem from_uri_lookup (form_parse : string -> list (string * string)) (u : uri) (q key : string) :
  uri_query u = Some q -> q <> "" -> to_ascii_lowercase key <> "" ->
  let vs := values_of (to_ascii_lowercase key) (form_parse q) in
  first (from_uri form_parse u) key = head vs /\
  has (from_uri form_parse u) key = negb (match vs with [] => true | _ => false end).
Proof.
  intros Hq Hne Hkey. cbn zeta. unfold from_uri, first, has. rewrite Hq.
  rewrite (proj2 (is_empty_false q)) by done.
  rewrite foldl_add_pair, lookup_empty by done. cbn [default app].
  by destruct (values_of _ _).
Qed.

(** ** Concrete instances *)
Lemma presign_transparent_witness :
  let q : QueryParams := {[ "x-amz-date" := ["20260521T120000Z"] ]} in
  same_unsigned q ∅ /\ classify_op "GET" (Some "b") (Some "k") q None = Read GetObject.
Proof.
  assert (H : same_unsigned {[ "x-amz-date" := ["20260521T120000Z"] ]} ∅).
  { intros k Hk. destruct (decide (k = "x-amz-date")) as [->|]; [done|].
    by rewrite lookup_singleton_ne by done. }
  split; [exact H|]. rewrite (presign_transparent "GET" (Some "b") (Some "k") _ ∅ None H).
  reflexivity.
Defined.

Lemma reads_use_read_methods_witness :
  needs_write (classify_op "HEAD" (Some "b") (Some "k") ∅ None) = false /\
  ("HEAD" = "GET" \/ "HEAD" = "HEAD" \/
   exists vid, classify_op "HEAD" (Some "b") (Some "k") ∅ None = Versioning (ObjectWithVersionId vid)).
Proof. split; [reflexivity|]. apply (reads_use_read_methods "HEAD" (Some "b") (Some "k") ∅ None). reflexivity. Defined.

Lemma bucket_get_is_classified_witness :
  first (∅ : QueryParams) "x-id" = None /\ classify_op "GET" (Some "b") None ∅ None <> Other.
Proof. split; [reflexivity|]. apply (bucket_get_is_classified (Some "b") ∅ None). reflexivity. Defined.

Lemma path_style_double_slash_witness :
  parse_bucket_key_path_style ascii_decoder "/photos//a/b" = (Some "photos", Some "a/b").
Proof. apply (path_style_double_slash ascii_decoder "photos" "a/b"); done. Defined.

Lemma virtual_hosted_is_path_style_witness :
  parse_bucket_key_auto ascii_decoder "PUT" (uri_of "/a/b" None)
    (Some (headers_of [("host", "photos.s3.example.org:9000")])) ["s3.example.org"]
  = (Some "photos", Some "a/b", true).
Proof.
  apply (virtual_hosted_is_path_style ascii_decoder "PUT" "photos" "a/b" "s3.example.org" "9000"
    (headers_of [("host", "photos.s3.example.org:9000")]) [] [] None None); try done.
Defined.

Lemma from_uri_lookup_witness :
  first (from_uri (fun _ => [("Prefix", "a"); (" prefix ", "b")]) (uri_of "/" (Some "x"))) "PREFIX"
  = Some "a".
Proof.
  apply (proj1 (from_uri_lookup (fun _ => [("Prefix", "a"); (" prefix ", "b")])
    (uri_of "/" (Some "x")) "x" "PREFIX" eq_refl ltac:(discriminate) ltac:(discriminate))).
Defined.
