(* ===== verification/S3Resp.v ===== *)
(** * s32p-support/src/s3resp.rs

    The error responses (status, S3 code, message, resource) and the byte
    layout of a [multipart/byteranges] body.  Here an error is its code and
    message; its document is in XmlDocs, its headers and body in Wire. *)

From Stdlib Require Import ZArith Lia Ascii.
From stdpp Require Import base list strings numbers option.
From S2P Require Import Prelude RustStr Http Utils.

Local Open Scope s3_scope.
Local Open Scope Z_scope.

(** An S3 REST-XML error response. *)
Record HttpResponse := {
  resp_status : Z;
  resp_code : string;
  resp_message : string;
  resp_resource : option string;
  resp_headers : list (string * string);
}.

(** [s3_error] *)
Definition s3_error (status : Z) (code message : string) (resource request_id : option string)
    : HttpResponse :=
  {| resp_status := status; resp_code := code; resp_message := message; resp_resource := resource;
     resp_headers := match request_id with
                     | Some rid => [("x-amz-request-id"%string, rid)]
                     | None => []
                     end |}.

Definition not_implemented (message : string) (resource : option string) : HttpResponse :=
  s3_error 501 "NotImplemented" message resource None.

Definition invalid_request (message : string) (resource : option string) : HttpResponse :=
  s3_error 400 "InvalidRequest" message resource None.

(** [sse_not_supported] *)
Definition sse_not_supported (kind : DetectedSse) (resource : option string) : HttpResponse :=
  invalid_request
    (match kind with
     | CustomerKey => "Server-side encryption with customer-provided keys (SSE-C) is not supported by this proxy"
     | ServerS3 => "Server-side encryption (SSE-S3, x-amz-server-side-encryption: AES256) is not supported by this proxy"
     | ServerKms => "Server-side encryption with AWS KMS (SSE-KMS) is not supported by this proxy"
     | ServerKmsDsse => "Server-side encryption with AWS KMS dual-layer (SSE-KMS-DSSE) is not supported by this proxy"
     | UnknownSse => "The requested server-side encryption algorithm is not supported by this proxy"
     end)%string resource.

Definition missing_content_length (message : string) (resource : option string) : HttpResponse :=
  s3_error 411 "MissingContentLength" message resource None.

Definition access_denied (message : string) (resource : option string) : HttpResponse :=
  s3_error 403 "AccessDenied" message resource None.

Definition signature_does_not_match (message : string) (resource : option string) : HttpResponse :=
  s3_error 403 "SignatureDoesNotMatch" message resource None.

Definition request_time_too_skewed (message : string) (resource : option string) : HttpResponse :=
  s3_error 403 "RequestTimeTooSkewed" message resource None.

(** [method_not_allowed] and [slow_down]: one extra header each *)
Definition method_not_allowed (message : string) (resource : option string) (allow : string)
    : HttpResponse :=
  {| resp_status := 405; resp_code := "MethodNotAllowed"; resp_message := message;
     resp_resource := resource; resp_headers := [("Allow"%string, allow)] |}.

Definition slow_down (message : string) (resource : option string) (retry_after_secs : Z)
    : HttpResponse :=
  {| resp_status := 429; resp_code := "SlowDown"; resp_message := message;
     resp_resource := resource; resp_headers := [("Retry-After"%string, print_u64 retry_after_secs)] |}.

Definition invalid_access_key_id (message : string) (resource : option string) : HttpResponse :=
  s3_error 403 "InvalidAccessKeyId" message resource None.
Definition no_such_bucket (message : string) (resource : option string) : HttpResponse :=
  s3_error 404 "NoSuchBucket" message resource None.
Definition no_such_key (message : string) (resource : option string) : HttpResponse :=
  s3_error 404 "NoSuchKey" message resource None.
Definition precondition_failed (message : string) (resource : option string) : HttpResponse :=
  s3_error 412 "PreconditionFailed" message resource None.
Definition invalid_range (message : string) (resource : option string) : HttpResponse :=
  s3_error 416 "InvalidRange" message resource None.
Definition internal_error (message : string) (resource request_id : option string) : HttpResponse :=
  s3_error 500 "InternalError" message resource request_id.
Definition service_unavailable (message : string) (resource request_id : option string) : HttpResponse :=
  s3_error 503 "ServiceUnavailable" message resource request_id.

(** ** Multi-range bodies *)
Definition OBJECT_CONTENT_TYPE : string := "application/octet-stream"%string.
Definition crlf : string := String "013" (String "010" EmptyString).

(** [object_content_range] *)
Definition object_content_range (start end_incl total : Z) : string :=
  ("bytes " +:+ print_u64 start +:+ "-" +:+ print_u64 end_incl +:+ "/" +:+ print_u64 total)%string.

(** [multirange_part_header] *)
Definition multirange_part_header (boundary : string) (start end_incl total : Z) : string :=
  ("--" +:+ boundary +:+ crlf +:+
   "Content-Type: " +:+ OBJECT_CONTENT_TYPE +:+ crlf +:+
   "Content-Range: bytes " +:+ print_u64 start +:+ "-" +:+ print_u64 end_incl +:+ "/" +:+ print_u64 total
   +:+ crlf +:+ crlf)%string.

(** [multirange_closing] *)
Definition multirange_closing (boundary : string) : string := ("--" +:+ boundary +:+ "--" +:+ crlf)%string.

(** [multirange_content_type] *)
Definition multirange_content_type (boundary : string) : string :=
  ("multipart/byteranges; boundary=" +:+ boundary)%string.

Definition str_len (s : string) : Z := Z.of_nat (String.length s).

(** One iteration of the loop of [multirange_content_length]. *)
Definition add_range_length (boundary : string) (total : Z) (len : Z) (r : ByteRange) : Z :=
  let end_incl := sat_sub (end_excl r) 1 in
  len + str_len (multirange_part_header boundary (start r) end_incl total)
  + (end_excl r - start r) + 2.

(** [multirange_content_length] *)
Definition multirange_content_length (boundary : string) (ranges : list ByteRange) (total : Z) : Z :=
  foldl (add_range_length boundary total) 0 ranges + str_len (multirange_closing boundary).
