(* ===== verification/S3Xml.v ===== *)
(** * s32p-support/src/s3xml.rs: request bodies and stored metadata

    The parsers of XML request bodies, over the events the [quick-xml] reader
    reports, and the validators of tag sets, user metadata and content types.
    The URL-form codec is the [url] crate's, a parameter. *)

From Stdlib Require Import ZArith Lia Ascii.
From stdpp Require Import base list strings numbers option sorting sets gmap.
From S2P Require Import Prelude RustStr Http Utils.

Local Open Scope s3_scope.
Local Open Scope Z_scope.

(** ** Events *)

(** What [read_event_into] reports up to [Eof]: a text node carries the answer
    of [xml_content]; an entity reference such as [&amp;] is an event of its
    own; [XOther] is any event the parsers do not look at; [XError] is the
    reader's error. *)
Inductive xml_event :=
| XStart (name : string) | XEnd (name : string) | XText (content : res string string)
| XRef (name : string) | XOther | XError (m : string).

(** [local_name] *)
Definition local_name (name : string) : string :=
  match rsplit_once ":" name with Some (_, n) => n | None => name end.

(** ** [parse_delete_objects_request] *)
Record delete_state := { del_in_key : bool; del_in_quiet : bool; del_quiet : bool; del_keys : list string }.

Definition set_del (in_key in_quiet : bool) (st : delete_state) : delete_state :=
  {| del_in_key := in_key; del_in_quiet := in_quiet; del_quiet := del_quiet st; del_keys := del_keys st |}.

Definition delete_event (st : delete_state) (e : xml_event) : res string delete_state :=
  match e with
  | XStart name =>
      let n := local_name name in
      Ok (if n =s "Key" then set_del true (del_in_quiet st) st
          else if n =s "Quiet" then set_del (del_in_key st) true st else st)
  | XEnd name =>
      let n := local_name name in
      Ok (if n =s "Key" then set_del false (del_in_quiet st) st
          else if n =s "Quiet" then set_del (del_in_key st) false st else st)
  | XText t =>
      match t with
      | Panics => Panics
      | Err m => Err ("xml text decode error: " +:+ m)%string
      | Ok s =>
          Ok (if del_in_key st then
                if is_empty s then st
                else {| del_in_key := del_in_key st; del_in_quiet := del_in_quiet st; del_quiet := del_quiet st;
                        del_keys := del_keys st ++ [s] |}
              else if del_in_quiet st then
                let v := trim s in
                {| del_in_key := del_in_key st; del_in_quiet := del_in_quiet st;
                   del_quiet := eq_ignore_ascii_case v "true" || (v =s "1"); del_keys := del_keys st |}
              else st)
      end
  | XError m => Err ("bad DeleteObjects XML: " +:+ m)%string
  | XRef _ | XOther => Ok st
  end.

Fixpoint run_events {S} (step : S -> xml_event -> res string S) (st : S) (es : list xml_event) : res string S :=
  match es with
  | [] => Ok st
  | e :: es => st ← step st e; run_events step st es
  end.

Definition parse_delete_objects_request (es : list xml_event) : res string (bool * list string) :=
  st ← run_events delete_event {| del_in_key := false; del_in_quiet := false; del_quiet := false; del_keys := [] |} es;
  Ok (del_quiet st, del_keys st).

(** ** [parse_complete_parts] *)
Definition parts_event (st : bool * list Z) (e : xml_event) : res string (bool * list Z) :=
  match e with
  | XStart name => Ok (if local_name name =s "PartNumber" then (true, snd st) else st)
  | XEnd name => Ok (if local_name name =s "PartNumber" then (false, snd st) else st)
  | XText t =>
      if fst st then
        match t with
        | Panics => Panics
        | Err m => Err ("xml text decode error: " +:+ m)%string
        | Ok s => match parse_u32_str (trim s) with
                  | Some pn => Ok (fst st, snd st ++ [pn])
                  | None => Err ("invalid PartNumber: " +:+ s)%string
                  end
        end
      else Ok st
  | XError m => Err ("bad CompleteMultipartUpload XML: " +:+ m)%string
  | XRef _ | XOther => Ok st
  end.

(** [parts.dedup()] *)
Fixpoint dedup_parts (l : list Z) : list Z :=
  match l with
  | a :: (b :: _) as l' => if a =? b then dedup_parts l' else a :: dedup_parts l'
  | _ => l
  end.

Definition parse_complete_parts (es : list xml_event) : res string (list Z) :=
  st ← run_events parts_event (false, []) es;
  match snd st with
  | [] => Err "no parts in CompleteMultipartUpload"%string
  | l => Ok (dedup_parts (merge_sort Z.le l))
  end.

(** ** [parse_put_acl_request_world_readable] *)
Record acl_state := {
  acl_in_grantee : bool; acl_in_uri : bool; acl_in_permission : bool;
  acl_uri : option string; acl_permission : option string; acl_world : bool;
}.
Definition acl_start (st : acl_state) (local : string) : acl_state :=
  let '(Build_acl_state g u p cu cp w) := st in
  if local =s "Grantee" then Build_acl_state true u p None cp w
  else if g && (local =s "URI") then Build_acl_state g true p cu cp w
  else if local =s "Grant" then Build_acl_state g u p cu None w
  else if local =s "Permission" then Build_acl_state g u true cu cp w
  else st.
Definition acl_end (st : acl_state) (local : string) : acl_state :=
  let '(Build_acl_state g u p cu cp w) := st in
  if local =s "Grantee" then Build_acl_state false u p cu cp w
  else if local =s "URI" then Build_acl_state g false p cu cp w
  else if local =s "Permission" then Build_acl_state g u false cu cp w
  else if local =s "Grant" then
    let public := match cu with Some v => contains_str "AllUsers" v | None => false end in
    let perm := default ""%string cp in
    Build_acl_state g u p None None
      (if public && (eq_ignore_ascii_case perm "READ" || eq_ignore_ascii_case perm "FULL_CONTROL") then true else w)
  else st.
Definition acl_text (st : acl_state) (s : string) : acl_state :=
  let '(Build_acl_state g u p cu cp w) := st in
  if u then Build_acl_state g u p (Some s) cp w
  else if p then Build_acl_state g u p cu (Some s) w else st.
Definition acl_event (st : acl_state) (e : xml_event) : res string acl_state :=
  match e with
  | XStart name => Ok (acl_start st (local_name name))
  | XEnd name => Ok (acl_end st (local_name name))
  | XText (Ok s) => Ok (acl_text st s)
  | XText (Err m) => Err ("xml text decode error: " +:+ m)%string
  | XText Panics => Panics
  | XError m => Err ("bad PutAcl XML: " +:+ m)%string
  | XRef _ | XOther => Ok st
  end.

(** A body of white space only is told apart before the reader runs. *)
Definition is_ascii_whitespace (c : ascii) : bool :=
  existsb (fun b => byte_val c =? b) [9; 10; 12; 13; 32].

Definition parse_put_acl_request_world_readable (xml : string) (es : list xml_event) : res string bool :=
  if all_bytes is_ascii_whitespace xml then Ok false
  else st ← run_events acl_event (Build_acl_state false false false None None false) es; Ok (acl_world st).

(** ** [parse_object_tagging_request] *)
Record tag_state := {
  tag_in_key : bool; tag_in_value : bool; tag_key : option string; tag_value : option string;
  tag_pairs : list (string * string);
}.
Definition tag_event (st : tag_state) (e : xml_event) : res string tag_state :=
  let '(Build_tag_state ik iv k v ps) := st in
  match e with
  | XStart name =>
      let local := local_name name in
      Ok (if local =s "Tag" then Build_tag_state ik iv None None ps
          else if local =s "Key" then Build_tag_state true iv k v ps
          else if local =s "Value" then Build_tag_state ik true k v ps else st)
  | XEnd name =>
      let local := local_name name in
      if local =s "Key" then Ok (Build_tag_state false iv k v ps)
      else if local =s "Value" then Ok (Build_tag_state ik false k v ps)
      else if local =s "Tag" then
        match k with
        | None => Err "Tag missing Key"%string
        | Some k => Ok (Build_tag_state ik iv None None (ps ++ [(k, default ""%string v)]))
        end
      else Ok st
  | XText (Ok s) =>
      Ok (if ik then Build_tag_state ik iv (Some s) v ps
          else if iv then Build_tag_state ik iv k (Some s) ps else st)
  | XText (Err m) => Err ("xml text decode error: " +:+ m)%string
  | XText Panics => Panics
  | XError m => Err ("bad Tagging XML: " +:+ m)%string
  | XRef _ | XOther => Ok st
  end.

(** ** Validators *)

(** [s.chars().count()] on UTF-8: the bytes that do not continue a character *)
Fixpoint char_count (s : string) : Z :=
  match s with
  | EmptyString => 0
  | String c s => (if in_range 128 191 c then 0 else 1) + char_count s
  end.
Definition byte_len (s : string) : Z := Z.of_nat (String.length s).

Definition is_one_of (chars : string) (c : ascii) : bool := contains_char c chars.

(** [is_allowed_tag_chars] and the character classes of metadata *)
Definition is_allowed_tag_chars : string -> bool :=
  all_bytes (fun c => is_ascii_alphanumeric c || is_one_of " +-=._:/@" c).
Definition is_allowed_meta_key_chars : string -> bool :=
  all_bytes (fun c => is_ascii_alphanumeric c || is_one_of "-_" c).
Definition is_allowed_meta_value_chars : string -> bool :=
  all_bytes (fun c => in_range 32 126 c || existsb (fun b => byte_val c =? b) [9; 13; 10]).
Definition is_mime_token_byte (c : ascii) : bool :=
  is_ascii_alphanumeric c || is_one_of "!#$%&'*+-.^_`|~" c.

Definition invalid {A} (reason : string) : res string A := Err reason.

(** The loop of [validate_tagging_urlform] *)
Fixpoint check_tags (count : Z) (seen : list string) (pairs : list (string * string)) : res string unit :=
  match pairs with
  | [] => Ok tt
  | (k, v) :: pairs =>
      let count := count + 1 in
      if 10 <? count then invalid "tag set contains more than 10 pairs"
      else if (char_count k =? 0) || (128 <? char_count k) then invalid "tag key length out of range (1..=128)"
      else if 256 <? char_count v then invalid "tag value length out of range (0..=256)"
      else if negb (is_allowed_tag_chars k) then invalid "tag key contains disallowed characters"
      else if negb (is_allowed_tag_chars v) then invalid "tag value contains disallowed characters"
      else if existsb (fun s => s =s k) seen then invalid "duplicate tag key"
      else check_tags count (seen ++ [k]) pairs
  end.

(** The loop of [validate_user_metadata_urlform] *)
Fixpoint check_metadata (count : Z) (seen : list string) (pairs : list (string * string)) : res string unit :=
  match pairs with
  | [] => Ok tt
  | (k, v) :: pairs =>
      let count := count + 1 in
      if 32 <? count then invalid "user metadata contains more than 32 pairs"
      else if (char_count k =? 0) || (128 <? char_count k) then invalid "user metadata key length out of range (1..=128)"
      else if negb (is_allowed_meta_key_chars k) then invalid "user metadata key contains disallowed characters"
      else if 1024 <? char_count v then invalid "user metadata value length out of range (0..=1024)"
      else if negb (is_allowed_meta_value_chars v) then invalid "user metadata value contains disallowed control characters"
      else if existsb (fun s => s =s k) seen then invalid "duplicate user metadata key"
      else check_metadata count (seen ++ [k]) pairs
  end.

(** [validate_content_type] *)
Definition validate_content_type (s : string) : res string unit :=
  if is_empty s then invalid "Content-Type must not be empty"
  else if 256 <? byte_len s then invalid "Content-Type exceeds 256 bytes"
  else if negb (all_bytes (fun c => in_range 32 126 c || (byte_val c =? 9)) s)
  then invalid "Content-Type contains non-printable or non-ASCII bytes"
  else
    let head := match split_once ";" s with Some (h, _) => trim h | None => trim s end in
    match split_once "/" head with
    | None => invalid "Content-Type missing '/'"
    | Some (ty, sub) =>
        let ty := trim ty in
        let sub := trim sub in
        if is_empty ty || is_empty sub then invalid "Content-Type has empty type or subtype"
        else if negb (all_bytes is_mime_token_byte ty) || negb (all_bytes is_mime_token_byte sub)
        then invalid "Content-Type type/subtype contains disallowed characters"
        else Ok tt
    end.

(** The URL-form codec of the [url] crate *)
Class FormCodec := {
  form_parse : string -> list (string * string);
  form_serialize : list (string * string) -> string;
}.

Section Form.
Context `{FormCodec}.

Definition parse_object_tagging_request (xml : string) (es : list xml_event) : res string string :=
  if all_bytes is_ascii_whitespace xml then Ok ""%string
  else st ← run_events tag_event (Build_tag_state false false None None []) es; Ok (form_serialize (tag_pairs st)).

(** [validate_tagging_urlform] *)
Definition validate_tagging_urlform (s : string) : res string unit :=
  if 2048 <? byte_len s then Err "tag set payload exceeds 2048 bytes"%string
  else if is_empty s then Ok tt else check_tags 0 [] (form_parse s).

(** [validate_user_metadata_urlform] *)
Definition validate_user_metadata_urlform (s : string) : res string unit :=
  if 2048 <? byte_len s then Err "user metadata payload exceeds 2048 bytes"%string
  else if is_empty s then Ok tt else check_metadata 0 [] (form_parse s).

(** [extract_user_meta_headers] of s3resp.rs *)
Fixpoint collect_user_meta (lines : list (string * header_value)) : res string (list (string * string)) :=
  match lines with
  | [] => Ok []
  | (name, value) :: lines =>
      match strip_prefix "x-amz-meta-" name with
      | None => collect_user_meta lines
      | Some suffix =>
          if is_empty suffix then Err "x-amz-meta- header with empty key"%string
          else match value with
               | None => Err "non-ASCII x-amz-meta-* header value"%string
               | Some v => ps ← collect_user_meta lines; Ok ((to_ascii_lowercase suffix, v) :: ps)
               end
      end
  end.
Definition extract_user_meta_headers (headers : header_map) : res string string :=
  ps ← collect_user_meta (hm_iter headers);
  Ok (match ps with [] => ""%string | _ => form_serialize ps end).
End Form.

(** ** What the parsers accept *)

(** Text events of a key element between its tags *)
Lemma run_events_app {S} (step : S -> xml_event -> res string S) st a b :
  run_events step st (a ++ b) = run_events step st a ≫= fun st => run_events step st b.
Proof. revert st. induction a as [|e a IH]; intros st; cbn; [done|]. destruct (step st e); cbn; [apply IH|done..]. Qed.

(** The content of a [Key] element: runs of text between entity references *)
Definition is_piece (e : xml_event) : Prop :=
  match e with XText (Ok t) => t <> ""%string | XRef _ => True | _ => False end.
Definition piece_text (e : xml_event) : option string := match e with XText (Ok t) => Some t | _ => None end.
Definition key_element (pieces : list xml_event) : list xml_event :=
  [XStart "Object"; XStart "Key"]%string ++ pieces ++ [XEnd "Key"; XEnd "Object"]%string.

(** One element after the other, and their runs of text *)
Definition key_elements (l : list (list xml_event)) : list xml_event := concat (map key_element l).
Definition text_runs (l : list (list xml_event)) : list string := concat (map (fun pieces : list xml_event => omap piece_text pieces) l).

Definition add_keys (ks : list string) (st : delete_state) : delete_state :=
  {| del_in_key := del_in_key st; del_in_quiet := del_in_quiet st; del_quiet := del_quiet st; del_keys := del_keys st ++ ks |}.

Lemma run_pieces st pieces :
  del_in_key st = true -> Forall is_piece pieces ->
  run_events delete_event st pieces = Ok (add_keys (omap piece_text pieces) st).
Proof.
  intros Hk Hf. revert st Hk. induction Hf as [|e pieces He _ IH]; intros st Hk.
  - cbn. unfold add_keys. rewrite app_nil_r. by destruct st.
  - destruct e as [| |[t| |]| | |]; try done; cbn [run_events].
    + cbn -[run_events add_keys]. rewrite Hk, (proj2 (is_empty_false t)) by done. cbn -[run_events add_keys]. rewrite IH by done.
      unfold add_keys. cbn. by rewrite Hk, <- app_assoc.
    + cbn -[run_events add_keys]. by apply IH.
Qed.

Lemma run_key_element st pieces :
  del_in_key st = false -> Forall is_piece pieces ->
  run_events delete_event st (key_element pieces) = Ok (add_keys (omap piece_text pieces) st).
Proof.
  intros Hk Hf. unfold key_element. rewrite run_events_app.
  change (run_events delete_event st [XStart "Object"; XStart "Key"]%string) with (Ok (E := string) (set_del true (del_in_quiet st) st)).
  cbn [mbind res_bind]. rewrite run_events_app, run_pieces by done. cbn. unfold set_del, add_keys. cbn. by rewrite <- Hk.
Qed.

Lemma run_key_elements st (l : list (list xml_event)) :
  del_in_key st = false -> Forall (Forall is_piece) l ->
  run_events delete_event st (key_elements l) = Ok (add_keys (text_runs l) st).
Proof.
  intros Hk Hf. revert st Hk. induction Hf as [|p l Hp _ IH]; intros st Hk.
  - cbn. unfold add_keys. rewrite app_nil_r. by destruct st.
  - change (key_elements (p :: l)) with (key_element p ++ key_elements l).
    rewrite run_events_app, run_key_element by done. cbn [mbind res_bind]. rewrite IH by done.
    unfold add_keys. cbn. by rewrite <- app_assoc.
Qed.

(** The keys of a DeleteObjects body.  An entity reference is an event
    of its own, which the parser skips: a [Key] element yields one key for
    each run of text in it, so that a key with no reference is read as it is
    written, and the key [a&b], sent as [a&amp;b], is read as the two keys
    [a] and [b]. *)
Theorem delete_keys_are_text_runs (l : list (list xml_event)) :
  Forall (Forall is_piece) l ->
  parse_delete_objects_request ([XStart "Delete"%string] ++ key_elements l ++ [XEnd "Delete"%string])
  = Ok (false, text_runs l).
Proof.
  intros Hl. unfold parse_delete_objects_request. rewrite run_events_app.
  change (run_events delete_event ?s [XStart "Delete"%string]) with (Ok (E := string) s). cbn [mbind res_bind].
  rewrite run_events_app, run_key_elements by done. done.
Qed.

Lemma delete_keys_are_text_runs_witness :
  parse_delete_objects_request
    [XStart "Delete"; XStart "Object"; XStart "Key"; XText (Ok "a"); XRef "amp"; XText (Ok "b"); XEnd "Key"; XEnd "Object";
     XEnd "Delete"]%string = Ok (false, ["a"; "b"]%string).
Proof.
  apply (delete_keys_are_text_runs [[XText (Ok "a"); XRef "amp"; XText (Ok "b")]]%string).
  repeat constructor; done.
Defined.

(** ** What the validators accept *)
Record tags_within_limits (pairs : list (string * string)) : Prop := {
  twl_count : Z.of_nat (length pairs) <= 10;
  twl_keys : NoDup pairs.*1;
  twl_pair : forall k v, (k, v) ∈ pairs -> 1 <= char_count k <= 128 /\ char_count v <= 256 /\
    is_allowed_tag_chars k = true /\ is_allowed_tag_chars v = true;
}.

Lemma char_count_nonneg s : 0 <= char_count s.
Proof. induction s as [|c s IH]; cbn; [done|]. case_match; lia. Qed.

Lemma check_tags_ok pairs count seen :
  0 <= count -> NoDup seen ->
  check_tags count seen pairs = Ok tt <->
  (pairs = [] \/ count + Z.of_nat (length pairs) <= 10) /\ NoDup (seen ++ pairs.*1) /\
  forall k v, (k, v) ∈ pairs -> 1 <= char_count k <= 128 /\ char_count v <= 256 /\
    is_allowed_tag_chars k = true /\ is_allowed_tag_chars v = true.
Proof.
  revert count seen. induction pairs as [|[k v] pairs IH]; intros count seen Hc Hs.
  - cbn. rewrite app_nil_r. split; [|done]. intros _. split_and!; [by left|done|set_solver].
  - cbn [check_tags fmap list_fmap fst length]. pose proof (char_count_nonneg k) as Hk. split.
    + destruct (Z.ltb_spec 10 (count + 1)); [done|].
      destruct (Z.eqb_spec (char_count k) 0), (Z.ltb_spec 128 (char_count k)); try done; cbn [orb].
      destruct (Z.ltb_spec 256 (char_count v)); [done|].
      destruct (is_allowed_tag_chars k) eqn:Ek; [|done]. destruct (is_allowed_tag_chars v) eqn:Ev; [|done]. cbn [negb].
      destruct (existsb _ seen) eqn:Ex; [done|]. intros Hrun. apply IH in Hrun; [|lia|].
      2:{ apply NoDup_app. split_and!; [done| |apply NoDup_singleton]. intros x Hx ->%list_elem_of_singleton.
          apply not_true_iff_false in Ex. apply Ex. by apply existsb_eq_elem. }
      destruct Hrun as (Hn & Hd & Hp). rewrite <- app_assoc in Hd. split_and!; [|done|].
      * right. destruct Hn as [->|]; cbn; lia.
      * intros k' v' [[= -> ->]|]%elem_of_cons; [split_and!; lia || done|auto].
    + intros (Hn & Hd & Hp). destruct Hn as [|Hn]; [done|]. destruct (Hp k v) as (? & ? & -> & ->); [set_solver|].
      rewrite (proj2 (Z.ltb_ge _ _)), (proj2 (Z.eqb_neq _ _)), !(proj2 (Z.ltb_ge _ _)) by lia. cbn [negb orb].
      assert (existsb (fun s => s =s k) seen = false) as ->.
      { apply not_true_is_false. intros Hin%existsb_eq_elem. apply NoDup_app in Hd as (_ & Hd & _). apply (Hd k Hin). set_solver. }
      apply IH; [lia| |].
      * apply NoDup_app in Hd as (_ & Hd & Hd'). apply NoDup_app. split_and!; [done| |apply NoDup_singleton].
        intros x Hx ->%list_elem_of_singleton. apply (Hd k Hx). set_solver.
      * split_and!; [right; lia|by rewrite <- app_assoc|]. intros. apply Hp. set_solver.
Qed.

(** The tag sets the gateway stores: [validate_tagging_urlform] accepts a
    payload exactly when it is at most 2048 bytes long and, if not empty,
    decodes to at most ten pairs with distinct keys of 1 to 128 characters
    and values of at most 256, all of the documented character set. *)
Theorem validate_tagging_exact `{FormCodec} (s : string) :
  validate_tagging_urlform s = Ok tt <->
  byte_len s <= 2048 /\ (s = ""%string \/ tags_within_limits (form_parse s)).
Proof.
  unfold validate_tagging_urlform. destruct (Z.ltb_spec 2048 (byte_len s)); [split; [done|lia]|].
  destruct s as [|c s]; [cbn; naive_solver lia|]. set (t := String c s) in *. change (is_empty t) with false. cbv iota.
  rewrite check_tags_ok by (lia || constructor). cbn [app]. split.
  - intros (Hn & Hd & Hp). split; [lia|right]. split; [|done|done]. destruct Hn as [->|]; [done|lia].
  - intros [_ [|[Hn Hd Hp]]]; [done|]. split_and!; [right; lia|done|done].
Qed.
