(* ===== verification/Bytes.v ===== *)
(** * Byte buffers and regular files

    A [Bytes], a [Vec<u8>] or the content of a regular file is a list of
    bytes; offsets are the [u64] of the sources.  [slice] is [&b[i0..i1]],
    [write_at] is [pwrite(2)] and [truncate] is [ftruncate(2)]. *)

From Stdlib Require Import ZArith Lia Ascii.
From stdpp Require Import base list strings numbers option.
From S2P Require Import Prelude RustStr.

Local Open Scope Z_scope.

Abbreviation bytes := (list ascii).
Definition blen (b : bytes) : Z := Z.of_nat (length b).

(** [&b[i0..i1]], where the sources keep [i0 <= i1 <= len] *)
Definition slice (b : bytes) (i0 i1 : Z) : bytes :=
  take (Z.to_nat (i1 - i0)) (drop (Z.to_nat i0) b).

(** [s.as_bytes()] and the string of bytes known to be UTF-8 *)
Definition bytes_of (s : string) : bytes := String.list_ascii_of_string s.
Definition str_of (b : bytes) : string := String.string_of_list_ascii b.

Definition zeros (n : Z) : bytes := replicate (Z.to_nat n) "000"%char.

(** [ftruncate(fd, n)]: cut, or extend with zeros. *)
Definition truncate (f : bytes) (n : Z) : bytes :=
  take (Z.to_nat n) f ++ zeros (n - blen f).

(** [pwrite(fd, data, off)]: a hole before [off] reads as zeros, and writing
    nothing changes nothing. *)
Definition write_at (f : bytes) (off : Z) (data : bytes) : bytes :=
  match data with
  | [] => f
  | _ => take (Z.to_nat off) f ++ zeros (off - blen f) ++ data ++ drop (Z.to_nat off + length data)%nat f
  end.

Lemma blen_nonneg b : 0 <= blen b.
Proof. unfold blen. lia. Qed.

Lemma blen_app a b : blen (a ++ b) = blen a + blen b.
Proof. unfold blen. rewrite length_app. lia. Qed.

Lemma blen_nil : blen [] = 0.
Proof. done. Qed.

Lemma blen_bytes_of s : blen (bytes_of s) = Z.of_nat (String.length s).
Proof. unfold blen, bytes_of. f_equal. induction s as [|c s IH]; cbn; [done|]. by rewrite IH. Qed.

Lemma blen_zeros n : blen (zeros n) = Z.max 0 n.
Proof. unfold blen, zeros. rewrite length_replicate. lia. Qed.

Lemma zeros_nil n : n <= 0 -> zeros n = [].
Proof. intros. unfold zeros. by replace (Z.to_nat n) with 0%nat by lia. Qed.

Lemma slice_empty b i j : j <= i -> slice b i j = [].
Proof. intros. unfold slice. by replace (Z.to_nat (j - i)) with 0%nat by lia. Qed.

Lemma slice_full b n : blen b <= n -> slice b 0 n = b.
Proof.
  unfold blen, slice. intros. rewrite drop_0. apply take_ge. lia.
Qed.

Lemma blen_slice b i j : 0 <= i <= j -> j <= blen b -> blen (slice b i j) = j - i.
Proof. unfold blen, slice. rewrite length_take, length_drop. lia. Qed.

Lemma slice_app b i j k :
  0 <= i <= j -> j <= k -> slice b i j ++ slice b j k = slice b i k.
Proof.
  intros. unfold slice.
  replace (Z.to_nat j) with (Z.to_nat i + Z.to_nat (j - i))%nat by lia.
  rewrite <- drop_drop.
  replace (Z.to_nat (k - i)) with (Z.to_nat (j - i) + Z.to_nat (k - j))%nat by lia.
  generalize (drop (Z.to_nat i) b) as l, (Z.to_nat (j - i)) as x, (Z.to_nat (k - j)) as y.
  intros l x y. by rewrite take_take_drop.
Qed.

Lemma slice_slice b i j a c :
  0 <= i -> 0 <= a -> i + c <= j -> slice (slice b i j) a c = slice b (i + a) (i + c).
Proof.
  intros. unfold slice. rewrite skipn_firstn_comm, drop_drop, take_take.
  f_equal; [lia | f_equal; lia].
Qed.

Lemma slice_beyond b i j : blen b <= i -> slice b i j = [].
Proof.
  unfold blen, slice. intros. rewrite drop_ge by lia. apply take_nil.
Qed.

(** Appending at the end of a file. *)
Lemma write_at_end f data : write_at f (blen f) data = f ++ data.
Proof.
  destruct data as [|c data]; [by rewrite app_nil_r|].
  unfold write_at. rewrite zeros_nil by lia. unfold blen. rewrite Nat2Z.id.
  rewrite take_ge by lia. rewrite drop_ge by lia. by rewrite app_nil_r.
Qed.

Lemma truncate_app f g : truncate (f ++ g) (blen f) = f.
Proof.
  unfold truncate. rewrite blen_app. rewrite zeros_nil by (pose proof (blen_nonneg g); lia).
  rewrite app_nil_r. unfold blen. rewrite Nat2Z.id. apply take_app_length.
Qed.

Lemma truncate_id f : truncate f (blen f) = f.
Proof. rewrite <- (app_nil_r f) at 1. apply truncate_app. Qed.
#[export] Hint Resolve blen_nonneg : s3.

(** ** Byte by byte *)
Lemma write_at_eq f off data : data <> [] ->
  write_at f off data
  = (take (Z.to_nat off) f ++ zeros (off - blen f)) ++ data ++ drop (Z.to_nat off + length data)%nat f.
Proof. destruct data; [done|]. intros _. cbn [write_at]. by rewrite <- app_assoc. Qed.

Lemma write_at_head_length f off : 0 <= off ->
  length (take (Z.to_nat off) f ++ zeros (off - blen f)) = Z.to_nat off.
Proof. intros. rewrite length_app, length_take. pose proof (blen_zeros (off - blen f)). unfold blen in *. lia. Qed.

Lemma lookup_write_at_in f off data (i : nat) :
  0 <= off -> (i < length data)%nat -> write_at f off data !! (Z.to_nat off + i)%nat = data !! i.
Proof.
  intros Ho Hi. rewrite write_at_eq by (by destruct data; cbn in Hi; [lia|]).
  rewrite lookup_app_r; rewrite write_at_head_length by done; [|lia].
  rewrite lookup_app_l by lia. f_equal. lia.
Qed.

(** What a write does not touch stays. *)
Lemma lookup_write_at_out f off data (k : nat) x :
  0 <= off -> f !! k = Some x -> (k < Z.to_nat off \/ Z.to_nat off + length data <= k)%nat ->
  write_at f off data !! k = Some x.
Proof.
  intros Ho Hk Hout. destruct (decide (data = [])) as [->|Hne]; [done|].
  pose proof (lookup_lt_Some _ _ _ Hk) as Hlen. pose proof (write_at_head_length f off Ho) as Hhl.
  rewrite write_at_eq by done.
  destruct Hout as [Hlt|Hge].
  - rewrite lookup_app_l by lia. rewrite lookup_app_l by (rewrite length_take; lia).
    by rewrite lookup_take_lt by lia.
  - rewrite lookup_app_r, lookup_app_r by lia. rewrite lookup_drop, Hhl, <- Hk. f_equal. lia.
Qed.

Lemma lookup_slice f i j (k : nat) :
  0 <= i <= j -> (k < Z.to_nat (j - i))%nat -> slice f i j !! k = f !! (Z.to_nat i + k)%nat.
Proof. intros. unfold slice. rewrite lookup_take_lt by lia. by rewrite lookup_drop. Qed.

(** A file that shows [d] byte by byte at [off] has [d] as that slice. *)
Lemma slice_from_lookup f off d :
  0 <= off -> (forall i, (i < length d)%nat -> f !! (Z.to_nat off + i)%nat = d !! i) ->
  slice f off (off + blen d) = d.
Proof.
  intros Ho Hl. apply list_eq. intros i.
  destruct (decide (i < length d)%nat) as [Hi|Hi].
  - rewrite lookup_slice by (unfold blen; lia). by apply Hl.
  - rewrite (lookup_ge_None_2 d) by lia. apply lookup_ge_None_2. unfold slice, blen. rewrite length_take. lia.
Qed.

Lemma lookup_truncate f n (k : nat) x : (k < Z.to_nat n)%nat -> f !! k = Some x -> truncate f n !! k = Some x.
Proof.
  intros Hk Hf. unfold truncate. rewrite lookup_app_l.
  - by rewrite lookup_take_lt.
  - rewrite length_take. apply lookup_lt_Some in Hf. lia.
Qed.

Lemma blen_truncate f n : 0 <= n -> blen (truncate f n) = n.
Proof. intros. unfold truncate. rewrite blen_app, blen_zeros. unfold blen. rewrite length_take. lia. Qed.
