(* ===== verification/FsHelpers.v ===== *)
(** * s32p-gateway/src/fs_helpers.rs: alignment and object paths

    The arithmetic of [O_DIRECT] alignment, and the mapping of a bucket and
    a key to a path below the export root. *)

From Stdlib Require Import ZArith Lia Ascii.
From stdpp Require Import base list strings numbers option.
From S2P Require Import Prelude RustStr.

Local Open Scope s3_scope.
Local Open Scope Z_scope.

(** [buffer::ALIGN] *)
Definition ALIGN : Z := 4096.

(** [align_down] *)
Definition align_down (x a : Z) : Z := x / a * a.

(** [align_up]: the sum saturates. *)
Definition align_up (x a : Z) : Z :=
  let y := sat_add64 x (a - 1) in
  y / a * a.

Lemma align_down_le x a : 0 < a -> align_down x a <= x < align_down x a + a.
Proof.
  intros Ha. unfold align_down. pose proof (Z.div_mod x a). pose proof (Z.mod_pos_bound x a). lia.
Qed.

Lemma align_down_mod x a : 0 < a -> align_down x a mod a = 0.
Proof. intros. unfold align_down. apply Z.mod_mul. lia. Qed.

Lemma align_down_nonneg x a : 0 < a -> 0 <= x -> 0 <= align_down x a.
Proof.
  intros. unfold align_down. apply Z.mul_nonneg_nonneg; [|lia]. by apply Z.div_pos.
Qed.

Lemma align_down_aligned x a : 0 < a -> x mod a = 0 -> align_down x a = x.
Proof. intros. unfold align_down. pose proof (Z.div_mod x a). lia. Qed.

Lemma align_up_bounds x a :
  0 < a -> x + (a - 1) <= u64_max -> x <= align_up x a < x + a /\ align_up x a mod a = 0.
Proof.
  intros Ha Hx. unfold align_up, sat_add64. rewrite Z.min_r by lia.
  split; [|apply Z.mod_mul; lia].
  pose proof (Z.div_mod (x + (a - 1)) a). pose proof (Z.mod_pos_bound (x + (a - 1)) a). lia.
Qed.

Lemma align_up_aligned x a : 0 < a -> x + (a - 1) <= u64_max -> x mod a = 0 -> align_up x a = x.
Proof.
  intros Ha Hx Hm. destruct (align_up_bounds x a Ha Hx) as [Hb Hm'].
  pose proof (Z.div_mod x a ltac:(lia)). pose proof (Z.div_mod (align_up x a) a ltac:(lia)).
  assert (align_up x a / a = x / a) by nia. nia.
Qed.

(** ** Object paths

    A [PathBuf] built by [root.join(bucket)] and [push] of relative names is
    the root followed by the list of those names. *)
Inductive path_error := InvalidBucket | InvalidKeySegment | NulInKeySegment.

(** The messages of the [anyhow!] errors. *)
Definition path_error_message (e : path_error) : string :=
  match e with
  | InvalidBucket => "invalid bucket" | InvalidKeySegment => "invalid key segment"
  | NulInKeySegment => "NUL in key segment"
  end%string.

Fixpoint push_parts (parts : list string) (out : list string) : res path_error (list string) :=
  match parts with
  | [] => Ok out
  | part :: rest =>
      if is_empty part then push_parts rest out
      else if (part =s ".") || (part =s "..") then Err InvalidKeySegment
      else if contains_char "000" part then Err NulInKeySegment
      else push_parts rest (out ++ [part])
  end.

(** [join_object_path] *)
Definition join_object_path (root : list string) (bucket key : string) : res path_error (list string) :=
  if is_empty bucket || contains_char "/" bucket || (bucket =s ".") || (bucket =s "..")
  then Err InvalidBucket
  else push_parts (split "/" key) (root ++ [bucket]).

(** [bucket_root_path] *)
Definition bucket_root_path (root : list string) (bucket : string) : res path_error (list string) :=
  join_object_path root bucket "".

(** ** Path safety *)

(** A name that [PathBuf::push] appends as one component below what is there. *)
Definition safe_component (s : string) : Prop :=
  s <> ""%string /\ s <> "."%string /\ s <> ".."%string /\ contains_char "/" s = false /\ contains_char "000" s = false.

Lemma push_parts_ok parts out p :
  Forall (fun x => contains_char "/" x = false) parts ->
  push_parts parts out = Ok p ->
  p = out ++ filter (fun x => x <> ""%string) parts /\ Forall safe_component (filter (fun x => x <> ""%string) parts).
Proof.
  revert out. induction parts as [|x parts IH]; intros out Hf; cbn [push_parts].
  - intros [= <-]. by rewrite app_nil_r.
  - apply Forall_cons_iff in Hf as [Hx Hf]. destruct (is_empty x) eqn:Ex; reflect_all.
    + subst x. intros H. rewrite filter_cons_False by (intros []; done). auto.
    + rewrite filter_cons_True by done.
      destruct ((x =s ".") || (x =s ".."))%string eqn:Ed; [done|].
      destruct (contains_char "000" x) eqn:En; [done|]. reflect_all.
      intros Hp. apply IH in Hp as [-> Hs]; [|done]. rewrite <- app_assoc. split; [done|].
      constructor; [|done]. done.
Qed.

Lemma push_parts_app a b out :
  push_parts (a ++ b) out = (push_parts a out ≫= push_parts b).
Proof. revert out. induction a as [|x a IH]; intros out; cbn; [done|]. repeat case_match; done. Qed.

Lemma push_parts_safe l out : Forall safe_component l -> push_parts l out = Ok (out ++ l).
Proof.
  intros Hl. revert out. induction Hl as [|x l (He & Hd & Hdd & _ & H0) _ IH]; intros out; cbn; [by rewrite app_nil_r|].
  rewrite (proj2 (is_empty_false x)), (proj2 (str_eqb_false x ".")), (proj2 (str_eqb_false x "..")), H0 by done.
  cbn. rewrite IH, <- app_assoc. done.
Qed.

(** A directory key: the empty one, or one that ends in a slash. *)
Definition dir_form (d : string) : Prop := d = ""%string \/ exists d', d = (d' +:+ "/")%string.

(** The key of an entry below a directory key names the entry's path. *)
Lemma join_entry root bucket dir name p :
  dir_form dir -> safe_component name -> join_object_path root bucket dir = Ok p ->
  join_object_path root bucket (dir +:+ name) = Ok (p ++ [name]) /\
  join_object_path root bucket (dir +:+ name +:+ "/") = Ok (p ++ [name]).
Proof.
  intros Hd Hn. unfold join_object_path. case_match; [done|]. intros Hp.
  assert (split "/" name = [name]) as Hsn by (apply split_absent; apply Hn).
  assert (split "/" (name +:+ "/") = [name; ""%string]) as Hsd by (rewrite split_app_sep by apply Hn; done).
  assert (push_parts [name] p = Ok (p ++ [name])) as H1 by (apply push_parts_safe; by constructor).
  assert (push_parts [name; ""%string] p = Ok (p ++ [name])) as H2.
  { change [name; ""%string] with ([name] ++ [""%string]). by rewrite push_parts_app, H1. }
  destruct Hd as [->|[d' ->]].
  - cbn in Hp. injection Hp as <-. cbn [String.append]. by rewrite Hsn, Hsd.
  - rewrite !str_app_assoc. cbn [String.append]. rewrite (split_app "/" d' name), (split_app "/" d' (name +:+ "/")), !push_parts_app, Hsn, Hsd.
    rewrite split_app, push_parts_app in Hp. destruct (push_parts (split "/" d') _) as [q| |]; [|done..].
    injection Hp as ->. by split; [exact H1|exact H2].
Qed.

(** C39. Every path the gateway derives from a bucket and a key lies below the
    export root and the bucket: it is the root, the bucket name and the
    non-empty segments of the key in order, none of which is [.], [..], holds
    a slash or a NUL byte; and a key with a [.] or [..] segment is refused. *)
Theorem join_object_path_confined (root : list string) (bucket key : string) (p : list string) :
  join_object_path root bucket key = Ok p ->
  p = root ++ [bucket] ++ filter (fun x => x <> ""%string) (split "/" key) /\
  Forall safe_component (filter (fun x => x <> ""%string) (split "/" key)) /\
  bucket <> ""%string /\ bucket <> "."%string /\ bucket <> ".."%string /\ contains_char "/" bucket = false.
Proof.
  unfold join_object_path. case_match eqn:E; [done|]. intros H. reflect_all.
  apply push_parts_ok in H as [-> Hs]; [|apply split_no_sep].
  rewrite <- app_assoc. tauto.
Qed.

Lemma join_object_path_confined_witness :
  join_object_path ["export"%string] "b" "a//c.txt" = Ok ["export"; "b"; "a"; "c.txt"]%string /\
  Forall safe_component ["a"; "c.txt"]%string.
Proof.
  split; [reflexivity|].
  apply (join_object_path_confined ["export"%string] "b" "a//c.txt" _ eq_refl).
Defined.
