(* ===== verification/FileSystem.v ===== *)
(** * The POSIX file system below the export root

    What the gateway's system calls do to a tree of files: [stat], [lstat],
    [read_dir], [mkdir], [unlink], [rmdir], [rename] and extended attributes.
    Path names resolve before they reach this model: a symbolic link to a
    file is the file it names and a link to a directory the directory it
    names, both marked [linked], and a link to nothing is [Dangling].  Permissions and devices
    are not part of the tree; the handlers take the refusals of the kernel
    as parameters. *)

From Stdlib Require Import ZArith Lia Ascii.
From stdpp Require Import base list strings numbers option gmap sorting.
From S2P Require Import Prelude RustStr Http Bytes.

Local Open Scope Z_scope.

Abbreviation path := (list string).

(** What [stat] tells of an inode, and its extended attributes, each as the
    text [from_utf8_lossy] makes of it. *)
Record inode := {
  i_ino : Z;
  i_mtime : system_time;
  i_mode : Z;
  i_uid : Z;
  i_xattrs : gmap string string;
}.

Inductive node :=
| RegFile (i : inode) (b : bytes) (linked : bool)
| Directory (i : inode) (size : Z) (linked : bool)
| Dangling (i : inode) (size : Z).

Abbreviation filesystem := (gmap path node).

(** [io::ErrorKind] and the errnos the sources look at. *)
Inductive io_kind :=
| NotFound | NotADirectory | IsADirectory | PermissionDenied | DirectoryNotEmpty | AlreadyExists
| CrossesDevices | InvalidInput | Unsupported | NoData | OtherIo (m : string).

#[global] Instance io_kind_eq_dec : EqDecision io_kind.
Proof. solve_decision. Defined.

Definition node_inode (n : node) : inode :=
  match n with RegFile i _ _ | Directory i _ _ | Dangling i _ => i end.
(** [metadata.len()] *)
Definition node_size (n : node) : Z :=
  match n with RegFile _ b _ => blen b | Directory _ s _ | Dangling _ s => s end.
Definition is_dir_node (n : node) : bool := match n with Directory _ _ _ => true | _ => false end.

(** The proper prefixes of a path, shortest first. *)
Definition ancestors (p : path) : list path := (fun n => take n p) <$> seq 0 (length p).
Definition parent (p : path) : path := take (length p - 1) p.

(** Why a name that is not there does not resolve. *)
Definition missing_kind (fs : filesystem) (p : path) : io_kind :=
  if existsb (fun q => match fs !! q with Some (RegFile _ _ _) => true | _ => false end) (ancestors p)
  then NotADirectory else NotFound.

(** [stat(2)] and [lstat(2)] *)
Definition stat (fs : filesystem) (p : path) : res io_kind node :=
  match fs !! p with
  | Some (Dangling _ _) => Err NotFound
  | Some n => Ok n
  | None => Err (missing_kind fs p)
  end.
Definition lstat (fs : filesystem) (p : path) : res io_kind node :=
  match fs !! p with Some n => Ok n | None => Err (missing_kind fs p) end.

(** [p.exists() && p.is_dir()] *)
Definition is_dir (fs : filesystem) (p : path) : bool :=
  match stat fs p with Ok n => is_dir_node n | _ => false end.

(** The entries of a directory. *)
Definition child_of (p : path) (e : path * node) : option (string * node) :=
  if bool_decide (length (fst e) = S (length p)) && bool_decide (take (length p) (fst e) = p)
  then (fun name => (name, snd e)) <$> list.last (fst e) else None.
Definition children (fs : filesystem) (p : path) : list (string * node) :=
  omap (child_of p) (map_to_list fs).

Definition read_dir (fs : filesystem) (p : path) : res io_kind (list (string * node)) :=
  match stat fs p with
  | Ok (Directory _ _ _) => Ok (children fs p)
  | Ok _ => Err NotADirectory
  | Err e => Err e
  | Panics => Panics
  end.

(** ** Changes *)

(** What is below [p], and [p] itself *)
Definition remove_tree (p : path) (fs : filesystem) : filesystem := filter (fun e => ~ p `prefix_of` e.1) fs.
Definition move_tree (src dst : path) (fs : filesystem) : filesystem :=
  list_to_map (omap (fun e => if bool_decide (src `prefix_of` fst e)
                              then Some (dst ++ drop (length src) (fst e), snd e) else None) (map_to_list fs))
  ∪ remove_tree dst (remove_tree src fs).

(** A directory that is not reached through a link *)
Definition is_real_dir (n : node) : bool := match n with Directory _ _ false => true | _ => false end.

(** [unlink(2)] removes a link, not what it names. *)
Definition unlink (p : path) (fs : filesystem) : res io_kind filesystem :=
  match fs !! p with
  | None => Err (missing_kind fs p)
  | Some n => if is_real_dir n then Err IsADirectory else Ok (remove_tree p fs)
  end.

(** [rmdir(2)] *)
Definition rmdir (p : path) (fs : filesystem) : res io_kind filesystem :=
  match fs !! p with
  | None => Err (missing_kind fs p)
  | Some n => if negb (is_real_dir n) then Err NotADirectory
              else match children fs p with [] => Ok (delete p fs) | _ => Err DirectoryNotEmpty end
  end.

(** [mkdir(2)] with the inode of the new directory *)
Definition mkdir (i : inode) (p : path) (fs : filesystem) : res io_kind filesystem :=
  match fs !! p with
  | Some _ => Err AlreadyExists
  | None =>
      match fs !! parent p with
      | Some (Directory _ _ _) => Ok (<[p := Directory i 4096 false]> fs)
      | Some (RegFile _ _ _) => Err NotADirectory
      | Some (Dangling _ _) => Err NotFound
      | None => Err (missing_kind fs p)
      end
  end.

(** [rename(2)] *)
Definition rename (src dst : path) (fs : filesystem) : res io_kind filesystem :=
  match fs !! src with
  | None => Err (missing_kind fs src)
  | Some n =>
      if negb (is_dir fs (parent dst)) then Err (match fs !! parent dst with Some (RegFile _ _ _) => NotADirectory
                                                 | Some _ => NotFound | None => missing_kind fs dst end)
      else if bool_decide (src = dst) then Ok fs
      else if is_real_dir n && bool_decide (src `prefix_of` dst) then Err InvalidInput
      else match fs !! dst with
           | None => Ok (move_tree src dst fs)
           | Some m =>
               if is_real_dir n then
                 if negb (is_real_dir m) then Err NotADirectory
                 else match children fs dst with [] => Ok (move_tree src dst fs) | _ => Err DirectoryNotEmpty end
               else if is_real_dir m then Err IsADirectory
               else Ok (move_tree src dst fs)
           end
  end.
(** [renameat2(2)] with [RENAME_NOREPLACE] *)
Definition renameat2_noreplace (src dst : path) (fs : filesystem) : res io_kind filesystem :=
  match fs !! src, fs !! dst with
  | Some _, Some _ => Err AlreadyExists
  | _, _ => rename src dst fs
  end.

(** ** Lemmas *)
Lemma child_of_some p q n name m :
  child_of p (q, n) = Some (name, m) <-> q = p ++ [name] /\ n = m.
Proof.
  unfold child_of. cbn [fst snd]. split.
  - case_match eqn:E; [|done]. apply andb_true_iff in E as [El Et]. apply bool_decide_eq_true in El, Et.
    destruct (list.last q) as [x|] eqn:Ex; [|done]. cbn. intros [= <- <-]. split; [|done].
    apply last_Some in Ex as (q' & ->). rewrite length_app in El. cbn in El. assert (length q' = length p) as Hl by lia.
    rewrite take_app_le, <- Hl, take_ge in Et by lia. by subst.
  - intros [-> ->]. rewrite !bool_decide_true by (rewrite ?length_app, ?take_app_length; cbn; lia || done).
    cbn. by rewrite last_snoc.
Qed.

Lemma elem_of_children fs p name n : (name, n) ∈ children fs p <-> fs !! (p ++ [name]) = Some n.
Proof.
  unfold children. rewrite list_elem_of_omap. split.
  - intros ([q m] & Hin & Hc). apply child_of_some in Hc as [-> ->]. by apply elem_of_map_to_list in Hin.
  - intros H. exists (p ++ [name], n). split; [by apply elem_of_map_to_list|]. by apply child_of_some.
Qed.

Lemma omap_NoDup_key {K A B C} (f : K * A -> option (B * C)) (l : list (K * A)) :
  NoDup (fst <$> l) ->
  (forall k a b c, f (k, a) = Some (b, c) -> forall k' a' c', f (k', a') = Some (b, c') -> k = k') ->
  NoDup (fst <$> omap f l).
Proof.
  intros Hnd Hinj. induction l as [|[k a] l IH]; cbn in *; [constructor|].
  apply NoDup_cons in Hnd as [Hn Hnd]. destruct (f (k, a)) as [[b c]|] eqn:E; cbn; [|by apply IH].
  apply NoDup_cons. split; [|by apply IH].
  intros ([b' c'] & Heq & Hin)%list_elem_of_fmap. cbn in Heq. subst b'.
  apply list_elem_of_omap in Hin as ([k' a'] & Hin & Hf). apply Hn.
  apply list_elem_of_fmap. exists (k', a'). split; [|done]. cbn. by eapply Hinj.
Qed.

Lemma children_NoDup fs p : NoDup (fst <$> children fs p).
Proof.
  apply omap_NoDup_key; [apply NoDup_fst_map_to_list|].
  intros k a b c Hk k' a' c' Hk'. apply child_of_some in Hk as [-> _], Hk' as [-> _]. done.
Qed.

Lemma read_dir_ok fs p l : read_dir fs p = Ok l -> is_dir fs p = true /\ l = children fs p.
Proof. unfold read_dir, is_dir. destruct (stat fs p) as [[]| |]; intros; simplify_eq; done. Qed.

Lemma lookup_remove_tree p fs q :
  remove_tree p fs !! q = if bool_decide (p `prefix_of` q) then None else fs !! q.
Proof.
  unfold remove_tree. rewrite map_lookup_filter. destruct (fs !! q) as [n|]; cbn; [|by case_bool_decide].
  case_bool_decide; case_guard; done.
Qed.

Lemma lookup_move_tree src dst fs q :
  move_tree src dst fs !! q =
    if bool_decide (dst `prefix_of` q) then fs !! (src ++ drop (length dst) q)
    else if bool_decide (src `prefix_of` q) then None else fs !! q.
Proof.
  set (f := fun e : path * node => if bool_decide (src `prefix_of` fst e)
                              then Some (dst ++ drop (length src) (fst e), snd e) else None).
  assert (forall n, (list_to_map (omap f (map_to_list fs)) : filesystem) !! q = Some n <->
    dst `prefix_of` q /\ fs !! (src ++ drop (length dst) q) = Some n) as Hm.
  { intros n. rewrite <- elem_of_list_to_map.
    - rewrite list_elem_of_omap. split.
      + intros ([p m] & Hin%elem_of_map_to_list & Hf). unfold f in Hf. cbn in Hf.
        case_bool_decide as Hp; [|done]. destruct Hp as [r ->]. rewrite drop_app_length in Hf. injection Hf as <- <-.
        split; [by exists r|]. by rewrite drop_app_length.
      + intros [[r ->] Hn]. rewrite drop_app_length in Hn. exists (src ++ r, n). split; [by apply elem_of_map_to_list|].
        unfold f. cbn. rewrite bool_decide_true by (by exists r). by rewrite drop_app_length.
    - apply omap_NoDup_key; [apply NoDup_fst_map_to_list|]. unfold f.
      intros k a b c Hk k' a' c' Hk'. cbn in *. case_bool_decide as H1; [|done]. case_bool_decide as H2; [|done].
      destruct H1 as [r ->], H2 as [r' ->]. rewrite drop_app_length in *. simplify_eq. done. }
  unfold move_tree. fold f. rewrite lookup_union.
  destruct ((list_to_map (omap f (map_to_list fs)) : filesystem) !! q) as [n|] eqn:El.
  - destruct (proj1 (Hm n) eq_refl) as [Hp ->]. rewrite bool_decide_true by done.
    by destruct (remove_tree _ _ !! q).
  - rewrite left_id by apply _. rewrite lookup_remove_tree. case_bool_decide as Hp.
    + destruct (fs !! (src ++ drop (length dst) q)) as [n|] eqn:En; [|done].
      by assert (None = Some n) as Hbad by (apply Hm; done).
    + apply lookup_remove_tree.
Qed.
