(* ===== verification/Handler.v ===== *)
(** * Handlers as state-passing programs

    A request handler goes on, returns a reply early, panics, or waits
    forever; it reads and writes the state [S].  [post] is the weakest
    precondition for partial correctness of such a program. *)

From stdpp Require Import base list option.
From S2P Require Import Prelude.

Inductive flow (R A : Type) := Next (a : A) | Return (r : R) | Crash | Hangs.
Arguments Next {R A} _.
Arguments Return {R A} _.
Arguments Crash {R A}.
Arguments Hangs {R A}.

Definition handler (S R A : Type) : Type := S -> flow R A * S.

#[global] Instance handler_ret {S R} : MRet (handler S R) := fun A a st => (Next a, st).
#[global] Instance handler_bind {S R} : MBind (handler S R) := fun A B f m st =>
  match m st with
  | (Next a, st) => f a st
  | (Return r, st) => (Return r, st)
  | (Crash, st) => (Crash, st)
  | (Hangs, st) => (Hangs, st)
  end.

Section Handlers.
Context {S R : Type}.

Definition reply_with {A} (r : R) : handler S R A := fun st => (Return r, st).
(** [if b { return r; }] *)
Definition reply_if (b : bool) (r : R) : handler S R unit := if b then reply_with r else mret tt.
Definition panic {A} : handler S R A := fun st => (Crash, st).
Definition hang {A} : handler S R A := fun st => (Hangs, st).
Definition get {A} (f : S -> A) : handler S R A := fun st => (Next (f st), st).
Definition modify (f : S -> S) : handler S R unit := fun st => (Next tt, f st).

(** [match r { Ok(a) => a, Err(e) => return f(e) }] *)
Definition unwrap_or_reply {A X} (r : res X A) (f : X -> R) : handler S R A :=
  match r with
  | Ok a => mret a
  | Err e => reply_with (f e)
  | Panics => panic
  end.

(** The reply of a handler and the state it leaves. *)
Definition replies (m : handler S R R) (st : S) : option R * S :=
  match m st with
  | (Next r, st) | (Return r, st) => (Some r, st)
  | (Crash, st) | (Hangs, st) => (None, st)
  end.

(** [Q] holds when the program goes on, [P] when it returns early. *)
Definition post {A} (m : handler S R A) (P : R -> S -> Prop) (Q : A -> S -> Prop) (st : S) : Prop :=
  match m st with
  | (Next a, st) => Q a st
  | (Return r, st) => P r st
  | (Crash, _) | (Hangs, _) => True
  end.

Lemma post_ret {A} (a : A) P (Q : A -> S -> Prop) st : post (mret a) P Q st <-> Q a st.
Proof. done. Qed.

Lemma post_bind {A B} (m : handler S R A) (f : A -> handler S R B) P Q st :
  post (m ≫= f) P Q st <-> post m P (fun a => post (f a) P Q) st.
Proof. unfold post, mbind, handler_bind. by destruct (m st) as [[] ?]. Qed.

Lemma post_mono {A} (m : handler S R A) (P P' : R -> S -> Prop) (Q Q' : A -> S -> Prop) st :
  post m P Q st -> (forall r s, P r s -> P' r s) -> (forall a s, Q a s -> Q' a s) -> post m P' Q' st.
Proof. unfold post. destruct (m st) as [[] ?]; auto. Qed.

Lemma post_reply {A} (r : R) P (Q : A -> S -> Prop) st : post (reply_with r) P Q st <-> P r st.
Proof. done. Qed.

Lemma post_reply_if b r P (Q : unit -> S -> Prop) st :
  post (reply_if b r) P Q st <-> (if b then P r st else Q tt st).
Proof. by destruct b. Qed.

Lemma post_get {A} (f : S -> A) P Q st : post (get f) P Q st <-> Q (f st) st.
Proof. done. Qed.

Lemma post_modify f P Q st : post (modify f) P Q st <-> Q tt (f st).
Proof. done. Qed.

Lemma post_unwrap {A X} (r : res X A) (f : X -> R) P (Q : A -> S -> Prop) st :
  post (unwrap_or_reply r f) P Q st <->
  match r with Ok a => Q a st | Err e => P (f e) st | Panics => True end.
Proof. by destruct r. Qed.

Lemma post_replies (m : handler S R R) P st r st' :
  post m P P st -> replies m st = (Some r, st') -> P r st'.
Proof. unfold post, replies. destruct (m st) as [[] ?]; naive_solver. Qed.
End Handlers.

(** [wp]: one step of a program. *)
Create Rewrite HintDb wp.
#[export] Hint Rewrite @post_ret @post_bind @post_reply @post_reply_if @post_get @post_modify @post_unwrap : wp.
