(* ===== verification/Idempotency.v ===== *)
(** * s32p-gateway/src/idempotency.rs

    The cache behind [x-amz-client-token].  First what its operations do when
    requests come one after the other, which is what the rename handler uses;
    then the machine with interleaved requests, where a slot is an
    [Arc<Mutex<EntryState>>] that outlives its entry in the map, and what
    every interleaving guarantees. *)

From Stdlib Require Import ZArith Lia.
From stdpp Require Import base list strings numbers option gmap.
From S2P Require Import Prelude RustStr Http.

Local Open Scope Z_scope.

(** [EntryState]; an [Instant] is a number of nanoseconds. *)
Record done_entry := { completed_at : Z; fingerprint : string; done_status : Z; done_body : string }.
Inductive EntryState := Pending | Done (d : done_entry).

(** [Lookup]; the guard is the token it is for. *)
Inductive Lookup := Replay (status : Z) (body : string) | Conflict | PendingGuard (token : string) | BypassCacheFull.

(** What [enter] answers once it holds the slot *)
Definition answer (token fp : string) (st : EntryState) : Lookup :=
  match st with
  | Done d => if String.eqb (fingerprint d) fp then Replay (done_status d) (done_body d) else Conflict
  | Pending => PendingGuard token
  end.

(** The closure of [retain]; [unlocked] is the success of [try_lock]. *)
Definition retained (now ttl : Z) (unlocked : bool) (st : EntryState) : bool :=
  if unlocked then match st with Done d => now - completed_at d <? ttl | Pending => true end else true.

(** ** One request at a time *)
Section Sequential.
Abbreviation cache := (gmap string EntryState).

Definition enter (max_entries : Z) (token fp : string) (c : cache) : Lookup * cache :=
  if negb (bool_decide (is_Some (c !! token))) && (max_entries <=? Z.of_nat (size c)) then (BypassCacheFull, c)
  else
    let st := default Pending (c !! token) in
    (answer token fp st, <[token := st]> c).
Definition commit (now : Z) (token fp : string) (status : Z) (body : string) (c : cache) : cache :=
  <[token := Done {| completed_at := now; fingerprint := fp; done_status := status; done_body := body |}]> c.
Definition abandon (token : string) (c : cache) : cache := delete token c.
Definition sweep (now ttl : Z) (c : cache) : cache := filter (fun e => retained now ttl true (snd e) = true) c.
End Sequential.

(** ** Interleaved requests *)
Inductive outcome := Replayed (status : Z) (body : string) | Conflicted | Bypassed | Committed | Abandoned | Cancelled.

(** Where a request is: before [contains_key], before [len] (the token was
    not there), before [entry()], before [lock_owned] returns, executing with
    the guard, executing without one (the cache was full), between the two
    halves of [abandon], or answered. *)
Inductive point :=
| Arriving | Missed | Checked | Waiting (slot : nat) | Executing (slot : nat) | Uncached | Removing | Finished (o : outcome).

Record request := { r_token : string; r_fp : string; r_at : point }.
(** A slot, the token it was made for, and whether its mutex is held *)
Record slot := { s_token : string; s_state : EntryState; s_held : bool }.

Record commit_record := { c_token : string; c_fp : string; c_status : Z; c_body : string }.
(** The start of an operation: by which request, under which token, with the
    guard or without one *)
Record execution := { x_id : nat; x_token : string; x_guarded : bool }.

(** [inner], the slots, the requests, and what happened so far: the commits,
    the tokens some request abandoned, the operations started, and the tokens
    a sweep evicted. *)
Record machine := {
  inner : gmap string nat;
  slots : gmap nat slot;
  requests : gmap nat request;
  commits : list commit_record;
  abandoned : gset string;
  executions : list execution;
  evicted : gset string;
}.

Definition set_point (r : request) (p : point) : request := {| r_token := r_token r; r_fp := r_fp r; r_at := p |}.
Definition set_slot (s : slot) (st : EntryState) (held : bool) : slot :=
  {| s_token := s_token s; s_state := st; s_held := held |}.
Definition moved (id : nat) (r : request) (p : point) (m : machine) : machine :=
  {| inner := inner m; slots := slots m; requests := <[id := set_point r p]> (requests m);
     commits := commits m; abandoned := abandoned m; executions := executions m; evicted := evicted m |}.
Definition with_slot (i : nat) (s : slot) (m : machine) : machine :=
  {| inner := inner m; slots := <[i := s]> (slots m); requests := requests m; commits := commits m; abandoned := abandoned m;
     executions := executions m; evicted := evicted m |}.
(** An operation starts. *)
Definition started (id : nat) (r : request) (guarded : bool) (m : machine) : machine :=
  {| inner := inner m; slots := slots m; requests := requests m; commits := commits m; abandoned := abandoned m;
     executions := {| x_id := id; x_token := r_token r; x_guarded := guarded |} :: executions m; evicted := evicted m |}.

Inductive event :=
| Arrive (id : nat) (token fp : string)
| ContainsKey (id : nat)
| CapCheck (id : nat)
| Answer (id : nat)
| MapEntry (id : nat)
| Lock (id : nat)
| Cancel (id : nat)
| Commit (id : nat) (now status : Z) (body : string)
| DropGuard (id : nat)
| RemoveEntry (id : nat)
| Sweep (now : Z).

Definition swept (now ttl : Z) (m : machine) (e : string * nat) : bool :=
  match slots m !! snd e with Some s => retained now ttl (negb (s_held s)) (s_state s) | None => true end.

Definition fresh_slot (m : machine) : nat := fresh (dom (slots m) : gset nat).

Section Machine.
Context (max_entries ttl : Z).

Definition step (ev : event) (m : machine) : option machine :=
  match ev with
  | Arrive id token fp =>
      match requests m !! id with
      | Some _ => None
      | None => Some {| inner := inner m; slots := slots m; commits := commits m; abandoned := abandoned m;
                        executions := executions m; evicted := evicted m;
                        requests := <[id := {| r_token := token; r_fp := fp; r_at := Arriving |}]> (requests m) |}
      end
  | ContainsKey id =>
      r ← requests m !! id;
      match r_at r with
      | Arriving => Some (moved id r (if bool_decide (is_Some (inner m !! r_token r)) then Checked else Missed) m)
      | _ => None
      end
  | CapCheck id =>
      r ← requests m !! id;
      match r_at r with
      | Missed =>
          if max_entries <=? Z.of_nat (size (inner m)) then Some (started id r false (moved id r Uncached m))
          else Some (moved id r Checked m)
      | _ => None
      end
  | Answer id =>
      (* the operation without a guard ends *)
      r ← requests m !! id;
      match r_at r with Uncached => Some (moved id r (Finished Bypassed) m) | _ => None end
  | MapEntry id =>
      r ← requests m !! id;
      match r_at r with
      | Checked =>
          match inner m !! r_token r with
          | Some i => Some (moved id r (Waiting i) m)
          | None =>
              let i := fresh_slot m in
              Some {| inner := <[r_token r := i]> (inner m);
                      slots := <[i := {| s_token := r_token r; s_state := Pending; s_held := false |}]> (slots m);
                      requests := <[id := set_point r (Waiting i)]> (requests m);
                      commits := commits m; abandoned := abandoned m; executions := executions m; evicted := evicted m |}
          end
      | _ => None
      end
  | Lock id =>
      r ← requests m !! id;
      match r_at r with
      | Waiting i =>
          s ← slots m !! i;
          if s_held s then None
          else match answer (r_token r) (r_fp r) (s_state s) with
               | Replay status body => Some (moved id r (Finished (Replayed status body)) m)
               | Conflict => Some (moved id r (Finished Conflicted) m)
               | _ => Some (started id r true (moved id r (Executing i) (with_slot i (set_slot s (s_state s) true) m)))
               end
      | _ => None
      end
  | Cancel id =>
      (* the client goes away while the request waits: the future is dropped *)
      r ← requests m !! id;
      match r_at r with Waiting _ => Some (moved id r (Finished Cancelled) m) | _ => None end
  | Commit id now status body =>
      r ← requests m !! id;
      match r_at r with
      | Executing i =>
          s ← slots m !! i;
          let d := {| completed_at := now; fingerprint := r_fp r; done_status := status; done_body := body |} in
          let c := {| c_token := r_token r; c_fp := r_fp r; c_status := status; c_body := body |} in
          Some {| inner := inner m; slots := <[i := set_slot s (Done d) false]> (slots m);
                  requests := <[id := set_point r (Finished Committed)]> (requests m);
                  commits := c :: commits m; abandoned := abandoned m; executions := executions m; evicted := evicted m |}
      | _ => None
      end
  | DropGuard id =>
      r ← requests m !! id;
      match r_at r with
      | Executing i =>
          s ← slots m !! i;
          Some {| inner := inner m; slots := <[i := set_slot s (s_state s) false]> (slots m);
                  requests := <[id := set_point r Removing]> (requests m); commits := commits m;
                  abandoned := {[r_token r]} ∪ abandoned m; executions := executions m; evicted := evicted m |}
      | _ => None
      end
  | RemoveEntry id =>
      r ← requests m !! id;
      match r_at r with
      | Removing => Some {| inner := delete (r_token r) (inner m); slots := slots m;
                            requests := <[id := set_point r (Finished Abandoned)]> (requests m);
                            commits := commits m; abandoned := abandoned m; executions := executions m; evicted := evicted m |}
      | _ => None
      end
  | Sweep now =>
      let kept := filter (fun e => swept now ttl m e = true) (inner m) in
      Some {| inner := kept; slots := slots m; requests := requests m; commits := commits m; abandoned := abandoned m;
              executions := executions m; evicted := evicted m ∪ (dom (inner m) ∖ dom kept) |}
  end.

Fixpoint run (evs : list event) (m : machine) : option machine :=
  match evs with [] => Some m | ev :: evs => step ev m ≫= run evs end.
Definition idle_machine : machine := {| inner := ∅; slots := ∅; requests := ∅; commits := []; abandoned := ∅; executions := []; evicted := ∅ |}.

Inductive reachable : machine -> Prop :=
| reach_start : reachable idle_machine
| reach_step m ev m' : reachable m -> step ev m = Some m' -> reachable m'.

Definition executes (id i : nat) (m : machine) (token : string) : Prop :=
  exists r, requests m !! id = Some r /\ r_at r = Executing i /\ r_token r = token.
End Machine.

(** ** Invariant *)
Definition entry_of (t : string) (d : done_entry) : commit_record :=
  {| c_token := t; c_fp := fingerprint d; c_status := done_status d; c_body := done_body d |}.

(** What holds of a request at its point *)
Definition point_ok (m : machine) (token fp : string) (p : point) : Prop :=
  match p with
  | Waiting i => exists s, slots m !! i = Some s /\ s_token s = token
  | Executing i => exists s, slots m !! i = Some s /\ s_token s = token /\ s_held s = true /\ s_state s = Pending
  | Removing => token ∈ abandoned m
  | Finished (Replayed status body) =>
      {| c_token := token; c_fp := fp; c_status := status; c_body := body |} ∈ commits m
  | Finished Conflicted => exists c, c ∈ commits m /\ c_token c = token /\ c_fp c <> fp
  | _ => True
  end.

Record inv (m : machine) : Prop := {
  inv_points : forall id r, requests m !! id = Some r -> point_ok m (r_token r) (r_fp r) (r_at r);
  inv_inner : forall t i, inner m !! t = Some i -> exists s, slots m !! i = Some s /\ s_token s = t;
  inv_one : forall i id1 id2 r1 r2, requests m !! id1 = Some r1 -> requests m !! id2 = Some r2 ->
    r_at r1 = Executing i -> r_at r2 = Executing i -> id1 = id2;
  inv_pending : forall i s, slots m !! i = Some s -> s_state s = Pending ->
    inner m !! s_token s = Some i \/ s_token s ∈ abandoned m;
  inv_done : forall i s d, slots m !! i = Some s -> s_state s = Done d -> entry_of (s_token s) d ∈ commits m;
}.

(** A change of the machine other requests do not notice *)
Lemma point_mono m m' token fp p :
  (forall i s, slots m !! i = Some s -> exists s', slots m' !! i = Some s' /\ s_token s' = s_token s /\
     (p = Executing i -> s' = s)) ->
  commits m ⊆ commits m' -> abandoned m ⊆ abandoned m' -> point_ok m token fp p -> point_ok m' token fp p.
Proof.
  intros Hs Hc Ha. destruct p as [| | |i|i| | |[]]; cbn; try done.
  - intros (s & Hi & Ht). destruct (Hs _ _ Hi) as (s' & ? & ? & _). exists s'. split; [done|congruence].
  - intros (s & Hi & Ht). destruct (Hs _ _ Hi) as (s' & Hs' & _ & Heq). rewrite (Heq eq_refl) in Hs'. by exists s.
  - apply Ha.
  - apply Hc.
  - intros (c & Hin & ?). exists c. split; [by apply Hc|done].
Qed.

Lemma start_inv : inv idle_machine.
Proof. split; cbn; intros *; rewrite ?lookup_empty; naive_solver. Qed.

(** A request that moves and leaves the rest alone *)
Lemma moved_inv id r p m :
  inv m -> requests m !! id = Some r -> (forall i, p <> Executing i) -> point_ok m (r_token r) (r_fp r) p -> inv (moved id r p m).
Proof.
  intros [Hp Hin H1 Hpe Hd] Hr Hx Hok. split; cbn; [|done| |done|done].
  - intros id' r'. rewrite lookup_insert_Some. intros [[<- <-]|[_ Hr']]; [exact Hok|exact (Hp _ _ Hr')].
  - intros i id1 id2 r1 r2. rewrite !lookup_insert_Some.
    intros [[<- <-]|[_ Hr1]] [[<- <-]|[_ Hr2]]; cbn; try (by intros; exfalso; eapply Hx); by intros; eapply H1.
Qed.

Lemma fresh_slot_new m : slots m !! fresh_slot m = None.
Proof. unfold fresh_slot. apply (not_elem_of_dom (D := gset nat)). exact (is_fresh (dom (slots m) : gset nat)). Qed.

Lemma map_entry_inv id r m :
  inv m -> requests m !! id = Some r -> inner m !! r_token r = None ->
  inv {| inner := <[r_token r := fresh_slot m]> (inner m);
         slots := <[fresh_slot m := {| s_token := r_token r; s_state := Pending; s_held := false |}]> (slots m);
         requests := <[id := set_point r (Waiting (fresh_slot m))]> (requests m);
         commits := commits m; abandoned := abandoned m; executions := executions m; evicted := evicted m |}.
Proof.
  intros [Hp Hin H1 Hpe Hd] Hr Hnone.
  pose proof (fresh_slot_new m) as Hfresh.
  assert (forall i s, slots m !! i = Some s -> i <> fresh_slot m) as Hold by (intros i s Hs ->; congruence).
  split; cbn.
  - intros id' r'. rewrite lookup_insert_Some. intros [[<- <-]|[_ Hr']].
    + cbn. eexists. by rewrite lookup_insert_eq.
    + eapply point_mono; [| | |exact (Hp _ _ Hr')]; cbn; [|done|done].
      intros i s Hs. exists s. by rewrite lookup_insert_ne by (symmetry; eauto).
  - intros t i. rewrite lookup_insert_Some. intros [[<- <-]|[_ Hi]]; [eexists; by rewrite lookup_insert_eq|].
    destruct (Hin _ _ Hi) as (s & Hs & Ht). exists s. by rewrite lookup_insert_ne by (symmetry; eauto).
  - intros i id1 id2 r1 r2. rewrite !lookup_insert_Some.
    intros [[<- <-]|[_ Hr1]] [[<- <-]|[_ Hr2]]; cbn; try done. by intros; eapply H1.
  - intros i s. rewrite lookup_insert_Some. intros [[<- <-]|[Hne Hs]] Hst; cbn.
    + left. by rewrite lookup_insert_eq.
    + destruct (Hpe _ _ Hs Hst) as [Hi|]; [|auto]. left. rewrite lookup_insert_ne; congruence.
  - intros i s d. rewrite lookup_insert_Some. intros [[<- <-]|[_ Hs]]; [done|]. by eapply Hd.
Qed.

Lemma lock_inv id r i s m :
  inv m -> requests m !! id = Some r -> r_at r = Waiting i -> slots m !! i = Some s -> s_held s = false -> s_state s = Pending ->
  inv (moved id r (Executing i) (with_slot i (set_slot s (s_state s) true) m)).
Proof.
  intros [Hp Hin H1 Hpe Hd] Hr Hat Hs Hh Hst.
  assert (forall id' r', requests m !! id' = Some r' -> r_at r' <> Executing i) as Hfree.
  { intros id' r' Hr' He. specialize (Hp _ _ Hr'). rewrite He in Hp. destruct Hp as (s' & Hs' & _ & Hh' & _). congruence. }
  assert (s_token s = r_token r) as Htok.
  { specialize (Hp _ _ Hr). rewrite Hat in Hp. destruct Hp as (s' & Hs' & ?). congruence. }
  split; cbn.
  - intros id' r'. rewrite lookup_insert_Some. intros [[<- <-]|[_ Hr']].
    + cbn. eexists. by rewrite lookup_insert_eq.
    + eapply point_mono; [| | |exact (Hp _ _ Hr')]; cbn; [|done|done]. intros j s' Hs'. destruct (decide (i = j)) as [<-|].
      * eexists. rewrite lookup_insert_eq. split; [done|]. split; [cbn; congruence|]. intros He. by destruct (Hfree _ _ Hr').
      * exists s'. by rewrite lookup_insert_ne.
  - intros t j Hi. destruct (Hin _ _ Hi) as (s' & Hs' & Ht). destruct (decide (i = j)) as [<-|].
    + eexists. rewrite lookup_insert_eq. split; [done|]. cbn. congruence.
    + exists s'. by rewrite lookup_insert_ne.
  - intros j id1 id2 r1 r2. rewrite !lookup_insert_Some.
    intros [[<- <-]|[_ Hr1]] [[<- <-]|[_ Hr2]]; cbn; [done| | |by intros; eapply H1].
    + intros [= <-] He. by destruct (Hfree _ _ Hr2).
    + intros He [= <-]. by destruct (Hfree _ _ Hr1).
  - intros j s'. rewrite lookup_insert_Some. intros [[<- <-]|[_ Hs']]; cbn; [|by eapply Hpe]. intros _. by eapply Hpe.
  - intros j s' d. rewrite lookup_insert_Some. intros [[<- <-]|[_ Hs']]; cbn; [congruence|]. by eapply Hd.
Qed.

(** The guard is given back, with the response published or not. *)
Lemma release_inv id r i s st p cs ab xs ev m :
  inv m -> requests m !! id = Some r -> r_at r = Executing i -> slots m !! i = Some s ->
  (forall j, p <> Executing j) -> commits m ⊆ cs -> abandoned m ⊆ ab ->
  (forall d, st = Done d -> entry_of (s_token s) d ∈ cs) -> (st = Pending -> s_state s = Pending) ->
  (p = Removing -> r_token r ∈ ab) -> (forall o, p = Finished o -> o = Committed) -> (forall j, p <> Waiting j) ->
  inv {| inner := inner m; slots := <[i := set_slot s st false]> (slots m); requests := <[id := set_point r p]> (requests m);
         commits := cs; abandoned := ab; executions := xs; evicted := ev |}.
Proof.
  intros [Hp Hin H1 Hpe Hd] Hr Hat Hs Hx Hc Ha Hdone Hpend Hrem Hfin Hw.
  split; cbn.
  - intros id' r'. rewrite lookup_insert_Some. intros [[<- <-]|[Hne Hr']].
    + cbn. destruct p as [| | |j|j| | |o]; cbn; auto; try (by destruct (Hw j)); try (by destruct (Hx j)). by rewrite (Hfin o).
    + eapply point_mono; [| | |exact (Hp _ _ Hr')]; cbn; [|done|done]. intros j s' Hs'. destruct (decide (i = j)) as [<-|].
      * eexists. rewrite lookup_insert_eq. split; [done|]. split; [cbn; congruence|]. intros He. destruct Hne. by eapply H1.
      * exists s'. by rewrite lookup_insert_ne.
  - intros t j Hi. destruct (Hin _ _ Hi) as (s' & Hs' & Ht). destruct (decide (i = j)) as [<-|].
    + eexists. rewrite lookup_insert_eq. split; [done|]. cbn. congruence.
    + exists s'. by rewrite lookup_insert_ne.
  - intros j id1 id2 r1 r2. rewrite !lookup_insert_Some.
    intros [[<- <-]|[_ Hr1]] [[<- <-]|[_ Hr2]]; cbn; try (by intros; exfalso; eapply Hx); by intros; eapply H1.
  - intros j s'. rewrite lookup_insert_Some. intros [[<- <-]|[_ Hs']]; cbn.
    + intros Hst. destruct (Hpe _ _ Hs (Hpend Hst)); auto.
    + intros Hst. destruct (Hpe _ _ Hs' Hst); auto.
  - intros j s' d. rewrite lookup_insert_Some. intros [[<- <-]|[_ Hs']]; cbn; [apply Hdone|]. intros Hst. apply Hc. by eapply Hd.
Qed.

(** Entries leave the map. *)
Lemma shrink_inv m inner' reqs xs ev :
  inv m -> (forall t i, inner' !! t = Some i -> inner m !! t = Some i) ->
  (forall t i s, inner m !! t = Some i -> slots m !! i = Some s -> s_state s = Pending -> inner' !! t = Some i \/ t ∈ abandoned m) ->
  (forall id r, reqs !! id = Some r -> requests m !! id = Some r \/ r_at r = Finished Abandoned) ->
  inv {| inner := inner'; slots := slots m; requests := reqs; commits := commits m; abandoned := abandoned m;
         executions := xs; evicted := ev |}.
Proof.
  intros [Hp Hin H1 Hpe Hd] Hsub Hkeep Hreq. split; cbn; [| | | |done].
  - intros id r Hr. destruct (Hreq _ _ Hr) as [Hr'| ->]; [|done]. by apply (Hp id).
  - intros t i Hi. by apply Hin, Hsub.
  - intros i id1 id2 r1 r2 Hr1 Hr2 He1 He2.
    destruct (Hreq _ _ Hr1) as [?|]; [|congruence]. destruct (Hreq _ _ Hr2) as [?|]; [|congruence]. by eapply H1.
  - intros i s Hs Hst. destruct (Hpe _ _ Hs Hst) as [Hi|]; [|auto]. by eapply Hkeep.
Qed.

Lemma started_inv id r g m : inv m -> inv (started id r g m).
Proof. by intros [Hp Hin H1 Hpe Hd]. Qed.

Section Claims.
Context (max_entries ttl : Z).

Lemma step_inv ev m m' : inv m -> step max_entries ttl ev m = Some m' -> inv m'.
Proof.
  intros Hm. destruct ev as [id t fp|id|id|id|id|id|id|id now status body|id|id|now]; cbn [step];
    try (destruct (requests m !! id) as [r|] eqn:Er; cbn; [destruct (r_at r) as [| | |i|i| | |o] eqn:Ea; try done|done]).
  - destruct (requests m !! id) eqn:Er; [done|]. intros [= <-]. destruct Hm as [Hp Hin H1 Hpe Hd]. split; cbn; [|done| |done|done].
    + intros id' r'. rewrite lookup_insert_Some. intros [[<- <-]|[_ Hr']]; [done|]. exact (Hp _ _ Hr').
    + intros i id1 id2 r1 r2. rewrite !lookup_insert_Some.
      intros [[<- <-]|[_ Hr1]] [[<- <-]|[_ Hr2]]; cbn; try done. by intros; eapply H1.
  - intros [= <-]. apply moved_inv; [done..|by case_match|by case_match].
  - case_match; intros [= <-]; [apply started_inv|]; by apply moved_inv.
  - intros [= <-]. by apply moved_inv.
  - destruct (inner m !! r_token r) as [i|] eqn:Ei; intros [= <-]; [|by apply map_entry_inv].
    apply moved_inv; [done..|]. by apply (inv_inner m).
  - destruct (slots m !! i) as [s|] eqn:Es; cbn; [|done]. destruct (s_held s) eqn:Eh; [done|].
    pose proof (inv_points _ Hm _ _ Er) as Hok. rewrite Ea in Hok. destruct Hok as (s' & Hs' & Htok).
    assert (s' = s) as -> by congruence. unfold answer. destruct (s_state s) as [|d] eqn:Est.
    + intros [= <-]. rewrite <- Est. by apply started_inv, lock_inv.
    + pose proof (inv_done _ Hm _ _ _ Es Est) as Hd. destruct (String.eqb_spec (fingerprint d) (r_fp r)) as [Hfp|Hfp]; intros [= <-].
      * apply moved_inv; [done..|]. cbn. unfold entry_of in Hd. by rewrite Htok, Hfp in Hd.
      * apply moved_inv; [done..|]. cbn. exists (entry_of (s_token s) d). done.
  - intros [= <-]. by apply moved_inv.
  - destruct (slots m !! i) as [s|] eqn:Es; cbn; [|done]. intros [= <-].
    pose proof (inv_points _ Hm _ _ Er) as Hok. rewrite Ea in Hok. destruct Hok as (s' & Hs' & Htok & _).
    assert (s' = s) as -> by congruence.
    eapply release_inv; try done; [set_solver| |by intros o [= <-]].
    intros d [= <-]. unfold entry_of. rewrite Htok. cbn. set_solver.
  - destruct (slots m !! i) as [s|] eqn:Es; cbn; [|done]. intros [= <-].
    pose proof (inv_points _ Hm _ _ Er) as Hok. rewrite Ea in Hok. destruct Hok as (s' & Hs' & Htok & _ & Hst).
    assert (s' = s) as -> by congruence.
    eapply release_inv; try done; [set_solver|by rewrite Hst|set_solver].
  - intros [= <-]. pose proof (inv_points _ Hm _ _ Er) as Hok. rewrite Ea in Hok. cbn in Hok. apply shrink_inv; [done| | |].
    + intros t i. rewrite lookup_delete_Some. by intros [_ ?].
    + intros t i s Hi Hs Hst. destruct (decide (t = r_token r)) as [->|]; [by right|]. left. by rewrite lookup_delete_ne.
    + intros id' r'. rewrite lookup_insert_Some. intros [[<- <-]|[_ ?]]; auto.
  - intros [= <-]. apply shrink_inv; [done| | |auto].
    + intros t i. rewrite map_lookup_filter_Some. by intros [? _].
    + intros t i s Hi Hs Hst. left. rewrite map_lookup_filter_Some. split; [done|]. unfold swept. cbn. rewrite Hs, Hst.
      by destruct (s_held s).
Qed.

Lemma run_reachable evs m m' : reachable max_entries ttl m -> run max_entries ttl evs m = Some m' -> reachable max_entries ttl m'.
Proof.
  revert m. induction evs as [|ev evs IH]; intros m Hm; cbn [run]; [by intros [= <-]|].
  destruct (step max_entries ttl ev m) as [m1|] eqn:Es; [|done]. apply IH. by eapply reach_step.
Qed.
Lemma machine_inv m : reachable max_entries ttl m -> inv m.
Proof. induction 1 as [|m ev m' _ IH Hs]; [apply start_inv|by eapply step_inv]. Qed.

(** *** How often the operation of a token runs *)

(** The operations that ran under [token] with its guard *)
Definition guarded (token : string) (m : machine) : list execution :=
  filter (fun x => x_token x = token /\ x_guarded x = true) (executions m).

(** What the entry of a token that has executed looks like *)
Definition spent (token : string) (m : machine) : Prop :=
  exists i s, inner m !! token = Some i /\ slots m !! i = Some s /\ (s_held s = true \/ s_state s <> Pending).

Definition once (m : machine) : Prop :=
  forall t, t ∉ abandoned m -> t ∉ evicted m -> (length (guarded t m) <= 1)%nat /\ (guarded t m <> [] -> spent t m).

(** A step that starts nothing *)
Lemma once_kept m m' :
  once m -> executions m' = executions m -> abandoned m ⊆ abandoned m' -> evicted m ⊆ evicted m' ->
  (forall t, t ∉ abandoned m' -> t ∉ evicted m' -> spent t m -> spent t m') -> once m'.
Proof.
  intros Ho Hx Ha He Hs t Hta Hte. unfold guarded. rewrite Hx. destruct (Ho t) as [Hl Hsp]; [set_solver..|].
  split; [done|]. intros Hg. by apply Hs, Hsp.
Qed.

Lemma once_moved m id r p : once m -> once (moved id r p m).
Proof. intros Ho. by apply (once_kept m). Qed.

(** The guard is taken: the slot of the token was free and pending. *)
Lemma once_lock m id r i s :
  inv m -> once m -> requests m !! id = Some r -> r_at r = Waiting i -> slots m !! i = Some s -> s_held s = false ->
  s_state s = Pending -> once (started id r true (moved id r (Executing i) (with_slot i (set_slot s (s_state s) true) m))).
Proof.
  intros Hm Ho Hr Hat Hs Hh Hst t Hta Hte. cbn in Hta, Hte. destruct (Ho t Hta Hte) as [Hl Hsp].
  assert (s_token s = r_token r) as Htok.
  { pose proof (inv_points _ Hm _ _ Hr) as Hp. rewrite Hat in Hp. destruct Hp as (s' & Hs' & ?). congruence. }
  unfold guarded. cbn [started executions moved with_slot]. rewrite filter_cons. cbn [x_token x_guarded]. destruct (decide _) as [[<- _]|Hne].
  - destruct (inv_pending _ Hm _ _ Hs Hst) as [Hi|]; [|congruence]. rewrite Htok in Hi.
    assert (guarded (r_token r) m = []) as Hg.
    { destruct (guarded (r_token r) m) eqn:Eg; [done|]. destruct Hsp as (j & s' & Hj & Hs' & Hor); [done|].
      assert (j = i) as -> by congruence. assert (s' = s) as -> by congruence. destruct Hor; congruence. }
    unfold guarded in Hg. rewrite Hg. cbn. split; [lia|]. intros _. exists i, (set_slot s (s_state s) true). cbn.
    rewrite lookup_insert_eq. auto.
  - split; [done|]. intros Hg. destruct (Hsp Hg) as (j & s' & Hj & Hs' & Hor). cbn. destruct (decide (i = j)) as [<-|].
    + eexists i, _. cbn. rewrite lookup_insert_eq. split_and!; [done|done|]. by left.
    + exists j, s'. cbn. by rewrite lookup_insert_ne.
Qed.

Lemma evicted_grows now (m : machine) t :
  t ∉ evicted m ∪ (dom (inner m) ∖ dom (filter (fun e => swept now ttl m e = true) (inner m))) ->
  inner m !! t = filter (fun e => swept now ttl m e = true) (inner m) !! t.
Proof.
  intros Ht. destruct (inner m !! t) as [i|] eqn:Ei.
  - destruct (filter (fun e => swept now ttl m e = true) (inner m) !! t) as [j|] eqn:Ef.
    + apply map_lookup_filter_Some in Ef as [Ef _]. congruence.
    + exfalso. apply Ht. apply elem_of_union_r, elem_of_difference. split; [by apply elem_of_dom_2 in Ei|by apply not_elem_of_dom].
  - symmetry. apply map_lookup_filter_None_2. by left.
Qed.

Lemma step_once ev m m' : inv m -> once m -> step max_entries ttl ev m = Some m' -> once m'.
Proof.
  intros Hm Ho. destruct ev as [id t fp|id|id|id|id|id|id|id now status body|id|id|now]; cbn [step];
    try (destruct (requests m !! id) as [r|] eqn:Er; cbn; [destruct (r_at r) as [| | |i|i| | |o] eqn:Ea; try done|done]).
  - destruct (requests m !! id); [done|]. intros [= <-]. by apply (once_kept m).
  - intros [= <-]. by apply once_moved.
  - case_match; intros [= <-]; [|by apply once_moved]. intros t Hta Hte. destruct (Ho t Hta Hte) as [Hl Hsp].
    unfold guarded. cbn [started executions moved with_slot]. rewrite filter_cons. cbn [x_token x_guarded]. destruct (decide _) as [[_ [=]]|]. done.
  - intros [= <-]. by apply once_moved.
  - destruct (inner m !! r_token r) as [i|] eqn:Ei; intros [= <-]; [by apply once_moved|].
    apply (once_kept m); [done..|]. intros t _ _ (j & s & Hj & Hs & Hor). exists j, s. cbn. rewrite !lookup_insert_ne; [done| |congruence].
    intros <-. by rewrite fresh_slot_new in Hs.
  - destruct (slots m !! i) as [s|] eqn:Es; cbn; [|done]. destruct (s_held s) eqn:Eh; [done|]. unfold answer.
    destruct (s_state s) as [|d] eqn:Est; [|destruct (String.eqb _ _); intros [= <-]; by apply once_moved].
    intros [= <-]. rewrite <- Est. by apply once_lock.
  - intros [= <-]. by apply once_moved.
  - destruct (slots m !! i) as [s|] eqn:Es; cbn; [|done]. intros [= <-]. apply (once_kept m); [done..|].
    intros t _ _ (j & s' & Hj & Hs' & Hor). destruct (decide (i = j)) as [<-|].
    + eexists i, _. cbn. rewrite lookup_insert_eq. split_and!; [done|done|]. by right.
    + exists j, s'. cbn. by rewrite lookup_insert_ne.
  - destruct (slots m !! i) as [s|] eqn:Es; cbn; [|done]. intros [= <-]. apply (once_kept m); [done|done|set_solver|done|].
    intros t Hta _ (j & s' & Hj & Hs' & Hor). cbn in Hta. exists j, s'. cbn. destruct (decide (i = j)) as [<-|]; [|by rewrite lookup_insert_ne].
    pose proof (inv_points _ Hm _ _ Er) as Hp. rewrite Ea in Hp. destruct Hp as (s2 & Hs2 & Htok & _).
    destruct (inv_inner _ Hm _ _ Hj) as (s3 & Hs3 & Ht3). assert (r_token r = t) by congruence. set_solver.
  - intros [= <-]. apply (once_kept m); [done..|]. intros t Hta _ (j & s & Hj & Hs & Hor). exists j, s. cbn in *.
    pose proof (inv_points _ Hm _ _ Er) as Hp. rewrite Ea in Hp. cbn in Hp. rewrite lookup_delete_ne; [done|]. congruence.
  - intros [= <-]. apply (once_kept m); [done|done|done|set_solver|]. intros t _ Hte (j & s & Hj & Hs & Hor). exists j, s. cbn in *.
    by rewrite <- evicted_grows.
Qed.

Lemma machine_once m : reachable max_entries ttl m -> once m.
Proof.
  induction 1 as [|m ev m' Hr IH Hs]; [|eapply step_once; [by apply machine_inv|done|done]].
  intros t _ _. unfold guarded. cbn. split; [lia|done].
Qed.

(** *** A request that comes when its token is in the map *)
Definition late (id : nat) (token : string) (m : machine) : Prop :=
  is_Some (inner m !! token) /\
  (forall r, requests m !! id = Some r -> r_token r = token -> r_at r <> Missed) /\
  (forall x, x ∈ executions m -> x_id x = id -> x_token x = token -> x_guarded x = true).

Lemma entry_stays ev m m' t :
  inv m -> step max_entries ttl ev m = Some m' -> t ∉ abandoned m' -> t ∉ evicted m' ->
  is_Some (inner m !! t) -> is_Some (inner m' !! t).
Proof.
  intros Hm. destruct ev as [id t0 fp|id|id|id|id|id|id|id now status body|id|id|now]; cbn [step];
    try (destruct (requests m !! id) as [r|] eqn:Er; cbn; [destruct (r_at r) as [| | |i|i| | |o] eqn:Ea; try done|done]).
  - destruct (requests m !! id); [done|]. by intros [= <-].
  - by intros [= <-].
  - case_match; by intros [= <-].
  - by intros [= <-].
  - destruct (inner m !! r_token r); intros [= <-]; [done|]. cbn. intros _ _. rewrite lookup_insert_is_Some. destruct (decide (r_token r = t)); auto.
  - destruct (slots m !! i) as [s|]; cbn; [|done]. destruct (s_held s); [done|]. case_match; by intros [= <-].
  - by intros [= <-].
  - destruct (slots m !! i) as [s|]; cbn; [|done]. by intros [= <-].
  - destruct (slots m !! i) as [s|]; cbn; [|done]. by intros [= <-].
  - intros [= <-]. cbn. intros Hta _. pose proof (inv_points _ Hm _ _ Er) as Hp. rewrite Ea in Hp. cbn in Hp.
    rewrite lookup_delete_ne; [done|]. congruence.
  - intros [= <-]. cbn. intros _ Hte. by rewrite <- evicted_grows.
Qed.

Lemma history_grows ev m m' : step max_entries ttl ev m = Some m' -> abandoned m ⊆ abandoned m' /\ evicted m ⊆ evicted m'.
Proof.
  destruct ev as [id t0 fp|id|id|id|id|id|id|id now status body|id|id|now]; cbn [step];
    try (destruct (requests m !! id) as [r|] eqn:Er; cbn; [destruct (r_at r) as [| | |i|i| | |o] eqn:Ea; try done|done]);
    repeat (case_match || (destruct (slots m !! i) as [s|]; cbn; [|done])); try done; intros [= <-]; cbn; set_solver.
Qed.
(** Only [CapCheck], on a request that missed, starts an operation without
    the guard, and a request misses only when its token is not in the map. *)
Lemma step_late ev m m' id t :
  inv m -> step max_entries ttl ev m = Some m' -> t ∉ abandoned m' -> t ∉ evicted m' -> late id t m -> late id t m'.
Proof.
  intros Hm Hs Hta Hte (Hin & Hp & Hx). split; [by eapply entry_stays|].
  revert Hs. clear Hta Hte. destruct ev as [id0 t0 fp|id0|id0|id0|id0|id0|id0|id0 now status body|id0|id0|now]; cbn [step];
    try (destruct (requests m !! id0) as [r|] eqn:Er; cbn; [destruct (r_at r) as [| | |i|i| | |o] eqn:Ea; try done|done]).
  all: repeat (case_match || (destruct (slots m !! i) as [s|]; cbn; [|done])); try done; intros [= <-].
  all: split; [intros r0; cbn; try (rewrite lookup_insert_Some; intros [[<- <-]|[_ Hr0]]; cbn; [try done|by apply (Hp r0)]); try apply Hp|].
  all: try (intros x; cbn; rewrite ?elem_of_cons; intros [->|Hxin]; [cbn; try done|by apply Hx]); try apply Hx.
  - intros <-. by apply bool_decide_eq_false in H.
  - intros <- Ht. by destruct (Hp r).
Qed.

(** Requests are never forgotten, and operations are never unstarted. *)
Definition known (m m' : machine) : Prop :=
  (forall id, is_Some (requests m !! id) -> is_Some (requests m' !! id)) /\ executions m `suffix_of` executions m' /\
  (forall x, x ∈ executions m' -> x ∈ executions m \/ is_Some (requests m' !! x_id x)).

Lemma step_known ev m m' : step max_entries ttl ev m = Some m' -> known m m'.
Proof.
  destruct ev as [id0 t0 fp|id0|id0|id0|id0|id0|id0|id0 now status body|id0|id0|now]; cbn [step];
    try (destruct (requests m !! id0) as [r|] eqn:Er; cbn; [destruct (r_at r) as [| | |i|i| | |o] eqn:Ea; try done|done]);
    repeat (case_match || (destruct (slots m !! i) as [s|]; cbn; [|done])); try done; intros [= <-].
  all: split; [intros id Hid; cbn; rewrite ?lookup_insert_is_Some; first [done | destruct (decide (id0 = id)); auto]|].
  all: split; [cbn; try done; by eexists [_]|]; intros x; cbn; rewrite ?elem_of_cons; auto.
  all: intros [->|]; [|auto]; right; cbn; rewrite lookup_insert_eq; by eexists.
Qed.

Lemma executions_known m : reachable max_entries ttl m -> forall x, x ∈ executions m -> is_Some (requests m !! x_id x).
Proof.
  induction 1 as [|m ev m' _ IH Hs]; intros x; [by intros ?%elem_of_nil|].
  destruct (step_known _ _ _ Hs) as (Hr & _ & Hx). intros [?|]%Hx; auto.
Qed.

Lemma run_history evs m m' : run max_entries ttl evs m = Some m' -> abandoned m ⊆ abandoned m' /\ evicted m ⊆ evicted m'.
Proof.
  revert m. induction evs as [|ev evs IH]; intros m; cbn [run]; [by intros [= ->]|].
  destruct (step max_entries ttl ev m) as [m2|] eqn:Es; [|done]. intros Hrun. destruct (IH m2 Hrun), (history_grows _ _ _ Es). split; by etrans.
Qed.

(** A run under which the token is neither abandoned nor evicted *)
Lemma run_keeps evs m m' id t :
  reachable max_entries ttl m -> run max_entries ttl evs m = Some m' -> t ∉ abandoned m' -> t ∉ evicted m' ->
  executions m `suffix_of` executions m' /\ (late id t m -> late id t m').
Proof.
  intros Hr Hrun Hta Hte. revert m Hr Hrun. induction evs as [|ev evs IH]; intros m Hr; cbn [run]; [by intros [= ->]|].
  destruct (step max_entries ttl ev m) as [m1|] eqn:Es; [|done]. intros Hrun.
  assert (reachable max_entries ttl m1) as Hr1 by (by eapply reach_step).
  destruct (IH m1 Hr1 Hrun) as [Hsuf Hlate]. destruct (step_known _ _ _ Es) as (_ & Hsuf1 & _). split; [by etrans|].
  intros Hl. apply Hlate. destruct (run_history evs m1 m' Hrun). apply (step_late ev m m1); [by apply machine_inv|done|set_solver|set_solver|done].
Qed.

Lemma sweep_evicts_expired m :
  inv m -> forall now m2 t i, step max_entries ttl (Sweep now) m = Some m2 -> inner m !! t = Some i -> inner m2 !! t = None ->
  exists s d, slots m !! i = Some s /\ s_held s = false /\ s_state s = Done d /\ ttl <= now - completed_at d.
Proof.
  intros Hm now m2 t i [= <-] Hi. cbn. rewrite map_lookup_filter_None. intros [?|Hsw]; [congruence|]. specialize (Hsw i Hi).
  destruct (inv_inner _ Hm _ _ Hi) as (s & Hs & _). exists s. unfold swept, retained in Hsw. cbn in Hsw. rewrite Hs in Hsw.
  destruct (s_held s); cbn in Hsw; [done|]. destruct (s_state s) as [|d]; [done|]. exists d. split_and!; [done..|].
  destruct (Z.ltb_spec (now - completed_at d) ttl); [done|lia].
Qed.

Lemma two_in_filter {A} (P : A -> Prop) `{forall x, Decision (P x)} (l : list A) x y :
  x <> y -> x ∈ l -> y ∈ l -> P x -> P y -> (length (filter P l) <= 1)%nat -> False.
Proof.
  intros Hne Hx Hy Px Py Hl. assert (x ∈ filter P l) as Hx' by (by apply list_elem_of_filter).
  assert (y ∈ filter P l) as Hy' by (by apply list_elem_of_filter).
  destruct (filter P l) as [|a [|b l']]; [by apply elem_of_nil in Hx'| |cbn in Hl; lia].
  apply list_elem_of_singleton in Hx', Hy'. congruence.
Qed.

Lemma elem_of_suffix {A} (a b : list A) x : a `suffix_of` b -> x ∈ a -> x ∈ b.
Proof. intros [k ->] Hx. apply elem_of_app. by right. Qed.

(** C15. One execution per token.  In every interleaving of arrivals, cap
    checks, waits, commits, abandons and sweeps, for a token that no request
    abandoned and no sweep evicted: at most one request has executed with the
    token's guard; once the token has its entry, no request that arrives
    later executes outside the guard (as a full cache lets it); so once one
    request has executed with the guard, no request that arrives later
    executes at all.  And a sweep evicts only entries that nobody holds and
    that were completed a time-to-live ago. *)
Theorem one_execution_per_token (m m' : machine) (evs : list event) (token : string) :
  reachable max_entries ttl m -> run max_entries ttl evs m = Some m' -> token ∉ abandoned m' -> token ∉ evicted m' ->
  (length (guarded token m') <= 1)%nat /\
  (forall x, x ∈ executions m' -> x_token x = token -> requests m !! x_id x = None ->
     (is_Some (inner m !! token) -> x_guarded x = true) /\ guarded token m = []) /\
  (forall now m2 t i, step max_entries ttl (Sweep now) m' = Some m2 -> inner m' !! t = Some i -> inner m2 !! t = None ->
     exists s d, slots m' !! i = Some s /\ s_held s = false /\ s_state s = Done d /\ ttl <= now - completed_at d).
Proof.
  intros Hr Hrun Hta Hte. assert (reachable max_entries ttl m') as Hr' by (by eapply run_reachable).
  destruct (machine_once _ Hr' token Hta Hte) as [Hone _]. split; [done|]. split; [|by apply sweep_evicts_expired, machine_inv].
  intros x Hx Ht Hnew. destruct (run_keeps evs m m' (x_id x) token Hr Hrun Hta Hte) as [Hsuf Hlate].
  assert (x ∉ executions m) as Hxm by (intros Hin; destruct (executions_known _ Hr x Hin); congruence).
  assert (is_Some (inner m !! token) -> x_guarded x = true) as Hg.
  { intros Hin. apply Hlate; [|done|done|done]. split; [done|]. split; [congruence|]. intros y Hy Hid _.
    destruct (executions_known _ Hr y Hy). congruence. }
  split; [done|]. destruct (guarded token m) as [|y l] eqn:Eg; [done|exfalso].
  assert (y ∈ guarded token m) as Hy by (rewrite Eg; by left).
  assert (x_guarded x = true) as Hxg.
  { apply Hg. destruct (run_history evs m m' Hrun). destruct (machine_once _ Hr token) as [_ (i & s & -> & _)]; [set_solver..|congruence|done]. }
  apply list_elem_of_filter in Hy as [Hyt Hym].
  apply (two_in_filter (fun x => x_token x = token /\ x_guarded x = true) (executions m') x y); auto; [congruence|].
  by eapply elem_of_suffix.
Qed.

(** A replayed answer is genuine.  Whatever the interleaving, a request
    that is answered from the cache gets the status and body that a request
    with the same token and the same fingerprint committed, and one that is
    refused as a conflict shares its token with a commit of another
    fingerprint. *)
Theorem replay_is_committed (m : machine) (id : nat) (r : request) :
  reachable max_entries ttl m -> requests m !! id = Some r ->
  (forall status body, r_at r = Finished (Replayed status body) ->
     {| c_token := r_token r; c_fp := r_fp r; c_status := status; c_body := body |} ∈ commits m) /\
  (r_at r = Finished Conflicted -> exists c, c ∈ commits m /\ c_token c = r_token r /\ c_fp c <> r_fp r).
Proof.
  intros Hm%machine_inv Hr. pose proof (inv_points _ Hm _ _ Hr) as Hok.
  split; [intros status body He|intros He]; rewrite He in Hok; exact Hok.
Qed.

Lemma run_app a b m : run max_entries ttl (a ++ b) m = run max_entries ttl a m ≫= run max_entries ttl b.
Proof.
  revert m. induction a as [|ev a IH]; intros m; cbn [run app]; [done|].
  destruct (step max_entries ttl ev m); cbn; [apply IH|done].
Qed.

(** One request with no other around: the machine does what the sequential
    [enter] and [commit] do. *)
Definition view (m : machine) : gmap string EntryState := omap (fun i => s_state <$> slots m !! i) (inner m).
Definition quiet_slots (m : machine) : Prop := forall i s, slots m !! i = Some s -> s_held s = false.

Lemma view_lookup m t : view m !! t = inner m !! t ≫= fun i => s_state <$> slots m !! i.
Proof. unfold view. apply lookup_omap. Qed.

Lemma view_size m : inv m -> size (view m) = size (inner m).
Proof.
  intros Hm. rewrite <- !(size_dom (D := gset string)). f_equal. apply set_eq. intros t. rewrite !elem_of_dom, view_lookup.
  split; [intros [? H]; destruct (inner m !! t); [by eexists|done]|].
  intros [i Hi]. rewrite Hi. destruct (inv_inner _ Hm _ _ Hi) as (s & Hs & _). cbn. rewrite Hs. by eexists.
Qed.

Definition outcome_of (l : Lookup) (i : nat) : point :=
  match l with
  | Replay status body => Finished (Replayed status body) | Conflict => Finished Conflicted
  | PendingGuard _ => Executing i | BypassCacheFull => Uncached
  end.

(** The events of a request: [present] is what [contains_key] finds. *)
Definition enter_events (id : nat) (token fp : string) (present : bool) (l : Lookup) : list event :=
  [Arrive id token fp; ContainsKey id] ++ (if present then [] else [CapCheck id]) ++
  match l with BypassCacheFull => [] | _ => [MapEntry id; Lock id] end.

Lemma view_ext m m' : inner m' = inner m -> (forall i, s_state <$> slots m' !! i = s_state <$> slots m !! i) -> view m' = view m.
Proof. intros Hi Hs. apply map_eq. intros t. rewrite !view_lookup, Hi. destruct (inner m !! t) as [i|]; cbn; [apply Hs|done]. Qed.

Lemma view_new_slot m t s :
  (forall t i, inner m !! t = Some i -> exists s, slots m !! i = Some s /\ s_token s = t) ->
  view {| inner := <[t := fresh_slot m]> (inner m); slots := <[fresh_slot m := s]> (slots m);
                   requests := requests m; commits := commits m; abandoned := abandoned m; executions := executions m; evicted := evicted m |} = <[t := s_state s]> (view m).
Proof.
  intros Hm. apply map_eq. intros t'. rewrite view_lookup. cbn. destruct (decide (t = t')) as [<-|Hne].
  - rewrite !lookup_insert_eq. cbn. by rewrite lookup_insert_eq.
  - rewrite !lookup_insert_ne, view_lookup by done. destruct (inner m !! t') as [i|] eqn:Ei; cbn; [|done].
    destruct (Hm _ _ Ei) as (s' & Hs' & _). rewrite lookup_insert_ne; [done|].
    intros <-. by rewrite fresh_slot_new in Hs'.
Qed.

(** The lock is taken on a free slot. *)
Lemma lock_free m id r i s :
  requests m !! id = Some r -> r_at r = Waiting i -> slots m !! i = Some s -> s_held s = false ->
  exists m', step max_entries ttl (Lock id) m = Some m' /\ view m' = view m /\
    requests m' = <[id := set_point r (outcome_of (answer (r_token r) (r_fp r) (s_state s)) i)]> (requests m).
Proof.
  intros Hr Ha Hs Hh. cbn [step]. rewrite Hr. cbn. rewrite Ha. cbn. rewrite Hs. cbn. rewrite Hh. unfold answer.
  destruct (s_state s) as [|d] eqn:Est; [|destruct (String.eqb _ _)]; eexists; (split; [done|]); (split; [|done]); try done.
  apply view_ext; [done|]. intros j. cbn. destruct (decide (i = j)) as [<-|]; [|by rewrite lookup_insert_ne].
  rewrite lookup_insert_eq, Hs. cbn. by rewrite Est.
Qed.

Lemma cap_check_view m id token fp :
  inv m -> requests m !! id = None ->
  let r := {| r_token := token; r_fp := fp; r_at := Arriving |} in
  let present := bool_decide (is_Some (view m !! token)) in
  let full := negb present && (max_entries <=? Z.of_nat (size (view m))) in
  exists m1, run max_entries ttl ([Arrive id token fp; ContainsKey id] ++ if present then [] else [CapCheck id]) m = Some m1 /\
    inner m1 = inner m /\ slots m1 = slots m /\
    requests m1 = <[id := set_point r (if full then Uncached else Checked)]> (requests m).
Proof.
  intros Hm Hid r present full.
  assert (bool_decide (is_Some (inner m !! token)) = bool_decide (is_Some (view m !! token))) as Hb.
  { apply bool_decide_ext. rewrite view_lookup. destruct (inner m !! token) as [i|] eqn:Ei; cbn; [|done].
    destruct (inv_inner _ Hm _ _ Ei) as (s & -> & _). split; by eexists. }
  rewrite run_app. cbn [run step]. rewrite Hid. cbn. rewrite lookup_insert_eq. cbn. rewrite Hb. fold present. subst full.
  destruct present; cbn; [eexists; split; [done|]; cbn; by rewrite insert_insert_eq|]. rewrite lookup_insert_eq. cbn.
  rewrite view_size by done. destruct (max_entries <=? _); cbn; (eexists; split; [done|]); cbn; by rewrite !insert_insert_eq.
Qed.

(** The cache refines its sequential form.  A request that runs alone,
    in any reachable state where no other request holds a slot, gets from the
    concurrent cache the answer of the sequential [enter] on the map of entry
    states, and leaves the map that [enter] leaves. *)
Theorem enter_refines (m : machine) (id : nat) (token fp : string) (l : Lookup) (c : gmap string EntryState) :
  reachable max_entries ttl m -> quiet_slots m -> requests m !! id = None ->
  enter max_entries token fp (view m) = (l, c) ->
  exists m' r i, run max_entries ttl (enter_events id token fp (bool_decide (is_Some (view m !! token))) l) m = Some m' /\
    requests m' !! id = Some r /\ r_at r = outcome_of l i /\ view m' = c.
Proof.
  intros Hm%machine_inv Hq Hid. destruct (cap_check_view m id token fp Hm Hid) as (m1 & Hrun & Hin & Hsl & Hreq).
  assert (view m1 = view m) as Hv1 by (apply view_ext; [done|]; by rewrite Hsl).
  unfold enter, enter_events. rewrite app_assoc. destruct (negb _ && _) eqn:Ef.
  { intros [= <- <-]. rewrite app_nil_r. eexists m1, _, 0%nat. rewrite Hreq, lookup_insert_eq. by split_and!. }
  intros [= <- <-]. set (st := default Pending (view m !! token)).
  assert (match answer token fp st with BypassCacheFull => [] | _ => [MapEntry id; Lock id] end = [MapEntry id; Lock id]) as ->
    by (unfold answer; repeat case_match; congruence).
  rewrite run_app, Hrun. change (Some m1 ≫= ?f) with (f m1). cbn [run].
  assert (requests m1 !! id = Some (set_point {| r_token := token; r_fp := fp; r_at := Arriving |} Checked)) as Hr1
    by (rewrite Hreq; apply lookup_insert_eq).
  assert (exists m2 i s, step max_entries ttl (MapEntry id) m1 = Some m2 /\
    requests m2 !! id = Some {| r_token := token; r_fp := fp; r_at := Waiting i |} /\ slots m2 !! i = Some s /\
    s_held s = false /\ s_state s = st /\ view m2 = <[token := st]> (view m)) as (m2 & i & s & -> & Hr2 & Hs2 & Hh2 & Hst & Hv2).
  { cbn [step]. rewrite Hr1. cbn. rewrite Hin. subst st. rewrite view_lookup. destruct (inner m !! token) as [i|] eqn:Ei; cbn.
    - destruct (inv_inner _ Hm _ _ Ei) as (s & Hs & Ht). rewrite Hs. eexists _, i, s. split; [done|]. cbn.
      rewrite lookup_insert_eq, Hsl, Hs. split_and!; [done|done|by eapply Hq|done|].
      transitivity (view m); [unfold view; cbn; by rewrite ?Hin, ?Hsl|]. symmetry. apply insert_id. rewrite view_lookup, Ei. cbn. by rewrite Hs.
    - eexists _, _, _. split; [done|]. cbn. rewrite !lookup_insert_eq. split_and!; [done..|].
      rewrite <- Hv1, <- Hin. apply (view_new_slot m1 token {| s_token := token; s_state := Pending; s_held := false |}).
      intros t j Hj. rewrite Hin in Hj. rewrite Hsl. by apply (inv_inner m). }
  change (Some m2 ≫= ?f) with (f m2). edestruct (lock_free m2 id) as (m3 & -> & Hv3 & Hr3); [exact Hr2|reflexivity|exact Hs2|exact Hh2|].
  cbn. eexists m3, _, i. rewrite Hr3, lookup_insert_eq, Hv3, Hst. by split_and!.
Qed.
End Claims.

(** ** Runs *)

(** A request executes, a retry waits, a third request with another
    fingerprint follows. *)
Definition retry_run : list event :=
  [Arrive 1 "t" "fp"; ContainsKey 1; CapCheck 1; MapEntry 1; Lock 1; Arrive 2 "t" "fp"; ContainsKey 2; MapEntry 2;
   Commit 1 7 200 "ok"; Lock 2; Arrive 3 "t" "other"; ContainsKey 3; MapEntry 3; Lock 3]%string%nat.
Definition after_retry : machine := default idle_machine (run 10 100 retry_run idle_machine).

Lemma replay_is_committed_witness :
  requests after_retry !! 2%nat = Some {| r_token := "t"; r_fp := "fp"; r_at := Finished (Replayed 200 "ok") |} /\
  {| c_token := "t"; c_fp := "fp"; c_status := 200; c_body := "ok" |} ∈ commits after_retry.
Proof.
  split; [reflexivity|].
  apply (replay_is_committed 10 100 after_retry 2 {| r_token := "t"; r_fp := "fp"; r_at := Finished (Replayed 200 "ok") |});
    [|reflexivity|reflexivity].
  apply (run_reachable 10 100 retry_run idle_machine); [apply reach_start|vm_compute; reflexivity].
Defined.

(** The first request has executed; a retry and a stranger come to a cache
    that is now full. *)
Definition first_run : list event := [Arrive 1 "t" "fp"; ContainsKey 1; CapCheck 1; MapEntry 1; Lock 1]%string%nat.
Definition full_run : list event :=
  [Arrive 2 "t" "fp"; ContainsKey 2; Arrive 3 "u" "fp"; ContainsKey 3; CapCheck 3; MapEntry 2; Commit 1 7 200 "ok"; Lock 2; Answer 3]%string%nat.
Definition first_executed : machine := default idle_machine (run 1 100 first_run idle_machine).
Definition both_answered : machine := default idle_machine (run 1 100 full_run first_executed).

Lemma one_execution_per_token_witness :
  executions both_answered = [{| x_id := 3; x_token := "u"; x_guarded := false |}; {| x_id := 1; x_token := "t"; x_guarded := true |}]%nat /\
  (length (guarded "t" both_answered) <= 1)%nat.
Proof.
  split; [reflexivity|].
  apply (one_execution_per_token 1 100 first_executed both_answered full_run "t");
    [apply (run_reachable 1 100 first_run idle_machine); [apply reach_start|vm_compute; reflexivity]|vm_compute; reflexivity| |];
    (vm_compute; intros H; inversion H).
Defined.

Lemma enter_refines_witness :
  exists m' r i, run 10 100 (enter_events 9 "t" "fp" true (Replay 200 "ok")) after_retry = Some m' /\
    requests m' !! 9%nat = Some r /\ r_at r = outcome_of (Replay 200 "ok") i /\ view m' = view after_retry.
Proof.
  apply (enter_refines 10 100 after_retry 9 "t" "fp");
    [apply (run_reachable 10 100 retry_run idle_machine); [apply reach_start|vm_compute; reflexivity]| |reflexivity|vm_compute; reflexivity].
  assert (forall e, e ∈ map_to_list (slots after_retry) -> s_held (snd e) = false) as H.
  { apply Forall_forall. vm_compute. repeat constructor. }
  intros i s Hs. apply (H (i, s)). by apply elem_of_map_to_list.
Defined.

(** Abandoning opens the token to two executions.  [abandon] gives the
    mutex back before it takes the entry out of the map.  A retry that was
    waiting then owns a slot the map no longer has, and the next retry makes
    a new one: both execute the same rename at once, and what the first of
    them commits no later request will ever replay. *)
Theorem abandon_lets_two_execute :
  exists m i j, reachable 10 100 m /\ executes 2 i m "t" /\ executes 3 j m "t" /\ i <> j /\
    inner m !! "t"%string = Some j.
Proof.
  set (evs := [Arrive 1 "t" "fp"; ContainsKey 1; CapCheck 1; MapEntry 1; Lock 1; Arrive 2 "t" "fp"; ContainsKey 2; MapEntry 2;
               DropGuard 1; Lock 2; RemoveEntry 1; Arrive 3 "t" "fp"; ContainsKey 3; CapCheck 3; MapEntry 3; Lock 3]%string%nat).
  exists (default idle_machine (run 10 100 evs idle_machine)), 0%nat, 1%nat. split_and!.
  - apply (run_reachable 10 100 evs idle_machine); [apply reach_start|]. vm_compute. reflexivity.
  - eexists. split; [vm_compute; reflexivity|]. split; reflexivity.
  - eexists. split; [vm_compute; reflexivity|]. split; reflexivity.
  - done.
  - vm_compute. reflexivity.
Qed.
