(* ===== verification/ConnLimit.v ===== *)
(** * s32p-proxy/src/conn_limit.rs: the cap on concurrent requests per address

    [acquire] holds the entry of the [DashMap] from the lookup to the last
    counter operation, so that it is one step; so is [release].  The proxy
    calls [acquire] when a request arrives and keeps the address in the
    request's context; its [logging] callback, which the server runs at the end
    of every request, takes the address out of the context and calls
    [release]. *)

From Stdlib Require Import ZArith Lia Ascii.
From stdpp Require Import base list strings numbers option gmap fin_maps fin_map_dom.
From S2P Require Import Prelude RustStr Http.

Local Open Scope Z_scope.

(** [ConnectionLimiter], without its counters *)
Record ConnectionLimiter := { per_ip : Z; loopback_bypass : bool; keepalive_idle_secs : Z }.
Abbreviation counters := (gmap ip_addr Z).

Inductive AcquireOutcome := Acquired (ip : ip_addr) | Bypassed | Throttled (ip : ip_addr).

Section Limiter.
Context (l : ConnectionLimiter).

(** Is the cap applied to the peer *)
Definition limited_peer (ip : ip_addr) : bool := negb (per_ip l =? 0) && negb (loopback_bypass l && is_loopback ip).

(** [ConnectionLimiter::acquire] *)
Definition acquire (ip : option ip_addr) (inflight : counters) : AcquireOutcome * counters :=
  match ip with
  | None => (Bypassed, inflight)
  | Some ip =>
      if per_ip l =? 0 then (Bypassed, inflight)
      else if loopback_bypass l && is_loopback ip then (Bypassed, inflight)
      else
        let prev := default 0 (inflight !! ip) in
        let inflight := <[ip := wrap64 (prev + 1)]> inflight in
        if per_ip l <=? prev then (Throttled ip, <[ip := wrap64 (wrap64 (prev + 1) - 1)]> inflight)
        else (Acquired ip, inflight)
  end.

(** [ConnectionLimiter::release] *)
Definition release (ip : ip_addr) (inflight : counters) : counters :=
  match inflight !! ip with
  | Some c => <[ip := wrap64 (c - 1)]> inflight
  | None => inflight
  end.

(** ** The life of requests

    A request that is in flight has its [limiter_slot], the address it
    acquired a slot for. *)
Record limiter_state := { inflight : counters; flights : gmap nat (option ip_addr) }.

(** What [request_filter] makes of the outcome: [None] is the 429 answer. *)
Definition limiter_slot (o : AcquireOutcome) : option ip_addr := match o with Acquired ip => Some ip | _ => None end.

Inductive limiter_step : limiter_state -> limiter_state -> Prop :=
| Arrives id ip o c s :
    flights s !! id = None -> acquire ip (inflight s) = (o, c) ->
    limiter_step s {| inflight := c; flights := <[id := limiter_slot o]> (flights s) |}
| Ends id slot s :
    flights s !! id = Some slot ->
    limiter_step s {| inflight := match slot with Some ip => release ip (inflight s) | None => inflight s end;
                      flights := delete id (flights s) |}.

(** The requests of an address that are in flight *)
Definition held (ip : ip_addr) (f : gmap nat (option ip_addr)) : Z := Z.of_nat (size (filter (fun e => e.2 = Some ip) f)).

Record limiter_ok (s : limiter_state) : Prop := {
  counts_held : forall ip, default 0 (inflight s !! ip) = held ip (flights s);
  held_capped : forall ip, held ip (flights s) <= per_ip l;
}.

Lemma held_insert ip id slot f :
  f !! id = None -> held ip (<[id := slot]> f) = held ip f + (if bool_decide (slot = Some ip) then 1 else 0).
Proof.
  intros Hn. unfold held. destruct (bool_decide (slot = Some ip)) eqn:E.
  - apply bool_decide_eq_true in E. rewrite map_filter_insert_True by done.
    rewrite map_size_insert_None by (apply map_lookup_filter_None; auto). lia.
  - apply bool_decide_eq_false in E. rewrite map_filter_insert_not' by (try done; intros ? [=]; congruence). lia.
Qed.

Lemma held_delete ip id slot f :
  f !! id = Some slot -> held ip f = held ip (delete id f) + (if bool_decide (slot = Some ip) then 1 else 0).
Proof.
  intros Hs. rewrite <- (insert_delete_id f id slot) at 1 by done. apply held_insert, lookup_delete_eq.
Qed.

Lemma wrap64_in_range x : is_u64 x -> wrap64 x = x.
Proof. unfold is_u64, wrap64, u64_max. intros. apply Z.mod_small. lia. Qed.

(** The answer of [acquire] for a peer the cap applies to *)
Lemma acquire_counts ip c h :
  is_u64 (per_ip l) -> 0 <= h <= per_ip l -> default 0 (c !! ip) = h -> limited_peer ip = true ->
  acquire (Some ip) c =
    (if per_ip l <=? h then (Throttled ip, <[ip := h]> c) else (Acquired ip, <[ip := h + 1]> c)).
Proof.
  unfold limited_peer, acquire. intros Hp Hh Hc Hl. apply andb_true_iff in Hl as [Hz%negb_true_iff Hb%negb_true_iff].
  rewrite Hz, Hb, Hc. cbv zeta. unfold is_u64 in Hp. destruct (per_ip l <=? h) eqn:E.
  - rewrite insert_insert_eq. do 2 f_equal. unfold wrap64, u64_max in *.
    rewrite Zminus_mod_idemp_l. replace (h + 1 - 1) with h by lia. apply Z.mod_small. lia.
  - do 2 f_equal. apply wrap64_in_range. unfold is_u64. lia.
Qed.

Lemma acquire_bypass ip c : limited_peer ip = false -> acquire (Some ip) c = (Bypassed, c).
Proof.
  unfold limited_peer, acquire. destruct (per_ip l =? 0); [done|]. by destruct (loopback_bypass l && is_loopback ip).
Qed.

Lemma held_nonneg ip f : 0 <= held ip f.
Proof. unfold held. lia. Qed.

Lemma step_ok s s' : is_u64 (per_ip l) -> limiter_ok s -> limiter_step s s' -> limiter_ok s'.
Proof.
  intros Hp [Hc Hcap] Hstep. destruct Hstep as [id ip o c s Hid Ha|id slot s Hid].
  - assert (limiter_slot o = None -> c = inflight s \/ exists i, c = <[i := default 0 (inflight s !! i)]> (inflight s)) as Hno.
    { destruct ip as [ip|]; [|injection Ha as <- <-; auto]. destruct (limited_peer ip) eqn:El.
      - rewrite (acquire_counts ip _ (held ip (flights s))) in Ha by auto using held_nonneg. case_match; simplify_eq.
        + intros _. right. exists ip. by rewrite Hc.
        + done.
      - rewrite acquire_bypass in Ha by done. injection Ha as <- <-. auto. }
    destruct (limiter_slot o) as [i|] eqn:Eo.
    + destruct o; try done. injection Eo as ->. destruct ip as [ip|]; [|done].
      destruct (limited_peer ip) eqn:El; [|by rewrite acquire_bypass in Ha].
      rewrite (acquire_counts ip _ (held ip (flights s))) in Ha by auto using held_nonneg. case_match; [done|].
      injection Ha as -> <-.
      split; intros j; cbn [inflight flights]; rewrite held_insert by done; specialize (Hc j); specialize (Hcap j);
        destruct (decide (j = i)) as [->|Hji].
      * rewrite bool_decide_true by done. by rewrite lookup_insert_eq.
      * rewrite bool_decide_false by congruence. rewrite lookup_insert_ne by done. lia.
      * rewrite bool_decide_true by done. lia.
      * rewrite bool_decide_false by congruence. lia.
    + specialize (Hno eq_refl). split; intros j; cbn [inflight flights]; rewrite held_insert by done; cbn [bool_decide];
        rewrite ?bool_decide_false by done; rewrite Z.add_0_r; [|apply Hcap].
      rewrite <- Hc. destruct Hno as [->|[i ->]]; [done|]. destruct (decide (j = i)) as [->|]; [by rewrite lookup_insert_eq|by rewrite lookup_insert_ne].
  - split; intros j; cbn [inflight flights]; specialize (Hc j); specialize (Hcap j); rewrite (held_delete j id slot) in Hc, Hcap by done.
    + destruct slot as [i|]; [|rewrite bool_decide_false in Hc by done; lia]. unfold release.
      destruct (inflight s !! i) as [n|] eqn:Ei.
      * destruct (decide (j = i)) as [->|]; [|rewrite lookup_insert_ne, Hc by done; rewrite bool_decide_false by congruence; lia].
        rewrite lookup_insert_eq. rewrite Ei in Hc. cbn in *. rewrite bool_decide_true in Hc, Hcap by done.
        pose proof (held_nonneg i (delete id (flights s))). rewrite wrap64_in_range; unfold is_u64 in *; lia.
      * rewrite Hc. destruct (decide (j = i)) as [->|]; [|rewrite bool_decide_false by congruence; lia].
        rewrite Ei in Hc. cbn in Hc. rewrite bool_decide_true in Hc by done.
        pose proof (held_nonneg i (delete id (flights s))). lia.
    + pose proof (held_nonneg j (delete id (flights s))). case_bool_decide; lia.
Qed.

Definition idle_limiter : limiter_state := {| inflight := ∅; flights := ∅ |}.

Lemma idle_ok : is_u64 (per_ip l) -> limiter_ok idle_limiter.
Proof. intros Hp. unfold is_u64 in Hp. split; intros ip; unfold held; cbn; rewrite ?lookup_empty, map_filter_empty, map_size_empty; cbn; lia. Qed.

Lemma reachable_ok s : is_u64 (per_ip l) -> rtc limiter_step idle_limiter s -> limiter_ok s.
Proof.
  intros Hp Hr. pose proof (idle_ok Hp) as Hok. remember idle_limiter as s0. clear Heqs0.
  induction Hr as [|s0 s1 s2 Hs _ IH]; [done|]. by apply IH, (step_ok s0).
Qed.

(** The cap on concurrent requests is exact.  However requests arrive and
    end, the counter of an address is the number of its requests that are in
    flight, it never exceeds the cap (so it never wraps around), and a peer the
    cap applies to is throttled precisely when that many of its requests are
    in flight: nobody is counted after his request has ended. *)
Theorem limiter_exact (s : limiter_state) (ip : ip_addr) :
  is_u64 (per_ip l) -> rtc limiter_step idle_limiter s ->
  default 0 (inflight s !! ip) = held ip (flights s) /\ held ip (flights s) <= per_ip l /\
  fst (acquire (Some ip) (inflight s)) =
    (if limited_peer ip then if per_ip l <=? held ip (flights s) then Throttled ip else Acquired ip else Bypassed).
Proof.
  intros Hp Hr. destruct (reachable_ok s Hp Hr) as [Hc Hcap]. split_and!; [done|done|].
  destruct (limited_peer ip) eqn:El; [|by rewrite acquire_bypass].
  rewrite (acquire_counts ip _ (held ip (flights s))) by auto using held_nonneg. by case_match.
Qed.
End Limiter.

(** Two requests of one address under a cap of two; a third is throttled. *)
Definition two_at_once : ConnectionLimiter := {| per_ip := 2; loopback_bypass := true; keepalive_idle_secs := 60 |}.
Definition peer : ip_addr := V4 10 0 0 1.
Definition one_flight : limiter_state := {| inflight := {[peer := 1]}; flights := <[0%nat := Some peer]> ∅ |}.
Definition busy_limiter : limiter_state := {| inflight := {[peer := 2]}; flights := <[1%nat := Some peer]> (flights one_flight) |}.

Lemma busy_reached : rtc (limiter_step two_at_once) idle_limiter busy_limiter.
Proof.
  eapply rtc_l; [apply (Arrives two_at_once 0 (Some peer) (Acquired peer) {[peer := 1]} idle_limiter); [reflexivity|vm_compute; reflexivity]|].
  change (rtc (limiter_step two_at_once) one_flight busy_limiter).
  eapply rtc_l; [apply (Arrives two_at_once 1 (Some peer) (Acquired peer) {[peer := 2]} one_flight); [reflexivity|vm_compute; reflexivity]|].
  apply rtc_refl.
Qed.

Lemma limiter_exact_witness :
  fst (acquire two_at_once (Some peer) (inflight busy_limiter)) = Throttled peer.
Proof.
  apply (limiter_exact two_at_once busy_limiter peer).
  - unfold is_u64, u64_max. cbn. lia.
  - apply busy_reached.
Defined.
