(* ===== verification/Streaming.v ===== *)
(** * s32p-gateway/src/streaming.rs: the download path

    [emit_range] and [emit_multirange]: a byte range of a file, split into
    chunk-sized reads that are submitted ahead and delivered in order, plus a
    buffered tail when [O_DIRECT]-shaped reads stop at the last aligned
    offset.  The file is its content; what the kernel answers to a read (how
    many bytes, or an error) is a parameter. *)

From Stdlib Require Import ZArith Lia Ascii.
From stdpp Require Import base list strings numbers option.
From S2P Require Import Prelude RustStr Utils S3Resp Bytes FsHelpers.

Local Open Scope s3_scope.
Local Open Scope Z_scope.

(** [StreamCfg] *)
Record StreamCfg := { chunk_size : Z; inflight : Z; direct_io : bool }.

(** What stops a streaming task. [OutOfFuel] belongs to the model: the loops
    are given fuel, and never use it up ([drain_fuel]). *)
Inductive stream_error := IoError (m : string) | OutOfFuel.

(** The body channel: the frames sent so far, and how many more the receiver
    takes before it goes away ([None]: it stays). *)
Record channel := { ch_frames : list bytes; ch_left : option nat }.

(** [out.send(Ok(Frame::data(b))).await]; [None] is [is_err()]. *)
Definition send (out : channel) (b : bytes) : option channel :=
  match ch_left out with
  | Some O => None
  | Some (S k) => Some {| ch_frames := ch_frames out ++ [b]; ch_left := Some k |}
  | None => Some {| ch_frames := ch_frames out ++ [b]; ch_left := None |}
  end.

Definition sent (out : channel) : bytes := concat (ch_frames out).

(** [chunks_needed]; the division panics for a zero chunk size. *)
Definition chunks_needed (seg_start eff_end chunk_size : Z) : res stream_error Z :=
  if eff_end <=? seg_start then Ok 0
  else if chunk_size =? 0 then Panics
  else let span := eff_end - seg_start in
       Ok ((span + chunk_size - 1) / chunk_size).

(** The closure [submit_len] of [stream_segment]. *)
Definition submit_len (direct : bool) (chunk_size effective_end off : Z) : Z :=
  let remain := sat_sub effective_end off in
  let len := Z.min chunk_size remain in
  let len :=
    if direct then
      let rem := len mod ALIGN in
      let len := if negb (rem =? 0) then len + (ALIGN - rem) else len in
      if effective_end <? sat_add64 off len then effective_end - off else len
    else len in
  Z.max len 1.

Definition segment_end (direct : bool) (file_size seg_end : Z) : Z :=
  if direct then Z.min seg_end (align_down file_size ALIGN) else seg_end.

(** A task result with the channel it leaves behind. *)
Definition outcome : Type := res stream_error unit * channel.

Section Download.
(** The file, and what the kernel does: [uring_read off len] is the count of
    an io_uring read, [read_at off len] of a [pread], [open_read] the result
    of opening the file for reading. *)
Context (file : bytes).
Context (uring_read read_at : Z -> Z -> res string Z) (open_read : res string unit).

(** [read_one]: [None] at end of file. *)
Definition read_one (off len want_start want_end : Z) : res string (option bytes) :=
  n ← uring_read off len;
  if n =? 0 then Ok None
  else
    let bytes := slice file off (off + n) in
    let chunk_start := Z.max want_start off in
    let chunk_end := Z.min want_end (off + n) in
    if chunk_end <=? chunk_start then Ok (Some [])
    else Ok (Some (slice bytes (chunk_start - off) (chunk_end - off))).

(** One pass of "plan and submit": a read of [submit_len] bytes is queued. *)
Definition push_read (direct : bool) (chunk effective_end : Z) (next_off : Z) (futs : list (Z * Z))
    : Z * list (Z * Z) :=
  let len := submit_len direct chunk effective_end next_off in
  (sat_add64 next_off len, futs ++ [(next_off, len)]).

(** The initial fill: [for _ in 0..inflight]. *)
Fixpoint initial_fill (n : nat) (direct : bool) (chunk effective_end : Z)
    (next_off : Z) (futs : list (Z * Z)) : Z * list (Z * Z) :=
  match n with
  | O => (next_off, futs)
  | S n' =>
      if effective_end <=? next_off then (next_off, futs)
      else let '(next_off, futs) := push_read direct chunk effective_end next_off futs in
           initial_fill n' direct chunk effective_end next_off futs
  end.

(** [while let Some(res) = futs.next().await]: [FuturesOrdered] delivers in
    the order of submission. *)
Fixpoint drain (fuel : nat) (direct : bool) (chunk effective_end want_start want_end : Z)
    (next_off : Z) (futs : list (Z * Z)) (out : channel) : outcome :=
  match futs with
  | [] => (Ok tt, out)
  | (off, len) :: futs =>
      match fuel with
      | O => (Err OutOfFuel, out)
      | S fuel =>
          match read_one off len want_start want_end with
          | Panics => (Panics, out)
          | Err e => (Err (IoError e), out)
          | Ok None => (Ok tt, out)
          | Ok (Some b) =>
              match (match b with [] => Some out | _ => send out b end) with
              | None => (Ok tt, out)
              | Some out =>
                  let '(next_off, futs) :=
                    if next_off <? effective_end
                    then push_read direct chunk effective_end next_off futs
                    else (next_off, futs) in
                  drain fuel direct chunk effective_end want_start want_end next_off futs out
              end
          end
      end
  end.

(** [stream_segment] (the Lustre read-ahead hints have no effect on the
    data; they are in Lustre).  Each pass of the loop consumes one read of at least one byte, so
    the length of the segment is fuel enough. *)
Definition stream_segment (file_size seg_start seg_end want_start want_end chunk_size inflight : Z)
    (direct : bool) (out : channel) : outcome :=
  let next_off := seg_start in
  let effective_end := segment_end direct file_size seg_end in
  if effective_end <=? next_off then (Ok tt, out)
  else if chunk_size =? 0 then (Panics, out)
  else
    let chunks_total := ((effective_end - seg_start) + chunk_size - 1) / chunk_size in
    let inflight := Z.min (Z.max inflight 1) (Z.max chunks_total 1) in
    let '(next_off, futs) :=
      initial_fill (Z.to_nat inflight) direct chunk_size effective_end next_off [] in
    drain (Z.to_nat (effective_end - seg_start)) direct chunk_size effective_end want_start want_end
      next_off futs out.

(** [read_tail_bytes]: the pooled buffer holds [chunk_size] bytes, and
    [&mut buf[..len]] panics beyond that. *)
Definition read_tail_bytes (buf_size off len : Z) : res string bytes :=
  if len =? 0 then Ok []
  else
    _ ← open_read;
    if buf_size <? len then Panics
    else
      n ← read_at off len;
      if n =? 0 then Err "tail unexpected EOF"%string
      else Ok (slice file off (off + n)).

(** The buffered tail of [emit_range]. *)
Definition emit_tail (buf_size tail_start tail_end : Z) (out : channel) : outcome :=
  if tail_end <=? tail_start then (Ok tt, out)
  else
    match read_tail_bytes buf_size tail_start (tail_end - tail_start) with
    | Panics => (Panics, out)
    | Err e => (Err (IoError e), out)
    | Ok b =>
        match b with
        | [] => (Ok tt, out)
        | _ => (Ok tt, default out (send out b))
        end
    end.

(** [emit_range] *)
Definition emit_range (file_size : Z) (want : ByteRange) (cfg : StreamCfg) (out : channel) : outcome :=
  let chunk := chunk_size cfg in
  let inflight_cfg := Z.max (inflight cfg) 1 in
  let direct := direct_io cfg && (chunk mod ALIGN =? 0) in
  let '(seg_start, seg_end) :=
    if direct then (align_down (start want) ALIGN, align_up (end_excl want) ALIGN)
    else (start want, end_excl want) in
  if seg_end <=? seg_start then (Ok tt, out)
  else
    let aligned_size := align_down file_size ALIGN in
    let direct_end := if direct then Z.min seg_end aligned_size else seg_end in
    let tail_start := Z.max (start want) direct_end in
    let tail_end := Z.min (end_excl want) file_size in
    if seg_start <? direct_end then
      match chunks_needed seg_start direct_end chunk with
      | Panics => (Panics, out)
      | Err e => (Err e, out)
      | Ok needed =>
          if needed =? 0 then (Ok tt, out)
          else
            let allowed := Z.min inflight_cfg needed in
            match open_read with
            | Panics => (Panics, out)
            | Err e => (Err (IoError e), out)
            | Ok _ =>
                match stream_segment file_size seg_start direct_end (start want) (end_excl want)
                        chunk allowed direct out with
                | (Ok _, out) => emit_tail chunk tail_start tail_end out
                | r => r
                end
            end
      end
    else emit_tail chunk tail_start tail_end out.

(** [emit_multirange]; [want.end_excl - 1] is unchecked. *)
Fixpoint emit_multirange (file_size : Z) (ranges : list ByteRange) (boundary : string) (cfg : StreamCfg)
    (out : channel) : outcome :=
  match ranges with
  | [] => (Ok tt, default out (send out (bytes_of (multirange_closing boundary))))
  | want :: ranges =>
      match @sub64 stream_error (end_excl want) 1 with
      | Ok end_incl =>
          let header := multirange_part_header boundary (start want) end_incl file_size in
          match send out (bytes_of header) with
          | None => (Ok tt, out)
          | Some out =>
              match emit_range file_size want cfg out with
              | (Ok _, out) =>
                  match send out (bytes_of crlf) with
                  | None => (Ok tt, out)
                  | Some out => emit_multirange file_size ranges boundary cfg out
                  end
              | r => r
              end
          end
      | Err e => (Err e, out)
      | Panics => (Panics, out)
      end
  end.

End Download.

(** ** The plan of reads *)

Lemma submit_len_bounds direct chunk eff off :
  0 < chunk -> 0 <= off < eff -> eff <= i64_max ->
  1 <= submit_len direct chunk eff off /\ off + submit_len direct chunk eff off <= eff.
Proof.
  intros Hc Ho He. unfold submit_len, sat_sub, sat_add64. unfold i64_max, u64_max in *.
  pose proof (Z.mod_pos_bound (Z.min chunk (Z.max 0 (eff - off))) ALIGN ltac:(done)).
  destruct direct; [|lia].
  repeat (case_match; reflect_all; simplify_eq); lia.
Qed.

(** In direct mode every read is aligned and fits the pooled buffer of
    [chunk] bytes the kernel writes into. *)
Lemma submit_len_direct chunk eff off :
  0 < chunk -> chunk mod ALIGN = 0 -> 0 <= off < eff -> eff <= i64_max ->
  off mod ALIGN = 0 -> eff mod ALIGN = 0 ->
  submit_len true chunk eff off = Z.min chunk (eff - off) /\
  submit_len true chunk eff off mod ALIGN = 0.
Proof.
  intros Hc Hca Ho He Hoa Hea. unfold submit_len, sat_sub, sat_add64.
  rewrite (Z.max_r 0) by lia.
  assert (Z.min chunk (eff - off) mod ALIGN = 0) as Hm.
  { destruct (Z.min_spec chunk (eff - off)) as [[_ ->]|[_ ->]]; [done|].
    rewrite Zminus_mod, Hea, Hoa. done. }
  rewrite Hm. cbn. unfold i64_max, u64_max in *.
  rewrite (proj2 (Z.ltb_ge _ _)) by lia. rewrite Z.max_l by lia. done.
Qed.

(** The queue holds consecutive reads from [o] up to [next]. *)
Fixpoint contig (eff o : Z) (futs : list (Z * Z)) (next : Z) : Prop :=
  match futs with
  | [] => o = next
  | (off, len) :: rest => off = o /\ 1 <= len /\ o + len <= eff /\ contig eff (o + len) rest next
  end.

Lemma contig_snoc eff o futs next len :
  contig eff o futs next -> 1 <= len -> next + len <= eff ->
  contig eff o (futs ++ [(next, len)]) (next + len).
Proof.
  revert o. induction futs as [|[x l] futs IH]; intros o; cbn; [intros ->; tauto|].
  naive_solver.
Qed.

Lemma contig_le eff o futs next : contig eff o futs next -> o <= next.
Proof.
  revert o. induction futs as [|[x l] futs IH]; intros o; cbn; [lia|].
  intros (-> & ? & ? & H%IH). lia.
Qed.

Lemma push_read_contig direct chunk eff o futs next :
  0 < chunk -> 0 <= o -> eff <= i64_max -> contig eff o futs next -> next < eff ->
  exists len next', push_read direct chunk eff next futs = (next', futs ++ [(next, len)]) /\
    contig eff o (futs ++ [(next, len)]) next' /\ next < next' <= eff.
Proof.
  intros Hc Ho He Hf Hn. pose proof (contig_le _ _ _ _ Hf).
  destruct (submit_len_bounds direct chunk eff next) as [H1 H2]; [lia..|].
  eexists _, _. split; [reflexivity|]. unfold sat_add64.
  unfold i64_max, u64_max in *. rewrite Z.min_r by lia.
  split; [by apply contig_snoc | lia].
Qed.

Lemma initial_fill_contig direct chunk eff o n futs next :
  0 < chunk -> 0 <= o -> eff <= i64_max -> contig eff o futs next -> next <= eff ->
  exists futs' next', initial_fill n direct chunk eff next futs = (next', futs') /\
    contig eff o futs' next' /\ next' <= eff /\ (futs' = [] -> futs = [] /\ (next' = eff \/ n = O)).
Proof.
  intros Hc Ho He. revert futs next. induction n as [|n IH]; intros futs next Hf Hn; cbn [initial_fill].
  - exists futs, next. naive_solver.
  - destruct (Z.leb_spec eff next).
    + exists futs, next. split_and!; try done. intros ->. split; [done|]. left; lia.
    + destruct (push_read_contig direct chunk eff o futs next) as (len & next' & -> & ? & ?); [done..|].
      destruct (IH (futs ++ [(next, len)]) next') as (futs' & n' & -> & ? & ? & Hnil); [done|lia|].
      exists futs', n'. split_and!; try done. intros Hf'. destruct (Hnil Hf') as [Hbad _]. by apply app_nil in Hbad as [_ ?].
Qed.

(** The fill only appends to the queue. *)
Lemma initial_fill_app direct chunk eff n next futs :
  exists t, snd (initial_fill n direct chunk eff next futs) = futs ++ t.
Proof.
  revert next futs. induction n as [|n IH]; intros next futs; cbn [initial_fill].
  { exists []. by rewrite app_nil_r. }
  case_match; [exists []; by rewrite app_nil_r|]. unfold push_read at 1.
  edestruct IH as [t ->]. rewrite <- app_assoc. eauto.
Qed.

(** Consecutive windows of a file, clipped to the wanted range, add up. *)
Lemma slice_clip_app (f : bytes) ws we o m eff :
  0 <= o <= m -> m <= eff -> 0 <= ws ->
  slice f (Z.max ws o) (Z.min we m) ++ slice f (Z.max ws m) (Z.min we eff)
  = slice f (Z.max ws o) (Z.min we eff).
Proof.
  intros Ho Hm Hws. destruct (Z.le_gt_cases (Z.min we m) (Z.max ws o)).
  - rewrite (slice_empty _ (Z.max ws o) (Z.min we m)) by lia. cbn.
    destruct (Z.le_gt_cases we (Z.max ws o)).
    + by rewrite !slice_empty by lia.
    + by replace (Z.max ws m) with (Z.max ws o) by lia.
  - destruct (Z.le_gt_cases we m).
    + rewrite (slice_empty _ (Z.max ws m)) by lia. rewrite app_nil_r. f_equal. lia.
    + replace (Z.min we m) with m by lia. replace (Z.max ws m) with m by lia.
      apply slice_app; lia.
Qed.

Section Delivery.
Context (file : bytes) (uring_read read_at : Z -> Z -> res string Z) (open_read : res string unit).

(** Reads inside the file from [o] on are answered in full. *)
Definition full_reads_from (o : Z) (read : Z -> Z -> res string Z) : Prop :=
  forall off len, o <= off -> 1 <= len -> off + len <= blen file -> read off len = Ok len.

Lemma read_one_full o off len ws we :
  full_reads_from o uring_read -> 0 <= o <= off -> 1 <= len -> off + len <= blen file ->
  read_one file uring_read off len ws we = Ok (Some (slice file (Z.max ws off) (Z.min we (off + len)))).
Proof.
  intros Hfull Ho Hl Hin. unfold read_one. rewrite Hfull by lia. cbn -[slice].
  rewrite (proj2 (Z.eqb_neq len 0)) by lia.
  destruct (Z.leb_spec (Z.min we (off + len)) (Z.max ws off)).
  - by rewrite slice_empty.
  - rewrite slice_slice by lia. do 3 f_equal; lia.
Qed.

Lemma sent_snoc out b :
  sent {| ch_frames := ch_frames out ++ [b]; ch_left := None |} = sent out ++ b.
Proof. unfold sent. cbn. by rewrite concat_app; cbn; rewrite app_nil_r. Qed.

(** The channel after a frame, with a receiver that stays. *)
Lemma send_open out b :
  ch_left out = None ->
  exists out', (match b with [] => Some out | _ => send out b end) = Some out' /\
    ch_left out' = None /\ sent out' = sent out ++ b.
Proof.
  intros Hl. destruct b as [|c b]; [exists out; by rewrite app_nil_r|].
  unfold send. rewrite Hl. eexists. split_and!; [done|done|]. apply sent_snoc.
Qed.

(** The loop delivers everything from the first queued read to the end of the
    segment, clipped to the wanted range. *)
Lemma drain_full direct chunk eff ws we fuel o futs next out :
  0 < chunk -> 0 <= o -> 0 <= ws -> eff <= i64_max -> eff <= blen file ->
  full_reads_from o uring_read ->
  contig eff o futs next -> next <= eff -> (futs = [] -> next = eff) ->
  (Z.to_nat (eff - o) <= fuel)%nat -> ch_left out = None ->
  exists out', drain file uring_read fuel direct chunk eff ws we next futs out = (Ok tt, out') /\
    ch_left out' = None /\ sent out' = sent out ++ slice file (Z.max ws o) (Z.min we eff).
Proof.
  intros Hc Ho Hws He Hef. revert o futs next out Ho.
  induction fuel as [|fuel IH]; intros o [|[off len] futs] next out Ho Hfull Hf Hn Hnil Hfu Hl;
    cbn [drain contig] in *.
  1,3: exists out; split_and!; [done..|]; rewrite slice_empty by (specialize (Hnil eq_refl); lia);
       by rewrite app_nil_r.
  { lia. }
  destruct Hf as (-> & Hlen & Hle & Hf). rewrite (read_one_full o) by (done || lia).
  destruct (send_open out (slice file (Z.max ws o) (Z.min we (o + len))) Hl)
    as (out1 & -> & Hl1 & Hs1).
  rewrite <- (slice_clip_app file ws we o (o + len) eff) by lia. rewrite app_assoc, <- Hs1.
  assert (full_reads_from (o + len) uring_read) by (intros ? ? ?; apply Hfull; lia).
  destruct (Z.ltb_spec next eff).
  - destruct (push_read_contig direct chunk eff (o + len) futs next) as (l' & next' & -> & ? & ?);
      [lia..|done|lia|].
    apply IH; try (done || lia). intros Hbad. by apply app_nil in Hbad as [_ ?].
  - apply IH; done || lia.
Qed.

(** With the fuel [stream_segment] gives it the loop never runs out,
    whatever the kernel answers. *)
Lemma drain_fuel direct chunk eff ws we fuel o futs next out :
  0 < chunk -> 0 <= o -> eff <= i64_max -> contig eff o futs next -> next <= eff ->
  (Z.to_nat (eff - o) <= fuel)%nat ->
  fst (drain file uring_read fuel direct chunk eff ws we next futs out) <> Err OutOfFuel.
Proof.
  intros Hc Ho He. revert o futs next out Ho.
  induction fuel as [|fuel IH]; intros o [|[off len] futs] next out Ho Hf Hn Hfu;
    cbn [drain contig] in *; try done; [lia|].
  destruct Hf as (-> & Hlen & Hle & Hf).
  destruct (read_one _ _ _ _ _ _) as [[b|]| |]; try done.
  destruct (match b with [] => Some out | _ => send out b end) as [out1|]; [|done].
  destruct (Z.ltb_spec next eff).
  - destruct (push_read_contig direct chunk eff (o + len) futs next) as (l' & next' & -> & ? & ?);
      [lia..|done|lia|]. apply (IH (o + len)); done || lia.
  - apply (IH (o + len)); done || lia.
Qed.

Lemma stream_segment_full size ss se ws we chunk infl direct out :
  0 < chunk -> 0 <= ss -> 0 <= ws -> segment_end direct size se <= i64_max ->
  segment_end direct size se <= blen file ->
  full_reads_from ss uring_read -> ch_left out = None ->
  exists out', stream_segment file uring_read size ss se ws we chunk infl direct out = (Ok tt, out') /\
    ch_left out' = None /\
    sent out' = sent out ++ slice file (Z.max ws ss) (Z.min we (segment_end direct size se)).
Proof.
  intros Hc Hss Hws He Hef Hfull Hl. unfold stream_segment.
  set (eff := segment_end direct size se) in *. destruct (Z.leb_spec eff ss).
  { exists out. rewrite slice_empty by lia. by rewrite app_nil_r. }
  rewrite (proj2 (Z.eqb_neq chunk 0)) by lia. cbn zeta.
  set (n := Z.to_nat _).
  destruct (initial_fill_contig direct chunk eff ss n [] ss) as (futs & next & -> & ? & ? & Hnil);
    [done|lia|lia|done|lia|].
  apply drain_full; try (done || lia). intros Hf. destruct (Hnil Hf) as [_ [?|Hn]]; [done|].
  subst n. lia.
Qed.

Lemma read_tail_full o buf off len :
  full_reads_from o read_at -> open_read = Ok tt -> 0 <= o <= off -> 0 <= len <= buf ->
  off + len <= blen file ->
  read_tail_bytes file read_at open_read buf off len = Ok (slice file off (off + len)).
Proof.
  intros Hfull Hop Ho Hlen Hin. unfold read_tail_bytes. destruct (Z.eqb_spec len 0) as [->|].
  { by rewrite slice_empty by lia. }
  rewrite Hop. cbn -[slice]. rewrite (proj2 (Z.ltb_ge _ _)) by lia. rewrite Hfull by lia.
  cbn -[slice]. by rewrite (proj2 (Z.eqb_neq len 0)) by lia.
Qed.

Lemma emit_tail_full buf ts te out :
  full_reads_from 0 read_at -> open_read = Ok tt -> 0 <= ts -> te - ts <= buf -> te <= blen file ->
  ch_left out = None ->
  exists out', emit_tail file read_at open_read buf ts te out = (Ok tt, out') /\
    ch_left out' = None /\ sent out' = sent out ++ slice file ts te.
Proof.
  intros Hfull Hop Hts Hb Hte Hl. unfold emit_tail. destruct (Z.leb_spec te ts).
  { exists out. rewrite slice_empty by lia. by rewrite app_nil_r. }
  rewrite (read_tail_full 0) by (done || lia). replace (ts + (te - ts)) with te by lia.
  destruct (send_open out (slice file ts te) Hl) as (out1 & Hs & Hl1 & Hs1).
  exists out1. split; [|done]. destruct (slice file ts te); [congruence|]. by rewrite Hs.
Qed.

Lemma chunks_needed_pos ss eff chunk :
  0 < chunk -> ss < eff -> exists n, chunks_needed ss eff chunk = Ok n /\ 1 <= n.
Proof.
  intros Hc H. unfold chunks_needed. rewrite (proj2 (Z.leb_gt _ _)) by lia.
  rewrite (proj2 (Z.eqb_neq _ _)) by lia. eexists. split; [done|].
  apply Z.div_le_lower_bound; lia.
Qed.

(** The two halves of [emit_range], for any split point [de] that leaves a
    tail no longer than the pooled buffer. *)
Lemma emit_parts_full size s e ss de chunk infl direct out :
  0 < chunk -> size = blen file -> size <= i64_max -> 0 <= ss <= s -> s < e <= size ->
  de <= size -> segment_end direct size de = de -> Z.min e size - Z.max s de <= chunk ->
  full_reads_from 0 uring_read -> full_reads_from 0 read_at -> open_read = Ok tt ->
  ch_left out = None ->
  exists out',
    (if ss <? de then
       match chunks_needed ss de chunk with
       | Panics => (Panics, out)
       | Err e => (Err e, out)
       | Ok needed =>
           if needed =? 0 then (Ok tt, out)
           else match open_read with
                | Panics => (Panics, out)
                | Err e => (Err (IoError e), out)
                | Ok _ =>
                    match stream_segment file uring_read size ss de s e chunk (Z.min infl needed) direct out with
                    | (Ok _, out) =>
                        emit_tail file read_at open_read chunk (Z.max s de) (Z.min e size) out
                    | r => r
                    end
                end
       end
     else emit_tail file read_at open_read chunk (Z.max s de) (Z.min e size) out) = (Ok tt, out') /\
    ch_left out' = None /\ sent out' = sent out ++ slice file s e.
Proof.
  intros Hc -> Hi Hss Hs Hde Hseg Htail Hu Hr Hop Hl. destruct (Z.ltb_spec ss de).
  - destruct (chunks_needed_pos ss de chunk) as (n & -> & Hn); [lia..|].
    rewrite (proj2 (Z.eqb_neq _ _)) by lia. rewrite Hop.
    destruct (stream_segment_full (blen file) ss de s e chunk (Z.min infl n) direct out)
      as (out1 & -> & Hl1 & Hs1); try (rewrite ?Hseg; done || lia).
    { intros ????; apply Hu; lia. }
    rewrite <- Hop. destruct (emit_tail_full chunk (Z.max s de) (Z.min e (blen file)) out1)
      as (out2 & -> & Hl2 & Hs2); try (done || lia).
    exists out2. split_and!; try done. rewrite Hs2, Hs1, <- app_assoc, Hseg. f_equal.
    rewrite slice_clip_app by lia. f_equal; lia.
  - destruct (emit_tail_full chunk (Z.max s de) (Z.min e (blen file)) out) as (out2 & -> & Hl2 & Hs2);
      try (done || lia).
    exists out2. split_and!; try done. rewrite Hs2. do 2 f_equal; lia.
Qed.

Lemma emit_range_full size want cfg out :
  0 < chunk_size cfg -> size = blen file -> size <= i64_max ->
  0 <= start want < end_excl want -> end_excl want <= size ->
  full_reads_from 0 uring_read -> full_reads_from 0 read_at -> open_read = Ok tt ->
  ch_left out = None ->
  exists out', emit_range file uring_read read_at open_read size want cfg out = (Ok tt, out') /\
    ch_left out' = None /\ sent out' = sent out ++ slice file (start want) (end_excl want).
Proof.
  intros Hc Hsz Hi Hw Hwe Hu Hr Hop Hl. unfold emit_range.
  destruct (direct_io cfg && (chunk_size cfg mod ALIGN =? 0)) eqn:Ed.
  - apply andb_true_iff in Ed as [_ Hal%Z.eqb_eq].
    pose proof (align_down_le (start want) ALIGN ltac:(done)).
    pose proof (align_down_nonneg (start want) ALIGN ltac:(done)).
    pose proof (align_down_le size ALIGN ltac:(done)).
    unfold i64_max in *.
    destruct (align_up_bounds (end_excl want) ALIGN ltac:(done)) as [? _]; [unfold u64_max, ALIGN; lia|].
    assert (ALIGN <= chunk_size cfg).
    { pose proof (Z.div_mod (chunk_size cfg) ALIGN ltac:(done)). unfold ALIGN in *. lia. }
    rewrite (proj2 (Z.leb_gt _ _)) by lia. cbn zeta.
    apply emit_parts_full; try (done || lia). unfold segment_end. lia.
  - rewrite (proj2 (Z.leb_gt _ _)) by lia. cbn zeta. apply emit_parts_full; try (done || lia).
Qed.

(** The body of a multi-range response, as RFC 7233 describes it. *)
Definition multirange_body (boundary : string) (total : Z) (ranges : list ByteRange) : bytes :=
  concat ((fun r => bytes_of (multirange_part_header boundary (start r) (end_excl r - 1) total)
                    ++ slice file (start r) (end_excl r) ++ bytes_of crlf) <$> ranges)
  ++ bytes_of (multirange_closing boundary).

Lemma send_none out b :
  ch_left out = None ->
  exists out', send out b = Some out' /\ ch_left out' = None /\ sent out' = sent out ++ b.
Proof. intros Hl. unfold send. rewrite Hl. eexists. split_and!; [done|done|]. apply sent_snoc. Qed.

Lemma emit_multirange_full ranges boundary cfg out :
  0 < chunk_size cfg -> blen file <= i64_max ->
  Forall (fun r => 0 <= start r < end_excl r /\ end_excl r <= blen file) ranges ->
  full_reads_from 0 uring_read -> full_reads_from 0 read_at -> open_read = Ok tt ->
  ch_left out = None ->
  exists out', emit_multirange file uring_read read_at open_read (blen file) ranges boundary cfg out
                 = (Ok tt, out') /\
    sent out' = sent out ++ multirange_body boundary (blen file) ranges.
Proof.
  intros Hc Hi Hr Hu Hp Hop. revert out.
  induction Hr as [|r rs [Hr1 Hr2] _ IH]; intros out Hl; cbn [emit_multirange].
  - destruct (send_none out (bytes_of (multirange_closing boundary)) Hl) as (o1 & -> & _ & ?).
    by exists o1.
  - rewrite sub64_ok by lia.
    destruct (send_none out (bytes_of (multirange_part_header boundary (start r) (end_excl r - 1) (blen file))) Hl)
      as (o1 & -> & Hl1 & Hs1).
    destruct (emit_range_full (blen file) r cfg o1) as (o2 & -> & Hl2 & Hs2); try done.
    destruct (send_none o2 (bytes_of crlf) Hl2) as (o3 & -> & Hl3 & Hs3).
    destruct (IH o3 Hl3) as (o4 & -> & Hs4). exists o4. split; [done|].
    rewrite Hs4, Hs3, Hs2, Hs1. unfold multirange_body. cbn [fmap list_fmap concat].
    by rewrite <- !app_assoc.
Qed.

Lemma multirange_body_length boundary ranges :
  Forall (fun r => 0 <= start r < end_excl r /\ end_excl r <= blen file) ranges ->
  blen (multirange_body boundary (blen file) ranges)
  = multirange_content_length boundary ranges (blen file).
Proof.
  intros Hr. unfold multirange_body, multirange_content_length.
  rewrite blen_app, blen_bytes_of. unfold str_len. f_equal.
  rewrite <- (Z.add_0_l (blen _)). generalize 0 as acc.
  induction Hr as [|r rs [Hr1 Hr2] _ IH]; intros acc; cbn [fmap list_fmap concat foldl].
  - rewrite blen_nil. lia.
  - rewrite <- IH, !blen_app, !blen_bytes_of, blen_slice by lia.
    unfold add_range_length, str_len, sat_sub. rewrite Z.max_r by lia. cbn [String.length crlf]. lia.
Qed.
End Delivery.

(** ** Short reads *)
Section ShortRead.
Context (file : bytes) (uring_read read_at : Z -> Z -> res string Z) (open_read : res string unit).

(** The first read of a buffered segment returns [n] bytes of the [len] it
    asked for; every other read is full. *)
Lemma stream_segment_short size s e chunk infl n out :
  0 < chunk -> 0 <= s -> s < e -> e <= blen file -> blen file <= i64_max ->
  let len := Z.min chunk (e - s) in
  0 < n < len -> uring_read s len = Ok n -> full_reads_from file (s + 1) uring_read ->
  ch_left out = None ->
  exists out', stream_segment file uring_read size s e s e chunk infl false out = (Ok tt, out') /\
    ch_left out' = None /\
    sent out' = sent out ++ slice file s (s + n) ++ slice file (s + len) e.
Proof.
  intros Hc Hs Hse He Hi len Hn Hread Hfull Hl. unfold stream_segment. cbn [segment_end].
  rewrite (proj2 (Z.leb_gt e s)), (proj2 (Z.eqb_neq chunk 0)) by lia. cbn zeta.
  assert (submit_len false chunk e s = len) as Hlen by (unfold submit_len, sat_sub; lia).
  assert (exists k, Z.to_nat (Z.min (Z.max infl 1) (Z.max ((e - s + chunk - 1) / chunk) 1)) = S k) as [k ->].
  { destruct (Z.to_nat _) eqn:E; [lia|eauto]. }
  cbn [initial_fill]. rewrite (proj2 (Z.leb_gt e s)) by lia.
  unfold push_read at 1. rewrite Hlen. cbn [app].
  assert (sat_add64 s len = s + len) as ->.
  { unfold sat_add64, i64_max, u64_max in *. lia. }
  destruct (initial_fill_contig false chunk e s k [(s, len)] (s + len))
    as (futs & next & Hfill & Hcon & Hnext & Hnil); [lia..|cbn; lia|lia|].
  rewrite Hfill. destruct futs as [|[off l] futs]; [by destruct (Hnil eq_refl)|].
  destruct (initial_fill_app false chunk e k (s + len) [(s, len)]) as [t Ht].
  rewrite Hfill in Ht. cbn in Ht. injection Ht as -> -> Htl.
  destruct (Z.to_nat (e - s)) as [|fuel] eqn:Efuel; [lia|]. cbn [drain].
  destruct Hcon as (_ & _ & _ & Hcon). unfold read_one at 1. rewrite Hread. cbn -[slice sat_add64 drain].
  rewrite (proj2 (Z.eqb_neq n 0)), (proj2 (Z.leb_gt _ _)), slice_slice by lia.
  replace (s + (s `max` s - s)) with s by lia.
  replace (s + (e `min` (s + n) - s)) with (s + n) by lia.
  destruct (send_open out (slice file s (s + n)) Hl) as (out1 & -> & Hl1 & Hs1).
  assert (full_reads_from file (s + len) uring_read) by (intros ? ? ?; apply Hfull; lia).
  rewrite app_assoc, <- Hs1. replace (slice file (s + len) e)
    with (slice file (Z.max s (s + len)) (Z.min e e)) by (f_equal; lia).
  destruct (Z.ltb_spec next e).
  - destruct (push_read_contig false chunk e (s + len) futs next) as (l' & next' & -> & ? & ?);
      [lia..|done|lia|].
    apply drain_full; try (done || lia). intros Hbad. by apply app_nil in Hbad as [_ ?].
  - apply drain_full; done || lia.
Qed.
End ShortRead.

(** ** Properties *)

(** A GET body: for any range inside the object, any positive chunk size,
    any read-ahead depth, direct I/O or not, and a kernel that answers the
    reads inside the file in full, [emit_range] ends without error or panic
    (its loops terminate, the tail fits the pooled buffer) and the frames it
    sends are exactly the requested bytes, in order. *)
Theorem emit_range_delivers (file : bytes) (uring_read read_at : Z -> Z -> res string Z)
    (want : ByteRange) (cfg : StreamCfg) (out : channel) :
  0 < chunk_size cfg -> blen file <= i64_max ->
  0 <= start want < end_excl want -> end_excl want <= blen file ->
  full_reads_from file 0 uring_read -> full_reads_from file 0 read_at -> ch_left out = None ->
  exists out',
    emit_range file uring_read read_at (Ok tt) (blen file) want cfg out = (Ok tt, out') /\
    sent out' = sent out ++ slice file (start want) (end_excl want).
Proof.
  intros. destruct (emit_range_full file uring_read read_at (Ok tt) (blen file) want cfg out)
    as (out' & ? & ? & ?); try done. eauto.
Qed.

(** A multi-range GET: whatever [Range] header a client sends on a
    non-empty object, when it is accepted the body that [emit_multirange]
    streams is each part header, the range's bytes and a CRLF, then the
    closing delimiter; and its length is the [Content-Length] that
    [multirange_content_length] announced. *)
Theorem multirange_length_agrees (file : bytes) (uring_read read_at : Z -> Z -> res string Z)
    (h boundary : string) (ranges : list ByteRange) (cfg : StreamCfg) :
  0 < chunk_size cfg -> 0 < blen file <= i64_max ->
  parse_ranges_header h (blen file) = Ok ranges ->
  full_reads_from file 0 uring_read -> full_reads_from file 0 read_at ->
  exists out',
    emit_multirange file uring_read read_at (Ok tt) (blen file) ranges boundary cfg
      {| ch_frames := []; ch_left := None |} = (Ok tt, out') /\
    sent out' = multirange_body file boundary (blen file) ranges /\
    blen (sent out') = multirange_content_length boundary ranges (blen file).
Proof.
  intros Hc Hs Hr Hu Hp.
  apply parse_ranges_header_bounds in Hr; [|unfold is_u64, i64_max, u64_max in *; lia|lia].
  destruct (emit_multirange_full file uring_read read_at (Ok tt) ranges boundary cfg
              {| ch_frames := []; ch_left := None |}) as (out' & -> & Hsent); try (done || lia).
  exists out'. split; [done|]. cbn in Hsent. rewrite Hsent. split; [done|].
  by apply multirange_body_length.
Qed.

(** The reads handed to the kernel are safe: a queued read is at least
    one byte, stays inside the segment, and, when direct I/O is on with an
    aligned chunk size from an aligned offset in an aligned segment, is
    aligned and no longer than the pooled buffer it is written to. *)
Theorem submit_len_safe (direct : bool) (chunk effective_end off : Z) :
  0 < chunk -> 0 <= off < effective_end -> effective_end <= i64_max ->
  (direct = true -> chunk mod ALIGN = 0 /\ off mod ALIGN = 0 /\ effective_end mod ALIGN = 0) ->
  let len := submit_len direct chunk effective_end off in
  1 <= len <= chunk /\ off + len <= effective_end /\ (direct = true -> len mod ALIGN = 0).
Proof.
  intros Hc Ho He Hd len. destruct (submit_len_bounds direct chunk effective_end off) as [H1 H2]; [done..|].
  subst len. destruct direct.
  - destruct Hd as (? & ? & ?); [done|].
    destruct (submit_len_direct chunk effective_end off) as [-> ?]; try done. lia.
  - unfold submit_len, sat_sub in *. split_and!; [lia..|done].
Qed.

(** A short read is not retried: when the first read of a buffered range
    returns fewer bytes than asked while the file goes on, the stream ends
    without error with the rest of that chunk missing from the body. *)
Theorem short_read_leaves_hole (file : bytes) (uring_read read_at : Z -> Z -> res string Z)
    (s e n chunk infl : Z) (out : channel) :
  0 < chunk -> 0 <= s < e -> e <= blen file -> blen file <= i64_max ->
  0 < n < Z.min chunk (e - s) -> uring_read s (Z.min chunk (e - s)) = Ok n ->
  full_reads_from file (s + 1) uring_read -> ch_left out = None ->
  exists out',
    emit_range file uring_read read_at (Ok tt) (blen file) {| start := s; end_excl := e |}
      {| chunk_size := chunk; inflight := infl; direct_io := false |} out = (Ok tt, out') /\
    sent out' = sent out ++ slice file s (s + n) ++ slice file (s + Z.min chunk (e - s)) e.
Proof.
  intros Hc Hs He Hi Hn Hread Hfull Hl. unfold emit_range. cbn [direct_io andb start end_excl chunk_size inflight].
  rewrite (proj2 (Z.leb_gt e s)), (proj2 (Z.ltb_lt s e)) by lia.
  destruct (chunks_needed_pos s e chunk) as (k & -> & Hk); [lia..|].
  rewrite (proj2 (Z.eqb_neq _ _)) by lia.
  destruct (stream_segment_short file uring_read (blen file) s e chunk
              (Z.min (Z.max infl 1) k) n out) as (out' & -> & Hl' & Hs'); try (done || lia).
  exists out'. split; [|done]. unfold emit_tail. by rewrite (proj2 (Z.leb_le _ _)) by lia.
Qed.

(** ** Witnesses *)

(** A ten-byte object and a kernel that reads it in full. *)
Definition ten_bytes : bytes := bytes_of "0123456789".
Definition full_read (off len : Z) : res string Z := Ok (Z.min len (10 - off)).
Definition empty_channel : channel := {| ch_frames := []; ch_left := None |}.
Definition small_cfg : StreamCfg := {| chunk_size := 4; inflight := 2; direct_io := false |}.

Lemma full_read_full o : full_reads_from ten_bytes o full_read.
Proof.
  intros off len _ ? H. change (blen ten_bytes) with 10 in H. unfold full_read. f_equal. lia.
Qed.

Lemma emit_range_delivers_witness :
  exists out',
    emit_range ten_bytes full_read full_read (Ok tt) 10 {| start := 3; end_excl := 9 |}
      small_cfg empty_channel = (Ok tt, out') /\
    sent out' = bytes_of "345678".
Proof.
  apply (emit_range_delivers ten_bytes full_read full_read {| start := 3; end_excl := 9 |}
           small_cfg empty_channel); try (apply full_read_full); cbn; try done; lia.
Defined.

Lemma multirange_length_agrees_witness :
  exists out',
    emit_multirange ten_bytes full_read full_read (Ok tt) 10
      [{| start := 0; end_excl := 2 |}; {| start := 7; end_excl := 10 |}] "xyz" small_cfg
      empty_channel = (Ok tt, out') /\
    sent out' = multirange_body ten_bytes "xyz" 10
      [{| start := 0; end_excl := 2 |}; {| start := 7; end_excl := 10 |}] /\
    blen (sent out') = 174.
Proof.
  apply (multirange_length_agrees ten_bytes full_read full_read "bytes=0-1,-3" "xyz"
           [{| start := 0; end_excl := 2 |}; {| start := 7; end_excl := 10 |}] small_cfg);
    try (apply full_read_full); vm_compute; done.
Defined.

Lemma submit_len_safe_witness :
  let len := submit_len true 8192 20480 16384 in 1 <= len <= 8192 /\ 16384 + len <= 20480 /\
  (true = true -> len mod ALIGN = 0).
Proof. apply (submit_len_safe true 8192 20480 16384); vm_compute; intuition congruence. Defined.

(** Two of the first four bytes arrive: the body lacks the other two. *)
Definition short_read (off len : Z) : res string Z := if off =? 0 then Ok 2 else full_read off len.

Lemma short_read_leaves_hole_witness :
  exists out',
    emit_range ten_bytes short_read full_read (Ok tt) 10 {| start := 0; end_excl := 10 |}
      small_cfg empty_channel = (Ok tt, out') /\
    sent out' = bytes_of "01456789".
Proof.
  apply (short_read_leaves_hole ten_bytes short_read full_read 0 10 2 4 2 empty_channel);
    try done; try (vm_compute; intuition congruence).
  intros off len ? ? H. unfold short_read. rewrite (proj2 (Z.eqb_neq _ _)) by lia.
  by apply (full_read_full 1).
Defined.
