(* ===== verification/PayloadSource.v ===== *)
(** * s32p-gateway/src/streaming.rs: reading upload bodies

    A request body is a stream of frames.  [PlainFrameReader] reads it as it
    is, [aws_chunked::Decoder] removes the [aws-chunked] framing of SigV4
    streaming uploads.  Both offer [read_exact_payload] and a final check;
    [PayloadSource] states what the upload writer relies on. *)

From Stdlib Require Import ZArith Lia Ascii.
From stdpp Require Import base list strings numbers option.
From S2P Require Import Prelude RustStr Bytes.

Local Open Scope s3_scope.

(** The [io::Error]s of the readers; [OutOfFuel] belongs to the model and is
    never produced ([read_exact_spec]). *)
Inductive io_error :=
| UnexpectedEof (m : string)
| InvalidData (m : string)
| OtherError (m : string)
| OutOfFuel.

(** One item of the body stream: [Some(Ok(b))] or [Some(Err(e))]. *)
Inductive item := Data (b : bytes) | Failed (e : io_error).

(** The bytes a stream delivers before it ends or fails, and the failure. *)
Fixpoint flat (stream : list item) : bytes * option io_error :=
  match stream with
  | [] => ([], None)
  | Data b :: rest => prod_map (app b) id (flat rest)
  | Failed e :: _ => ([], Some e)
  end.

(** The bodies of both [refill] loops: items are pulled until one is not
    empty; [true] says the stream has ended. *)
Fixpoint pull (stream : list item) : res io_error (bytes * list item * bool) :=
  match stream with
  | [] => Ok ([], [], true)
  | Data [] :: rest => pull rest
  | Data b :: rest => Ok (b, rest, false)
  | Failed e :: _ => Err e
  end.

(** ** The interface of a payload source

    [payload s] is the payload [s] still holds and [fault s] the error a
    reader meets after it. *)
Class PayloadSource (S : Type) := {
  read_exact_payload : S -> nat -> res io_error (bytes * S);
  finish : S -> res io_error unit;
  source_ok : S -> Prop;
  payload : S -> bytes;
  fault : S -> io_error;
}.

Class PayloadSourceLaws (S : Type) `{PayloadSource S} := {
  read_exact_enough s n :
    source_ok s -> (n <= length (payload s))%nat ->
    exists s', read_exact_payload s n = Ok (take n (payload s), s') /\
      source_ok s' /\ payload s' = drop n (payload s) /\ fault s' = fault s;
  read_exact_short s n :
    source_ok s -> (length (payload s) < n)%nat ->
    read_exact_payload s n = Err (fault s);
}.

(** ** Pulling frames *)

(** [pull] finds the next bytes of the stream, its failure or its end. *)
Lemma pull_spec s :
  (exists b rest, pull s = Ok (b, rest, false) /\ b <> [] /\
     flat s = prod_map (app b) id (flat rest) /\ (length rest < length s)%nat) \/
  (exists e, pull s = Err e /\ flat s = ([], Some e)) \/
  (pull s = Ok ([], [], true) /\ flat s = ([], None)).
Proof.
  induction s as [|[[|c b]|e] s IH]; cbn [pull flat length]; [naive_solver| |left|naive_solver].
  - assert (prod_map (app []) id (flat s) = flat s) as -> by by destruct (flat s).
    destruct IH as [(b & rest & ? & ? & ? & ?)|[?|?]]; [left|naive_solver..].
    exists b, rest. split_and!; [done..|lia].
  - exists (c :: b), s. split_and!; [done..|lia].
Qed.

(** [stream] behind [buf]: what is left to read, and the failure after it. *)
Definition behind (buf : bytes) (stream : list item) : bytes * option io_error :=
  prod_map (app buf) id (flat stream).

Lemma prod_map_fst {A B C D} (f : A -> C) (g : B -> D) p : fst (prod_map f g p) = f (fst p).
Proof. done. Qed.

Lemma prod_map_snd {A B C D} (f : A -> C) (g : B -> D) p : snd (prod_map f g p) = g (snd p).
Proof. done. Qed.

Lemma prod_map_drop_0 {B} (p : bytes * B) : prod_map (drop 0) id p = p.
Proof. by destruct p. Qed.

Lemma behind_cut k buf stream :
  (k <= length buf)%nat ->
  behind (drop k buf) stream = prod_map (drop k) id (behind buf stream).
Proof.
  intros Hk. unfold behind, prod_map. cbn. by rewrite drop_app_le.
Qed.

(** ** [PlainFrameReader] *)
Module Plain.
Record PlainFrameReader := { stream : list item; buf : bytes; done : bool }.

Definition new (s : list item) : PlainFrameReader := {| stream := s; buf := []; done := false |}.

Definition refill (r : PlainFrameReader) : res io_error PlainFrameReader :=
  if done r then Ok r
  else match buf r with
       | [] => '(b, rest, d) ← pull (stream r); Ok {| stream := rest; buf := b; done := d |}
       | _ => Ok r
       end.

(** Each pass copies at least one byte: the wanted length is fuel enough. *)
Fixpoint read_loop (fuel n : nat) (r : PlainFrameReader) : res io_error (bytes * PlainFrameReader) :=
  match n with
  | O => Ok ([], r)
  | _ =>
      match fuel with
      | O => Err OutOfFuel
      | S fuel =>
          r ← refill r;
          if done r && match buf r with [] => true | _ => false end
          then Err (UnexpectedEof "body shorter than expected")
          else
            let k := Nat.min n (length (buf r)) in
            '(rest, r') ← read_loop fuel (n - k)
              {| stream := stream r; buf := drop k (buf r); done := done r |};
            Ok (take k (buf r) ++ rest, r')
      end
  end.

Definition read_exact (r : PlainFrameReader) (n : nat) := read_loop n n r.

(** [ensure_eof]: looks at the stream, not at [buf]. *)
Fixpoint ensure_eof_stream (s : list item) : res io_error unit :=
  match s with
  | [] => Ok tt
  | Failed e :: _ => Err e
  | Data [] :: rest => ensure_eof_stream rest
  | Data _ :: _ => Err (InvalidData "body longer than expected")
  end.

Definition ensure_eof (r : PlainFrameReader) : res io_error unit := ensure_eof_stream (stream r).

(** What the reader still holds. *)
Definition rest (r : PlainFrameReader) : bytes * option io_error := behind (buf r) (stream r).
Definition inv (r : PlainFrameReader) : Prop := done r = true -> stream r = [].
Definition plain_fault (r : PlainFrameReader) : io_error :=
  default (UnexpectedEof "body shorter than expected") (snd (rest r)).

Lemma plain_refill_spec r :
  inv r ->
  (exists r', refill r = Ok r' /\ buf r' <> [] /\ rest r' = rest r /\ inv r') \/
  (exists e, refill r = Err e /\ rest r = ([], Some e)) \/
  (exists r', refill r = Ok r' /\ buf r' = [] /\ done r' = true /\ rest r = ([], None)).
Proof.
  unfold refill, inv, rest, behind. destruct r as [s [|c b] d]; cbn; intros Hinv.
  - destruct d; cbn; [rewrite Hinv by done; cbn; naive_solver|].
    destruct (pull_spec s) as [(b & t & -> & Hb & -> & _)|[(e & -> & ->)|[-> ->]]]; cbn; [|naive_solver..].
    left. eexists. split_and!; [done|done|done|done].
  - left. exists {| stream := s; buf := c :: b; done := d |}. by destruct d.
Qed.

Lemma plain_read_loop_spec fuel n r :
  inv r -> (n <= fuel)%nat ->
  if decide (n <= length (fst (rest r)))%nat
  then exists r', read_loop fuel n r = Ok (take n (fst (rest r)), r') /\ inv r' /\
         rest r' = prod_map (drop n) id (rest r)
  else read_loop fuel n r = Err (plain_fault r).
Proof.
  revert n r. induction fuel as [|fuel IH]; intros [|n] r Hinv Hn; try lia.
  1,2: rewrite decide_True by lia; exists r; rewrite take_0, prod_map_drop_0; done.
  cbn [read_loop].
  destruct (plain_refill_spec r Hinv) as [(r1 & -> & Hb & Hrest & Hinv1)|[(e & -> & He)|(r1 & -> & Hb & Hd & He)]].
  2,3: unfold plain_fault; rewrite He; cbn -[plain_fault]; by rewrite ?Hd, ?Hb.
  cbn [mbind res_bind]. rewrite <- Hrest. unfold plain_fault. rewrite <- Hrest. fold (plain_fault r1).
  destruct (buf r1) as [|c b] eqn:Eb; [done|]. rewrite andb_false_r. rewrite <- Eb. clear Hb Hrest.
  set (k := Nat.min (S n) (length (buf r1))).
  assert (1 <= k <= length (buf r1) /\ k <= S n)%nat as Hk by (subst k; rewrite Eb; cbn; lia).
  clearbody k.
  specialize (IH (S n - k) {| stream := stream r1; buf := drop k (buf r1); done := done r1 |} Hinv1).
  specialize (IH ltac:(lia)).
  assert (rest {| stream := stream r1; buf := drop k (buf r1); done := done r1 |}
          = prod_map (drop k) id (rest r1)) as Hcut by (apply behind_cut; lia).
  unfold plain_fault in IH. rewrite Hcut in IH.
  rewrite !prod_map_fst, prod_map_snd, length_drop in IH.
  assert (k <= length (fst (rest r1)))%nat as Hle.
  { unfold rest, behind. rewrite prod_map_fst, length_app. lia. }
  assert (take k (buf r1) = take k (fst (rest r1))) as ->.
  { unfold rest, behind. rewrite prod_map_fst. by rewrite take_app_le by lia. }
  case_decide; case_decide; try lia.
  - destruct IH as (r' & -> & ? & Hr'). exists r'. cbn. split_and!; [|done|].
    + do 2 f_equal. rewrite take_take_drop. f_equal. lia.
    + rewrite Hr'. unfold prod_map. cbn. rewrite drop_drop. do 2 f_equal. lia.
  - by rewrite IH.
Qed.
End Plain.

(** ** [aws_chunked::Decoder] *)
Module AwsChunked.

(** [std::str::from_utf8]: the well-formed UTF-8 sequences. *)
Definition cont (c : ascii) : bool := in_range 0x80 0xBF c.

Fixpoint utf8_valid (fuel : nat) (b : bytes) : bool :=
  match fuel, b with
  | _, [] => true
  | O, _ => false
  | S fuel, c :: b =>
      if in_range 0 0x7F c then utf8_valid fuel b
      else if in_range 0xC2 0xDF c then
        match b with c1 :: b => cont c1 && utf8_valid fuel b | _ => false end
      else if in_range 0xE0 0xEF c then
        match b with
        | c1 :: c2 :: b =>
            (if in_range 0xE0 0xE0 c then in_range 0xA0 0xBF c1
             else if in_range 0xED 0xED c then in_range 0x80 0x9F c1 else cont c1)
            && cont c2 && utf8_valid fuel b
        | _ => false
        end
      else if in_range 0xF0 0xF4 c then
        match b with
        | c1 :: c2 :: c3 :: b =>
            (if in_range 0xF0 0xF0 c then in_range 0x90 0xBF c1
             else if in_range 0xF4 0xF4 c then in_range 0x80 0x8F c1 else cont c1)
            && cont c2 && cont c3 && utf8_valid fuel b
        | _ => false
        end
      else false
  end.

Definition from_utf8 (b : bytes) : option string :=
  if utf8_valid (length b) b then Some (str_of b) else None.

(** [usize::from_str_radix(s, 16)]: an optional [+], then at least one
    hexadecimal digit, and no overflow. *)
Definition hex_val (c : ascii) : option Z :=
  if is_ascii_digit c then Some (byte_val c - 48)%Z
  else if in_range 65 70 c then Some (byte_val c - 55)%Z
  else if in_range 97 102 c then Some (byte_val c - 87)%Z
  else None.

Fixpoint hex_digits (acc : Z) (s : string) : option Z :=
  match s with
  | EmptyString => Some acc
  | String c s' =>
      match hex_val c with
      | Some d => let v := (acc * 16 + d)%Z in
                  if (v <=? u64_max)%Z then hex_digits v s' else None
      | None => None
      end
  end.

Definition from_str_radix_16 (s : string) : option Z :=
  let s' := strip_plus s in
  if is_empty s' then None else hex_digits 0 s'.

(** [line.strip_suffix(c).unwrap_or(line)] for one byte *)
Definition strip_last (c : ascii) (line : bytes) : bytes :=
  match list.last line with
  | Some x => if x =c c then removelast line else line
  | None => line
  end.

(** The bytes before the first [c]: [line.split(..).next()]. *)
Fixpoint before (c : ascii) (line : bytes) : bytes :=
  match line with
  | [] => []
  | x :: line => if x =c c then [] else x :: before c line
  end.

Definition LF : ascii := "010".
Definition CR : ascii := "013".

(** [parse_chunk_len_line] *)
Definition parse_chunk_len_line (line : bytes) : res io_error nat :=
  let line := strip_last LF line in
  let line := strip_last CR line in
  let hex_part := before ";" line in
  match hex_part with
  | [] => Err (InvalidData "aws-chunked: empty chunk size")
  | _ =>
      s ← ok_or (from_utf8 hex_part) (InvalidData "aws-chunked: non-utf8 size");
      n ← ok_or (from_str_radix_16 s) (InvalidData ("aws-chunked: invalid hex chunk size: " +:+ s)%string);
      Ok (Z.to_nat n)
  end.

Inductive State := NeedHeader | NeedData | NeedCrlf | NeedTrailers | Done.

Record Decoder := {
  stream : list item;
  buf : bytes;
  pending : bytes;
  state : State;
  remaining_in_chunk : nat;
  eof : bool;
}.

Definition new (s : list item) : Decoder := {|
  stream := s; buf := []; pending := []; state := NeedHeader; remaining_in_chunk := 0; eof := false |}.

Definition set_buf (d : Decoder) (b : bytes) : Decoder := {|
  stream := stream d; buf := b; pending := pending d; state := state d;
  remaining_in_chunk := remaining_in_chunk d; eof := eof d |}.
Definition set_pending (d : Decoder) (b : bytes) : Decoder := {|
  stream := stream d; buf := buf d; pending := b; state := state d;
  remaining_in_chunk := remaining_in_chunk d; eof := eof d |}.
Definition set_state (d : Decoder) (s : State) (n : nat) : Decoder := {|
  stream := stream d; buf := buf d; pending := pending d; state := s;
  remaining_in_chunk := n; eof := eof d |}.

Definition refill (d : Decoder) : res io_error Decoder :=
  match buf d with
  | [] =>
      if eof d then Ok d
      else '(b, rest, e) ← pull (stream d);
           Ok {| stream := rest; buf := b; pending := pending d; state := state d;
                 remaining_in_chunk := remaining_in_chunk d; eof := e |}
  | _ => Ok d
  end.

Definition at_end (d : Decoder) : bool := eof d && match buf d with [] => true | _ => false end.

(** [buf.iter().position(|&c| c == b'\n')] and [split_to(pos + 1)] *)
Fixpoint split_line (b : bytes) : option (bytes * bytes) :=
  match b with
  | [] => None
  | c :: b => if c =c LF then Some ([c], b) else prod_map (cons c) id <$> split_line b
  end.

(** [read_line]: every pass takes a frame from the stream, so its length is
    fuel enough. *)
Fixpoint read_line_loop (fuel : nat) (scratch : bytes) (d : Decoder) : res io_error (bytes * Decoder) :=
  match split_line (buf d) with
  | Some (line, rest) => Ok (scratch ++ line, set_buf d rest)
  | None =>
      match fuel with
      | O => Err OutOfFuel
      | S fuel =>
          let scratch := scratch ++ buf d in
          d ← refill (set_buf d []);
          if at_end d then Err (UnexpectedEof "aws-chunked: unexpected EOF while reading line")
          else read_line_loop fuel scratch d
      end
  end.

Definition read_line (d : Decoder) : res io_error (bytes * Decoder) :=
  read_line_loop (S (length (stream d))) [] d.

(** [consume_exact]: every pass consumes at least one byte of [need]. *)
Fixpoint consume_exact_loop (fuel : nat) (need : bytes) (d : Decoder) : res io_error Decoder :=
  match need with
  | [] => Ok d
  | _ =>
      match fuel with
      | O => Err OutOfFuel
      | S fuel =>
          d ← refill d;
          if at_end d then Err (UnexpectedEof "aws-chunked: unexpected EOF while consuming CRLF")
          else
            let k := Nat.min (length need) (length (buf d)) in
            if bool_decide (take k (buf d) = take k need)
            then consume_exact_loop fuel (drop k need) (set_buf d (drop k (buf d)))
            else Err (InvalidData "aws-chunked: missing/invalid CRLF")
      end
  end.

Definition consume_exact (need : bytes) (d : Decoder) : res io_error Decoder :=
  consume_exact_loop (length need) need d.

(** [read_trailers_until_blank]: every line has at least one byte. *)
Definition rest (d : Decoder) : bytes * option io_error := behind (buf d) (stream d).

Fixpoint trailers_loop (fuel : nat) (d : Decoder) : res io_error Decoder :=
  match fuel with
  | O => Err OutOfFuel
  | S fuel =>
      '(line, d) ← read_line d;
      if bool_decide (line = [LF]) || bool_decide (line = [CR; LF]) then Ok d
      else trailers_loop fuel d
  end.

Definition read_trailers_until_blank (d : Decoder) : res io_error Decoder :=
  trailers_loop (S (length (fst (rest d)))) d.

(** [next_payload_raw]: from any state at most four transitions lead to data
    or to the end, so five passes are fuel enough. *)
Fixpoint next_payload_loop (fuel : nat) (d : Decoder) : res io_error (option bytes * Decoder) :=
  match fuel with
  | O => Err OutOfFuel
  | S fuel =>
      match state d with
      | Done => Ok (None, d)
      | NeedHeader =>
          '(line, d) ← read_line d;
          n ← parse_chunk_len_line line;
          if n =? 0 then next_payload_loop fuel (set_state d NeedTrailers (remaining_in_chunk d))
          else next_payload_loop fuel (set_state d NeedData n)
      | NeedData =>
          if remaining_in_chunk d =? 0
          then next_payload_loop fuel (set_state d NeedCrlf (remaining_in_chunk d))
          else
            d ← refill d;
            if at_end d then Err (UnexpectedEof "aws-chunked: unexpected EOF in chunk data")
            else
              let k := Nat.min (remaining_in_chunk d) (length (buf d)) in
              let out := take k (buf d) in
              let d' := set_state (set_buf d (drop k (buf d))) NeedData (remaining_in_chunk d - k) in
              match out with
              | [] => next_payload_loop fuel d'
              | _ => Ok (Some out, d')
              end
      | NeedCrlf =>
          d ← consume_exact [CR; LF] d;
          next_payload_loop fuel (set_state d NeedHeader (remaining_in_chunk d))
      | NeedTrailers =>
          d ← read_trailers_until_blank d;
          Ok (None, set_state d Done (remaining_in_chunk d))
      end
  end.

Definition next_payload_raw (d : Decoder) := next_payload_loop 5 d.

(** [read_exact_payload]: every pass copies at least one byte. *)
Fixpoint read_loop (fuel n : nat) (d : Decoder) : res io_error (bytes * Decoder) :=
  match n with
  | O => Ok ([], d)
  | _ =>
      match fuel with
      | O => Err OutOfFuel
      | S fuel =>
          match pending d with
          | _ :: _ =>
              let k := Nat.min n (length (pending d)) in
              '(rest, d') ← read_loop fuel (n - k) (set_pending d (drop k (pending d)));
              Ok (take k (pending d) ++ rest, d')
          | [] =>
              '(o, d) ← next_payload_raw d;
              match o with
              | None => Err (UnexpectedEof "aws-chunked: decoded payload shorter than expected")
              | Some [] => read_loop fuel n d
              | Some b =>
                  let k := Nat.min n (length b) in
                  let d := if k <? length b then set_pending d (drop k b) else d in
                  '(rest, d') ← read_loop fuel (n - k) d;
                  Ok (take k b ++ rest, d')
              end
          end
      end
  end.

Definition read_exact (d : Decoder) (n : nat) := read_loop n n d.

(** [drain_to_eof]: discards the rest of the stream. *)
Fixpoint drain_stream (s : list item) : res io_error unit :=
  match s with
  | [] => Ok tt
  | Failed e :: _ => Err e
  | Data _ :: rest => drain_stream rest
  end.

Definition drain_to_eof (d : Decoder) : res io_error unit := drain_stream (stream d).

(** *** The decoder on the unframed bytes

    The reference decoder works on the bytes of the whole body, [fin] being
    the failure after them; it returns the payload and what a reader meets
    past it. *)
Definition eof_err (fin : option io_error) (m : string) : io_error := default (UnexpectedEof m) fin.

Fixpoint flat_trailers (fuel : nat) (fin : option io_error) (b : bytes) : res io_error bytes :=
  match split_line b with
  | None => Err (eof_err fin "aws-chunked: unexpected EOF while reading line")
  | Some (line, b) =>
      if bool_decide (line = [LF]) || bool_decide (line = [CR; LF]) then Ok b
      else match fuel with
           | O => Err OutOfFuel
           | S fuel => flat_trailers fuel fin b
           end
  end.

Definition short_payload : io_error :=
  UnexpectedEof "aws-chunked: decoded payload shorter than expected".

Definition flat_end (fin : option io_error) (b : bytes) : bytes * io_error :=
  match flat_trailers (length b) fin b with
  | Err e => ([], e)
  | _ => ([], short_payload)
  end.

Fixpoint flat_consume (need : bytes) (fin : option io_error) (b : bytes) : res io_error bytes :=
  match need, b with
  | [], _ => Ok b
  | _, [] => Err (eof_err fin "aws-chunked: unexpected EOF while consuming CRLF")
  | x :: need, y :: b =>
      if x =c y then flat_consume need fin b else Err (InvalidData "aws-chunked: missing/invalid CRLF")
  end.

Definition flat_crlf (k : bytes -> bytes * io_error) (fin : option io_error) (b : bytes) : bytes * io_error :=
  match flat_consume [CR; LF] fin b with
  | Ok b => k b
  | Err e => ([], e)
  | Panics => ([], OutOfFuel)
  end.

Definition flat_data (k : bytes -> bytes * io_error) (fin : option io_error) (n : nat) (b : bytes)
    : bytes * io_error :=
  if length b <? n then (b, eof_err fin "aws-chunked: unexpected EOF in chunk data")
  else prod_map (app (take n b)) id (flat_crlf k fin (drop n b)).

(** A chunk is at least one byte: the number of bytes is fuel enough. *)
Fixpoint flat_chunks (fuel : nat) (fin : option io_error) (b : bytes) : bytes * io_error :=
  match split_line b with
  | None => ([], eof_err fin "aws-chunked: unexpected EOF while reading line")
  | Some (line, b) =>
      match parse_chunk_len_line line with
      | Ok n =>
          if n =? 0 then flat_end fin b
          else match fuel with
               | O => ([], OutOfFuel)
               | S fuel => flat_data (flat_chunks fuel fin) fin n b
               end
      | Err e => ([], e)
      | Panics => ([], OutOfFuel)
      end
  end.

Definition flat_decode (fin : option io_error) (b : bytes) : bytes * io_error :=
  flat_chunks (length b) fin b.

(** What a decoder in any state still delivers from [b]. *)
Definition decode_from (st : State) (n : nat) (fin : option io_error) (b : bytes) : bytes * io_error :=
  match st with
  | NeedHeader => flat_decode fin b
  | NeedData => flat_data (flat_decode fin) fin n b
  | NeedCrlf => flat_crlf (flat_decode fin) fin b
  | NeedTrailers => flat_end fin b
  | Done => ([], short_payload)
  end.

Definition decoded (d : Decoder) : bytes * io_error :=
  decode_from (state d) (remaining_in_chunk d) (snd (rest d)) (fst (rest d)).

(** *** Fuel *)
Lemma split_line_some b line r :
  split_line b = Some (line, r) -> b = line ++ r /\ (1 <= length line)%nat.
Proof.
  revert line. induction b as [|c b IH]; intros line; cbn; [done|].
  case_match; [naive_solver|]. destruct (split_line b) as [[l' r']|]; [|done].
  cbn. intros [= <- <-]. destruct (IH l' eq_refl) as [-> ?]. cbn. split; [done|lia].
Qed.

Lemma flat_consume_length need fin b r :
  flat_consume need fin b = Ok r -> length b = (length need + length r)%nat.
Proof.
  revert b. induction need as [|x need IH]; intros [|y b]; cbn; try naive_solver.
  case_match; [|done]. intros Hc%IH. lia.
Qed.

Lemma flat_chunks_fuel fuel fin b :
  (length b <= fuel)%nat -> flat_chunks fuel fin b = flat_decode fin b.
Proof.
  unfold flat_decode. remember (length b) as m eqn:Em.
  assert (length b <= m)%nat as Hm by lia. clear Em.
  revert fuel b Hm. induction m as [m IH] using lt_wf_ind; intros fuel b Hm Hf.
  destruct fuel as [|fuel], m as [|m]; [done| | |]; try lia;
    cbn [flat_chunks]; destruct (split_line b) as [[line r]|] eqn:E; try done;
    apply split_line_some in E as [-> Hl]; rewrite length_app in Hm; try lia.
  destruct (parse_chunk_len_line line) as [n| |]; [|done..]. case_match; [done|].
  unfold flat_data, flat_crlf. case_match; [done|]. f_equal.
  destruct (flat_consume _ _ _) as [r'| |] eqn:Ec; [|done..].
  apply flat_consume_length in Ec. rewrite length_drop in Ec. cbn in Ec.
  rewrite (IH (length r')), (IH (length r') ltac:(lia) m) by lia. done.
Qed.

Lemma flat_trailers_fuel fuel fin b :
  (length b <= fuel)%nat -> flat_trailers fuel fin b = flat_trailers (length b) fin b.
Proof.
  remember (length b) as m eqn:Em.
  assert (length b <= m)%nat as Hm by lia. clear Em.
  revert fuel b Hm. induction m as [m IH] using lt_wf_ind; intros fuel b Hm Hf.
  destruct fuel as [|fuel], m as [|m]; [done| | |]; try lia;
    cbn [flat_trailers]; destruct (split_line b) as [[line r]|] eqn:E; try done;
    apply split_line_some in E as [-> Hl]; rewrite length_app in Hm; try lia.
  case_match; [done|].
  rewrite (IH (length r)), (IH (length r) ltac:(lia) m) by lia. done.
Qed.

(** *** Refinement: framing does not matter *)
Definition inv (d : Decoder) : Prop := eof d = true -> stream d = [].

(** Two decoders in the same place of the protocol. *)
Definition same_place (d d' : Decoder) : Prop :=
  pending d' = pending d /\ state d' = state d /\ remaining_in_chunk d' = remaining_in_chunk d.

Lemma set_buf_same d b : same_place d (set_buf d b).
Proof. done. Qed.

Lemma same_place_trans d1 d2 d3 : same_place d1 d2 -> same_place d2 d3 -> same_place d1 d3.
Proof. unfold same_place. intuition congruence. Qed.

Lemma refill_spec d :
  inv d ->
  (exists d', refill d = Ok d' /\ at_end d' = false /\ buf d' <> [] /\ rest d' = rest d /\ inv d' /\
     same_place d d' /\ (buf d = [] -> length (stream d') < length (stream d))%nat) \/
  (exists e, refill d = Err e /\ rest d = ([], Some e)) \/
  (exists d', refill d = Ok d' /\ at_end d' = true /\ rest d = ([], None)).
Proof.
  unfold refill, inv, rest, behind, at_end, same_place.
  destruct d as [s [|c b] pd st rm e]; cbn; intros Hinv.
  - destruct e; cbn; [rewrite Hinv by done; cbn; naive_solver|].
    destruct (pull_spec s) as [(b & t & -> & Hb & -> & ?)|[(e & -> & ->)|[-> ->]]]; cbn; [|naive_solver..].
    left. eexists. by split_and!.
  - left. eexists. split_and!; cbn; [done|by destruct e|done..].
Qed.

Lemma split_line_app_none a b :
  split_line a = None -> split_line (a ++ b) = prod_map (app a) id <$> split_line b.
Proof.
  induction a as [|c a IH]; cbn [split_line app].
  - intros _. by destruct (split_line b) as [[]|].
  - case_match; [done|]. destruct (split_line a); [done|]. intros _. rewrite IH by done.
    by destruct (split_line b) as [[]|].
Qed.

Lemma split_line_app_some a b l r :
  split_line a = Some (l, r) -> split_line (a ++ b) = Some (l, r ++ b).
Proof.
  revert l. induction a as [|c a IH]; intros l; cbn [split_line app]; [done|].
  case_match; [naive_solver|]. destruct (split_line a) as [[l' r']|]; [|done].
  intros [= <- <-]. by rewrite (IH l' eq_refl).
Qed.

Lemma read_line_loop_spec fuel scratch d :
  inv d -> (length (stream d) < fuel)%nat ->
  match split_line (fst (rest d)) with
  | Some (line, r) =>
      exists d', read_line_loop fuel scratch d = Ok (scratch ++ line, d') /\
        rest d' = (r, snd (rest d)) /\ inv d' /\ same_place d d'
  | None => read_line_loop fuel scratch d
            = Err (eof_err (snd (rest d)) "aws-chunked: unexpected EOF while reading line")
  end.
Proof.
  revert scratch d. induction fuel as [|fuel IH]; intros scratch d Hinv Hf; [lia|].
  cbn [read_line_loop]. destruct (split_line (buf d)) as [[line r]|] eqn:El.
  - unfold rest, behind. rewrite prod_map_fst, prod_map_snd, (split_line_app_some _ _ _ _ El).
    eexists. split_and!; [done|done|done|apply set_buf_same].
  - unfold rest, behind. rewrite prod_map_fst, prod_map_snd, (split_line_app_none _ _ El).
    change (flat (stream d)) with (flat (stream (set_buf d []))).
    assert (flat (stream (set_buf d [])) = rest (set_buf d [])) as -> by (unfold rest, behind; by destruct (flat _)).
    destruct (refill_spec (set_buf d [])) as
      [(d1 & -> & He & Hb & <- & Hinv1 & Hsame & Hlt)|[(e & -> & ->)|(d1 & -> & He & ->)]]; [done| | |];
      cbn [mbind res_bind]; [|done|by rewrite He].
    rewrite He. specialize (Hlt eq_refl). specialize (IH (scratch ++ buf d) d1 Hinv1). cbn in Hlt.
    specialize (IH ltac:(lia)). destruct (split_line (fst (rest d1))) as [[line r]|]; [|done].
    destruct IH as (d' & -> & ? & ? & ?). exists d'. cbn. rewrite <- app_assoc. split_and!; try done.
    by apply (same_place_trans _ d1).
Qed.

Lemma read_line_spec d :
  inv d ->
  match split_line (fst (rest d)) with
  | Some (line, r) =>
      exists d', read_line d = Ok (line, d') /\
        rest d' = (r, snd (rest d)) /\ inv d' /\ same_place d d'
  | None => read_line d
            = Err (eof_err (snd (rest d)) "aws-chunked: unexpected EOF while reading line")
  end.
Proof. intros. apply (read_line_loop_spec _ []); [done|lia]. Qed.

Lemma trailers_loop_spec fuel d :
  inv d -> (length (fst (rest d)) < fuel)%nat ->
  match flat_trailers (length (fst (rest d))) (snd (rest d)) (fst (rest d)) with
  | Ok _ => exists d', trailers_loop fuel d = Ok d' /\ inv d' /\ same_place d d'
  | Err e => trailers_loop fuel d = Err e
  | Panics => False
  end.
Proof.
  revert d. induction fuel as [|fuel IH]; intros d Hinv Hf; [lia|].
  rewrite <- (flat_trailers_fuel fuel) by lia. pose proof (read_line_spec d Hinv) as Hl.
  cbn [trailers_loop]. destruct fuel as [|fuel].
  - destruct (fst (rest d)) eqn:Er; [|cbn in Hf; lia]. cbn in *. by rewrite Hl.
  - cbn [flat_trailers]. destruct (split_line (fst (rest d))) as [[line r]|] eqn:El; [|by rewrite Hl].
    destruct Hl as (d1 & -> & Hr & Hinv1 & Hsame). cbn [mbind res_bind].
    apply split_line_some in El as [El Hlen]. rewrite El, length_app in Hf.
    destruct (bool_decide _ || bool_decide _); [by exists d1|].
    specialize (IH d1 Hinv1). rewrite Hr in IH. cbn [fst snd] in IH.
    specialize (IH ltac:(lia)). rewrite <- (flat_trailers_fuel fuel) in IH by lia.
    destruct (flat_trailers fuel _ r); try done.
    destruct IH as (d' & -> & ? & ?). exists d'. split_and!; try done. by apply (same_place_trans _ d1).
Qed.

(** A prefix compared at once or byte by byte. *)
Lemma flat_consume_prefix k need fin b b' :
  (k <= length need)%nat -> (k <= length b)%nat ->
  flat_consume need fin (b ++ b') =
    if bool_decide (take k b = take k need) then flat_consume (drop k need) fin (drop k b ++ b')
    else Err (InvalidData "aws-chunked: missing/invalid CRLF").
Proof.
  revert need b. induction k as [|k IH]; intros [|x need] [|y b] Hn Hb; cbn in Hn, Hb; try lia;
    rewrite ?bool_decide_true by done; try done.
  cbn [flat_consume take drop app]. destruct (Ascii.eqb_spec x y) as [->|Hne].
  - rewrite IH by lia.
    assert (y :: take k b = y :: take k need <-> take k b = take k need) as Hiff by (split; congruence).
    by rewrite (bool_decide_ext _ _ Hiff).
  - rewrite bool_decide_false; naive_solver.
Qed.

Lemma consume_exact_loop_spec fuel need d :
  inv d -> (length need <= fuel)%nat ->
  match flat_consume need (snd (rest d)) (fst (rest d)) with
  | Ok r => exists d', consume_exact_loop fuel need d = Ok d' /\
              rest d' = (r, snd (rest d)) /\ inv d' /\ same_place d d'
  | Err e => consume_exact_loop fuel need d = Err e
  | Panics => False
  end.
Proof.
  revert need d. induction fuel as [|fuel IH]; intros [|x need] d Hinv Hf; cbn in Hf; try lia.
  1,2: exists d; split_and!; [done|by destruct (rest d)|done|done].
  cbn [consume_exact_loop].
  destruct (refill_spec d Hinv) as
    [(d1 & -> & He & Hb & <- & Hinv1 & Hsame & _)|[(e & -> & ->)|(d1 & -> & He & ->)]];
    cbn [mbind res_bind]; [|done|by rewrite He].
  rewrite He. set (k := Nat.min _ _).
  assert (1 <= k <= length (buf d1) /\ k <= length (x :: need))%nat as Hk.
  { subst k. destruct (buf d1); [done|]. cbn. lia. }
  clearbody k. unfold rest at 2. unfold behind. rewrite prod_map_fst.
  rewrite (flat_consume_prefix k) by lia. case_bool_decide; [|done].
  specialize (IH (drop k (x :: need)) (set_buf d1 (drop k (buf d1))) Hinv1).
  rewrite length_drop in IH. cbn [length] in IH, Hk. specialize (IH ltac:(lia)).
  unfold rest at 1 2 in IH. unfold behind in IH. rewrite prod_map_fst, prod_map_snd in IH. cbn [buf stream set_buf] in IH.
  unfold rest at 1 2, behind. rewrite prod_map_snd.
  destruct (flat_consume _ _ _); try done.
  destruct IH as (d' & -> & Hr & ? & ?). exists d'. split_and!; [done|done|done|].
  by apply (same_place_trans _ (set_buf d1 (drop k (buf d1)))).
Qed.

(** What one call of [next_payload_raw] does to the decoded payload. *)
Definition next_ok (d : Decoder) (r : res io_error (option bytes * Decoder)) : Prop :=
  (exists b d', r = Ok (Some b, d') /\ b <> [] /\ inv d' /\ pending d' = pending d /\
     decoded d = prod_map (app b) id (decoded d')) \/
  (fst (decoded d) = [] /\ r = Err (snd (decoded d))) \/
  (exists d', r = Ok (None, d') /\ decoded d = ([], short_payload)).

(** A transition that leaves the decoded payload and [pending] unchanged. *)
Lemma next_ok_step d d' r :
  decoded d = decoded d' -> pending d' = pending d -> next_ok d' r -> next_ok d r.
Proof. unfold next_ok. intros -> ->. done. Qed.

Lemma flat_data_cut k kont fin n b :
  (k <= length b)%nat -> (k <= n)%nat ->
  flat_data kont fin n b = prod_map (app (take k b)) id (flat_data kont fin (n - k) (drop k b)).
Proof.
  intros Hb Hn. unfold flat_data. rewrite length_drop, drop_drop.
  replace (k + (n - k))%nat with n by lia.
  destruct (Nat.ltb_spec (length b) n), (Nat.ltb_spec (length b - k) (n - k)); try lia;
    unfold prod_map; cbn [fst snd id].
  - by rewrite take_drop.
  - rewrite app_assoc, take_take_drop. by replace (k + (n - k))%nat with n by lia.
Qed.

Lemma next_data fuel d :
  inv d -> state d = NeedData -> remaining_in_chunk d <> 0%nat ->
  next_ok d (next_payload_loop (S fuel) d).
Proof.
  intros Hinv Hst Hrm. cbn [next_payload_loop]. rewrite Hst, (proj2 (Nat.eqb_neq _ _)) by done.
  destruct (refill_spec d Hinv) as
    [(d1 & -> & He & Hb & Hrest & Hinv1 & (Hp & Hs & Hr) & _)|[(e & -> & Hrest)|(d1 & -> & He & Hrest)]];
    cbn [mbind res_bind].
  - rewrite He. cbv zeta. rewrite Hr. set (k := Nat.min _ _).
    assert (1 <= k <= length (buf d1) /\ k <= remaining_in_chunk d)%nat as Hk.
    { subst k. destruct (buf d1); [done|]. cbn. lia. }
    clearbody k. destruct (take k (buf d1)) as [|c t] eqn:Et.
    { apply (f_equal length) in Et. rewrite length_take in Et. cbn in Et. lia. }
    rewrite <- Et. left. eexists _, _. split_and!; [done|by rewrite Et|done|done|].
    unfold decoded, decode_from. rewrite Hst, <- Hrest. cbn [set_state set_buf state remaining_in_chunk].
    assert (rest (set_state (set_buf d1 (drop k (buf d1))) NeedData (remaining_in_chunk d - k))
            = prod_map (drop k) id (rest d1)) as -> by (apply behind_cut; lia).
    rewrite prod_map_fst, prod_map_snd.
    assert (take k (buf d1) = take k (fst (rest d1))) as ->.
    { unfold rest, behind. rewrite prod_map_fst. by rewrite take_app_le by lia. }
    apply flat_data_cut; [|lia]. unfold rest, behind. rewrite prod_map_fst, length_app. lia.
  - right; left. unfold decoded, decode_from. rewrite Hst, Hrest. unfold flat_data. cbn.
    destruct (remaining_in_chunk d); done.
  - rewrite He. right; left. unfold decoded, decode_from. rewrite Hst, Hrest. unfold flat_data. cbn.
    destruct (remaining_in_chunk d); done.
Qed.

Lemma flat_data_zero kont fin b : flat_data kont fin 0 b = flat_crlf kont fin b.
Proof. unfold flat_data. rewrite take_0, drop_0. by destruct (flat_crlf kont fin b). Qed.

Lemma next_trailers fuel d :
  inv d -> state d = NeedTrailers -> next_ok d (next_payload_loop (S fuel) d).
Proof.
  intros Hinv Hst. cbn [next_payload_loop]. rewrite Hst. unfold read_trailers_until_blank.
  pose proof (trailers_loop_spec (S (length (fst (rest d)))) d Hinv ltac:(lia)) as Ht.
  assert (decoded d = flat_end (snd (rest d)) (fst (rest d))) as Hd by (unfold decoded; by rewrite Hst).
  unfold next_ok. rewrite Hd. unfold flat_end. destruct (flat_trailers _ _ _); [| |done].
  - destruct Ht as (d' & -> & _). cbn. right; right. eauto.
  - rewrite Ht. right; left. done.
Qed.

Lemma next_header fuel d :
  inv d -> state d = NeedHeader -> next_ok d (next_payload_loop (S (S fuel)) d).
Proof.
  intros Hinv Hst. remember (S fuel) as f1 eqn:Ef. cbn [next_payload_loop]. rewrite Hst.
  pose proof (read_line_spec d Hinv) as Hl.
  assert (decoded d = flat_decode (snd (rest d)) (fst (rest d))) as Hd by (unfold decoded; by rewrite Hst).
  unfold flat_decode in Hd.
  destruct (split_line (fst (rest d))) as [[line r]|] eqn:El.
  2:{ rewrite Hl. right; left. rewrite Hd. destruct (fst (rest d)); cbn [length flat_chunks]; by rewrite El. }
  destruct Hl as (d1 & -> & Hr & Hinv1 & (Hp & Hs & Hrm)). cbn [mbind res_bind].
  pose proof (split_line_some _ _ _ El) as [Eb Hlen].
  destruct (length (fst (rest d))) as [|m] eqn:Em; [rewrite Eb, length_app in Em; lia|].
  cbn [flat_chunks] in Hd. rewrite El in Hd.
  destruct (parse_chunk_len_line line) as [n|e|] eqn:En; cbn [mbind res_bind].
  - destruct (Nat.eqb_spec n 0) as [->|Hn]; subst f1.
    + apply (next_ok_step _ (set_state d1 NeedTrailers (remaining_in_chunk d1))); [|done|].
      * rewrite Hd. unfold decoded. cbn [decode_from state set_state]. change (rest (set_state _ _ _)) with (rest d1).
        by rewrite Hr.
      * by apply next_trailers.
    + apply (next_ok_step _ (set_state d1 NeedData n)); [|done|by apply next_data].
      rewrite Hd. unfold decoded. cbn [decode_from state set_state remaining_in_chunk].
      change (rest (set_state _ _ _)) with (rest d1). rewrite Hr. cbn [fst snd].
      unfold flat_data, flat_crlf. case_match; [done|]. f_equal.
      destruct (flat_consume _ _ _) as [r'| |] eqn:Ec; [|done..].
      apply flat_chunks_fuel. apply flat_consume_length in Ec. rewrite length_drop in Ec.
      rewrite Eb, length_app in Em. cbn in Ec. lia.
  - right; left. by rewrite Hd.
  - exfalso. revert En. unfold parse_chunk_len_line. case_match; [done|].
    destruct (from_utf8 _); cbn; [|done]. by destruct (from_str_radix_16 _).
Qed.

Lemma next_crlf fuel d :
  inv d -> state d = NeedCrlf -> next_ok d (next_payload_loop (S (S (S fuel))) d).
Proof.
  intros Hinv Hst. remember (S (S fuel)) as f2 eqn:Ef. cbn [next_payload_loop]. rewrite Hst.
  assert (decoded d = flat_crlf (flat_decode (snd (rest d))) (snd (rest d)) (fst (rest d))) as Hd
    by (unfold decoded; by rewrite Hst).
  unfold consume_exact. pose proof (consume_exact_loop_spec _ [CR; LF] d Hinv (Nat.le_refl _)) as Hc.
  unfold flat_crlf in Hd. destruct (flat_consume _ _ _) as [r|e|]; [| |done].
  - destruct Hc as (d1 & -> & Hr & Hinv1 & (Hp & Hs & Hrm)). cbn [mbind res_bind]. subst f2.
    apply (next_ok_step _ (set_state d1 NeedHeader (remaining_in_chunk d1))); [|done|by apply next_header].
    rewrite Hd. unfold decoded. cbn [decode_from state set_state].
    change (rest (set_state _ _ _)) with (rest d1). by rewrite Hr.
  - rewrite Hc. right; left. by rewrite Hd.
Qed.

Lemma next_payload_raw_spec d : inv d -> next_ok d (next_payload_raw d).
Proof.
  intros Hinv. unfold next_payload_raw. destruct (state d) eqn:Hst.
  - by apply next_header.
  - destruct (decide (remaining_in_chunk d = 0%nat)) as [H0|]; [|by apply next_data].
    remember 4%nat as f eqn:Ef. cbn [next_payload_loop]. rewrite Hst, H0. cbn [Nat.eqb]. subst f.
    apply (next_ok_step _ (set_state d NeedCrlf 0)); [|done|by apply next_crlf].
    unfold decoded, decode_from. rewrite Hst, H0. cbn [state set_state]. apply flat_data_zero.
  - by apply next_crlf.
  - by apply next_trailers.
  - right; right. exists d. unfold decoded. cbn. by rewrite Hst.
Qed.

(** What the decoder still delivers, with what is already decoded. *)
Definition chunked_payload (d : Decoder) : bytes * io_error :=
  prod_map (app (pending d)) id (decoded d).

Lemma decoded_set_pending d b : decoded (set_pending d b) = decoded d.
Proof. done. Qed.

(** Delivering [b] first and then reading on. *)
Lemma read_split n k (b rest : bytes) (e : io_error) d (r : res io_error (bytes * Decoder)) :
  (1 <= k <= length b)%nat -> k = Nat.min n (length b) ->
  (if decide (n - k <= length (drop k b ++ rest))%nat
   then exists d', r = Ok (take (n - k) (drop k b ++ rest), d') /\ inv d' /\
          chunked_payload d' = (drop (n - k) (drop k b ++ rest), e)
   else r = Err e) ->
  d = (b ++ rest, e) ->
  if decide (n <= length (fst d))%nat
  then exists d', ('(t, d') ← r; Ok (take k b ++ t, d')) = Ok (take n (fst d), d') /\ inv d' /\
         chunked_payload d' = prod_map (drop n) id d
  else ('(t, d') ← r; Ok (take k b ++ t, d')) = Err (snd d).
Proof.
  intros Hk Hmin Hr ->. cbn [fst snd]. rewrite <- drop_app_le in Hr by lia.
  rewrite length_drop in Hr. rewrite length_app in *.
  case_decide; case_decide; try lia.
  - destruct Hr as (d' & -> & ? & Hd'). exists d'. cbn. split_and!; [|done|].
    + do 2 f_equal. rewrite <- (take_app_le b rest k) by lia. rewrite take_take_drop. f_equal. lia.
    + rewrite Hd'. unfold prod_map. cbn. rewrite drop_drop. do 2 f_equal. lia.
  - by rewrite Hr.
Qed.

Lemma read_loop_spec fuel n d :
  inv d -> (n <= fuel)%nat ->
  if decide (n <= length (fst (chunked_payload d)))%nat
  then exists d', read_loop fuel n d = Ok (take n (fst (chunked_payload d)), d') /\ inv d' /\
         chunked_payload d' = prod_map (drop n) id (chunked_payload d)
  else read_loop fuel n d = Err (snd (chunked_payload d)).
Proof.
  revert n d. induction fuel as [|fuel IH]; intros [|n] d Hinv Hn; try lia.
  1,2: rewrite decide_True by lia; exists d; rewrite take_0, prod_map_drop_0; done.
  cbn [read_loop]. destruct (pending d) as [|c b] eqn:Ep.
  - destruct (next_payload_raw_spec d Hinv) as
      [(b & d1 & -> & Hb & Hinv1 & Hp1 & Hd)|[[Hd ->]|(d1 & -> & Hd)]]; cbn [mbind res_bind].
    + destruct b as [|c b]; [done|]. set (out := c :: b) in *.
      assert (chunked_payload d = prod_map (app out) id (decoded d1)) as Hcp.
      { unfold chunked_payload. rewrite Ep, Hd. by destruct (decoded d1). }
      destruct (decoded d1) as [rest e] eqn:Edec.
      apply (read_split (S n) _ out rest e); [cbn; lia|done| |done].
      set (k := Nat.min (S n) (length out)). set (d2 := if k <? length out then _ else _).
      assert (inv d2 /\ chunked_payload d2 = (drop k out ++ rest, e)) as [Hinv2 Hcp2].
      { subst d2. unfold chunked_payload. destruct (Nat.ltb_spec k (length out)).
        - rewrite decoded_set_pending, Edec. done.
        - rewrite Hp1, Ep, Edec, (drop_ge out) by lia. done. }
      specialize (IH (S n - k) d2 Hinv2). rewrite Hcp2 in IH. cbn [fst snd] in IH.
      apply IH. subst k out. cbn. lia.
    + unfold chunked_payload. rewrite Ep. rewrite decide_False; [done|].
      rewrite prod_map_fst, Hd. cbn. lia.
    + unfold chunked_payload. rewrite Ep, Hd. cbn. done.
  - destruct (decoded d) as [rest e] eqn:Edec. rewrite <- Ep.
    apply (read_split (S n) _ (pending d) rest e); [rewrite Ep; cbn; lia|done| |].
    2:{ unfold chunked_payload. by rewrite Edec. }
    set (k := Nat.min (S n) (length (pending d))). set (d2 := set_pending d _).
    assert (chunked_payload d2 = (drop k (pending d) ++ rest, e)) as Hcp2.
    { unfold chunked_payload. subst d2. by rewrite decoded_set_pending, Edec. }
    specialize (IH (S n - k) d2 Hinv). rewrite Hcp2 in IH. cbn [fst snd] in IH.
    apply IH. subst k. rewrite Ep. cbn. lia.
Qed.
(** A fresh decoder over any framing. *)
Lemma decoded_new s : chunked_payload (new s) = flat_decode (snd (flat s)) (fst (flat s)).
Proof.
  unfold chunked_payload, decoded, rest, behind. cbn [new pending state buf stream remaining_in_chunk decode_from].
  assert (prod_map (app []) id (flat s) = flat s) as -> by by destruct (flat s).
  by destruct (flat_decode _ _).
Qed.

End AwsChunked.

(** ** The two sources implement the interface *)
#[global] Instance plain_source : PayloadSource Plain.PlainFrameReader := {|
  read_exact_payload := Plain.read_exact;
  finish := Plain.ensure_eof;
  source_ok := Plain.inv;
  payload r := fst (Plain.rest r);
  fault := Plain.plain_fault;
|}.

#[global] Instance plain_source_laws : PayloadSourceLaws Plain.PlainFrameReader.
Proof.
  split; intros r n Hinv Hn; pose proof (Plain.plain_read_loop_spec n n r Hinv (Nat.le_refl n)) as H; cbn in *.
  - rewrite decide_True in H by done. destruct H as (r' & ? & ? & Hr). exists r'.
    split_and!; [done|done|by rewrite Hr|]. unfold Plain.plain_fault. by rewrite Hr.
  - rewrite decide_False in H by lia. done.
Qed.

#[global] Instance aws_source : PayloadSource AwsChunked.Decoder := {|
  read_exact_payload := AwsChunked.read_exact;
  finish := AwsChunked.drain_to_eof;
  source_ok := AwsChunked.inv;
  payload d := fst (AwsChunked.chunked_payload d);
  fault d := snd (AwsChunked.chunked_payload d);
|}.

#[global] Instance aws_source_laws : PayloadSourceLaws AwsChunked.Decoder.
Proof.
  split; intros d n Hinv Hn; pose proof (AwsChunked.read_loop_spec n n d Hinv (Nat.le_refl n)) as H; cbn in *.
  - rewrite decide_True in H by done. destruct H as (d' & ? & ? & Hr). exists d'.
    split_and!; [done|done|by rewrite Hr|by rewrite Hr].
  - rewrite decide_False in H by lia. done.
Qed.

(** ** Properties *)

(** C26. Framing does not matter: whatever frames a body arrives in (empty
    ones and one-byte ones included), reading [n] payload bytes from a fresh
    decoder gives the first [n] bytes that the reference decoder finds in
    the unframed body, and, when there are fewer, fails with the error the
    reference decoder meets; the loops always terminate. *)
Theorem aws_chunked_framing_independent (s : list item) (n : nat) :
  let '(p, e) := AwsChunked.flat_decode (snd (flat s)) (fst (flat s)) in
  match AwsChunked.read_exact (AwsChunked.new s) n with
  | Ok (b, _) => (n <= length p)%nat /\ b = take n p
  | Err e' => (length p < n)%nat /\ e' = e
  | Panics => False
  end.
Proof.
  pose proof (AwsChunked.read_loop_spec n n (AwsChunked.new s) ltac:(done) (Nat.le_refl n)) as H.
  rewrite AwsChunked.decoded_new in H. destruct (AwsChunked.flat_decode _ _) as [p e]. cbn [fst snd] in H.
  unfold AwsChunked.read_exact. case_decide; [by destruct H as (d' & -> & _)|]. rewrite H. split; [lia|done].
Qed.

(** [ensure_eof] looks only at frames not yet pulled: payload bytes left
    in the current frame go unnoticed, so an upload whose body is longer than
    announced but arrives in one frame is accepted, while the same surplus in
    a second frame is refused. *)
Theorem plain_surplus_same_frame (b : bytes) (n : nat) :
  (1 <= n <= length b)%nat ->
  exists r, Plain.read_exact (Plain.new [Data b]) n = Ok (take n b, r) /\
    Plain.rest r = (drop n b, None) /\ Plain.ensure_eof r = Ok tt /\
    forall c t, exists r', Plain.read_exact (Plain.new [Data b; Data (c :: t)]) n = Ok (take n b, r') /\
      Plain.ensure_eof r' = Err (InvalidData "body longer than expected").
Proof.
  intros Hn. destruct n as [|n]; [lia|]. destruct b as [|x b]; [cbn in Hn; lia|].
  unfold Plain.read_exact. cbn [length] in Hn.
  assert (Nat.min (Datatypes.S n) (length (x :: b)) = Datatypes.S n) as Hk by (cbn; lia).
  eexists. split_and!.
  - cbn [Plain.read_loop Plain.new Plain.refill pull mbind res_bind Plain.buf Plain.done Plain.stream andb].
    rewrite Hk, Nat.sub_diag. destruct n; cbn; by rewrite ?app_nil_r.
  - cbn. unfold Plain.rest, behind. cbn. by rewrite app_nil_r.
  - done.
  - intros c t. eexists. split.
    + cbn [Plain.read_loop Plain.new Plain.refill pull mbind res_bind Plain.buf Plain.done Plain.stream andb].
      rewrite Hk, Nat.sub_diag. destruct n; cbn; by rewrite ?app_nil_r.
    + done.
Qed.

Lemma plain_surplus_same_frame_witness :
  exists r, Plain.read_exact (Plain.new [Data (bytes_of "hello world")]) 5 = Ok (bytes_of "hello", r) /\
    Plain.rest r = (bytes_of " world", None) /\ Plain.ensure_eof r = Ok tt /\
    forall c t, exists r', Plain.read_exact (Plain.new [Data (bytes_of "hello world"); Data (c :: t)]) 5 = Ok (bytes_of "hello", r') /\
      Plain.ensure_eof r' = Err (InvalidData "body longer than expected").
Proof. apply (plain_surplus_same_frame (bytes_of "hello world") 5). cbn. lia. Defined.
