(* ===== verification/ChunkCodec.v ===== *)
(** * What the [aws-chunked] decoder decodes

    The encoder an AWS SDK applies to a streaming upload, and the theorems
    that relate [PayloadSource.AwsChunked.Decoder] to it: decoding does not
    depend on how the body is cut into frames, and it inverts the encoder. *)

From Stdlib Require Import ZArith Lia Ascii.
From stdpp Require Import base list strings numbers option.
From S2P Require Import Prelude RustStr Bytes PayloadSource.
Import AwsChunked.

Local Open Scope s3_scope.

(** ** The encoder *)
Definition hex_char (d : Z) : ascii := byte_of (if (d <? 10)%Z then 48 + d else 87 + d).

Fixpoint hex_print (fuel : nat) (n : Z) (acc : string) : string :=
  match fuel with
  | O => acc
  | S fuel =>
      let acc := String (hex_char (n mod 16)) acc in
      if (n <? 16)%Z then acc else hex_print fuel (n / 16) acc
  end.

(** [format!("{n:x}")]: sixteen digits are enough for a [u64]. *)
Definition print_hex (n : Z) : string := hex_print 16 n "".

(** A chunk extension such as [;chunk-signature=...] *)
Definition ext_ok (ext : bytes) : Prop :=
  (ext = [] \/ exists t, ext = ";"%char :: t) /\ LF ∉ ext.

Definition header (n : nat) (ext : bytes) : bytes :=
  bytes_of (print_hex (Z.of_nat n)) ++ ext ++ [CR; LF].

Definition encode_chunk (c : bytes * bytes) : bytes := header (length (snd c)) (fst c) ++ snd c ++ [CR; LF].

(** Chunks with their extensions, the extension of the last (empty) chunk, and
    the trailer lines. *)
Definition encode (chunks : list (bytes * bytes)) (last_ext : bytes) (trailers : list bytes) : bytes :=
  concat (encode_chunk <$> chunks) ++ header 0 last_ext ++
  concat ((fun t => t ++ [CR; LF]) <$> trailers) ++ [CR; LF].

Definition chunk_ok (c : bytes * bytes) : Prop :=
  ext_ok (fst c) /\ snd c <> [] /\ (blen (snd c) <= u64_max)%Z.
Definition trailer_ok (t : bytes) : Prop := t <> [] /\ LF ∉ t.

(** ** Hexadecimal sizes *)
Definition is_lower_hex (c : ascii) : bool := is_ascii_digit c || in_range 97 102 c.

Lemma hex_char_lower d : (0 <= d < 16)%Z -> is_lower_hex (hex_char d) = true.
Proof.
  intros H. unfold is_lower_hex, hex_char, is_ascii_digit, in_range.
  destruct (Z.ltb_spec d 10); rewrite byte_val_of; lia.
Qed.

Lemma hex_val_char d : (0 <= d < 16)%Z -> hex_val (hex_char d) = Some d.
Proof.
  intros H. unfold hex_val, hex_char, is_ascii_digit, in_range.
  destruct (Z.ltb_spec d 10); rewrite byte_val_of by lia.
  - replace (_ && _) with true by lia. f_equal. lia.
  - replace ((48 <=? 87 + d) && (87 + d <=? 57))%Z with false by lia.
    replace ((65 <=? 87 + d) && (87 + d <=? 70))%Z with false by lia.
    replace ((97 <=? 87 + d) && (87 + d <=? 102))%Z with true by lia. f_equal. lia.
Qed.

Lemma hex_digits_print fuel n s :
  (0 < fuel)%nat -> (0 <= n <= u64_max)%Z -> (n < 16 ^ Z.of_nat fuel)%Z ->
  hex_digits 0 (hex_print fuel n s) = hex_digits n s.
Proof.
  revert n s. induction fuel as [|fuel IH]; intros n s Hf Hn Hlt; [lia|].
  cbn [hex_print]. destruct (Z.ltb_spec n 16).
  - cbn -[Z.mul]. rewrite Z.mod_small, hex_val_char by lia.
    by rewrite (proj2 (Z.leb_le _ _)) by lia.
  - assert (0 <= n / 16 <= u64_max)%Z by (split; [apply Z.div_pos | apply Z.div_le_upper_bound]; lia).
    assert (n / 16 < 16 ^ Z.of_nat fuel)%Z.
    { apply Z.div_lt_upper_bound; [lia|]. rewrite <- Z.pow_succ_r by lia.
      by rewrite <- Nat2Z.inj_succ. }
    assert (0 < fuel)%nat.
    { destruct fuel; [|lia]. cbn in *. pose proof (Z.div_le_lower_bound n 16 1). lia. }
    rewrite IH by done. cbn -[Z.mul]. pose proof (Z.mod_pos_bound n 16).
    rewrite hex_val_char by lia. pose proof (Z.div_mod n 16).
    replace (n / 16 * 16 + n mod 16)%Z with n by lia.
    by rewrite (proj2 (Z.leb_le _ _)) by lia.
Qed.

Lemma hex_print_lower fuel n s :
  (0 <= n)%Z -> all_bytes is_lower_hex (hex_print fuel n s) = all_bytes is_lower_hex s.
Proof.
  revert n s. induction fuel as [|fuel IH]; intros n s Hn; cbn [hex_print]; [done|].
  pose proof (Z.mod_pos_bound n 16 ltac:(lia)).
  case_match; rewrite ?IH by (apply Z.div_pos; lia); cbn; by rewrite hex_char_lower.
Qed.

Lemma hex_print_nonempty fuel n s : (0 < fuel)%nat \/ s <> ""%string -> hex_print fuel n s <> ""%string.
Proof.
  revert n s. induction fuel as [|fuel IH]; intros n s H; cbn [hex_print]; [by destruct H; [lia|]|].
  case_match; [done|]. apply IH. by right.
Qed.

Lemma from_str_radix_print n : is_u64 n -> from_str_radix_16 (print_hex n) = Some n.
Proof.
  intros H. assert (all_bytes is_lower_hex (print_hex n) = true) as Hl.
  { unfold print_hex. rewrite hex_print_lower by (unfold is_u64 in H; lia). done. }
  unfold from_str_radix_16, strip_plus.
  assert (strip_prefix "+" (print_hex n) = None) as ->.
  { destruct (print_hex n) as [|c s]; [done|]. cbn [all_bytes] in Hl.
    apply andb_true_iff in Hl as [Hc _]. unfold strip_prefix.
    destruct (Ascii.eqb_spec "+" c) as [<-|]; [by vm_compute in Hc|done]. }
  destruct (is_empty (print_hex n)) eqn:E.
  { apply is_empty_true in E. by apply hex_print_nonempty in E; [|lia]. }
  unfold print_hex. apply hex_digits_print; [lia|done|]. unfold is_u64, u64_max in H. cbn. lia.
Qed.

Lemma utf8_valid_ascii b :
  Forall (fun c => in_range 0 0x7F c = true) b -> utf8_valid (length b) b = true.
Proof. induction 1 as [|c b Hc _ IH]; cbn; [done|]. by rewrite Hc. Qed.

Lemma all_bytes_Forall p s : all_bytes p s = true <-> Forall (fun c => p c = true) (bytes_of s).
Proof.
  induction s as [|c s IH]; cbn; [by split|]. rewrite andb_true_iff, Forall_cons_iff.
  by rewrite IH.
Qed.

Lemma str_of_bytes_of s : str_of (bytes_of s) = s.
Proof. apply String.string_of_list_ascii_of_string. Qed.

Lemma hex_bytes_lower n : (0 <= n)%Z -> Forall (fun c => is_lower_hex c = true) (bytes_of (print_hex n)).
Proof. intros. apply all_bytes_Forall. unfold print_hex. by rewrite hex_print_lower. Qed.

Lemma from_utf8_hex n : (0 <= n)%Z -> from_utf8 (bytes_of (print_hex n)) = Some (print_hex n).
Proof.
  intros H. unfold from_utf8. rewrite utf8_valid_ascii, str_of_bytes_of; [done|].
  eapply list.Forall_impl; [by apply (hex_bytes_lower n)|]. cbn. intros c.
  unfold is_lower_hex, is_ascii_digit, in_range. lia.
Qed.

(** ** Header lines *)
Lemma strip_last_snoc c l : strip_last c (l ++ [c]) = l.
Proof. unfold strip_last. by rewrite last_snoc, Ascii.eqb_refl, removelast_last. Qed.

Lemma before_absent c a b :
  c ∉ a -> (b = [] \/ exists t, b = c :: t) -> before c (a ++ b) = a.
Proof.
  intros Ha Hb. induction a as [|x a IH]; cbn.
  - destruct Hb as [->|[t ->]]; cbn; [done|]. by rewrite Ascii.eqb_refl.
  - apply not_elem_of_cons in Ha as [Hx Ha]. destruct (Ascii.eqb_spec x c); [congruence|].
    by rewrite IH.
Qed.

Lemma not_hex_absent c n : (0 <= n)%Z -> is_lower_hex c = false -> c ∉ bytes_of (print_hex n).
Proof.
  intros Hn Hc Hin. pose proof (hex_bytes_lower n Hn) as Hf. rewrite list.Forall_forall in Hf.
  apply Hf in Hin. congruence.
Qed.

Lemma parse_header n ext :
  (Z.of_nat n <= u64_max)%Z -> ext_ok ext -> parse_chunk_len_line (header n ext) = Ok n.
Proof.
  intros Hn [He _]. unfold parse_chunk_len_line, header.
  change [CR; LF] with ([CR] ++ [LF]). rewrite !app_assoc, !strip_last_snoc.
  rewrite before_absent; [|apply not_hex_absent; [lia|done]|done].
  destruct (bytes_of (print_hex (Z.of_nat n))) eqn:E.
  { apply (f_equal str_of) in E. rewrite str_of_bytes_of in E.
    by apply hex_print_nonempty in E; [|lia]. }
  rewrite <- E, from_utf8_hex by lia. cbn -[from_str_radix_16 print_hex].
  rewrite from_str_radix_print by (unfold is_u64; lia). cbn. by rewrite Nat2Z.id.
Qed.

Lemma split_line_lf l r : LF ∉ l -> split_line ((l ++ [LF]) ++ r) = Some (l ++ [LF], r).
Proof.
  induction l as [|c l IH]; intros H; cbn -[LF]; [done|].
  apply not_elem_of_cons in H as [Hc Hl]. destruct (Ascii.eqb_spec c LF); [congruence|].
  by rewrite IH.
Qed.

Lemma split_header n ext r :
  LF ∉ ext -> split_line (header n ext ++ r) = Some (header n ext, r).
Proof.
  intros He. unfold header. change [CR; LF] with ([CR] ++ [LF]).
  rewrite (app_assoc ext), app_assoc. apply split_line_lf.
  rewrite !elem_of_app, list_elem_of_singleton. intros [H|[H|H]]; [|done|done].
  revert H. apply not_hex_absent; [lia|done].
Qed.

(** ** The unframed decoder inverts the encoder *)
Lemma flat_trailers_encoded fin ts r fuel :
  Forall trailer_ok ts -> (length ts <= fuel)%nat ->
  flat_trailers fuel fin (concat ((fun t => t ++ [CR; LF]) <$> ts) ++ [CR; LF] ++ r) = Ok r.
Proof.
  intros Ht. revert fuel. induction Ht as [|t ts [Hne Hlf] _ IH]; intros fuel Hf; cbn [fmap list_fmap concat].
  - by destruct fuel.
  - cbn in Hf. destruct fuel as [|fuel]; [lia|]. cbn [flat_trailers].
    assert (t ++ [CR; LF] = (t ++ [CR]) ++ [LF]) as -> by by rewrite <- app_assoc.
    rewrite <- !app_assoc, (app_assoc t), (app_assoc (t ++ [CR])), split_line_lf.
    2:{ rewrite elem_of_app, list_elem_of_singleton. by intros [?|?]. }
    rewrite !bool_decide_false; [apply IH; lia|..];
      intros E; apply (f_equal length) in E; rewrite !length_app in E; cbn in E; destruct t; cbn in E; done || lia.
Qed.

Lemma flat_end_encoded fin ts r :
  Forall trailer_ok ts ->
  flat_end fin (concat ((fun t => t ++ [CR; LF]) <$> ts) ++ [CR; LF] ++ r) = ([], short_payload).
Proof.
  intros Ht. unfold flat_end. rewrite flat_trailers_encoded; [done|done|].
  rewrite length_app. clear Ht. induction ts as [|t ts IH]; cbn; [lia|].
  rewrite !length_app in *. cbn in *. lia.
Qed.

Lemma flat_decode_S fin b : flat_decode fin b = flat_chunks (S (length b)) fin b.
Proof. symmetry. apply flat_chunks_fuel. lia. Qed.

Lemma flat_decode_encoded fin chunks last_ext ts r :
  Forall chunk_ok chunks -> ext_ok last_ext -> Forall trailer_ok ts ->
  flat_decode fin (encode chunks last_ext ts ++ r) = (concat (snd <$> chunks), short_payload).
Proof.
  intros Hc He Ht. unfold encode. rewrite <- !app_assoc.
  induction Hc as [|[ext data] chunks (Hext & Hne & Hlen) Hc IH]; cbn [fmap list_fmap concat fst snd app] in *.
  - rewrite flat_decode_S. cbn [flat_chunks]. rewrite split_header by apply He.
    rewrite parse_header by (done || (vm_compute; done)). by apply flat_end_encoded.
  - unfold encode_chunk at 1. cbn [fst snd]. rewrite <- !app_assoc.
    rewrite flat_decode_S. cbn [flat_chunks]. rewrite split_header by apply Hext.
    unfold blen in Hlen. cbn [snd] in Hlen. rewrite parse_header by (done || lia).
    rewrite (proj2 (Nat.eqb_neq _ _)) by (by destruct data).
    unfold flat_data. rewrite (proj2 (Nat.ltb_ge _ _)) by (rewrite length_app; lia).
    rewrite take_app_length, drop_app_length. unfold flat_crlf. cbn [flat_consume app].
    rewrite !Ascii.eqb_refl, flat_chunks_fuel
      by (repeat (rewrite length_app || cbn [length]); lia). by rewrite IH.
Qed.

(** ** Properties *)

(** C27. Decoding inverts encoding: for any chunks an SDK may send (any
    non-empty data, any chunk extensions such as signatures, any trailers),
    in any framing, the payload read is the concatenation of the chunk data,
    and asking for one byte more is an error. *)
Theorem aws_chunked_roundtrip (chunks : list (bytes * bytes)) (last_ext : bytes) (trailers : list bytes)
    (s : list item) :
  Forall chunk_ok chunks -> ext_ok last_ext -> Forall trailer_ok trailers ->
  flat s = (encode chunks last_ext trailers, None) ->
  let data := concat (snd <$> chunks) in
  (exists d, read_exact (new s) (length data) = Ok (data, d)) /\
  read_exact (new s) (S (length data)) = Err short_payload.
Proof.
  intros Hc He Ht Hs data.
  pose proof (flat_decode_encoded None chunks last_ext trailers [] Hc He Ht) as Hd.
  rewrite app_nil_r in Hd.
  pose proof (read_loop_spec _ _ (new s) ltac:(done) (Nat.le_refl (length data))) as H1.
  pose proof (read_loop_spec _ _ (new s) ltac:(done) (Nat.le_refl (S (length data)))) as H2.
  rewrite decoded_new, Hs in H1, H2. cbn [fst snd] in H1, H2. rewrite Hd in H1, H2. cbn [fst snd] in H1, H2.
  fold data in H1, H2. rewrite decide_True in H1 by lia. rewrite decide_False in H2 by lia.
  rewrite take_ge in H1 by lia. split; [|done]. destruct H1 as (d & H1 & _). by exists d.
Qed.

(** A line feed does not occur in a concrete byte string. *)
Ltac lf_absent := apply (bool_decide_unpack (_ ∉ _)); by vm_compute.

(** The two-chunk upload of the AWS documentation, cut at odd places. *)
Definition sample_body : bytes :=
  encode [(bytes_of ";chunk-signature=ab", bytes_of "hello "); ([], bytes_of "world")]
    (bytes_of ";chunk-signature=cd") [bytes_of "x-amz-checksum-crc32:AAAA"].

Lemma aws_chunked_roundtrip_witness :
  (exists d, read_exact (new [Data []; Data (take 3 sample_body); Data (take 40 (drop 3 sample_body));
                              Data (drop 43 sample_body)]) 11 = Ok (bytes_of "hello world", d)) /\
  read_exact (new [Data []; Data (take 3 sample_body); Data (take 40 (drop 3 sample_body));
                   Data (drop 43 sample_body)]) 12 = Err short_payload.
Proof.
  apply (aws_chunked_roundtrip
    [(bytes_of ";chunk-signature=ab", bytes_of "hello "); ([], bytes_of "world")]
    (bytes_of ";chunk-signature=cd") [bytes_of "x-amz-checksum-crc32:AAAA"]).
  - constructor; [|constructor; [|constructor]]; (split; [|by split]);
      (split; [(by left) || (right; by eexists) | lf_absent]).
  - split; [right; by eexists | lf_absent].
  - constructor; [|constructor]. split; [done | lf_absent].
  - vm_compute. reflexivity.
Defined.
