(* ===== verification/Upload.v ===== *)
(** * s32p-gateway/src/streaming.rs: [write_object_body]

    The upload writer: reads the payload of the request body chunk by chunk
    from any [PayloadSource] and submits one write per chunk, padded to the
    alignment when a new file is written with [O_DIRECT]; the padding is cut
    off at the end.  What happens to each submitted write is a parameter. *)

From Stdlib Require Import ZArith Lia Ascii.
From stdpp Require Import base list strings numbers option.
From S2P Require Import Prelude RustStr Bytes FsHelpers Streaming PayloadSource.

Local Open Scope Z_scope.

(** [WriteObjectDest] *)
Inductive WriteObjectDest :=
| DestPath
| DestFile (start_off : Z).

(** [direct_io_ok_for_aligned_range] *)
Definition direct_io_ok_for_aligned_range (start_off len : Z) (cfg : StreamCfg) : bool :=
  if negb (direct_io cfg) then false
  else if negb (chunk_size cfg mod ALIGN =? 0) then false
  else if len <? chunk_size cfg then false
  else if negb (start_off mod ALIGN =? 0) then false
  else if negb (len mod ALIGN =? 0) then false
  else true.

(** What becomes of the write of one chunk.  The io_uring session records an
    error for every write that fails, is short or cannot be queued; it
    records none when the writer finds the cancellation token set. *)
Inductive write_event :=
| Written                (* the completion reports the full length *)
| ShortWrite (n : nat)   (* the completion reports [n] bytes *)
| WriteFailed            (* the completion reports an errno *)
| SendStopped            (* the io thread is gone: [write] records the error *)
| CancelSeen             (* [is_cancelled()]: the chunk is dropped *)
| CancelInWrite          (* [write] finds the token cancelled and refuses *)
| SendAbandoned.         (* [cancelled()] wins the [select!] after [on_submit] *)

Definition cancel_seen (ev : write_event) : bool :=
  match ev with CancelSeen => true | _ => false end.

Inductive prealloc_event := Allocated | AllocUnsupported | AllocFailed.

(** The kernel's side of an upload. *)
Record upload_env := {
  open_ok : bool;
  prealloc : prealloc_event;
  ftruncate_ok : bool;
  write_events : nat -> write_event;
}.

Inductive upload_error :=
| OpenFailed | PreallocFailed | FtruncateFailed
| ReadPayloadFailed (e : io_error)
| UnalignedDirectWrite
| WriteOffsetOverflow
| FinishFailed (e : io_error)
| SessionFailed
| UploadOutOfFuel.

(** How an upload ends: it returns, or waits for a session that never
    finishes. *)
Inductive upload_result := Returned (r : res upload_error unit) | WaitsForever.

(** [try_preallocate_range(fd, 0, len)] on the content of the file *)
Definition try_preallocate (ev : prealloc_event) (f : bytes) (len : Z) : res upload_error bytes :=
  if len =? 0 then Ok f
  else match ev with
       | Allocated | AllocUnsupported => Ok (truncate f (Z.max (blen f) len))
       | AllocFailed => Err PreallocFailed
       end.

Section Writer.
Context {S : Type} `{PayloadSource S}.

Record loop_state := {
  src : S;
  file : bytes;
  tx_dead : bool;
  session_err : bool;
  session_stuck : bool;
}.

(** The effect of submitting [data] at [off]. *)
Definition submit (ev : write_event) (off : Z) (data : bytes) (st : loop_state) : loop_state :=
  if tx_dead st then st
  else match ev with
       | Written => {| src := src st; file := write_at (file st) off data; tx_dead := false;
                       session_err := session_err st; session_stuck := session_stuck st |}
       | ShortWrite n => {| src := src st; file := write_at (file st) off (take n data); tx_dead := false;
                            session_err := true; session_stuck := session_stuck st |}
       | WriteFailed => {| src := src st; file := file st; tx_dead := false;
                           session_err := true; session_stuck := session_stuck st |}
       | SendStopped => {| src := src st; file := file st; tx_dead := true;
                           session_err := true; session_stuck := session_stuck st |}
       | CancelSeen | CancelInWrite =>
                       {| src := src st; file := file st; tx_dead := true;
                          session_err := session_err st; session_stuck := session_stuck st |}
       | SendAbandoned => {| src := src st; file := file st; tx_dead := true;
                             session_err := session_err st; session_stuck := true |}
       end.

(** The length written for a chunk of [real_len] payload bytes. *)
Definition plan_write (direct truncate_to_logical : bool) (chunk real_len : Z) : res upload_error Z :=
  if direct && truncate_to_logical then
    Ok (if real_len =? chunk then chunk else align_up real_len ALIGN)
  else if direct && negb (real_len mod ALIGN =? 0) then Err UnalignedDirectWrite
  else Ok real_len.

(** [while off_in_obj < logical_len]: each pass takes at least one byte. *)
Fixpoint write_loop (fuel : nat) (env : upload_env) (direct truncate_to_logical : bool)
    (chunk start_off logical_len : Z) (i : nat) (off_in_obj : Z) (st : loop_state)
    : res upload_error unit * loop_state :=
  if logical_len <=? off_in_obj then (Ok tt, st)
  else
    match fuel with
    | O => (Err UploadOutOfFuel, st)
    | Datatypes.S fuel =>
        let remaining := logical_len - off_in_obj in
        let real_len := Z.min chunk remaining in
        match plan_write direct truncate_to_logical chunk real_len with
        | Panics => (Panics, st)
        | Err e => (Err e, st)
        | Ok write_len =>
            match read_exact_payload (src st) (Z.to_nat real_len) with
            | Panics => (Panics, st)
            | Err e => (Err (ReadPayloadFailed e), st)
            | Ok (b, src') =>
                (* [pooled.as_mut_bytes()[real_len..write_len].fill(0)] *)
                if (real_len <? write_len) && (chunk <? write_len) then (Panics, st)
                else
                let data := b ++ zeros (write_len - real_len) in
                let st := {| src := src'; file := file st; tx_dead := tx_dead st;
                             session_err := session_err st; session_stuck := session_stuck st |} in
                match (if tx_dead st || cancel_seen (write_events env i) then Some 0
                       else checked_add64 start_off off_in_obj) with
                | None => (Err WriteOffsetOverflow, st)
                | Some dst_off =>
                    write_loop fuel env direct truncate_to_logical chunk start_off logical_len (i + 1)
                      (sat_add64 off_in_obj real_len) (submit (write_events env i) dst_off data st)
                end
            end
        end
    end.

(** [finish], [sender.wait()] and the final [ftruncate]. *)
Definition finish_upload (env : upload_env) (truncate_to_logical : bool) (logical_len : Z) (st : loop_state)
    : upload_result * bytes :=
  match finish (src st) with
  | Panics => (Returned Panics, file st)
  | Err e => (Returned (Err (FinishFailed e)), file st)
  | Ok _ =>
      if session_stuck st then (WaitsForever, file st)
      else if session_err st then (Returned (Err SessionFailed), file st)
      else if negb truncate_to_logical then (Returned (Ok tt), file st)
      else if ftruncate_ok env then (Returned (Ok tt), truncate (file st) logical_len)
      else (Returned (Err FtruncateFailed), file st)
  end.

(** [write_object_body]; [f0] is the content of the destination file. *)
Definition write_object_body (env : upload_env) (body : S) (dest : WriteObjectDest) (f0 : bytes)
    (logical_len : Z) (cfg : StreamCfg) : upload_result * bytes :=
  let chunk := chunk_size cfg in
  let direct :=
    match dest with
    | DestPath => direct_io cfg && (chunk <? logical_len)
    | DestFile start_off => direct_io_ok_for_aligned_range start_off logical_len cfg
    end in
  let direct := direct && (chunk mod ALIGN =? 0) in
  let opened : res upload_error (bytes * Z * bool) :=
    match dest with
    | DestPath =>
        if open_ok env then
          let prealloc_len := if direct then align_up logical_len ALIGN else logical_len in
          f ← try_preallocate (prealloc env) [] prealloc_len;
          Ok (f, 0, true)
        else Err OpenFailed
    | DestFile start_off => Ok (f0, start_off, false)
    end in
  match opened with
  | Panics => (Returned Panics, f0)
  | Err e => (Returned (Err e), f0)
  | Ok (f, start_off, truncate_to_logical) =>
      if logical_len =? 0 then
        if truncate_to_logical then
          if ftruncate_ok env then (Returned (Ok tt), truncate f 0) else (Returned (Err FtruncateFailed), f)
        else (Returned (Ok tt), f)
      else if chunk =? 0 then (Returned Panics, f)
      else
        let st := {| src := body; file := f; tx_dead := false; session_err := false; session_stuck := false |} in
        match write_loop (Z.to_nat logical_len) env direct truncate_to_logical chunk start_off logical_len 0 0 st with
        | (Ok _, st) => finish_upload env truncate_to_logical logical_len st
        | (Err e, st) => (Returned (Err e), file st)
        | (Panics, st) => (Returned Panics, file st)
        end
  end.
End Writer.

(** ** Consecutive writes *)
Lemma blen_take_le n (b : bytes) : 0 <= n <= blen b -> blen (take (Z.to_nat n) b) = n.
Proof. unfold blen. rewrite length_take. lia. Qed.

Lemma write_at_app f o a b :
  0 <= o -> write_at (write_at f o a) (o + blen a) b = write_at f o (a ++ b).
Proof.
  intros Ho. destruct a as [|x a]; [by rewrite blen_nil, Z.add_0_r|].
  destruct b as [|y b]; [by rewrite app_nil_r|].
  rewrite (write_at_eq _ _ (y :: b)), (write_at_eq f o (_ ++ _)) by done.
  assert (length (write_at f o (x :: a)) >= Z.to_nat o + length (x :: a))%nat as Hl.
  { rewrite write_at_eq by done. rewrite length_app, write_at_head_length by done. rewrite length_app. lia. }
  rewrite (zeros_nil (_ - blen (write_at _ _ _))), app_nil_r by (unfold blen in *; lia).
  replace (Z.to_nat (o + blen (x :: a))) with (Z.to_nat o + length (x :: a))%nat by (unfold blen; lia).
  pose proof (write_at_head_length f o Ho) as Hp.
  rewrite (write_at_eq f o (x :: a)) by done.
  clear Hl. revert Hp. generalize (take (Z.to_nat o) f ++ zeros (o - blen f)). intros p Hp.
  rewrite <- Hp, (app_assoc p), <- length_app, take_app_length, <- drop_drop, drop_app_length.
  rewrite drop_drop, !length_app, <- !app_assoc. do 4 f_equal. lia.
Qed.

Lemma truncate_write_prefix (f d z : bytes) : truncate (write_at f 0 (d ++ z)) (blen d) = d.
Proof.
  destruct (decide (d ++ z = [])) as [E|Hne].
  - apply app_eq_nil in E as [-> ->]. unfold truncate. rewrite (zeros_nil (_ - blen f)), app_nil_r; [done|].
    rewrite blen_nil. pose proof (blen_nonneg f). lia.
  - rewrite write_at_eq by done. rewrite take_0, zeros_nil by (pose proof (blen_nonneg f); lia).
    cbn [app]. rewrite <- app_assoc. apply truncate_app.
Qed.

Section Correctness.
Context {S : Type} `{PayloadSourceLaws S}.

Definition no_cancel (env : upload_env) : Prop :=
  forall i, write_events env i <> CancelSeen /\ write_events env i <> CancelInWrite.

(** After [off] bytes: while no error is recorded the file holds them. *)
Record loop_inv (P f0 : bytes) (trunc : bool) (start L off : Z) (st : loop_state) : Prop := {
  inv_src : source_ok (src st);
  inv_payload : payload (src st) = drop (Z.to_nat off) P;
  inv_read : off <= blen P;
  inv_dead : tx_dead st = true -> session_err st = true \/ session_stuck st = true;
  inv_file : session_err st = false -> session_stuck st = false ->
    exists pad, file st = write_at f0 start (take (Z.to_nat off) P ++ zeros pad) /\
      (off < L -> pad <= 0) /\ (trunc = false -> pad <= 0);
}.

Lemma plan_write_padding direct trunc chunk real write_len :
  plan_write direct trunc chunk real = Ok write_len ->
  (real = chunk -> write_len - real <= 0) /\ (trunc = false -> write_len - real <= 0).
Proof.
  unfold plan_write. destruct direct, trunc; cbn; repeat case_match; intros; simplify_eq; reflect_all; split; lia || done.
Qed.

Lemma loop_inv_step P f0 trunc start L off st env i b src' real pad dst :
  loop_inv P f0 trunc start L off st -> no_cancel env ->
  0 <= start -> 0 <= off < L -> 0 < real -> off + real <= L ->
  (off + real < L -> pad <= 0) -> (trunc = false -> pad <= 0) ->
  off + real <= blen P -> b = take (Z.to_nat real) (drop (Z.to_nat off) P) ->
  source_ok src' -> payload src' = drop (Z.to_nat real) (drop (Z.to_nat off) P) ->
  (tx_dead st = false -> dst = start + off) ->
  loop_inv P f0 trunc start L (off + real)
    (submit (write_events env i) dst (b ++ zeros pad)
       {| src := src'; file := file st; tx_dead := tx_dead st;
          session_err := session_err st; session_stuck := session_stuck st |}).
Proof.
  intros [Hs Hp Hr Hd Hf] Hnc Hst Hoff Hreal Hle Hpad1 Hpad2 HP -> Hs' Hp' Hdst.
  destruct (Hnc i) as [Hn1 Hn2]. unfold submit. cbn [tx_dead src file session_err session_stuck].
  rewrite drop_drop in Hp'. replace (Z.to_nat off + Z.to_nat real)%nat with (Z.to_nat (off + real)) in Hp' by lia.
  destruct (tx_dead st) eqn:Ed.
  - split; cbn; try done. intros He Hk. by destruct (Hd eq_refl); congruence.
  - destruct (write_events env i); try done; split; cbn; try done; try tauto; try congruence.
    intros He Hk. destruct (Hf He Hk) as (pad0 & -> & Hz & _).
    rewrite (zeros_nil pad0), app_nil_r, Hdst by (done || lia).
    exists pad. split_and!; [|done|done].
    rewrite <- (blen_take_le off P) at 2 by lia. rewrite write_at_app by done.
    f_equal. rewrite app_assoc. f_equal. rewrite take_take_drop. f_equal. lia.
Qed.

Lemma write_loop_sound P f0 fuel env direct trunc chunk start L i off st st' :
  0 < chunk -> 0 <= start -> 0 <= off <= L -> L <= i64_max -> no_cancel env ->
  loop_inv P f0 trunc start L off st ->
  write_loop fuel env direct trunc chunk start L i off st = (Ok tt, st') ->
  loop_inv P f0 trunc start L L st'.
Proof.
  intros Hc Hst Hoff HL Hnc. revert i off st Hoff.
  induction fuel as [|fuel IH]; intros i off st Hoff Hinv; cbn [write_loop];
    destruct (Z.leb_spec L off); try done; try (intros [= <-]; assert (off = L) as -> by lia; done).
  destruct (plan_write _ _ _ _) as [wl| |] eqn:Epl; [|done..].
  apply plan_write_padding in Epl as [Hpad1 Hpad2]. pose proof Hinv as [Hs Hp Hr Hd Hf].
  set (real := Z.min chunk (L - off)) in *.
  destruct (decide (Z.to_nat real <= length (payload (src st)))%nat) as [Hn|Hn].
  2:{ rewrite read_exact_short by (done || lia). done. }
  destruct (read_exact_enough (src st) (Z.to_nat real) Hs Hn) as (src' & -> & Hs' & Hp' & _).
  rewrite Hp in *. rewrite length_drop in Hn. cbn [tx_dead]. case_match; [done|].
  destruct (if tx_dead st || cancel_seen (write_events env i) then Some 0 else checked_add64 start off)
    as [dst|] eqn:Edst; [|done].
  assert (sat_add64 off real = off + real) as ->.
  { unfold sat_add64, u64_max, i64_max in *. subst real. lia. }
  apply IH; [subst real; lia|].
  apply loop_inv_step with (dst := dst); try done; try (subst real; unfold blen in *; lia).
  intros Hdd. rewrite Hdd in Edst. destruct (Hnc i) as [Hn1 Hn2].
  destruct (write_events env i); cbn in Edst; try done; by apply checked_add64_some in Edst as [-> _].
Qed.

(** Chunks are planned without error, and the padded length fits the buffer. *)
Lemma plan_write_ok direct trunc chunk L off :
  0 < chunk -> 0 <= off < L -> L <= i64_max ->
  (direct = true -> chunk mod ALIGN = 0) ->
  (direct = true -> trunc = false -> L mod ALIGN = 0 /\ off mod ALIGN = 0) ->
  exists wl, plan_write direct trunc chunk (Z.min chunk (L - off)) = Ok wl /\ wl <= chunk.
Proof.
  intros Hc Hoff HL Hd Ht. unfold plan_write. destruct direct; cbn; [|eexists; split; [done|lia]].
  specialize (Hd eq_refl). specialize (Ht eq_refl). destruct trunc.
  - eexists. split; [done|]. case_match; [lia|]. reflect_all.
    assert (Z.min chunk (L - off) < chunk) as Hlt by lia. unfold i64_max in *.
    destruct (align_up_bounds (Z.min chunk (L - off)) ALIGN) as [[_ Hu] Hm]; [done|unfold u64_max, ALIGN; lia|].
    pose proof (Z.div_mod chunk ALIGN ltac:(done)).
    pose proof (Z.div_mod (align_up (Z.min chunk (L - off)) ALIGN) ALIGN ltac:(done)).
    unfold ALIGN in *. lia.
  - destruct Ht as [HLa Hoa]; [done|].
    assert (Z.min chunk (L - off) mod ALIGN = 0) as ->.
    { destruct (Z.min_spec chunk (L - off)) as [[_ ->]|[_ ->]]; [done|].
      by rewrite Zminus_mod, HLa, Hoa. }
    eexists. split; [done|lia].
Qed.

Lemma submit_benign ev dst data (st : @loop_state S) :
  ev = Written \/ ev = CancelSeen ->
  let st' := submit ev dst data st in
  session_err st' = session_err st /\ session_stuck st' = session_stuck st /\ src st' = src st /\
  (tx_dead st' = true -> tx_dead st = true \/ ev = CancelSeen) /\ (ev = CancelSeen -> file st' = file st).
Proof. intros [-> | ->]; unfold submit; destruct (tx_dead st) eqn:E; cbn; naive_solver. Qed.

(** An undisturbed loop reads everything and submits everything. *)
Lemma write_loop_total P fuel env direct trunc chunk start L i off st ev :
  0 < chunk -> 0 <= start -> start + L <= u64_max -> 0 <= off <= L -> L <= i64_max -> L <= blen P ->
  (direct = true -> chunk mod ALIGN = 0) ->
  (direct = true -> trunc = false -> L mod ALIGN = 0 /\ off mod ALIGN = 0) ->
  (forall i, write_events env i = ev) -> ev = Written \/ ev = CancelSeen ->
  (tx_dead st = true -> ev = CancelSeen) -> session_err st = false -> session_stuck st = false ->
  source_ok (src st) -> payload (src st) = drop (Z.to_nat off) P ->
  (Z.to_nat (L - off) <= fuel)%nat ->
  exists st', write_loop fuel env direct trunc chunk start L i off st = (Ok tt, st') /\
    session_err st' = false /\ session_stuck st' = false /\
    source_ok (src st') /\ payload (src st') = drop (Z.to_nat L) P /\
    (ev = CancelSeen -> file st' = file st).
Proof.
  intros Hc Hst Hu Hoff HL HP Hd Ht Hev Hcases.
  revert i off st Hoff Ht. induction fuel as [|fuel IH]; intros i off st Hoff Ht Hdead He Hk Hs Hp Hf;
    cbn [write_loop]; destruct (Z.leb_spec L off); try lia;
    try (exists st; assert (off = L) as -> by lia; done).
  destruct (plan_write_ok direct trunc chunk L off) as (wl & -> & Hwl); try (done || lia).
  set (real := Z.min chunk (L - off)) in *.
  destruct (read_exact_enough (src st) (Z.to_nat real) Hs) as (src' & -> & Hs' & Hp' & _).
  { rewrite Hp, length_drop. unfold blen in HP. subst real. lia. }
  rewrite (proj2 (Z.ltb_ge chunk wl)), andb_false_r by lia. cbn [tx_dead]. rewrite Hev.
  assert (sat_add64 off real = off + real) as ->.
  { unfold sat_add64, u64_max, i64_max in *. subst real. lia. }
  assert ((if tx_dead st || cancel_seen ev then Some 0 else checked_add64 start off)
          = Some (if tx_dead st || cancel_seen ev then 0 else start + off)) as ->.
  { case_match; [done|]. apply checked_add64_some. lia. }
  set (dst := if tx_dead st || cancel_seen ev then 0 else start + off).
  set (data := _ ++ zeros _). set (st1 := {| src := src' |}).
  destruct (submit_benign ev dst data st1 Hcases) as (He1 & Hk1 & Hsrc1 & Hd1 & Hf1).
  destruct (IH (i + 1)%nat (off + real) (submit ev dst data st1)) as (st' & -> & ? & ? & ? & ? & Hfile);
    rewrite ?He1, ?Hk1, ?Hsrc1; try (done || (subst real; lia)).
  - intros Hd2 Ht1. destruct (Ht Hd2 Ht1) as [HLa Hoa]. split; [done|]. specialize (Hd Hd2).
    subst real. rewrite Zplus_mod, Hoa. destruct (Z.min_spec chunk (L - off)) as [[_ ->]|[_ ->]]; [by rewrite Hd|].
    by rewrite Zminus_mod, HLa, Hoa.
  - intros Hdd. destruct (Hd1 Hdd); auto.
  - subst st1. cbn. rewrite Hp', Hp, drop_drop. f_equal. subst real. lia.
  - exists st'. split_and!; try done. intros Hcs. by rewrite (Hfile Hcs), (Hf1 Hcs).
Qed.
End Correctness.

(** ** Properties *)
Section Properties.
Context {S : Type} `{PayloadSourceLaws S}.

Lemma loop_inv_start (body : S) f0 trunc start L f :
  source_ok body -> 0 <= start -> f = write_at f0 start [] ->
  loop_inv (payload body) f0 trunc start L 0
    {| src := body; file := f; tx_dead := false; session_err := false; session_stuck := false |}.
Proof.
  intros Hs Hst ->. split; cbn; try done; [apply blen_nonneg|].
  intros _ _. exists 0. split_and!; done || lia.
Qed.

Lemma finish_upload_ok env trunc L (st : @loop_state S) f :
  finish_upload env trunc L st = (Returned (Ok tt), f) ->
  session_err st = false /\ session_stuck st = false /\
  f = if trunc then truncate (file st) L else file st.
Proof.
  unfold finish_upload. destruct (finish (src st)); [|done..].
  destruct (session_stuck st); [done|]. destruct (session_err st); [done|].
  destruct trunc; cbn; [|naive_solver]. destruct (ftruncate_ok env); naive_solver.
Qed.

(** What an upload leaves in the destination. *)
Definition stored (dest : WriteObjectDest) (f0 data : bytes) : bytes :=
  match dest with
  | DestPath => data
  | DestFile start_off => write_at f0 start_off data
  end.

(** The whole loop, when every chunk is written or every chunk is dropped. *)
Lemma undisturbed_loop env (body : S) f direct trunc chunk start L ev :
  source_ok body -> 0 < chunk -> 0 < L <= i64_max -> L <= blen (payload body) ->
  0 <= start -> start + L <= u64_max -> (direct = true -> chunk mod ALIGN = 0) ->
  (direct = true -> trunc = false -> L mod ALIGN = 0) ->
  (forall i, write_events env i = ev) -> ev = Written \/ ev = CancelSeen ->
  exists st', write_loop (Z.to_nat L) env direct trunc chunk start L 0 0
      {| src := body; file := f; tx_dead := false; session_err := false; session_stuck := false |}
      = (Ok tt, st') /\ session_err st' = false /\ session_stuck st' = false /\
    source_ok (src st') /\ payload (src st') = drop (Z.to_nat L) (payload body) /\
    (ev = CancelSeen -> file st' = f).
Proof.
  intros Hs Hc HL HP Hst Hu Hd Ht Hev Hcases.
  apply (write_loop_total (payload body)) with (ev := ev); cbn; try (done || lia). auto.
Qed.

Lemma try_preallocate_new env len f :
  0 <= len -> try_preallocate (prealloc env) [] len = Ok f -> f = zeros len.
Proof.
  intros Hl. unfold try_preallocate. destruct (Z.eqb_spec len 0) as [->|]; [by intros [= <-]|].
  unfold truncate. change (blen []) with 0. rewrite take_nil.
  destruct (prealloc env); intros; simplify_eq; cbn; f_equal; lia.
Qed.

Lemma truncate_zeros n m : 0 <= n <= m -> truncate (zeros m) n = zeros n.
Proof.
  intros. unfold truncate. rewrite blen_zeros. unfold zeros. rewrite take_replicate, <- replicate_add.
  f_equal. lia.
Qed.

Lemma write_object_body_ok (env : upload_env) (body : S) (dest : WriteObjectDest) (f0 f : bytes)
    (logical_len : Z) (cfg : StreamCfg) :
  source_ok body -> 0 < chunk_size cfg -> 0 < logical_len <= i64_max ->
  (match dest with DestFile start_off => 0 <= start_off | DestPath => True end) ->
  no_cancel env ->
  write_object_body env body dest f0 logical_len cfg = (Returned (Ok tt), f) ->
  logical_len <= blen (payload body) /\
  f = stored dest f0 (take (Z.to_nat logical_len) (payload body)).
Proof.
  intros Hs Hc HL Hdest Hnc. unfold write_object_body.
  rewrite (proj2 (Z.eqb_neq logical_len 0)), (proj2 (Z.eqb_neq (chunk_size cfg) 0)) by lia.
  set (direct := _ && (chunk_size cfg mod ALIGN =? 0)).
  destruct dest as [|so]; cbn [mbind res_bind].
  - destruct (open_ok env); [|done].
    destruct (try_preallocate _ _ _) as [f1| |] eqn:Ea; [|done..]. cbn [mbind res_bind].
    destruct (write_loop _ _ _ _ _ _ _ _ _ _) as [[[]| |] st'] eqn:Ew; [|done..].
    apply (write_loop_sound (payload body) f1) in Ew; try (done || lia).
    2:{ by apply loop_inv_start. }
    destruct Ew as [Hs' _ Hr Hd Hf]. intros (He & Hk & ->)%finish_upload_ok.
    destruct Hf as (pad & -> & _ & _); [done..|]. split; [done|].
    rewrite <- (blen_take_le logical_len (payload body)) at 2 by lia. apply truncate_write_prefix.
  - destruct (write_loop _ _ _ _ _ _ _ _ _ _) as [[[]| |] st'] eqn:Ew; [|done..].
    apply (write_loop_sound (payload body) f0) in Ew; try (done || lia).
    2:{ by apply loop_inv_start. }
    destruct Ew as [Hs' _ Hr Hd Hf]. intros (He & Hk & ->)%finish_upload_ok.
    destruct Hf as (pad & -> & _ & Hpad); [done..|]. split; [done|]. cbn.
    by rewrite (zeros_nil pad), app_nil_r by auto.
Qed.

(** An error the session has recorded stays recorded. *)
Lemma write_loop_keeps_err fuel env direct trunc chunk start L i off (st st' : @loop_state S) :
  session_err st = true -> write_loop fuel env direct trunc chunk start L i off st = (Ok tt, st') -> session_err st' = true.
Proof.
  revert i off st. induction fuel as [|fuel IH]; intros i off st He; cbn [write_loop]; case_match; try (by intros [= <-]).
  destruct (plan_write _ _ _ _) as [wl| |]; [|done..]. destruct (read_exact_payload _ _) as [[b s']| |]; [|done..].
  destruct (_ && _); [done|]. case_match; [|done]. apply IH.
  unfold submit. cbn. destruct (tx_dead st); [done|]. by destruct (write_events env i).
Qed.

(** When the first write of an upload fails the upload does not answer [Ok]. *)
Lemma first_write_failed env (body : S) start_off f0 L cfg f :
  0 < chunk_size cfg -> 0 < L -> write_events env 0 = WriteFailed ->
  write_object_body env body (DestFile start_off) f0 L cfg = (Returned (Ok tt), f) -> False.
Proof.
  intros Hc HL Hev. unfold write_object_body. cbn [mbind res_bind].
  rewrite (proj2 (Z.eqb_neq L 0)), (proj2 (Z.eqb_neq (chunk_size cfg) 0)) by lia.
  set (direct := _ && (chunk_size cfg mod ALIGN =? 0)).
  destruct (write_loop _ _ _ _ _ _ _ _ _ _) as [[[]| |] st'] eqn:Ew; [|done..]. intros (He & _ & _)%finish_upload_ok.
  destruct (Z.to_nat L) as [|fuel] eqn:Ef; [lia|]. cbn [write_loop] in Ew. rewrite (proj2 (Z.leb_gt L 0)) in Ew by lia.
  destruct (plan_write _ _ _ _) as [wl| |]; [|done..]. destruct (read_exact_payload _ _) as [[b s']| |]; [|done..].
  destruct (_ && (chunk_size cfg <? wl)); [done|]. cbn [tx_dead orb] in Ew. rewrite Hev in Ew. cbn [cancel_seen] in Ew.
  case_match; [|done]. apply write_loop_keeps_err in Ew; [congruence|]. done.
Qed.

(** The same for an empty body, which touches the file only to cut it. *)
Lemma write_object_body_stored (env : upload_env) (body : S) (dest : WriteObjectDest) (f0 f : bytes)
    (logical_len : Z) (cfg : StreamCfg) :
  source_ok body -> 0 < chunk_size cfg -> 0 <= logical_len <= i64_max ->
  (match dest with DestFile start_off => 0 <= start_off | DestPath => True end) ->
  no_cancel env ->
  write_object_body env body dest f0 logical_len cfg = (Returned (Ok tt), f) ->
  logical_len <= blen (payload body) /\ f = stored dest f0 (take (Z.to_nat logical_len) (payload body)).
Proof.
  intros Hs Hc HL Hd Hnc Hw. destruct (Z.eq_dec logical_len 0) as [->|Hne].
  - split; [apply blen_nonneg|]. rewrite take_0. unfold write_object_body in Hw. destruct dest; cbn in *; try congruence.
    destruct (open_ok env); [|done]. destruct (try_preallocate _ _ _) as [g| |] eqn:Ep; [|done..]. cbn in Hw.
    destruct (ftruncate_ok env); [|done]. injection Hw as <-.
    unfold truncate; cbn; apply zeros_nil; pose proof (blen_nonneg g); lia.
  - eapply write_object_body_ok; try done. lia.
Qed.

(** C11. A success answer means the data is there: when [write_object_body]
    returns [Ok] and no chunk met a cancelled token, the body held at least
    [logical_len] payload bytes and the destination holds exactly the first
    [logical_len] of them (a new file holds nothing else, an existing file is
    overwritten at [start_off] and nowhere else); short, failed and unsent
    writes never end in [Ok]. *)
Theorem upload_ok_means_stored (env : upload_env) (body : S) (dest : WriteObjectDest) (f0 f : bytes)
    (logical_len : Z) (cfg : StreamCfg) :
  source_ok body -> 0 < chunk_size cfg -> 0 < logical_len <= i64_max ->
  (match dest with DestFile start_off => 0 <= start_off | DestPath => True end) ->
  no_cancel env ->
  write_object_body env body dest f0 logical_len cfg = (Returned (Ok tt), f) ->
  logical_len <= blen (payload body) /\
  f = stored dest f0 (take (Z.to_nat logical_len) (payload body)).
Proof. apply write_object_body_ok. Qed.

(** An upload that is not disturbed succeeds: with enough payload and a
    kernel that completes every write, no chunk size, alignment or direct
    I/O setting makes the writer fail, panic or run on; it reads exactly
    [logical_len] bytes and answers what the final check of the body
    answers. *)
Theorem upload_completes (env : upload_env) (body : S) (dest : WriteObjectDest) (f0 : bytes)
    (logical_len : Z) (cfg : StreamCfg) :
  source_ok body -> 0 < chunk_size cfg -> 0 < logical_len <= i64_max ->
  logical_len <= blen (payload body) ->
  (match dest with
   | DestFile start_off => 0 <= start_off /\ start_off + logical_len <= u64_max
   | DestPath => True
   end) ->
  open_ok env = true -> ftruncate_ok env = true -> prealloc env <> AllocFailed ->
  (forall i, write_events env i = Written) ->
  exists rest, source_ok rest /\ payload rest = drop (Z.to_nat logical_len) (payload body) /\
    fst (write_object_body env body dest f0 logical_len cfg) =
      Returned (match finish rest with
                | Ok _ => Ok tt
                | Err e => Err (FinishFailed e)
                | Panics => Panics
                end).
Proof.
  intros Hs Hc HL HP Hdest Hop Hft Hpre Hev. unfold write_object_body.
  rewrite (proj2 (Z.eqb_neq logical_len 0)), (proj2 (Z.eqb_neq (chunk_size cfg) 0)), Hop by lia.
  set (direct := _ && (chunk_size cfg mod ALIGN =? 0)).
  assert (direct = true -> chunk_size cfg mod ALIGN = 0) as Hal.
  { intros Hd. subst direct. apply andb_true_iff in Hd as [_ Hd]. by apply Z.eqb_eq. }
  destruct dest as [|so]; cbn [mbind res_bind].
  - destruct (try_preallocate (prealloc env) [] _) as [f1| |] eqn:Ea.
    2,3: exfalso; revert Ea; unfold try_preallocate; case_match; [done|]; by destruct (prealloc env).
    cbn [mbind res_bind].
    destruct (undisturbed_loop env body f1 direct true (chunk_size cfg) 0 logical_len Written)
      as (st' & -> & He & Hk & Hs' & Hp' & _); try (done || lia || by left).
    { unfold i64_max, u64_max in *. lia. }
    exists (src st'). split_and!; try done. unfold finish_upload. rewrite He, Hk, Hft.
    by destruct (finish (src st')).
  - destruct (undisturbed_loop env body f0 direct false (chunk_size cfg) so logical_len Written)
      as (st' & -> & He & Hk & Hs' & Hp' & _); try (done || lia || by left).
    { intros Hd _. subst direct. apply andb_true_iff in Hd as [Hd _]. revert Hd.
      unfold direct_io_ok_for_aligned_range. repeat (case_match; try done). by reflect_all. }
    exists (src st'). split_and!; try done. unfold finish_upload. rewrite He, Hk.
    by destruct (finish (src st')).
Qed.

(** Cancellation is not an error to the writer: when the io_uring thread
    has failed before the upload starts (its token, and so the session's, is
    cancelled), the writer reads the whole body, drops every chunk, records
    no error, and answers [Ok] with a destination of [logical_len] zeros. *)
Theorem cancelled_upload_acknowledged (env : upload_env) (body : S) (f0 : bytes) (logical_len : Z)
    (cfg : StreamCfg) :
  source_ok body -> 0 < chunk_size cfg -> 0 < logical_len <= i64_max ->
  logical_len <= blen (payload body) ->
  open_ok env = true -> ftruncate_ok env = true -> prealloc env <> AllocFailed ->
  (forall i, write_events env i = CancelSeen) ->
  exists rest, source_ok rest /\ payload rest = drop (Z.to_nat logical_len) (payload body) /\
    (finish rest = Ok tt ->
     write_object_body env body DestPath f0 logical_len cfg = (Returned (Ok tt), zeros logical_len)).
Proof.
  intros Hs Hc HL HP Hop Hft Hpre Hev. unfold write_object_body.
  rewrite (proj2 (Z.eqb_neq logical_len 0)), (proj2 (Z.eqb_neq (chunk_size cfg) 0)), Hop by lia.
  set (direct := _ && (chunk_size cfg mod ALIGN =? 0)).
  set (plen := if direct then align_up logical_len ALIGN else logical_len).
  assert (logical_len <= plen) as Hplen.
  { subst plen. destruct direct; [|lia]. unfold i64_max in *.
    apply align_up_bounds; [done|]. unfold u64_max, ALIGN. lia. }
  destruct (try_preallocate (prealloc env) [] plen) as [f1| |] eqn:Ea.
  2,3: exfalso; revert Ea; unfold try_preallocate; case_match; [done|]; by destruct (prealloc env).
  apply try_preallocate_new in Ea as ->; [|lia]. cbn [mbind res_bind].
  destruct (undisturbed_loop env body (zeros plen) direct true (chunk_size cfg) 0 logical_len CancelSeen)
    as (st' & -> & He & Hk & Hs' & Hp' & Hf); try (done || lia || by right).
  { unfold i64_max, u64_max in *. lia. }
  { intros Hd. subst direct. apply andb_true_iff in Hd as [_ Hd]. by apply Z.eqb_eq. }
  exists (src st'). split_and!; try done. intros Hfin. unfold finish_upload.
  rewrite Hfin, He, Hk, Hft, (Hf eq_refl). cbn. by rewrite truncate_zeros by lia.
Qed.
End Properties.

(** ** Witnesses *)
Definition hello : bytes := bytes_of "hello world".
Definition hello_body : Plain.PlainFrameReader := Plain.new [Data (take 3 hello); Data (drop 3 hello)].
Definition env_with (ev : write_event) : upload_env := {|
  open_ok := true; prealloc := AllocUnsupported; ftruncate_ok := true; write_events := fun _ => ev |}.
Definition cfg4 : StreamCfg := {| chunk_size := 4; inflight := 2; direct_io := true |}.

Lemma upload_ok_means_stored_witness :
  11 <= blen (payload hello_body) /\
  write_at (bytes_of "0123") 2 hello = stored (DestFile 2) (bytes_of "0123") (take 11 (payload hello_body)).
Proof.
  apply (upload_ok_means_stored (env_with Written) hello_body (DestFile 2) (bytes_of "0123")
           (write_at (bytes_of "0123") 2 hello) 11 cfg4);
    try (vm_compute; intuition congruence); by intros i.
Defined.

Lemma upload_completes_witness :
  exists rest : Plain.PlainFrameReader, source_ok rest /\ payload rest = drop 11 (payload hello_body) /\
    fst (write_object_body (env_with Written) hello_body DestPath [] 11 cfg4) =
      Returned (match finish rest with Ok _ => Ok tt | Err e => Err (FinishFailed e) | Panics => Panics end).
Proof.
  apply (upload_completes (env_with Written) hello_body DestPath [] 11 cfg4);
    try (vm_compute; intuition congruence); done.
Defined.

Lemma cancelled_upload_acknowledged_witness :
  (exists rest : Plain.PlainFrameReader, source_ok rest /\ payload rest = drop 11 (payload hello_body) /\
    (finish rest = Ok tt ->
     write_object_body (env_with CancelSeen) hello_body DestPath [] 11 cfg4 = (Returned (Ok tt), zeros 11))) /\
  write_object_body (env_with CancelSeen) hello_body DestPath [] 11 cfg4 = (Returned (Ok tt), zeros 11).
Proof.
  split; [|reflexivity].
  apply (cancelled_upload_acknowledged (env_with CancelSeen) hello_body [] 11 cfg4);
    try (vm_compute; intuition congruence); done.
Defined.
