(* ===== verification/Copy.v ===== *)
(** * Copying between files: [copy_range_to_range] and [copy_file_to_file]

    The two copy loops of the gateway (s32p-gateway/src/multipart.rs and
    streaming.rs).  Both read a chunk through one io_uring session and queue
    its write on another; what the kernel answers to a read and what becomes
    of a queued write are parameters, as for downloads and uploads. *)

From Stdlib Require Import ZArith Lia Ascii.
From stdpp Require Import base list strings numbers option.
From S2P Require Import Prelude RustStr Bytes FsHelpers Streaming PayloadSource Upload.

Local Open Scope Z_scope.

Inductive copy_error :=
| CopyReadFailed (m : string) | CopyShortRead | CopyWriteRefused | CopyCancelled
| CopySessionFailed | CopyOpenFailed | CopyPreallocFailed | CopyFtruncateFailed | CopyOutOfFuel.

(** The destination while a copy runs: its content, and whether the write
    session has recorded an error. *)
Record copy_state := { c_file : bytes; c_err : bool }.

(** [dst_sender.write(off, len, buf).await]: [None] when it returns [Err].  A
    write that was queued and fails later is recorded in the session. *)
Definition queue_write (ev : write_event) (off : Z) (data : bytes) (st : copy_state) : option copy_state :=
  match ev with
  | Written => Some {| c_file := write_at (c_file st) off data; c_err := c_err st |}
  | ShortWrite n => Some {| c_file := write_at (c_file st) off (take n data); c_err := true |}
  | WriteFailed => Some {| c_file := c_file st; c_err := true |}
  | SendStopped | CancelSeen | CancelInWrite | SendAbandoned => None
  end.

Section Copies.
(** The source file and the kernel's answers to reads of it. *)
Context (src : bytes).
Context (uring_read read_at : Z -> Z -> res string Z) (open_read : res string unit).
Context (write_events : nat -> write_event).

(** ** [copy_range_to_range] *)
Fixpoint copy_range_loop (fuel : nat) (chunk src_off0 dst_off0 len : Z) (i : nat) (pos : Z) (st : copy_state)
    : res copy_error unit * copy_state :=
  if len <=? pos then (Ok tt, st)
  else
    match fuel with
    | O => (Err CopyOutOfFuel, st)
    | S fuel =>
        let want := Z.min chunk (len - pos) in
        match uring_read (wrap64 (src_off0 + pos)) want with
        | Panics => (Panics, st)
        | Err m => (Err (CopyReadFailed m), st)
        | Ok n =>
            if negb (n =? want) then (Err CopyShortRead, st)
            else
              let data := slice src (wrap64 (src_off0 + pos)) (wrap64 (src_off0 + pos) + n) in
              match queue_write (write_events i) (wrap64 (dst_off0 + pos)) data st with
              | None => (Err CopyWriteRefused, st)
              | Some st => copy_range_loop fuel chunk src_off0 dst_off0 len (i + 1) (pos + want) st
              end
        end
    end.

(** The number of permits is only a bound on reads in flight, but computing
    it divides by the chunk size. *)
Definition copy_range_to_range (src_off0 : Z) (dst : bytes) (dst_off0 len : Z) (cfg : StreamCfg)
    : res copy_error unit * bytes :=
  if len =? 0 then (Ok tt, dst)
  else if chunk_size cfg =? 0 then (Panics, dst)
  else
    match copy_range_loop (Z.to_nat len) (chunk_size cfg) src_off0 dst_off0 len 0 0
            {| c_file := dst; c_err := false |} with
    | (Ok _, st) => ((if c_err st then Err CopySessionFailed else Ok tt), c_file st)
    | (r, st) => (r, c_file st)
    end.

(** ** [copy_file_to_file] *)

(** The closure [plan]: payload length and padded length of a chunk. *)
Definition copy_plan (off end_ chunk : Z) (direct : bool) : Z * Z :=
  let remaining := end_ - off in
  let real_len := Z.min chunk remaining in
  let write_len := if direct then (if real_len =? chunk then chunk else align_up real_len ALIGN) else real_len in
  (real_len, write_len).

(** [read_for_copy]: at least [min_data_len] bytes, padded with zeros. *)
Definition read_for_copy (off read_len min_data_len write_len : Z) : res copy_error bytes :=
  match uring_read off read_len with
  | Panics => Panics
  | Err m => Err (CopyReadFailed m)
  | Ok n => if n <? min_data_len then Err CopyShortRead
            else Ok (slice src off (off + n) ++ zeros (write_len - n))
  end.

(** The futures are polled in order and each success queues one write, so
    reading ahead changes nothing but the number of reads in flight. *)
Fixpoint copy_file_loop (fuel : nat) (chunk : Z) (direct : bool) (scheduled_size : Z) (i : nat) (next_off : Z)
    (st : copy_state) : res copy_error unit * copy_state :=
  if scheduled_size <=? next_off then (Ok tt, st)
  else
    match fuel with
    | O => (Err CopyOutOfFuel, st)
    | S fuel =>
        let '(real_len, write_len) := copy_plan next_off scheduled_size chunk direct in
        match read_for_copy next_off write_len real_len write_len with
        | Panics => (Panics, st)
        | Err e => (Err e, st)
        | Ok data =>
            if cancel_seen (write_events i) then (Err CopyCancelled, st)
            else match queue_write (write_events i) next_off data st with
                 | None => (Err CopyWriteRefused, st)
                 | Some st => copy_file_loop fuel chunk direct scheduled_size (i + 1) (next_off + real_len) st
                 end
        end
    end.

(** The padded tail of a direct copy; [copy_from_slice] panics when the
    buffered read came back short. *)
Definition copy_tail (buf_size aligned_size file_size : Z) (st : copy_state) : res copy_error unit * copy_state :=
  let tail_len := file_size - aligned_size in
  match read_tail_bytes src read_at open_read buf_size aligned_size tail_len with
  | Panics => (Panics, st)
  | Err m => (Err (CopyReadFailed m), st)
  | Ok tail =>
      let write_len := align_up tail_len ALIGN in
      if negb (blen tail =? tail_len) || (buf_size <? write_len) then (Panics, st)
      else match queue_write (write_events (Z.to_nat file_size)) aligned_size (tail ++ zeros (write_len - tail_len)) st with
           | None => (Err CopyWriteRefused, st)
           | Some st => (Ok tt, st)
           end
  end.

Definition copy_file_to_file (env : upload_env) (file_size : Z) (cfg : StreamCfg) : res copy_error unit * bytes :=
  let chunk := chunk_size cfg in
  let direct := direct_io cfg && (chunk <? file_size) && (chunk mod ALIGN =? 0) in
  let aligned_size := if direct then align_down file_size ALIGN else file_size in
  let needs_tail := direct && (aligned_size <? file_size) in
  match open_read with
  | Panics => (Panics, [])
  | Err _ => (Err CopyOpenFailed, [])
  | Ok _ =>
  if negb (open_ok env) then (Err CopyOpenFailed, [])
  else
    let prealloc_len := if direct then align_up file_size ALIGN else file_size in
    match try_preallocate (prealloc env) [] prealloc_len with
    | Panics => (Panics, [])
    | Err _ => (Err CopyPreallocFailed, [])
    | Ok dst =>
        if file_size =? 0 then
          if ftruncate_ok env then (Ok tt, truncate dst 0) else (Err CopyFtruncateFailed, dst)
        else if (0 <? aligned_size) && (chunk =? 0) then (Panics, dst)
        else
          let '(r, st) := copy_file_loop (Z.to_nat aligned_size) chunk direct aligned_size 0 0
                            {| c_file := dst; c_err := false |} in
          let '(r, st) := match r with
                          | Ok _ => if needs_tail then copy_tail chunk aligned_size file_size st else (Ok tt, st)
                          | _ => (r, st)
                          end in
          match r with
          | Ok _ =>
              if c_err st then (Err CopySessionFailed, c_file st)
              else if ftruncate_ok env then (Ok tt, truncate (c_file st) file_size)
              else (Err CopyFtruncateFailed, c_file st)
          | _ => (r, c_file st)
          end
    end
  end.
End Copies.

(** ** What a successful copy leaves behind *)

(** A kernel read returns at most what was asked for and what is there. *)
Definition sane_reads (src : bytes) (rd : Z -> Z -> res string Z) : Prop :=
  forall off len n, 0 <= off -> 0 <= len -> rd off len = Ok n -> 0 <= n <= len /\ (0 < n -> off + n <= blen src).

Section Proofs.
Context (src : bytes).
Context (uring_read read_at : Z -> Z -> res string Z) (open_read : res string unit).
Context (write_events : nat -> write_event).

(** While the session has no error, the destination holds what was queued. *)
Definition copied (dst : bytes) (off : Z) (data : bytes) (st : copy_state) : Prop :=
  c_err st = false -> c_file st = write_at dst off data.

Lemma queue_write_copied dst off a b ev st st' :
  0 <= off -> copied dst off a st -> queue_write ev (off + blen a) b st = Some st' ->
  copied dst off (a ++ b) st'.
Proof.
  intros Ho Hc. unfold copied in *.
  destruct ev; cbn; intros; simplify_eq/=; try done. by rewrite Hc, write_at_app.
Qed.

(** A queued write only touches its own range. *)
Lemma queue_write_frame ev off data st st' (k : nat) x :
  0 <= off -> queue_write ev off data st = Some st' ->
  (k < Z.to_nat off \/ Z.to_nat off + length data <= k)%nat ->
  c_file st !! k = Some x -> c_file st' !! k = Some x.
Proof.
  intros Ho Hq Hk Hx. destruct ev; cbn in Hq; simplify_eq/=; try done.
  - by apply lookup_write_at_out.
  - apply lookup_write_at_out; [done..|]. rewrite length_take. lia.
Qed.

Lemma blen_slice_le (b : bytes) i j : 0 <= i <= j -> blen (slice b i j) <= j - i.
Proof. intros. unfold blen, slice. rewrite length_take. lia. Qed.

Lemma copy_range_loop_ok fuel chunk so d_o len dst i pos st st' :
  sane_reads src uring_read -> 0 < chunk -> 0 <= so -> 0 <= d_o -> so + len <= u64_max -> d_o + len <= u64_max ->
  0 <= pos <= len -> so + pos <= blen src \/ pos = 0 ->
  copied dst d_o (slice src so (so + pos)) st ->
  copy_range_loop src uring_read write_events fuel chunk so d_o len i pos st = (Ok tt, st') ->
  (so + len <= blen src \/ len = 0) /\ copied dst d_o (slice src so (so + len)) st'.
Proof.
  intros Hsane Hc Hso Hdo Hsl Hdl. revert i pos st.
  induction fuel as [|fuel IH]; intros i pos st Hpos Hin Hcp; cbn [copy_range_loop];
    destruct (Z.leb_spec len pos) as [Hle|Hlt];
    try (intros [= <-]; by assert (pos = len) as -> by lia).
  destruct (uring_read _ _) as [n| |] eqn:Er; [|done..].
  destruct (Z.eqb_spec n (Z.min chunk (len - pos))) as [->|]; cbn [negb]; [|done].
  rewrite !wrap64_id in * by (unfold is_u64; lia).
  apply Hsane in Er as [_ Hn]; [|lia..].
  destruct (queue_write _ _ _ _) as [st1|] eqn:Eq; [|done]. apply IH; [lia|lia|].
  replace (d_o + pos) with (d_o + blen (slice src so (so + pos))) in Eq.
  2:{ destruct Hin as [Hin| ->]; [rewrite blen_slice by lia; lia|]. by rewrite slice_empty, blen_nil by lia. }
  apply (queue_write_copied dst) in Eq; [|done..]. by rewrite slice_app, <- Z.add_assoc in Eq by lia.
Qed.

Lemma copy_range_loop_frame fuel chunk so d_o len i pos st r st' (k : nat) x :
  0 < chunk -> 0 <= d_o -> d_o + len <= u64_max -> 0 <= pos <= len ->
  (k < Z.to_nat d_o \/ Z.to_nat (d_o + len) <= k)%nat -> c_file st !! k = Some x ->
  sane_reads src uring_read -> 0 <= so ->
  copy_range_loop src uring_read write_events fuel chunk so d_o len i pos st = (r, st') ->
  c_file st' !! k = Some x.
Proof.
  intros Hc Hdo Hdl Hpos Hk Hx Hsane Hso. revert i pos st Hpos Hx.
  induction fuel as [|fuel IH]; intros i pos st Hpos Hx; cbn [copy_range_loop];
    destruct (Z.leb_spec len pos) as [Hle|Hlt]; try (by intros; simplify_eq).
  destruct (uring_read _ _) as [n| |] eqn:Er; try (by intros; simplify_eq).
  destruct (Z.eqb_spec n (Z.min chunk (len - pos))) as [->|]; cbn [negb]; try (by intros; simplify_eq).
  destruct (queue_write _ _ _ _) as [st1|] eqn:Eq; [|by intros; simplify_eq].
  apply IH; [lia|]. eapply queue_write_frame; [|done| |done].
  - rewrite wrap64_id by (unfold is_u64; lia). lia.
  - rewrite (wrap64_id (d_o + pos)) by (unfold is_u64; lia).
    pose proof (blen_slice_le src (wrap64 (so + pos)) (wrap64 (so + pos) + Z.min chunk (len - pos))) as Hb.
    unfold blen in Hb. assert (0 <= wrap64 (so + pos)) by (apply Z.mod_pos_bound; lia). lia.
Qed.

(** A range copy that answers [Ok] has copied the whole range. *)
Lemma copy_range_ok so dst d_o len cfg f :
  sane_reads src uring_read -> 0 < chunk_size cfg -> 0 <= so -> 0 <= d_o -> 0 <= len ->
  so + len <= u64_max -> d_o + len <= u64_max ->
  copy_range_to_range src uring_read write_events so dst d_o len cfg = (Ok tt, f) ->
  (so + len <= blen src \/ len = 0) /\ f = write_at dst d_o (slice src so (so + len)).
Proof.
  intros Hsane Hc Hso Hdo Hl Hsl Hdl. unfold copy_range_to_range.
  destruct (Z.eqb_spec len 0) as [->|Hne].
  { intros [= <-]. rewrite slice_empty by lia. auto. }
  rewrite (proj2 (Z.eqb_neq (chunk_size cfg) 0)) by lia.
  destruct (copy_range_loop _ _ _ _ _ _ _ _ _ _ _) as [[[]| |] st'] eqn:El; [|done..].
  apply (copy_range_loop_ok _ _ _ _ _ dst) in El; try (done || lia).
  2:{ intros _. by rewrite slice_empty by lia. }
  destruct El as [Hin Hcp]. destruct (c_err st') eqn:Ee; [done|]. intros [= <-]. split; [done|]. by apply Hcp.
Qed.

(** Whatever its outcome, a range copy leaves the rest of the file alone. *)
Lemma copy_range_frame so dst d_o len cfg r f (k : nat) x :
  sane_reads src uring_read -> 0 < chunk_size cfg -> 0 <= so -> 0 <= d_o -> 0 <= len -> d_o + len <= u64_max ->
  (k < Z.to_nat d_o \/ Z.to_nat (d_o + len) <= k)%nat -> dst !! k = Some x ->
  copy_range_to_range src uring_read write_events so dst d_o len cfg = (r, f) -> f !! k = Some x.
Proof.
  intros Hsane Hc Hso Hdo Hl Hdl Hk Hx. unfold copy_range_to_range.
  destruct (len =? 0); [by intros; simplify_eq|].
  destruct (chunk_size cfg =? 0); [by intros; simplify_eq|].
  destruct (copy_range_loop _ _ _ _ _ _ _ _ _ _ _) as [r' st'] eqn:El.
  eapply (copy_range_loop_frame _ _ _ _ _ _ _ _ _ _ k x) in El; try (done || lia).
  destruct r'; intros; by simplify_eq.
Qed.
(** Chunks of the scheduled prefix carry no padding. *)
Lemma copy_plan_exact off end_ chunk direct :
  0 < chunk -> 0 <= off < end_ -> end_ <= i64_max ->
  (direct = true -> chunk mod ALIGN = 0 /\ end_ mod ALIGN = 0 /\ off mod ALIGN = 0) ->
  copy_plan off end_ chunk direct = (Z.min chunk (end_ - off), Z.min chunk (end_ - off)).
Proof.
  intros Hc Ho He Hd. unfold copy_plan. f_equal. destruct direct; [|done]. destruct Hd as (Hca & Hea & Hoa); [done|].
  case_match eqn:E; reflect_all; [by rewrite E|]. apply align_up_aligned; [done|unfold ALIGN, i64_max, u64_max in *; lia|].
  destruct (Z.min_spec chunk (end_ - off)) as [[_ ->]|[_ ->]]; [done|]. by rewrite Zminus_mod, Hea, Hoa.
Qed.

Lemma copy_file_loop_ok fuel chunk direct size dst i off st st' :
  sane_reads src uring_read -> 0 < chunk -> 0 <= off <= size -> size <= i64_max ->
  (direct = true -> chunk mod ALIGN = 0 /\ size mod ALIGN = 0 /\ off mod ALIGN = 0) ->
  off <= blen src -> copied dst 0 (slice src 0 off) st ->
  copy_file_loop src uring_read write_events fuel chunk direct size i off st = (Ok tt, st') ->
  size <= blen src /\ copied dst 0 (slice src 0 size) st'.
Proof.
  intros Hsane Hc. revert i off st.
  induction fuel as [|fuel IH]; intros i off st Hoff Hs Hal Hin Hcp; cbn [copy_file_loop];
    destruct (Z.leb_spec size off) as [Hle|Hlt];
    try (intros [= <-]; by assert (off = size) as -> by lia).
  rewrite copy_plan_exact by (done || lia). set (real := Z.min chunk (size - off)) in *. unfold read_for_copy.
  destruct (uring_read _ _) as [n| |] eqn:Er; [|done..].
  apply Hsane in Er as [Hn1 Hn2]; [|lia..]. destruct (Z.ltb_spec n real); [done|].
  assert (n = real) as -> by lia. assert (off + real <= blen src) by (apply Hn2; lia).
  rewrite zeros_nil, app_nil_r by lia.
  destruct (cancel_seen _); [done|]. destruct (queue_write _ _ _ _) as [st1|] eqn:Eq; [|done].
  apply IH; [lia|lia| |lia|].
  - intros Hd. destruct (Hal Hd) as (? & ? & ?). split_and!; [done..|].
    subst real. destruct (Z.min_spec chunk (size - off)) as [[_ ->]|[_ ->]].
    + rewrite Zplus_mod. by rewrite H1, H3.
    + by replace (off + (size - off)) with size by lia.
  - replace off with (0 + blen (slice src 0 off)) in Eq at 1 by (rewrite blen_slice by lia; lia).
    apply (queue_write_copied dst) in Eq; [|done..]. by rewrite slice_app in Eq by lia.
Qed.

Lemma copy_tail_ok buf aligned size dst st st' :
  sane_reads src read_at -> 0 <= aligned < size -> size <= i64_max -> aligned <= blen src ->
  copied dst 0 (slice src 0 aligned) st ->
  copy_tail src read_at open_read write_events buf aligned size st = (Ok tt, st') ->
  size <= blen src /\ exists pad, copied dst 0 (slice src 0 size ++ zeros pad) st'.
Proof.
  intros Hsane Ha Hs Hin Hcp. unfold copy_tail, read_tail_bytes.
  rewrite (proj2 (Z.eqb_neq _ 0)) by lia. destruct open_read as [[]| |]; [|done..]. cbn [mbind res_bind].
  destruct (buf <? size - aligned); [done|].
  destruct (read_at _ _) as [n| |] eqn:Er; [|done..]. cbn [mbind res_bind].
  apply Hsane in Er as [Hn1 Hn2]; [|lia..]. destruct (Z.eqb_spec n 0); [done|].
  rewrite blen_slice by (lia || (apply Hn2; lia)).
  replace (aligned + n - aligned) with n by lia.
  destruct (Z.eqb_spec n (size - aligned)) as [->|]; cbn [negb orb]; [|done].
  case_match; [done|]. destruct (queue_write _ _ _ _) as [st1|] eqn:Eq; [|done]. intros [= <-].
  assert (aligned + (size - aligned) <= blen src) by (apply Hn2; lia). split; [lia|].
  replace aligned with (0 + blen (slice src 0 aligned)) in Eq at 1 by (rewrite blen_slice by lia; lia).
  apply (queue_write_copied dst) in Eq; [|done..].
  rewrite app_assoc, slice_app in Eq by lia. replace (aligned + (size - aligned)) with size in Eq by lia. eauto.
Qed.

(** The end of a copy: no session error, and the padding is cut off. *)
Lemma copy_end (dst : bytes) (size pad : Z) (st : copy_state) (ok : bool) (f : bytes) :
  0 <= size -> size <= blen src -> copied dst 0 (slice src 0 size ++ zeros pad) st ->
  (if c_err st then (Err CopySessionFailed, c_file st)
   else if ok then (@Ok copy_error _ tt, truncate (c_file st) size) else (Err CopyFtruncateFailed, c_file st)) = (Ok tt, f) ->
  size <= blen src /\ f = slice src 0 size.
Proof.
  intros Hs Hin Hcp. destruct (c_err st) eqn:Ee; [done|]. destruct ok; [|done].
  intros [= <-]. split; [done|]. rewrite Hcp by done.
  replace size with (blen (slice src 0 size)) at 2 by (rewrite blen_slice by lia; lia).
  apply truncate_write_prefix.
Qed.

Lemma copy_file_ok (env : upload_env) (file_size : Z) (cfg : StreamCfg) (f : bytes) :
  sane_reads src uring_read -> sane_reads src read_at -> 0 < chunk_size cfg -> 0 <= file_size <= i64_max ->
  copy_file_to_file src uring_read read_at open_read write_events env file_size cfg = (Ok tt, f) ->
  file_size <= blen src /\ f = slice src 0 file_size.
Proof.
  intros Hu Hr Hc Hs. unfold copy_file_to_file.
  set (direct := direct_io cfg && _ && _). set (asz := if direct then align_down file_size ALIGN else file_size).
  assert (direct = true -> chunk_size cfg mod ALIGN = 0) as Hdc.
  { subst direct. intros Hd. apply andb_true_iff in Hd as [_ Hd]. by apply Z.eqb_eq. }
  assert (0 <= asz <= file_size /\ (direct = true -> asz mod ALIGN = 0) /\ (direct = false -> asz = file_size)) as (Ha & Hal & Hnd).
  { subst asz. destruct direct; [|split_and!; lia || done].
    pose proof (align_down_le file_size ALIGN ltac:(done)). pose proof (align_down_nonneg file_size ALIGN ltac:(done) ltac:(lia)).
    split; [lia|]. split; [intros _; by apply align_down_mod|discriminate]. }
  destruct open_read as [[]| |] eqn:Eo; [|done..]. destruct (open_ok env); cbn [negb]; [|done].
  destruct (try_preallocate _ _ _) as [dst| |]; [|done..].
  destruct (Z.eqb_spec file_size 0) as [->|Hne].
  { destruct (ftruncate_ok env); [|done]. intros [= <-]. pose proof (blen_nonneg src). split; [done|].
    rewrite slice_empty by lia. unfold truncate. rewrite zeros_nil by (pose proof (blen_nonneg dst); lia). done. }
  rewrite (proj2 (Z.eqb_neq (chunk_size cfg) 0)), andb_false_r by lia.
  destruct (copy_file_loop _ _ _ _ _ _ _ _ _ _) as [[[]| |] st1] eqn:El; [|done..].
  apply (copy_file_loop_ok _ _ _ _ dst) in El; [|done|done|lia|lia|auto|apply blen_nonneg|].
  2:{ intros _. by rewrite slice_empty by lia. }
  destruct El as [Hin Hcp].
  destruct direct eqn:Ed; cbn [andb].
  - destruct (Z.ltb_spec asz file_size) as [Hlt|Hge].
    + destruct (copy_tail _ _ _ _ _ _ _ _) as [[[]| |] st2] eqn:Et; [|done..]. rewrite <- Eo in Et.
      apply (copy_tail_ok _ _ _ dst) in Et; [|done|lia|lia|lia|done]. destruct Et as (Hfs & pad & Hc2).
      eapply copy_end; [lia|done|done].
    + assert (asz = file_size) as E by lia. rewrite E in *. apply (copy_end dst _ 0); [lia|done|]. by rewrite app_nil_r.
  - rewrite Hnd in * by done. apply (copy_end dst _ 0); [lia|done|]. by rewrite app_nil_r.
Qed.
(** A file copy that answers [Ok] has copied the file: the source held at
    least [file_size] bytes and the new file is exactly the first [file_size]
    of them, with or without direct I/O and its padded tail. *)
Theorem copy_file_ok_means_copied (env : upload_env) (file_size : Z) (cfg : StreamCfg) (f : bytes) :
  sane_reads src uring_read -> sane_reads src read_at -> 0 < chunk_size cfg -> 0 <= file_size <= i64_max ->
  copy_file_to_file src uring_read read_at open_read write_events env file_size cfg = (Ok tt, f) ->
  file_size <= blen src /\ f = slice src 0 file_size.
Proof. apply copy_file_ok. Qed.
End Proofs.

(** ** Witness *)
Definition count_in (src : bytes) (off len : Z) : res string Z := Ok (Z.max 0 (Z.min len (blen src - off))).

Lemma count_in_sane src : sane_reads src (count_in src).
Proof. intros off len n Ho Hl [= <-]. pose proof (blen_nonneg src). lia. Qed.

Lemma copy_file_ok_means_copied_witness :
  11 <= blen hello /\
  snd (copy_file_to_file hello (count_in hello) (count_in hello) (Ok tt) (fun _ => Written) (env_with Written) 11
         {| chunk_size := 4; inflight := 2; direct_io := false |}) = slice hello 0 11.
Proof.
  apply (copy_file_ok_means_copied hello (count_in hello) (count_in hello) (Ok tt) (fun _ => Written)
           (env_with Written) 11 {| chunk_size := 4; inflight := 2; direct_io := false |});
    [apply count_in_sane..|done|done|reflexivity].
Defined.
