(* ===== verification/GatewayHelpers.v ===== *)
(** * s32p-gateway/src/main.rs: helpers of the object handlers

    The length of a request body, the copy source, the reserved key prefix
    and the ETag of an object. *)

From Stdlib Require Import ZArith Lia Ascii.
From stdpp Require Import base list strings numbers option.
From S2P Require Import Prelude RustStr Http Utils UriEncoding S3Resp Bytes FsHelpers PayloadSource ChunkCodec.

Local Open Scope s3_scope.
Local Open Scope Z_scope.

(** ** Body length *)

(** [LengthError] *)
Inductive LengthError := Missing (header : string) | Malformed (msg : string).

(** [LengthError::into_response] *)
Definition length_error_response (e : LengthError) (resource : string) : HttpResponse :=
  match e with
  | Missing header => missing_content_length ("missing header " +:+ header) (Some resource)
  | Malformed msg => invalid_request msg (Some resource)
  end.

(** [parse_u64_header] *)
Definition parse_u64_header (headers : header_map) (name : string) : res LengthError Z :=
  v ← ok_or (hm_get headers name) (Missing name);
  v ← ok_or v (Malformed ("invalid utf8 in header " +:+ name));
  ok_or (parse_u64_str v) (Malformed ("invalid integer in header " +:+ name +:+ ": " +:+ v)).

(** [compute_logical_len]: is the body aws-chunked, and how many payload
    bytes does it announce *)
Definition compute_logical_len (headers : header_map) : res LengthError (bool * Z) :=
  let is_streaming := match hm_get headers "x-amz-content-sha256" with
                      | Some (Some v) => starts_with "STREAMING-" v
                      | _ => false
                      end in
  logical_len ← parse_u64_header headers
                  (if is_streaming then "x-amz-decoded-content-length" else "content-length");
  Ok (is_streaming, logical_len).

(** ** Request bodies held in memory *)

(** [XML_BODY_MAX_BYTES], [content_length_over_cap] and [collect_body_capped];
    [show] displays the error of the body stream. *)
Definition XML_BODY_MAX_BYTES : Z := 1024 * 1024.
Inductive BodyCapErr := TooLarge (advertised : option Z) | ReadBody (m : string).
Definition content_length_over_cap (headers : header_map) (cap : Z) : option Z :=
  match hm_get headers "content-length" with
  | Some (Some v) =>
      match parse_u64_str v with
      | Some advertised => if cap <? advertised then Some advertised else None
      | None => None
      end
  | _ => None
  end.
(** [Limited::new(body, cap).collect()] *)
Fixpoint collect_limited (show : io_error -> string) (remaining : Z) (items : list item) : res BodyCapErr bytes :=
  match items with
  | [] => Ok []
  | Data b :: items =>
      if remaining <? blen b then Err (TooLarge None)
      else rest ← collect_limited show (remaining - blen b) items; Ok (b ++ rest)
  | Failed e :: _ => Err (ReadBody (show e))
  end.
Definition collect_body_capped (show : io_error -> string) (headers : header_map) (body : list item) (cap : Z)
    : res BodyCapErr bytes :=
  match content_length_over_cap headers cap with
  | Some advertised => Err (TooLarge (Some advertised))
  | None => collect_limited show cap body
  end.

(** ** Copy source *)
Section copy_source.
(** [percent_decode(..).decode_utf8()] of the percent-encoding crate *)
Context (percent_decode_utf8 : string -> option string).

(** [parse_copy_source] *)
Definition parse_copy_source (headers : header_map) : res string (string * string) :=
  raw ← ok_or (hm_get headers "x-amz-copy-source") "missing x-amz-copy-source"%string;
  raw ← ok_or raw "invalid x-amz-copy-source"%string;
  let raw := trim raw in
  let raw := match split_once "?" raw with Some (p, _) => p | None => raw end in
  let raw := trim_start_matches "/" raw in
  if is_empty raw then Err "invalid x-amz-copy-source"%string
  else
    let decoded := percent_decode_path_segments_lossy percent_decode_utf8 raw in
    let '(bucket, key) := match split_once "/" decoded with Some bk => bk | None => (decoded, ""%string) end in
    if is_empty bucket || is_empty key then Err "invalid x-amz-copy-source (expected /bucket/key)"%string
    else Ok (bucket, key).
End copy_source.

(** ** The reserved prefix *)

(** [is_reserved_first_segment] *)
Definition is_reserved_first_segment (key_or_prefix mpu_dir_name : string) : bool :=
  let key_or_prefix := trim_end_matches "/" key_or_prefix in
  if key_or_prefix =s mpu_dir_name then true
  else match strip_prefix mpu_dir_name key_or_prefix with
       | Some rest => starts_with "/" rest
       | None => false
       end.

(** ** ETags *)

(** The local [mix] of [format_object_etag_unquoted] (splitmix64) *)
Definition etag_mix (z : Z) : Z :=
  let z := wrap64 (Z.lxor z (Z.shiftr z 30) * 0xbf58476d1ce4e5b9) in
  let z := wrap64 (Z.lxor z (Z.shiftr z 27) * 0x94d049bb133111eb) in
  Z.lxor z (Z.shiftr z 31).

(** [format!("{n:016x}")] *)
Definition zero_pad (w : nat) (s : string) : string :=
  String.string_of_list_ascii (replicate (w - String.length s) "0"%char) +:+ s.
Definition hex16 (n : Z) : string := zero_pad 16 (print_hex n).

(** [format_object_etag_unquoted]; [mtime] in nanoseconds since the epoch *)
Definition format_object_etag_unquoted (ino : Z) (mtime : system_time) (size : Z) : string :=
  let mtime_ns := wrap64 mtime in
  (hex16 ino +:+ hex16 (etag_mix (Z.lxor mtime_ns (etag_mix size))) +:+ "-1")%string.

(** [format_object_etag] *)
Definition format_object_etag (ino : Z) (mtime : system_time) (size : Z) : string :=
  (quote +:+ format_object_etag_unquoted ino mtime size +:+ quote)%string.

(** [etag_matches] of the gateway, with its local [unquote] *)
Definition unquote (s : string) : string :=
  match strip_prefix quote s with
  | Some r => default s (strip_suffix quote r)
  | None => s
  end.
Definition loose_etag_matches (have want : string) : bool := unquote (trim have) =s unquote (trim want).

(** ** The reserved prefix guards exactly the paths it should, but for one *)

Lemma head_split_app c t r : head (split c (t +:+ String c r)) = head (split c t).
Proof.
  induction t as [|x t IH]; cbn; [by rewrite Ascii.eqb_refl|]. destruct (x =c c); [done|].
  destruct (split c (t +:+ String c r)), (split c t); cbn in *; congruence.
Qed.

Lemma trim_end_spec c s : trim_end_matches c s = s \/ exists r, s = trim_end_matches c s +:+ String c r.
Proof.
  induction s as [|x s IH]; cbn; [by left|]. destruct (trim_end_matches c s) as [|y t] eqn:Et.
  - destruct (Ascii.eqb_spec x c) as [->|]; [right; by exists s|].
    destruct IH as [<-|[r ->]]; [by left|right; by exists r].
  - destruct IH as [<-|[r Hr]]; [by left|right]. exists r. rewrite Hr at 1. done.
Qed.

Lemma trim_end_head c s : head (split c (trim_end_matches c s)) = head (split c s).
Proof.
  destruct (trim_end_spec c s) as [->|[r Hr]]; [done|]. rewrite Hr at 2. by rewrite head_split_app.
Qed.

(** The test looks at the first segment of the trimmed key. *)
Lemma reserved_head key mpu :
  contains_char "/" mpu = false ->
  is_reserved_first_segment key mpu = true <-> head (split "/" (trim_end_matches "/" key)) = Some mpu.
Proof.
  intros Hm. unfold is_reserved_first_segment. set (t := trim_end_matches "/" key). rewrite split_head.
  destruct (t =s mpu) eqn:E; reflect_all.
  { rewrite E. by rewrite (proj2 (split_once_none "/" mpu)). }
  destruct (split_once "/" t) as [[a b]|] eqn:Es.
  - apply split_once_some in Es as [-> Ha]. split.
    + destruct (strip_prefix _ _) as [r|] eqn:Ep; [|done]. apply strip_prefix_some in Ep.
      rewrite starts_with_spec. intros (r' & ->). f_equal.
      assert (split_once "/" (mpu +:+ String "/" r') = Some (mpu, r')) as H1 by (apply split_once_some; done).
      assert (split_once "/" (a +:+ String "/" b) = Some (a, b)) as H2 by (apply split_once_some; done).
      cbn in Ep. rewrite Ep in H2. congruence.
    + intros [= ->]. by rewrite strip_prefix_app.
  - split; [|naive_solver]. destruct (strip_prefix _ _) as [r|] eqn:Ep; [|done].
    apply strip_prefix_some in Ep as Ht. rewrite starts_with_spec. intros (r' & ->).
    apply split_once_none in Es. exfalso. rewrite Ht in Es. clear -Es.
    induction mpu as [|x mpu IH]; cbn in Es; [done|]. apply orb_false_iff in Es as [_ Es]. auto.
Qed.

(** Which keys the gateway refuses as reserved.  A key whose path lies in
    the multipart directory of the bucket is recognised, and nothing else is,
    provided the key does not start with a slash; a key that starts with a
    slash is never recognised, although empty segments are dropped when the
    path is built, so that [/.s32p-mpu/uploads/x] passes the guard and names a
    file of an upload in progress. *)
Theorem reserved_guard_exact (root : list string) (bucket key mpu : string) (p : list string) :
  mpu <> ""%string -> contains_char "/" mpu = false ->
  join_object_path root bucket key = Ok p ->
  (is_reserved_first_segment key mpu = true <->
   starts_with "/" key = false /\ p !! S (length root) = Some mpu).
Proof.
  intros Hne Hm Hj. rewrite reserved_head by done.
  unfold join_object_path in Hj. case_match eqn:Eb; [done|].
  apply push_parts_ok in Hj as [-> Hs]; [|apply split_no_sep].
  assert (((root ++ [bucket]) ++ filter (fun x => x <> ""%string) (split "/" key)) !! S (length root)
          = head (filter (fun x => x <> ""%string) (split "/" key))) as ->.
  { rewrite lookup_app_r by (rewrite length_app; cbn; lia). rewrite length_app. cbn.
    replace (S (length root) - (length root + 1))%nat with 0%nat by lia. by destruct (filter _ _). }
  rewrite trim_end_head. destruct key as [|x key]; [cbn; split; [congruence|naive_solver]|].
  rewrite starts_with_char. cbn. destruct (x =c "/") eqn:Est; [cbn; split; [congruence|naive_solver]|].
  destruct (split "/" key) as [|h t]; (rewrite filter_cons_True by done); cbn; naive_solver.
Qed.

Lemma reserved_guard_exact_witness :
  is_reserved_first_segment "/.s32p-mpu/uploads/x" ".s32p-mpu" = false /\
  (is_reserved_first_segment ".s32p-mpu//uploads/" ".s32p-mpu" = true <->
   starts_with "/" ".s32p-mpu//uploads/" = false /\
   ["export"; "b"; ".s32p-mpu"; "uploads"]%string !! 2%nat = Some ".s32p-mpu"%string).
Proof.
  split; [reflexivity|].
  apply (reserved_guard_exact ["export"%string] "b" ".s32p-mpu//uploads/" ".s32p-mpu"
           ["export"; "b"; ".s32p-mpu"; "uploads"]%string); [discriminate|reflexivity|reflexivity].
Defined.

(** ** ETags identify an object's state *)

Lemma xorshift_inj x y k : 0 <= x -> 0 <= y -> 0 < k ->
  Z.lxor x (Z.shiftr x k) = Z.lxor y (Z.shiftr y k) -> x = y.
Proof.
  intros Hx Hy Hk H. apply Z.lxor_eq. set (d := Z.lxor x y).
  assert (d = Z.shiftr d k) as Hd.
  { subst d. rewrite Z.shiftr_lxor. apply Z.bits_inj'. intros n Hn.
    apply (f_equal (fun z => Z.testbit z n)) in H. rewrite !Z.lxor_spec in *.
    destruct (Z.testbit x n), (Z.testbit y n), (Z.testbit (Z.shiftr x k) n), (Z.testbit (Z.shiftr y k) n); done. }
  assert (0 <= d) as H0 by (apply Z.lxor_nonneg; lia).
  rewrite Z.shiftr_div_pow2 in Hd by lia.
  destruct (Z.eq_dec d 0); [done|]. assert (1 < 2 ^ k) by (by apply Z.pow_gt_1).
  pose proof (Z.div_lt d (2 ^ k)). lia.
Qed.

Lemma mul_odd_inj a b c c' : c * c' mod 2 ^ 64 = 1 -> is_u64 a -> is_u64 b ->
  wrap64 (a * c) = wrap64 (b * c) -> a = b.
Proof.
  intros Hc Ha Hb H. unfold wrap64 in H.
  assert (forall z, is_u64 z -> (z * c) mod 2 ^ 64 * c' mod 2 ^ 64 = z) as Hinv.
  { intros z Hz. rewrite Z.mul_mod_idemp_l by done. rewrite <- Z.mul_assoc, <- Z.mul_mod_idemp_r, Hc, Z.mul_1_r by done.
    by apply wrap64_id. }
  rewrite <- (Hinv a Ha), <- (Hinv b Hb). by rewrite H.
Qed.

Lemma log2_u64 x : is_u64 x -> Z.log2 x < 64.
Proof.
  unfold is_u64, u64_max. intros Hx. destruct (Z.eq_dec x 0) as [->|]; [done|]. apply Z.log2_lt_pow2; lia.
Qed.

Lemma lxor_u64 x y : is_u64 x -> is_u64 y -> is_u64 (Z.lxor x y).
Proof.
  intros Hx Hy. pose proof (log2_u64 x Hx). pose proof (log2_u64 y Hy). unfold is_u64, u64_max in *.
  assert (0 <= Z.lxor x y) as Hpos by (apply Z.lxor_nonneg; lia). split; [done|].
  destruct (Z.eq_dec (Z.lxor x y) 0) as [->|Hne]; [done|].
  assert (Z.lxor x y < 2 ^ 64); [|lia]. apply Z.log2_lt_pow2; [lia|].
  pose proof (Z.log2_lxor x y). lia.
Qed.

Lemma xorshift_u64 x k : is_u64 x -> 0 <= k -> is_u64 (Z.lxor x (Z.shiftr x k)).
Proof.
  intros Hx Hk. apply lxor_u64; [done|]. unfold is_u64 in *. rewrite Z.shiftr_div_pow2 by done.
  split; [apply Z.div_pos; lia|]. apply Z.div_le_upper_bound; [lia|].
  pose proof (Z.pow_pos_nonneg 2 k). unfold u64_max in *. nia.
Qed.

Lemma wrap64_u64 z : is_u64 (wrap64 z).
Proof. unfold is_u64, u64_max, wrap64. pose proof (Z.mod_pos_bound z (2 ^ 64)). lia. Qed.
#[export] Hint Resolve wrap64_u64 xorshift_u64 : s3.

Lemma etag_mix_u64 z : is_u64 (etag_mix z).
Proof. unfold etag_mix. apply xorshift_u64; [apply wrap64_u64|lia]. Qed.

Lemma etag_mix_inj a b : is_u64 a -> is_u64 b -> etag_mix a = etag_mix b -> a = b.
Proof.
  intros Ha Hb H. unfold etag_mix in H.
  apply xorshift_inj in H; [|apply wrap64_u64..|lia].
  apply (mul_odd_inj _ _ _ 0x319642b2d24d8ec3) in H; [|vm_compute; done|apply xorshift_u64; [apply wrap64_u64|lia]..].
  apply xorshift_inj in H; [|apply wrap64_u64..|lia].
  apply (mul_odd_inj _ _ _ 0x96de1b173f119089) in H; [|vm_compute; done|by apply xorshift_u64..].
  apply xorshift_inj in H; [done|unfold is_u64 in *; lia..].
Qed.

Lemma hex_digits_zeros n s : AwsChunked.hex_digits 0 (String.string_of_list_ascii (replicate n "0"%char) +:+ s) = AwsChunked.hex_digits 0 s.
Proof. induction n as [|n IH]; [done|]. done. Qed.

Lemma hex_digits_hex16 n : is_u64 n -> AwsChunked.hex_digits 0 (hex16 n) = Some n.
Proof.
  intros Hn. unfold hex16, zero_pad. rewrite hex_digits_zeros. unfold print_hex.
  rewrite hex_digits_print; [done|lia|done|]. unfold is_u64, u64_max in Hn. cbn. lia.
Qed.

Lemma hex16_inj a b : is_u64 a -> is_u64 b -> hex16 a = hex16 b -> a = b.
Proof.
  intros Ha Hb H. apply (f_equal (AwsChunked.hex_digits 0)) in H. rewrite !hex_digits_hex16 in H by done. congruence.
Qed.

Lemma hex_print_length fuel n s : (String.length (hex_print fuel n s) <= fuel + String.length s)%nat.
Proof.
  revert n s. induction fuel as [|fuel IH]; intros n s; cbn [hex_print]; [lia|].
  case_match; cbn; [lia|]. etrans; [apply IH|]. cbn. lia.
Qed.

Lemma hex16_length n : String.length (hex16 n) = 16%nat.
Proof.
  unfold hex16, zero_pad. rewrite str_length_app.
  assert (String.length (print_hex n) <= 16)%nat.
  { unfold print_hex. etrans; [apply hex_print_length|]. done. }
  assert (forall k, String.length (String.string_of_list_ascii (replicate k "0"%char)) = k) as ->.
  { induction k; cbn; congruence. } lia.
Qed.

Lemma str_app_inj_len a b a' b' : String.length a = String.length a' -> a +:+ b = a' +:+ b' -> a = a' /\ b = b'.
Proof.
  revert a'. induction a as [|x a IH]; intros [|y a']; cbn; intros Hl H; simplify_eq; [done|].
  destruct (IH a') as [-> ->]; auto.
Qed.

(** An ETag tells states of objects apart: equal ETags mean the same inode,
    and with the same modification time the same size, with the same size the
    same modification time (to the nanosecond, modulo 2^64).  An in-place
    rewrite that changes only the size or only the time always changes the
    ETag. *)
Theorem etag_identifies (ino ino' size size' : Z) (mtime mtime' : system_time) :
  is_u64 ino -> is_u64 ino' -> is_u64 size -> is_u64 size' ->
  format_object_etag ino mtime size = format_object_etag ino' mtime' size' ->
  ino = ino' /\ (size = size' <-> wrap64 mtime = wrap64 mtime').
Proof.
  intros Hi Hi' Hs Hs' H. unfold format_object_etag, format_object_etag_unquoted in H.
  apply str_app_inv_l in H.
  apply str_app_inj_len in H as [H _].
  2:{ rewrite !str_length_app, !hex16_length. done. }
  apply str_app_inj_len in H as [H1 H2]; [|by rewrite !hex16_length].
  apply str_app_inj_len in H2 as [H2 _]; [|by rewrite !hex16_length].
  apply hex16_inj in H1; [|done..]. apply hex16_inj in H2; [|apply etag_mix_u64..].
  apply etag_mix_inj in H2; [|apply lxor_u64; [apply wrap64_u64|apply etag_mix_u64]..].
  split; [done|]. split.
  - intros ->. apply (f_equal (fun z => Z.lxor z (etag_mix size'))) in H2.
    by rewrite !Z.lxor_assoc, !Z.lxor_nilpotent, !Z.lxor_0_r in H2.
  - intros Hm. rewrite Hm in H2. apply (f_equal (Z.lxor (wrap64 mtime'))) in H2.
    rewrite <- !Z.lxor_assoc, !Z.lxor_nilpotent, !Z.lxor_0_l in H2. by apply etag_mix_inj in H2.
Qed.

Lemma etag_identifies_witness :
  7 = 7 /\ (4096 = 4096 <-> wrap64 (-5) = wrap64 (2 ^ 64 - 5)).
Proof.
  apply (etag_identifies 7 7 4096 4096 (-5) (2 ^ 64 - 5));
    [unfold is_u64, u64_max; lia..|vm_compute; reflexivity].
Defined.
