(* ===== verification/Objects.v ===== *)
(** * s32p-gateway/src/main.rs: the object handlers, common part

    The state of the handlers (the tree of files and the per-device cache of
    attribute support), the system calls they make, the attribute helpers of
    fs_helpers.rs, and the checks the handlers share.  Whatever the kernel or
    a crate decides is a field of [ObjEnv]. *)

From Stdlib Require Import ZArith Lia Ascii.
From stdpp Require Import base list strings numbers option gmap sorting.
From S2P Require Import Classifier.
From S2P Require Import Prelude RustStr Http Utils Preconditions UriEncoding S3Resp S3Xml Bytes FsHelpers FileSystem Handler Idempotency Streaming PayloadSource Upload Copy GatewayHelpers.

Local Open Scope s3_scope.
Local Open Scope Z_scope.

(** ** State, requests and replies *)
Record world := { files : filesystem; xattr_support : gmap Z bool; idempotency : gmap string EntryState }.

Definition set_files (fs : filesystem) (w : world) : world :=
  {| files := fs; xattr_support := xattr_support w; idempotency := idempotency w |}.
Definition set_idempotency (c : gmap string EntryState) (w : world) : world :=
  {| files := files w; xattr_support := xattr_support w; idempotency := c |}.

Record object_request := {
  oq_headers : header_map;
  oq_path : string;
  oq_query : QueryParams;
  oq_body : list item;
  oq_class : S3RequestClass;
}.

(** A body is in memory, or what the streaming task sends and how it ends. *)
Inductive body := InMemory (b : bytes) | Streamed (o : outcome).

Record object_response := {
  or_status : Z;
  or_body : body;
  or_content_type : string;
  or_content_length : Z;
  or_etag : string;
  or_last_modified : string;
  or_content_range : option string;
  or_user_meta : list (string * string);
}.

Record DeleteErrorInfo := { de_key : string; de_code : string; de_message : string }.

Inductive obj_reply :=
| Error (r : HttpResponse)
| PutObjectOk (etag : string)
| ObjectReply (r : object_response)
| NotModifiedReply (etag last_modified : string)
| CopyObjectOk (etag last_modified : string)
| DeleteNoContent
| DeleteObjectsResult (deleted : list string) (errors : list DeleteErrorInfo)
| RenameReply (status : Z) (b : string)
| TaggingReply (tags : string)
| PutTaggingOk
| DeleteTaggingOk
| AclReply (owner_id display_name : string) (world_readable : bool)
| PutAclOk
| HeadBucketOk (region : string)
| LocationReply (region : string).

Definition Act (A : Type) : Type := handler world obj_reply A.

(** Call sites whose outcome the kernel decides *)
Inductive call :=
| CMetadata | CMetadataAfter | CSymlinkMetadata | COpen | CFstat | CFstatAfter | CFlock
| CMkdir | CUnlink | CRmdir | CRename | CRenameNoreplace | CXattrGet (name : string) | CXattrSet (name : string) | CXattrRemove (name : string)
| CXattrList.

(** Why a copy stopped *)
Inductive copy_failure :=
| CopyMkdirFailed (p : path) (e : io_kind) | CopySourceFailed (m : string) | CopyOpenAt (p : path) (e : io_kind) | CopyFailed (e : copy_error).
(** Why an object could not be written *)
Inductive write_failure := MkdirFailed (p : path) (e : io_kind) | OpenFailedAt (p : path) (e : io_kind) | BodyFailed (e : upload_error).

Class ObjEnv := {
  o_posix_root : path;
  o_mpu_dir_name : string;
  o_stream_cfg : StreamCfg;
  o_copy_max_size : Z;
  o_max_tokens : Z;
  o_region : string;
  (* an error the kernel answers for reasons outside the tree *)
  fault : call -> path -> option io_kind;
  (* the device of a path, and whether it stores [user.*] attributes *)
  device : path -> Z;
  device_xattrs : Z -> bool;
  (* whether [O_DIRECT] opens succeed on the file system of a path *)
  o_direct : path -> bool;
  (* what a new node gets, and the time of a write *)
  fresh_ino : path -> Z;
  process_uid : Z;
  (* the name service *)
  o_owner_info : Z -> string * string;
  now : system_time;
  instant_now : Z;
  (* the kernel's side of a body *)
  o_body_env : upload_env;
  (* its answers to reads of the file at a path, and to opening it again for
     a stream; after how many frames the client goes away *)
  o_uring_read : path -> Z -> Z -> res string Z;
  o_read_at : path -> Z -> Z -> res string Z;
  o_open_read : path -> res string unit;
  client_leaves : option nat;
  (* [multirange_boundary] *)
  new_boundary : string;
  (* the crates: url, mime_guess, httpdate, percent-encoding, and the display
     of errors *)
  o_form :: FormCodec;
  mime_guess : path -> option string;
  (* the events [quick-xml] reads from a body, up to [Eof] *)
  xml_events : bytes -> list xml_event;
  fmt_http_date : system_time -> string;
  o_format_s3_time : system_time -> string;
  o_httpdate_parse : string -> option system_time;
  o_percent_decode_utf8 : string -> option string;
  show_io : io_kind -> string;
  show_write : write_failure -> string;
  show_copy : copy_failure -> string;
  o_show_cond_error : cond_error -> string;
  o_show_util_error : util_error -> string;
  show_body_error : io_error -> string;
}.

Definition refuse {A} (r : HttpResponse) : Act A := reply_with (Error r).
Definition refuse_if (b : bool) (r : HttpResponse) : Act unit := reply_if b (Error r).
(** [match r { Ok(a) => a, Err(e) => return f(e) }] *)
Definition or_refuse {A X} (r : res X A) (f : X -> HttpResponse) : Act A := unwrap_or_reply r (fun e => Error (f e)).

Definition error400 (code message path : string) : HttpResponse := s3_error 400 code message (Some path) None.

Section Calls.
Context {E : ObjEnv}.

(** ** System calls *)

(** A call that only looks, and a call that changes the tree *)
Definition look {A} (c : call) (p : path) (f : filesystem -> res io_kind A) : Act (res io_kind A) :=
  get (fun w => match fault c p with Some e => Err e | None => f (files w) end).
Definition change (c : call) (p : path) (f : filesystem -> res io_kind filesystem) : Act (res io_kind unit) := fun w =>
  match fault c p with
  | Some e => (Next (Err e), w)
  | None => match f (files w) with
            | Ok fs => (Next (Ok tt), set_files fs w)
            | Err e => (Next (Err e), w)
            | Panics => (Next Panics, w)
            end
  end.

Definition fresh (p : path) (mode : Z) : inode :=
  {| i_ino := fresh_ino p; i_mtime := now; i_mode := mode; i_uid := process_uid; i_xattrs := ∅ |}.
Definition touch (i : inode) : inode :=
  {| i_ino := i_ino i; i_mtime := now; i_mode := i_mode i; i_uid := i_uid i; i_xattrs := i_xattrs i |}.

Definition metadata (c : call) (p : path) : Act (res io_kind node) := look c p (fun fs => stat fs p).
Definition symlink_metadata (p : path) : Act (res io_kind node) := look CSymlinkMetadata p (fun fs => lstat fs p).

(** [std::fs::create_dir_all] *)
Definition try_mkdir (p : path) (fs : filesystem) : res io_kind filesystem :=
  match fault CMkdir p with Some e => Err e | None => mkdir (fresh p 493) p fs end.
Fixpoint make_dirs (n : nat) (p : path) (fs : filesystem) : res io_kind unit * filesystem :=
  match try_mkdir p fs with
  | Ok fs' => (Ok tt, fs')
  | Panics => (Panics, fs)
  | Err e =>
      if bool_decide (e = NotFound) then
        match n with
        | O => (Err (OtherIo "failed to create whole tree"), fs)
        | S n =>
            match make_dirs n (parent p) fs with
            | (Ok _, fs') =>
                match try_mkdir p fs' with
                | Ok fs'' => (Ok tt, fs'')
                | Panics => (Panics, fs')
                | Err e => if is_dir fs' p then (Ok tt, fs') else (Err e, fs')
                end
            | r => r
            end
        end
      else if is_dir fs p then (Ok tt, fs) else (Err e, fs)
  end.
Definition create_dir_all (p : path) : Act (res io_kind unit) := fun w =>
  let '(r, fs) := make_dirs (length p) p (files w) in (Next r, set_files fs w).

(** [open_file]: the modes that write.  [O_CREAT] through a link to nothing
    creates what the link names. *)
Definition open_truncate (p : path) (fs : filesystem) : res io_kind filesystem :=
  match fs !! p with
  | Some (RegFile i _ l) => Ok (<[p := RegFile (touch i) [] l]> fs)
  | Some (Directory _ _ _) => Err IsADirectory
  | Some (Dangling _ _) => Ok (<[p := RegFile (fresh p 420) [] true]> fs)
  | None =>
      match fs !! parent p with
      | Some (Directory _ _ _) => Ok (<[p := RegFile (fresh p 420) [] false]> fs)
      | Some (RegFile _ _ _) => Err NotADirectory
      | Some (Dangling _ _) => Err NotFound
      | None => Err (missing_kind fs p)
      end
  end.
Definition open_existing (p : path) (fs : filesystem) : res io_kind node :=
  match stat fs p with
  | Ok n => if is_dir_node n then Err IsADirectory else Ok n
  | r => r
  end.

(** The content of a file after writes to it *)
Definition put_content (p : path) (b : bytes) (fs : filesystem) : filesystem :=
  match fs !! p with
  | Some (RegFile i _ l) => <[p := RegFile (touch i) b l]> fs
  | _ => fs
  end.
Definition content_at (p : path) (fs : filesystem) : bytes :=
  match fs !! p with Some (RegFile _ b _) => b | _ => [] end.

(** ** Extended attributes (fs_helpers.rs)

    The functions of the [xattr] crate without [_deref] act on a symbolic
    link itself; Linux keeps no [user.*] attribute on a link: reading finds
    none, and writing is not permitted. *)
Definition TAGGING_XATTR : string := "user.s32p.tags".
Definition USER_META_XATTR : string := "user.s32p.meta".
Definition CONTENT_TYPE_XATTR : string := "user.s32p.content_type".
Definition FREEDESKTOP_MIME_XATTR : string := "user.mime_type".

Definition node_linked (n : node) : bool :=
  match n with RegFile _ _ l | Directory _ _ l => l | Dangling _ _ => true end.
Definition with_xattrs (x : gmap string string) (n : node) : node :=
  let set i := {| i_ino := i_ino i; i_mtime := i_mtime i; i_mode := i_mode i; i_uid := i_uid i; i_xattrs := x |} in
  match n with
  | RegFile i b l => RegFile (set i) b l
  | Directory i s l => Directory (set i) s l
  | Dangling i s => Dangling (set i) s
  end.

Definition xattr_get (p : path) (name : string) : Act (res io_kind (option string)) :=
  look (CXattrGet name) p (fun fs =>
    match fs !! p with
    | None => Err (missing_kind fs p)
    | Some n => if negb (device_xattrs (device p)) then Err Unsupported
                else if node_linked n then Ok None else Ok (i_xattrs (node_inode n) !! name)
    end).
Definition update_xattrs (p : path) (f : gmap string string -> res io_kind (gmap string string)) (fs : filesystem)
    : res io_kind filesystem :=
  match fs !! p with
  | None => Err (missing_kind fs p)
  | Some n => if negb (device_xattrs (device p)) then Err Unsupported
              else if node_linked n then Err PermissionDenied
              else x ← f (i_xattrs (node_inode n)); Ok (<[p := with_xattrs x n]> fs)
  end.
Definition xattr_set (p : path) (name value : string) : Act (res io_kind unit) :=
  change (CXattrSet name) p (update_xattrs p (fun x => Ok (<[name := value]> x))).
Definition xattr_remove (p : path) (name : string) : Act (res io_kind unit) :=
  change (CXattrRemove name) p (update_xattrs p (fun x => match x !! name with Some _ => Ok (delete name x) | None => Err NoData end)).

(** [read_tags], [read_user_meta]: a missing attribute is the empty string *)
Definition read_text (name : string) (p : path) : Act (res io_kind string) :=
  r ← xattr_get p name;
  mret (match r with
        | Ok (Some s) => Ok s
        | Ok None => Ok ""%string
        | Err Unsupported => Ok ""%string
        | Err e => Err e
        | Panics => Panics
        end).
Definition read_tags : path -> Act (res io_kind string) := read_text TAGGING_XATTR.
Definition read_user_meta : path -> Act (res io_kind string) := read_text USER_META_XATTR.

(** [remove_tags], [remove_user_meta], [remove_content_type] *)
Definition remove_text (name : string) (p : path) : Act (res io_kind unit) :=
  r ← xattr_remove p name;
  mret (match r with Err NoData | Err Unsupported => Ok tt | r => r end).
Definition remove_tags : path -> Act (res io_kind unit) := remove_text TAGGING_XATTR.
(** [write_tags], [write_user_meta], [write_content_type] *)
Definition write_text (name : string) (p : path) (value : string) : Act (res io_kind unit) :=
  if is_empty value then remove_text name p else xattr_set p name value.
Definition write_tags : path -> string -> Act (res io_kind unit) := write_text TAGGING_XATTR.
Definition write_user_meta : path -> string -> Act (res io_kind unit) := write_text USER_META_XATTR.
Definition write_content_type : path -> string -> Act (res io_kind unit) := write_text CONTENT_TYPE_XATTR.

(** [read_xattr_string] and [read_content_type] *)
Definition read_xattr_string (p : path) (name : string) : Act (res io_kind (option string)) :=
  r ← xattr_get p name;
  mret (match r with Err Unsupported => Ok None | r => r end).
Definition read_content_type (p : path) : Act (res io_kind (option string)) :=
  r ← read_xattr_string p CONTENT_TYPE_XATTR;
  match r with
  | Ok None => read_xattr_string p FREEDESKTOP_MIME_XATTR
  | r => mret r
  end.

(** [probe_user_xattrs_supported], [user_xattrs_supported_for] and
    [require_xattr_support] *)
Definition probe_user_xattrs_supported (p : path) : res io_kind bool :=
  match fault CXattrList p with
  | Some Unsupported => Ok false
  | Some e => Err e
  | None => Ok (device_xattrs (device p))
  end.
Definition user_xattrs_supported_for (p : path) : Act (res io_kind bool) :=
  m ← metadata CMetadata p;
  match m with
  | Err e => mret (Err e)
  | Panics => mret Panics
  | Ok _ =>
      cached ← get (fun w => xattr_support w !! device p);
      match cached with
      | Some v => mret (Ok v)
      | None =>
          match probe_user_xattrs_supported p with
          | Ok v => _ ← modify (fun w => {| files := files w; xattr_support := <[device p := v]> (xattr_support w); idempotency := idempotency w |});
                    mret (Ok v)
          | r => mret r
          end
      end
  end.
Definition require_xattr_support (p : path) (uri_path : string) : Act unit :=
  r ← user_xattrs_supported_for p;
  match r with
  | Ok true => mret tt
  | Ok false => refuse (not_implemented "object tagging not supported on this storage backend" (Some uri_path))
  | Err _ => refuse (internal_error "failed to probe object tagging support" (Some uri_path) None)
  | Panics => panic
  end.

(** ** Shared checks *)

(** [meta_etag_unquoted] and [meta_etag] *)
Definition meta_etag_unquoted (n : node) : string :=
  format_object_etag_unquoted (i_ino (node_inode n)) (i_mtime (node_inode n)) (node_size n).
Definition meta_etag (n : node) : string :=
  format_object_etag (i_ino (node_inode n)) (i_mtime (node_inode n)) (node_size n).

Definition o_bucket (rq : object_request) : string := default ""%string (Classifier.bucket (oq_class rq)).
Definition o_key (rq : object_request) : string := default ""%string (Classifier.key (oq_class rq)).

(** [has_effective_query] *)
Definition has_effective_query (rq : object_request) : bool := negb (is_empty_effective (oq_query rq)).
Definition no_effective_query (rq : object_request) : Act unit :=
  refuse_if (has_effective_query rq) (not_implemented "query parameters are not implemented" None).

Definition not_reserved (key path : string) : Act unit :=
  refuse_if (is_reserved_first_segment key o_mpu_dir_name) (access_denied "reserved key prefix" (Some path)).
Definition target_named (bucket key path : string) : Act unit :=
  refuse_if (is_empty bucket || is_empty key) (error400 "InvalidRequest" "missing bucket or key" path).

(** The match on [bucket_exists_dir] every handler has *)
Definition require_bucket_dir (bucket path : string) : Act unit :=
  p ← or_refuse (bucket_root_path o_posix_root bucket) (fun e => access_denied (path_error_message e) (Some path));
  m ← metadata CMetadata p;
  refuse_if (negb (match m with Ok n => is_dir_node n | _ => false end)) (no_such_bucket "bucket not found" (Some path)).
Definition object_path (bucket key : string) : Act path :=
  or_refuse (join_object_path o_posix_root bucket key) (fun e => access_denied (path_error_message e) None).

Definition conditional_headers (rq : object_request) : Act ConditionalHeaders :=
  or_refuse (parse_conditional_headers o_httpdate_parse (oq_headers rq))
    (fun e => invalid_request ("invalid conditional headers: " +:+ o_show_cond_error e) (Some (oq_path rq))).

(** The answers of the handlers that read an XML body *)
Definition xml_body (rq : object_request) : Act bytes :=
  or_refuse (collect_body_capped show_body_error (oq_headers rq) (oq_body rq) XML_BODY_MAX_BYTES) (fun e =>
    match e with
    | TooLarge _ => error400 "InvalidRequest" "request body too large" (oq_path rq)
    | ReadBody m => error400 "InvalidRequest" ("failed to read body: " +:+ m) (oq_path rq)
    end).

(** [match r { Ok(a) => a, Err(_) => return internal_error(..) }] *)
Definition or_internal {A} (r : res io_kind A) (message : io_kind -> string) (path : string) : Act A :=
  or_refuse r (fun e => internal_error (message e) (Some path) None).
End Calls.

(** ** Checks

    A program that leaves the tree alone and returns early only with an
    error. *)
Section Checks.
Context {E : ObjEnv}.

Definition check {A} (m : Act A) : Prop := forall w,
  files (snd (m w)) = files w /\ match fst (m w) with Return r => exists e, r = Error e | _ => True end.

Lemma check_ret {A} (a : A) : check (mret a).
Proof. by intros w. Qed.
Lemma check_refuse {A} r : check (refuse (A := A) r).
Proof. intros w. split; [done|]. by exists r. Qed.
Lemma check_refuse_if b r : check (refuse_if b r).
Proof. destruct b; [apply check_refuse|apply check_ret]. Qed.
Lemma check_panic {A} : check (panic : Act A).
Proof. by intros w. Qed.
Lemma check_hang {A} : check (hang : Act A).
Proof. by intros w. Qed.
Lemma check_or_refuse {A X} (r : res X A) f : check (or_refuse r f).
Proof. intros w. destruct r; cbn; eauto. Qed.
Lemma check_or_internal {A} (r : res io_kind A) f path : check (or_internal r f path).
Proof. apply check_or_refuse. Qed.
Lemma check_get {A} (f : world -> A) : check (get f).
Proof. by intros w. Qed.
Lemma check_look {A} (c : call) (p : path) (f : filesystem -> res io_kind A) : check (look c p f).
Proof. by intros w. Qed.
Lemma check_modify f : (forall w, files (f w) = files w) -> check (modify f).
Proof. intros H w. split; [apply H|done]. Qed.

Lemma check_bind {A B} (m : Act A) (f : A -> Act B) : check m -> (forall a, check (f a)) -> check (m ≫= f).
Proof.
  intros Hm Hf w. unfold mbind, handler_bind. specialize (Hm w). destruct (m w) as [[a|r| |] w1]; cbn in *; try done.
  destruct (Hf a w1) as [Hw H]. destruct Hm as [<- _]. done.
Qed.

Lemma post_check {A} (m : Act A) P Q w :
  check m -> (forall e w', files w' = files w -> P (Error e) w') -> (forall a w', files w' = files w -> Q a w') -> post m P Q w.
Proof.
  intros Hm HP HQ. unfold post. destruct (Hm w) as [Hw H]. destruct (m w) as [[a|r| |] w1]; cbn in *; auto.
  destruct H as [e ->]. auto.
Qed.
End Checks.

Create HintDb check.
#[export] Hint Resolve check_ret check_refuse check_refuse_if check_panic check_hang check_or_refuse check_or_internal check_get
  check_look : check.

(** [solve_check]: a sequence of checks is a check. *)
Ltac solve_check :=
  repeat first
    [ progress auto with check
    | apply check_bind; [|intros]
    | case_match ].

Section CommonChecks.
Context {E : ObjEnv}.

Lemma check_metadata c p : check (metadata c p).
Proof. apply check_look. Qed.
Lemma check_symlink_metadata p : check (symlink_metadata p).
Proof. apply check_look. Qed.
Lemma check_no_query rq : check (no_effective_query rq).
Proof. apply check_refuse_if. Qed.
Lemma check_not_reserved key path : check (not_reserved key path).
Proof. apply check_refuse_if. Qed.
Lemma check_target bucket key path : check (target_named bucket key path).
Proof. apply check_refuse_if. Qed.
Lemma check_object_path bucket key : check (object_path bucket key).
Proof. apply check_or_refuse. Qed.

Lemma check_require_bucket bucket path : check (require_bucket_dir bucket path).
Proof. unfold require_bucket_dir, metadata. solve_check. Qed.
Lemma check_xattr_support p path : check (require_xattr_support p path).
Proof. unfold require_xattr_support, user_xattrs_supported_for, metadata. solve_check. by apply check_modify. Qed.
Lemma check_conditional rq : check (conditional_headers rq).
Proof. unfold conditional_headers. solve_check. Qed.
Lemma check_xattr_get p name : check (xattr_get p name).
Proof. unfold xattr_get. solve_check. Qed.
Lemma check_read_text p name : check (read_text name p).
Proof. unfold read_text. apply check_bind; [apply check_xattr_get|]. intros. solve_check. Qed.
Lemma check_read_content_type p : check (read_content_type p).
Proof.
  assert (forall name, check (read_xattr_string p name)).
  { intros. unfold read_xattr_string. apply check_bind; [apply check_xattr_get|]. intros. solve_check. }
  unfold read_content_type. apply check_bind; [done|]. intros a. case_match; solve_check.
Qed.
End CommonChecks.
#[export] Hint Resolve check_metadata check_symlink_metadata check_no_query check_not_reserved check_target check_object_path
  check_require_bucket check_xattr_support check_conditional check_xattr_get check_read_text check_read_content_type : check.

(** [pass_check w]: step over a check; the new state, again [w], has the same
    files as the old one. *)
Ltac pass_check w Hw :=
  rewrite post_bind; apply post_check; [solve [solve_check]|first [by intros|intros ? ? ? ?; congruence|intros ? ? ?; hnf; congruence]|];
  let a := fresh "a" in let w1 := fresh "w1" in let H1 := fresh "H1" in
  intros a w1 H1; rewrite Hw in H1; clear Hw; clear dependent w; rename w1 into w; rename H1 into Hw; try clear a.

Section ChangePost.
Context {E : ObjEnv}.
Lemma post_change (c : call) (p : path) f P Q w :
  post (change c p f) P Q w <->
  match fault c p with
  | Some e => Q (Err e) w
  | None => match f (files w) with
            | Ok fs => Q (Ok tt) (set_files fs w) | Err e => Q (Err e) w | Panics => Q Panics w
            end
  end.
Proof. unfold post, change. destruct (fault c p); [done|]. by destruct (f (files w)). Qed.
Lemma post_look {A} (c : call) (p : path) (f : filesystem -> res io_kind A) P Q w :
  post (look c p f) P Q w <-> Q (match fault c p with Some e => Err e | None => f (files w) end) w.
Proof. done. Qed.
End ChangePost.
#[export] Hint Rewrite @post_change @post_look : wp.

(** ** Attributes that are stored *)
Section Attributes.
Context {E : ObjEnv}.

(** What a reader finds *)
Definition attr_of (p : path) (name : string) (fs : filesystem) : option string :=
  match fs !! p with
  | Some n => if device_xattrs (device p) && negb (node_linked n) then i_xattrs (node_inode n) !! name else None
  | None => None
  end.

(** Errors of [removexattr] that speak of the attribute come from the tree. *)
Definition honest_xattrs (p : path) : Prop :=
  forall name e, fault (CXattrRemove name) p = Some e -> e <> NoData /\ e <> Unsupported.

Definition absent_if_empty (v : string) : option string := if is_empty v then None else Some v.

Lemma with_xattrs_same n : with_xattrs (i_xattrs (node_inode n)) n = n.
Proof. by destruct n as [[] ? ?|[] ? ?|[] ?]. Qed.

Lemma attr_of_insert p name x n fs :
  attr_of p name (<[p := with_xattrs x n]> fs) =
    if device_xattrs (device p) && negb (node_linked n) then x !! name else None.
Proof. unfold attr_of. rewrite lookup_insert_eq. by destruct n. Qed.

Lemma attr_of_eq p name n fs :
  fs !! p = Some n -> attr_of p name fs = if device_xattrs (device p) && negb (node_linked n) then i_xattrs (node_inode n) !! name else None.
Proof. intros Hn. unfold attr_of. by rewrite Hn. Qed.

Lemma write_text_ok name p v w w' n :
  honest_xattrs p -> files w !! p = Some n -> write_text name p v w = (Next (Ok tt), w') ->
  exists x, files w' = <[p := with_xattrs x n]> (files w) /\ attr_of p name (files w') = absent_if_empty v /\
    (forall k, k <> name -> attr_of p k (files w') = attr_of p k (files w)).
Proof.
  intros Hh Hn.
  assert (forall x, (forall k, k <> name -> x !! k = i_xattrs (node_inode n) !! k) -> forall k, k <> name ->
    attr_of p k (<[p := with_xattrs x n]> (files w)) = attr_of p k (files w)) as Hother.
  { intros x Hx k Hk. rewrite attr_of_insert, (attr_of_eq p k n) by done. by rewrite Hx. }
  assert (forall b, device_xattrs (device p) && negb (node_linked n) = b ->
    (b = true -> i_xattrs (node_inode n) !! name = None) -> attr_of p name (files w) = None) as Hnone.
  { intros b Hb H. rewrite (attr_of_eq p name n), Hb by done. destruct b; auto. }
  unfold write_text, absent_if_empty. destruct (is_empty v).
  - unfold remove_text, mbind, handler_bind, xattr_remove, change.
    destruct (fault (CXattrRemove name) p) as [e|] eqn:Ef.
    { destruct (Hh _ _ Ef). by destruct e. }
    unfold update_xattrs. rewrite Hn. destruct (device_xattrs (device p)) eqn:Ed; cbn [negb andb] in *.
    + destruct (node_linked n) eqn:El; [done|]. destruct (i_xattrs (node_inode n) !! name) as [old|] eqn:Ex; cbn.
      * intros [= <-]. exists (delete name (i_xattrs (node_inode n))). cbn. split_and!; [done| |].
        -- rewrite attr_of_insert, Ed, El. apply lookup_delete_eq.
        -- apply Hother. intros. by rewrite lookup_delete_ne.
      * intros [= <-]. exists (i_xattrs (node_inode n)). rewrite with_xattrs_same, insert_id by done.
        split_and!; [done| |done]. by apply (Hnone true).
    + intros [= <-]. exists (i_xattrs (node_inode n)). rewrite with_xattrs_same, insert_id by done.
      split_and!; [done| |done]. by apply (Hnone false).
  - unfold xattr_set, change. destruct (fault _ p); [done|]. unfold update_xattrs. rewrite Hn.
    destruct (device_xattrs (device p)) eqn:Ed; cbn [negb andb]; [|done]. destruct (node_linked n) eqn:El; [done|]. cbn.
    intros [= <-]. exists (<[name := v]> (i_xattrs (node_inode n))). cbn. split_and!; [done| |].
    + rewrite attr_of_insert, Ed, El. apply lookup_insert_eq.
    + apply Hother. intros. by rewrite lookup_insert_ne.
Qed.
End Attributes.

(** ** Directories that are made *)
Section Directories.
Context {E : ObjEnv}.

(** Nothing that was there changes, and what is new are directories on the
    way to [p]. *)
Record grows (p : path) (fs fs' : filesystem) : Prop := {
  grows_keeps : forall q n, fs !! q = Some n -> fs' !! q = Some n;
  grows_new : forall q n, fs' !! q = Some n -> fs !! q = Some n \/ is_real_dir n = true /\ q `prefix_of` p;
}.

Lemma grows_refl p fs : grows p fs fs.
Proof. split; eauto. Qed.
Lemma grows_trans p q a b c : p `prefix_of` q -> grows p a b -> grows q b c -> grows q a c.
Proof.
  intros Hpq [H1 H2] [H3 H4]. split; [auto|]. intros r n Hn. destruct (H4 r n Hn) as [Hb|]; [|auto].
  destruct (H2 r n Hb) as [|[? Hp]]; [auto|]. right. split; [done|]. by etrans.
Qed.

Lemma parent_prefix p : parent p `prefix_of` p.
Proof. unfold parent. exists (drop (length p - 1) p). by rewrite take_drop. Qed.

Lemma try_mkdir_grows p fs fs' : try_mkdir p fs = Ok fs' -> grows p fs fs' /\ is_dir fs' p = true.
Proof.
  unfold try_mkdir, mkdir. case_match; [done|]. destruct (fs !! p) eqn:Ep; [done|].
  destruct (fs !! parent p) as [[]|]; try done. intros [= <-]. split.
  - split.
    + intros q n Hq. rewrite lookup_insert_ne; [done|congruence].
    + intros q n. rewrite lookup_insert_Some. intros [[<- <-]|[_ ?]]; auto.
  - unfold is_dir, stat. by rewrite lookup_insert_eq.
Qed.

Lemma make_dirs_grows n p fs r fs' :
  make_dirs n p fs = (r, fs') -> grows p fs fs' /\ (r = Ok tt -> is_dir fs' p = true).
Proof.
  revert p r fs'. induction n as [|n IH]; intros p r fs'; cbn [make_dirs];
    destruct (try_mkdir p fs) as [fs1|e|] eqn:E1;
    try (intros [= <- <-]; by destruct (try_mkdir_grows _ _ _ E1)); try (intros [= <- <-]; split; [apply grows_refl|done]);
    (case_bool_decide; [|destruct (is_dir fs p) eqn:Ed; intros [= <- <-]; split; (apply grows_refl || done)]).
  { intros [= <- <-]. split; [apply grows_refl|done]. }
  destruct (make_dirs n (parent p) fs) as [[[]|e2|] fs2] eqn:E2; destruct (IH _ _ _ E2) as [H2 _].
  2,3: intros [= <- <-]; split; [eapply grows_trans; [apply parent_prefix|done|apply grows_refl]|done].
  destruct (try_mkdir p fs2) as [fs3|e3|] eqn:E3.
  - intros [= <- <-]. destruct (try_mkdir_grows _ _ _ E3). split; [|done]. by eapply grows_trans; [apply parent_prefix| |].
  - destruct (is_dir fs2 p) eqn:Ed; intros [= <- <-]; (split; [eapply grows_trans; [apply parent_prefix|done|apply grows_refl]|done]).
  - intros [= <- <-]. split; [eapply grows_trans; [apply parent_prefix|done|apply grows_refl]|done].
Qed.

Lemma create_dir_all_post p P Q w :
  (forall r w', grows p (files w) (files w') -> (r = Ok tt -> is_dir (files w') p = true) -> Q r w') ->
  post (create_dir_all p) P Q w.
Proof.
  intros HQ. unfold post, create_dir_all. destruct (make_dirs _ _ _) as [r fs'] eqn:Em. cbn.
  destruct (make_dirs_grows _ _ _ _ _ Em). by apply HQ.
Qed.
End Directories.
