(* ===== verification/PutObject.v ===== *)
(** * PutObject and its append form (main.rs)

    [handle_put_object], [parse_write_offset_header] and
    [handle_put_object_append], with what an acknowledged, a refused and a
    failed request leave in the tree. *)

From Stdlib Require Import ZArith Lia Ascii.
From stdpp Require Import base list strings numbers option gmap sorting.
From S2P Require Import Classifier.
From S2P Require Import Prelude RustStr Http Utils Preconditions UriEncoding S3Resp S3Xml Bytes FsHelpers FileSystem Handler Streaming PayloadSource Upload Copy GatewayHelpers Objects.

Local Open Scope s3_scope.
Local Open Scope Z_scope.

(** [headers.get_all(name)] *)
Definition get_all (headers : header_map) (name : string) : list header_value :=
  omap (fun l => if fst l =s name then Some (snd l) else None) (hm_iter headers).

(** [parse_write_offset_header] *)
Definition parse_write_offset_header (headers : header_map) : res string (option Z) :=
  match get_all headers "x-amz-write-offset-bytes" with
  | [] => Ok None
  | [v] =>
      match v with
      | None => invalid "x-amz-write-offset-bytes is not valid ASCII"
      | Some s =>
          if is_empty s || negb (all_bytes is_ascii_digit s)
          then invalid "x-amz-write-offset-bytes must be a non-negative integer"
          else match parse_u64_str s with
               | Some n => Ok (Some n)
               | None => invalid "x-amz-write-offset-bytes is out of range"
               end
      end
  | _ => invalid "x-amz-write-offset-bytes specified more than once"
  end.

(** The payload a request body carries *)
Definition payload_of (rq : object_request) (is_aws_chunked : bool) : bytes :=
  if is_aws_chunked then payload (AwsChunked.new (oq_body rq)) else payload (Plain.new (oq_body rq)).

Section Put.
Context {E : ObjEnv}.

Definition logical_length (rq : object_request) : Act (bool * Z) :=
  or_refuse (compute_logical_len (oq_headers rq)) (fun e => length_error_response e (oq_path rq)).

(** [open_ok] is decided by the tree here. *)
Definition opened_env (events : nat -> write_event) : upload_env :=
  {| open_ok := true; prealloc := prealloc o_body_env; ftruncate_ok := ftruncate_ok o_body_env; write_events := events |}.
(** A file opened with [O_DIRECT] refuses a write that is not aligned. *)
Definition direct_events (used_direct : bool) (offset logical_len : Z) (i : nat) : write_event :=
  let off := offset + Z.of_nat i * chunk_size o_stream_cfg in
  let len := Z.min (chunk_size o_stream_cfg) (logical_len - Z.of_nat i * chunk_size o_stream_cfg) in
  if used_direct && negb ((off mod ALIGN =? 0) && (len mod ALIGN =? 0)) then WriteFailed
  else write_events o_body_env i.
(** [write_object_body] on the reader the body needs *)
Definition write_body (events : nat -> write_event) (rq : object_request) (is_aws_chunked : bool) (dest : WriteObjectDest)
    (f0 : bytes) (logical_len : Z) : upload_result * bytes :=
  if is_aws_chunked
  then write_object_body (opened_env events) (AwsChunked.new (oq_body rq)) dest f0 logical_len o_stream_cfg
  else write_object_body (opened_env events) (Plain.new (oq_body rq)) dest f0 logical_len o_stream_cfg.

Definition finish_body (r : upload_result) (path : string) : Act unit :=
  match r with
  | Returned (Ok _) => mret tt
  | Returned (Err e) => refuse (internal_error (show_write (BodyFailed e)) (Some path) None)
  | Returned Panics => panic
  | WaitsForever => hang
  end.

(** The destination [WriteObjectDest::Path]: make the parents, open with
    [O_TRUNC], write. *)
Definition store_body (rq : object_request) (is_aws_chunked : bool) (p : path) (logical_len : Z) : Act unit :=
  made ← create_dir_all (parent p);
  _ ← or_refuse made (fun e => internal_error (show_write (MkdirFailed (parent p) e)) (Some (oq_path rq)) None);
  opened ← change COpen p (open_truncate p);
  _ ← or_refuse opened (fun e => internal_error (show_write (OpenFailedAt p e)) (Some (oq_path rq)) None);
  let '(r, f) := write_body (write_events o_body_env) rq is_aws_chunked DestPath [] logical_len in
  _ ← modify (fun w => set_files (put_content p f (files w)) w);
  finish_body r (oq_path rq).

(** The branch for a key that ends with a slash *)
Definition put_directory_marker (rq : object_request) (p : path) : Act obj_reply :=
  let path := oq_path rq in
  len ← logical_length rq;
  _ ← refuse_if (negb (snd len =? 0)) (invalid_request "directory-marker PUT must have zero length" (Some path));
  made ← create_dir_all p;
  _ ← or_refuse made (fun e =>
        if bool_decide (e = PermissionDenied) then access_denied "permission denied" (Some path)
        else internal_error "failed to create directory marker" (Some path) None);
  m ← metadata CMetadataAfter p;
  n ← or_internal m (fun _ => "failed to stat directory marker"%string) path;
  mret (PutObjectOk (meta_etag n)).

(** *** [handle_put_object_append] *)
Definition append_body (rq : object_request) (is_aws_chunked : bool) (p : path) (offset logical_len : Z) : Act unit :=
  old ← get (fun w => content_at p (files w));
  (* [OpenDirect::TryDirect] *)
  let used_direct := direct_io o_stream_cfg && o_direct p in
  let '(r, f) := write_body (direct_events used_direct offset logical_len) rq is_aws_chunked (DestFile offset) old logical_len in
  _ ← modify (fun w => set_files (put_content p f (files w)) w);
  finish_body r (oq_path rq).

Definition handle_put_object_append (rq : object_request) (p : path) (offset logical_len : Z) (is_aws_chunked : bool)
    : Act obj_reply :=
  let path := oq_path rq in
  _ ← refuse_if (ends_with "/" path)
        (invalid_request "x-amz-write-offset-bytes is not valid on a directory marker" (Some path));
  cond ← conditional_headers rq;
  opened ← look COpen p (open_existing p);
  _ ← or_refuse opened (fun e =>
        match e with
        | NotFound => no_such_key "not found" (Some path)
        | PermissionDenied => access_denied "permission denied" (Some path)
        | e => internal_error (show_io e) (Some path) None
        end);
  locked ← look CFlock p (fun _ => Ok tt);
  _ ← or_internal locked (fun e => "flock failed: " +:+ show_io e)%string path;
  m ← metadata CFstat p;
  cur ← or_internal m (fun e => "fstat after flock failed: " +:+ show_io e)%string path;
  _ ← refuse_if (is_dir_node cur) (invalid_request "x-amz-write-offset-bytes target is a directory" (Some path));
  _ ← refuse_if (negb (offset =? node_size cur))
        (error400 "InvalidWriteOffset" "the write offset does not match the current object size" path);
  _ ← (match evaluate_write_preconditions cond (Some (meta_etag_unquoted cur, i_mtime (node_inode cur))) with
       | PreconditionFailed => refuse (precondition_failed "PUT precondition failed" (Some path))
       | Proceed | NotModified => mret tt
       end);
  _ ← refuse_if (logical_len =? 0) (error400 "InvalidArgument" "Request body cannot be empty" path);
  _ ← append_body rq is_aws_chunked p offset logical_len;
  m ← metadata CFstatAfter p;
  n ← or_internal m (fun e => "fstat after append failed: " +:+ show_io e)%string path;
  mret (PutObjectOk (meta_etag n)).

(** *** [handle_put_object] *)

(** [headers.get(name).map(|v| v.to_str())] with its error answer *)
Definition text_header (headers : header_map) (name : string) (bad : HttpResponse) : Act (option string) :=
  match hm_get headers name with
  | None => mret None
  | Some (Some s) => mret (Some s)
  | Some None => refuse bad
  end.

Definition valid_or {A} (r : res string A) (bad : HttpResponse) : Act A := or_refuse r (fun _ => bad).

(** The metadata a request carries: tags, user metadata, content type *)
Definition put_metadata (rq : object_request) : Act (option string * string * option string) :=
  let path := oq_path rq in
  tagging ← text_header (oq_headers rq) "x-amz-tagging" (error400 "InvalidTag" "invalid x-amz-tagging header encoding" path);
  _ ← (match tagging with
       | Some s => valid_or (validate_tagging_urlform s) (error400 "InvalidTag" "invalid x-amz-tagging header" path)
       | None => mret tt
       end);
  user_meta ← valid_or (extract_user_meta_headers (oq_headers rq))
                (error400 "InvalidArgument" "invalid x-amz-meta-* header" path);
  _ ← valid_or (validate_user_metadata_urlform user_meta) (error400 "InvalidArgument" "invalid user metadata" path);
  content_type ← text_header (oq_headers rq) "content-type"
                   (error400 "InvalidArgument" "invalid Content-Type header encoding" path);
  _ ← (match content_type with
       | Some ct => valid_or (validate_content_type ct) (error400 "InvalidArgument" "invalid Content-Type header" path)
       | None => mret tt
       end);
  mret (tagging, user_meta, content_type).

(** The attributes of a new object: what is absent is removed. *)
Definition store_metadata (p : path) (tags user_meta content_type : string) (path : string)
    (what_tags what_meta what_type : string) : Act unit :=
  t ← write_tags p tags;
  _ ← or_internal t (fun _ => what_tags) path;
  u ← write_user_meta p user_meta;
  _ ← or_internal u (fun _ => what_meta) path;
  c ← write_content_type p content_type;
  _ ← or_internal c (fun _ => what_type) path;
  mret tt.

(** What the preconditions of a write see of the destination *)
Definition existing_of (m : res io_kind node) : option (string * system_time) :=
  match m with Ok n => Some (meta_etag_unquoted n, i_mtime (node_inode n)) | _ => None end.

(** The checks of a PUT that replaces an object *)
Definition put_checks (rq : object_request) (p : path) : Act (option string * string * option string) :=
  let path := oq_path rq in
  cond ← conditional_headers rq;
  m ← metadata CMetadata p;
  _ ← (match evaluate_write_preconditions cond (existing_of m) with
       | PreconditionFailed => refuse (precondition_failed "PUT precondition failed" (Some path))
       | Proceed | NotModified => mret tt
       end);
  md ← put_metadata rq;
  let '(tagging, user_meta, content_type) := md in
  _ ← (if bool_decide (is_Some tagging) || negb (is_empty user_meta) || bool_decide (is_Some content_type) then
         root ← or_refuse (bucket_root_path o_posix_root (o_bucket rq))
                  (fun e => access_denied (path_error_message e) (Some path));
         require_xattr_support root path
       else mret tt);
  mret md.

Definition put_replace (rq : object_request) (p : path) (is_aws_chunked : bool) (logical_len : Z) : Act obj_reply :=
  let path := oq_path rq in
  md ← put_checks rq p;
  let '(tagging, user_meta, content_type) := md in
  _ ← store_body rq is_aws_chunked p logical_len;
  m ← metadata CMetadataAfter p;
  n ← or_internal m show_io path;
  _ ← store_metadata p (default ""%string tagging) user_meta (default ""%string content_type) path
        "failed to write object tags" "failed to write user metadata" "failed to write Content-Type";
  mret (PutObjectOk (meta_etag n)).

Definition handle_put_object (rq : object_request) : Act obj_reply :=
  let path := oq_path rq in
  _ ← no_effective_query rq;
  let bucket := o_bucket rq in
  let key := o_key rq in
  _ ← not_reserved key path;
  _ ← target_named bucket key path;
  _ ← require_bucket_dir bucket path;
  p ← object_path bucket key;
  if ends_with "/" key then put_directory_marker rq p
  else
    len ← logical_length rq;
    let '(is_aws_chunked, logical_len) := len in
    offset ← or_refuse (parse_write_offset_header (oq_headers rq)) (fun reason => error400 "InvalidArgument" reason path);
    match offset with
    | Some o => if 0 <? o then handle_put_object_append rq p o logical_len is_aws_chunked
                else put_replace rq p is_aws_chunked logical_len
    | None => put_replace rq p is_aws_chunked logical_len
    end.
End Put.

(** ** What a PUT leaves behind *)
Section Proofs.
Context {E : ObjEnv}.

Lemma write_body_ok events rq c dest f0 len f :
  (forall i, events i <> CancelSeen /\ events i <> CancelInWrite) ->
  0 < chunk_size o_stream_cfg -> 0 <= len <= i64_max ->
  (match dest with DestFile off => 0 <= off | DestPath => True end) ->
  write_body events rq c dest f0 len = (Returned (Ok tt), f) ->
  len <= blen (payload_of rq c) /\ f = stored dest f0 (take (Z.to_nat len) (payload_of rq c)).
Proof.
  intros Hev Hc Hl Hd Hw. unfold write_body, payload_of in *.
  destruct c; (apply write_object_body_stored in Hw; [done| |done|done|done|done]); intros H; discriminate H.
Qed.

(** The part of the reply the theorems speak of: an acknowledged PUT *)
Definition on_put (G : string -> world -> Prop) (r : obj_reply) (w : world) : Prop :=
  match r with PutObjectOk etag => G etag w | _ => True end.

Lemma check_put_metadata rq : check (put_metadata rq).
Proof. unfold put_metadata, text_header, valid_or. solve_check. Qed.
#[local] Hint Resolve check_put_metadata : check.
Lemma check_put_checks rq p : check (put_checks rq p).
Proof. unfold put_checks, metadata. solve_check. Qed.

(** The metadata of an acknowledged request *)
Definition header_text (rq : object_request) (name : string) : option string := hm_get (oq_headers rq) name ≫= id.

Lemma put_metadata_post rq P w :
  (forall e w', P (Error e) w') ->
  post (put_metadata rq) P (fun md w' => files w' = files w /\
    exists user_meta, extract_user_meta_headers (oq_headers rq) = Ok user_meta /\
      md = (header_text rq "x-amz-tagging", user_meta, header_text rq "content-type")) w.
Proof.
  intros HP. unfold put_metadata, text_header, valid_or, header_text, or_refuse, refuse.
  destruct (hm_get (oq_headers rq) "x-amz-tagging") as [[tags|]|]; autorewrite with wp; try apply HP.
  1: destruct (validate_tagging_urlform tags); try done; try apply HP.
  all: destruct (extract_user_meta_headers (oq_headers rq)) as [um| |]; try done; try apply HP.
  all: autorewrite with wp; destruct (validate_user_metadata_urlform um); try done; try apply HP; autorewrite with wp.
  all: destruct (hm_get (oq_headers rq) "content-type") as [[ct|]|]; autorewrite with wp; try apply HP.
  all: try (destruct (validate_content_type ct); try done; try apply HP).
  all: split; [done|]; by exists um.
Qed.

Lemma with_xattrs_twice x y n : with_xattrs x (with_xattrs y n) = with_xattrs x n.
Proof. by destruct n. Qed.
Lemma meta_etag_xattrs x n : meta_etag (with_xattrs x n) = meta_etag n.
Proof. by destruct n. Qed.

Lemma write_text_post {B} name p v f path n (k : unit -> Act B) P Q w :
  honest_xattrs p -> files w !! p = Some n -> (forall e w', P (Error e) w') ->
  (forall x w', files w' = <[p := with_xattrs x n]> (files w) -> attr_of p name (files w') = absent_if_empty v ->
     (forall j, j <> name -> attr_of p j (files w') = attr_of p j (files w)) -> post (k tt) P Q w') ->
  post (t ← write_text name p v; _ ← or_internal t f path; k tt) P Q w.
Proof.
  intros Hh Hn HP Hk. rewrite post_bind. unfold post at 1.
  assert (exists r w1, write_text name p v w = (Next r, w1)) as (r & w1 & Hw).
  { unfold write_text, remove_text, mbind, handler_bind, xattr_set, xattr_remove, change. repeat case_match; eauto; simplify_eq; eauto. }
  rewrite Hw. rewrite post_bind. unfold or_internal, or_refuse. rewrite post_unwrap.
  destruct r as [[]| |]; [|apply HP|done]. destruct (write_text_ok _ _ _ _ _ _ Hh Hn Hw) as (x & Hf & Ha & Ho). by eapply Hk.
Qed.

Lemma store_metadata_post p tags um ct path a b c n P w :
  honest_xattrs p -> files w !! p = Some n -> (forall e w', P (Error e) w') ->
  post (store_metadata p tags um ct path a b c) P (fun _ w' => exists x,
    files w' = <[p := with_xattrs x n]> (files w) /\ attr_of p TAGGING_XATTR (files w') = absent_if_empty tags /\
    attr_of p USER_META_XATTR (files w') = absent_if_empty um /\ attr_of p CONTENT_TYPE_XATTR (files w') = absent_if_empty ct) w.
Proof.
  intros Hh Hn HP. unfold store_metadata.
  apply (write_text_post _ p tags _ _ n (fun _ => _)); [done..|]. intros x1 w1 H1 Ht _.
  apply (write_text_post _ p um _ _ (with_xattrs x1 n) (fun _ => _)); [done|by rewrite H1, lookup_insert_eq|done|]. intros x2 w2 H2 Hu Hu'.
  apply (write_text_post _ p ct _ _ (with_xattrs x2 n) (fun _ => mret tt)); [done|by rewrite H2, lookup_insert_eq, with_xattrs_twice|done|].
  intros x3 w3 H3 Hc Hc'. autorewrite with wp. exists x3. rewrite Hc, !Hc', Hu, Hu', Ht by done.
  rewrite H3, H2, H1, !insert_insert_eq, !with_xattrs_twice. done.
Qed.

Lemma open_truncate_ok p fs fs' :
  open_truncate p fs = Ok fs' -> exists i l, fs' = <[p := RegFile i [] l]> fs.
Proof. unfold open_truncate. repeat case_match; intros; simplify_eq; eauto. Qed.

Lemma put_content_insert p f i b l fs :
  put_content p f (<[p := RegFile i b l]> fs) = <[p := RegFile (touch i) f l]> fs.
Proof. unfold put_content. by rewrite lookup_insert_eq, insert_insert_eq. Qed.

(** The kernel finishes or refuses every write; none meets a cancelled token. *)
Definition writes_not_cancelled : Prop := no_cancel o_body_env.

Lemma store_body_post rq c p len P w :
  writes_not_cancelled -> 0 < chunk_size o_stream_cfg -> 0 <= len <= i64_max -> (forall e w', P (Error e) w') ->
  post (store_body rq c p len) P (fun _ w' => exists i l fs1, grows (parent p) (files w) fs1 /\
    files w' = <[p := RegFile i (take (Z.to_nat len) (payload_of rq c)) l]> fs1 /\ len <= blen (payload_of rq c)) w.
Proof.
  intros Hnc Hc Hl HP. unfold store_body. rewrite post_bind. apply create_dir_all_post. intros r w1 Hg _.
  rewrite post_bind. unfold or_refuse at 1. rewrite post_unwrap. destruct r as [[]| |]; [|apply HP|done].
  rewrite post_bind, post_change. unfold or_refuse.
  destruct (fault COpen p); [rewrite post_bind, post_unwrap; apply HP|].
  destruct (open_truncate p (files w1)) as [fs2| |] eqn:Eo; rewrite post_bind, post_unwrap; [|apply HP|done].
  destruct (open_truncate_ok _ _ _ Eo) as (i & l & ->).
  destruct (write_body _ _ _ _ _ _) as [r f] eqn:Ew. rewrite post_bind, post_modify.
  unfold finish_body, refuse. destruct r as [[[]| |]|]; try done; [|apply HP].
  rewrite post_ret. apply write_body_ok in Ew as [Hle ->]; [|done|done|done|done].
  exists (touch i), l, (files w1). cbn. rewrite put_content_insert. split_and!; done.
Qed.

(** The conditional headers of the request, and what they ask of the object
    that is at the path [p] before it *)
Definition conditions_held (rq : object_request) (p : path) (w : world) : Prop :=
  exists cond, parse_conditional_headers o_httpdate_parse (oq_headers rq) = Ok cond /\
    write_allowed cond
      (match fault CMetadata p, stat (files w) p with
       | None, Ok n => Some (meta_etag_unquoted n, i_mtime (node_inode n))
       | _, _ => None
       end).

(** What an acknowledged PUT has done *)
Record put_result (rq : object_request) (p : path) (data : bytes) (user_meta etag : string) (w w' : world) : Prop := {
  pr_object : exists i l, files w' !! p = Some (RegFile i data l) /\ etag = meta_etag (RegFile i data l);
  pr_tags : attr_of p TAGGING_XATTR (files w') = header_text rq "x-amz-tagging" ≫= absent_if_empty;
  pr_meta : attr_of p USER_META_XATTR (files w') = absent_if_empty user_meta;
  pr_type : attr_of p CONTENT_TYPE_XATTR (files w') = header_text rq "content-type" ≫= absent_if_empty;
  pr_frame : forall q n, q <> p -> files w !! q = Some n -> files w' !! q = Some n;
  pr_new : forall q n, files w' !! q = Some n -> files w !! q = Some n \/ q = p \/ is_real_dir n = true /\ q `prefix_of` parent p;
  pr_conditions : conditions_held rq p w;
}.

Lemma absent_default (o : option string) : absent_if_empty (default ""%string o) = o ≫= absent_if_empty.
Proof. by destruct o. Qed.

(** The checks of a PUT: they pass only when the conditional headers allow it. *)
Lemma put_checks_post rq p user_meta (G : obj_reply -> world -> Prop) w :
  (forall e w', G (Error e) w') -> extract_user_meta_headers (oq_headers rq) = Ok user_meta ->
  post (put_checks rq p) G (fun md w' => files w' = files w /\
     md = (header_text rq "x-amz-tagging", user_meta, header_text rq "content-type") /\ conditions_held rq p w) w.
Proof.
  intros HG Hum. unfold put_checks. rewrite post_bind. unfold conditional_headers, or_refuse at 1. rewrite post_unwrap.
  destruct (parse_conditional_headers _ _) as [cond| |] eqn:Ec; [|apply HG|done].
  rewrite post_bind. unfold metadata. rewrite post_look, post_bind.
  destruct (evaluate_write_preconditions cond _) eqn:Ev; [| |unfold refuse; autorewrite with wp; apply HG]; rewrite post_ret.
  all: assert (conditions_held rq p w) as Hheld;
    [exists cond; split; [done|]; assert (Hnf := write_not_failed cond _ ltac:(by rewrite Ev)); revert Hnf;
     destruct (fault CMetadata p), (stat (files w) p); exact id|].
  all: rewrite post_bind; eapply post_mono; [by apply put_metadata_post|done|]; intros md w2 (Hw2 & um & Hum2 & ->);
    assert (um = user_meta) as -> by congruence; pass_check w2 Hw2; by autorewrite with wp.
Qed.

Lemma put_replace_post rq p c len user_meta w :
  writes_not_cancelled -> 0 < chunk_size o_stream_cfg -> 0 <= len <= i64_max -> honest_xattrs p ->
  extract_user_meta_headers (oq_headers rq) = Ok user_meta ->
  let G := on_put (fun etag w' => put_result rq p (take (Z.to_nat len) (payload_of rq c)) user_meta etag w w' /\
                                  len <= blen (payload_of rq c)) in
  post (put_replace rq p c len) G G w.
Proof.
  intros Hnc Hch Hl Hh Hum G. assert (forall e w', G (Error e) w') as HG by (intros; exact I).
  unfold put_replace. rewrite post_bind.
  eapply post_mono; [by apply (put_checks_post rq p user_meta)|done|]. cbv beta. intros md w1 (Hw1 & -> & Hcond). rewrite post_bind.
  eapply post_mono; [apply store_body_post; done|done|]. cbv beta. intros [] w2 (i & l & fs1 & Hg & Hw2 & Hle). rewrite Hw1 in Hg.
  rewrite post_bind. unfold metadata. rewrite post_look, post_bind. unfold or_internal, or_refuse. rewrite post_unwrap.
  destruct (fault CMetadataAfter p); [apply HG|]. unfold stat. rewrite Hw2, lookup_insert_eq.
  set (n := RegFile i _ l). rewrite post_bind.
  eapply post_mono; [apply (store_metadata_post _ _ _ _ _ _ _ _ n); [done|by rewrite Hw2, lookup_insert_eq|done]|done|].
  cbv beta. intros [] w3 (x & Hw3 & Ht & Hu & Hct). rewrite post_ret. cbn. rewrite Hw2, insert_insert_eq in Hw3.
  split; [|done]. rewrite absent_default in Ht, Hct. split; [|done..| | |done].
  - eexists _, l. rewrite Hw3, lookup_insert_eq. split; [done|]. symmetry. apply (meta_etag_xattrs x n).
  - intros q m Hq Hm. rewrite Hw3, lookup_insert_ne by done. by apply (grows_keeps _ _ _ Hg).
  - intros q m. rewrite Hw3, lookup_insert_Some. intros [[<- _]|[_ Hm]]; [auto|].
    destruct (grows_new _ _ _ Hg _ _ Hm); auto.
Qed.

(** *** Appending *)
Record append_result (p : path) (data : bytes) (etag : string) (w w' : world) : Prop := {
  ar_object : exists i i' old l, files w !! p = Some (RegFile i old l) /\
    files w' = <[p := RegFile i' (old ++ data) l]> (files w) /\ i_ino i' = i_ino i /\ i_xattrs i' = i_xattrs i /\
    etag = meta_etag (RegFile i' (old ++ data) l);
}.

Lemma direct_events_not_cancelled d offset len i :
  writes_not_cancelled -> direct_events d offset len i <> CancelSeen /\ direct_events d offset len i <> CancelInWrite.
Proof. intros Hnc. unfold direct_events. case_match; [done|apply Hnc]. Qed.

Lemma append_post rq p offset len c w :
  writes_not_cancelled -> 0 < chunk_size o_stream_cfg -> 0 <= len <= i64_max -> 0 <= offset ->
  let G := on_put (fun etag w' => append_result p (take (Z.to_nat len) (payload_of rq c)) etag w w' /\
             (exists i old l, files w !! p = Some (RegFile i old l) /\ offset = blen old) /\
             0 < len <= blen (payload_of rq c)) in
  post (handle_put_object_append rq p offset len c) G G w.
Proof.
  intros Hnc Hch Hl Ho G. assert (forall e w', G (Error e) w') as HG by (intros; exact I).
  unfold handle_put_object_append.
  enough (forall w1, files w1 = files w -> post _ G G w1) as H by (by apply H). intros w1 Hw1.
  do 6 pass_check w1 Hw1. rewrite post_bind. unfold metadata. rewrite post_look, post_bind. unfold or_internal at 1, or_refuse. rewrite post_unwrap.
  destruct (fault CFstat p); [apply HG|]. unfold stat. rewrite Hw1.
  destruct (files w !! p) as [[i old l|i s l|i s]|] eqn:Ep; try apply HG.
  cbn [is_dir_node]. rewrite post_bind. unfold refuse_if at 1. rewrite post_reply_if, post_bind.
  unfold refuse_if at 1. rewrite post_reply_if. cbn [node_size].
  destruct (Z.eqb_spec offset (blen old)) as [->|]; cbn [negb]; [|apply HG].
  pass_check w1 Hw1. rewrite post_bind. unfold refuse_if. rewrite post_reply_if.
  destruct (Z.eqb_spec len 0); [apply HG|]. rewrite post_bind. unfold append_body. rewrite post_bind, post_get.
  unfold content_at. rewrite Hw1, Ep. destruct (write_body _ _ _ _ _ _) as [r f] eqn:Ew. rewrite post_bind, post_modify.
  unfold finish_body, refuse. destruct r as [[[]| |]|]; try done.
  apply write_body_ok in Ew as [Hle ->]; [|intros; by apply direct_events_not_cancelled|done|done|done].
  unfold or_internal, or_refuse. rewrite post_ret, post_bind, post_look, post_bind, post_unwrap. destruct (fault CFstatAfter p); [apply HG|].
  assert (put_content p (stored (DestFile (blen old)) old (take (Z.to_nat len) (payload_of rq c))) (files w1) =
    <[p := RegFile (touch i) (old ++ take (Z.to_nat len) (payload_of rq c)) l]> (files w)) as Hpc.
  { unfold put_content. rewrite Hw1, Ep. cbn. by rewrite write_at_end. }
  cbn [files set_files]. rewrite Hpc, lookup_insert_eq, post_ret. cbn.
  split_and!; [|by exists i, old, l|lia|lia]. split. exists i, (touch i), old, l. cbn. by split_and!.
Qed.

End Proofs.

Section Claims.
Context {E : ObjEnv}.

(** The checks every PUT starts with, up to the object path *)
Lemma put_object_post rq p G w :
  ends_with "/" (o_key rq) = false -> join_object_path o_posix_root (o_bucket rq) (o_key rq) = Ok p ->
  (forall e w', G (Error e) w') ->
  (forall c len off w1, compute_logical_len (oq_headers rq) = Ok (c, len) -> parse_write_offset_header (oq_headers rq) = Ok off ->
    files w1 = files w ->
    post (match off with
          | Some o => if 0 <? o then handle_put_object_append rq p o len c else put_replace rq p c len
          | None => put_replace rq p c len end) G G w1) ->
  post (handle_put_object rq) G G w.
Proof.
  intros Hk Hj HG Hrest. unfold handle_put_object.
  enough (forall w1, files w1 = files w -> post _ G G w1) as H by (by apply H). intros w1 Hw1. do 4 pass_check w1 Hw1.
  unfold object_path, logical_length, or_refuse. rewrite Hj. autorewrite with wp. rewrite Hk. autorewrite with wp.
  destruct (compute_logical_len (oq_headers rq)) as [[c len]| |] eqn:Ec; [|apply HG|done]. autorewrite with wp.
  destruct (parse_write_offset_header (oq_headers rq)) as [off| |] eqn:Eo; [|apply HG|done]. by apply Hrest.
Qed.

Lemma put_ack (rq : object_request) (p : path) (w w' : world) (c : bool) (len : Z) (user_meta etag : string) :
  writes_not_cancelled -> 0 < chunk_size o_stream_cfg -> honest_xattrs p ->
  ends_with "/" (o_key rq) = false -> join_object_path o_posix_root (o_bucket rq) (o_key rq) = Ok p ->
  compute_logical_len (oq_headers rq) = Ok (c, len) -> 0 <= len <= i64_max ->
  parse_write_offset_header (oq_headers rq) = Ok None -> extract_user_meta_headers (oq_headers rq) = Ok user_meta ->
  replies (handle_put_object rq) w = (Some (PutObjectOk etag), w') ->
  len <= blen (payload_of rq c) /\ put_result rq p (take (Z.to_nat len) (payload_of rq c)) user_meta etag w w'.
Proof.
  intros Hnc Hch Hh Hk Hj Hlen Hl Hoff Hum Hr.
  assert (on_put (fun etag w' => put_result rq p (take (Z.to_nat len) (payload_of rq c)) user_meta etag w w' /\
                                  len <= blen (payload_of rq c)) (PutObjectOk etag) w') as [? ?]; [|done].
  eapply post_replies; [|exact Hr]. apply (put_object_post rq p); [done|done|by intros|].
  intros c1 len1 off w1 Hc1 Ho1 Hw1. assert (c1 = c /\ len1 = len /\ off = None) as (-> & -> & ->) by (split_and!; congruence).
  eapply post_mono; [by apply (put_replace_post rq p c len user_meta)| |];
    (intros r w2; destruct r; try done; intros [[H1 H2 H3 H4 H5 H6 H8] H7]; unfold conditions_held in H8; rewrite Hw1 in *; split; [by split|done]).
Qed.

(** C5. An acknowledged PutObject.  When the reply is 200 the request's
    conditional headers parse and held of the object that was there
    ([If-Match] names its ETag and [If-None-Match] does not, it was modified
    after [If-Modified-Since] and not after [If-Unmodified-Since]) or, when
    the key could not be looked up, carry neither [If-Match] nor
    [If-Modified-Since]; the key now names a
    regular file that holds exactly the announced number of payload bytes of
    the body; its attributes are the tags, user metadata and content type of
    the request, and none that the request does not carry; the reply's ETag is
    the ETag a later HEAD or GET computes; every other file and directory is
    as before, and the only other new entries are directories on the way to
    the key. *)
Theorem put_acknowledged (rq : object_request) (p : path) (w w' : world) (c : bool) (len : Z) (user_meta etag : string) :
  writes_not_cancelled -> 0 < chunk_size o_stream_cfg -> honest_xattrs p ->
  ends_with "/" (o_key rq) = false -> join_object_path o_posix_root (o_bucket rq) (o_key rq) = Ok p ->
  compute_logical_len (oq_headers rq) = Ok (c, len) -> 0 <= len <= i64_max ->
  parse_write_offset_header (oq_headers rq) = Ok None -> extract_user_meta_headers (oq_headers rq) = Ok user_meta ->
  replies (handle_put_object rq) w = (Some (PutObjectOk etag), w') ->
  len <= blen (payload_of rq c) /\ put_result rq p (take (Z.to_nat len) (payload_of rq c)) user_meta etag w w'.
Proof. apply put_ack. Qed.

(** An acknowledged append.  With [x-amz-write-offset-bytes] above zero
    a 200 means that the offset was the size of the object, that the object
    now is its old content followed by exactly the announced payload, with
    the same inode and attributes, and that nothing else in the tree has
    changed; the reply's ETag is that of the new content. *)
Theorem append_acknowledged (rq : object_request) (p : path) (w w' : world) (c : bool) (len offset : Z) (etag : string) :
  writes_not_cancelled -> 0 < chunk_size o_stream_cfg ->
  ends_with "/" (o_key rq) = false -> join_object_path o_posix_root (o_bucket rq) (o_key rq) = Ok p ->
  compute_logical_len (oq_headers rq) = Ok (c, len) -> 0 <= len <= i64_max ->
  parse_write_offset_header (oq_headers rq) = Ok (Some offset) -> 0 < offset ->
  replies (handle_put_object rq) w = (Some (PutObjectOk etag), w') ->
  0 < len <= blen (payload_of rq c) /\
  (exists i old l, files w !! p = Some (RegFile i old l) /\ offset = blen old) /\
  append_result p (take (Z.to_nat len) (payload_of rq c)) etag w w'.
Proof.
  intros Hnc Hch Hk Hj Hlen Hl Hoff Ho Hr.
  assert (on_put (fun etag w' => append_result p (take (Z.to_nat len) (payload_of rq c)) etag w w' /\
             (exists i old l, files w !! p = Some (RegFile i old l) /\ offset = blen old) /\
             0 < len <= blen (payload_of rq c)) (PutObjectOk etag) w') as (? & ? & ?); [|done].
  eapply post_replies; [|exact Hr]. apply (put_object_post rq p); [done|done|by intros|].
  intros c1 len1 off w1 Hc1 Ho1 Hw1. assert (c1 = c /\ len1 = len /\ off = Some offset) as (-> & -> & ->) by (split_and!; congruence).
  rewrite (proj2 (Z.ltb_lt 0 offset) Ho).
  eapply post_mono; [apply (append_post rq p offset len c); done || lia| |];
    (intros r w2; destruct r; try done; intros [[(i & i' & old & l & H1)] H2]; rewrite Hw1 in *; split; [split; by exists i, i', old, l|done]).
Qed.

(** *** Refusals *)
Definition is_put_ok (r : obj_reply) : bool := match r with PutObjectOk _ => true | _ => false end.

(** A refusal that is not a 500 leaves the tree as it was. *)
Definition refusal_keeps (fs : filesystem) (r : obj_reply) (w' : world) : Prop :=
  match r with Error e => resp_status e <> 500 -> files w' = fs | _ => True end.

Lemma keeps_internal fs m p i w : refusal_keeps fs (Error (internal_error m p i)) w.
Proof. by intros H. Qed.
#[local] Hint Resolve keeps_internal : core.

Lemma store_body_refusal rq c p len fs w :
  post (store_body rq c p len) (refusal_keeps fs) (fun _ _ => True) w.
Proof.
  unfold store_body. rewrite post_bind. apply create_dir_all_post. intros r w1 _ _. unfold or_refuse. autorewrite with wp.
  destruct r as [[]| |]; try done. autorewrite with wp. destruct (fault COpen p); autorewrite with wp; [done|].
  destruct (open_truncate p (files w1)) as [fs2| |]; autorewrite with wp; try done.
  destruct (write_body _ _ _ _ _ _) as [r f]. autorewrite with wp. unfold finish_body, refuse. destruct r as [[[]| |]|]; autorewrite with wp; done.
Qed.

Lemma store_metadata_refusal p tags um ct path a b c fs w :
  post (store_metadata p tags um ct path a b c) (refusal_keeps fs) (fun _ _ => True) w.
Proof.
  assert (forall name v w1, exists r w2, write_text name p v w1 = (Next r, w2)) as Hw.
  { intros. unfold write_text, remove_text, mbind, handler_bind, xattr_set, xattr_remove, change. repeat case_match; eauto; simplify_eq; eauto. }
  unfold store_metadata, write_tags, write_user_meta, write_content_type, or_internal, or_refuse.
  assert (forall {B} name v w1 (k : res io_kind unit -> Act B) Q, (forall r w2, post (k r) (refusal_keeps fs) Q w2) ->
    post (write_text name p v ≫= k) (refusal_keeps fs) Q w1) as Hs.
  { intros B name v w1 k Q Hk. rewrite post_bind. unfold post at 1. destruct (Hw name v w1) as (r & w2 & ->). apply Hk. }
  repeat (apply Hs; intros [[]| |] ?; rewrite post_bind, post_unwrap; try done).
Qed.

Lemma append_refusal rq p offset len c w :
  post (handle_put_object_append rq p offset len c) (refusal_keeps (files w)) (refusal_keeps (files w)) w.
Proof.
  unfold handle_put_object_append.
  enough (forall w1, files w1 = files w -> post _ (refusal_keeps (files w)) (refusal_keeps (files w)) w1) as H by (by apply H). intros w1 Hw1.
  do 12 pass_check w1 Hw1. unfold append_body. autorewrite with wp.
  destruct (write_body _ _ _ _ _ _) as [r f]. autorewrite with wp. unfold finish_body, refuse, or_internal, or_refuse, metadata.
  destruct r as [[[]| |]|]; autorewrite with wp; try done. by case_match.
Qed.

Lemma put_replace_refusal rq p c len w :
  post (put_replace rq p c len) (refusal_keeps (files w)) (refusal_keeps (files w)) w.
Proof.
  unfold put_replace. rewrite post_bind. apply post_check; [apply check_put_checks|by intros ? ? ? ?|]. intros md w1 Hw1.
  destruct md as [[tagging um] ct]. rewrite post_bind. eapply post_mono; [apply store_body_refusal|done|].
  intros [] w2 _. unfold metadata, or_internal, or_refuse. autorewrite with wp.
  destruct (fault CMetadataAfter p); [done|]. destruct (stat (files w2) p); [|done..]. autorewrite with wp.
  eapply post_mono; [apply store_metadata_refusal|done|]. by intros.
Qed.

(** A refused PutObject changes nothing.  Whatever the request (a
    replacement or an append, any headers, any state of the tree), a reply
    that is an error other than 500 leaves the tree exactly as it was: no
    precondition, length, offset, tag, metadata or type check runs after the
    first change. *)
Theorem put_refusal_changes_nothing (rq : object_request) (p : path) (w w' : world) (e : HttpResponse) :
  ends_with "/" (o_key rq) = false -> join_object_path o_posix_root (o_bucket rq) (o_key rq) = Ok p ->
  resp_status e <> 500 -> replies (handle_put_object rq) w = (Some (Error e), w') -> files w' = files w.
Proof.
  intros Hk Hj He Hr.
  assert (refusal_keeps (files w) (Error e) w') as H; [|by apply H]. eapply post_replies; [|exact Hr].
  unfold handle_put_object.
  enough (forall w1, files w1 = files w -> post _ (refusal_keeps (files w)) (refusal_keeps (files w)) w1) as H by (by apply H). intros w1 Hw1.
  do 4 pass_check w1 Hw1. unfold object_path. rewrite Hj, post_bind. change (or_refuse (Ok p) ?f) with (mret p : Act path).
  rewrite post_ret, Hk. cbv iota.
  unfold logical_length. pass_check w1 Hw1. destruct a as [c len]. pass_check w1 Hw1.
  rewrite <- Hw1. destruct a as [o|]; [|apply put_replace_refusal]. destruct (0 <? o); [apply append_refusal|apply put_replace_refusal].
Qed.

(** *** Failures *)
Definition not_put_ok (r : obj_reply) (w : world) : Prop := is_put_ok r = false.

(** Appends and direct I/O.  The object is opened with [O_DIRECT]
    whenever direct I/O is configured and the file system accepts the flag;
    the alignment of the range is not looked at before that.  So an append to
    an object whose size is not a multiple of 4096 is never acknowledged on
    such a file system. *)
Theorem append_unaligned_never_acknowledged (rq : object_request) (p : path) (w w' : world) (c : bool) (len offset : Z) (r : obj_reply) :
  direct_io o_stream_cfg = true -> o_direct p = true -> 0 < chunk_size o_stream_cfg -> offset mod ALIGN <> 0 -> 0 < offset ->
  ends_with "/" (o_key rq) = false -> join_object_path o_posix_root (o_bucket rq) (o_key rq) = Ok p ->
  compute_logical_len (oq_headers rq) = Ok (c, len) -> 0 <= len ->
  parse_write_offset_header (oq_headers rq) = Ok (Some offset) ->
  replies (handle_put_object rq) w = (Some r, w') -> is_put_ok r = false.
Proof.
  intros Hd Hod Hch Hal Ho Hk Hj Hlen Hl Hoff Hr. change (not_put_ok r w'). eapply post_replies; [|exact Hr].
  apply (put_object_post rq p); [done|done|by intros|]. intros c1 len1 off w1 Hc1 Ho1 _.
  assert (c1 = c /\ len1 = len /\ off = Some offset) as (-> & -> & ->) by (split_and!; congruence).
  rewrite (proj2 (Z.ltb_lt 0 offset) Ho). unfold handle_put_object_append.
  assert (files w1 = files w1) as Hw1 by done. revert Hw1. generalize (files w1) at 2. intros fs Hw1.
  do 11 pass_check w1 Hw1. rewrite post_bind. unfold refuse_if. rewrite post_reply_if. destruct (Z.eqb_spec len 0); [done|].
  rewrite post_bind. unfold append_body. rewrite post_bind, post_get. rewrite Hd, Hod. cbn [andb].
  destruct (write_body _ _ _ _ _ _) as [r1 f] eqn:Ew. rewrite post_bind, post_modify. unfold finish_body, refuse.
  destruct r1 as [[[]| |]|]; autorewrite with wp; try done. exfalso.
  unfold write_body in Ew. destruct c; (eapply first_write_failed in Ew; [done|done|lia|]); cbn;
    unfold direct_events; cbn [andb]; rewrite Z.add_0_r, (proj2 (Z.eqb_neq _ 0) Hal); done.
Qed.

(** A PutObject through a symbolic link.  The data goes to the file the
    link names, but the attribute calls act on the link, where Linux permits
    no [user.*] attribute: on a file system with attributes such a PUT is
    never acknowledged, not even when it carries no metadata. *)
Theorem put_through_link_never_acknowledged (rq : object_request) (p : path) (w w' : world) (i : inode) (old : bytes) (r : obj_reply) :
  files w !! p = Some (RegFile i old true) -> device_xattrs (device p) = true -> honest_xattrs p ->
  ends_with "/" (o_key rq) = false -> join_object_path o_posix_root (o_bucket rq) (o_key rq) = Ok p ->
  parse_write_offset_header (oq_headers rq) = Ok None ->
  replies (handle_put_object rq) w = (Some r, w') -> is_put_ok r = false.
Proof.
  intros Hn Hx Hh Hk Hj Hoff Hr. change (not_put_ok r w'). eapply post_replies; [|exact Hr].
  apply (put_object_post rq p); [done|done|by intros|]. intros c len off w1 _ Ho Hw1. assert (off = None) as -> by congruence.
  unfold put_replace. rewrite post_bind. apply post_check; [apply check_put_checks|by intros|]. intros [[tagging um] ct] w2 Hw2.
  rewrite Hw1 in Hw2. rewrite post_bind.
  assert (post (store_body rq c p len) not_put_ok (fun _ w3 => exists i' f, files w3 !! p = Some (RegFile i' f true)) w2) as Hst.
  { unfold store_body. rewrite post_bind. apply create_dir_all_post. intros r1 w3 Hg _. rewrite Hw2 in Hg. unfold or_refuse.
    rewrite post_bind, post_unwrap. destruct r1 as [[]| |]; try done. rewrite post_bind, post_change.
    destruct (fault COpen p); [done|]. unfold open_truncate. rewrite (grows_keeps _ _ _ Hg _ _ Hn).
    rewrite post_bind, post_unwrap. destruct (write_body _ _ _ _ _ _) as [r2 f]. rewrite post_bind, post_modify.
    unfold finish_body, refuse. destruct r2 as [[[]| |]|]; autorewrite with wp; try done. cbn.
    rewrite put_content_insert. eexists _, _. apply lookup_insert_eq. }
  eapply post_mono; [exact Hst|done|]. intros [] w3 (i' & f & H3). unfold metadata. rewrite post_bind, post_look, post_bind.
  unfold or_internal at 1, or_refuse. rewrite post_unwrap. destruct (fault CMetadataAfter p); [done|]. unfold stat. rewrite H3.
  rewrite post_bind. unfold store_metadata, or_internal. rewrite post_bind. unfold post at 1.
  assert (exists e, write_tags p (default ""%string tagging) w3 = (Next (Err e), w3)) as [e ->]; [|done].
  unfold write_tags, write_text, remove_text, mbind, handler_bind, xattr_remove, xattr_set, change, update_xattrs.
  destruct (is_empty (default ""%string tagging)); rewrite H3, Hx; cbn; (destruct (fault _ p) as [e|] eqn:Ef; [|eauto]); [|eauto].
  destruct (Hh _ _ Ef). destruct e; eauto; done.
Qed.

(** A PutObject that fails while its body is read or written has already
    destroyed the object it was to replace: the destination is opened with
    [O_TRUNC] in place, so what it holds afterwards is what the writer got
    to, whatever was there before. *)
Theorem failed_put_loses_object (rq : object_request) (p : path) (w : world) (i : inode) (old : bytes) (l c : bool) (len : Z)
    (e : upload_error) :
  files w !! p = Some (RegFile i old l) -> is_dir (files w) (parent p) = true ->
  fault CMkdir (parent p) = None -> fault COpen p = None ->
  fst (write_body (write_events o_body_env) rq c DestPath [] len) = Returned (Err e) ->
  store_body rq c p len w =
    (Return (Error (internal_error (show_write (BodyFailed e)) (Some (oq_path rq)) None)),
     set_files (<[p := RegFile (touch (touch i)) (snd (write_body (write_events o_body_env) rq c DestPath [] len)) l]> (files w)) w).
Proof.
  intros Hn Hd Hm Ho He. unfold store_body, mbind, handler_bind.
  assert (create_dir_all (parent p) w = (Next (Ok tt), w)) as ->.
  { unfold create_dir_all. assert (make_dirs (length (parent p)) (parent p) (files w) = (Ok tt, files w)) as ->; [|by destruct w].
    assert (try_mkdir (parent p) (files w) = Err AlreadyExists) as Ht.
    { unfold try_mkdir, mkdir. rewrite Hm. unfold is_dir, stat in Hd. by destruct (files w !! parent p). }
    destruct (length (parent p)); cbn [make_dirs]; rewrite Ht, Hd; done. }
  cbn. unfold change, open_truncate. rewrite Ho, Hn. cbn.
  destruct (write_body _ _ _ _ _ _) as [r f]. cbn in *. subst r. cbn. by rewrite put_content_insert.
Qed.
End Claims.
