(* ===== verification/GetObject.v ===== *)
(** * GetObject and HeadObject (main.rs)

    [handle_get_object] with [head_response_from_lstat], [read_small] and
    [resolve_object_headers], and what a client receives. *)

From Stdlib Require Import ZArith Lia Ascii.
From stdpp Require Import base list strings numbers option gmap sorting.
From S2P Require Import Classifier.
From S2P Require Import Prelude RustStr Http Utils Preconditions UriEncoding S3Resp S3Xml Bytes FsHelpers FileSystem Handler Streaming PayloadSource Upload Copy GatewayHelpers Objects PutObject.

Local Open Scope s3_scope.
Local Open Scope Z_scope.

Section Get.
Context {E : ObjEnv}.

(** [resolve_object_headers] *)
Definition resolve_object_headers (p : path) : Act (string * list (string * string)) :=
  ct ← read_content_type p;
  um ← read_user_meta p;
  let stored := match ct with Ok o => o | _ => None end in
  let content_type := match stored with
                      | Some s => s
                      | None => default OBJECT_CONTENT_TYPE (mime_guess p)
                      end in
  mret (content_type, form_parse (match um with Ok s => s | _ => ""%string end)).

(** The precondition block of a read: [None] means go on. *)
Definition read_preconditions (rq : object_request) (etag_unquoted etag last_modified : string) (lm : system_time) : Act unit :=
  cond ← conditional_headers rq;
  match evaluate_read_preconditions cond etag_unquoted lm with
  | Proceed => mret tt
  | NotModified => reply_with (NotModifiedReply etag last_modified)
  | PreconditionFailed => refuse (precondition_failed "GET/HEAD precondition failed" (Some (oq_path rq)))
  end.

Definition respond (status : Z) (b : body) (content_type : string) (content_length : Z) (n : node)
    (content_range : option string) (user_meta : list (string * string)) : obj_reply :=
  ObjectReply {| or_status := status; or_body := b; or_content_type := content_type; or_content_length := content_length;
                 or_etag := meta_etag n; or_last_modified := fmt_http_date (i_mtime (node_inode n));
                 or_content_range := content_range; or_user_meta := user_meta |}.

Definition check_read (rq : object_request) (n : node) : Act unit :=
  read_preconditions rq (meta_etag_unquoted n) (meta_etag n) (fmt_http_date (i_mtime (node_inode n))) (i_mtime (node_inode n)).

(** [head_response_from_lstat] *)
Definition head_response_from_lstat (rq : object_request) (n : node) : Act obj_reply :=
  _ ← check_read rq n;
  mret (respond 200 (InMemory []) OBJECT_CONTENT_TYPE (node_size n) n None []).

(** [read_small] *)
Definition read_small (p : path) (file : bytes) (off len : Z) : res string bytes :=
  match o_read_at p off len with
  | Ok n => if n =? 0 then Err "unexpected EOF"%string else Ok (slice file off (off + n))
  | Err m => Err m
  | Panics => Panics
  end.

Definition is_head (rq : object_request) : bool :=
  match Classifier.op (oq_class rq) with Read HeadObject => true | _ => false end.

(** The [Range] header: [None] is no header *)
Definition requested_ranges (rq : object_request) (size : Z) : Act (option (list ByteRange)) :=
  match hm_get (oq_headers rq) "range" with
  | None => mret None
  | Some None => refuse (invalid_range "bad Range header" None)
  | Some (Some s) =>
      rs ← or_refuse (parse_ranges_header s size) (fun e => invalid_range (o_show_util_error e) None);
      mret (Some rs)
  end.

Definition open_channel : channel := {| ch_frames := []; ch_left := client_leaves |}.

(** The reply with the whole file or one range of it *)
Definition one_range (rq : object_request) (p : path) (n : node) (file : bytes) (content_type : string)
    (user_meta : list (string * string)) (single : option ByteRange) : Act obj_reply :=
  let size := blen file in
  let want := default {| start := 0; end_excl := size |} single in
  let want_len := end_excl want - start want in
  let range_present := bool_decide (is_Some single) in
  if is_head rq then
    mret (if range_present
          then respond 206 (InMemory []) content_type want_len n
                 (Some (object_content_range (start want) (end_excl want - 1) size)) user_meta
          else respond 200 (InMemory []) content_type size n None user_meta)
  else if want_len <=? chunk_size o_stream_cfg then
    b ← or_refuse (read_small p file (start want) want_len) (fun m => internal_error m (Some (oq_path rq)) None);
    mret (if range_present
          then respond 206 (InMemory b) content_type (blen b) n
                 (Some (object_content_range (start want) (start want + sat_sub (blen b) 1) size)) user_meta
          else respond 200 (InMemory b) content_type size n None user_meta)
  else
    let b := Streamed (emit_range file (o_uring_read p) (o_read_at p) (o_open_read p) size want o_stream_cfg open_channel) in
    mret (if range_present
          then respond 206 b content_type want_len n
                 (Some (object_content_range (start want) (end_excl want - 1) size)) user_meta
          else respond 200 b content_type size n None user_meta).

(** The reply for a non-empty regular file, once the preconditions hold *)
Definition object_body (rq : object_request) (p : path) (n : node) (file : bytes) (content_type : string)
    (user_meta : list (string * string)) : Act obj_reply :=
  let size := blen file in
  ranges ← requested_ranges rq size;
  match ranges with
  | Some ((_ :: _ :: _) as rs) =>
      if negb (is_head rq) then
        mret (respond 206 (Streamed (emit_multirange file (o_uring_read p) (o_read_at p) (o_open_read p) size rs new_boundary
                                       o_stream_cfg open_channel))
                (multirange_content_type new_boundary) (multirange_content_length new_boundary rs size) n None user_meta)
      else mret (respond 200 (InMemory []) content_type size n None user_meta)
  | _ => one_range rq p n file content_type user_meta (match ranges with Some [r] => Some r | _ => None end)
  end.

(** [open_file(.., OpenMode::Read, ..)] and its error answers *)
Definition open_object (rq : object_request) (p : path) : Act node :=
  opened ← look COpen p (fun fs => stat fs p);
  match opened with
  | Ok n => mret n
  | Panics => panic
  | Err NotFound =>
      if is_head rq then
        l ← symlink_metadata p;
        match l with
        | Ok n => if node_linked n then (r ← head_response_from_lstat rq n; reply_with r)
                  else refuse (no_such_key "not found" None)
        | _ => refuse (no_such_key "not found" None)
        end
      else refuse (no_such_key "not found" None)
  | Err NotADirectory => refuse (no_such_key "not found" None)
  | Err PermissionDenied => refuse (access_denied "permission denied" None)
  | Err e => refuse (internal_error (show_io e) (Some (oq_path rq)) None)
  end.

Definition handle_get_object (rq : object_request) : Act obj_reply :=
  let path := oq_path rq in
  _ ← no_effective_query rq;
  let bucket := o_bucket rq in
  let key := o_key rq in
  _ ← refuse_if (is_reserved_first_segment key o_mpu_dir_name) (no_such_key "not found" None);
  _ ← require_bucket_dir bucket path;
  p ← object_path bucket key;
  n ← open_object rq p;
  m ← metadata CFstat p;
  n ← or_internal m show_io path;
  match n with
  | Directory _ _ _ =>
      _ ← refuse_if (negb (ends_with "/" key)) (no_such_key "not found" None);
      _ ← check_read rq n;
      mret (respond 200 (InMemory []) OBJECT_CONTENT_TYPE 0 n None [])
  | _ =>
      _ ← refuse_if (ends_with "/" key) (no_such_key "not found" None);
      _ ← check_read rq n;
      hs ← resolve_object_headers p;
      let '(content_type, user_meta) := hs in
      let file := match n with RegFile _ b _ => b | _ => [] end in
      if blen file =? 0 then mret (respond 200 (InMemory []) content_type 0 n None user_meta)
      else object_body rq p n file content_type user_meta
  end.
End Get.

(** ** What a client receives *)
Section Delivery.
Context {E : ObjEnv}.

(** The bytes of a body that ends without error *)
Definition delivered (b : body) : option bytes :=
  match b with
  | InMemory b => Some b
  | Streamed (Ok _, out) => Some (sent out)
  | Streamed _ => None
  end.

(** A request for a regular file that passes the checks *)
Record readable (rq : object_request) (p : path) (i : inode) (b : bytes) (l : bool) (w : world) : Prop := {
  rd_query : has_effective_query rq = false;
  rd_unreserved : is_reserved_first_segment (o_key rq) o_mpu_dir_name = false;
  rd_bucket : exists root, bucket_root_path o_posix_root (o_bucket rq) = Ok root /\ fault CMetadata root = None /\
    is_dir (files w) root = true;
  rd_path : join_object_path o_posix_root (o_bucket rq) (o_key rq) = Ok p;
  rd_key : ends_with "/" (o_key rq) = false;
  rd_node : files w !! p = Some (RegFile i b l);
  rd_no_fault : fault COpen p = None /\ fault CFstat p = None /\ forall name, fault (CXattrGet name) p = None;
  rd_proceed : exists cond, parse_conditional_headers o_httpdate_parse (oq_headers rq) = Ok cond /\
    evaluate_read_preconditions cond (meta_etag_unquoted (RegFile i b l)) (i_mtime i) = Proceed;
}.

Lemma bind_next {A B} (m : Act A) (f : A -> Act B) w a w1 : m w = (Next a, w1) -> (m ≫= f) w = f a w1.
Proof. intros H. unfold mbind, handler_bind. by rewrite H. Qed.

Lemma require_bucket_passes bucket path root w :
  bucket_root_path o_posix_root bucket = Ok root -> fault CMetadata root = None -> is_dir (files w) root = true ->
  require_bucket_dir bucket path w = (Next tt, w).
Proof.
  intros Hr Hf Hd. unfold require_bucket_dir. rewrite Hr. rewrite (bind_next (or_refuse (Ok root) _) _ w root w) by done.
  unfold metadata, look, mbind, handler_bind, get. rewrite Hf.
  unfold is_dir in Hd. by destruct (stat (files w) root) as [n| |]; [rewrite Hd|..].
Qed.

Lemma xattr_get_passes p name w n :
  fault (CXattrGet name) p = None -> files w !! p = Some n ->
  xattr_get p name w = (Next (if device_xattrs (device p) then Ok (attr_of p name (files w)) else Err Unsupported), w).
Proof.
  intros Hf Hn. unfold xattr_get, look, get, attr_of. rewrite Hf, Hn.
  destruct (device_xattrs (device p)); cbn; [|done]. by destruct (node_linked n).
Qed.

Definition content_type_of (p : path) (fs : filesystem) : string :=
  default (default OBJECT_CONTENT_TYPE (mime_guess p))
    (match attr_of p CONTENT_TYPE_XATTR fs with Some s => Some s | None => attr_of p FREEDESKTOP_MIME_XATTR fs end).
Definition user_meta_of (p : path) (fs : filesystem) : list (string * string) :=
  form_parse (default ""%string (attr_of p USER_META_XATTR fs)).

Lemma attr_of_unsupported p name fs : device_xattrs (device p) = false -> attr_of p name fs = None.
Proof. intros H. unfold attr_of. rewrite H. by destruct (fs !! p). Qed.

Lemma read_text_passes p name w n :
  fault (CXattrGet name) p = None -> files w !! p = Some n ->
  read_text name p w = (Next (Ok (default ""%string (attr_of p name (files w)))), w).
Proof.
  intros Hf Hn. unfold read_text. rewrite (bind_next _ _ w _ w (xattr_get_passes p name w n Hf Hn)).
  destruct (device_xattrs (device p)) eqn:Ed; [by destruct (attr_of p name (files w))|]. by rewrite attr_of_unsupported.
Qed.

Lemma read_xattr_string_passes p name w n :
  fault (CXattrGet name) p = None -> files w !! p = Some n ->
  read_xattr_string p name w = (Next (Ok (attr_of p name (files w))), w).
Proof.
  intros Hf Hn. unfold read_xattr_string. rewrite (bind_next _ _ w _ w (xattr_get_passes p name w n Hf Hn)).
  destruct (device_xattrs (device p)) eqn:Ed; [done|]. by rewrite attr_of_unsupported.
Qed.

Lemma read_content_type_passes p w n :
  (forall name, fault (CXattrGet name) p = None) -> files w !! p = Some n ->
  read_content_type p w = (Next (Ok (match attr_of p CONTENT_TYPE_XATTR (files w) with
    | Some s => Some s | None => attr_of p FREEDESKTOP_MIME_XATTR (files w) end)), w).
Proof.
  intros Hf Hn. unfold read_content_type.
  rewrite (bind_next _ _ w _ w (read_xattr_string_passes p CONTENT_TYPE_XATTR w n (Hf _) Hn)).
  destruct (attr_of p CONTENT_TYPE_XATTR (files w)); [done|]. by eapply read_xattr_string_passes.
Qed.

Lemma resolve_passes p w n :
  (forall name, fault (CXattrGet name) p = None) -> files w !! p = Some n ->
  resolve_object_headers p w = (Next (content_type_of p (files w), user_meta_of p (files w)), w).
Proof.
  intros Hf Hn. unfold resolve_object_headers. rewrite (bind_next _ _ w _ w (read_content_type_passes p w n Hf Hn)).
  unfold read_user_meta. rewrite (bind_next _ _ w _ w (read_text_passes p USER_META_XATTR w n (Hf _) Hn)).
  unfold content_type_of. by repeat case_match.
Qed.

Lemma get_reaches rq p i b l w :
  readable rq p i b l w ->
  handle_get_object rq w =
    (if blen b =? 0
     then mret (respond 200 (InMemory []) (content_type_of p (files w)) 0 (RegFile i b l) None (user_meta_of p (files w)))
     else object_body rq p (RegFile i b l) b (content_type_of p (files w)) (user_meta_of p (files w))) w.
Proof.
  intros [Hq Hu (root & Hr & Hfr & Hd) Hp Hk Hn (Hfo & Hfs & Hfx) (cond & Hc & He)]. unfold handle_get_object.
  unfold no_effective_query. rewrite Hq, Hu. rewrite !(bind_next (refuse_if false _) _ w tt w) by done.
  rewrite (bind_next _ _ w tt w) by (by eapply require_bucket_passes). unfold object_path, or_refuse. rewrite Hp.
  rewrite (bind_next (unwrap_or_reply (Ok p) _) _ w p w) by done. unfold open_object.
  rewrite (bind_next _ _ w (RegFile i b l) w).
  2:{ unfold mbind, handler_bind, look, get. rewrite Hfo. unfold stat. by rewrite Hn. }
  rewrite (bind_next (metadata CFstat p) _ w (Ok (RegFile i b l)) w).
  2:{ unfold metadata, look, get. rewrite Hfs. unfold stat. by rewrite Hn. }
  rewrite (bind_next (or_internal (Ok _) _ _) _ w (RegFile i b l) w) by done. rewrite Hk.
  rewrite (bind_next (refuse_if false _) _ w tt w) by done.
  rewrite (bind_next (check_read rq (RegFile i b l)) _ w tt w).
  2:{ unfold check_read, read_preconditions, conditional_headers, or_refuse. rewrite Hc. unfold mbind, handler_bind. cbn in *. by rewrite He. }
  rewrite (bind_next _ _ w _ w (resolve_passes p w _ Hfx Hn)). done.
Qed.
End Delivery.

Section Claims.
Context {E : ObjEnv}.

(** The range a GET asks for: all of the object, or the one range of the header *)
Definition asks_for (rq : object_request) (size : Z) (want : ByteRange) : Prop :=
  hm_get (oq_headers rq) "range" = None /\ want = {| start := 0; end_excl := size |} \/
  exists s, hm_get (oq_headers rq) "range" = Some (Some s) /\ parse_ranges_header s size = Ok [want].

(** The kernel answers reads of the file in full, and the client stays. *)
Record undisturbed_read (p : path) (b : bytes) : Prop := {
  ur_chunk : 0 < chunk_size o_stream_cfg;
  ur_size : blen b <= i64_max;
  ur_uring : full_reads_from b 0 (o_uring_read p);
  ur_read_at : full_reads_from b 0 (o_read_at p);
  ur_open : o_open_read p = Ok tt;
  ur_client : client_leaves = None;
}.

Lemma asks_for_bounds rq size want : 0 < size <= i64_max -> asks_for rq size want -> 0 <= start want < end_excl want /\ end_excl want <= size.
Proof.
  intros Hs [[_ ->]|(s & _ & Hp)]; [cbn; lia|].
  apply parse_ranges_header_bounds in Hp; [|unfold is_u64, i64_max, u64_max in *; lia|lia].
  apply Forall_cons_iff in Hp as [Hp _]. lia.
Qed.

Definition fixed_headers (r : object_response) (p : path) (n : node) (fs : filesystem) : Prop :=
  or_etag r = meta_etag n /\ or_last_modified r = fmt_http_date (i_mtime (node_inode n)) /\
  or_content_type r = content_type_of p fs /\ or_user_meta r = user_meta_of p fs.

(** The status line and the [Content-Range] of an answer *)
Definition range_announced (rq : object_request) (size : Z) (want : ByteRange) (r : object_response) : Prop :=
  match hm_get (oq_headers rq) "range" with
  | None => or_status r = 200 /\ or_content_range r = None
  | Some _ => or_status r = 206 /\
      or_content_range r = Some ("bytes " +:+ print_u64 (start want) +:+ "-" +:+ print_u64 (end_excl want - 1) +:+ "/" +:+ print_u64 size)%string
  end.

Lemma object_body_delivers rq p n b w want :
  is_head rq = false -> 0 < blen b -> undisturbed_read p b -> asks_for rq (blen b) want ->
  exists r, object_body rq p n b (content_type_of p (files w)) (user_meta_of p (files w)) w = (Next (ObjectReply r), w) /\
    delivered (or_body r) = Some (slice b (start want) (end_excl want)) /\
    or_content_length r = end_excl want - start want /\ fixed_headers r p n (files w) /\ range_announced rq (blen b) want r.
Proof.
  intros Hh Hb [Hc Hs Hu Hr Ho Hcl] Hask. destruct (asks_for_bounds rq (blen b) want ltac:(lia) Hask) as [Hw1 Hw2].
  assert (exists o : option ByteRange, (o = None -> want = {| start := 0; end_excl := blen b |}) /\ default want o = want /\
    (hm_get (oq_headers rq) "range" = None <-> o = None) /\
    requested_ranges rq (blen b) w = (Next ((fun r => [r]) <$> o), w)) as (o & Hnone & Hdef & Hhdr & Hreq).
  { destruct Hask as [[Hg ->]|(s & Hg & Hp)]; unfold requested_ranges; rewrite Hg.
    - by exists None.
    - exists (Some want). rewrite Hp. done. }
  unfold object_body. rewrite (bind_next _ _ w _ w Hreq).
  assert (exists bd, delivered bd = Some (slice b (start want) (end_excl want)) /\
    (if want.(end_excl) - want.(start) <=? chunk_size o_stream_cfg
     then read_small p b (start want) (end_excl want - start want) = Ok (slice b (start want) (end_excl want)) /\
          bd = InMemory (slice b (start want) (end_excl want))
     else bd = Streamed (emit_range b (o_uring_read p) (o_read_at p) (o_open_read p) (blen b) want o_stream_cfg open_channel)))
    as (bd & Hbd & Hcase).
  { destruct (Z.leb_spec (end_excl want - start want) (chunk_size o_stream_cfg)).
    - exists (InMemory (slice b (start want) (end_excl want))). split_and!; try done. unfold read_small.
      rewrite Hr by lia. rewrite (proj2 (Z.eqb_neq _ 0)) by lia. do 2 f_equal. lia.
    - destruct (emit_range_full b (o_uring_read p) (o_read_at p) (o_open_read p) (blen b) want o_stream_cfg open_channel)
        as (out' & Hem & _ & Hsent); try (done || lia). eexists. split; [|done]. rewrite Hem. cbn. by rewrite Hsent. }
  assert (blen (slice b (start want) (end_excl want)) = end_excl want - start want) as Hlen by (rewrite blen_slice by lia; lia).
  destruct o as [r|]; cbn [fmap option_fmap option_map]; unfold one_range.
  - assert (forall r0, or_status r0 = 206 -> or_content_range r0 = Some (object_content_range (start want) (end_excl want - 1) (blen b)) ->
      range_announced rq (blen b) want r0) as Hra.
    { intros r0 H1 H2. unfold range_announced. destruct (hm_get _ _); [done|]. by specialize (proj1 Hhdr eq_refl). }
    cbn in Hdef. subst r. cbn [default from_option id]. rewrite Hh. case_match.
    + destruct Hcase as [-> ->]. eexists. split; [done|]. split; [done|]. split; [done|]. split; [done|]. apply Hra; [reflexivity|]. cbn [or_content_range].
      replace (start want + sat_sub (blen (slice b (start want) (end_excl want))) 1) with (end_excl want - 1) by (unfold sat_sub; lia). reflexivity.
    + subst bd. eexists. split; [done|]. split; [done|]. split; [done|]. split; [done|]. apply Hra; reflexivity.
  - assert (forall r0, or_status r0 = 200 -> or_content_range r0 = None -> range_announced rq (blen b) want r0) as Hra.
    { intros r0 H1 H2. unfold range_announced. by rewrite (proj2 Hhdr eq_refl). }
    specialize (Hnone eq_refl). subst want. cbn [default from_option id] in *. rewrite Hh. case_match.
    + destruct Hcase as [-> ->]. eexists. split; [done|]. split; [done|]. split; [cbn; lia|]. split; [done|]. apply Hra; reflexivity.
    + subst bd. eexists. split; [done|]. split; [done|]. split; [cbn; lia|]. split; [done|]. apply Hra; reflexivity.
Qed.

(** C7. A GET delivers the object.  For a regular file, any single range of
    it or no range, any chunk size and direct I/O setting: when the checks
    pass and the kernel answers reads in full, the reply carries exactly the
    requested bytes, status 200 and no [Content-Range] without a [Range]
    header, status 206 and the range delivered with one, a [Content-Length]
    that is their number, the ETag, time, content type and user metadata the
    file has, and the tree is untouched. *)
Theorem get_object_delivers (rq : object_request) (p : path) (i : inode) (b : bytes) (l : bool) (w : world) (want : ByteRange) :
  readable rq p i b l w -> is_head rq = false -> 0 < blen b -> undisturbed_read p b -> asks_for rq (blen b) want ->
  exists r, replies (handle_get_object rq) w = (Some (ObjectReply r), w) /\
    delivered (or_body r) = Some (slice b (start want) (end_excl want)) /\
    or_content_length r = end_excl want - start want /\ fixed_headers r p (RegFile i b l) (files w) /\
    range_announced rq (blen b) want r.
Proof.
  intros Hrd Hh Hb Hur Hask. unfold replies. rewrite (get_reaches rq p i b l w Hrd), (proj2 (Z.eqb_neq _ 0)) by lia.
  destruct (object_body_delivers rq p (RegFile i b l) b w want Hh Hb Hur Hask) as (r & -> & ?). eauto.
Qed.

(** A file cut between [fstat] and the read: the small-body path of a request
    without [Range] still announces the size it saw, more than it sends. *)
Lemma short_read_misannounced (rq : object_request) (p : path) (nd : node) (b : bytes) (ct : string) (um : list (string * string)) (w : world) (n : Z) :
  is_head rq = false -> hm_get (oq_headers rq) "range" = None -> blen b <= chunk_size o_stream_cfg ->
  o_read_at p 0 (blen b) = Ok n -> 0 < n < blen b ->
  object_body rq p nd b ct um w = (Next (respond 200 (InMemory (slice b 0 n)) ct (blen b) nd None um), w) /\ blen (slice b 0 n) < blen b.
Proof.
  intros Hh Hg Hc Hr Hn. split; [|rewrite blen_slice; lia].
  unfold object_body, requested_ranges. rewrite Hg, (bind_next (mret None) _ w None w) by done. unfold one_range. cbn [default from_option start end_excl].
  rewrite Hh, Z.sub_0_r, (proj2 (Z.leb_le _ _)) by done. unfold read_small. rewrite Hr, (proj2 (Z.eqb_neq _ 0)) by lia. done.
Qed.

End Claims.
