(* ===== verification/DeleteObject.v ===== *)
(** * DeleteObject and DeleteObjects (main.rs)

    [prune_empty_parents], [handle_delete_object] and
    [handle_delete_objects]: what they remove and what they never touch. *)

From Stdlib Require Import ZArith Lia Ascii.
From stdpp Require Import base list strings numbers option gmap sorting.
From S2P Require Import Classifier.
From S2P Require Import Prelude RustStr Http Utils Preconditions UriEncoding S3Resp S3Xml Bytes FsHelpers FileSystem Handler Streaming PayloadSource Upload Copy GatewayHelpers Objects.

Local Open Scope s3_scope.
Local Open Scope Z_scope.

Section Delete.
Context {E : ObjEnv}.

Definition remove_dir (p : path) : Act (res io_kind unit) := change CRmdir p (rmdir p).
Definition remove_file (p : path) : Act (res io_kind unit) := change CUnlink p (unlink p).

(** [prune_empty_parents]; [dir.parent()] is [None] for the root. *)
Fixpoint prune_loop (n : nat) (bucket_root dir : path) : Act unit :=
  if bool_decide (dir = bucket_root) then mret tt
  else
    r ← remove_dir dir;
    match r, n with
    | Ok _, S n => prune_loop n bucket_root (parent dir)
    | _, _ => mret tt
    end.
Definition prune_empty_parents (bucket_root dir : path) : Act unit := prune_loop (length dir) bucket_root dir.

(** After a removal: [if let (Ok(bucket_root), Some(parent)) = ..] *)
Definition prune_after (bucket : string) (p : path) : Act unit :=
  match bucket_root_path o_posix_root bucket, p with
  | Ok bucket_root, _ :: _ => prune_empty_parents bucket_root (parent p)
  | _, _ => mret tt
  end.

(** The branch for a key that ends with a slash *)
Definition delete_directory_marker (rq : object_request) (p : path) : Act obj_reply :=
  let path := oq_path rq in
  r ← remove_dir p;
  _ ← (match r with
       | Ok _ => prune_after (o_bucket rq) p
       | Err NotFound => mret tt
       | Err DirectoryNotEmpty => refuse (s3_error 409 "BucketNotEmpty" "directory not empty" (Some path) None)
       | Err PermissionDenied => refuse (access_denied "permission denied" (Some path))
       | Err e => refuse (internal_error (show_io e) (Some path) None)
       | Panics => panic
       end);
  mret DeleteNoContent.

(** The preconditions of a delete *)
Definition delete_preconditions (rq : object_request) (cond : ConditionalHeaders) (m : res io_kind node) : Act unit :=
  let path := oq_path rq in
  match m with
  | Ok n =>
      _ ← refuse_if (match evaluate_write_preconditions cond (Some (meta_etag_unquoted n, i_mtime (node_inode n))) with
                     | PreconditionFailed => true | _ => false end)
            (precondition_failed "DELETE precondition failed" (Some path));
      _ ← refuse_if (match amz_if_match_size cond with Some want => negb (want =? node_size n) | None => false end)
            (precondition_failed "x-amz-if-match-size mismatch" (Some path));
      refuse_if (match amz_if_match_last_modified_time cond with
                 | Some want => negb (i_mtime (node_inode n) =? want) | None => false end)
        (precondition_failed "x-amz-if-match-last-modified-time mismatch" (Some path))
  | _ => refuse_if (bool_decide (is_Some (if_match cond)))
           (precondition_failed "DELETE If-Match but object does not exist" (Some path))
  end.

Definition handle_delete_object (rq : object_request) : Act obj_reply :=
  let path := oq_path rq in
  _ ← no_effective_query rq;
  let bucket := o_bucket rq in
  let key := o_key rq in
  _ ← not_reserved key path;
  _ ← target_named bucket key path;
  _ ← require_bucket_dir bucket path;
  p ← object_path bucket key;
  if ends_with "/" key then delete_directory_marker rq p
  else
    cond ← conditional_headers rq;
    m ← metadata CMetadata p;
    _ ← delete_preconditions rq cond m;
    r ← remove_file p;
    _ ← (match r with
         | Ok _ => prune_after bucket p
         | Err NotFound => mret tt
         | Err PermissionDenied => refuse (access_denied "permission denied" (Some path))
         | Err e => refuse (internal_error (show_io e) (Some path) None)
         | Panics => panic
         end);
    mret DeleteNoContent.

(** *** [handle_delete_objects] *)
Definition delete_error (key code message : string) : DeleteErrorInfo := {| de_key := key; de_code := code; de_message := message |}.

(** One key of the loop: [None] is success *)
Definition delete_key (bucket : string) (bucket_root : path) (key : string) : Act (option DeleteErrorInfo) :=
  if is_empty key then mret (Some (delete_error key "InvalidRequest" "empty key"))
  else if is_reserved_first_segment key o_mpu_dir_name then mret (Some (delete_error key "AccessDenied" "reserved key prefix"))
  else match join_object_path o_posix_root bucket key with
       | Panics => panic
       | Err e => mret (Some (delete_error key "InvalidRequest" (path_error_message e)))
       | Ok p =>
           r ← (if ends_with "/" key then remove_dir p else remove_file p);
           match r with
           | Ok _ => _ ← (match p with [] => mret tt | _ => prune_empty_parents bucket_root (parent p) end); mret None
           | Err NotFound => mret None
           | Err DirectoryNotEmpty => mret (Some (delete_error key "BucketNotEmpty" "directory not empty"))
           | Err PermissionDenied => mret (Some (delete_error key "AccessDenied" "permission denied"))
           | Err e => mret (Some (delete_error key "InternalError" (show_io e)))
           | Panics => panic
           end
       end.

Fixpoint delete_keys (bucket : string) (bucket_root : path) (quiet : bool) (keys : list string)
    (deleted : list string) (errors : list DeleteErrorInfo) : Act obj_reply :=
  match keys with
  | [] => mret (DeleteObjectsResult deleted errors)
  | key :: keys =>
      r ← delete_key bucket bucket_root key;
      match r with
      | None => delete_keys bucket bucket_root quiet keys (if quiet then deleted else deleted ++ [key]) errors
      | Some e => delete_keys bucket bucket_root quiet keys deleted (errors ++ [e])
      end
  end.

Definition handle_delete_objects (rq : object_request) : Act obj_reply :=
  let path := oq_path rq in
  _ ← refuse_if (negb (has (Classifier.query (oq_class rq)) "delete")) (not_implemented "missing ?delete" None);
  let bucket := o_bucket rq in
  _ ← refuse_if (is_empty bucket) (error400 "InvalidRequest" "missing bucket" path);
  _ ← require_bucket_dir bucket path;
  collected ← xml_body rq;
  parsed ← or_refuse (parse_delete_objects_request (xml_events collected)) (fun e => error400 "InvalidRequest" e path);
  let '(quiet, keys) := parsed in
  _ ← refuse_if (1000 <? Z.of_nat (length keys)) (error400 "InvalidRequest" "too many keys in DeleteObjects (max 1000)" path);
  root ← or_refuse (bucket_root_path o_posix_root bucket) (fun e => access_denied (path_error_message e) (Some path));
  delete_keys bucket root quiet keys [] [].
End Delete.

(** ** What a delete removes *)
Section Proofs.
Context {E : ObjEnv}.

(** Only real directories strictly between [root] and [dir], or [dir], go. *)
Definition strictly_below (root q : path) : Prop := root `prefix_of` q /\ root <> q.
Record pruned (root dir : path) (fs fs' : filesystem) : Prop := {
  pruned_at : forall q, fs' !! q = fs !! q \/
    (fs' !! q = None /\ strictly_below root q /\ q `prefix_of` dir /\ exists n, fs !! q = Some n /\ is_real_dir n = true);
}.

Lemma pruned_refl root dir fs : pruned root dir fs fs.
Proof. split. by left. Qed.

Lemma rmdir_ok p fs fs' : rmdir p fs = Ok fs' -> exists n, fs !! p = Some n /\ is_real_dir n = true /\ children fs p = [] /\ fs' = delete p fs.
Proof.
  unfold rmdir. destruct (fs !! p) as [n|]; [|done]. destruct (is_real_dir n) eqn:Er; [|done]. cbn [negb].
  destruct (children fs p) eqn:Ec; [|done]. intros [= <-]. eauto 10.
Qed.

Lemma below_parent root dir : strictly_below root dir -> root `prefix_of` parent dir.
Proof.
  intros [[r ->] Hne]. destruct r as [|x r _] using rev_ind; [by rewrite app_nil_r in Hne|].
  unfold parent. rewrite app_assoc, length_app, Nat.add_sub, take_app_length. by exists r.
Qed.

Lemma prune_loop_spec n root dir w :
  root `prefix_of` dir -> exists w', prune_loop n root dir w = (Next tt, w') /\ pruned root dir (files w) (files w').
Proof.
  revert dir w. induction n as [|n IH]; intros dir w Hp; cbn [prune_loop];
    (case_bool_decide as Hd; [exists w; split; [done|apply pruned_refl]|]).
  all: unfold mbind, handler_bind, remove_dir, change; destruct (fault CRmdir dir); [exists w; split; [done|apply pruned_refl]|].
  all: destruct (rmdir dir (files w)) as [fs'| |] eqn:Er; [|exists w; split; [done|apply pruned_refl]..].
  all: destruct (rmdir_ok _ _ _ Er) as (m & Hm & Hr & _ & ->).
  all: assert (pruned root dir (files w) (delete dir (files w))) as Hdel.
  1,3: split; intros q; destruct (decide (q = dir)) as [->|]; [right; rewrite lookup_delete_eq; split_and!; eauto; by split; [|congruence]
                                                           |left; by rewrite lookup_delete_ne].
  - eexists. by split.
  - destruct (IH (parent dir) (set_files (delete dir (files w)) w)) as (w' & -> & [Hpr]).
    { apply below_parent. by split; [|congruence]. }
    exists w'. split; [done|]. split. intros q. destruct (Hpr q) as [->|(Hq & Hb & Hpre & m' & Hm' & Hr')]; [apply (pruned_at _ _ _ _ Hdel)|].
    right. cbn in Hm'. apply lookup_delete_Some in Hm' as [_ Hm']. split_and!; [done|done| |eauto].
    etrans; [exact Hpre|apply parent_prefix].
Qed.

(** Pruning never brings anything back. *)
Lemma prune_loop_absent n root dir w q :
  files w !! q = None -> files (snd (prune_loop n root dir w)) !! q = None.
Proof.
  revert dir w. induction n as [|n IH]; intros dir w Hq; cbn [prune_loop]; case_bool_decide; try done;
    unfold mbind, handler_bind, remove_dir, change; destruct (fault CRmdir dir); try done;
    (destruct (rmdir dir (files w)) as [fs'| |] eqn:Er; [|done..]); destruct (rmdir_ok _ _ _ Er) as (m & Hm & Hr & _ & ->).
  - cbn. by apply lookup_delete_None; right.
  - apply IH. cbn. by apply lookup_delete_None; right.
Qed.

(** The path of a key that does not end with a slash is below its bucket. *)
Lemma split_last_nonempty key :
  key <> ""%string -> ends_with "/" key = false -> exists l x, split "/" key = l ++ [x] /\ x <> ""%string.
Proof.
  induction key as [|c key IH]; [done|]. intros _ He. destruct (decide (key = ""%string)) as [->|Hk].
  - exists [], (String c ""). split; [|done]. cbn. destruct (c =c "/") eqn:Ec; [|done].
    apply Ascii.eqb_eq in Ec as ->. done.
  - destruct IH as (l & x & Hs & Hx); [done| |].
    { destruct (ends_with "/" key) eqn:E1; [|done]. by rewrite (ends_with_cons _ c _ E1) in He. }
    cbn. rewrite Hs. destruct (c =c "/").
    + by exists (""%string :: l), x.
    + destruct l as [|h l]; cbn; [by exists [], (String c x)|by exists (String c h :: l), x].
Qed.

Lemma object_below_bucket bucket key p :
  join_object_path o_posix_root bucket key = Ok p -> key <> ""%string -> ends_with "/" key = false ->
  strictly_below (o_posix_root ++ [bucket]) p /\ bucket_root_path o_posix_root bucket = Ok (o_posix_root ++ [bucket]).
Proof.
  intros Hj Hk He. unfold bucket_root_path, join_object_path in *. case_match; [done|]. split; [|done].
  apply push_parts_ok in Hj as [-> _]; [|apply split_no_sep]. split; [by eexists|].
  destruct (split_last_nonempty key) as (l & x & -> & Hx); [done..|].
  intros H1. apply (f_equal length) in H1. rewrite filter_app, (filter_cons_True _ x) in H1 by done.
  rewrite !length_app in H1. cbn in H1. lia.
Qed.

(** What a delete of [p] may do to the tree *)
Definition loses_only (root p : path) (fs fs' : filesystem) : Prop := forall q,
  fs' !! q = fs !! q \/
  (fs' !! q = None /\ (p `prefix_of` q \/
     strictly_below root q /\ q `prefix_of` p /\ exists n, fs !! q = Some n /\ is_real_dir n = true)).

Lemma loses_only_refl root p fs : loses_only root p fs fs.
Proof. by left. Qed.

Lemma pruned_after_remove root p fs fs' :
  strictly_below root p -> pruned root (parent p) (remove_tree p fs) fs' -> loses_only root p fs fs'.
Proof.
  intros [Hpre Hne] [Hpr] q. destruct (Hpr q) as [->|(-> & Hb & Hq & n & Hn & Hr)]; rewrite lookup_remove_tree in *.
  - case_bool_decide; auto.
  - case_bool_decide; [done|]. right. split; [done|]. right. split_and!; [done| |eauto]. etrans; [exact Hq|apply parent_prefix].
Qed.

(** The removal at the end of a delete: it goes on only when the object is
    gone, and returns early only with the tree as it was. *)
Lemma remove_and_prune_spec bucket key p w r w' :
  join_object_path o_posix_root bucket key = Ok p -> key <> ""%string -> ends_with "/" key = false ->
  remove_file p w = (Next r, w') ->
  match r with
  | Ok _ => exists w2, prune_after bucket p w' = (Next tt, w2) /\ files w2 !! p = None /\
              loses_only (o_posix_root ++ [bucket]) p (files w) (files w2)
  | Err NotFound => files w' = files w /\ (fault CUnlink p = Some NotFound \/ files w !! p = None)
  | _ => files w' = files w
  end.
Proof.
  intros Hj Hk He. destruct (object_below_bucket _ _ _ Hj Hk He) as [Hb Hroot].
  unfold remove_file, change. destruct (fault CUnlink p) as [e|]; [intros [= <- <-]; destruct e; auto|].
  unfold unlink. destruct (files w !! p) as [n|] eqn:En; [|intros [= <- <-]; case_match; auto].
  destruct (is_real_dir n); intros [= <- <-]; [done|].
  unfold prune_after. rewrite Hroot. destruct p as [|x p]; [destruct Hb as [[[|] Hb] ?]; by destruct o_posix_root|].
  unfold prune_empty_parents.
  destruct (prune_loop_spec (length (parent (x :: p))) (o_posix_root ++ [bucket]) (parent (x :: p))
              (set_files (remove_tree (x :: p) (files w)) w)) as (w2 & H2 & Hpr); [by apply below_parent|].
  exists w2. split_and!; [done| |by apply pruned_after_remove].
  change w2 with (snd (Next tt : flow obj_reply unit, w2)). rewrite <- H2. apply prune_loop_absent. cbn.
  by rewrite lookup_remove_tree, bool_decide_true.
Qed.

(** The conditions under which the object at [p] may be deleted *)
Definition delete_allowed (cond : ConditionalHeaders) (m : res io_kind node) : Prop :=
  match m with
  | Ok n => write_allowed cond (Some (meta_etag_unquoted n, i_mtime (node_inode n))) /\
            (forall want, amz_if_match_size cond = Some want -> want = node_size n) /\
            (forall want, amz_if_match_last_modified_time cond = Some want -> want = i_mtime (node_inode n))
  | _ => if_match cond = None
  end.

Lemma delete_preconditions_post rq cond m P w :
  (forall e, P (Error e) w) ->
  post (delete_preconditions rq cond m) P (fun _ w' => w' = w /\ delete_allowed cond m) w.
Proof.
  intros HP. unfold delete_preconditions, refuse_if, delete_allowed. destruct m as [n| |]; autorewrite with wp.
  2,3: case_bool_decide as Hc; [apply HP|]; split; [done|]; by destruct (if_match cond); [destruct Hc; eexists|].
  destruct (evaluate_write_preconditions _ _) eqn:Ev; try apply HP; autorewrite with wp.
  all: destruct (amz_if_match_size cond) as [a|]; [destruct (a =? node_size n) eqn:Ea; cbn [negb]; [|apply HP]|].
  all: autorewrite with wp; destruct (amz_if_match_last_modified_time cond) as [b|];
    [destruct (i_mtime (node_inode n) =? b) eqn:Eb; cbn [negb]; [|apply HP]|].
  all: split_and!; try done; try (by apply write_not_failed; rewrite Ev); intros ? [= <-]; lia.
Qed.

Definition on_delete (w : world) (G : world -> Prop) (r : obj_reply) (w' : world) : Prop :=
  match r with Error _ => files w' = files w | DeleteNoContent => G w' | _ => False end.

Lemma handle_delete_post rq p w :
  join_object_path o_posix_root (o_bucket rq) (o_key rq) = Ok p -> ends_with "/" (o_key rq) = false ->
  let G := on_delete w (fun w' => o_key rq <> ""%string /\ loses_only (o_posix_root ++ [o_bucket rq]) p (files w) (files w') /\
    (fault CUnlink p <> Some NotFound -> files w' !! p = None) /\
    exists cond, parse_conditional_headers o_httpdate_parse (oq_headers rq) = Ok cond /\
      delete_allowed cond (match fault CMetadata p with Some e => Err e | None => stat (files w) p end)) in
  post (handle_delete_object rq) G G w.
Proof.
  intros Hj He G.
  enough (forall w1, files w1 = files w -> post (handle_delete_object rq) G G w1) as H by (by apply H). intros w1 Hw1.
  unfold handle_delete_object. pass_check w1 Hw1. pass_check w1 Hw1. cbv zeta.
  rewrite post_bind. unfold target_named, refuse_if. rewrite post_reply_if.
  destruct (is_empty (o_bucket rq) || is_empty (o_key rq)) eqn:En; [done|].
  apply orb_false_iff in En as [_ Hk%is_empty_false]. pass_check w1 Hw1.
  rewrite post_bind. unfold object_path, or_refuse at 1. rewrite post_unwrap, Hj, He.
  rewrite post_bind. unfold conditional_headers, or_refuse at 1. rewrite post_unwrap.
  destruct (parse_conditional_headers _ _) as [cond| |] eqn:Ec; [|done..].
  rewrite post_bind. unfold metadata. rewrite post_look, post_bind, Hw1.
  eapply post_mono; [apply (delete_preconditions_post _ _ _ G); intros e; exact Hw1|done|]. cbv beta. intros [] w2 [-> Hal].
  rewrite post_bind. unfold post at 1. destruct (remove_file p w1) as [f w3] eqn:Er.
  assert (exists r, f = Next r) as [r ->].
  { revert Er. unfold remove_file, change. repeat case_match; intros; simplify_eq; eauto. }
  pose proof (remove_and_prune_spec _ _ _ _ _ _ Hj Hk He Er) as Hs.
  destruct r as [[]|e|]; [|destruct e; try (rewrite post_bind; unfold G, refuse; rewrite post_reply; cbn; congruence)|done].
  - destruct Hs as (w4 & Hp & Hg & Hl). rewrite post_bind. unfold post at 1. rewrite Hp, post_ret. cbn.
    rewrite <- Hw1. split_and!; [done|done|done|]. rewrite Hw1. by exists cond.
  - destruct Hs as [Hs Hn]. rewrite post_bind, !post_ret. cbn. rewrite Hs, Hw1. split_and!; [done|apply loses_only_refl| |by exists cond].
    intros Hf. destruct Hn as [|Hn]; [done|]. by rewrite Hw1 in Hn.
Qed.

(** C25. A DELETE of a key that does not end with a slash and that is
    acknowledged has removed the object: nothing is left at its path, every
    other object is as it was, the bucket's own directory stays, and the only
    other losses are real directories strictly between the bucket and the
    object.  Every condition the request carries ([If-Match],
    [If-None-Match], the two dates, the size and the time of the object) held
    for the object the tree had, and [If-Match] was not sent for an object
    that was not there. *)
Theorem delete_acknowledged (rq : object_request) (p : path) (w w' : world) :
  join_object_path o_posix_root (o_bucket rq) (o_key rq) = Ok p ->
  ends_with "/" (o_key rq) = false ->
  fault CUnlink p <> Some NotFound ->
  fault CMetadata p = None ->
  replies (handle_delete_object rq) w = (Some DeleteNoContent, w') ->
  files w' !! p = None /\
  files w' !! (o_posix_root ++ [o_bucket rq]) = files w !! (o_posix_root ++ [o_bucket rq]) /\
  loses_only (o_posix_root ++ [o_bucket rq]) p (files w) (files w') /\
  exists cond, parse_conditional_headers o_httpdate_parse (oq_headers rq) = Ok cond /\ delete_allowed cond (stat (files w) p).
Proof.
  intros Hj He Hf Hm Hr. pose proof (post_replies _ _ _ _ _ (handle_delete_post rq p w Hj He) Hr) as (Hk & Hl & Hg & Hc).
  rewrite Hm in Hc. split_and!; [auto| |done|done].
  destruct (Hl (o_posix_root ++ [o_bucket rq])) as [?|(Hn & [Hp|([_ []] & _)])]; [done| |done].
  destruct (object_below_bucket _ _ _ Hj Hk He) as [[Hp1 []] _]. by apply (anti_symm prefix).
Qed.

(** A DELETE of a directory marker, a key that ends with a slash, never looks
    at the conditional headers: whatever headers the request carries, the
    answer and the tree are the same. *)
Theorem marker_delete_ignores_conditions (rq : object_request) (headers : header_map) (w : world) :
  ends_with "/" (o_key rq) = true ->
  replies (handle_delete_object {| oq_headers := headers; oq_path := oq_path rq; oq_query := oq_query rq; oq_body := oq_body rq;
                                   oq_class := oq_class rq |}) w = replies (handle_delete_object rq) w.
Proof. intros He. unfold handle_delete_object, replies. cbn [oq_class oq_path o_key o_bucket]. unfold o_key in *. cbn [oq_class]. by rewrite He. Qed.

(** The key of slashes only *)
Lemma slash_key_path bucket p :
  bucket_root_path o_posix_root bucket = Ok p ->
  join_object_path o_posix_root bucket "/" = Ok p /\ p = o_posix_root ++ [bucket] /\ is_empty bucket = false.
Proof.
  unfold bucket_root_path, join_object_path. case_match eqn:E1; [done|]. cbn. intros [= <-]. split_and!; [done..|].
  apply orb_false_iff in E1 as [[[E1 _]%orb_false_iff _]%orb_false_iff _]. done.
Qed.

Lemma prune_root_step n root w m :
  root <> parent root -> fault CRmdir (parent root) = None -> files w !! parent root = Some m -> is_real_dir m = true ->
  children (files w) (parent root) = [] -> files (snd (prune_loop n root (parent root) w)) !! parent root = None.
Proof.
  intros Hne Hf Hm Hr Hc. destruct n; cbn [prune_loop]; rewrite bool_decide_false by congruence.
  all: unfold mbind, handler_bind, remove_dir, change, rmdir; rewrite Hf, Hm, Hr, Hc; cbn.
  - apply lookup_delete_eq.
  - apply prune_loop_absent, lookup_delete_eq.
Qed.

Lemma prune_loop_next n root dir w : exists w', prune_loop n root dir w = (Next tt, w').
Proof.
  revert dir w. induction n as [|n IH]; intros dir w; cbn [prune_loop]; case_bool_decide; eauto;
    unfold mbind, handler_bind, remove_dir, change; destruct (fault CRmdir dir); eauto;
    destruct (rmdir dir (files w)); eauto.
Qed.

(** A DELETE of the key [/], which names the bucket's own directory,
    removes an empty bucket, and then, unlike every other delete, climbs
    past it: the export root goes too when the bucket was all it held. *)
Theorem delete_slash_removes_bucket (rq : object_request) (root : path) (n : node) (w : world) :
  o_key rq = "/"%string ->
  bucket_root_path o_posix_root (o_bucket rq) = Ok root ->
  has_effective_query rq = false ->
  o_mpu_dir_name <> ""%string ->
  fault CMetadata root = None -> fault CRmdir root = None ->
  files w !! root = Some n -> is_real_dir n = true -> children (files w) root = [] ->
  exists w', replies (handle_delete_object rq) w = (Some DeleteNoContent, w') /\ files w' !! root = None /\
    (forall m, fault CRmdir (parent root) = None -> files w !! parent root = Some m -> is_real_dir m = true ->
       children (delete root (files w)) (parent root) = [] -> files w' !! o_posix_root = None).
Proof.
  intros Hkey Hroot Hq Hmpu Hf1 Hf2 Hn Hr Hc. destruct (slash_key_path _ _ Hroot) as (Hj & Heq & Hb).
  assert (parent root = o_posix_root) as Hpar by (rewrite Heq; unfold parent; rewrite length_app, Nat.add_sub; apply take_app_length).
  assert (is_dir_node n = true) as Hd by (by destruct n as [|? ? []|]).
  unfold replies, handle_delete_object, mbind, handler_bind, no_effective_query, refuse_if, reply_if.
  rewrite Hq. cbn [mret handler_ret]. unfold not_reserved, refuse_if, reply_if. rewrite Hkey.
  replace (is_reserved_first_segment "/" o_mpu_dir_name) with false by (symmetry; cbn; by destruct o_mpu_dir_name).
  cbn [mret handler_ret]. unfold target_named, refuse_if, reply_if. rewrite Hb. cbn [orb is_empty mret handler_ret].
  unfold require_bucket_dir, mbind, handler_bind, or_refuse, unwrap_or_reply. rewrite Hroot. cbn [mret handler_ret].
  unfold metadata, look, get, stat. rewrite Hf1, Hn.
  assert (match n with Dangling _ _ => Err NotFound | _ => Ok n end = (Ok n : res io_kind node)) as -> by (by destruct n).
  rewrite Hd. cbn [negb refuse_if reply_if mret handler_ret]. unfold object_path, or_refuse, unwrap_or_reply.
  rewrite Hj. cbn [mret handler_ret]. rewrite (eq_refl : ends_with "/" "/" = true).
  unfold delete_directory_marker, mbind, handler_bind, remove_dir, change, rmdir. rewrite Hf2, Hn, Hr, Hc. cbn [negb].
  unfold prune_after. rewrite Hroot. destruct root as [|x root]; [by destruct o_posix_root|].
  unfold prune_empty_parents. set (w1 := set_files _ w).
  destruct (prune_loop_next (length (parent (x :: root))) (x :: root) (parent (x :: root)) w1) as [w' Hw'].
  rewrite Hw'. exists w'. split; [done|]. change w' with (snd (Next tt : flow obj_reply unit, w')). rewrite <- Hw'. split.
  - apply prune_loop_absent. apply lookup_delete_eq.
  - intros m Hfr Hm Hmr Hmc. rewrite <- Hpar. assert (x :: root <> parent (x :: root)) as Hne.
    { rewrite Hpar, Heq. intros Hx%(f_equal length). rewrite length_app in Hx. cbn in Hx. lia. }
    apply (prune_root_step _ _ _ m); [done|done| |done|done]. cbn. by rewrite lookup_delete_ne.
Qed.

(** *** DeleteObjects *)

Lemma delete_key_reports bucket root key w e w1 : delete_key bucket root key w = (Next (Some e), w1) -> de_key e = key.
Proof.
  unfold delete_key. destruct (is_empty key); [by intros [= <- <-]|]. destruct (is_reserved_first_segment _ _); [by intros [= <- <-]|].
  destruct (join_object_path _ _ _) as [p|pe|]; [|by intros [= <- <-]|done]. unfold mbind, handler_bind.
  destruct ((if ends_with "/" key then remove_dir p else remove_file p) w) as [[[[]|k|]|r| |] w2]; try done;
    [|destruct k; by intros [= <- <-]].
  destruct p as [|x p]; [done|]. destruct (prune_loop_next (length (parent (x :: p))) root (parent (x :: p)) w2) as [w3 Hp].
  unfold prune_empty_parents. by rewrite Hp.
Qed.

(** Every key of the batch is answered for, once and in order: the keys that
    succeeded and the keys that failed interleave to the request's list. *)
Lemma delete_keys_partition bucket root keys deleted errors w w' ds es :
  delete_keys bucket root false keys deleted errors w = (Next (DeleteObjectsResult ds es), w') ->
  exists ds' es', ds = deleted ++ ds' /\ es = errors ++ es' /\ ds' ++ (de_key <$> es') ≡ₚ keys.
Proof.
  revert deleted errors w. induction keys as [|key keys IH]; intros deleted errors w; cbn [delete_keys].
  - intros [= -> -> ->]. exists [], []. by rewrite !app_nil_r.
  - unfold mbind, handler_bind. destruct (delete_key bucket root key w) as [[[e|]|r| |] w1] eqn:Ed; try done.
    + intros (ds' & es' & -> & -> & HP)%IH. exists ds', (e :: es'). rewrite <- app_assoc. split_and!; [done..|].
      cbn. rewrite (delete_key_reports _ _ _ _ _ _ Ed), <- Permutation_middle. by f_equiv.
    + intros (ds' & es' & -> & -> & HP)%IH. exists (key :: ds'), es'. rewrite <- app_assoc. split_and!; [done..|].
      cbn. by f_equiv.
Qed.

(** Pruning only takes directories. *)
Lemma prune_loop_keeps n root dir w q m :
  files w !! q = Some m -> is_real_dir m = false -> files (snd (prune_loop n root dir w)) !! q = Some m.
Proof.
  revert dir w. induction n as [|n IH]; intros dir w Hq Hm; cbn [prune_loop]; case_bool_decide; try done;
    unfold mbind, handler_bind, remove_dir, change; destruct (fault CRmdir dir); try done;
    (destruct (rmdir dir (files w)) as [fs'| |] eqn:Er; [|done..]); destruct (rmdir_ok _ _ _ Er) as (m' & Hm' & Hr & _ & ->);
    assert (dir <> q) by congruence.
  - cbn. by rewrite lookup_delete_ne.
  - apply IH; [|done]. cbn. by rewrite lookup_delete_ne.
Qed.

(** What one step of a batch does: files that are not at or below a path in
    [hit] stay, nothing appears, and [gone] is no longer there. *)
Record batch_step (hit : path -> Prop) (gone : path -> Prop) (fs fs' : filesystem) : Prop := {
  batch_absent : forall q, fs !! q = None -> fs' !! q = None;
  batch_keeps : forall q m, fs !! q = Some m -> is_real_dir m = false -> (forall p, hit p -> ~ p `prefix_of` q) -> fs' !! q = Some m;
  batch_gone : forall p, gone p -> fs' !! p = None;
}.

Lemma batch_step_trans (hit1 hit2 gone1 gone2 : path -> Prop) a b c :
  batch_step hit1 gone1 a b -> batch_step hit2 gone2 b c ->
  batch_step (fun p => hit1 p \/ hit2 p) (fun p => gone1 p \/ gone2 p) a c.
Proof.
  intros [A1 K1 G1] [A2 K2 G2]. split; [auto| |].
  - intros q m Hq Hm Hh. apply K2; [|done|]; eauto.
  - intros p [Hp|Hp]; auto.
Qed.
Lemma batch_step_mono (hit hit' gone gone' : path -> Prop) fs fs' :
  (forall p, hit p -> hit' p) -> (forall p, gone' p -> gone p) -> batch_step hit gone fs fs' -> batch_step hit' gone' fs fs'.
Proof. intros Hh Hg [A K G]. split; eauto. Qed.

(** The answers of [unlink] and [rmdir] about absence come from the tree. *)
Definition honest_removal : Prop := forall p, fault CUnlink p <> Some NotFound /\ fault CRmdir p <> Some NotFound.

Definition named_by (bucket key : string) (p : path) : Prop := join_object_path o_posix_root bucket key = Ok p.

Lemma remove_call_step (slash : bool) p w r w1 :
  honest_removal -> (if slash then remove_dir p else remove_file p) w = (Next r, w1) ->
  batch_step (eq p) (fun q => q = p /\ (r = Ok tt \/ r = Err NotFound)) (files w) (files w1).
Proof.
  intros Hh. assert (forall r, r <> Ok tt -> (r = Err NotFound -> files w !! p = None) ->
    batch_step (eq p) (fun q => q = p /\ (r = Ok tt \/ r = Err NotFound)) (files w) (files w)) as Hsame.
  { intros r1 H1 H2. split; [done|done|]. intros ? [-> [|]]; auto; done. }
  destruct (Hh p) as [Hu Hr]. destruct slash; unfold remove_dir, remove_file, change.
  - destruct (fault CRmdir p) as [e|]; [intros [= <- <-]; apply Hsame; congruence|]. unfold rmdir.
    destruct (files w !! p) as [n|] eqn:En; [|intros [= <- <-]; by apply Hsame].
    destruct (is_real_dir n) eqn:Er; cbn [negb]; [|intros [= <- <-]; by apply Hsame].
    destruct (children (files w) p); [|intros [= <- <-]; by apply Hsame]. intros [= <- <-]. cbn. split.
    + intros q Hq. apply lookup_delete_None. auto.
    + intros q m Hq _ Hp. rewrite lookup_delete_ne; [done|]. intros ->. by apply (Hp q).
    + intros q [-> _]. apply lookup_delete_eq.
  - destruct (fault CUnlink p) as [e|]; [intros [= <- <-]; apply Hsame; congruence|]. unfold unlink.
    destruct (files w !! p) as [n|] eqn:En; [|intros [= <- <-]; by apply Hsame].
    destruct (is_real_dir n) eqn:Er; intros [= <- <-]; [by apply Hsame|]. cbn. split.
    + intros q Hq. rewrite lookup_remove_tree. by case_bool_decide.
    + intros q m Hq _ Hp. rewrite lookup_remove_tree, bool_decide_false; [done|]. by apply Hp.
    + intros q [-> _]. by rewrite lookup_remove_tree, bool_decide_true.
Qed.

Lemma delete_key_step bucket root key w r w1 :
  honest_removal -> delete_key bucket root key w = (Next r, w1) ->
  batch_step (named_by bucket key) (fun q => r = None /\ named_by bucket key q) (files w) (files w1).
Proof.
  intros Hh. assert (forall e : DeleteErrorInfo, batch_step (named_by bucket key) (fun q => Some e = None /\ named_by bucket key q) (files w) (files w)) as Hsame
    by (split; [done|done|by intros ? []]).
  unfold delete_key. destruct (is_empty key); [intros [= <- <-]; apply Hsame|].
  destruct (is_reserved_first_segment _ _); [intros [= <- <-]; apply Hsame|].
  unfold named_by. destruct (join_object_path _ _ _) as [p|pe|] eqn:Ej; [|intros [= <- <-]; split; try done; by intros ? []|done].
  unfold mbind, handler_bind.
  destruct ((if ends_with "/" key then remove_dir p else remove_file p) w) as [[k|?| |] w2] eqn:Ek; try done.
  apply remove_call_step in Ek as [A K G]; [|done].
  assert (forall r' : option DeleteErrorInfo, (r' = None -> k = Ok tt \/ k = Err NotFound) ->
    batch_step (fun q => (Ok p : res path_error path) = Ok q) (fun q => r' = None /\ (Ok p : res path_error path) = Ok q)
      (files w) (files w2)) as Hstep.
  { intros r' Hr'. split; [done| |].
    - intros q m Hq Hm Hp. apply K; [done|done|]. intros ? <-. by apply Hp.
    - intros q [Hq [= <-]]. apply G. auto. }
  destruct k as [[]|k|]; [|destruct k; intros [= <- <-]; apply Hstep; by auto|done].
  destruct p as [|x p]; [intros [= <- <-]; apply Hstep; by auto|]. unfold prune_empty_parents.
  destruct (prune_loop_next (length (parent (x :: p))) root (parent (x :: p)) w2) as [w3 Hp]. rewrite Hp. intros [= <- <-].
  change w3 with (snd (Next tt : flow obj_reply unit, w3)). rewrite <- Hp.
  destruct (Hstep None) as [A' K' G']; [auto|]. split.
  - intros q Hq. apply prune_loop_absent; auto.
  - intros q m Hq Hm Hh'. apply prune_loop_keeps; auto.
  - intros q Hq. apply prune_loop_absent; auto.
Qed.

Definition listed_by (bucket : string) (keys : list string) (p : path) : Prop := exists key, key ∈ keys /\ named_by bucket key p.
Definition removed_by (bucket : string) (keys failed : list string) (p : path) : Prop :=
  exists key, key ∈ keys /\ (key ∉ failed) /\ named_by bucket key p.

Lemma delete_keys_step bucket root quiet keys deleted errors w w' ds es :
  honest_removal ->
  delete_keys bucket root quiet keys deleted errors w = (Next (DeleteObjectsResult ds es), w') ->
  exists es', es = errors ++ es' /\
    batch_step (listed_by bucket keys) (removed_by bucket keys (de_key <$> es')) (files w) (files w').
Proof.
  intros Hh. revert deleted errors w. induction keys as [|key keys IH]; intros deleted errors w; cbn [delete_keys].
  - intros [= <- <- <-]. exists []. rewrite app_nil_r. split; [done|]. split; [done|done|]. intros p (key & []%elem_of_nil & _).
  - unfold mbind, handler_bind. destruct (delete_key bucket root key w) as [[[e|]|r| |] w1] eqn:Ed; try done;
      pose proof (delete_key_step _ _ _ _ _ _ Hh Ed) as H1; intros (es' & -> & H2)%IH.
    all: assert (forall p, named_by bucket key p \/ listed_by bucket keys p -> listed_by bucket (key :: keys) p) as Hl
      by (intros p [Hp|(k & Hk & Hp)]; [exists key|exists k]; (split; [set_solver|done])).
    + exists (e :: es'). rewrite <- app_assoc. split; [done|].
      eapply batch_step_mono; [exact Hl| |eapply batch_step_trans; [exact H1|exact H2]]; cbv beta.
      intros p (k & Hk & Hes & Hp). right. exists k. rewrite fmap_cons, (delete_key_reports _ _ _ _ _ _ Ed) in Hes.
      split_and!; [set_solver|set_solver|done].
    + exists es'. split; [done|]. eapply batch_step_mono; [exact Hl| |eapply batch_step_trans; [exact H1|exact H2]]; cbv beta.
      intros p (k & Hk & Hes & Hp). apply elem_of_cons in Hk as [->|Hk]; [by left|]. right. by exists k.
Qed.

Lemma delete_keys_quiet bucket root keys deleted errors w w' ds es :
  delete_keys bucket root true keys deleted errors w = (Next (DeleteObjectsResult ds es), w') -> ds = deleted.
Proof.
  revert deleted errors w. induction keys as [|key keys IH]; intros deleted errors w; cbn [delete_keys]; [by intros [= <- _ _]|].
  unfold mbind, handler_bind. destruct (delete_key bucket root key w) as [[[e|]|r| |] w1]; try done; apply IH.
Qed.

Lemma delete_keys_shape bucket root quiet keys deleted errors w :
  match delete_keys bucket root quiet keys deleted errors w with
  | (Next r, _) => exists ds es, r = DeleteObjectsResult ds es
  | (Return _, _) => False
  | _ => True
  end.
Proof.
  revert deleted errors w. induction keys as [|key keys IH]; intros deleted errors w; cbn [delete_keys]; [by eexists _, _|].
  unfold mbind, handler_bind. destruct (delete_key bucket root key w) as [f w1] eqn:Ed.
  destruct f as [[e|]|r| |]; [apply IH|apply IH| |done|done].
  revert Ed. unfold delete_key, mbind, handler_bind. destruct (is_empty key); [done|]. destruct (is_reserved_first_segment _ _); [done|].
  destruct (join_object_path _ _ _) as [p| |]; [|done..].
  assert (exists k w2, (if ends_with "/" key then remove_dir p else remove_file p) w = (Next k, w2)) as (k & w2 & ->).
  { destruct (ends_with "/" key); unfold remove_dir, remove_file, change; repeat case_match; eauto; simplify_eq. }
  destruct k as [[]|k|]; [|by destruct k|done]. destruct p as [|x p]; [done|]. unfold prune_empty_parents.
  destruct (prune_loop_next (length (parent (x :: p))) root (parent (x :: p)) w2) as [w3 Hp]. by rewrite Hp.
Qed.

(** A DeleteObjects request that is answered accounts for every key it
    names: without [Quiet] each key is reported exactly once, deleted or with
    its error, and with it only the errors are.  A key that is not among the
    errors names nothing any more, and every file that no key of the request
    names, or contains, is as it was. *)
Theorem delete_objects_accounts (rq : object_request) (w w' : world) (ds : list string) (es : list DeleteErrorInfo) :
  honest_removal ->
  replies (handle_delete_objects rq) w = (Some (DeleteObjectsResult ds es), w') ->
  exists b quiet keys,
    collect_body_capped show_body_error (oq_headers rq) (oq_body rq) XML_BODY_MAX_BYTES = Ok b /\
    parse_delete_objects_request (xml_events b) = Ok (quiet, keys) /\ (length keys <= 1000)%nat /\
    (quiet = false -> ds ++ (de_key <$> es) ≡ₚ keys) /\ (quiet = true -> ds = []) /\
    batch_step (listed_by (o_bucket rq) keys) (removed_by (o_bucket rq) keys (de_key <$> es)) (files w) (files w').
Proof.
  intros Hh. revert ds es.
  set (G := fun (r : obj_reply) (w' : world) => forall ds es, r = DeleteObjectsResult ds es -> exists b quiet keys,
    collect_body_capped show_body_error (oq_headers rq) (oq_body rq) XML_BODY_MAX_BYTES = Ok b /\
    parse_delete_objects_request (xml_events b) = Ok (quiet, keys) /\ (length keys <= 1000)%nat /\
    (quiet = false -> ds ++ (de_key <$> es) ≡ₚ keys) /\ (quiet = true -> ds = []) /\
    batch_step (listed_by (o_bucket rq) keys) (removed_by (o_bucket rq) keys (de_key <$> es)) (files w) (files w')).
  assert (post (handle_delete_objects rq) G G w) as HG.
  2: { intros ds es Hr. by eapply (post_replies _ _ _ _ _ HG Hr). }
  enough (forall w1, files w1 = files w -> post (handle_delete_objects rq) G G w1) as H by (by apply H). intros w1 Hw1.
  unfold handle_delete_objects. do 3 pass_check w1 Hw1.
  rewrite post_bind. unfold xml_body, or_refuse at 1. rewrite post_unwrap.
  destruct (collect_body_capped _ _) as [b| |] eqn:Eb; [|done..].
  rewrite post_bind. unfold or_refuse at 1. rewrite post_unwrap.
  destruct (parse_delete_objects_request _) as [[quiet keys]| |] eqn:Ep; [|done..].
  rewrite post_bind. unfold refuse_if. rewrite post_reply_if. destruct (1000 <? _) eqn:El; [done|].
  rewrite post_bind. unfold or_refuse. rewrite post_unwrap. destruct (bucket_root_path _ _) as [root| |]; [|done..].
  unfold post. pose proof (delete_keys_shape (o_bucket rq) root quiet keys [] [] w1) as Hs.
  destruct (delete_keys _ _ _ _ _ _ w1) as [[r|r| |] w2] eqn:Ed; [|done..]. intros ds es ->.
  destruct (delete_keys_step _ _ _ _ _ _ _ _ _ _ Hh Ed) as (es' & -> & Hst). rewrite <- Hw1.
  exists b, quiet, keys. split_and!; [done|done|lia| | |done].
  - intros ->. apply delete_keys_partition in Ed as (ds' & es2 & -> & H2 & HP). cbn in H2. by subst.
  - intros ->. by apply delete_keys_quiet in Ed.
Qed.
End Proofs.
