(* ===== verification/CopyObject.v ===== *)
(** * CopyObject (main.rs)

    [handle_copy_object]: the directives, the preconditions, the attributes
    the copy ends up with, and the copy itself, with what an acknowledged
    copy leaves in the tree. *)

From Stdlib Require Import ZArith Lia Ascii.
From stdpp Require Import base list strings numbers option gmap sorting.
From S2P Require Import Classifier.
From S2P Require Import Prelude RustStr Http Utils Preconditions UriEncoding S3Resp S3Xml Bytes FsHelpers FileSystem Handler Streaming PayloadSource Upload Copy GatewayHelpers Objects PutObject GetObject.

Local Open Scope s3_scope.
Local Open Scope Z_scope.

Section CopyObject.
Context {E : ObjEnv}.

(** The two directive headers *)
Definition directive_replace (headers : header_map) (name path : string) : Act bool :=
  match hm_get headers name with
  | Some (Some s) =>
      let s := trim s in
      if (s =s "COPY") || (s =s "") then mret false
      else if s =s "REPLACE" then mret true
      else refuse (error400 "InvalidArgument" ("invalid " +:+ name +:+ " (expected COPY or REPLACE)") path)
  | Some None => refuse (error400 "InvalidArgument" ("invalid " +:+ name +:+ " encoding") path)
  | None => mret false
  end.

(** What REPLACE takes from the request, [None] for COPY *)
Definition replace_tags (rq : object_request) (replace : bool) : Act (option string) :=
  let path := oq_path rq in
  if replace then
    v ← text_header (oq_headers rq) "x-amz-tagging" (error400 "InvalidTag" "invalid x-amz-tagging header encoding" path);
    match v with
    | Some s => _ ← valid_or (validate_tagging_urlform s) (error400 "InvalidTag" "invalid x-amz-tagging header" path); mret (Some s)
    | None => mret (Some ""%string)
    end
  else mret None.
Definition replace_user_meta (rq : object_request) (replace : bool) : Act (option string) :=
  let path := oq_path rq in
  if replace then
    s ← valid_or (extract_user_meta_headers (oq_headers rq)) (error400 "InvalidArgument" "invalid x-amz-meta-* header" path);
    _ ← valid_or (validate_user_metadata_urlform s) (error400 "InvalidArgument" "invalid user metadata" path);
    mret (Some s)
  else mret None.
Definition replace_content_type (rq : object_request) (replace : bool) : Act (option string) :=
  let path := oq_path rq in
  if replace then
    v ← text_header (oq_headers rq) "content-type" (error400 "InvalidArgument" "invalid Content-Type header encoding" path);
    match v with
    | Some s => _ ← valid_or (validate_content_type s) (error400 "InvalidArgument" "invalid Content-Type header" path); mret (Some s)
    | None => mret (Some ""%string)
    end
  else mret None.

(** What the copy carries: the request's value, or the source's, checked *)
Definition resolve_text (replace : option string) (read : Act (res io_kind string)) (validate : string -> res string unit)
    (bad : HttpResponse) (failed path : string) : Act string :=
  match replace with
  | Some s => mret s
  | None =>
      r ← read;
      s ← or_internal r (fun _ => failed) path;
      _ ← (if is_empty s then mret tt else valid_or (validate s) bad);
      mret s
  end.
Definition resolve_content_type (replace : option string) (src : path) (path : string) : Act string :=
  match replace with
  | Some s => mret s
  | None =>
      r ← read_content_type src;
      o ← or_internal r (fun _ => "failed to read source Content-Type"%string) path;
      match o with
      | Some s => _ ← valid_or (validate_content_type s) (error400 "InvalidArgument" "source object has invalid Content-Type" path); mret s
      | None => mret ""%string
      end
  end.

(** The source both is a directory and named like one *)
Definition copy_directory_marker (rq : object_request) (src_key : string) (dst : path) : Act obj_reply :=
  let path := oq_path rq in
  if ends_with "/" src_key && ends_with "/" (o_key rq) then
    made ← create_dir_all dst;
    _ ← or_refuse made (fun e =>
          if bool_decide (e = PermissionDenied) then access_denied "permission denied" (Some path)
          else internal_error "failed to create directory marker" (Some path) None);
    m ← metadata CMetadataAfter dst;
    n ← or_internal m (fun _ => "failed to stat directory marker"%string) path;
    mret (CopyObjectOk (meta_etag n) (o_format_s3_time (i_mtime (node_inode n))))
  else refuse (no_such_key "not found" None).

(** What the destination holds after [try_preallocate_range] *)
Definition preallocated (size : Z) : bytes :=
  let direct := direct_io o_stream_cfg && (chunk_size o_stream_cfg <? size) && (chunk_size o_stream_cfg mod ALIGN =? 0) in
  match try_preallocate (prealloc o_body_env) [] (if direct then align_up size ALIGN else size) with Ok d => d | _ => [] end.

(** [copy_file_to_file] on the tree: the source is opened first, then the
    destination is truncated; when both are one file, what is read is what
    the preallocation left, and every write puts back what was read. *)
Definition copy_content (rq : object_request) (src dst : path) (size : Z) : Act unit :=
  let failed f := internal_error (show_copy f) (Some (oq_path rq)) None in
  made ← create_dir_all (parent dst);
  _ ← or_refuse made (fun e => failed (CopyMkdirFailed (parent dst) e));
  _ ← or_refuse (o_open_read src) (fun m => failed (CopySourceFailed m));
  opened ← change COpen dst (open_truncate dst);
  _ ← or_refuse opened (fun e => failed (CopyOpenAt dst e));
  source ← get (fun w => if bool_decide (src = dst) then preallocated size else content_at src (files w));
  let '(r, f) := copy_file_to_file source (o_uring_read src) (o_read_at src) (o_open_read src)
                   (write_events o_body_env) (opened_env (write_events o_body_env)) size o_stream_cfg in
  _ ← modify (fun w => set_files (put_content dst f (files w)) w);
  or_refuse r (fun e => failed (CopyFailed e)).

(** The part after both paths are known and the source is a file *)
Definition copy_file (rq : object_request) (src dst : path) (src_meta : node) (tags user_meta content_type : option string)
    : Act obj_reply :=
  let path := oq_path rq in
  cond ← conditional_headers rq;
  _ ← (match evaluate_copy_source_preconditions cond (meta_etag_unquoted src_meta) (i_mtime (node_inode src_meta)) with
       | Proceed => mret tt
       | _ => refuse (precondition_failed "Copy source precondition failed" (Some path))
       end);
  m ← metadata CMetadata dst;
  let dst_exists := match m with
                    | Ok n => if is_dir_node n then None else Some (meta_etag_unquoted n, i_mtime (node_inode n))
                    | _ => None
                    end in
  _ ← refuse_if (match evaluate_write_preconditions cond dst_exists with PreconditionFailed => true | _ => false end)
        (precondition_failed "Copy destination precondition failed" (Some path));
  let size := node_size src_meta in
  _ ← refuse_if (o_copy_max_size <? size)
        (error400 "EntityTooLarge" ("CopyObject size " +:+ print_u64 size +:+ " exceeds configured single-copy limit "
                                    +:+ print_u64 o_copy_max_size +:+ " bytes") path);
  dst_tags ← resolve_text tags (read_tags src) validate_tagging_urlform
               (error400 "InvalidTag" "source object has invalid tag set" path) "failed to read source object tags" path;
  dst_user_meta ← resolve_text user_meta (read_user_meta src) validate_user_metadata_urlform
               (error400 "InvalidArgument" "source object has invalid user metadata" path) "failed to read source user metadata" path;
  dst_content_type ← resolve_content_type content_type src path;
  _ ← (if negb (is_empty dst_tags) || negb (is_empty dst_user_meta) || negb (is_empty dst_content_type) then
         root ← or_refuse (bucket_root_path o_posix_root (o_bucket rq)) (fun e => access_denied (path_error_message e) (Some path));
         require_xattr_support root path
       else mret tt);
  _ ← copy_content rq src dst size;
  _ ← store_metadata dst dst_tags dst_user_meta dst_content_type path "failed to write destination object tags"
        "failed to write destination user metadata" "failed to write destination Content-Type";
  m ← metadata CMetadataAfter dst;
  n ← or_internal m show_io path;
  mret (CopyObjectOk (meta_etag n) (o_format_s3_time (i_mtime (node_inode n)))).

Definition handle_copy_object (rq : object_request) : Act obj_reply :=
  let path := oq_path rq in
  _ ← no_effective_query rq;
  let dst_bucket := o_bucket rq in
  let dst_key := o_key rq in
  _ ← target_named dst_bucket dst_key path;
  _ ← require_bucket_dir dst_bucket path;
  source ← or_refuse (parse_copy_source o_percent_decode_utf8 (oq_headers rq)) (fun e => error400 "InvalidRequest" e path);
  let '(src_bucket, src_key) := source in
  retag ← directive_replace (oq_headers rq) "x-amz-tagging-directive" path;
  tags ← replace_tags rq retag;
  remeta ← directive_replace (oq_headers rq) "x-amz-metadata-directive" path;
  user_meta ← replace_user_meta rq remeta;
  content_type ← replace_content_type rq remeta;
  _ ← refuse_if (is_reserved_first_segment dst_key o_mpu_dir_name || is_reserved_first_segment src_key o_mpu_dir_name)
        (access_denied "reserved key prefix" (Some path));
  _ ← require_bucket_dir src_bucket path;
  src ← object_path src_bucket src_key;
  dst ← object_path dst_bucket dst_key;
  m ← metadata CMetadata src;
  src_meta ← or_refuse m (fun e =>
    match e with
    | NotFound => no_such_key "not found" None
    | PermissionDenied => access_denied "permission denied" None
    | e => internal_error (show_io e) (Some path) None
    end);
  if is_dir_node src_meta then copy_directory_marker rq src_key dst
  else copy_file rq src dst src_meta tags user_meta content_type.
End CopyObject.

(** ** What an acknowledged copy leaves behind *)
Section Proofs.
Context {E : ObjEnv}.

Definition says_replace (rq : object_request) (name : string) : bool :=
  match header_text rq name with Some s => trim s =s "REPLACE" | None => false end.

(** The text attributes the destination is to have *)
Definition source_type (src : path) (fs : filesystem) : string :=
  match attr_of src CONTENT_TYPE_XATTR fs with Some s => s | None => default ""%string (attr_of src FREEDESKTOP_MIME_XATTR fs) end.
Definition wanted_tags (rq : object_request) (src : path) (fs : filesystem) : string :=
  if says_replace rq "x-amz-tagging-directive" then default ""%string (header_text rq "x-amz-tagging")
  else default ""%string (attr_of src TAGGING_XATTR fs).
Definition wanted_user_meta (rq : object_request) (src : path) (fs : filesystem) : string :=
  if says_replace rq "x-amz-metadata-directive"
  then match extract_user_meta_headers (oq_headers rq) with Ok s => s | _ => ""%string end
  else default ""%string (attr_of src USER_META_XATTR fs).
Definition wanted_type (rq : object_request) (src : path) (fs : filesystem) : string :=
  if says_replace rq "x-amz-metadata-directive" then default ""%string (header_text rq "content-type") else source_type src fs.

Record copy_result (rq : object_request) (src dst : path) (data : bytes) (etag modified : string) (w w' : world) : Prop := {
  co_object : exists i l, files w' !! dst = Some (RegFile i data l) /\ etag = meta_etag (RegFile i data l) /\
    modified = o_format_s3_time (i_mtime i);
  co_tags : attr_of dst TAGGING_XATTR (files w') = absent_if_empty (wanted_tags rq src (files w));
  co_meta : attr_of dst USER_META_XATTR (files w') = absent_if_empty (wanted_user_meta rq src (files w));
  co_type : attr_of dst CONTENT_TYPE_XATTR (files w') = absent_if_empty (wanted_type rq src (files w));
  co_frame : forall q n, q <> dst -> files w !! q = Some n -> files w' !! q = Some n;
  co_new : forall q n, files w' !! q = Some n -> files w !! q = Some n \/ q = dst \/ is_real_dir n = true /\ q `prefix_of` parent dst;
}.

Definition on_copy (G : string -> string -> world -> Prop) (r : obj_reply) (w : world) : Prop :=
  match r with CopyObjectOk etag modified => G etag modified w | _ => True end.

Section Steps.
Context (P : obj_reply -> world -> Prop) (HP : forall e w, P (Error e) w).

Lemma directive_post rq name path w :
  post (directive_replace (oq_headers rq) name path) P (fun b w' => w' = w /\ b = says_replace rq name) w.
Proof using HP.
  unfold directive_replace, says_replace, header_text, refuse. destruct (hm_get (oq_headers rq) name) as [[s|]|]; cbn; [|apply HP|done].
  destruct (trim s =s "COPY") eqn:E1; [apply String.eqb_eq in E1 as ->; done|].
  destruct (trim s =s "") eqn:E2; [apply String.eqb_eq in E2 as ->; done|]. cbn.
  destruct (trim s =s "REPLACE"); [done|apply HP].
Qed.

Lemma replace_tags_post rq b w :
  post (replace_tags rq b) P (fun v w' => w' = w /\ v = if b then Some (default ""%string (header_text rq "x-amz-tagging")) else None) w.
Proof using HP.
  unfold replace_tags, text_header, header_text, valid_or, or_refuse, refuse. destruct b; [|done].
  destruct (hm_get (oq_headers rq) "x-amz-tagging") as [[s|]|]; autorewrite with wp; [|apply HP|done].
  destruct (validate_tagging_urlform s); [done|apply HP|done].
Qed.
Lemma replace_meta_post rq b w :
  post (replace_user_meta rq b) P (fun v w' => w' = w /\
    v = if b then Some (match extract_user_meta_headers (oq_headers rq) with Ok s => s | _ => ""%string end) else None) w.
Proof using HP.
  unfold replace_user_meta, valid_or, or_refuse. destruct b; [|done]. autorewrite with wp.
  destruct (extract_user_meta_headers (oq_headers rq)) as [s| |]; [|apply HP|done]. autorewrite with wp.
  destruct (validate_user_metadata_urlform s); [done|apply HP|done].
Qed.
Lemma replace_type_post rq b w :
  post (replace_content_type rq b) P (fun v w' => w' = w /\ v = if b then Some (default ""%string (header_text rq "content-type")) else None) w.
Proof using HP.
  unfold replace_content_type, text_header, header_text, valid_or, or_refuse, refuse. destruct b; [|done].
  destruct (hm_get (oq_headers rq) "content-type") as [[s|]|]; autorewrite with wp; [|apply HP|done].
  destruct (validate_content_type s); [done|apply HP|done].
Qed.

Lemma resolve_text_post replace name src n validate bad failed path w :
  fault (CXattrGet name) src = None -> files w !! src = Some n ->
  post (resolve_text replace (read_text name src) validate bad failed path) P
    (fun v w' => w' = w /\ v = match replace with Some s => s | None => default ""%string (attr_of src name (files w)) end) w.
Proof using HP.
  intros Hf Hn. unfold resolve_text. destruct replace as [s|]; [done|].
  rewrite post_bind. unfold post at 1. rewrite (read_text_passes src name w n) by done.
  unfold or_internal, valid_or, or_refuse. rewrite post_bind, post_unwrap, post_bind. set (s := default _ _).
  destruct (is_empty s); [done|]. rewrite post_unwrap. destruct (validate s); [done|apply HP|done].
Qed.

Lemma resolve_type_post replace src n path w :
  (forall name, fault (CXattrGet name) src = None) -> files w !! src = Some n ->
  post (resolve_content_type replace src path) P
    (fun v w' => w' = w /\ v = match replace with Some s => s | None => source_type src (files w) end) w.
Proof using HP.
  intros Hf Hn. unfold resolve_content_type. destruct replace as [s|]; [done|].
  rewrite post_bind. unfold post at 1. rewrite (read_content_type_passes src w n) by done.
  unfold or_internal, valid_or, or_refuse, source_type. autorewrite with wp.
  destruct (attr_of src CONTENT_TYPE_XATTR (files w)) as [s|]; [|destruct (attr_of src FREEDESKTOP_MIME_XATTR (files w)) as [s|]; [|done]];
    autorewrite with wp.
  all:  destruct (validate_content_type s); [done|apply HP|done].
Qed.

(** The bytes that are read while the destination is written *)
Definition source_bytes (src dst : path) (b : bytes) : bytes := if bool_decide (src = dst) then preallocated (blen b) else b.

Definition sane_source (src : path) (b : bytes) : Prop := sane_reads b (o_uring_read src) /\ sane_reads b (o_read_at src).

Lemma copy_content_post rq src dst i b l w :
  files w !! src = Some (RegFile i b l) -> sane_source src (source_bytes src dst b) ->
  0 < chunk_size o_stream_cfg -> blen b <= i64_max ->
  post (copy_content rq src dst (blen b)) P (fun _ w' => exists i' l' fs1, grows (parent dst) (files w) fs1 /\
    files w' = <[dst := RegFile i' (slice (source_bytes src dst b) 0 (blen b)) l']> fs1 /\ blen b <= blen (source_bytes src dst b)) w.
Proof using HP.
  intros Hn [Hu Hr] Hc Hl. unfold copy_content. rewrite post_bind. apply create_dir_all_post. intros r w1 Hg _.
  rewrite post_bind. unfold or_refuse. rewrite post_unwrap. destruct r as [[]| |]; [|apply HP|done].
  rewrite post_bind, post_unwrap. destruct (o_open_read src) as [[]| |] eqn:Eo; [|apply HP|done].
  rewrite post_bind, post_change. destruct (fault COpen dst); [rewrite post_bind, post_unwrap; apply HP|].
  destruct (open_truncate dst (files w1)) as [fs2| |] eqn:Et; rewrite post_bind, post_unwrap; [|apply HP|done].
  destruct (open_truncate_ok _ _ _ Et) as (i' & l' & ->). rewrite post_bind, post_get.
  assert ((if bool_decide (src = dst) then preallocated (blen b)
           else content_at src (files (set_files (<[dst := RegFile i' [] l']> (files w1)) w1))) = source_bytes src dst b) as ->.
  { unfold source_bytes. case_bool_decide as Hsd; [done|]. unfold content_at. cbn.
    rewrite lookup_insert_ne by congruence. by rewrite (grows_keeps _ _ _ Hg _ _ Hn). }
  destruct (copy_file_to_file _ _ _ _ _ _ _ _) as [r f] eqn:Ecp. rewrite post_bind, post_modify, post_unwrap.
  destruct r as [[]| |]; [|apply HP|done]. apply copy_file_ok in Ecp as [Hle ->]; [|done|done|done|split; [apply blen_nonneg|done]].
  eexists _, _, (files w1). cbn. rewrite put_content_insert. by split_and!.
Qed.
End Steps.

Lemma copy_file_post rq src dst i b l tags um ct w :
  files w !! src = Some (RegFile i b l) -> sane_source src (source_bytes src dst b) ->
  0 < chunk_size o_stream_cfg -> blen b <= i64_max -> honest_xattrs dst -> (forall name, fault (CXattrGet name) src = None) ->
  tags = (if says_replace rq "x-amz-tagging-directive" then Some (wanted_tags rq src (files w)) else None) ->
  um = (if says_replace rq "x-amz-metadata-directive" then Some (wanted_user_meta rq src (files w)) else None) ->
  ct = (if says_replace rq "x-amz-metadata-directive" then Some (wanted_type rq src (files w)) else None) ->
  let G := on_copy (fun etag modified w' =>
    copy_result rq src dst (slice (source_bytes src dst b) 0 (blen b)) etag modified w w' /\ blen b <= blen (source_bytes src dst b)) in
  post (copy_file rq src dst (RegFile i b l) tags um ct) G G w.
Proof.
  intros Hn Hsane Hc Hl Hh Hf Htags Hum Hct G. assert (forall e w', G (Error e) w') as HG by (intros; exact I).
  unfold copy_file.
  enough (forall w1, files w1 = files w -> post _ G G w1) as H by (by apply H). intros w1 Hw1.
  do 5 pass_check w1 Hw1. cbn [node_size].
  rewrite post_bind. eapply post_mono; [apply (resolve_text_post G HG _ _ src (RegFile i b l)); [done|by rewrite Hw1]|done|].
  cbv beta. intros t w2 [-> Ht]. rewrite post_bind.
  eapply post_mono; [apply (resolve_text_post G HG _ _ src (RegFile i b l)); [done|by rewrite Hw1]|done|].
  cbv beta. intros u w2 [-> Hu]. rewrite post_bind.
  eapply post_mono; [apply (resolve_type_post G HG _ src (RegFile i b l)); [done|by rewrite Hw1]|done|].
  cbv beta. intros c w2 [-> Hct']. rewrite Hw1 in Ht, Hu, Hct'.
  assert (t = wanted_tags rq src (files w)) as -> by (rewrite Ht, Htags; unfold wanted_tags; by destruct (says_replace _ _)).
  assert (u = wanted_user_meta rq src (files w)) as -> by (rewrite Hu, Hum; unfold wanted_user_meta; destruct (says_replace rq "x-amz-metadata-directive"); reflexivity).
  assert (c = wanted_type rq src (files w)) as -> by (rewrite Hct', Hct; unfold wanted_type; destruct (says_replace rq "x-amz-metadata-directive"); reflexivity).
  pass_check w1 Hw1. rewrite post_bind.
  eapply post_mono; [apply (copy_content_post G HG rq src dst i b l); [by rewrite Hw1|done..]|done|].
  cbv beta. intros [] w2 (i' & l' & fs1 & Hg & Hw2 & Hle). rewrite Hw1 in Hg. rewrite post_bind.
  eapply post_mono; [apply (store_metadata_post _ _ _ _ _ _ _ _ (RegFile i' (slice (source_bytes src dst b) 0 (blen b)) l'));
    [done|by rewrite Hw2, lookup_insert_eq|exact HG]|done|].
  cbv beta. intros [] w3 (x & Hw3 & Ht3 & Hu3 & Hc3). rewrite Hw2, insert_insert_eq in Hw3.
  rewrite post_bind. unfold metadata. rewrite post_look, post_bind. unfold or_internal, or_refuse. rewrite post_unwrap.
  destruct (fault CMetadataAfter dst); [apply HG|]. unfold stat. rewrite Hw3, lookup_insert_eq. cbn.
  split; [|done]. split; [|done..| |].
  - eexists _, l'. rewrite Hw3, lookup_insert_eq. split_and!; done.
  - intros q m Hq Hm. rewrite Hw3, lookup_insert_ne by done. by apply (grows_keeps _ _ _ Hg).
  - intros q m. rewrite Hw3, lookup_insert_Some. intros [[<- _]|[_ Hm]]; [auto|].
    destruct (grows_new _ _ _ Hg _ _ Hm); auto.
Qed.

Lemma copy_object_ack rq src_bucket src_key src dst i b l etag modified w w' :
  parse_copy_source o_percent_decode_utf8 (oq_headers rq) = Ok (src_bucket, src_key) ->
  join_object_path o_posix_root src_bucket src_key = Ok src ->
  join_object_path o_posix_root (o_bucket rq) (o_key rq) = Ok dst ->
  files w !! src = Some (RegFile i b l) -> sane_source src (source_bytes src dst b) ->
  0 < chunk_size o_stream_cfg -> blen b <= i64_max -> honest_xattrs dst -> (forall name, fault (CXattrGet name) src = None) ->
  replies (handle_copy_object rq) w = (Some (CopyObjectOk etag modified), w') ->
  copy_result rq src dst (slice (source_bytes src dst b) 0 (blen b)) etag modified w w' /\ blen b <= blen (source_bytes src dst b).
Proof.
  intros Hps Hjs Hjd Hn Hsane Hc Hl Hh Hf Hr.
  set (G := on_copy (fun etag modified w' =>
    copy_result rq src dst (slice (source_bytes src dst b) 0 (blen b)) etag modified w w' /\ blen b <= blen (source_bytes src dst b))).
  assert (forall e w', G (Error e) w') as HG by (intros; exact I).
  enough (post (handle_copy_object rq) G G w) as Hpost by exact (post_replies _ _ _ _ _ Hpost Hr).
  unfold handle_copy_object.
  enough (forall w1, files w1 = files w -> post _ G G w1) as H by (by apply H). intros w1 Hw1.
  do 3 pass_check w1 Hw1. rewrite post_bind. unfold or_refuse at 1. rewrite post_unwrap, Hps.
  rewrite post_bind. eapply post_mono; [apply (directive_post G HG)|done|]. cbv beta. intros b1 w2 [-> ->].
  rewrite post_bind. eapply post_mono; [apply (replace_tags_post G HG)|done|]. cbv beta. intros tags w2 [-> Htags].
  rewrite post_bind. eapply post_mono; [apply (directive_post G HG)|done|]. cbv beta. intros b2 w2 [-> ->].
  rewrite post_bind. eapply post_mono; [apply (replace_meta_post G HG)|done|]. cbv beta. intros um w2 [-> Hum].
  rewrite post_bind. eapply post_mono; [apply (replace_type_post G HG)|done|]. cbv beta. intros ct w2 [-> Hct].
  do 2 pass_check w1 Hw1. unfold object_path, or_refuse. rewrite post_bind, post_unwrap, Hjs, post_bind, post_unwrap, Hjd.
  rewrite post_bind. unfold metadata. rewrite post_look, post_bind, post_unwrap. unfold stat. rewrite Hw1, Hn.
  destruct (fault CMetadata src); [apply HG|]. cbn [is_dir_node].
  assert (post (copy_file rq src dst (RegFile i b l) tags um ct) (on_copy (fun etag modified w' =>
    copy_result rq src dst (slice (source_bytes src dst b) 0 (blen b)) etag modified w1 w' /\ blen b <= blen (source_bytes src dst b)))
    (on_copy (fun etag modified w' =>
    copy_result rq src dst (slice (source_bytes src dst b) 0 (blen b)) etag modified w1 w' /\ blen b <= blen (source_bytes src dst b))) w1) as Hcp.
  { apply (copy_file_post rq src dst i b l); try done; [by rewrite Hw1| | |].
    - rewrite Htags. unfold wanted_tags. by destruct (says_replace _ _).
    - rewrite Hum. unfold wanted_user_meta. destruct (says_replace rq "x-amz-metadata-directive"); reflexivity.
    - rewrite Hct. unfold wanted_type. destruct (says_replace rq "x-amz-metadata-directive"); reflexivity. }
  eapply post_mono; [exact Hcp| |]; (intros r w2; destruct r; try done; intros [[H1 H2 H3 H4 H5 H6] H7]; rewrite Hw1 in *; split; [by split|done]).
Qed.

Lemma preallocated_zeros size : exists k, preallocated size = zeros k.
Proof.
  unfold preallocated, try_preallocate. destruct ((if direct_io o_stream_cfg && _ && _ then _ else _) =? 0); [by exists 0|]. destruct (prealloc o_body_env); try (by exists 0).
  all: eexists; unfold truncate; by rewrite take_nil.
Qed.
Lemma slice_zeros k n : 0 <= n <= blen (zeros k) -> slice (zeros k) 0 n = zeros n.
Proof.
  intros Hn. rewrite blen_zeros in Hn. unfold slice, zeros. rewrite drop_0, take_replicate. f_equal. lia.
Qed.

(** C24. An acknowledged CopyObject of a regular file.  A 200 means that the
    destination is a regular file with exactly the bytes of the source, unless
    it is the source itself: the destination is opened with [O_TRUNC] before
    anything is read, so a copy of an object onto itself, the S3 way to change
    its metadata, leaves as many zeros.  Its tags, user metadata and content
    type are the request's under REPLACE and the source's otherwise (with the
    freedesktop type as the fallback), the reply carries its ETag and time,
    and nothing else has changed but directories made on the way.  Reads of
    the source may be short, but return what the file holds. *)
Theorem copy_acknowledged (rq : object_request) (src_bucket src_key : string) (src dst : path) (i : inode) (b : bytes) (l : bool)
    (etag modified : string) (w w' : world) :
  parse_copy_source o_percent_decode_utf8 (oq_headers rq) = Ok (src_bucket, src_key) ->
  join_object_path o_posix_root src_bucket src_key = Ok src ->
  join_object_path o_posix_root (o_bucket rq) (o_key rq) = Ok dst ->
  files w !! src = Some (RegFile i b l) -> sane_source src (source_bytes src dst b) ->
  0 < chunk_size o_stream_cfg -> blen b <= i64_max -> honest_xattrs dst -> (forall name, fault (CXattrGet name) src = None) ->
  replies (handle_copy_object rq) w = (Some (CopyObjectOk etag modified), w') ->
  copy_result rq src dst (if bool_decide (src = dst) then zeros (blen b) else b) etag modified w w'.
Proof.
  intros Hps Hjs Hjd Hn Hsane Hc Hl Hh Hf Hr.
  destruct (copy_object_ack rq src_bucket src_key src dst i b l etag modified w w') as [H Hle]; try done.
  unfold source_bytes in *. case_bool_decide.
  - destruct (preallocated_zeros (blen b)) as [k Hk]. rewrite Hk in H, Hle. by rewrite slice_zeros in H by (split; [apply blen_nonneg|done]).
  - unfold slice in H. rewrite take_ge in H; [exact H|]. rewrite length_drop. unfold blen. lia.
Qed.

(** A CopyObject of a file onto itself, the S3 way to change an object's
    metadata, is carried out like any other copy: the destination is opened
    with [O_TRUNC] before anything is read.  When such a copy is acknowledged
    the object has its old length and holds zeros only. *)
Theorem copy_onto_itself_zeroes (rq : object_request) (src_bucket src_key : string) (p : path) (i : inode) (b : bytes) (l : bool)
    (etag modified : string) (w w' : world) :
  parse_copy_source o_percent_decode_utf8 (oq_headers rq) = Ok (src_bucket, src_key) ->
  join_object_path o_posix_root src_bucket src_key = Ok p ->
  join_object_path o_posix_root (o_bucket rq) (o_key rq) = Ok p ->
  files w !! p = Some (RegFile i b l) -> sane_source p (preallocated (blen b)) ->
  0 < chunk_size o_stream_cfg -> blen b <= i64_max -> honest_xattrs p -> (forall name, fault (CXattrGet name) p = None) ->
  replies (handle_copy_object rq) w = (Some (CopyObjectOk etag modified), w') ->
  exists i' l', files w' !! p = Some (RegFile i' (zeros (blen b)) l').
Proof.
  intros Hps Hjs Hjd Hn Hsane Hc Hl Hh Hf Hr.
  assert (source_bytes p p b = preallocated (blen b)) as Hb by (unfold source_bytes; by rewrite bool_decide_true).
  destruct (copy_object_ack rq src_bucket src_key p p i b l etag modified w w') as [[(i' & l' & H & _) _ _ _ _ _] Hle]; try done; [by rewrite Hb|].
  rewrite Hb in H, Hle. destruct (preallocated_zeros (blen b)) as [k Hk]. rewrite Hk in H, Hle.
  rewrite slice_zeros in H by (split; [apply blen_nonneg|done]). eauto.
Qed.
End Proofs.
