(* ===== verification/RenameObject.v ===== *)
(** * RenameObject (main.rs)

    [parse_rename_source], [header_str], [etag_matches],
    [rename_fingerprint] and [handle_rename_object] with its use of the
    idempotency cache. *)

From Stdlib Require Import ZArith Lia Ascii.
From stdpp Require Import base list strings numbers option gmap sorting.
From S2P Require Import Classifier.
From S2P Require Import Prelude RustStr Http Utils Preconditions UriEncoding S3Resp S3Xml Bytes FsHelpers FileSystem Handler Idempotency Streaming PayloadSource Upload Copy GatewayHelpers Objects DeleteObject.

Local Open Scope s3_scope.
Local Open Scope Z_scope.

(** [header_str] *)
Definition header_str (headers : header_map) (name : string) : option string := hm_get headers name ≫= id.

(** [etag_matches] *)
Definition unquote (s : string) : string :=
  default s (strip_prefix (String "034" "") s ≫= strip_suffix (String "034" "")).
Definition etag_matches (have want : string) : bool := unquote (trim have) =s unquote (trim want).

(** [rename_fingerprint] *)
Definition NUL : string := String "000" "".
Definition rename_fingerprint (dst_bucket src_key dst_key : string) (if_match if_none_match if_source_match : option string) : string :=
  join NUL [dst_bucket; src_key; dst_key; default ""%string if_match; default ""%string if_none_match; default ""%string if_source_match].

Section Rename.
Context {E : ObjEnv}.

(** [parse_rename_source] *)
Definition parse_rename_source (headers : header_map) : res string string :=
  raw ← ok_or (hm_get headers "x-amz-rename-source") "missing x-amz-rename-source"%string;
  raw ← ok_or raw "invalid x-amz-rename-source"%string;
  let raw := trim raw in
  let raw := match split_once "?" raw with Some (p, _) => p | None => raw end in
  let raw := trim_start_matches "/" raw in
  if is_empty raw then Err "invalid x-amz-rename-source"%string
  else
    let key := percent_decode_path_segments_lossy o_percent_decode_utf8 raw in
    if is_empty key then Err "invalid x-amz-rename-source"%string else Ok key.

(** [app.idempotency.enter], [commit] and [abandon] on the state *)
Definition enter_token (token fp : string) : Act Lookup := fun w =>
  let '(l, c) := enter o_max_tokens token fp (idempotency w) in (Next l, set_idempotency c w).
Definition commit_token (guard : option string) (fp : string) (status : Z) (body : string) : Act unit :=
  match guard with
  | Some token => modify (fun w => set_idempotency (commit instant_now token fp status body (idempotency w)) w)
  | None => mret tt
  end.
Definition abandon_token (guard : option string) : Act unit :=
  match guard with
  | Some token => modify (fun w => set_idempotency (abandon token (idempotency w)) w)
  | None => mret tt
  end.

(** [abort!] *)
Definition abort {A} (guard : option string) (r : HttpResponse) : Act A := _ ← abandon_token guard; refuse r.
Definition abort_if (guard : option string) (b : bool) (r : HttpResponse) : Act unit := if b then abort guard r else mret tt.
Definition or_abort {A X} (guard : option string) (r : res X A) (f : X -> HttpResponse) : Act A :=
  match r with Ok a => mret a | Err e => abort guard (f e) | Panics => panic end.

(** The token's guard, or an answer without executing *)
Definition claim_token (client_token : option string) (fp path : string) : Act (option string) :=
  match client_token with
  | None => mret None
  | Some token =>
      l ← enter_token token fp;
      match l with
      | Replay status body => reply_with (RenameReply status body)
      | Conflict => refuse (s3_error 409 "IdempotentParameterMismatch" "client token reused for a different request" (Some path) None)
      | BypassCacheFull => mret None
      | PendingGuard token => mret (Some token)
      end
  end.

(** The conditions on source and destination *)
Definition rename_conditions (guard : option string) (path : string) (src_meta : node) (dst_meta : res io_kind node)
    (if_match if_none_match if_source_match : option string) : Act unit :=
  _ ← abort_if guard (match if_source_match with Some want => negb (etag_matches (meta_etag src_meta) want) | None => false end)
        (precondition_failed "x-amz-rename-source-if-match did not match source" (Some path));
  let dst_etag := match dst_meta with Ok n => Some (meta_etag n) | _ => None end in
  _ ← abort_if guard (match if_match, dst_etag with
                      | None, _ => false
                      | Some want, Some have => negb (etag_matches have want)
                      | Some _, None => true
                      end)
        (precondition_failed "If-Match did not match destination" (Some path));
  abort_if guard (match if_none_match, dst_etag with
                  | Some want, Some have => (want =s "*") || etag_matches have want
                  | _, _ => false
                  end)
    (precondition_failed "If-None-Match precondition failed" (Some path)).

(** [rename_noreplace] (fs_helpers.rs): [InvalidInput] is EINVAL and
    [Unsupported] ENOSYS *)
Definition rename_noreplace (src dst : path) : Act (res io_kind unit) :=
  r ← change CRenameNoreplace dst (renameat2_noreplace src dst);
  match r with
  | Err InvalidInput | Err Unsupported =>
      m ← metadata CMetadataAfter dst;
      match m with
      | Ok _ => mret (Err AlreadyExists)
      | _ => change CRename dst (rename src dst)
      end
  | r => mret r
  end.
Definition rename_call (noreplace : bool) (src dst : path) : Act (res io_kind unit) :=
  if noreplace then rename_noreplace src dst else change CRename dst (rename src dst).

Definition handle_rename_object (rq : object_request) : Act obj_reply :=
  let path := oq_path rq in
  let q := Classifier.query (oq_class rq) in
  _ ← refuse_if (negb (is_only_effective q "renameobject" || (has q "renameobject" && is_only_effective q "x-id")))
        (not_implemented "query parameters are not implemented" None);
  let bucket := o_bucket rq in
  let dst_key := o_key rq in
  _ ← target_named bucket dst_key path;
  _ ← require_bucket_dir bucket path;
  src_key ← or_refuse (parse_rename_source (oq_headers rq)) (fun e => error400 "InvalidRequest" e path);
  let if_match := header_str (oq_headers rq) "if-match" in
  let if_none_match := header_str (oq_headers rq) "if-none-match" in
  let if_source_match := header_str (oq_headers rq) "x-amz-rename-source-if-match" in
  let fp := rename_fingerprint bucket src_key dst_key if_match if_none_match if_source_match in
  guard ← claim_token (header_str (oq_headers rq) "x-amz-client-token") fp path;
  _ ← abort_if guard (is_reserved_first_segment dst_key o_mpu_dir_name || is_reserved_first_segment src_key o_mpu_dir_name)
        (access_denied "reserved key prefix" (Some path));
  src ← or_abort guard (join_object_path o_posix_root bucket src_key) (fun e => access_denied (path_error_message e) None);
  dst ← or_abort guard (join_object_path o_posix_root bucket dst_key) (fun e => access_denied (path_error_message e) None);
  m ← metadata CMetadata src;
  src_meta ← or_abort guard m (fun e =>
    match e with
    | NotFound => no_such_key "not found" None
    | PermissionDenied => access_denied "permission denied" None
    | e => internal_error (show_io e) (Some path) None
    end);
  dst_meta ← metadata CMetadata dst;
  _ ← rename_conditions guard path src_meta dst_meta if_match if_none_match if_source_match;
  made ← create_dir_all (parent dst);
  _ ← or_abort guard made (fun e => access_denied ("failed to create destination directories: " +:+ show_io e) None);
  renamed ← rename_call (bool_decide (if_none_match = Some "*"%string)) src dst;
  _ ← or_abort guard renamed (fun e =>
    match e with
    | AlreadyExists => precondition_failed "If-None-Match: destination already exists" (Some path)
    | CrossesDevices => error400 "InvalidRequest" "cross-device rename is not supported" path
    | NotFound => no_such_key "not found" None
    | PermissionDenied => access_denied "permission denied" None
    | e => internal_error (show_io e) (Some path) None
    end);
  _ ← prune_after bucket src;
  _ ← commit_token guard fp 200 "";
  mret (RenameReply 200 "").
End Rename.

(** ** Fingerprints *)
Lemma split_join_concat c l : l <> [] -> split c (join (String c "") l) = mjoin (split c <$> l).
Proof.
  induction l as [|x l IH]; [done|]. intros _. destruct l as [|y l]; [cbn; by rewrite app_nil_r|].
  rewrite join_cons by done. cbn [String.append]. rewrite split_app, IH by done. done.
Qed.

Lemma joined_singletons c (l : list string) :
  length (mjoin (split c <$> l)) = length l -> mjoin (split c <$> l) = l.
Proof.
  assert (forall l : list string, (length l <= length (mjoin (split c <$> l)))%nat) as Hle.
  { clear l. induction l as [|x l IH]; [done|]. change (mjoin (split c <$> x :: l)) with (split c x ++ mjoin (split c <$> l)).
    rewrite length_app. cbn [length]. destruct (split c x) eqn:E; [by apply split_nonempty in E|]. cbn [length]. lia. }
  induction l as [|x l IH]; [done|]. change (mjoin (split c <$> x :: l)) with (split c x ++ mjoin (split c <$> l)).
  rewrite length_app. specialize (Hle l).
  pose proof (join_split c x) as Hj. destruct (split c x) as [|a [|b t]] eqn:E; [by apply split_nonempty in E| |cbn [length]; lia].
  cbn [length join app] in *. intros H. rewrite IH by lia. by rewrite Hj.
Qed.

(** Fingerprints tell requests apart.  When none of the fields of one
    request holds a NUL byte, which is so for every rename that succeeds,
    another request has the same fingerprint only when all its fields are the
    same, an absent condition counting as an empty one. *)
Theorem rename_fingerprint_injective (b s d : string) (m n sm : option string) (b' s' d' : string) (m' n' sm' : option string) :
  Forall (fun x => contains_char "000" x = false) [b; s; d; default ""%string m; default ""%string n; default ""%string sm] ->
  rename_fingerprint b s d m n sm = rename_fingerprint b' s' d' m' n' sm' ->
  b = b' /\ s = s' /\ d = d' /\ default ""%string m = default ""%string m' /\
  default ""%string n = default ""%string n' /\ default ""%string sm = default ""%string sm'.
Proof.
  intros Hf Heq. unfold rename_fingerprint, NUL in Heq. apply (f_equal (split "000")) in Heq.
  rewrite split_join, (split_join_concat "000" [b'; s'; d'; default ""%string m'; default ""%string n'; default ""%string sm']) in Heq by done.
  rewrite joined_singletons in Heq by (rewrite <- Heq; done). by simplify_eq.
Qed.

Lemma rename_fingerprint_injective_witness :
  "b"%string = "b"%string /\ "s"%string = "s"%string /\ "d"%string = "d"%string /\ ""%string = ""%string /\ "*"%string = "*"%string /\ ""%string = ""%string.
Proof.
  apply (rename_fingerprint_injective "b" "s" "d" None (Some "*"%string) None "b" "s" "d" None (Some "*"%string) None);
    [repeat constructor|reflexivity].
Defined.

(** ** What a rename leaves behind *)
Section Proofs.
Context {E : ObjEnv}.

(** The tree after [src] has become [dst] *)
Definition moved_lookup (src dst : path) (fs : filesystem) (q : path) : option node :=
  if bool_decide (dst `prefix_of` q) then fs !! (src ++ drop (length dst) q)
  else if bool_decide (src `prefix_of` q) then None else fs !! q.

(** Trees with the same files and links; directories may differ. *)
Definition same_objects (look look' : path -> option node) : Prop :=
  forall q m, is_real_dir m = false -> look' q = Some m <-> look q = Some m.

Lemma rename_ok src dst fs fs' : rename src dst fs = Ok fs' -> forall q, fs' !! q = moved_lookup src dst fs q.
Proof.
  unfold rename, moved_lookup. destruct (fs !! src) as [n|] eqn:En; [|done]. destruct (negb _); [done|].
  case_bool_decide as Heq.
  { intros [= <-] q. subst dst. case_bool_decide as Hp; [|done]. destruct Hp as [r ->]. by rewrite drop_app_length. }
  destruct (is_real_dir n && _); [done|]. repeat case_match; intros; simplify_eq; apply lookup_move_tree.
Qed.

Lemma grows_same_objects p fs fs' : grows p fs fs' -> same_objects (fs !!.) (fs' !!.).
Proof.
  intros [Hk Hn] q m Hm. split; [|apply Hk]. intros H. destruct (Hn _ _ H) as [|[Hr _]]; [done|congruence].
Qed.
Lemma same_objects_trans a b c : same_objects a b -> same_objects b c -> same_objects a c.
Proof. intros H1 H2 q m Hm. etrans; [by apply H2|by apply H1]. Qed.

Lemma prune_loop_sub n root dir w q m : files (snd (prune_loop n root dir w)) !! q = Some m -> files w !! q = Some m.
Proof.
  intros H. destruct (files w !! q) as [m'|] eqn:Eq; [|by rewrite prune_loop_absent in H].
  revert dir w H Eq. induction n as [|n IH]; intros dir w H Eq; cbn [prune_loop] in H; revert H; case_bool_decide; try (cbn; congruence);
    unfold mbind, handler_bind, remove_dir, change; destruct (fault CRmdir dir); try (cbn; congruence);
    (destruct (rmdir dir (files w)) as [fs'| |] eqn:Er; [|cbn; congruence..]); destruct (rmdir_ok _ _ _ Er) as (x & _ & _ & _ & ->).
  - cbn. intros [_ Hq]%lookup_delete_Some. congruence.
  - intros Hq. destruct (decide (q = dir)) as [->|Hne].
    + rewrite prune_loop_absent in Hq; [done|]. cbn. apply lookup_delete_eq.
    + eapply IH; [exact Hq|]. cbn. by rewrite lookup_delete_ne.
Qed.
Lemma prune_loop_idempotency n root dir w : idempotency (snd (prune_loop n root dir w)) = idempotency w.
Proof.
  revert dir w. induction n as [|n IH]; intros dir w; cbn [prune_loop]; case_bool_decide; try done;
    unfold mbind, handler_bind, remove_dir, change; destruct (fault CRmdir dir); try done;
    destruct (rmdir dir (files w)); try done. by rewrite IH.
Qed.

Lemma prune_after_post bucket p P (Q : unit -> world -> Prop) w :
  (forall w', same_objects (files w !!.) (files w' !!.) -> idempotency w' = idempotency w -> Q tt w') -> post (prune_after bucket p) P Q w.
Proof.
  intros HQ. unfold prune_after, prune_empty_parents.
  destruct (bucket_root_path o_posix_root bucket) as [root| |]; [|by apply HQ..]. destruct p as [|x p]; [by apply HQ|].
  unfold post. destruct (prune_loop_next (length (parent (x :: p))) root (parent (x :: p)) w) as [w' Hw']. rewrite Hw'.
  apply HQ; change w' with (snd (Next tt : flow obj_reply unit, w')); rewrite <- Hw'.
  - intros q m Hm. split; [apply prune_loop_sub|]. intros Hq. by apply prune_loop_keeps.
  - apply prune_loop_idempotency.
Qed.

Lemma rename_call_post nr src dst P (Q : res io_kind unit -> world -> Prop) w :
  (forall r w', idempotency w' = idempotency w -> (r <> Ok tt -> files w' = files w) ->
     (r = Ok tt -> (forall q, files w' !! q = moved_lookup src dst (files w) q) /\
        (nr = true -> fault CRenameNoreplace dst = None -> is_Some (files w !! src) -> files w !! dst = None)) -> Q r w') ->
  post (rename_call nr src dst) P Q w.
Proof.
  intros HQ. assert ((nr = false \/ fault CRenameNoreplace dst <> None \/ renameat2_noreplace src dst (files w) = Err InvalidInput) ->
    post (change CRename dst (rename src dst)) P Q w) as Hplain.
  { intros Hnr. rewrite post_change. destruct (fault CRename dst); [by apply HQ|].
    destruct (rename src dst (files w)) as [fs'| |] eqn:Er; apply HQ; try done. intros _. split; [by apply rename_ok|].
    intros -> Hf [n Hn]. destruct Hnr as [|[|Hnr]]; [done|done|]. unfold renameat2_noreplace in Hnr. rewrite Hn in Hnr.
    destruct (files w !! dst); congruence. }
  unfold rename_call. destruct nr; [|by apply Hplain; left]. unfold rename_noreplace.
  rewrite post_bind, post_change. destruct (fault CRenameNoreplace dst) as [e|] eqn:Ef.
  { assert (post (m ← metadata CMetadataAfter dst; match m with Ok _ => mret (Err AlreadyExists) | _ => change CRename dst (rename src dst) end) P Q w) as Hfb.
    { unfold metadata. rewrite post_bind, post_look. case_match; [by apply HQ|apply Hplain; auto..]. }
    destruct e; first [exact Hfb | by apply HQ]. }
  destruct (renameat2_noreplace src dst (files w)) as [fs'|e|] eqn:Er; [| |by apply HQ].
  - apply HQ; [done|done|]. intros _. unfold renameat2_noreplace in Er.
    destruct (files w !! src) as [n|] eqn:En; [destruct (files w !! dst) eqn:Ed; [done|]|].
    all: split; [by apply rename_ok|]; intros _ _ [? ?]; done.
  - assert (e = InvalidInput -> post (m ← metadata CMetadataAfter dst; match m with Ok _ => mret (Err AlreadyExists) | _ => change CRename dst (rename src dst) end) P Q w) as Hfb.
    { intros ->. unfold metadata. rewrite post_bind, post_look. case_match; [by apply HQ|apply Hplain; auto..]. }
    destruct e; try (by apply HQ); try (by apply Hfb).
    unfold renameat2_noreplace, rename, missing_kind in Er. repeat case_match; simplify_eq.
Qed.

Definition client_token (rq : object_request) : option string := header_str (oq_headers rq) "x-amz-client-token".

(** The cache holds no answer for the request's token. *)
Definition unanswered (rq : object_request) (w : world) : Prop :=
  forall t d, client_token rq = Some t -> idempotency w !! t <> Some (Done d).

Definition request_fingerprint (rq : object_request) (src_key : string) : string :=
  rename_fingerprint (o_bucket rq) src_key (o_key rq) (header_str (oq_headers rq) "if-match")
    (header_str (oq_headers rq) "if-none-match") (header_str (oq_headers rq) "x-amz-rename-source-if-match").

Definition answered (rq : object_request) (src_key : string) (w : world) : Prop :=
  forall t, client_token rq = Some t -> idempotency w !! t = Some (Done
    {| completed_at := instant_now; fingerprint := request_fingerprint rq src_key; done_status := 200; done_body := ""%string |}).

Definition released (guard : option string) (w : world) : world :=
  match guard with Some t => set_idempotency (abandon t (idempotency w)) w | None => w end.
Lemma post_abort {A} guard r P (Q : A -> world -> Prop) w : post (abort guard r) P Q w <-> P (Error r) (released guard w).
Proof. by destruct guard. Qed.
Lemma post_or_abort {A X} guard (r : res X A) f P (Q : A -> world -> Prop) w :
  post (or_abort guard r f) P Q w <->
  match r with Ok a => Q a w | Err e => P (Error (f e)) (released guard w) | Panics => True end.
Proof. destruct r; [done|apply post_abort|done]. Qed.
Lemma post_abort_if guard b r P (Q : unit -> world -> Prop) w :
  post (abort_if guard b r) P Q w <-> if b then P (Error r) (released guard w) else Q tt w.
Proof. destruct b; [apply post_abort|done]. Qed.

Lemma released_unanswered rq guard w : unanswered rq w -> unanswered rq (released guard w).
Proof.
  intros H t d Ht. destruct guard as [g|]; cbn; [|by apply H]. unfold abandon. intros [_ Hd]%lookup_delete_Some. by eapply H.
Qed.
Lemma released_files guard w : files (released guard w) = files w.
Proof. by destruct guard. Qed.

(** A token without an answer: the guard is for it, or the cache is full. *)
Lemma claim_token_post rq src_key path P w :
  unanswered rq w -> (forall e, P (Error e) w) ->
  post (claim_token (client_token rq) (request_fingerprint rq src_key) path) P (fun guard w' =>
    files w' = files w /\ unanswered rq w' /\
    (guard = client_token rq \/ guard = None /\ exists t, client_token rq = Some t /\ idempotency w !! t = None /\
                                   o_max_tokens <= Z.of_nat (size (idempotency w)))) w.
Proof.
  intros Hu HP. unfold claim_token. destruct (client_token rq) as [t|] eqn:Et; [|split_and!; auto].
  rewrite post_bind. unfold enter_token, enter, post at 1.
  destruct (negb _ && _) eqn:Ef.
  - apply andb_true_iff in Ef as [Hn%negb_true_iff Hs]. apply bool_decide_eq_false in Hn. rewrite post_ret. cbn.
    split_and!; [done|done|]. right. split; [done|]. exists t. split_and!; [done|by apply eq_None_not_Some|lia].
  - assert (default Pending (idempotency w !! t) = Pending) as ->.
    { destruct (idempotency w !! t) as [[|d]|] eqn:Ei; try done. by destruct (Hu t d). }
    cbn. split_and!; [done| |auto]. intros t' d Ht'. rewrite Et in Ht'. injection Ht' as <-. cbn. by rewrite lookup_insert_eq.
Qed.

(** [goal_if]: both branches of the conditional that is the goal *)
Ltac goal_if := match goal with |- if ?b then _ else _ => destruct b end.
Ltac goal_if_eq H := match goal with |- if ?b then _ else _ => destruct b eqn:H end.

(** What the conditional headers ask of source and destination *)
Definition conditions_hold (if_match if_none_match if_source_match : option string) (src_meta : node) (dst_meta : res io_kind node) : Prop :=
  (forall want, if_source_match = Some want -> etag_matches (meta_etag src_meta) want = true) /\
  (forall want, if_match = Some want -> exists n, dst_meta = Ok n /\ etag_matches (meta_etag n) want = true) /\
  (forall want n, if_none_match = Some want -> dst_meta = Ok n -> want <> "*"%string /\ etag_matches (meta_etag n) want = false).

Lemma rename_conditions_post guard path src_meta dst_meta im inm ism P (Q : unit -> world -> Prop) w :
  (forall e, P (Error e) (released guard w)) -> (conditions_hold im inm ism src_meta dst_meta -> Q tt w) ->
  post (rename_conditions guard path src_meta dst_meta im inm ism) P Q w.
Proof.
  intros HP HQ. unfold rename_conditions.
  rewrite post_bind, post_abort_if. goal_if_eq Hs; [apply HP|]. rewrite post_bind, post_abort_if. goal_if_eq Hm; [apply HP|].
  rewrite post_abort_if. goal_if_eq Hn; [apply HP|]. apply HQ. split_and!.
  - intros want ->. by apply negb_false_iff in Hs.
  - intros want ->. destruct dst_meta as [n| |]; [|done..]. exists n. by apply negb_false_iff in Hm.
  - intros want n -> ->. apply orb_false_iff in Hn as [Hn1 Hn2]. split; [by apply String.eqb_neq|done].
Qed.

Definition conditioned (rq : object_request) (src dst : path) (w : world) : Prop :=
  exists n, stat (files w) src = Ok n /\
    conditions_hold (header_str (oq_headers rq) "if-match") (header_str (oq_headers rq) "if-none-match")
      (header_str (oq_headers rq) "x-amz-rename-source-if-match") n
      (match fault CMetadata dst with Some e => Err e | None => stat (files w) dst end).

(** A rename that the cache has no answer for *)
Lemma rename_post rq src_key src dst w :
  parse_rename_source (oq_headers rq) = Ok src_key ->
  join_object_path o_posix_root (o_bucket rq) src_key = Ok src ->
  join_object_path o_posix_root (o_bucket rq) (o_key rq) = Ok dst ->
  unanswered rq w ->
  let G (r : obj_reply) (w' : world) :=
    match r with
    | RenameReply status body => status = 200 /\ body = ""%string /\ conditioned rq src dst w /\
        same_objects (moved_lookup src dst (files w)) (files w' !!.) /\
        (header_str (oq_headers rq) "if-none-match" = Some "*"%string -> fault CRenameNoreplace dst = None ->
           forall m, is_real_dir m = false -> files w !! dst <> Some m) /\
        (answered rq src_key w' \/ exists t, client_token rq = Some t /\ idempotency w !! t = None /\ o_max_tokens <= Z.of_nat (size (idempotency w)))
    | Error _ => same_objects (files w !!.) (files w' !!.) /\ unanswered rq w'
    | _ => False
    end in
  post (handle_rename_object rq) G G w.
Proof.
  intros Hps Hjs Hjd Hu G.
  assert (forall e guard w1, files w1 = files w -> unanswered rq w1 -> G (Error e) (released guard w1)) as HG.
  { intros e guard w1 Hw1 Hu1. cbn. rewrite released_files, Hw1. split; [by intros ?|by apply released_unanswered]. }
  unfold handle_rename_object. rewrite post_bind. unfold refuse_if at 1. rewrite post_reply_if. case_match; [by apply (HG _ None)|].
  rewrite post_bind. unfold target_named, refuse_if. rewrite post_reply_if. case_match; [by apply (HG _ None)|].
  rewrite post_bind. unfold require_bucket_dir, or_refuse, metadata, refuse_if. rewrite post_bind, post_unwrap.
  destruct (bucket_root_path _ _) as [root| |]; [|by apply (HG _ None)|done]. rewrite post_bind, post_look, post_reply_if.
  goal_if; [by apply (HG _ None)|].
  rewrite post_bind, post_unwrap, Hps. rewrite post_bind. fold (client_token rq). fold (request_fingerprint rq src_key).
  eapply post_mono; [apply (claim_token_post rq src_key _ G); [done|intros e; by apply (HG _ None)]|done|].
  cbv beta. intros guard w1 (Hw1 & Hu1 & Hg).
  rewrite post_bind, post_abort_if. case_match; [by apply HG|].
  rewrite post_bind, post_or_abort, Hjs, post_bind, post_or_abort, Hjd.
  rewrite post_bind, post_look, post_bind, post_or_abort.
  destruct (match fault CMetadata src with Some e => Err e | None => stat (files w1) src end) as [n|e|] eqn:Es; [|by apply HG|done].
  assert (is_Some (files w !! src)) as Hsrc.
  { rewrite <- Hw1. destruct (fault CMetadata src); [done|]. unfold stat in Es. destruct (files w1 !! src); [by eexists|done]. }
  rewrite post_bind, post_look, post_bind. apply rename_conditions_post; [intros e; by apply HG|]. intros Hcond.
  assert (conditioned rq src dst w) as Hc.
  { exists n. rewrite Hw1 in Es, Hcond. split; [|done]. by destruct (fault CMetadata src). }
  rewrite post_bind. unfold post at 1, create_dir_all. destruct (make_dirs _ _ _) as [r fs1] eqn:Em.
  destruct (make_dirs_grows _ _ _ _ _ Em) as [Hgr _]. rewrite Hw1 in Hgr. pose proof (grows_same_objects _ _ _ Hgr) as Hso.
  set (w2 := set_files fs1 w1). assert (unanswered rq w2) as Hu2 by exact Hu1.
  rewrite post_bind, post_or_abort. destruct r as [[]|e|]; [| |done].
  2: { cbn. rewrite released_files. split; [exact Hso|by apply released_unanswered]. }
  rewrite post_bind. apply rename_call_post. intros r w3 Hi3 Hbad Hgood. rewrite post_bind, post_or_abort.
  assert (unanswered rq w3) as Hu3 by (intros t d; rewrite Hi3; apply Hu1).
  destruct r as [[]|e|]; [| |done].
  2: { cbn. rewrite released_files, Hbad by done. split; [exact Hso|by apply released_unanswered]. }
  destruct (Hgood eq_refl) as [Hmv Hnr]. rewrite post_bind. apply prune_after_post. intros w4 Hso4 Hi4.
  assert (same_objects (moved_lookup src dst (files w)) (files w4 !!.)) as Hobj.
  { eapply same_objects_trans; [|exact Hso4]. intros q m Hm. rewrite Hmv. cbn. unfold moved_lookup.
    destruct (bool_decide (dst `prefix_of` q)); [by apply Hso|]. destruct (bool_decide (src `prefix_of` q)); [done|by apply Hso]. }
  assert (header_str (oq_headers rq) "if-none-match" = Some "*"%string -> fault CRenameNoreplace dst = None ->
           forall m, is_real_dir m = false -> files w !! dst <> Some m) as Hstar.
  { intros Hs Hf m Hm Hd. destruct Hsrc as [n' Hn']. specialize (Hnr ltac:(by apply bool_decide_true) Hf). cbn in Hnr.
    rewrite (grows_keeps _ _ _ Hgr _ _ Hd) in Hnr. by specialize (Hnr ltac:(exists n'; by apply (grows_keeps _ _ _ Hgr))). }
  rewrite post_bind. destruct Hg as [->|(-> & Hfull)].
  - unfold commit_token. destruct (client_token rq) as [t|] eqn:Et; autorewrite with wp; cbn; split_and!; try done; left.
    + intros t' Ht'. rewrite Et in Ht'. injection Ht' as <-. cbn. unfold commit. by rewrite lookup_insert_eq.
    + intros t' Ht'. congruence.
  - unfold commit_token. autorewrite with wp. cbn. split_and!; try done. by right.
Qed.

(** C23. An acknowledged RenameObject that the cache had no answer for has
    moved the object: the files and links of the tree are exactly those of
    the old tree with the source's subtree in the place of the destination's,
    so content, inode, attributes and ETag are kept and no other object is
    touched; the ETag conditions of the request held for the source and the
    destination it found, and under [If-None-Match: *] it has replaced
    nothing. *)
Theorem rename_acknowledged (rq : object_request) (src_key : string) (src dst : path) (w w' : world) (status : Z) (body : string) :
  parse_rename_source (oq_headers rq) = Ok src_key ->
  join_object_path o_posix_root (o_bucket rq) src_key = Ok src ->
  join_object_path o_posix_root (o_bucket rq) (o_key rq) = Ok dst ->
  unanswered rq w ->
  replies (handle_rename_object rq) w = (Some (RenameReply status body), w') ->
  same_objects (moved_lookup src dst (files w)) (files w' !!.) /\
  (forall i b l, files w !! src = Some (RegFile i b l) -> files w' !! dst = Some (RegFile i b l)) /\
  conditioned rq src dst w /\
  (header_str (oq_headers rq) "if-none-match" = Some "*"%string -> fault CRenameNoreplace dst = None ->
     forall m, is_real_dir m = false -> files w !! dst <> Some m).
Proof.
  intros Hps Hjs Hjd Hu Hr.
  pose proof (post_replies _ _ _ _ _ (rename_post rq src_key src dst w Hps Hjs Hjd Hu) Hr) as (_ & _ & Hcond & Hobj & Hstar & _).
  split_and!; [done| |done|done]. intros i b l Hn. apply Hobj; [done|]. unfold moved_lookup.
  rewrite bool_decide_true by done. by rewrite drop_all, app_nil_r.
Qed.

(** A RenameObject that is refused, at whatever point, leaves every file
    and link as it was, and leaves no answer in the cache, so that a retry
    with the same client token executes. *)
Theorem rename_refusal_changes_nothing (rq : object_request) (src_key : string) (src dst : path) (w w' : world) (e : HttpResponse) :
  parse_rename_source (oq_headers rq) = Ok src_key ->
  join_object_path o_posix_root (o_bucket rq) src_key = Ok src ->
  join_object_path o_posix_root (o_bucket rq) (o_key rq) = Ok dst ->
  unanswered rq w ->
  replies (handle_rename_object rq) w = (Some (Error e), w') ->
  same_objects (files w !!.) (files w' !!.) /\ unanswered rq w'.
Proof.
  intros Hps Hjs Hjd Hu Hr. exact (post_replies _ _ _ _ _ (rename_post rq src_key src dst w Hps Hjs Hjd Hu) Hr).
Qed.

(** A retried RenameObject is replayed.  After a rename with a client
    token was acknowledged and its answer cached, the same request is
    acknowledged again in any later state that still has the bucket and the
    cache entry, whatever has become of source and destination, and it
    changes nothing. *)
Theorem rename_retry_replayed (rq : object_request) (src_key token : string) (src dst root : path) (w w' w2 : world) :
  parse_rename_source (oq_headers rq) = Ok src_key ->
  join_object_path o_posix_root (o_bucket rq) src_key = Ok src ->
  join_object_path o_posix_root (o_bucket rq) (o_key rq) = Ok dst ->
  unanswered rq w -> client_token rq = Some token -> Z.of_nat (size (idempotency w)) < o_max_tokens ->
  replies (handle_rename_object rq) w = (Some (RenameReply 200 ""), w') ->
  idempotency w2 !! token = idempotency w' !! token ->
  bucket_root_path o_posix_root (o_bucket rq) = Ok root -> fault CMetadata root = None -> is_dir (files w2) root = true ->
  replies (handle_rename_object rq) w2 = (Some (RenameReply 200 ""), w2).
Proof.
  intros Hps Hjs Hjd Hu Ht Hcap Hr Hsame Hroot Hf Hd.
  pose proof (post_replies _ _ _ _ _ (rename_post rq src_key src dst w Hps Hjs Hjd Hu) Hr) as (_ & _ & _ & _ & _ & [Ha|(? & _ & _ & ?)]); [|lia].
  rewrite (Ha _ Ht) in Hsame. revert Hr.
  unfold replies, handle_rename_object, refuse_if, mbind, handler_bind.
  destruct (negb (is_only_effective _ _ || _)); [done|]. cbn [reply_if mret handler_ret].
  unfold target_named, refuse_if. destruct (is_empty (o_bucket rq) || is_empty (o_key rq)); [done|]. cbn [reply_if mret handler_ret].
  intros _. unfold require_bucket_dir, or_refuse, mbind, handler_bind, refuse_if. rewrite Hroot. cbn [unwrap_or_reply mret handler_ret].
  unfold metadata, look, get. rewrite Hf. unfold is_dir in Hd. destruct (stat (files w2) root) as [n| |]; [|done..]. rewrite Hd.
  cbn [negb reply_if mret handler_ret]. rewrite Hps. cbn [unwrap_or_reply mret handler_ret].
  fold (client_token rq). fold (request_fingerprint rq src_key). rewrite Ht. unfold claim_token, mbind, handler_bind, enter_token, enter.
  rewrite Hsame, bool_decide_true by (by eexists). cbn [negb andb]. change (default Pending (Some ?d)) with d.
  unfold answer. cbn [fingerprint]. rewrite String.eqb_refl. cbn. rewrite insert_id by done. by destruct w2.
Qed.
End Proofs.
