(* ===== verification/ObjectMeta.v ===== *)
(** * Tags, ACLs and bucket probes (main.rs)

    The handlers of GET, PUT and DELETE [?tagging], GET and PUT [?acl],
    HeadBucket and GetBucketLocation. *)

From Stdlib Require Import ZArith Lia Ascii.
From stdpp Require Import base list strings numbers option gmap sorting.
From S2P Require Import Classifier.
From S2P Require Import Prelude RustStr Http Utils Preconditions UriEncoding S3Resp S3Xml Bytes FsHelpers FileSystem Handler Streaming PayloadSource Upload Copy GatewayHelpers Objects PutObject.

Local Open Scope s3_scope.
Local Open Scope Z_scope.

(** [acl_request_world_readable_intent] *)
Definition grant_headers : list string :=
  ["x-amz-grant-read"; "x-amz-grant-write"; "x-amz-grant-read-acp"; "x-amz-grant-write-acp"; "x-amz-grant-full-control"]%string.
Definition canned_acl (v : string) : res string bool :=
  if existsb (String.eqb v) ["private"; "bucket-owner-read"; "bucket-owner-full-control"; "aws-exec-read"; "log-delivery-write"; "authenticated-read"]%string
  then Ok false
  else if existsb (String.eqb v) ["public-read"; "public-read-write"]%string then Ok true
  else Err ("unknown canned ACL: " +:+ v)%string.
Definition acl_request_world_readable_intent (headers : header_map) (body : string) (events : list xml_event) : res string bool :=
  match hm_get headers "x-amz-acl" ≫= id with
  | Some canned => canned_acl (to_ascii_lowercase (trim canned))
  | None =>
      if existsb (contains_key headers) grant_headers then
        let mentions_all_users h := match hm_get headers h ≫= id with Some s => contains_str "AllUsers" s | None => false end in
        Ok (mentions_all_users "x-amz-grant-read" || mentions_all_users "x-amz-grant-full-control")%string
      else parse_put_acl_request_world_readable body events
  end.

Section Meta.
Context {E : ObjEnv}.

(** [(mode & 0o004) != 0] *)
Definition world_readable (n : node) : bool := negb (Z.land (i_mode (node_inode n)) 4 =? 0).

(** The answer to a failing [metadata] of an object or of the bucket *)
Definition object_stat (p : path) (path : string) : Act node :=
  m ← metadata CMetadata p;
  or_refuse m (fun e => if bool_decide (e = NotFound) then no_such_key "object not found" (Some path)
                        else access_denied (show_io e) (Some path)).
Definition bucket_stat (bucket path : string) : Act node :=
  root ← or_refuse (bucket_root_path o_posix_root bucket) (fun e => access_denied (path_error_message e) (Some path));
  m ← metadata CMetadata root;
  or_refuse m (fun e => access_denied (show_io e) (Some path)).

(** The body of the handlers that answer a read error with
    [invalid_request] *)
Definition control_body (rq : object_request) : Act bytes :=
  or_refuse (collect_body_capped show_body_error (oq_headers rq) (oq_body rq) XML_BODY_MAX_BYTES) (fun e =>
    match e with
    | TooLarge _ => error400 "InvalidRequest" "request body too large" (oq_path rq)
    | ReadBody m => invalid_request ("failed to read body: " +:+ m) (Some (oq_path rq))
    end).

(** ** ACLs *)
Definition acl_reply (n : node) : obj_reply :=
  let '(id, name) := o_owner_info (i_uid (node_inode n)) in AclReply id name (world_readable n).

Definition handle_get_object_acl (rq : object_request) : Act obj_reply :=
  let path := oq_path rq in
  let bucket := o_bucket rq in
  let key := o_key rq in
  _ ← refuse_if (is_empty bucket || is_empty key) (not_implemented "missing bucket or key" (Some path));
  _ ← not_reserved key path;
  _ ← require_bucket_dir bucket path;
  p ← object_path bucket key;
  n ← object_stat p path;
  mret (acl_reply n).
Definition handle_get_bucket_acl (rq : object_request) : Act obj_reply :=
  let path := oq_path rq in
  let bucket := o_bucket rq in
  _ ← refuse_if (is_empty bucket) (not_implemented "missing bucket" (Some path));
  _ ← require_bucket_dir bucket path;
  n ← bucket_stat bucket path;
  mret (acl_reply n).

(** An ACL is accepted when it is the one in force. *)
Definition put_acl (rq : object_request) (n : node) (refusal : string) : Act obj_reply :=
  let path := oq_path rq in
  collected ← control_body rq;
  requested ← or_refuse (acl_request_world_readable_intent (oq_headers rq) (str_of collected) (xml_events collected))
                (fun _ => invalid_request "invalid ACL request" (Some path));
  if Bool.eqb requested (world_readable n) then mret PutAclOk
  else refuse (not_implemented refusal (Some path)).
Definition handle_put_object_acl (rq : object_request) : Act obj_reply :=
  let path := oq_path rq in
  let bucket := o_bucket rq in
  let key := o_key rq in
  _ ← target_named bucket key path;
  _ ← not_reserved key path;
  _ ← require_bucket_dir bucket path;
  p ← object_path bucket key;
  n ← object_stat p path;
  put_acl rq n "PutObjectAcl is accepted only when it matches the current effective access".
Definition handle_put_bucket_acl (rq : object_request) : Act obj_reply :=
  let path := oq_path rq in
  let bucket := o_bucket rq in
  _ ← refuse_if (is_empty bucket) (error400 "InvalidRequest" "missing bucket" path);
  _ ← require_bucket_dir bucket path;
  n ← bucket_stat bucket path;
  put_acl rq n "PutBucketAcl is accepted only when it matches the current effective access".

(** ** Tags *)
Definition tagged_object (rq : object_request) : Act path :=
  let path := oq_path rq in
  let bucket := o_bucket rq in
  let key := o_key rq in
  _ ← target_named bucket key path;
  _ ← not_reserved key path;
  _ ← require_bucket_dir bucket path;
  p ← object_path bucket key;
  _ ← object_stat p path;
  mret p.

Definition handle_get_object_tagging (rq : object_request) : Act obj_reply :=
  p ← tagged_object rq;
  r ← read_tags p;
  tags ← or_internal r (fun _ => "failed to read object tags"%string) (oq_path rq);
  mret (TaggingReply tags).
Definition handle_put_object_tagging (rq : object_request) : Act obj_reply :=
  let path := oq_path rq in
  p ← tagged_object rq;
  _ ← require_xattr_support p path;
  collected ← control_body rq;
  tags ← or_refuse (parse_object_tagging_request (str_of collected) (xml_events collected))
           (fun _ => error400 "MalformedXML" "malformed Tagging XML" path);
  _ ← valid_or (validate_tagging_urlform tags) (error400 "InvalidTag" "invalid tag set" path);
  r ← write_tags p tags;
  _ ← or_internal r (fun _ => "failed to write object tags"%string) path;
  mret PutTaggingOk.
Definition handle_delete_object_tagging (rq : object_request) : Act obj_reply :=
  let path := oq_path rq in
  p ← tagged_object rq;
  _ ← require_xattr_support p path;
  r ← remove_tags p;
  _ ← or_internal r (fun _ => "failed to remove object tags"%string) path;
  mret DeleteTaggingOk.

(** ** Buckets *)

(** The tail of HeadBucket and GetBucketLocation *)
Definition bucket_probe (bucket path : string) (found : obj_reply) : Act obj_reply :=
  _ ← require_bucket_dir bucket path;
  mret found.
Definition handle_head_bucket (rq : object_request) : Act obj_reply :=
  let path := oq_path rq in
  _ ← no_effective_query rq;
  _ ← refuse_if (is_empty (o_bucket rq)) (not_implemented "missing bucket" (Some path));
  bucket_probe (o_bucket rq) path (HeadBucketOk o_region).
(** [is_get] is [req.method() == GET], [has_query] is
    [req.uri().query().is_some()]. *)
Definition handle_get_bucket_location (rq : object_request) (is_get has_query : bool) : Act obj_reply :=
  let path := oq_path rq in
  _ ← refuse_if (has_query && negb (is_get && is_only_effective (oq_query rq) "location"))
        (not_implemented "query parameters are not implemented" None);
  _ ← refuse_if (is_empty (o_bucket rq)) (not_implemented "missing bucket" (Some path));
  bucket_probe (o_bucket rq) path (LocationReply o_region).
End Meta.

(** ** Properties *)
Section Proofs.
Context {E : ObjEnv}.

Lemma check_object_stat p path : check (object_stat p path).
Proof. unfold object_stat. solve_check. Qed.
Lemma check_bucket_stat bucket path : check (bucket_stat bucket path).
Proof. unfold bucket_stat. solve_check. Qed.
Lemma check_control_body rq : check (control_body rq).
Proof. unfold control_body. solve_check. Qed.
#[local] Hint Resolve check_object_stat check_bucket_stat check_control_body : check.

(** What a handler that only looks does: it leaves the tree alone. *)
Definition only_looks (m : Act obj_reply) : Prop := check m.

Lemma get_object_acl_looks rq : only_looks (handle_get_object_acl rq).
Proof. unfold only_looks, handle_get_object_acl. solve_check. Qed.
Lemma get_bucket_acl_looks rq : only_looks (handle_get_bucket_acl rq).
Proof. unfold only_looks, handle_get_bucket_acl. solve_check. Qed.
Lemma put_acl_looks rq n r : only_looks (put_acl rq n r).
Proof. unfold only_looks, put_acl. solve_check. Qed.
Lemma put_object_acl_looks rq : only_looks (handle_put_object_acl rq).
Proof. unfold only_looks, handle_put_object_acl. pose proof put_acl_looks as Hp. unfold only_looks in Hp. solve_check. Qed.
Lemma put_bucket_acl_looks rq : only_looks (handle_put_bucket_acl rq).
Proof. unfold only_looks, handle_put_bucket_acl. pose proof put_acl_looks as Hp. unfold only_looks in Hp. solve_check. Qed.
Lemma check_tagged_object rq : check (tagged_object rq).
Proof. unfold tagged_object. solve_check. Qed.
Lemma get_tagging_looks rq : only_looks (handle_get_object_tagging rq).
Proof.
  unfold only_looks, handle_get_object_tagging, read_tags. apply check_bind; [apply check_tagged_object|]. intros p. solve_check.
Qed.
Lemma head_bucket_looks rq : only_looks (handle_head_bucket rq).
Proof. unfold only_looks, handle_head_bucket, bucket_probe. solve_check. Qed.
Lemma bucket_location_looks rq g h : only_looks (handle_get_bucket_location rq g h).
Proof. unfold only_looks, handle_get_bucket_location, bucket_probe. solve_check. Qed.

(** *** Tags *)
Lemma stat_with_xattrs p x n fs q :
  fs !! p = Some n ->
  match stat fs q with
  | Ok m => exists m', stat (<[p := with_xattrs x n]> fs) q = Ok m' /\ is_dir_node m' = is_dir_node m
  | _ => True
  end.
Proof.
  intros Hn. unfold stat. destruct (decide (p = q)) as [<-|Hne].
  - rewrite lookup_insert_eq, Hn. destruct n; cbn; eauto.
  - rewrite lookup_insert_ne by done. destruct (fs !! q) as [[]|]; eauto.
Qed.

(** The checks see the same tree when only attributes differ. *)
Lemma tagged_object_again rq p x n w w1 w2 :
  files w !! p = Some n -> files w2 = <[p := with_xattrs x n]> (files w) ->
  tagged_object rq w = (Next p, w1) -> tagged_object rq w2 = (Next p, w2).
Proof.
  intros Hn Hw2. unfold tagged_object, target_named, not_reserved, refuse_if, mbind, handler_bind.
  destruct (is_empty _ || _); [done|]. cbn [reply_if mret handler_ret].
  destruct (is_reserved_first_segment _ _); [done|]. cbn [reply_if mret handler_ret].
  unfold require_bucket_dir, mbind, handler_bind, or_refuse, metadata, look, get, refuse_if.
  destruct (bucket_root_path _ _) as [root| |]; [|done..]. cbn [unwrap_or_reply mret handler_ret].
  destruct (fault CMetadata root); [done|]. pose proof (stat_with_xattrs p x n (files w) root Hn) as Hs. rewrite Hw2.
  destruct (stat (files w) root) as [m| |]; [|done..]. destruct Hs as (m' & -> & ->).
  destruct (is_dir_node m); [|done]. cbn [negb reply_if mret handler_ret].
  unfold object_path, or_refuse. destruct (join_object_path _ _ _) as [p'| |]; [|done..]. cbn [unwrap_or_reply mret handler_ret].
  unfold object_stat, mbind, handler_bind, or_refuse, metadata, look, get. destruct (fault CMetadata p'); [done|].
  pose proof (stat_with_xattrs p x n (files w) p' Hn) as Hs. rewrite Hw2.
  destruct (stat (files w) p') as [m2| |]; [|done..]. destruct Hs as (m2' & -> & _). cbn. by intros [= -> _].
Qed.

Lemma tagged_object_path rq p p' w w1 :
  join_object_path o_posix_root (o_bucket rq) (o_key rq) = Ok p -> tagged_object rq w = (Next p', w1) -> p' = p.
Proof.
  intros Hj. unfold tagged_object, mbind, handler_bind, object_path, or_refuse. rewrite Hj. cbn [unwrap_or_reply mret handler_ret].
  destruct (target_named _ _ _ w) as [[[]|?| |] w2]; try done. destruct (not_reserved _ _ w2) as [[[]|?| |] w3]; try done.
  destruct (require_bucket_dir _ _ w3) as [[[]|?| |] w4]; try done. destruct (object_stat _ _ w4) as [[m|?| |] w5]; try done. by intros [= <- _].
Qed.

(** The end of a tagging change, from the state the checks leave *)
Definition retagged (p : path) (n : node) (tags : string) (w w' : world) : Prop :=
  exists x, files w' = <[p := with_xattrs x n]> (files w) /\ attr_of p TAGGING_XATTR (files w') = absent_if_empty tags /\
    (forall name, name <> TAGGING_XATTR -> attr_of p name (files w') = attr_of p name (files w)).

Definition on_tagged (G : world -> Prop) (r : obj_reply) (w : world) : Prop :=
  match r with PutTaggingOk | DeleteTaggingOk => G w | _ => True end.

Lemma write_tags_step p n tags message path done_reply w :
  honest_xattrs p -> files w !! p = Some n ->
  let G := on_tagged (retagged p n tags w) in
  post (r ← write_tags p tags; _ ← or_internal r (fun _ => message) path; mret done_reply) G G w.
Proof.
  intros Hh Hn G. apply (write_text_post TAGGING_XATTR p tags (fun _ => message) path n (fun _ => mret done_reply)); [done|done|by intros|].
  intros x w' Hw' Ha Ho. rewrite post_ret. destruct done_reply; try exact I; cbn; exists x; done.
Qed.
Lemma remove_tags_is_write p : remove_tags p = write_tags p "".
Proof. done. Qed.

(** Where the checks of a tagging request lead *)
Lemma tagged_object_post rq p (Q : path -> world -> Prop) P w :
  join_object_path o_posix_root (o_bucket rq) (o_key rq) = Ok p -> (forall e w', P (Error e) w') ->
  (forall w1, tagged_object rq w = (Next p, w1) -> files w1 = files w -> Q p w1) ->
  post (tagged_object rq) P Q w.
Proof.
  intros Hj HP HQ. unfold post. destruct (check_tagged_object rq w) as [Hw Hr]. destruct (tagged_object rq w) as [[p'|r| |] w1] eqn:Et; [| |done..].
  - assert (p' = p) as -> by (by eapply tagged_object_path). by apply HQ.
  - destruct Hr as [e ->]. apply HP.
Qed.

(** What GET [?tagging] answers after the change *)
Lemma get_tagging_after rq p n tags w w1 w' :
  files w !! p = Some n -> device_xattrs (device p) = true -> node_linked n = false -> fault (CXattrGet TAGGING_XATTR) p = None ->
  tagged_object rq w = (Next p, w1) -> retagged p n tags w w' ->
  replies (handle_get_object_tagging rq) w' = (Some (TaggingReply tags), w').
Proof.
  intros Hn Hx Hl Hf Ht (x & Hw' & Ha & _). unfold replies, handle_get_object_tagging, mbind, handler_bind.
  rewrite (tagged_object_again rq p x n w w1 w' Hn Hw' Ht). unfold read_tags, read_text, mbind, handler_bind, xattr_get, look, get.
  rewrite Hf. unfold attr_of in Ha. rewrite Hw', lookup_insert_eq in *.
  assert (node_linked (with_xattrs x n) = false) as Hl' by (by destruct n). rewrite Hx, Hl' in *. cbn in *. rewrite Ha.
  unfold absent_if_empty. destruct (is_empty tags) eqn:Ee; [|done]. apply is_empty_true in Ee as ->. done.
Qed.

(** Tags round-trip.  When PutObjectTagging is acknowledged the tags of
    the object are exactly the set of the request's document, a GET of the
    tags answers with that set, and nothing else has changed: not the
    content, the inode, the time or the ETag of the object, not another
    attribute, not another file. *)
Theorem put_tagging_roundtrip (rq : object_request) (p : path) (n : node) (b : bytes) (tags : string) (w w' : world) :
  join_object_path o_posix_root (o_bucket rq) (o_key rq) = Ok p -> honest_xattrs p ->
  files w !! p = Some n -> node_linked n = false -> device_xattrs (device p) = true -> fault (CXattrGet TAGGING_XATTR) p = None ->
  collect_body_capped show_body_error (oq_headers rq) (oq_body rq) XML_BODY_MAX_BYTES = Ok b -> parse_object_tagging_request (str_of b) (xml_events b) = Ok tags ->
  replies (handle_put_object_tagging rq) w = (Some PutTaggingOk, w') ->
  retagged p n tags w w' /\ replies (handle_get_object_tagging rq) w' = (Some (TaggingReply tags), w').
Proof.
  intros Hj Hh Hn Hl Hx Hf Hb Hp Hr.
  set (G := on_tagged (fun w' => retagged p n tags w w' /\ exists w1, tagged_object rq w = (Next p, w1))).
  assert (forall e w', G (Error e) w') as HG by (intros; exact I).
  assert (post (handle_put_object_tagging rq) G G w) as HP.
  { unfold handle_put_object_tagging. rewrite post_bind. apply (tagged_object_post rq p); [done|done|]. intros w1 Ht Hw1.
    assert (exists w1, tagged_object rq w = (Next p, w1)) as Hex by (by exists w1).
    pass_check w1 Hw1. rewrite post_bind. unfold control_body, or_refuse at 1. rewrite post_unwrap, Hb.
    rewrite post_bind. unfold or_refuse at 1. rewrite post_unwrap, Hp. unfold valid_or. pass_check w1 Hw1.
    assert (forall r w2, on_tagged (retagged p n tags w1) r w2 -> G r w2) as Himp.
    { intros r w2. unfold G, on_tagged, retagged. rewrite Hw1. destruct r; try done; intros H; (split; [exact H|exact Hex]). }
    eapply post_mono; [apply (write_tags_step p n tags); [done|by rewrite Hw1]|exact Himp|exact Himp]. }
  pose proof (post_replies _ _ _ _ _ HP Hr) as [Hre [w1 Ht]]. split; [done|]. by eapply get_tagging_after.
Qed.

(** DeleteObjectTagging, when acknowledged, leaves the object without
    tags and everything else as it was. *)
Theorem delete_tagging_clears (rq : object_request) (p : path) (n : node) (w w' : world) :
  join_object_path o_posix_root (o_bucket rq) (o_key rq) = Ok p -> honest_xattrs p -> files w !! p = Some n ->
  replies (handle_delete_object_tagging rq) w = (Some DeleteTaggingOk, w') ->
  retagged p n "" w w' /\ attr_of p TAGGING_XATTR (files w') = None.
Proof.
  intros Hj Hh Hn Hr.
  set (G := on_tagged (retagged p n "" w)). assert (forall e w', G (Error e) w') as HG by (intros; exact I).
  assert (post (handle_delete_object_tagging rq) G G w) as HP.
  { unfold handle_delete_object_tagging. rewrite post_bind. apply (tagged_object_post rq p); [done|done|]. intros w1 Ht Hw1.
    pass_check w1 Hw1. rewrite remove_tags_is_write.
    eapply post_mono; [apply (write_tags_step p n ""); [done|by rewrite Hw1]| |];
      (intros r w2; destruct r; try done; cbn; unfold retagged; by rewrite Hw1). }
  pose proof (post_replies _ _ _ _ _ HP Hr) as Hre. split; [exact Hre|]. by destruct Hre as (x & _ & Ha & _).
Qed.
End Proofs.
