(* ===== verification/Directory.v ===== *)
(** * s32p-directory: users, buckets and their access lists

    The documents of directory/types.rs, the validators and [normalize_acl]
    of directory/layout.rs, the directory file of directory/file.rs, the
    groups of a POSIX user (directory/posix_groups.rs), the [Directory] trait
    and its YAML implementation (directory/yaml.rs). *)

From Stdlib Require Import ZArith Lia Ascii.
From stdpp Require Import base list strings numbers option gmap sorting fin_sets.
From S2P Require Import Prelude RustStr Utils.

Local Open Scope s3_scope.
Local Open Scope string_scope.

(** ** Documents *)
Inductive AccessLevel := ReadOnly | ReadWrite.
#[global] Instance access_level_eq_dec : EqDecision AccessLevel.
Proof. solve_decision. Defined.

Record BucketView := { bucket_id : string; bucket_name : string; data_path : string; access : AccessLevel }.

Record UserDoc := { user_access_key : string; user_secret_key : string; user_username : string; user_uid : Z; user_gid : Z }.

Inductive Principal := AccessKey (access_key : string) | GroupName (name : string).
#[global] Instance principal_eq_dec : EqDecision Principal.
Proof. solve_decision. Defined.

Record AclEntry := { entry_principal : Principal; entry_access : AccessLevel }.
Record BucketDoc := { doc_id : string; doc_name : string; doc_data_path : string; doc_acl : list AclEntry }.
Record DirectoryFileV1 := { file_version : Z; file_users : list UserDoc; file_buckets : list BucketDoc }.

(** The errors the functions below report *)
Inductive dir_error :=
| InvalidAccessKey (k : string) | InvalidGroupName (n : string) | InvalidBucketName (n : string) | ConsecutiveDots (n : string)
| UnsupportedVersion (v : Z) | EmptyField (what : string) | Duplicate (what : string)
| Ambiguous (access_key name : string) | GroupLookup (username : string) | UsernameNul | BackendError (m : string).

(** ** layout.rs *)

(** [ACCESS_KEY_RE], [GROUP_NAME_RE] and [BUCKET_NAME_RE]; every character
    they allow is one byte. *)
Definition ident_first (c : ascii) : bool := is_ascii_alphanumeric c || (c =c "_").
Definition ident_rest (c : ascii) : bool := ident_first c || (c =c ".") || (c =c "-").
Definition matches_ident (max_rest : nat) (s : string) : bool :=
  match s with
  | "" => false
  | String c rest => ident_first c && all_bytes ident_rest rest && (String.length rest <=? max_rest)%nat
  end.
Definition bucket_edge (c : ascii) : bool := is_ascii_lower c || is_ascii_digit c.
Definition bucket_inner (c : ascii) : bool := bucket_edge c || (c =c ".") || (c =c "-").
(** A last character after [1..61] inner ones *)
Fixpoint matches_bucket_rest (n : nat) (s : string) : bool :=
  match s with
  | "" => false
  | String c "" => (1 <=? n)%nat && (n <=? 61)%nat && bucket_edge c
  | String c rest => bucket_inner c && matches_bucket_rest (S n) rest
  end.
Definition matches_bucket_name (s : string) : bool :=
  match s with "" => false | String c rest => bucket_edge c && matches_bucket_rest 0 rest end.

Definition validate_bucket_name (name : string) : res dir_error unit :=
  if negb (matches_bucket_name name) then Err (InvalidBucketName name)
  else if contains_str ".." name then Err (ConsecutiveDots name) else Ok tt.

Definition validate_access_key (k : string) : res dir_error unit := ensure (matches_ident 127 k) (InvalidAccessKey k).

Definition validate_principal (p : Principal) : res dir_error unit :=
  match p with
  | AccessKey k => validate_access_key k
  | GroupName n => ensure (matches_ident 63 n) (InvalidGroupName n)
  end.

Fixpoint validate_acl (acl : list AclEntry) : res dir_error unit :=
  match acl with
  | [] => Ok tt
  | e :: acl => _ ← validate_principal (entry_principal e); validate_acl acl
  end.

Definition principal_key (p : Principal) : string :=
  match p with AccessKey k => "ak:" +:+ k | GroupName n => "group:" +:+ n end.

(** [std::cmp::max] on [AccessLevel] *)
Definition level_max (a b : AccessLevel) : AccessLevel := match a with ReadWrite => ReadWrite | ReadOnly => b end.

(** [normalize_acl]: [map.into_values()] is in some order, the sort makes it
    irrelevant. *)
Definition merge_entry (m : gmap string AclEntry) (e : AclEntry) : gmap string AclEntry :=
  let key := principal_key (entry_principal e) in
  match m !! key with
  | Some old => <[key := {| entry_principal := entry_principal old;
                            entry_access := level_max (entry_access old) (entry_access e) |}]> m
  | None => <[key := e]> m
  end.
Definition entry_le (a b : AclEntry) : Prop :=
  str_le (principal_key (entry_principal a)) (principal_key (entry_principal b)).
#[global] Instance entry_le_dec : RelDecision entry_le.
Proof. intros a b. unfold entry_le. apply _. Defined.
Definition normalize_acl (acl : list AclEntry) : list AclEntry :=
  merge_sort entry_le (snd <$> map_to_list (foldl merge_entry ∅ acl)).

(** ** file.rs: [DirectoryFileV1::validate] *)
Fixpoint for_each {A} (f : A -> res dir_error unit) (l : list A) : res dir_error unit :=
  match l with [] => Ok tt | a :: l => _ ← f a; for_each f l end.
Definition validate (doc : DirectoryFileV1) : res dir_error unit :=
  _ ← ensure (file_version doc =? 1)%Z (UnsupportedVersion (file_version doc));
  _ ← for_each (fun u => validate_access_key (user_access_key u)) (file_users doc);
  for_each (fun b => _ ← validate_bucket_name (doc_name b); validate_acl (doc_acl b)) (file_buckets doc).

(** ** posix_groups.rs

    [group_count] is the size the first call of [getgrouplist] reports,
    [group_list] the second call into a buffer of that size ([None] for a
    negative result), [group_name_from_gid] the C library's group database;
    [hash_order] is the order in which a [HashSet] yields its elements. *)
Class Nss := {
  group_count : string -> Z -> Z;
  group_list : string -> Z -> Z -> option (list Z);
  group_name_from_gid : Z -> option string;
  hash_order : list string -> list string;
  hash_order_perm : forall l, hash_order l ≡ₚ l;
}.

Section Groups.
Context {N : Nss}.

Definition groups_for_user (username : string) (primary_gid : Z) : res dir_error (list string) :=
  if contains_char "000" username then Err UsernameNul
  else
    let ngroups := group_count username primary_gid in
    if (ngroups <=? 0)%Z then Ok []
    else match group_list username primary_gid ngroups with
         | None => Err (GroupLookup username)
         | Some gids => Ok (dedup (merge_sort str_le (omap group_name_from_gid gids)))
         end.

(** ** [effective_access] of yaml.rs and openbao.rs *)
Definition entry_matches (access_key : string) (groups : gset string) (e : AclEntry) : bool :=
  match entry_principal e with
  | AccessKey k => k =s access_key
  | GroupName n => bool_decide (n ∈ groups)
  end.
Definition improve (access_key : string) (groups : gset string) (best : option AccessLevel) (e : AclEntry) : option AccessLevel :=
  if entry_matches access_key groups e
  then Some (match best with None => entry_access e | Some cur => level_max cur (entry_access e) end)
  else best.
Definition effective_access (acl : list AclEntry) (access_key : string) (groups : gset string) : option AccessLevel :=
  foldl (improve access_key groups) None acl.

(** The views of the buckets with the given ids, in the order of the loop *)
Definition view_of (b : BucketDoc) (l : AccessLevel) : BucketView :=
  {| bucket_id := doc_id b; bucket_name := doc_name b; data_path := doc_data_path b; access := l |}.
Definition view_le (a b : BucketView) : Prop := str_le (bucket_name a) (bucket_name b).
#[global] Instance view_le_dec : RelDecision view_le.
Proof. intros a b. unfold view_le. apply _. Defined.

Fixpoint collect_views (fetch : string -> res dir_error (option BucketDoc)) (access_key : string) (groups : gset string)
    (ids : list string) (name_seen : gset string) (out : list BucketView) : res dir_error (list BucketView) :=
  match ids with
  | [] => Ok out
  | id :: ids =>
      b ← fetch id;
      match b with
      | None => collect_views fetch access_key groups ids name_seen out
      | Some b =>
          match effective_access (doc_acl b) access_key groups with
          | None => collect_views fetch access_key groups ids name_seen out
          | Some l =>
              if bool_decide (doc_name b ∈ name_seen) then Err (Ambiguous access_key (doc_name b))
              else collect_views fetch access_key groups ids ({[doc_name b]} ∪ name_seen) (out ++ [view_of b l])%list
          end
      end
  end.
End Groups.

(** ** The [Directory] trait *)
Class Directory (D : Type) := {
  user_by_access_key : D -> string -> res dir_error (option UserDoc);
  buckets_for_access_key : D -> string -> res dir_error (list BucketView);
}.

(** ** yaml.rs *)
Record YamlDirectory := {
  yd_users : gmap string UserDoc;
  yd_buckets : gmap string BucketDoc;
  index_access_key : gmap string (list string);
  index_group : gmap string (list string);
}.

Fixpoint load_users (us : list UserDoc) (m : gmap string UserDoc) : res dir_error (gmap string UserDoc) :=
  match us with
  | [] => Ok m
  | u :: us =>
      if is_empty (trim (user_access_key u)) then Err (EmptyField "user access_key")
      else match m !! user_access_key u with
           | Some _ => Err (Duplicate "user access_key")
           | None => load_users us (<[user_access_key u := u]> m)
           end
  end.

Definition normalized (b : BucketDoc) : BucketDoc :=
  {| doc_id := doc_id b; doc_name := doc_name b; doc_data_path := doc_data_path b; doc_acl := normalize_acl (doc_acl b) |}.

Fixpoint load_buckets (bs : list BucketDoc) (m : gmap string BucketDoc) : res dir_error (gmap string BucketDoc) :=
  match bs with
  | [] => Ok m
  | b :: bs =>
      if is_empty (trim (doc_id b)) then Err (EmptyField "bucket id")
      else if is_empty (trim (doc_name b)) then Err (EmptyField "bucket name")
      else if is_empty (trim (doc_data_path b)) then Err (EmptyField "bucket data_path")
      else match m !! doc_id b with
           | Some _ => Err (Duplicate "bucket id")
           | None => load_buckets bs (<[doc_id b := normalized b]> m)
           end
  end.

(** The pairs the index loops push, and the two indexes *)
Definition index_pairs (buckets : gmap string BucketDoc) : list (Principal * string) :=
  map_to_list buckets ≫= fun ib => (fun e => (entry_principal e, fst ib)) <$> doc_acl (snd ib).
Definition push_id (k id : string) (m : gmap string (list string)) : gmap string (list string) :=
  <[k := (default [] (m !! k) ++ [id])%list]> m.
Definition push_access_key (m : gmap string (list string)) (pi : Principal * string) : gmap string (list string) :=
  match fst pi with AccessKey k => push_id k (snd pi) m | GroupName _ => m end.
Definition push_group (m : gmap string (list string)) (pi : Principal * string) : gmap string (list string) :=
  match fst pi with GroupName n => push_id n (snd pi) m | AccessKey _ => m end.
Definition sort_dedup (l : list string) : list string := dedup (merge_sort str_le l).

Definition from_doc (doc : DirectoryFileV1) : res dir_error YamlDirectory :=
  _ ← validate doc;
  users ← load_users (file_users doc) ∅;
  buckets ← load_buckets (file_buckets doc) ∅;
  Ok {| yd_users := users; yd_buckets := buckets;
        index_access_key := sort_dedup <$> foldl push_access_key ∅ (index_pairs buckets);
        index_group := sort_dedup <$> foldl push_group ∅ (index_pairs buckets) |}.

Section Yaml.
Context {N : Nss}.

(** The ids the indexes name for a user and the groups of the user *)
Definition indexed_ids (by_key : option (list string)) (by_group : string -> option (list string)) (groups : gset string) : gset string :=
  list_to_set (default [] by_key) ∪ list_to_set (elements groups ≫= fun g => default [] (by_group g)).

Definition yaml_user_by_access_key (d : YamlDirectory) (access_key : string) : res dir_error (option UserDoc) :=
  Ok (yd_users d !! access_key).
Definition yaml_buckets_for_access_key (d : YamlDirectory) (access_key : string) : res dir_error (list BucketView) :=
  match yd_users d !! access_key with
  | None => Ok []
  | Some user =>
      groups ← groups_for_user (user_username user) (user_gid user);
      let group_set : gset string := list_to_set groups in
      let ids := indexed_ids (index_access_key d !! access_key) (fun g => index_group d !! g) group_set in
      out ← collect_views (fun id => Ok (yd_buckets d !! id)) access_key group_set (hash_order (elements ids)) ∅ [];
      Ok (merge_sort view_le out)
  end.
#[global] Instance yaml_directory : Directory YamlDirectory :=
  {| user_by_access_key := yaml_user_by_access_key; buckets_for_access_key := yaml_buckets_for_access_key |}.
End Yaml.

(** ** Access lists

    What an access list grants depends on which principals it names with
    which level, not on order or repetition. *)
Lemma principal_key_inj p q : principal_key p = principal_key q -> p = q.
Proof. destruct p, q; cbn; intros [=]; congruence. Qed.

Definition merged (acl : list AclEntry) : gmap string AclEntry := foldl merge_entry ∅ acl.

Lemma merged_spec acl k :
  match merged acl !! k with
  | None => forall e, e ∈ acl -> principal_key (entry_principal e) <> k
  | Some x => principal_key (entry_principal x) = k /\
      (exists e, e ∈ acl /\ entry_principal e = entry_principal x /\ entry_access e = entry_access x) /\
      (forall e, e ∈ acl -> entry_principal e = entry_principal x -> entry_access e = ReadWrite -> entry_access x = ReadWrite)
  end.
Proof.
  induction acl as [|a acl IH] using rev_ind; [unfold merged; cbn; rewrite lookup_empty; by intros e ?%not_elem_of_nil|].
  unfold merged in *. rewrite foldl_app. cbn [foldl]. set (m := foldl merge_entry ∅ acl) in *.
  unfold merge_entry. set (ka := principal_key (entry_principal a)).
  destruct (decide (k = ka)) as [->|Hk].
  - destruct (m !! ka) as [old|] eqn:Eo; rewrite lookup_insert_eq.
    + destruct IH as (Hold & (e & He & Hp & Hl) & Hrw). apply principal_key_inj in Hold. cbn [entry_principal entry_access].
      split_and!; [by rewrite Hold|destruct (entry_access old) eqn:El|].
      * exists a. split_and!; [set_solver|done|done].
      * exists e. split_and!; [set_solver|done|done].
      * intros e' [He'| ->%list_elem_of_singleton]%elem_of_app Hp' Hr; [by rewrite (Hrw e')|rewrite Hr; by destruct (entry_access old)].
    + split_and!; [done|exists a; set_solver|]. intros e' [He'| ->%list_elem_of_singleton]%elem_of_app Hp' Hr; [|done].
      exfalso. apply (IH e' He'). by rewrite Hp'.
  - assert (forall v : AclEntry, <[ka := v]> m !! k = m !! k) as Hne by (intros v; by rewrite lookup_insert_ne).
    replace (match m !! ka with
             | Some old => <[ka := {| entry_principal := entry_principal old;
                                      entry_access := level_max (entry_access old) (entry_access a) |}]> m
             | None => <[ka := a]> m end !! k) with (m !! k) by (by destruct (m !! ka); rewrite Hne).
    destruct (m !! k) as [x|].
    + destruct IH as (Hx & (e & He & Hpl) & Hrw). split_and!; [done|exists e; set_solver|].
      intros e' [He'| ->%list_elem_of_singleton]%elem_of_app Hp' Hr; [by apply (Hrw e')|]. exfalso. apply Hk. subst ka. by rewrite Hp'.
    + intros e [He| ->%list_elem_of_singleton]%elem_of_app; [by apply IH|]. intros H. by apply Hk.
Qed.

Lemma elem_of_normalize acl e : e ∈ normalize_acl acl <-> merged acl !! principal_key (entry_principal e) = Some e.
Proof.
  unfold normalize_acl. rewrite merge_sort_Permutation. rewrite list_elem_of_fmap. split.
  - intros ([k x] & -> & Hkx%elem_of_map_to_list). cbn. pose proof (merged_spec acl k) as Hs. unfold merged in *.
    rewrite Hkx in Hs. destruct Hs as [-> _]. done.
  - intros H. exists (principal_key (entry_principal e), e). split; [done|]. by apply elem_of_map_to_list.
Qed.

Section Effective.
Context (access_key : string) (groups : gset string).
Let hits (e : AclEntry) : Prop := entry_matches access_key groups e = true.

Lemma improve_foldl acl best :
  (foldl (improve access_key groups) best acl = Some ReadWrite <->
     best = Some ReadWrite \/ exists e, e ∈ acl /\ hits e /\ entry_access e = ReadWrite) /\
  (foldl (improve access_key groups) best acl = None <-> best = None /\ forall e, e ∈ acl -> ~ hits e).
Proof.
  revert best. induction acl as [|a acl IH]; intros best; cbn [foldl].
  { split; [|set_solver]. split; [auto|]. intros [?|(e & He & _)]; [done|]. set_solver. }
  destruct (IH (improve access_key groups best a)) as [-> ->]. unfold improve, hits in *. clear IH.
  destruct (entry_matches access_key groups a) eqn:Ea; (split; split).
  - intros [Hb|(e & He & Hr)]; [|right; exists e; set_solver].
    destruct best as [l|]; injection Hb as Hb; [destruct l; [|auto]|]; cbn in Hb; right; exists a; set_solver.
  - intros [->|(e & [->|He]%elem_of_cons & Hh & Hr)]; [auto| |right; eauto].
    left. destruct best as [[]|]; cbn; by rewrite ?Hr.
  - by intros [? _].
  - intros [_ H]. destruct (H a); set_solver.
  - intros [?|(e & He & Hr)]; [auto|]. right. exists e. set_solver.
  - intros [?|(e & [->|He]%elem_of_cons & Hh & Hr)]; [auto|congruence|right; eauto].
  - intros [? H]. split; [done|]. intros e [->|He]%elem_of_cons; [congruence|by apply H].
  - intros [? H]. split; [done|]. intros e He. apply H. set_solver.
Qed.

Lemma effective_rw acl :
  effective_access acl access_key groups = Some ReadWrite <-> exists e, e ∈ acl /\ hits e /\ entry_access e = ReadWrite.
Proof. unfold effective_access. rewrite (proj1 (improve_foldl acl None)). naive_solver. Qed.
Lemma effective_none acl : effective_access acl access_key groups = None <-> forall e, e ∈ acl -> ~ hits e.
Proof. unfold effective_access. rewrite (proj2 (improve_foldl acl None)). naive_solver. Qed.

Lemma effective_ext a b :
  (effective_access a access_key groups = Some ReadWrite <-> effective_access b access_key groups = Some ReadWrite) ->
  (effective_access a access_key groups = None <-> effective_access b access_key groups = None) ->
  effective_access a access_key groups = effective_access b access_key groups.
Proof. destruct (effective_access a _ _) as [[]|], (effective_access b _ _) as [[]|]; naive_solver. Qed.

(** Normalising an access list does not change what it grants. *)
Lemma normalize_effective acl :
  effective_access (normalize_acl acl) access_key groups = effective_access acl access_key groups.
Proof.
  assert (forall e e', entry_principal e = entry_principal e' -> hits e -> hits e') as Hsame
    by (unfold hits, entry_matches; intros e e' ->; done).
  apply effective_ext.
  - rewrite !effective_rw. split.
    + intros (e & He%elem_of_normalize & Hh & Hl). pose proof (merged_spec acl (principal_key (entry_principal e))) as Hs.
      rewrite He in Hs. destruct Hs as (_ & (e' & He' & Hp & Hl') & _). exists e'. split_and!; [done|by eapply Hsame|congruence].
    + intros (e & He & Hh & Hl). pose proof (merged_spec acl (principal_key (entry_principal e))) as Hs.
      destruct (merged acl !! _) as [x|] eqn:Ex; [|by destruct (Hs e He)]. destruct Hs as (Hp%principal_key_inj & _ & Hrw).
      exists x. split_and!; [apply elem_of_normalize; by rewrite Hp|by apply (Hsame e)|by apply (Hrw e)].
  - rewrite !effective_none. split.
    + intros H e He Hh. pose proof (merged_spec acl (principal_key (entry_principal e))) as Hs.
      destruct (merged acl !! _) as [x|] eqn:Ex; [|by destruct (Hs e He)]. destruct Hs as (Hp%principal_key_inj & _).
      apply (H x); [apply elem_of_normalize; by rewrite Hp|by apply (Hsame e)].
    + intros H e He%elem_of_normalize Hh. pose proof (merged_spec acl (principal_key (entry_principal e))) as Hs.
      rewrite He in Hs. destruct Hs as (_ & (e' & He' & Hp & _) & _). by apply (H e'), (Hsame e).
Qed.
End Effective.

(** ** The loop over candidate buckets *)
Section Views.
Context (access_key : string) (groups : gset string).

(** The view a bucket document gives the user, if any *)
Definition granted_view (b : BucketDoc) : option BucketView := view_of b <$> effective_access (doc_acl b) access_key groups.

Lemma collect_views_spec fetch (f : string -> option BucketDoc) ids seen out :
  (forall id, id ∈ ids -> fetch id = Ok (f id)) ->
  let views := omap (fun id => f id ≫= granted_view) ids in
  if bool_decide (NoDup (bucket_name <$> views) /\ Forall (fun v => bucket_name v ∉ seen) views)
  then collect_views fetch access_key groups ids seen out = Ok (out ++ views)%list
  else exists n, collect_views fetch access_key groups ids seen out = Err (Ambiguous access_key n).
Proof.
  revert seen out. induction ids as [|id ids IH]; intros seen out Hf; cbn [omap list_omap collect_views].
  { rewrite bool_decide_true by (split; constructor). by rewrite app_nil_r. }
  rewrite Hf by set_solver. cbn [mbind res_bind].
  assert (forall id, id ∈ ids -> fetch id = Ok (f id)) as Hf' by (intros; apply Hf; set_solver).
  destruct (f id) as [b|]; cbn [mbind option_bind]; [|by apply IH].
  unfold granted_view. destruct (effective_access (doc_acl b) access_key groups) as [l|]; cbn [fmap option_fmap option_map]; [|by apply IH].
  set (rest := omap _ ids) in *. destruct (bool_decide (doc_name b ∈ seen)) eqn:Hd; [apply bool_decide_eq_true in Hd|apply bool_decide_eq_false in Hd].
  - rewrite bool_decide_false; [by eexists|]. intros [_ [H _]%Forall_cons]. by apply H.
  - specialize (IH ({[doc_name b]} ∪ seen) (out ++ [view_of b l])%list Hf'). cbn zeta in IH.
    case_bool_decide as Hg; case_bool_decide as Hr; try done.
    + by rewrite <- app_assoc in IH.
    + destruct Hr. destruct Hg as [Hnd Hin]. rewrite list.Forall_forall in Hin. split.
      * cbn. constructor; [|done]. intros (v & Hn & Hv)%list_elem_of_fmap. cbn in Hn. apply (Hin v Hv). set_solver.
      * constructor; [done|]. apply list.Forall_forall. intros v Hv. specialize (Hin v Hv). set_solver.
    + destruct Hg. destruct Hr as [Hnd Hin]. cbn in Hnd. apply NoDup_cons in Hnd as [Hn Hnd]. split; [done|].
      apply Forall_cons in Hin as [_ Hin]. rewrite list.Forall_forall in *. intros v Hv. specialize (Hin v Hv). assert (bucket_name v <> doc_name b) by (intros E; apply Hn, list_elem_of_fmap; exists v; done). set_solver.
Qed.
End Views.

(** ** Indexes *)
Lemma push_foldl (pick : Principal -> option string) push pairs k id :
  (forall m p i, push m (p, i) = match pick p with Some k => push_id k i m | None => m end) ->
  id ∈ default [] ((sort_dedup <$> foldl push ∅ pairs) !! k) <-> exists p, pick p = Some k /\ (p, id) ∈ pairs.
Proof.
  intros Hpush.
  assert (forall m : gmap string (list string), id ∈ default [] (foldl push m pairs !! k) <->
            id ∈ default [] (m !! k) \/ exists p, pick p = Some k /\ (p, id) ∈ pairs) as H.
  { induction pairs as [|[p i] pairs IH]; intros m; cbn [foldl]; [set_solver|]. rewrite IH, Hpush. clear IH.
    destruct (pick p) as [k'|] eqn:Ep; [|set_solver]. unfold push_id.
    destruct (decide (k' = k)) as [->|Hk]; [rewrite lookup_insert_eq; cbn; set_solver|rewrite lookup_insert_ne by done; set_solver]. }
  specialize (H ∅). rewrite lookup_empty in H. rewrite lookup_fmap.
  destruct (foldl push ∅ pairs !! k) as [l|]; cbn in *; [|set_solver].
  unfold sort_dedup. rewrite elem_of_dedup, merge_sort_Permutation. set_solver.
Qed.

Lemma elem_of_index_pairs buckets p id :
  (p, id) ∈ index_pairs buckets <-> exists b e, buckets !! id = Some b /\ e ∈ doc_acl b /\ entry_principal e = p.
Proof.
  unfold index_pairs. rewrite list_elem_of_bind. split.
  - intros ([i b] & (e & [= -> ->] & He)%list_elem_of_fmap & Hb%elem_of_map_to_list). cbn in *. eauto.
  - intros (b & e & Hb & He & <-). exists (id, b). split; [|by apply elem_of_map_to_list]. apply list_elem_of_fmap. by exists e.
Qed.

Lemma load_buckets_lookup bs m m' :
  load_buckets bs m = Ok m' ->
  (forall id b, m' !! id = Some b <-> m !! id = Some b \/ exists b0, b0 ∈ bs /\ doc_id b0 = id /\ b = normalized b0) /\
  (forall b0, b0 ∈ bs -> m !! doc_id b0 = None).
Proof.
  revert m. induction bs as [|b0 bs IH]; intros m; cbn [load_buckets].
  { intros [= ->]. split; [|by intros b0 ?%not_elem_of_nil]. intros id b. split; [auto|].
    intros [?|(b0 & ?%not_elem_of_nil & _)]; done. }
  repeat (case_match; [done|]). intros [Hl Hn]%IH. split.
  - intros id b. rewrite Hl. destruct (decide (doc_id b0 = id)) as [<-|Hd].
    + rewrite lookup_insert_eq. split.
      * intros [[= <-]|(b1 & Hb1 & Hd & ->)]; [right; exists b0; set_solver|right; exists b1; set_solver].
      * intros [?|(b1 & [->|Hb1]%elem_of_cons & Hd & ->)]; [congruence|auto|].
        right. exists b1. done.
    + rewrite lookup_insert_ne by done. split; [intros [?|(b1 & Hb1 & ?)]; [auto|right; exists b1; set_solver]|].
      intros [?|(b1 & [->|Hb1]%elem_of_cons & Hd' & ->)]; [auto|done|right; by exists b1].
  - intros b1 [->|Hb1]%elem_of_cons; [done|]. specialize (Hn b1 Hb1).
    destruct (decide (doc_id b0 = doc_id b1)) as [E|E]; [rewrite E, lookup_insert_eq in Hn; done|by rewrite lookup_insert_ne in Hn].
Qed.

Lemma load_users_lookup us m m' :
  load_users us m = Ok m' -> forall k u, m' !! k = Some u -> m !! k = Some u \/ u ∈ us /\ user_access_key u = k.
Proof.
  revert m. induction us as [|u0 us IH]; intros m; cbn [load_users]; [intros [= ->]; auto|].
  repeat (case_match; [done|]). intros Hl k u Hu. destruct (IH _ Hl k u Hu) as [Hu'|Hu']; [|right; set_solver].
  destruct (decide (user_access_key u0 = k)) as [E|E]; [|rewrite lookup_insert_ne in Hu' by done; auto].
  rewrite <- E, lookup_insert_eq in Hu'. injection Hu' as ->. right. set_solver.
Qed.

(** ** What a directory answers *)

(** The views of the buckets in [docs] that grant the user something *)
Definition sees (docs : BucketDoc -> Prop) (access_key : string) (groups : gset string) (v : BucketView) : Prop :=
  exists b, docs b /\ granted_view access_key groups b = Some v.

Definition view_lt (a b : BucketView) : Prop := str_lt (bucket_name a) (bucket_name b).

(** The end of [buckets_for_access_key]: sorted by name, every name once *)
Lemma sorted_views views : NoDup (bucket_name <$> views) -> StronglySorted view_lt (merge_sort view_le views).
Proof.
  intros Hnd. assert (StronglySorted view_le (merge_sort view_le views)) as Hs.
  { apply StronglySorted_merge_sort; unfold view_le; intros ? **; [by etrans|apply str_le_total]. }
  assert (NoDup (bucket_name <$> merge_sort view_le views)) as Hnd' by (by rewrite merge_sort_Permutation).
  induction Hs as [|v l _ IH Hv]; [constructor|]. cbn in Hnd'. apply NoDup_cons in Hnd' as [Hn Hnd'].
  constructor; [by apply IH|]. rewrite list.Forall_forall in *. intros x Hx. apply str_lt_iff. split; [by apply Hv|].
  intros E. apply Hn. rewrite E. apply list_elem_of_fmap. by exists x.
Qed.

Lemma repeated_pair {A B} (f : A -> option B) (g : B -> string) (l : list A) :
  NoDup l -> ~ NoDup (g <$> omap f l) ->
  exists x y a b, x ∈ l /\ y ∈ l /\ x <> y /\ f x = Some a /\ f y = Some b /\ g a = g b.
Proof.
  induction l as [|x l IH]; intros Hl Hd; [destruct Hd; constructor|]. apply NoDup_cons in Hl as [Hx Hl].
  assert (~ NoDup (g <$> omap f l) -> exists x0 y a b, x0 ∈ x :: l /\ y ∈ x :: l /\ x0 <> y /\ f x0 = Some a /\ f y = Some b /\ g a = g b) as Hrec.
  { intros H. destruct (IH Hl H) as (x1 & y & a & b & ? & ? & ?). exists x1, y, a, b. set_solver. }
  cbn in Hd. destruct (f x) as [a|] eqn:Ea; [|by apply Hrec]. cbn in Hd.
  destruct (decide (g a ∈ g <$> omap f l)) as [Hin|Hin].
  - apply list_elem_of_fmap in Hin as (b & Hg & (y & Hy & Hfy)%list_elem_of_omap). exists x, y, a, b.
    split_and!; [set_solver..| |done|done|done]. by intros ->.
  - apply Hrec. intros H. apply Hd. by constructor.
Qed.

(** The loop of [buckets_for_access_key] over candidates that cover the
    buckets [docs]: it answers with what the user sees, or refuses two buckets
    of one name. *)
Definition ambiguous (docs : BucketDoc -> Prop) (ak : string) (groups : gset string) (e : dir_error) : Prop :=
  exists n b1 b2, e = Ambiguous ak n /\ docs b1 /\ docs b2 /\ doc_id b1 <> doc_id b2 /\
    doc_name b1 = doc_name b2 /\ is_Some (granted_view ak groups b1) /\ is_Some (granted_view ak groups b2).

Lemma view_name ak gs b v : granted_view ak gs b = Some v -> bucket_name v = doc_name b.
Proof. unfold granted_view. destruct (effective_access _ _ _); [|done]. by intros [= <-]. Qed.

Lemma collect_views_exact ak gs fetch (f : string -> option BucketDoc) ids (docs : BucketDoc -> Prop) :
  NoDup ids -> (forall id, id ∈ ids -> fetch id = Ok (f id)) ->
  (forall id b v, id ∈ ids -> f id = Some b -> granted_view ak gs b = Some v ->
     exists b0, docs b0 /\ doc_id b0 = id /\ granted_view ak gs b0 = Some v) ->
  (forall b0 v, docs b0 -> granted_view ak gs b0 = Some v -> exists id b, id ∈ ids /\ f id = Some b /\ granted_view ak gs b = Some v) ->
  match collect_views fetch ak gs ids ∅ [] with
  | Ok out => StronglySorted view_lt (merge_sort view_le out) /\ forall v, v ∈ merge_sort view_le out <-> sees docs ak gs v
  | Err e => ambiguous docs ak gs e
  | Panics => False
  end.
Proof.
  intros Hnd Hf Hsound Hcomplete.
  pose proof (collect_views_spec ak gs fetch f ids ∅ [] Hf) as Hc. cbn zeta in Hc. set (views := omap _ _) in Hc.
  case_bool_decide as Hd.
  - rewrite Hc. cbn [app]. split; [apply sorted_views, Hd|]. intros v. rewrite merge_sort_Permutation. unfold views.
    rewrite list_elem_of_omap. split.
    + intros (id & Hid & Hv). destruct (f id) as [b|] eqn:Eb; [|done]. destruct (Hsound id b v Hid Eb Hv) as (b0 & ? & _ & ?). by exists b0.
    + intros (b0 & Hb0 & Hv). destruct (Hcomplete b0 v Hb0 Hv) as (id & b & Hid & Eb & Hv'). exists id. by rewrite Eb.
  - destruct Hc as [n ->]. destruct (repeated_pair (fun id => f id ≫= granted_view ak gs) bucket_name ids)
      as (i & j & a & b & Hi & Hj & Hij & Ha & Hb & Hn); [done| |].
    { intros Hok. apply Hd. split; [done|]. apply list.Forall_forall. set_solver. }
    destruct (f i) as [bi|] eqn:Ei; [|done]. destruct (f j) as [bj|] eqn:Ej; [|done]. cbn [mbind option_bind] in Ha, Hb.
    destruct (Hsound i bi a Hi Ei Ha) as (b1 & H1 & <- & V1). destruct (Hsound j bj b Hj Ej Hb) as (b2 & H2 & <- & V2).
    exists n, b1, b2. rewrite <- (view_name _ _ _ _ V1), <- (view_name _ _ _ _ V2), V1, V2. split_and!; eauto.
Qed.

Section YamlProofs.
Context {N : Nss}.

(** The candidates of the indexes are complete: a bucket that grants the user
    something is indexed under a principal that is the user or a group. *)
Lemma yaml_ids_complete doc d ak gs id b :
  from_doc doc = Ok d -> yd_buckets d !! id = Some b -> is_Some (effective_access (doc_acl b) ak gs) ->
  id ∈ indexed_ids (index_access_key d !! ak) (fun g => index_group d !! g) gs.
Proof.
  unfold from_doc. intros (_ & _ & (us & _ & (bs & _ & [= <-])%bind_ok_inv)%bind_ok_inv)%bind_ok_inv. cbn. intros Hb Ha.
  destruct (decide (Exists (fun e => entry_matches ak gs e = true) (doc_acl b))) as [He|He].
  2: { exfalso. apply is_Some_alt in Ha. rewrite (proj2 (effective_none ak gs (doc_acl b))) in Ha; [done|].
       intros e Hin Hh. apply He, list.Exists_exists. by exists e. }
  apply list.Exists_exists in He as (e & He & Hm). unfold indexed_ids, entry_matches in *. rewrite elem_of_union, !elem_of_list_to_set.
  destruct (entry_principal e) as [k|n] eqn:Ep.
  - left. apply String.eqb_eq in Hm as ->. apply (push_foldl (fun p => match p with AccessKey k => Some k | _ => None end)).
    { by intros m [] i. }
    exists (AccessKey ak). split; [done|]. apply elem_of_index_pairs. by exists b, e.
  - right. apply bool_decide_eq_true in Hm. apply list_elem_of_bind. exists n. split; [|by apply elem_of_elements].
    apply (push_foldl (fun p => match p with GroupName n => Some n | _ => None end)).
    { by intros m [] i. }
    exists (GroupName n). split; [done|]. apply elem_of_index_pairs. by exists b, e.
Qed.

Lemma normalized_view ak gs b : granted_view ak gs (normalized b) = granted_view ak gs b.
Proof.
  unfold granted_view. change (doc_acl (normalized b)) with (normalize_acl (doc_acl b)). rewrite normalize_effective.
  by destruct (effective_access _ _ _).
Qed.

Lemma from_doc_buckets doc d :
  from_doc doc = Ok d ->
  forall id b, yd_buckets d !! id = Some b <-> exists b0, b0 ∈ file_buckets doc /\ doc_id b0 = id /\ b = normalized b0.
Proof.
  unfold from_doc. intros (_ & _ & (us & _ & (bs & Hbs & [= <-])%bind_ok_inv)%bind_ok_inv)%bind_ok_inv. cbn.
  intros id b. rewrite (proj1 (load_buckets_lookup _ _ _ Hbs)), lookup_empty. naive_solver.
Qed.

Lemma yaml_buckets_spec (doc : DirectoryFileV1) (d : YamlDirectory) (ak : string) (u : UserDoc) (gs : list string) :
  from_doc doc = Ok d -> user_by_access_key d ak = Ok (Some u) ->
  groups_for_user (user_username u) (user_gid u) = Ok gs ->
  match buckets_for_access_key d ak with
  | Ok views => StronglySorted view_lt views /\
      forall v, v ∈ views <-> sees (fun b => b ∈ file_buckets doc) ak (list_to_set gs) v
  | Err e => ambiguous (fun b => b ∈ file_buckets doc) ak (list_to_set gs) e
  | Panics => False
  end.
Proof.
  intros Hd Hu Hg. cbn [user_by_access_key yaml_directory] in Hu. unfold yaml_user_by_access_key in Hu. injection Hu as Hu.
  cbn [buckets_for_access_key yaml_directory]. unfold yaml_buckets_for_access_key. rewrite Hu, Hg. cbn [mbind res_bind]. set (grp := list_to_set gs : gset string).
  pose proof (yaml_ids_complete doc d ak grp) as Hids. set (ids := indexed_ids _ _ _) in *.
  pose proof (from_doc_buckets doc d Hd) as Hlook.
  pose proof (collect_views_exact ak grp (fun id => Ok (yd_buckets d !! id)) (fun id => yd_buckets d !! id)
                (hash_order (elements ids)) (fun b => b ∈ file_buckets doc)) as Hc.
  destruct (collect_views _ _ _ _ _ _); apply Hc; try done; clear Hc.
  all: try (rewrite hash_order_perm; apply NoDup_elements).
  all: try (intros id b v _ (b0 & Hb0 & Hid & ->)%Hlook; rewrite normalized_view; by exists b0).
  all: intros b0 v Hb0 Hv; assert (yd_buckets d !! doc_id b0 = Some (normalized b0)) as Hb by (apply Hlook; by exists b0).
  all: exists (doc_id b0), (normalized b0); rewrite normalized_view, hash_order_perm, elem_of_elements; split_and!; [|done|done].
  all: eapply Hids; [done|exact Hb|]; rewrite <- normalized_view in Hv; unfold granted_view in Hv.
  all: destruct (effective_access _ _ _); [by eexists|done].
Qed.

(** The YAML directory answers what the file says.  For a user of the
    file, [buckets_for_access_key] lists, sorted and each name once, exactly
    the buckets of the file whose access list grants the user or one of his
    groups something, each with the highest level granted; and the only
    refusal is the one for two such buckets with the same name. *)
Theorem yaml_buckets_exact (doc : DirectoryFileV1) (d : YamlDirectory) (ak : string) (u : UserDoc) (gs : list string) :
  from_doc doc = Ok d -> user_by_access_key d ak = Ok (Some u) ->
  groups_for_user (user_username u) (user_gid u) = Ok gs ->
  match buckets_for_access_key d ak with
  | Ok views => StronglySorted view_lt views /\
      forall v, v ∈ views <-> sees (fun b => b ∈ file_buckets doc) ak (list_to_set gs) v
  | Err e => ambiguous (fun b => b ∈ file_buckets doc) ak (list_to_set gs) e
  | Panics => False
  end.
Proof. by apply yaml_buckets_spec. Qed.
End YamlProofs.

(** ** A directory file

    Two buckets, one granted by key and by group, one by group only. *)
Definition demo_nss : Nss := {|
  group_count := fun _ _ => 2%Z; group_list := fun _ _ _ => Some [100; 200]%Z;
  group_name_from_gid := fun g => if (g =? 100)%Z then Some "users" else if (g =? 200)%Z then Some "lab" else None;
  hash_order := fun l => l; hash_order_perm := fun l => Permutation_refl l |}.

Definition demo_user : UserDoc :=
  {| user_access_key := "AK1"; user_secret_key := "s"; user_username := "alice"; user_uid := 1000%Z; user_gid := 100%Z |}.
Definition demo_doc : DirectoryFileV1 := {|
  file_version := 1%Z; file_users := [demo_user];
  file_buckets :=
    [{| doc_id := "2"; doc_name := "shared"; doc_data_path := "/d/shared";
        doc_acl := [{| entry_principal := GroupName "lab"; entry_access := ReadOnly |}] |};
     {| doc_id := "1"; doc_name := "home"; doc_data_path := "/d/home";
        doc_acl := [{| entry_principal := GroupName "users"; entry_access := ReadOnly |};
                    {| entry_principal := AccessKey "AK1"; entry_access := ReadWrite |}] |};
     {| doc_id := "3"; doc_name := "secret"; doc_data_path := "/d/secret";
        doc_acl := [{| entry_principal := AccessKey "AK2"; entry_access := ReadWrite |}] |}] |}.
Definition demo_yaml : YamlDirectory :=
  match from_doc demo_doc with Ok d => d | _ => {| yd_users := ∅; yd_buckets := ∅; index_access_key := ∅; index_group := ∅ |} end.
Definition alice_views : list BucketView :=
  [{| bucket_id := "1"; bucket_name := "home"; data_path := "/d/home"; access := ReadWrite |};
   {| bucket_id := "2"; bucket_name := "shared"; data_path := "/d/shared"; access := ReadOnly |}].

Lemma yaml_buckets_exact_witness :
  buckets_for_access_key (Directory := @yaml_directory demo_nss) demo_yaml "AK1" = Ok alice_views /\
  StronglySorted view_lt alice_views /\
  forall v, v ∈ alice_views <-> sees (fun b => b ∈ file_buckets demo_doc) "AK1" (list_to_set ["lab"; "users"]) v.
Proof.
  assert (buckets_for_access_key (Directory := @yaml_directory demo_nss) demo_yaml "AK1" = Ok alice_views) as E by (vm_compute; reflexivity).
  split; [exact E|].
  pose proof (@yaml_buckets_exact demo_nss demo_doc demo_yaml "AK1" demo_user ["lab"; "users"]
                ltac:(vm_compute; reflexivity) ltac:(vm_compute; reflexivity) ltac:(vm_compute; reflexivity)) as H.
  rewrite E in H. exact H.
Defined.
