(* ===== verification/DirectoryCache.v ===== *)
(** * s32p-directory/src/cache.rs: the caching directory

    [CachingDirectory] keeps two maps of the same shape, for users and for
    bucket lists: answers with an expiry, and a flight slot per key that lets
    one caller at a time go to the backend.  The model is one such map, over
    the type of its answers and their time to live.  A step of the machine is
    one critical section of the maps, one acquisition of a flight lock, or the
    backend's answer. *)

From Stdlib Require Import ZArith Lia.
From stdpp Require Import base list strings numbers option gmap fin_maps fin_map_dom fin_sets.
From S2P Require Import Prelude Directory.

Local Open Scope Z_scope.

Record Entry (V : Type) := { value : V; expires_at : Z }.
Arguments value {V} _.
Arguments expires_at {V} _.

Section Cache.
Context {V : Type} (ttl : V -> Z) (cap : nat).
Abbreviation cache := (gmap string (Entry V)).

(** [read_fresh] *)
Definition read_fresh (now : Z) (m : cache) (key : string) : option V :=
  match m !! key with
  | Some e => if now <? expires_at e then Some (value e) else None
  | None => None
  end.

(** [insert_with_cap]; the entry with the soonest expiry is the victim. *)
Definition soonest (m : cache) : option string :=
  fst <$> foldr (fun ke best =>
    match best with
    | Some kb => if expires_at (snd kb) <? expires_at (snd ke) then Some kb else Some ke
    | None => Some ke
    end) None (map_to_list m).
Definition prune (now : Z) (m : cache) : cache := filter (fun ke => now < expires_at ke.2) m.
Definition make_room (now : Z) (m : cache) : cache :=
  if (cap <=? size m)%nat then
    let m := prune now m in
    if (cap <=? size m)%nat then match soonest m with Some victim => delete victim m | None => m end else m
  else m.
Definition insert_with_cap (now : Z) (key : string) (v : V) (m : cache) : cache :=
  <[key := {| value := v; expires_at := now + ttl v |}]> (make_room now m).

(** ** A lookup

    The places of [user_by_access_key] and [buckets_for_access_key]; [slot] is
    the flight slot a task holds a reference to, and [since] the time at which
    the backend answered. *)
Inductive lookup_task :=
| Asks (key : string)
| Joins (key : string)
| Queues (key : string) (slot : nat)
| Checks (key : string) (slot : nat)
| Fetches (key : string) (slot : nat)
| Answered (key : string) (slot : nat) (r : res dir_error V) (since : Z)
| Leaves (key : string) (slot : nat) (r : res dir_error V)
| Releases (key : string) (r : res dir_error V)
| Returned (key : string) (r : res dir_error V).

(** The maps, the tasks and the clock; and what happened so far: the
    backend's successful answers with their times, and the answers put into
    the map, each with the time of the answer and the time it was put there. *)
Record cache_state := {
  entries : cache;
  flights : gmap string nat;
  lookups : gmap nat lookup_task;
  clock : Z;
  next_slot : nat;
  answers : list (string * V * Z);
  kept : list (string * V * Z * Z);
}.

(** The slot whose reference a task holds, and whether it holds its lock *)
Definition holds (t : lookup_task) : option (string * nat) :=
  match t with
  | Queues k s | Checks k s | Fetches k s | Answered k s _ _ | Leaves k s _ => Some (k, s)
  | _ => None
  end.
Definition locks (t : lookup_task) : option nat :=
  match t with Checks _ s | Fetches _ s | Answered _ s _ _ | Leaves _ s _ => Some s | _ => None end.

Definition set_lookup (t : nat) (x : lookup_task) (s : cache_state) : cache_state :=
  {| entries := entries s; flights := flights s; lookups := <[t := x]> (lookups s); clock := clock s; next_slot := next_slot s; answers := answers s; kept := kept s |}.
Definition keep_answer (now : Z) (k : string) (v : V) (since : Z) (s : cache_state) : cache_state :=
  {| entries := insert_with_cap now k v (entries s); flights := flights s; lookups := lookups s; clock := clock s; next_slot := next_slot s;
     answers := answers s; kept := (k, v, since, clock s) :: kept s |}.
Definition set_flights (m : gmap string nat) (n : nat) (s : cache_state) : cache_state :=
  {| entries := entries s; flights := m; lookups := lookups s; clock := clock s; next_slot := n; answers := answers s; kept := kept s |}.

(** [acquire_flight_slot] and [release_flight_slot]: the strong count of a
    slot is one when no task holds it. *)
Definition acquire_flight_slot (k : string) (s : cache_state) : nat * cache_state :=
  match flights s !! k with
  | Some slot => (slot, s)
  | None => (next_slot s, set_flights (<[k := next_slot s]> (flights s)) (S (next_slot s)) s)
  end.
Definition unreferenced (slot : nat) (ts : gmap nat lookup_task) : bool :=
  bool_decide (map_Forall (fun _ x => snd <$> holds x <> Some slot) ts).
Definition release_flight_slot (k : string) (s : cache_state) : cache_state :=
  match flights s !! k with
  | Some slot => if unreferenced slot (lookups s) then set_flights (delete k (flights s)) (next_slot s) s else s
  | None => s
  end.

(** What a task does next on its own *)
Definition next_place (t : nat) (s : cache_state) : option cache_state :=
  x ← lookups s !! t;
  match x with
  | Asks k =>
      match read_fresh (clock s) (entries s) k with
      | Some v => Some (set_lookup t (Returned k (Ok v)) s)
      | None => Some (set_lookup t (Joins k) s)
      end
  | Joins k => let r := acquire_flight_slot k s in Some (set_lookup t (Queues k (fst r)) (snd r))
  | Checks k slot =>
      match read_fresh (clock s) (entries s) k with
      | Some v => Some (set_lookup t (Leaves k slot (Ok v)) s)
      | None => Some (set_lookup t (Fetches k slot) s)
      end
  | Answered k slot r since =>
      match r with
      | Ok v => Some (set_lookup t (Leaves k slot r) (keep_answer (clock s) k v since s))
      | _ => Some (set_lookup t (Leaves k slot r) s)
      end
  | Leaves k slot r => Some (set_lookup t (Releases k r) s)
  | Releases k r => Some (set_lookup t (Returned k r) (release_flight_slot k s))
  | Queues _ _ | Fetches _ _ | Returned _ _ => None
  end.

Definition record_answer (k : string) (r : res dir_error V) (s : cache_state) : cache_state :=
  {| entries := entries s; flights := flights s; lookups := lookups s; clock := clock s; next_slot := next_slot s;
     answers := match r with Ok v => (k, v, clock s) :: answers s | _ => answers s end; kept := kept s |}.

Inductive cache_step : cache_state -> cache_state -> Prop :=
| Arrives s t k : lookups s !! t = None -> cache_step s (set_lookup t (Asks k) s)
| Proceeds s t s' : next_place t s = Some s' -> cache_step s s'
| Locks s t k slot : lookups s !! t = Some (Queues k slot) ->
    (forall t' x, lookups s !! t' = Some x -> locks x <> Some slot) -> cache_step s (set_lookup t (Checks k slot) s)
| Answers s t k slot r : lookups s !! t = Some (Fetches k slot) -> r <> Panics ->
    cache_step s (set_lookup t (Answered k slot r (clock s)) (record_answer k r s))
| Ticks s n : clock s <= n ->
    cache_step s {| entries := entries s; flights := flights s; lookups := lookups s; clock := n; next_slot := next_slot s; answers := answers s; kept := kept s |}.

Definition cold_cache : cache_state := {| entries := ∅; flights := ∅; lookups := ∅; clock := 0; next_slot := 0; answers := []; kept := [] |}.

(** ** Room *)
Lemma soonest_in m k : soonest m = Some k -> is_Some (m !! k).
Proof.
  unfold soonest. set (f := fun _ _ => _).
  assert (forall l ke, foldr f None l = Some ke -> ke ∈ l) as H.
  { induction l as [|x l IH]; cbn; [done|]. intros ke. unfold f at 1. destruct (foldr f None l) as [kb|]; [|intros [= <-]; left].
    destruct (_ <? _); intros [= <-]; [right; auto|left]. }
  destruct (foldr f None (map_to_list m)) as [[k' e]|] eqn:E; [|done]. intros [= <-]. apply H, elem_of_map_to_list in E. eauto.
Qed.

Lemma soonest_some m : m <> ∅ -> is_Some (soonest m).
Proof.
  intros Hm. unfold soonest. destruct (map_to_list m) as [|x l] eqn:E; [by apply map_to_list_empty_iff in E|]. cbn.
  destruct (foldr _ None l) as [kb|]; [|by eexists]. destruct (_ <? _); by eexists.
Qed.

Lemma prune_sub now m : prune now m ⊆ m.
Proof. apply map_filter_subseteq. Qed.

Lemma make_room_size now m : (size m <= Nat.max 1 cap)%nat -> (size (make_room now m) < Nat.max 1 cap)%nat \/ cap = 0%nat /\ make_room now m = ∅.
Proof.
  intros Hs. unfold make_room. destruct (Nat.leb_spec cap (size m)); [|left; lia].
  pose proof (map_subseteq_size _ _ (prune_sub now m)) as Hp. cbn zeta. destruct (Nat.leb_spec cap (size (prune now m))); [|left; lia].
  destruct (decide (prune now m = ∅)) as [He|He].
  - rewrite He. cbn. destruct cap; [by right|]. rewrite He, map_size_empty in *. lia.
  - destruct (soonest_some _ He) as [k Hk]. rewrite Hk. left. pose proof (soonest_in _ _ Hk) as [e Hl].
    rewrite map_size_delete, Hl. cbn. destruct (size (prune now m)) eqn:Ez; [|lia].
    apply map_size_empty_iff in Ez. done.
Qed.

Lemma make_room_sub now m : make_room now m ⊆ m.
Proof.
  unfold make_room. case_match; [|done]. cbn zeta. case_match; [|apply prune_sub].
  destruct (soonest _); [|apply prune_sub]. etrans; [apply delete_subseteq|apply prune_sub].
Qed.

Lemma insert_size now k v m : (size m <= Nat.max 1 cap)%nat -> (size (insert_with_cap now k v m) <= Nat.max 1 cap)%nat.
Proof.
  intros Hs. unfold insert_with_cap. rewrite map_size_insert.
  destruct (make_room_size now m Hs) as [H|[-> H]]; destruct (make_room now m !! k); cbn; try lia; rewrite H, map_size_empty; lia.
Qed.

(** ** The machine *)
Record cache_ok (s : cache_state) : Prop := {
  slot_shared : forall t x k slot, lookups s !! t = Some x -> holds x = Some (k, slot) -> flights s !! k = Some slot;
  one_lock : forall t t' x x' slot, lookups s !! t = Some x -> lookups s !! t' = Some x' -> locks x = Some slot -> locks x' = Some slot -> t = t';
  slots_old : forall k slot, flights s !! k = Some slot -> (slot < next_slot s)%nat;
  slots_own : forall k k' slot, flights s !! k = Some slot -> flights s !! k' = Some slot -> k = k';
  fresh_answer : forall k e, entries s !! k = Some e -> exists t t_in, (k, value e, t) ∈ answers s /\ (k, value e, t, t_in) ∈ kept s /\ t <= t_in <= clock s /\
    expires_at e = t_in + ttl (value e);
  size_ok : (size (entries s) <= Nat.max 1 cap)%nat;
  past_answers : forall k v t, (k, v, t) ∈ answers s -> t <= clock s;
  pending_answer : forall t k slot v since, lookups s !! t = Some (Answered k slot (Ok v) since) -> (k, v, since) ∈ answers s;
}.

Lemma ok_lookup s t x :
  cache_ok s -> (forall k slot, holds x = Some (k, slot) -> flights s !! k = Some slot) ->
  (forall slot, locks x = Some slot -> (exists y, lookups s !! t = Some y /\ locks y = Some slot) \/
     forall t' y, lookups s !! t' = Some y -> locks y <> Some slot) ->
  (forall k slot v since, x = Answered k slot (Ok v) since -> (k, v, since) ∈ answers s) -> cache_ok (set_lookup t x s).
Proof.
  intros [H1 H2 H3 H4 H5 H6 H7 H8] Hh Hl Ha. split; cbn; auto.
  - intros t' x' k slot [[<- <-]|[_ Ht]]%lookup_insert_Some; eauto.
  - intros t1 t2 x1 x2 slot [[<- <-]|[Hn1 Ht1]]%lookup_insert_Some [[<- <-]|[Hn2 Ht2]]%lookup_insert_Some L1 L2; [done| | |eauto].
    + destruct (Hl slot L1) as [(y & Hy & Ly)|Hno]; [eauto|]. by destruct (Hno t2 x2).
    + destruct (Hl slot L2) as [(y & Hy & Ly)|Hno]; [eauto|]. by destruct (Hno t1 x1).
  - intros t' k slot v since [[<- ->]|[_ Ht]]%lookup_insert_Some; eauto.
Qed.

Lemma unreferenced_spec slot ts : unreferenced slot ts = true -> forall t x k, ts !! t = Some x -> holds x <> Some (k, slot).
Proof. unfold unreferenced. rewrite bool_decide_eq_true. intros H t x k Ht Hh. apply (H t x Ht). by rewrite Hh. Qed.

Lemma ok_release s k : cache_ok s -> cache_ok (release_flight_slot k s).
Proof.
  intros Hok. pose proof Hok as [H1 H2 H3 H4 H5 H6 H7 H8]. unfold release_flight_slot.
  destruct (flights s !! k) as [slot|] eqn:Ek; [|done]. destruct (unreferenced slot (lookups s)) eqn:Eu; [|done]. split; cbn; auto.
  - intros t x k' slot' Ht Hh. rewrite lookup_delete_ne; [eauto|]. intros <-. apply (unreferenced_spec _ _ Eu t x k Ht).
    rewrite Hh. f_equal. f_equal. specialize (H1 _ _ _ _ Ht Hh). congruence.
  - intros k' slot' [_ Hk]%lookup_delete_Some. eauto.
  - intros k1 k2 slot' [_ Hk1]%lookup_delete_Some [_ Hk2]%lookup_delete_Some. eauto.
Qed.

Lemma ok_acquire s k : cache_ok s -> cache_ok (snd (acquire_flight_slot k s)) /\ flights (snd (acquire_flight_slot k s)) !! k = Some (fst (acquire_flight_slot k s)) /\
  lookups (snd (acquire_flight_slot k s)) = lookups s.
Proof.
  intros Hok. pose proof Hok as [H1 H2 H3 H4 H5 H6 H7 H8]. unfold acquire_flight_slot. destruct (flights s !! k) as [slot|] eqn:Ek; [done|].
  cbn. split; [|split; [apply lookup_insert_eq|done]]. split; cbn; auto.
  - intros t x k' slot Ht Hh. rewrite lookup_insert_ne; [eauto|]. intros <-. specialize (H1 _ _ _ _ Ht Hh). congruence.
  - intros k' slot [[<- <-]|[_ Hk]]%lookup_insert_Some; [lia|]. specialize (H3 _ _ Hk). lia.
  - intros k1 k2 slot [[<- <-]|[_ Hk1]]%lookup_insert_Some [[<- E]|[_ Hk2]]%lookup_insert_Some; try done; [| |eauto];
      [specialize (H3 _ _ Hk2)|subst; specialize (H3 _ _ Hk1)]; lia.
Qed.

Lemma ok_insert s k v t0 : cache_ok s -> (k, v, t0) ∈ answers s -> cache_ok (keep_answer (clock s) k v t0 s).
Proof.
  intros [H1 H2 H3 H4 H5 H6 H7 H8] Ha. split; cbn; auto; [|by apply insert_size].
  intros k' e He. unfold insert_with_cap in He. apply lookup_insert_Some in He as [[<- <-]|[_ Hk]].
  - exists t0, (clock s). split_and!; [done|by left|by eapply H7|done|done].
  - destruct (H5 k' e) as (t1 & t2 & ? & ? & ?); [by eapply lookup_weaken, make_room_sub|]. exists t1, t2. split; [done|]. split; [by right|done].
Qed.

Lemma next_place_ok t s s' : cache_ok s -> next_place t s = Some s' -> cache_ok s'.
Proof.
  intros Hok Hn. unfold next_place in Hn. destruct (lookups s !! t) as [x|] eqn:Ht; [|done]. cbn [mbind option_bind] in Hn.
  pose proof Hok as [H1 H2 H3 H4 H5 H6 H7 H8].
  destruct x as [k|k|k slot|k slot|k slot|k slot r since|k slot r|k r|k r]; try discriminate Hn.
  - destruct (read_fresh _ _ _); injection Hn as <-; by apply ok_lookup.
  - injection Hn as <-. destruct (ok_acquire s k Hok) as (Ha & Hf & Hl). apply ok_lookup; try done. by intros k' slot [= <- <-].
  - assert (flights s !! k = Some slot) as Hfl by (by eapply H1). destruct (read_fresh _ _ _); injection Hn as <-;
      (apply ok_lookup; try done; [by intros k' n' [= <- <-]|intros n' [= <-]; left; by eexists]).
  - assert (flights s !! k = Some slot) as Hfl by (by eapply H1).
    assert (forall s1, cache_ok s1 -> lookups s1 = lookups s -> flights s1 = flights s -> cache_ok (set_lookup t (Leaves k slot r) s1)) as Hgo.
    { intros s1 Hok1 El Ef. apply ok_lookup; try done; [intros k' n' [= <- <-]; by rewrite Ef|intros n' [= <-]; left; rewrite El; by eexists]. }
    destruct r as [v|e|]; injection Hn as <-; [|by apply Hgo..]. apply Hgo; [|done|done]. apply ok_insert; [done|by eapply H8].
  - injection Hn as <-. by apply ok_lookup.
  - injection Hn as <-. apply ok_lookup; try done. by apply ok_release.
Qed.

Lemma cache_step_ok s s' : cache_ok s -> cache_step s s' -> cache_ok s'.
Proof.
  intros Hok Hs. pose proof Hok as [H1 H2 H3 H4 H5 H6 H7 H8].
  destruct Hs as [s t k Ht|s t s' Hn|s t k slot Ht Hfree|s t k slot r Ht Hr|s n Hn].
  - by apply ok_lookup.
  - by eapply next_place_ok.
  - apply ok_lookup; try done; [intros k' n' [= <- <-]; by eapply H1|]. intros n' [= <-]. by right.
  - assert (cache_ok (record_answer k r s)) as Hrec.
    { split; cbn; auto.
      - intros k' e Hk. destruct (H5 k' e Hk) as (t0 & t1 & Hin & Hrest). exists t0, t1. split; [|done]. destruct r; [by right|done..].
      - intros k' v t0 Hin. destruct r as [v0|e|]; [|eauto..]. apply elem_of_cons in Hin as [[= -> -> ->]|Hin]; [done|eauto].
      - intros t' k' n' v since Ht'. pose proof (H8 _ _ _ _ _ Ht') as Hin. destruct r; [by right|done..]. }
    apply ok_lookup; try done; [intros k' n' [= <- <-]; by eapply H1|intros n' [= <-]; left; by eexists|].
    intros k' n' v since [= <- <- -> <-]. left.
  - split; cbn; auto.
    + intros k e Hk. destruct (H5 k e Hk) as (t0 & t1 & Hin & Hkp & Hb & He). exists t0, t1. split_and!; [done|done|lia|lia|done].
    + intros k v t0 Hin. specialize (H7 _ _ _ Hin). lia.
Qed.

Lemma cold_cache_ok : cache_ok cold_cache.
Proof. split; cbn; intros; try (by rewrite lookup_empty in *); try (by apply not_elem_of_nil in H); try done. rewrite map_size_empty. lia. Qed.

Lemma reachable_cache_ok s : rtc cache_step cold_cache s -> cache_ok s.
Proof.
  intros Hs. pose proof cold_cache_ok as Hok. revert Hok. induction Hs as [|s s1 s2 Hst _ IH]; intros Hok; [done|]. by eapply IH, cache_step_ok.
Qed.

(** C38. The cache asks once and forgets in time.  Under every interleaving of
    lookups, at most one caller per key is at the backend; an answer given from
    the cache was a successful answer of the backend for this key (errors are
    never kept) that was put into the map at some time [t_in] after the time
    [t] of the answer, less than its time to live ago, so that its age is
    below the time to live and what the caller took to store it; and a map
    never holds more than its cap (one entry when the cap is zero). *)
Theorem cache_single_flight (s : cache_state) :
  rtc cache_step cold_cache s ->
  (forall t t' k slot slot', lookups s !! t = Some (Fetches k slot) -> lookups s !! t' = Some (Fetches k slot') -> t = t') /\
  (forall k v, read_fresh (clock s) (entries s) k = Some v ->
     exists t t_in, (k, v, t) ∈ answers s /\ (k, v, t, t_in) ∈ kept s /\ t <= t_in <= clock s /\ clock s < t_in + ttl v) /\
  (size (entries s) <= Nat.max 1 cap)%nat.
Proof.
  intros [H1 H2 H3 H4 H5 H6 H7 H8]%reachable_cache_ok. split_and!; [| |done].
  - intros t t' k slot slot' Ht Ht'. assert (slot = slot') as <-.
    { pose proof (H1 _ _ k slot Ht eq_refl). pose proof (H1 _ _ k slot' Ht' eq_refl). congruence. }
    by eapply H2.
  - intros k v Hr. unfold read_fresh in Hr. destruct (entries s !! k) as [e|] eqn:Ek; [|done].
    destruct (Z.ltb_spec (clock s) (expires_at e)); [|done]. injection Hr as <-.
    destruct (H5 k e Ek) as (t & t_in & Hin & Hkp & Hb & He). exists t, t_in. split_and!; [done|done|lia|lia|lia].
Qed.
End Cache.

(** The two maps of [CachingDirectory] *)
Record CacheConfig := { user_ttl : Z; buckets_ttl : Z; negative_ttl : Z; max_entries : nat }.
Definition users_ttl (cfg : CacheConfig) (u : option UserDoc) : Z := match u with Some _ => user_ttl cfg | None => negative_ttl cfg end.
Definition views_ttl (cfg : CacheConfig) (_ : list BucketView) : Z := buckets_ttl cfg.

(** Two lookups of an unknown key: the second is served from the cache for
    the negative time to live, and not after it. *)
Definition quick_cfg : CacheConfig := {| user_ttl := 30; buckets_ttl := 30; negative_ttl := 5; max_entries := 2 |}.

Inductive cache_move := Arrive (t : nat) (k : string) | Go (t : nat) | Lock (t : nat) | Answer (t : nat) (u : option UserDoc) | Tick (n : Z).
Abbreviation quick_state := (cache_state (V := option UserDoc)).
Definition play_cache (m : cache_move) (s : quick_state) : option quick_state :=
  match m with
  | Arrive t k => match lookups s !! t with None => Some (set_lookup t (Asks k) s) | Some _ => None end
  | Go t => next_place (users_ttl quick_cfg) 2 t s
  | Lock t =>
      match lookups s !! t with
      | Some (Queues k slot) => if decide (map_Forall (fun _ x => locks x <> Some slot) (lookups s)) then Some (set_lookup t (Checks k slot) s) else None
      | _ => None
      end
  | Answer t u => match lookups s !! t with Some (Fetches k slot) => Some (set_lookup t (Answered k slot (Ok u) (clock s)) (record_answer k (Ok u) s)) | _ => None end
  | Tick n => if clock s <=? n then Some {| entries := entries s; flights := flights s; lookups := lookups s; clock := n; next_slot := next_slot s; answers := answers s; kept := kept s |} else None
  end.
Definition run_cache (ms : list cache_move) : option quick_state := foldl (fun o m => s ← o; play_cache m s) (Some cold_cache) ms.

Lemma play_cache_step m s s' : play_cache m s = Some s' -> cache_step (users_ttl quick_cfg) 2 s s'.
Proof.
  destruct m as [t k|t|t|t u|n]; cbn [play_cache].
  - destruct (lookups s !! t) eqn:E; [done|]. intros [= <-]. by apply Arrives.
  - apply Proceeds.
  - destruct (lookups s !! t) as [[]|] eqn:E; try done. case_decide as Hf; [|done]. intros [= <-]. by apply Locks.
  - destruct (lookups s !! t) as [[]|] eqn:E; try done. intros [= <-]. by apply (Answers _ _ s t _ _ (Ok u)).
  - destruct (Z.leb_spec (clock s) n); [|done]. intros [= <-]. by apply Ticks.
Qed.

Lemma run_cache_reaches ms s : run_cache ms = Some s -> rtc (cache_step (users_ttl quick_cfg) 2) cold_cache s.
Proof.
  unfold run_cache. assert (forall s0, foldl (fun o m => s ← o; play_cache m s) (Some s0) ms = Some s -> rtc (cache_step (users_ttl quick_cfg) 2) s0 s) as H; [|by apply H].
  induction ms as [|m ms IH]; intros s0; cbn [foldl mbind option_bind]; [intros [= ->]; apply rtc_refl|].
  destruct (play_cache m s0) as [s1|] eqn:Em; [|clear; induction ms; [done|exact IHms]].
  intros H. eapply rtc_l; [by eapply play_cache_step|by apply IH].
Qed.

Definition two_askers : list cache_move :=
  [Arrive 0 "AK"; Go 0; Arrive 1 "AK"; Go 1; Go 0; Go 1; Lock 0; Go 0; Answer 0 None; Go 0; Go 0; Lock 1; Tick 4; Go 1; Go 1; Go 0; Go 1]%string.

Lemma cache_single_flight_witness :
  exists s, run_cache two_askers = Some s /\ lookups s !! 1%nat = Some (Returned "AK"%string (Ok None)) /\ length (answers s) = 1%nat /\ flights s = ∅ /\
    kept s = [("AK"%string, None, 0, 0)] /\
    exists t t_in, ("AK"%string, None, t) ∈ answers s /\ ("AK"%string, None, t, t_in) ∈ kept s /\ t <= t_in <= clock s /\ clock s < t_in + 5.
Proof.
  destruct (run_cache two_askers) as [s|] eqn:Es; [|vm_compute in Es; discriminate Es]. exists s. split; [reflexivity|].
  assert (lookups s !! 1%nat = Some (Returned "AK"%string (Ok None)) /\ length (answers s) = 1%nat /\ flights s = ∅ /\ kept s = [("AK"%string, None, 0, 0)] /\
          read_fresh (clock s) (entries s) "AK"%string = Some None) as (H1 & H2 & H3 & H3' & H4).
  { vm_compute in Es. injection Es as <-. split_and!; vm_compute; reflexivity. }
  split_and!; [exact H1|exact H2|exact H3|exact H3'|].
  exact (proj1 (proj2 (cache_single_flight (users_ttl quick_cfg) 2 s (run_cache_reaches two_askers s Es))) "AK"%string None H4).
Defined.
