(* ===== verification/OpenBao.v ===== *)
(** * The OpenBao directory and its administration

    directory/openbao.rs and the layout of directory/layout.rs in
    s32p-directory, and s32p-admin/src/openbao.rs: documents of users, buckets
    and indexes in a key-value store.  A call of the store can fail before or
    after it takes effect ([kv_fault]); serde_json is the identity on the
    documents. *)

From Stdlib Require Import ZArith Lia Ascii.
From stdpp Require Import base list strings numbers option gmap sorting fin_sets fin_maps.
From S2P Require Import Prelude RustStr Handler Directory.

Local Open Scope s3_scope.
Local Open Scope string_scope.

(** ** The store *)
Inductive kv_doc := DUser (u : UserDoc) | DBucket (b : BucketDoc) | DIndex (ids : list string).
Abbreviation store := (gmap string kv_doc).
Record kv_state := { kv : store; kv_calls : nat }.

(** What happens to the n-th call: it is served, or fails, with or without
    its effect. *)
Class KvEnv := { kv_fault : nat -> option bool; layout_prefix : string }.

Abbreviation K := (handler kv_state dir_error).

(** [DirectoryLayout] *)
Section Layout.
Context {E : KvEnv}.
Definition prefix_ : string := trim_matches "/" (trim layout_prefix).
Definition layout_join (rel : string) : string :=
  let rel := trim_matches "/" (trim rel) in
  if is_empty rel then prefix_ else if is_empty prefix_ then rel else prefix_ +:+ "/" +:+ rel.
Definition user_path (access_key : string) : string := layout_join ("users/" +:+ access_key).
Definition bucket_path (id : string) : string := layout_join ("buckets/" +:+ id).
Definition idx_access_key (access_key : string) : string := layout_join ("index/access_key/" +:+ access_key).
Definition idx_group (name : string) : string := layout_join ("index/group/" +:+ name).
Definition principal_path (p : Principal) : string :=
  match p with AccessKey k => idx_access_key k | GroupName n => idx_group n end.

(** ** Calls of the store: [kv2_read_opt], [kv2_write], [kv2_delete_metadata] *)
Definition kv_call {A} (effect : store -> A * store) : K A := fun s =>
  let r := effect (kv s) in
  match kv_fault (kv_calls s) with
  | None => (Next (fst r), {| kv := snd r; kv_calls := S (kv_calls s) |})
  | Some applied => (Return (BackendError "openbao"), {| kv := if applied then snd r else kv s; kv_calls := S (kv_calls s) |})
  end.
Definition kv_read (path : string) : K (option kv_doc) := kv_call (fun m => (m !! path, m)).
Definition kv_put (path : string) (d : kv_doc) : K unit := kv_call (fun m => (tt, <[path := d]> m)).
Definition kv_delete_metadata (path : string) : K unit := kv_call (fun m => (tt, delete path m)).

(** Reading a document as a type: a user or bucket needs its fields, an
    [IndexDoc] is empty when they are not its own. *)
Definition read_user (path : string) : K (option UserDoc) :=
  d ← kv_read path;
  match d with None => mret None | Some (DUser u) => mret (Some u) | Some _ => reply_with (BackendError "json") end.
Definition read_bucket (path : string) : K (option BucketDoc) :=
  d ← kv_read path;
  match d with None => mret None | Some (DBucket b) => mret (Some b) | Some _ => reply_with (BackendError "json") end.
Definition index_of (d : option kv_doc) : list string := match d with Some (DIndex ids) => ids | _ => [] end.
Definition index_read (path : string) : K (list string) := d ← kv_read path; mret (index_of d).

Definition index_write (path : string) (ids : list string) : K unit :=
  match ids with [] => kv_delete_metadata path | _ => kv_put path (DIndex ids) end.
Definition index_add_bucket (path id : string) : K unit :=
  idx ← index_read path;
  if bool_decide (id ∈ idx) then mret tt else index_write path (sort_dedup (idx ++ [id])%list).
Definition index_remove_bucket (path id : string) : K unit :=
  idx ← index_read path;
  let rest := filter (fun x => x <> id) idx in
  if (length rest =? length idx)%nat then mret tt else index_write path rest.

Fixpoint for_each_k {A} (f : A -> K unit) (l : list A) : K unit :=
  match l with [] => mret tt | a :: l => _ ← f a; for_each_k f l end.
Definition add_bucket_to_indices (id : string) (acl : list AclEntry) : K unit :=
  for_each_k (fun e => index_add_bucket (principal_path (entry_principal e)) id) acl.
Definition remove_bucket_from_indices (id : string) (acl : list AclEntry) : K unit :=
  for_each_k (fun e => index_remove_bucket (principal_path (entry_principal e)) id) acl.

Definition or_fail (r : res dir_error unit) : K unit := unwrap_or_reply r id.

(** ** Users *)
Definition trimmed_user (u : UserDoc) : UserDoc := {|
  user_access_key := trim (user_access_key u); user_secret_key := trim (user_secret_key u); user_username := trim (user_username u);
  user_uid := user_uid u; user_gid := user_gid u |}.
Definition upsert_user (u : UserDoc) : K unit :=
  _ ← reply_if (is_empty (trim (user_secret_key u))) (EmptyField "user.secret_key");
  _ ← reply_if (is_empty (trim (user_username u))) (EmptyField "user.username");
  let u := trimmed_user u in
  _ ← or_fail (validate_access_key (user_access_key u));
  kv_put (user_path (user_access_key u)) (DUser u).

(** ** Buckets *)
Context {N : Nss}.

(** [pk.split_once(':')] and the index it names *)
Definition index_path_of_key (pk : string) : option string :=
  match split_once ":" pk with
  | Some (kind, value) => if kind =s "ak" then Some (idx_access_key value) else if kind =s "group" then Some (idx_group value) else None
  | None => None
  end.
Definition principal_keys (acl : list AclEntry) : gset string := list_to_set ((fun e => principal_key (entry_principal e)) <$> acl).
Definition for_each_principal (f : string -> K unit) (pks : gset string) : K unit :=
  for_each_k (fun pk => match index_path_of_key pk with Some path => f path | None => mret tt end) (hash_order (elements pks)).

Definition trimmed_bucket (b : BucketDoc) : BucketDoc :=
  {| doc_id := trim (doc_id b); doc_name := trim (doc_name b); doc_data_path := trim (doc_data_path b); doc_acl := doc_acl b |}.
Definition upsert_bucket (b : BucketDoc) : K unit :=
  _ ← reply_if (is_empty (trim (doc_id b))) (EmptyField "bucket.id");
  _ ← reply_if (is_empty (trim (doc_name b))) (EmptyField "bucket.name");
  _ ← reply_if (is_empty (trim (doc_data_path b))) (EmptyField "bucket.data_path");
  let b := trimmed_bucket b in
  _ ← or_fail (validate_bucket_name (doc_name b));
  _ ← or_fail (validate_acl (doc_acl b));
  let b := normalized b in
  existing ← read_bucket (bucket_path (doc_id b));
  _ ← match existing with
      | Some old =>
          let old_set := principal_keys (normalize_acl (doc_acl old)) in
          let new_set := principal_keys (doc_acl b) in
          _ ← for_each_principal (fun path => index_remove_bucket path (doc_id b)) (old_set ∖ new_set);
          for_each_principal (fun path => index_add_bucket path (doc_id b)) (new_set ∖ old_set)
      | None => add_bucket_to_indices (doc_id b) (doc_acl b)
      end;
  kv_put (bucket_path (doc_id b)) (DBucket b).

(** [uuid] is the fresh UUID. *)
Definition create_bucket (uuid name data_path : string) (acl : list AclEntry) : K string :=
  _ ← upsert_bucket {| doc_id := uuid; doc_name := name; doc_data_path := data_path; doc_acl := acl |};
  mret uuid.

Definition delete_bucket (bucket_id : string) : K unit :=
  let bid := trim bucket_id in
  _ ← reply_if (is_empty bid) (EmptyField "bucket_id");
  b ← read_bucket (bucket_path bid);
  match b with
  | None => mret tt
  | Some b =>
      _ ← remove_bucket_from_indices bid (doc_acl b);
      kv_delete_metadata (bucket_path bid)
  end.

Definition with_acl (b : BucketDoc) (acl : list AclEntry) : BucketDoc :=
  {| doc_id := doc_id b; doc_name := doc_name b; doc_data_path := doc_data_path b; doc_acl := acl |}.
Definition set_bucket_acl (bucket_id : string) (acl : list AclEntry) : K unit :=
  let bid := trim bucket_id in
  _ ← reply_if (is_empty bid) (EmptyField "bucket_id");
  b ← read_bucket (bucket_path bid);
  match b with
  | None => reply_with (BackendError "bucket not found")
  | Some b => upsert_bucket (with_acl b acl)
  end.

(** [delete_user] *)
Definition without_key (ak : string) (acl : list AclEntry) : list AclEntry := filter (fun e => entry_principal e <> AccessKey ak) acl.
Definition strip_key (ak bucket_id : string) : K unit :=
  b ← read_bucket (bucket_path bucket_id);
  match b with
  | None => mret tt
  | Some b =>
      let rest := without_key ak (doc_acl b) in
      if (length rest =? length (doc_acl b))%nat then mret tt else set_bucket_acl bucket_id rest
  end.
Definition delete_user (access_key : string) (cleanup_acls : bool) : K unit :=
  let ak := trim access_key in
  _ ← reply_if (is_empty ak) (EmptyField "access_key");
  _ ← (if cleanup_acls then
         ids ← index_read (idx_access_key ak);
         for_each_k (strip_key ak) ids
       else mret tt);
  _ ← kv_delete_metadata (user_path ak);
  kv_delete_metadata (idx_access_key ak).

(** ** Listings, export and import

    [kv2_list_opt]: the names below a path, those that are directories with a
    slash at the end, in order; 404 when there are none. *)
Definition child (dir key : string) : option string :=
  rest ← strip_prefix (dir +:+ "/") key;
  match split_once "/" rest with Some (d, _) => Some (d +:+ "/") | None => Some rest end.
Definition children (m : store) (dir : string) : list string := sort_dedup (omap (child dir) (map_to_list m).*1).
Definition kv_list_opt (path : string) : K (option (list string)) :=
  kv_call (fun m => (match children m path with [] => None | l => Some l end, m)).

(** The loop of [list_users] and [list_buckets] *)
Fixpoint read_all {A} (read : string -> K (option A)) (keys : list string) : K (list A) :=
  match keys with
  | [] => mret []
  | k :: keys =>
      let k := trim_end_matches "/" k in
      if is_empty k then read_all read keys
      else
        d ← read k;
        rest ← read_all read keys;
        mret (match d with Some a => a :: rest | None => rest end)
  end.
Definition user_le (a b : UserDoc) : Prop := str_le (user_access_key a) (user_access_key b).
#[global] Instance user_le_dec : RelDecision user_le.
Proof. intros a b. unfold user_le. apply _. Defined.
Definition id_le (a b : BucketDoc) : Prop := str_le (doc_id a) (doc_id b).
#[global] Instance id_le_dec : RelDecision id_le.
Proof. intros a b. unfold id_le. apply _. Defined.

Definition list_users : K (list UserDoc) :=
  keys ← kv_list_opt (layout_join "users");
  match keys with None => mret [] | Some keys => us ← read_all (fun k => read_user (user_path k)) keys; mret (merge_sort user_le us) end.
Definition list_buckets : K (list BucketDoc) :=
  keys ← kv_list_opt (layout_join "buckets");
  match keys with None => mret [] | Some keys => bs ← read_all (fun k => read_bucket (bucket_path k)) keys; mret (merge_sort id_le bs) end.

(** [export_yaml_string]: the document is validated before it is rendered. *)
Definition export_doc : K DirectoryFileV1 :=
  users ← list_users;
  buckets ← list_buckets;
  let root := {| file_version := 1%Z; file_users := users; file_buckets := buckets |} in
  _ ← or_fail (validate root);
  mret root.

(** [purge_tree]; the top of the stack is its head.  A directory is pushed for
    a key below it, so for keys without empty segments the loop runs at most
    once per byte of the keys. *)
Definition rel_join (cur k : string) : string := if is_empty cur then k else cur +:+ "/" +:+ k.
Fixpoint purge_keys (cur : string) (keys : list string) (stack : list string) : K (list string) :=
  match keys with
  | [] => mret stack
  | k :: keys =>
      if ends_with "/" k then purge_keys cur keys (rel_join cur (trim_end_matches "/" k) :: stack)
      else _ ← kv_delete_metadata (layout_join (rel_join cur k)); purge_keys cur keys stack
  end.
Fixpoint purge_loop (fuel : nat) (stack : list string) : K unit :=
  match fuel, stack with
  | _, [] => mret tt
  | O, _ => hang
  | S fuel, cur :: stack =>
      keys ← kv_list_opt (layout_join cur);
      match keys with
      | None => purge_loop fuel stack
      | Some keys => stack ← purge_keys cur keys stack; purge_loop fuel stack
      end
  end.
Definition key_bytes (m : store) : nat := sum_list_with String.length (map_to_list m).*1.
Definition purge_tree (rel : string) : K unit :=
  fuel ← get (fun s => 3 + key_bytes (kv s))%nat;
  purge_loop fuel [trim_matches "/" rel].

(** [import_yaml_string] *)
Definition import_doc (doc : DirectoryFileV1) (replace : bool) : K unit :=
  _ ← or_fail (validate doc);
  _ ← (if replace then _ ← purge_tree "users"; _ ← purge_tree "buckets"; purge_tree "index" else mret tt);
  _ ← for_each_k upsert_user (file_users doc);
  for_each_k (fun b => upsert_bucket (normalized b)) (file_buckets doc).

(** ** The directory on the store: [OpenBaoDirectory] *)
Fixpoint read_indices (paths : list string) (ids : gset string) : K (gset string) :=
  match paths with
  | [] => mret ids
  | p :: paths => l ← index_read p; read_indices paths (list_to_set l ∪ ids)
  end.
Fixpoint read_views (access_key : string) (groups : gset string) (ids : list string) (name_seen : gset string) (out : list BucketView)
    : K (list BucketView) :=
  match ids with
  | [] => mret out
  | id :: ids =>
      b ← read_bucket (bucket_path id);
      match b with
      | None => read_views access_key groups ids name_seen out
      | Some b =>
          match effective_access (doc_acl b) access_key groups with
          | None => read_views access_key groups ids name_seen out
          | Some l =>
              if bool_decide (doc_name b ∈ name_seen) then reply_with (Ambiguous access_key (doc_name b))
              else read_views access_key groups ids ({[doc_name b]} ∪ name_seen) (out ++ [view_of b l])%list
          end
      end
  end.
Definition openbao_user (access_key : string) : K (option UserDoc) := read_user (user_path access_key).
Definition openbao_buckets (access_key : string) : K (list BucketView) :=
  u ← openbao_user access_key;
  match u with
  | None => mret []
  | Some user =>
      groups ← unwrap_or_reply (groups_for_user (user_username user) (user_gid user)) id;
      let group_set : gset string := list_to_set groups in
      ids ← index_read (idx_access_key access_key);
      ids ← read_indices (idx_group <$> hash_order (elements group_set)) (list_to_set ids);
      out ← read_views access_key group_set (hash_order (elements ids)) ∅ [];
      mret (merge_sort view_le out)
  end.
End Layout.
