(* ===== verification/OpenBaoProofs.v ===== *)
(** * The indexes of the OpenBao directory

    Every bucket document lists its principals, and one index document per
    principal lists the buckets that name it.  The administration writes the
    two in separate calls.  [exact_index] relates them; [pending] is what an
    interrupted change of one bucket leaves behind. *)

From Stdlib Require Import ZArith Lia Ascii.
From stdpp Require Import base list strings numbers option gmap sorting fin_sets fin_maps.
From S2P Require Import Prelude RustStr Utils Handler Directory OpenBao.

Local Open Scope s3_scope.
Local Open Scope string_scope.

(** ** Paths *)
Definition plain (s : string) : Prop := matches_ident 127 s = true.
Definition valid_principal (p : Principal) : Prop := is_ok (validate_principal p) = true.

Lemma ident_rest_plain c : ident_rest c = true -> is_visible c = true /\ (c =c "/") = false.
Proof. destruct c as [[] [] [] [] [] [] [] []]; vm_compute; auto. Qed.

Lemma matches_ident_bytes n s : matches_ident n s = true -> s <> "" /\ all_bytes ident_rest s = true.
Proof.
  destruct s as [|c s]; cbn; [done|]. intros [[H1 H2]%andb_true_iff _]%andb_true_iff. split; [done|].
  apply andb_true_iff. split; [|done]. unfold ident_rest. by rewrite H1.
Qed.

Lemma valid_principal_name p : valid_principal p -> exists n, matches_ident n (match p with AccessKey k => k | GroupName g => g end) = true.
Proof. destruct p as [k|g]; unfold valid_principal; cbn; unfold validate_access_key, ensure; case_match; eauto; done. Qed.

Lemma ends_with_no_slash dir k : k <> "" -> all_bytes ident_rest k = true -> ends_with "/" (dir +:+ k) = false.
Proof.
  intros Hk Hb. destruct (ends_with "/" (dir +:+ k)) eqn:E; [|done]. apply ends_with_spec in E as [r E].
  apply (f_equal str_rev) in E. rewrite !str_rev_app_distr in E. cbn in E.
  rewrite <- all_bytes_rev in Hb. destruct (str_rev k) as [|c t] eqn:Ek.
  - apply (f_equal str_rev) in Ek. rewrite str_rev_involutive in Ek. done.
  - cbn in E, Hb. injection E as -> _. apply andb_true_iff in Hb as [Hb%ident_rest_plain _]. by destruct Hb.
Qed.

Section Paths.
Context {E : KvEnv}.

Definition under (dir : string) : string := if is_empty prefix_ then dir else prefix_ +:+ "/" +:+ dir.

Lemma layout_join_plain dir k n :
  all_bytes is_visible dir = true -> starts_with "/" dir = false -> dir <> "" -> matches_ident n k = true ->
  layout_join (dir +:+ k) = under dir +:+ k.
Proof.
  intros Hd Hs Hne [Hk Hb]%matches_ident_bytes. unfold layout_join.
  assert (all_bytes is_visible k = true) as Hv by (eapply all_bytes_impl, Hb; intros c Hc; by apply ident_rest_plain).
  rewrite trim_visible by (rewrite all_bytes_app; by rewrite Hd, Hv).
  unfold trim_matches. rewrite trim_start_matches_id.
  2: { destruct dir as [|c d]; [done|]. cbn [String.append]. by rewrite starts_with_char in *. }
  rewrite trim_end_matches_id by (by apply ends_with_no_slash).
  unfold under. replace (is_empty (dir +:+ k)) with false by (destruct dir; done).
  destruct (is_empty prefix_); [done|]. by rewrite !str_app_assoc.
Qed.

Lemma under_inj d1 d2 k1 k2 : under d1 +:+ k1 = under d2 +:+ k2 -> d1 +:+ k1 = d2 +:+ k2.
Proof. unfold under. destruct (is_empty prefix_); [done|]. rewrite !str_app_assoc. intros H%str_app_inv_l. by injection H. Qed.

Definition name_of (p : Principal) : string := match p with AccessKey k => k | GroupName g => g end.
Definition index_dir (p : Principal) : string := match p with AccessKey _ => "index/access_key/" | GroupName _ => "index/group/" end.

Lemma user_path_plain k : plain k -> user_path k = under "users/" +:+ k.
Proof. by apply layout_join_plain. Qed.
Lemma bucket_path_plain k : plain k -> bucket_path k = under "buckets/" +:+ k.
Proof. by apply layout_join_plain. Qed.
Lemma principal_path_valid p : valid_principal p -> principal_path p = under (index_dir p) +:+ name_of p.
Proof. intros [n Hn]%valid_principal_name. destruct p; by eapply layout_join_plain. Qed.

Lemma bucket_path_inj a b : plain a -> plain b -> bucket_path a = bucket_path b -> a = b.
Proof. intros Ha Hb. rewrite !bucket_path_plain by done. by intros H%str_app_inv_l. Qed.
Lemma principal_path_inj p q : valid_principal p -> valid_principal q -> principal_path p = principal_path q -> p = q.
Proof.
  intros Hp Hq. rewrite !principal_path_valid by done. intros H%under_inj. destruct p, q; cbn in H; injection H; congruence.
Qed.
Lemma bucket_not_index k p : plain k -> valid_principal p -> bucket_path k <> principal_path p.
Proof. intros Hk Hp. rewrite bucket_path_plain, principal_path_valid by done. intros H%under_inj. by destruct p. Qed.
Lemma user_not_index k p : plain k -> valid_principal p -> user_path k <> principal_path p.
Proof. intros Hk Hp. rewrite user_path_plain, principal_path_valid by done. intros H%under_inj. by destruct p. Qed.
Lemma user_not_bucket k b : plain k -> plain b -> user_path k <> bucket_path b.
Proof. intros Hk Hb. rewrite user_path_plain, bucket_path_plain by done. by intros H%under_inj. Qed.

Lemma index_path_of_principal p : index_path_of_key (principal_key p) = Some (principal_path p).
Proof. by destruct p. Qed.

(** ** The store *)
Definition well_kept (path : string) (d : kv_doc) : Prop :=
  match d with
  | DUser u => plain (user_access_key u) /\ path = user_path (user_access_key u)
  | DBucket b => plain (doc_id b) /\ path = bucket_path (doc_id b) /\ Forall (fun e => valid_principal (entry_principal e)) (doc_acl b)
  | DIndex ids => (exists p, valid_principal p /\ path = principal_path p) /\ Forall plain ids
  end.
Definition wf (m : store) : Prop := map_Forall well_kept m.

Definition indexed (m : store) (id : string) (p : Principal) : Prop := id ∈ index_of (m !! principal_path p).
Definition names (acl : list AclEntry) (p : Principal) : Prop := p ∈ entry_principal <$> acl.
#[export] Instance names_dec acl p : Decision (names acl p).
Proof. unfold names. apply _. Defined.
(** The principals of the document stored for a bucket *)
Definition stored_acl (m : store) (id : string) : list AclEntry :=
  match m !! bucket_path id with Some (DBucket b) => doc_acl b | _ => [] end.

(** An index lists exactly the buckets whose document names its principal. *)
Definition exact_at (m : store) (id : string) : Prop :=
  forall p, valid_principal p -> indexed m id p <-> names (stored_acl m id) p.
Definition exact_index (m : store) : Prop := forall id, plain id -> exact_at m id.
Definition good (m : store) : Prop := wf m /\ exact_index m.

(** A change of bucket [id] towards the access list [acl] is under way. *)
Definition pending (id : string) (acl : list AclEntry) (m : store) : Prop :=
  wf m /\ (forall id', plain id' -> id' <> id -> exact_at m id') /\
  forall p, valid_principal p ->
    (names (stored_acl m id) p -> names acl p -> indexed m id p) /\ (indexed m id p -> names (stored_acl m id) p \/ names acl p).

Lemma good_pending id acl m : plain id -> good m -> pending id acl m.
Proof. intros Hid [Hwf Hex]. split_and!; [done|auto|]. intros p Hp. rewrite (Hex id Hid p Hp). auto. Qed.

(** ** Calls

    [spec m c P Q]: from the store [m], the program [c] ends, with [Q] of its
    result and the store it leaves, or with [P] of its error and the store. *)
Definition spec {A} (m : store) (c : K A) (P : dir_error -> store -> Prop) (Q : A -> store -> Prop) : Prop :=
  forall s, kv s = m -> match c s with (Next a, s') => Q a (kv s') | (Return e, s') => P e (kv s') | _ => False end.

Lemma spec_ret {A} m (a : A) P (Q : A -> store -> Prop) : Q a m -> spec m (mret a) P Q.
Proof. by intros H s <-. Qed.
Lemma spec_bind {A B} m (c : K A) (f : A -> K B) P Q :
  spec m c P (fun a m' => spec m' (f a) P Q) -> spec m (c ≫= f) P Q.
Proof.
  intros H s Hs. specialize (H s Hs). unfold mbind, handler_bind. destruct (c s) as [[a|e| |] s']; try done. by apply H.
Qed.
Lemma spec_mono {A} m (c : K A) (P P' : dir_error -> store -> Prop) (Q Q' : A -> store -> Prop) :
  spec m c P Q -> (forall e m', P e m' -> P' e m') -> (forall a m', Q a m' -> Q' a m') -> spec m c P' Q'.
Proof. intros H HP HQ s Hs. specialize (H s Hs). destruct (c s) as [[a|e| |] s']; auto. Qed.
Lemma spec_error {A} m e P (Q : A -> store -> Prop) : P e m -> spec m (reply_with e) P Q.
Proof. by intros H s <-. Qed.
Lemma spec_reply_if m b e P (Q : unit -> store -> Prop) : (b = true -> P e m) -> (b = false -> Q tt m) -> spec m (reply_if b e) P Q.
Proof. destruct b; intros H1 H2 s <-; cbn; auto. Qed.
Lemma spec_unwrap {A} m (r : res dir_error A) P (Q : A -> store -> Prop) :
  match r with Ok a => Q a m | Err e => P e m | Panics => False end -> spec m (unwrap_or_reply r id) P Q.
Proof. destruct r; intros H s <-; exact H. Qed.
Lemma spec_call {A} m (f : store -> A * store) P (Q : A -> store -> Prop) :
  (forall e, P e m) -> (forall e, P e (snd (f m))) -> Q (fst (f m)) (snd (f m)) -> spec m (kv_call f) P Q.
Proof. intros H1 H2 H3 s <-. unfold kv_call. destruct (kv_fault (kv_calls s)) as [[]|]; cbn; auto. Qed.

Lemma spec_read_bucket m path P (Q : option BucketDoc -> store -> Prop) :
  (forall e, P e m) -> (m !! path = None -> Q None m) -> (forall b, m !! path = Some (DBucket b) -> Q (Some b) m) ->
  spec m (read_bucket path) P Q.
Proof.
  intros HP HN HS. apply spec_bind, spec_call; [done..|]. cbn. destruct (m !! path) as [[]|]; auto using spec_error, spec_ret.
Qed.
Lemma spec_index_read m path P (Q : list string -> store -> Prop) :
  (forall e, P e m) -> Q (index_of (m !! path)) m -> spec m (index_read path) P Q.
Proof. intros HP HQ. apply spec_bind, spec_call; [done..|]. by apply spec_ret. Qed.

(** [index_write] *)
Definition set_index (m : store) (path : string) (ids : list string) : store :=
  match ids with [] => delete path m | _ => <[path := DIndex ids]> m end.
Lemma spec_index_write m path ids P (Q : unit -> store -> Prop) :
  (forall e, P e m) -> (forall e, P e (set_index m path ids)) -> Q tt (set_index m path ids) -> spec m (index_write path ids) P Q.
Proof. intros. destruct ids; by apply spec_call. Qed.
Lemma set_index_ne m path ids path' : path' <> path -> set_index m path ids !! path' = m !! path'.
Proof. intros. destruct ids; cbn; [by rewrite lookup_delete_ne|by rewrite lookup_insert_ne]. Qed.
Lemma set_index_eq m path ids : index_of (set_index m path ids !! path) = ids.
Proof. destruct ids; cbn; [by rewrite lookup_delete_eq|by rewrite lookup_insert_eq]. Qed.
Lemma set_index_wf m p ids : valid_principal p -> Forall plain ids -> wf m -> wf (set_index m (principal_path p) ids).
Proof.
  intros Hp Hids Hm. destruct ids; [by apply map_Forall_delete|]. apply map_Forall_insert_2; [|done]. split; [by exists p|done].
Qed.
Lemma wf_index m path : wf m -> Forall plain (index_of (m !! path)).
Proof. intros Hm. destruct (m !! path) as [[]|] eqn:Ep; try constructor. by destruct (Hm _ _ Ep). Qed.

(** ** Changes of the indexes of one bucket *)
Definition changes (id : string) (A : Principal -> Prop) (m m' : store) : Prop :=
  (wf m -> wf m') /\
  (forall path, (forall p, valid_principal p -> path <> principal_path p) -> m' !! path = m !! path) /\
  (forall id' p, valid_principal p -> id' <> id \/ ~ A p -> indexed m' id' p <-> indexed m id' p).
Definition grows (id : string) (A : Principal -> Prop) (m m' : store) : Prop :=
  changes id A m m' /\ forall p, valid_principal p -> indexed m id p -> indexed m' id p.
Definition shrinks (id : string) (A : Principal -> Prop) (m m' : store) : Prop :=
  changes id A m m' /\ forall p, valid_principal p -> indexed m' id p -> indexed m id p.

#[export] Instance changes_preorder id A : PreOrder (changes id A).
Proof.
  split; [by intros m; split_and!|]. intros m1 m2 m3 (W1 & S1 & I1) (W2 & S2 & I2).
  split_and!; [auto|intros; rewrite S2, S1 by done; done|intros; rewrite I2, I1 by done; done].
Qed.
#[export] Instance grows_preorder id A : PreOrder (grows id A).
Proof. split; [by intros m|]. intros m1 m2 m3 [C1 G1] [C2 G2]. split; [by etrans|auto]. Qed.
#[export] Instance shrinks_preorder id A : PreOrder (shrinks id A).
Proof. split; [by intros m|]. intros m1 m2 m3 [C1 G1] [C2 G2]. split; [by etrans|auto]. Qed.

Lemma set_index_changes m p id ids (A : Principal -> Prop) :
  valid_principal p -> A p -> (wf m -> Forall plain ids) ->
  (forall id', id' <> id -> id' ∈ ids <-> indexed m id' p) -> changes id A m (set_index m (principal_path p) ids).
Proof.
  intros Hp HA Hids Hother. split_and!; [intros Hm; by apply set_index_wf; auto| |].
  - intros path Hn. apply set_index_ne. auto.
  - intros id' q Hq Hid. unfold indexed. destruct (decide (q = p)) as [->|Hne].
    + rewrite set_index_eq. apply Hother. by destruct Hid.
    + rewrite set_index_ne; [done|]. intros Heq. by apply Hne, principal_path_inj.
Qed.

Lemma index_add_spec (A : Principal -> Prop) m p id :
  plain id -> valid_principal p -> A p ->
  spec m (index_add_bucket (principal_path p) id) (fun _ m' => grows id A m m') (fun _ m' => grows id A m m' /\ indexed m' id p).
Proof.
  intros Hid Hp HA. apply spec_bind, spec_index_read; [done|]. case_bool_decide as Hin; [by apply spec_ret|].
  set (ids := sort_dedup _). assert (forall x, x ∈ ids <-> x ∈ index_of (m !! principal_path p) \/ x = id) as Hids.
  { intros x. unfold ids, sort_dedup. rewrite elem_of_dedup, merge_sort_Permutation. set_solver. }
  assert (grows id A m (set_index m (principal_path p) ids)) as Hg.
  { split; [apply set_index_changes; [done..| |]|].
    - intros Hm%(wf_index m (principal_path p)). rewrite list.Forall_forall in *. intros x [?| ->]%Hids; auto.
    - intros id' Hne. rewrite Hids. unfold indexed. naive_solver.
    - intros q Hq. unfold indexed. destruct (decide (q = p)) as [->|Hne]; [rewrite set_index_eq, Hids; auto|].
      rewrite set_index_ne; [done|]. intros Heq. by apply Hne, principal_path_inj. }
  apply spec_index_write; [done|done|]. split; [done|]. unfold indexed. rewrite set_index_eq, Hids. auto.
Qed.

Lemma index_remove_spec (A : Principal -> Prop) m p id :
  valid_principal p -> A p ->
  spec m (index_remove_bucket (principal_path p) id) (fun _ m' => shrinks id A m m') (fun _ m' => shrinks id A m m' /\ ~ indexed m' id p).
Proof.
  intros Hp HA. apply spec_bind, spec_index_read; [done|]. cbv zeta. set (old := index_of _). set (ids := filter _ old).
  assert (forall x, x ∈ ids <-> x ∈ old /\ x <> id) as Hids by (intros x; unfold ids; rewrite list_elem_of_filter; naive_solver).
  destruct (Nat.eqb_spec (length ids) (length old)) as [Hl|Hl].
  - apply spec_ret. split; [done|]. unfold indexed. fold old. intros Hin.
    assert (length ids < length old)%nat; [|lia]. by eapply length_filter_lt; [exact Hin|]; intros [].
  - assert (shrinks id A m (set_index m (principal_path p) ids)) as Hg.
    { split; [apply set_index_changes; [done..| |]|].
      - intros Hm%(wf_index m (principal_path p)). rewrite list.Forall_forall in *. intros x [? _]%Hids; auto.
      - intros id' Hne. rewrite Hids. unfold indexed. naive_solver.
      - intros q Hq. unfold indexed. destruct (decide (q = p)) as [->|Hne]; [rewrite set_index_eq, Hids; by intros []|].
        rewrite set_index_ne; [done|]. intros Heq. by apply Hne, principal_path_inj. }
    apply spec_index_write; [done|done|]. split; [done|]. unfold indexed. rewrite set_index_eq, Hids. naive_solver.
Qed.

(** ** Loops *)
Lemma for_each_spec {X} (T : store -> store -> Prop) `{!PreOrder T} (f : X -> K unit) (R : X -> store -> Prop) l m :
  (forall x m, x ∈ l -> spec m (f x) (fun _ => T m) (fun _ m' => T m m' /\ R x m')) ->
  (forall x m m', x ∈ l -> T m m' -> R x m -> R x m') ->
  spec m (for_each_k f l) (fun _ => T m) (fun _ m' => T m m' /\ forall x, x ∈ l -> R x m').
Proof.
  revert m. induction l as [|x l IH]; intros m Hf Hst; cbn [for_each_k].
  { apply spec_ret. split; [done|]. by intros x ?%not_elem_of_nil. }
  apply spec_bind. eapply spec_mono; [apply Hf; set_solver|done|]. intros _ m1 [HT HR].
  eapply spec_mono; [apply IH| |].
  - intros y m2 Hy. apply Hf. set_solver.
  - intros y m2 m3 Hy. apply Hst. set_solver.
  - intros e m2 HT'. by etrans.
  - intros _ m2 [HT' HR']. split; [by etrans|]. intros y [->|Hy]%elem_of_cons; [|auto]. eapply Hst; [set_solver|done|done].
Qed.

Lemma elem_of_principal_keys acl p : principal_key p ∈ principal_keys acl <-> names acl p.
Proof.
  unfold principal_keys, names. rewrite elem_of_list_to_set, !list_elem_of_fmap. split.
  - intros (e & Hp%principal_key_inj & He). by exists e.
  - intros (e & -> & He). by exists e.
Qed.
Lemma principal_keys_named acl pk : pk ∈ principal_keys acl -> exists p, pk = principal_key p.
Proof. unfold principal_keys. rewrite elem_of_list_to_set, list_elem_of_fmap. naive_solver. Qed.
Lemma names_normalize acl p : names (normalize_acl acl) p <-> names acl p.
Proof.
  unfold names. rewrite !list_elem_of_fmap. split.
  - intros (e & -> & He%elem_of_normalize). pose proof (merged_spec acl (principal_key (entry_principal e))) as Hs. rewrite He in Hs.
    destruct Hs as (_ & (e' & He' & Hp & _) & _). by exists e'.
  - intros (e & -> & He). pose proof (merged_spec acl (principal_key (entry_principal e))) as Hs.
    destruct (merged acl !! _) as [x|] eqn:Ex; [|by destruct (Hs e He)]. destruct Hs as (Hp%principal_key_inj & _).
    exists x. split; [done|]. apply elem_of_normalize. by rewrite Hp.
Qed.

Section Loops.
Context {N : Nss}.

Lemma for_each_principal_spec (T : store -> store -> Prop) `{!PreOrder T} (f : string -> K unit) (R : Principal -> store -> Prop) pks m :
  (forall pk, pk ∈ pks -> exists p, pk = principal_key p) ->
  (forall p m, principal_key p ∈ pks -> spec m (f (principal_path p)) (fun _ => T m) (fun _ m' => T m m' /\ R p m')) ->
  (forall p m m', principal_key p ∈ pks -> T m m' -> R p m -> R p m') ->
  spec m (for_each_principal f pks) (fun _ => T m) (fun _ m' => T m m' /\ forall p, principal_key p ∈ pks -> R p m').
Proof.
  intros Hnamed Hf Hst. assert (forall x, x ∈ hash_order (elements pks) <-> x ∈ pks) as Hord
    by (intros x; by rewrite hash_order_perm, elem_of_elements).
  eapply spec_mono; [apply (for_each_spec T _ (fun pk m => forall p, pk = principal_key p -> R p m))| |].
  - intros pk m1 Hpk%Hord. destruct (Hnamed _ Hpk) as [p ->]. rewrite index_path_of_principal.
    eapply spec_mono; [by apply Hf|done|]. intros _ m2 [HT HR]. split; [done|]. by intros q ->%principal_key_inj.
  - intros pk m1 m2 Hpk%Hord HT HR p ->. eapply Hst; eauto.
  - done.
  - intros _ m2 [HT HR]. split; [done|]. intros p Hp%Hord. eauto.
Qed.

Lemma removals_spec id old new m :
  Forall (fun e => valid_principal (entry_principal e)) old ->
  let A p := names old p /\ ~ names new p in
  spec m (for_each_principal (fun path => index_remove_bucket path id) (principal_keys old ∖ principal_keys new))
    (fun _ => shrinks id A m) (fun _ m' => shrinks id A m m' /\ forall p, A p -> ~ indexed m' id p).
Proof.
  intros Hold A. assert (forall p, principal_key p ∈ principal_keys old ∖ principal_keys new <-> A p) as HA
    by (intros p; rewrite elem_of_difference, !elem_of_principal_keys; done).
  assert (forall p, A p -> valid_principal p) as Hv.
  { intros p [(e & -> & He)%list_elem_of_fmap _]. rewrite list.Forall_forall in Hold. auto. }
  eapply spec_mono; [apply (for_each_principal_spec (shrinks id A) _ (fun p m => ~ indexed m id p))|done|].
  - intros pk [? _]%elem_of_difference. by eapply principal_keys_named.
  - intros p m1 Hp%HA. apply index_remove_spec; auto.
  - intros p m1 m2 Hp%HA [_ Hs] Hn Hi. apply Hn, Hs; auto.
  - intros _ m1 [HT HR]. split; [done|]. intros p Hp%HA. auto.
Qed.

Lemma additions_spec id old new m :
  plain id -> Forall (fun e => valid_principal (entry_principal e)) new ->
  let A p := names new p /\ ~ names old p in
  spec m (for_each_principal (fun path => index_add_bucket path id) (principal_keys new ∖ principal_keys old))
    (fun _ => grows id A m) (fun _ m' => grows id A m m' /\ forall p, A p -> indexed m' id p).
Proof.
  intros Hid Hnew A. assert (forall p, principal_key p ∈ principal_keys new ∖ principal_keys old <-> A p) as HA
    by (intros p; rewrite elem_of_difference, !elem_of_principal_keys; done).
  assert (forall p, A p -> valid_principal p) as Hv.
  { intros p [(e & -> & He)%list_elem_of_fmap _]. rewrite list.Forall_forall in Hnew. auto. }
  eapply spec_mono; [apply (for_each_principal_spec (grows id A) _ (fun p m => indexed m id p))|done|].
  - intros pk [? _]%elem_of_difference. by eapply principal_keys_named.
  - intros p m1 Hp%HA. apply index_add_spec; auto.
  - intros p m1 m2 Hp%HA [_ Hs] Hi. apply Hs; auto.
  - intros _ m1 [HT HR]. split; [done|]. intros p Hp%HA. auto.
Qed.

Lemma add_to_indices_spec id acl m :
  plain id -> Forall (fun e => valid_principal (entry_principal e)) acl ->
  spec m (add_bucket_to_indices id acl)
    (fun _ => grows id (names acl) m) (fun _ m' => grows id (names acl) m m' /\ forall p, names acl p -> indexed m' id p).
Proof.
  intros Hid Hacl. rewrite list.Forall_forall in Hacl.
  assert (forall e, e ∈ acl -> names acl (entry_principal e)) as Hn by (intros e He; apply list_elem_of_fmap; by exists e).
  eapply spec_mono; [apply (for_each_spec (grows id (names acl)) _ (fun e m => indexed m id (entry_principal e)))|done|].
  - intros e m1 He. apply index_add_spec; auto.
  - intros e m1 m2 He [_ Hs]. apply Hs; auto.
  - intros _ m1 [HT HR]. split; [done|]. intros p (e & -> & He)%list_elem_of_fmap. auto.
Qed.

Lemma remove_from_indices_spec id acl m :
  Forall (fun e => valid_principal (entry_principal e)) acl ->
  spec m (remove_bucket_from_indices id acl)
    (fun _ => shrinks id (names acl) m) (fun _ m' => shrinks id (names acl) m m' /\ forall p, names acl p -> ~ indexed m' id p).
Proof.
  intros Hacl. rewrite list.Forall_forall in Hacl.
  assert (forall e, e ∈ acl -> names acl (entry_principal e)) as Hn by (intros e He; apply list_elem_of_fmap; by exists e).
  eapply spec_mono; [apply (for_each_spec (shrinks id (names acl)) _ (fun e m => ~ indexed m id (entry_principal e)))|done|].
  - intros e m1 He. apply index_remove_spec; auto.
  - intros e m1 m2 He [_ Hs] Hi Hi'. apply Hi, Hs; auto.
  - intros _ m1 [HT HR]. split; [done|]. intros p (e & -> & He)%list_elem_of_fmap. auto.
Qed.

(** ** A change of one bucket *)
Lemma changes_stored id A m m' id' : plain id' -> changes id A m m' -> m' !! bucket_path id' = m !! bucket_path id'.
Proof. intros Hid (_ & Hs & _). apply Hs. intros p Hp. by apply bucket_not_index. Qed.
Lemma changes_acl id A m m' id' : plain id' -> changes id A m m' -> stored_acl m' id' = stored_acl m id'.
Proof. intros Hid H. unfold stored_acl. by rewrite (changes_stored id A m m'). Qed.
Lemma changes_exact id A m m' id' : plain id' -> id' <> id -> changes id A m m' -> exact_at m id' -> exact_at m' id'.
Proof. intros Hid Hne H He p Hp. rewrite (changes_acl id A m m') by done. destruct H as (_ & _ & ->); auto. Qed.

Lemma pending_shrinks id acl (A : Principal -> Prop) m m' :
  plain id -> (forall p, A p -> ~ names acl p) -> shrinks id A m m' -> pending id acl m -> pending id acl m'.
Proof.
  intros Hid HA [Hc Hs] (Hwf & Hother & Hp). split_and!.
  - by apply Hc.
  - intros id' Hid' Hne. eapply changes_exact; eauto.
  - intros p Hv. rewrite (changes_acl id A m m') by done. destruct (Hp p Hv) as [H1 H2]. split; [|auto].
    intros Ho Hn. destruct Hc as (_ & _ & Hi). apply Hi; [done| |auto]. right. intros HAp. by apply (HA p).
Qed.

Lemma pending_grows id acl (A : Principal -> Prop) m m' :
  plain id -> (forall p, A p -> names acl p) -> grows id A m m' -> pending id acl m -> pending id acl m'.
Proof.
  intros Hid HA [Hc Hs] (Hwf & Hother & Hp). split_and!.
  - by apply Hc.
  - intros id' Hid' Hne. eapply changes_exact; eauto.
  - intros p Hv. rewrite (changes_acl id A m m') by done. destruct (Hp p Hv) as [H1 H2]. split; [auto|].
    intros Hi'. destruct (decide (names acl p)) as [Hn|Hn]; [auto|]. destruct Hc as (_ & _ & Hi). apply H2, Hi; auto.
Qed.

(** Everything but the indexes and one bucket's document *)
Definition elsewhere (id : string) (m m' : store) : Prop :=
  forall path, (forall p, valid_principal p -> path <> principal_path p) -> path <> bucket_path id -> m' !! path = m !! path.

Lemma stored_acl_ne path d m id : path <> bucket_path id -> stored_acl (<[path := d]> m) id = stored_acl m id.
Proof. intros H. unfold stored_acl. by rewrite lookup_insert_ne. Qed.
Lemma indexed_bucket_put id d m id' p : plain id -> valid_principal p -> indexed (<[bucket_path id := d]> m) id' p <-> indexed m id' p.
Proof. intros Hid Hp. unfold indexed. rewrite lookup_insert_ne; [done|]. by apply bucket_not_index. Qed.

(** When the index of [id] is that of [acl], writing the document settles the
    change. *)
Lemma put_settles m b :
  plain (doc_id b) -> Forall (fun e => valid_principal (entry_principal e)) (doc_acl b) -> wf m ->
  (forall id', plain id' -> id' <> doc_id b -> exact_at m id') ->
  (forall p, valid_principal p -> indexed m (doc_id b) p <-> names (doc_acl b) p) ->
  good (<[bucket_path (doc_id b) := DBucket b]> m).
Proof.
  intros Hid Hacl Hwf Hother Hnew. split; [by apply map_Forall_insert_2|]. intros id' Hid' p Hp. rewrite indexed_bucket_put by done.
  destruct (decide (id' = doc_id b)) as [->|Hne].
  - rewrite Hnew by done. unfold stored_acl. by rewrite lookup_insert_eq.
  - rewrite stored_acl_ne; [by apply Hother|]. intros Heq%bucket_path_inj; [|done..]. by apply Hne.
Qed.

Lemma delete_settles m id :
  plain id -> wf m -> (forall id', plain id' -> id' <> id -> exact_at m id') ->
  (forall p, valid_principal p -> ~ indexed m id p) -> good (delete (bucket_path id) m).
Proof.
  intros Hid Hwf Hother Hnone. split; [by apply map_Forall_delete|]. intros id' Hid' p Hp. unfold indexed, stored_acl.
  rewrite (lookup_delete_ne _ _ (principal_path p)) by (by apply bucket_not_index).
  destruct (decide (id' = id)) as [->|Hne].
  - rewrite lookup_delete_eq. split; [by intros ?%Hnone|]. by intros ?%not_elem_of_nil.
  - rewrite lookup_delete_ne; [by apply Hother|]. intros Heq%bucket_path_inj; [|done..]. by apply Hne.
Qed.

Lemma validate_acl_valid acl : validate_acl acl = Ok () -> Forall (fun e => valid_principal (entry_principal e)) acl.
Proof.
  induction acl as [|e acl IH]; cbn [validate_acl]; [constructor|]. intros ([] & He & Ha)%bind_ok_inv.
  constructor; [|auto]. unfold valid_principal. by rewrite He.
Qed.
Lemma Forall_names (P : Principal -> Prop) acl : Forall (fun e => P (entry_principal e)) acl <-> forall p, names acl p -> P p.
Proof.
  rewrite list.Forall_forall. unfold names. setoid_rewrite list_elem_of_fmap. naive_solver.
Qed.
Lemma validate_no_panics acl : validate_acl acl <> Panics.
Proof.
  induction acl as [|e acl IH]; cbn; [done|]. destruct (entry_principal e); cbn; unfold validate_access_key, ensure;
    case_match; cbn; done.
Qed.

(** The indexes of a stored bucket are brought to those of the new list. *)
Lemma reindex_spec id new m old :
  plain id -> Forall (fun e => valid_principal (entry_principal e)) new -> pending id new m -> m !! bucket_path id = Some (DBucket old) ->
  spec m (_ ← for_each_principal (fun path => index_remove_bucket path id) (principal_keys (normalize_acl (doc_acl old)) ∖ principal_keys new);
          for_each_principal (fun path => index_add_bucket path id) (principal_keys new ∖ principal_keys (normalize_acl (doc_acl old))))
    (fun _ m' => pending id new m')
    (fun _ m' => pending id new m' /\ (exists A, changes id A m m') /\ forall p, valid_principal p -> indexed m' id p <-> names new p).
Proof.
  intros Hid Hnew Hpend Hold. set (o := normalize_acl (doc_acl old)).
  assert (stored_acl m id = doc_acl old) as Hst by (unfold stored_acl; by rewrite Hold).
  assert (Forall (fun e => valid_principal (entry_principal e)) o) as Hov.
  { apply Forall_names. intros p. unfold o. rewrite names_normalize. revert p. apply Forall_names.
    destruct Hpend as [Hwf _]. by destruct (Hwf _ _ Hold) as (_ & _ & ?). }
  apply spec_bind. eapply spec_mono; [by apply (removals_spec id o new)| |]; cbv beta zeta.
  { intros _ m1 Hs. eapply pending_shrinks; [done| |exact Hs|done]. intros p Hp. apply Hp. }
  intros _ m1 [Hs Hgone]. assert (pending id new m1) as Hp1 by (eapply pending_shrinks; [done| |exact Hs|done]; intros p Hp; apply Hp).
  eapply spec_mono; [by apply (additions_spec id o new)| |]; cbv beta zeta.
  { intros _ m2 Hg. eapply pending_grows; [done| |exact Hg|done]. intros p Hp. apply Hp. }
  intros _ m2 [Hg Hthere]. split_and!.
  - eapply pending_grows; [done| |exact Hg|done]. intros p Hp. apply Hp.
  - exists (fun _ => True). destruct Hs as [(W1 & S1 & I1) _], Hg as [(W2 & S2 & I2) _]. split_and!; [auto|intros; rewrite S2, S1; auto|].
    intros id' p Hp [Hne|[]]; [|done]. rewrite I2, I1 by auto. done.
  - intros p Hp. destruct Hs as [(_ & _ & I1) Hs], Hg as [(_ & _ & I2) Hg].
    destruct Hpend as (_ & _ & Hpe). destruct (Hpe p Hp) as [Hkeep Hsrc]. rewrite Hst in Hkeep, Hsrc.
    rewrite <- (names_normalize (doc_acl old)) in Hkeep, Hsrc. fold o in Hkeep, Hsrc.
    destruct (decide (names new p)) as [Hn|Hn]; destruct (decide (names o p)) as [Ho|Ho].
    + split; [done|]. intros _. apply I2; [done|right; by intros []|]. apply I1; [done|right; by intros []|]. auto.
    + split; [done|]. auto.
    + rewrite I2; [|done|right; by intros []]. split; [|done]. intros Hi. exfalso. by apply (Hgone p).
    + rewrite I2; [|done|right; by intros []]. rewrite I1; [|done|right; by intros []]. split; [|done]. intros Hi. by destruct (Hsrc Hi).
Qed.

Lemma pending_names id acl acl' m : (forall p, names acl p <-> names acl' p) -> pending id acl m -> pending id acl' m.
Proof. intros H (Hwf & Ho & Hp). split_and!; [done..|]. intros p Hv. rewrite <- H. by apply Hp. Qed.

Lemma changes_elsewhere id A m m' d : changes id A m m' -> elsewhere id m (<[bucket_path id := d]> m').
Proof. intros (_ & Hs & _) path Hp Hne. rewrite lookup_insert_ne by done. by apply Hs. Qed.

Lemma new_bucket_spec id new m :
  plain id -> Forall (fun e => valid_principal (entry_principal e)) new -> pending id new m -> m !! bucket_path id = None ->
  spec m (add_bucket_to_indices id new)
    (fun _ m' => pending id new m')
    (fun _ m' => pending id new m' /\ (exists A, changes id A m m') /\ forall p, valid_principal p -> indexed m' id p <-> names new p).
Proof.
  intros Hid Hnew Hpend Hnone. eapply spec_mono; [by apply add_to_indices_spec| |]; cbv beta.
  { intros _ m1 Hg. by eapply pending_grows. }
  intros _ m1 [Hg Hthere]. assert (pending id new m1) as Hp1 by (by eapply pending_grows). split_and!; [done|destruct Hg; eauto|].
  intros p Hp. split; [|auto]. intros Hi. destruct Hp1 as (_ & _ & H). destruct (H p Hp) as [_ H2]. destruct Hg as [Hc _].
  rewrite (changes_acl _ _ _ _ _ Hid Hc) in H2. unfold stored_acl in H2. rewrite Hnone in H2. by destruct (H2 Hi) as [?%not_elem_of_nil|].
Qed.

Lemma upsert_bucket_spec b m :
  let id := trim (doc_id b) in
  plain id -> pending id (doc_acl b) m ->
  spec m (upsert_bucket b)
    (fun _ m' => pending id (doc_acl b) m')
    (fun _ m' => good m' /\ m' !! bucket_path id = Some (DBucket (normalized (trimmed_bucket b))) /\ elsewhere id m m' /\
      validate_bucket_name (trim (doc_name b)) = Ok tt /\ is_empty (trim (doc_data_path b)) = false).
Proof.
  intros id Hid Hpend. unfold upsert_bucket. do 2 (apply spec_bind, spec_reply_if; [done|intros _]).
  apply spec_bind, spec_reply_if; [done|intros Hpath]. cbv zeta.
  apply spec_bind, spec_unwrap. destruct (validate_bucket_name _) as [[]|e|] eqn:En; [|done|].
  2: { revert En. unfold validate_bucket_name. by repeat case_match. }
  apply spec_bind, spec_unwrap. destruct (validate_acl _) as [[]|e|] eqn:Ev; [|done|by eapply validate_no_panics]. apply validate_acl_valid in Ev.
  set (b' := normalized (trimmed_bucket b)). change (doc_id b') with id. change (doc_acl (trimmed_bucket b)) with (doc_acl b) in Ev.
  assert (forall p, names (doc_acl b') p <-> names (doc_acl b) p) as Hn by (intros p; apply names_normalize).
  assert (Forall (fun e => valid_principal (entry_principal e)) (doc_acl b')) as Hv.
  { apply Forall_names. intros p. rewrite Hn. by apply Forall_names. }
  assert (forall m', pending id (doc_acl b') m' -> pending id (doc_acl b) m') as Hback by (intros m'; by apply pending_names).
  assert (pending id (doc_acl b') m) as Hpend' by (eapply pending_names; [|done]; intros p; by rewrite Hn).
  apply spec_bind, spec_read_bucket; [done|intros Hread|intros old Hread].
  all: apply spec_bind; eapply spec_mono; [by apply new_bucket_spec || by apply reindex_spec|intros e m'; apply Hback|].
  all: cbv beta; intros _ m2 (Hp2 & [A Hc] & Hex).
  all: assert (good (<[bucket_path id := DBucket b']> m2)) as Hgood by (destruct Hp2 as (Hw2 & Ho2 & _); exact (put_settles m2 b' Hid Hv Hw2 Ho2 Hex)).
  all: apply spec_call; cbn [fst snd]; [auto|by intros _; apply good_pending|split_and!; [done|by rewrite lookup_insert_eq|by eapply changes_elsewhere|done|done]].
Qed.

Lemma set_bucket_acl_spec bid acl m :
  let id := trim bid in
  plain id -> pending id acl m ->
  spec m (set_bucket_acl bid acl)
    (fun _ m' => pending id acl m')
    (fun _ m' => good m' /\ elsewhere id m m' /\
      exists b, m !! bucket_path id = Some (DBucket b) /\ m' !! bucket_path id = Some (DBucket (normalized (trimmed_bucket (with_acl b acl))))).
Proof.
  intros id Hid Hpend. unfold set_bucket_acl. apply spec_bind, spec_reply_if; [done|intros _]. cbv zeta.
  apply spec_bind, spec_read_bucket; [done|intros; by apply spec_error|]. intros b Hb.
  assert (doc_id b = id) as E1.
  { destruct Hpend as [Hwf _]. destruct (Hwf _ _ Hb) as (Hpl & Heq & _). symmetry. by apply bucket_path_inj. }
  assert (trim (doc_id b) = id) as E2.
  { rewrite E1. apply trim_visible. eapply all_bytes_impl; [|by apply (matches_ident_bytes 127)]. intros c Hc. by apply ident_rest_plain. }
  pose proof (upsert_bucket_spec (with_acl b acl) m) as Hu. cbv zeta in Hu. cbn [with_acl doc_id doc_acl] in Hu. rewrite E2 in Hu.
  eapply spec_mono; [by apply Hu|done|]. cbv beta. intros _ m' (Hg & Hl & He & _). eauto.
Qed.

Lemma delete_bucket_spec bid m :
  let id := trim bid in
  plain id -> pending id [] m ->
  spec m (delete_bucket bid) (fun _ m' => pending id [] m') (fun _ m' => good m' /\ m' !! bucket_path id = None /\ elsewhere id m m').
Proof.
  intros id Hid Hpend. unfold delete_bucket. apply spec_bind, spec_reply_if; [done|intros _]. cbv zeta. fold id.
  apply spec_bind, spec_read_bucket; [done| |].
  - intros Hnone. apply spec_ret. split_and!; [|done|by intros path]. destruct Hpend as (Hwf & Ho & Hp). split; [done|].
    intros id' Hid'. destruct (decide (id' = id)) as [->|Hne]; [|auto]. intros p Hv. destruct (Hp p Hv) as [_ H2].
    unfold stored_acl in *. rewrite Hnone in *. split; [|by intros ?%not_elem_of_nil]. intros Hi. by destruct (H2 Hi).
  - intros b Hb. assert (Forall (fun e => valid_principal (entry_principal e)) (doc_acl b)) as Hv.
    { destruct Hpend as [Hwf _]. by destruct (Hwf _ _ Hb) as (_ & _ & ?). }
    assert (forall m1, shrinks id (names (doc_acl b)) m m1 -> pending id [] m1) as Hstep.
    { intros m1 Hs. eapply pending_shrinks; [done| |done|done]. intros p _. apply not_elem_of_nil. }
    apply spec_bind. eapply spec_mono; [by apply remove_from_indices_spec|auto|]. cbv beta. intros _ m1 [Hs Hgone].
    assert (good (delete (bucket_path id) m1)) as Hgood.
    { destruct (Hstep _ Hs) as (Hwf & Ho & Hp). apply delete_settles; [done..|]. intros p Hp1 Hi. destruct (Hp p Hp1) as [_ H2].
      destruct Hs as [Hc _]. rewrite (changes_acl _ _ _ _ _ Hid Hc) in H2. unfold stored_acl in H2. rewrite Hb in H2.
      destruct (H2 Hi) as [?|?%not_elem_of_nil]; [|done]. by apply (Hgone p). }
    apply spec_call; cbn [fst snd]; [auto|by intros _; apply good_pending|]. split_and!; [done|by rewrite lookup_delete_eq|].
    intros path Hpath Hne. rewrite lookup_delete_ne by done. destruct Hs as [(_ & Hs & _) _]. by apply Hs.
Qed.

(** ** Users *)
Lemma plain_trim k : plain k -> trim k = k.
Proof.
  intros [_ Hk]%matches_ident_bytes. apply trim_visible. eapply all_bytes_impl; [|exact Hk]. intros c Hc. by apply ident_rest_plain.
Qed.
Lemma plain_key k : plain k -> valid_principal (AccessKey k).
Proof. unfold plain, valid_principal. cbn. unfold validate_access_key, ensure. by intros ->. Qed.

(** A change at a user's path touches neither buckets nor indexes. *)
Lemma user_change_good m m' k :
  plain k -> (forall path, path <> user_path k -> m' !! path = m !! path) -> wf m' -> good m -> good m'.
Proof.
  intros Hk Hs Hwf [_ Hex]. split; [done|]. intros id Hid p Hp. unfold indexed, stored_acl.
  rewrite (Hs (principal_path p)) by (by apply not_eq_sym, user_not_index).
  rewrite (Hs (bucket_path id)) by (by apply not_eq_sym, user_not_bucket). by apply Hex.
Qed.

Lemma upsert_user_spec u m :
  good m ->
  spec m (upsert_user u) (fun _ m' => good m')
    (fun _ m' => good m' /\ m' = <[user_path (trim (user_access_key u)) := DUser (trimmed_user u)]> m).
Proof.
  intros Hg. unfold upsert_user. do 2 (apply spec_bind, spec_reply_if; [done|intros _]). cbv zeta.
  apply spec_bind, spec_unwrap. unfold validate_access_key, ensure. destruct (matches_ident 127 _) eqn:Hk; [|done].
  change (user_access_key (trimmed_user u)) with (trim (user_access_key u)) in *.
  assert (good (<[user_path (trim (user_access_key u)) := DUser (trimmed_user u)]> m)) as Hg'.
  { eapply user_change_good; [exact Hk|intros path Hne; by rewrite lookup_insert_ne| |done].
    apply map_Forall_insert_2; [done|apply Hg]. }
  by apply spec_call.
Qed.

Lemma names_without ak acl p : names (without_key ak acl) p <-> names acl p /\ p <> AccessKey ak.
Proof.
  unfold names, without_key. rewrite !list_elem_of_fmap. setoid_rewrite list_elem_of_filter. split; [|naive_solver].
  intros (e & -> & Hne & He). split; [by exists e|done].
Qed.

(** What [delete_user] makes of a bucket's document *)
Definition strip_doc (ak : string) (b : BucketDoc) : BucketDoc :=
  let rest := without_key ak (doc_acl b) in
  if (length rest =? length (doc_acl b))%nat then b else normalized (trimmed_bucket (with_acl b rest)).
Definition strip_kv (ak : string) (d : kv_doc) : kv_doc := match d with DBucket b => DBucket (strip_doc ak b) | _ => d end.

Lemma without_same ak acl : ~ names acl (AccessKey ak) <-> length (without_key ak acl) = length acl.
Proof.
  split.
  - intros Hn. induction acl as [|e acl IH]; [done|]. unfold without_key. rewrite filter_cons. unfold names in Hn. rewrite fmap_cons, elem_of_cons in Hn.
    case_decide as Hd; [cbn [length]; f_equal; apply IH; by auto|]. exfalso. apply Hn. left. destruct (decide (entry_principal e = AccessKey ak)); [done|]. by destruct Hd.
  - intros Hl (e & He & Hin)%list_elem_of_fmap. assert (length (without_key ak acl) < length acl)%nat; [|lia].
    eapply length_filter_lt; [exact Hin|]. intros Hne. by apply Hne.
Qed.
Lemma strip_doc_same ak b : ~ names (doc_acl b) (AccessKey ak) -> strip_doc ak b = b.
Proof. intros Hn%without_same. unfold strip_doc. cbv zeta. by rewrite Hn, Nat.eqb_refl. Qed.
Lemma names_strip_doc ak b p : names (doc_acl (strip_doc ak b)) p <-> names (doc_acl b) p /\ p <> AccessKey ak.
Proof.
  unfold strip_doc. cbv zeta. destruct (Nat.eqb_spec (length (without_key ak (doc_acl b))) (length (doc_acl b))) as [Hl|Hl].
  - apply without_same in Hl. split; [|by intros []]. intros Hn. split; [done|]. by intros ->.
  - cbn [normalized trimmed_bucket with_acl doc_acl]. by rewrite names_normalize, names_without.
Qed.
Lemma strip_doc_idem ak b : strip_doc ak (strip_doc ak b) = strip_doc ak b.
Proof. apply strip_doc_same. rewrite names_strip_doc. by intros []. Qed.

(** The buckets [S] are stripped of [ak], other documents are kept. *)
Definition stripped (ak : string) (S : string -> Prop) (m m' : store) : Prop :=
  (forall id, plain id -> (S id -> m' !! bucket_path id = strip_kv ak <$> m !! bucket_path id) /\
                          (~ S id -> m' !! bucket_path id = m !! bucket_path id)) /\
  (forall k, plain k -> m' !! user_path k = m !! user_path k).

Lemma strip_key_spec ak id m :
  plain id -> good m ->
  spec m (strip_key ak id) (fun _ m' => exists acl, pending id acl m') (fun _ m' => good m' /\ stripped ak (eq id) m m').
Proof.
  intros Hid Hg. unfold strip_key.
  assert (forall acl, pending id acl m) as Hpend by (intros acl; by apply good_pending).
  assert (m !! bucket_path id = strip_kv ak <$> m !! bucket_path id -> stripped ak (eq id) m m) as Hnoop.
  { intros Hs. split; [|done]. intros id' _. split; [by intros <-|done]. }
  apply spec_bind, spec_read_bucket; [by exists []| |].
  { intros Hnone. apply spec_ret. split; [done|]. apply Hnoop. by rewrite Hnone. }
  intros b Hb. cbv zeta.
  destruct (Nat.eqb_spec (length (without_key ak (doc_acl b))) (length (doc_acl b))) as [Hl|Hl].
  { apply spec_ret. split; [done|]. apply Hnoop. rewrite Hb. cbn. by rewrite strip_doc_same by (by apply without_same). }
  pose proof (set_bucket_acl_spec id (without_key ak (doc_acl b)) m) as Hs. cbv zeta in Hs. rewrite (plain_trim id Hid) in Hs.
  eapply spec_mono; [by apply Hs|cbv beta; intros e m1 Hp; by exists (without_key ak (doc_acl b))|].
  cbv beta. intros _ m' (Hg' & He & b0 & Hb0 & Hb'). split; [done|]. rewrite Hb in Hb0. injection Hb0 as <-. split.
  - intros id' Hid'. split.
    + intros <-. rewrite Hb', Hb. cbn. unfold strip_doc. cbv zeta. by destruct (Nat.eqb_spec (length (without_key ak (doc_acl b))) (length (doc_acl b))).
    + intros Hne. apply He; [by intros; apply bucket_not_index|]. intros Heq%bucket_path_inj; [|done..]. by apply Hne.
  - intros k Hk. apply He; [by intros; apply user_not_index|by apply user_not_bucket].
Qed.

Lemma strip_all_spec ak ids m :
  Forall plain ids -> good m ->
  spec m (for_each_k (strip_key ak) ids) (fun _ m' => exists id acl, pending id acl m')
    (fun _ m' => good m' /\ stripped ak (fun id => id ∈ ids) m m').
Proof.
  revert m. induction ids as [|id ids IH]; intros m Hids Hg; cbn [for_each_k].
  { apply spec_ret. split; [done|]. split; [|done]. intros id _. split; [by intros ?%not_elem_of_nil|done]. }
  apply Forall_cons in Hids as [Hid Hids]. apply spec_bind. eapply spec_mono; [by apply strip_key_spec|intros e m1 [acl Hp]; by exists id, acl|].
  cbv beta. intros _ m1 [Hg1 [H1 U1]]. eapply spec_mono; [by apply IH|done|]. cbv beta. intros _ m2 [Hg2 [H2 U2]]. split; [done|]. split.
  - intros id' Hid'. destruct (H1 id' Hid') as [S1 K1]. destruct (H2 id' Hid') as [S2 K2].
    destruct (decide (id' ∈ ids)) as [Hin|Hin]; destruct (decide (id = id')) as [He|He]; split; intros Hx;
      try (exfalso; apply Hx; rewrite elem_of_cons; by auto); rewrite ?S2, ?K2, ?S1, ?K1 by done; try done.
    + destruct (m !! bucket_path id') as [[]|]; cbn; try done. by rewrite strip_doc_idem.
    + apply elem_of_cons in Hx as [->|Hx]; done.
  - intros k Hk. by rewrite U2, U1.
Qed.

Lemma delete_user_spec access_key m :
  let ak := trim access_key in
  plain ak -> good m ->
  spec m (delete_user access_key true) (fun _ m' => exists id acl, pending id acl m')
    (fun _ m' => good m' /\ m' !! user_path ak = None /\
       (forall id, plain id -> m' !! bucket_path id = strip_kv ak <$> m !! bucket_path id) /\
       (forall k, plain k -> k <> ak -> m' !! user_path k = m !! user_path k)).
Proof.
  intros ak Hak Hg. unfold delete_user. apply spec_bind, spec_reply_if; [|intros _]; cbv zeta; fold ak.
  { intros _. exists ak, []. by apply good_pending. }
  assert (forall m', good m' -> exists id acl, pending id acl m') as Hpend by (intros m' ?; exists ak, []; by apply good_pending).
  pose proof (wf_index m (idx_access_key ak) (proj1 Hg)) as Hids. pose proof (plain_key ak Hak) as Hv.
  apply spec_bind, spec_bind, spec_index_read; [auto|]. eapply spec_mono; [by apply strip_all_spec|done|]. cbv beta.
  intros _ m1 [Hg1 [H1 U1]].
  assert (forall id, plain id -> m1 !! bucket_path id = strip_kv ak <$> m !! bucket_path id) as Hdocs.
  { intros id Hid. destruct (H1 id Hid) as [S1 K1].
    destruct (decide (id ∈ index_of (m !! idx_access_key ak))) as [Hin|Hin]; [auto|]. rewrite K1 by done.
    destruct (m !! bucket_path id) as [[u|b|l]|] eqn:Eb; cbn; try done. rewrite strip_doc_same; [done|]. intros Hn.
    apply Hin, (proj2 Hg id Hid (AccessKey ak) Hv). unfold stored_acl. by rewrite Eb. }
  assert (index_of (m1 !! idx_access_key ak) = []) as Hempty.
  { pose proof (wf_index m1 (idx_access_key ak) (proj1 Hg1)) as Hpl. apply elem_of_nil_inv. intros id Hid.
    rewrite list.Forall_forall in Hpl. specialize (Hpl id Hid). apply (proj2 Hg1 id Hpl (AccessKey ak) Hv) in Hid.
    unfold stored_acl in Hid. rewrite Hdocs in Hid by done. destruct (m !! bucket_path id) as [[]|]; cbn in Hid; try by apply not_elem_of_nil in Hid.
    apply names_strip_doc in Hid. by destruct Hid. }
  assert (good (delete (user_path ak) m1)) as Hg2.
  { eapply user_change_good; [exact Hak|intros path Hne; by rewrite lookup_delete_ne| |done]. by apply map_Forall_delete, Hg1. }
  apply spec_bind, spec_call; cbn [fst snd]; [auto..|].
  assert (idx_access_key ak <> user_path ak) as Hne by (by apply not_eq_sym, (user_not_index ak (AccessKey ak))).
  assert (forall id, plain id -> delete (idx_access_key ak) (delete (user_path ak) m1) !! bucket_path id = m1 !! bucket_path id) as Hst.
  { intros id Hid. rewrite lookup_delete_ne by (by apply not_eq_sym, (bucket_not_index id (AccessKey ak))).
    rewrite lookup_delete_ne; [done|by apply user_not_bucket]. }
  assert (good (delete (idx_access_key ak) (delete (user_path ak) m1))) as Hg3.
  { split; [by apply map_Forall_delete, Hg2|]. intros id Hid p Hp. unfold stored_acl. rewrite Hst by done.
    fold (stored_acl m1 id). rewrite <- (proj2 Hg1 id Hid p Hp). unfold indexed.
    destruct (decide (principal_path p = idx_access_key ak)) as [->|Hd]; [by rewrite lookup_delete_eq, Hempty|].
    rewrite !lookup_delete_ne; [done|by apply user_not_index|done]. }
  apply spec_call; cbn [fst snd]; [auto..|]. split_and!; [done|by rewrite lookup_delete_ne, lookup_delete_eq| |].
  - intros id Hid. rewrite Hst by done. auto.
  - intros k Hk Hka. rewrite lookup_delete_ne by (by apply not_eq_sym, (user_not_index k (AccessKey ak))).
    rewrite lookup_delete_ne; [auto|]. rewrite !user_path_plain by done. intros Heq%str_app_inv_l. by apply Hka.
Qed.

(** ** The directory on the store *)
Definition stored (m : store) (b : BucketDoc) : Prop := exists path, m !! path = Some (DBucket b).
(** Some call between the two states failed. *)
Definition call_failed (s s' : kv_state) : Prop := exists n, (kv_calls s <= n < kv_calls s')%nat /\ kv_fault n <> None.
(** [blames c]: when [c] reports a failing call, one of its calls has failed. *)
Definition blames {A} (c : K A) : Prop := forall s,
  (kv_calls s <= kv_calls (snd (c s)))%nat /\ (fst (c s) = Return (BackendError "openbao") -> call_failed s (snd (c s))).

Lemma blames_ret {A} (a : A) : blames (mret a).
Proof. by intros s. Qed.
Lemma blames_error {A} e : e <> BackendError "openbao" -> blames (reply_with e : K A).
Proof. intros He s. split; [done|]. cbn. intros [= ->]. done. Qed.
Lemma blames_unwrap {A} (r : res dir_error A) : r <> Err (BackendError "openbao") -> blames (unwrap_or_reply r id).
Proof. intros Hr s. destruct r; split; try done; cbn. by intros [= ->]. Qed.
Lemma blames_call {A} (f : store -> A * store) : blames (kv_call f).
Proof.
  intros s. unfold kv_call. destruct (kv_fault (kv_calls s)) as [a|] eqn:Ef; cbn; (split; [lia|]); [|done].
  intros _. exists (kv_calls s). cbn. split; [lia|congruence].
Qed.
Lemma blames_bind {A B} (c : K A) (f : A -> K B) : blames c -> (forall a, blames (f a)) -> blames (c ≫= f).
Proof.
  intros Hc Hf s. destruct (Hc s) as [Hle Hb]. unfold mbind, handler_bind. destruct (c s) as [[a|e| |] s1]; cbn in *; [|split; [done|]; intros [= ->]; by apply Hb|by split..].
  destruct (Hf a s1) as [Hle1 Hb1]. split; [lia|]. intros He. destruct (Hb1 He) as (n & Hn & Hfn). exists n. split; [lia|done].
Qed.
Lemma blames_index_read path : blames (index_read path).
Proof. apply blames_bind; [apply blames_call|]. intros d. apply blames_ret. Qed.
Lemma blames_indices paths ids : blames (read_indices paths ids).
Proof. revert ids. induction paths as [|p paths IH]; intros ids; cbn; [apply blames_ret|]. apply blames_bind; [apply blames_index_read|auto]. Qed.
Lemma blames_read_bucket path : blames (read_bucket path).
Proof. apply blames_bind; [apply blames_call|]. intros [[]|]; first [apply blames_ret|by apply blames_error]. Qed.
Lemma blames_views ak gs ids seen out : blames (read_views ak gs ids seen out).
Proof.
  revert seen out. induction ids as [|id ids IH]; intros seen out; cbn [read_views]; [apply blames_ret|].
  apply blames_bind; [apply blames_read_bucket|]. intros [b|]; [|apply IH]. destruct (effective_access _ _ _); [|apply IH].
  case_bool_decide; [by apply blames_error|apply IH].
Qed.
Lemma blames_buckets ak : blames (openbao_buckets ak).
Proof.
  unfold openbao_buckets, openbao_user, read_user. apply blames_bind.
  { apply blames_bind; [apply blames_call|]. intros [[]|]; first [apply blames_ret|by apply blames_error]. }
  intros [u|]; [|apply blames_ret]. apply blames_bind; [apply blames_unwrap; unfold groups_for_user; by repeat case_match|]. intros gs. cbv zeta.
  apply blames_bind; [apply blames_index_read|]. intros l. apply blames_bind; [apply blames_indices|]. intros ids.
  apply blames_bind; [apply blames_views|]. intros out. apply blames_ret.
Qed.

Lemma spec_call_pure {A} m (f : store -> A) (P : dir_error -> store -> Prop) (Q : A -> store -> Prop) :
  P (BackendError "openbao") m -> Q (f m) m -> spec m (kv_call (fun m => (f m, m))) P Q.
Proof. intros HP HQ s <-. unfold kv_call. by destruct (kv_fault (kv_calls s)) as [[]|]. Qed.

Definition fetch_of (m : store) (id : string) : res dir_error (option BucketDoc) :=
  match m !! bucket_path id with None => Ok None | Some (DBucket b) => Ok (Some b) | Some _ => Err (BackendError "json") end.

Lemma read_indices_spec m paths ids :
  spec m (read_indices paths ids) (fun e m' => m' = m /\ e = BackendError "openbao")
    (fun r m' => m' = m /\ forall x, x ∈ r <-> x ∈ ids \/ exists p, p ∈ paths /\ x ∈ index_of (m !! p)).
Proof.
  revert ids. induction paths as [|p paths IH]; intros ids; cbn [read_indices].
  { apply spec_ret. split; [done|]. set_solver. }
  apply spec_bind, spec_bind, spec_call_pure; [done|]. apply spec_ret.
  eapply spec_mono; [apply IH|done|]. cbv beta. intros r m' [-> Hr]. split; [done|]. intros x. rewrite Hr. set_solver.
Qed.

Lemma read_views_spec m ak gs ids seen out :
  spec m (read_views ak gs ids seen out)
    (fun e m' => m' = m /\ (e = BackendError "openbao" \/ collect_views (fetch_of m) ak gs ids seen out = Err e))
    (fun r m' => m' = m /\ collect_views (fetch_of m) ak gs ids seen out = Ok r).
Proof.
  revert seen out. induction ids as [|id ids IH]; intros seen out; cbn [read_views collect_views]; [by apply spec_ret|].
  apply spec_bind, spec_bind, spec_call_pure; [auto|].
  change (fetch_of m id) with (match m !! bucket_path id with None => Ok None | Some (DBucket b) => Ok (Some b) | Some _ => Err (BackendError "json") end).
  destruct (m !! bucket_path id) as [[u|b|l]|]; cbn [mbind res_bind]; [apply spec_error; auto| |
    apply spec_error; auto|apply spec_ret; apply IH].
  apply spec_ret. destruct (effective_access (doc_acl b) ak gs) as [l|]; [|apply IH].
  case_bool_decide; [apply spec_error; auto|apply IH].
Qed.

Lemma bucket_path_holds m id d : wf m -> plain id -> m !! bucket_path id = Some d -> exists b, d = DBucket b /\ doc_id b = id.
Proof.
  intros Hwf Hid Hd. specialize (Hwf _ _ Hd). destruct d as [u|b|ids]; cbn in Hwf.
  - destruct Hwf as [Hk Hp]. symmetry in Hp. by apply user_not_bucket in Hp.
  - destruct Hwf as (Hb & Hp & _). exists b. split; [done|]. symmetry. by apply bucket_path_inj.
  - destruct Hwf as ((p & Hv & Hp) & _). by apply bucket_not_index in Hp.
Qed.

(** Every bucket that grants the user something is a candidate. *)
Lemma granted_indexed m ak gs b v :
  good m -> stored m b -> granted_view ak gs b = Some v ->
  m !! bucket_path (doc_id b) = Some (DBucket b) /\ plain (doc_id b) /\
  (indexed m (doc_id b) (AccessKey ak) \/ exists g, g ∈ gs /\ indexed m (doc_id b) (GroupName g)).
Proof.
  intros [Hwf Hex] [path Hb] Hv. destruct (Hwf _ _ Hb) as (Hid & -> & Hacl). split; [done|]. split; [done|].
  destruct (decide (Exists (fun e => entry_matches ak gs e = true) (doc_acl b))) as [He|He].
  2: { unfold granted_view in Hv. rewrite (proj2 (effective_none ak gs (doc_acl b))) in Hv; [done|].
       intros e Hin Hh. apply He, list.Exists_exists. by exists e. }
  apply list.Exists_exists in He as (e & He & Hm). rewrite list.Forall_forall in Hacl. pose proof (Hacl e He) as Hvp.
  assert (indexed m (doc_id b) (entry_principal e)) as Hi.
  { apply Hex; [done|done|]. unfold stored_acl. rewrite Hb. apply list_elem_of_fmap. by exists e. }
  unfold entry_matches in Hm. destruct (entry_principal e) as [k|g].
  - apply String.eqb_eq in Hm as ->. by left.
  - apply bool_decide_eq_true in Hm. right. by exists g.
Qed.

Lemma candidates_exact m ak gs ids :
  good m -> (forall x, x ∈ ids -> plain x) ->
  (forall x, x ∈ ids <-> indexed m x (AccessKey ak) \/ exists g, g ∈ gs /\ indexed m x (GroupName g)) ->
  match collect_views (fetch_of m) ak gs (hash_order (elements (ids : gset string))) ∅ [] with
  | Ok out => StronglySorted view_lt (merge_sort view_le out) /\ forall v, v ∈ merge_sort view_le out <-> sees (stored m) ak gs v
  | Err e => ambiguous (stored m) ak gs e
  | Panics => False
  end.
Proof.
  intros Hg Hpl Hids. assert (forall x, x ∈ hash_order (elements ids) <-> x ∈ ids) as Hord
    by (intros x; by rewrite hash_order_perm, elem_of_elements).
  set (f id := match m !! bucket_path id with Some (DBucket b) => Some b | _ => None end).
  apply (collect_views_exact ak gs (fetch_of m) f).
  - rewrite hash_order_perm. apply NoDup_elements.
  - intros id Hid%Hord%Hpl. unfold fetch_of, f. destruct (m !! bucket_path id) as [d|] eqn:Ed; [|done].
    by destruct (bucket_path_holds m id d (proj1 Hg) Hid Ed) as (b & -> & _).
  - intros id b v Hid%Hord%Hpl Hf Hv. unfold f in Hf. destruct (m !! bucket_path id) as [d|] eqn:Ed; [|done].
    destruct (bucket_path_holds m id d (proj1 Hg) Hid Ed) as (b' & -> & Hd). injection Hf as ->. exists b. split_and!; [by eexists|done|done].
  - intros b v Hb Hv. destruct (granted_indexed m ak gs b v Hg Hb Hv) as (Hl & Hid & Hi). exists (doc_id b), b.
    rewrite Hord, Hids. split_and!; [done| |done]. unfold f. by rewrite Hl.
Qed.

Lemma openbao_buckets_spec m ak :
  good m ->
  spec m (openbao_buckets ak)
    (fun e m' => m' = m /\ (e = BackendError "openbao" \/
       e = BackendError "json" /\ (exists d, m !! user_path ak = Some d /\ forall u, d <> DUser u) \/
       exists u, m !! user_path ak = Some (DUser u) /\
       match groups_for_user (user_username u) (user_gid u) with Ok gs => ambiguous (stored m) ak (list_to_set gs) e | r => r = Err e end))
    (fun views m' => m' = m /\ match m !! user_path ak with
       | Some (DUser u) => exists gs, groups_for_user (user_username u) (user_gid u) = Ok gs /\ StronglySorted view_lt views /\
           forall v, v ∈ views <-> sees (stored m) ak (list_to_set gs) v
       | d => d = None /\ views = []
       end).
Proof.
  intros Hg. unfold openbao_buckets, openbao_user, read_user.
  apply spec_bind, spec_bind, spec_call_pure; [auto|].
  destruct (m !! user_path ak) as [[u|b|l]|] eqn:Eu; [apply spec_ret|apply spec_error; split; [done|right; left; eauto]..|by apply spec_ret, spec_ret].
  apply spec_bind, spec_unwrap. destruct (groups_for_user _ _) as [gs|e|] eqn:Eg; [|split; [done|right; right]; exists u; by rewrite Eg|].
  2: { revert Eg. unfold groups_for_user. by repeat case_match. }
  cbv zeta. set (grp := list_to_set gs : gset string).
  apply spec_bind, spec_bind, spec_call_pure; [auto|]. apply spec_ret. apply spec_bind.
  eapply spec_mono; [apply read_indices_spec|intros e m' [-> He]; auto|]. cbv beta. intros ids m' [-> Hids].
  assert (forall x, x ∈ ids -> plain x) as Hpl.
  { intros x [Hx|(p & _ & Hx)]%Hids; [rewrite elem_of_list_to_set in Hx|]; revert x Hx; apply list.Forall_forall, wf_index, Hg. }
  assert (forall x, x ∈ ids <-> indexed m x (AccessKey ak) \/ exists g, g ∈ grp /\ indexed m x (GroupName g)) as Hcand.
  { intros x. rewrite Hids, elem_of_list_to_set. unfold indexed. cbn [principal_path].
    setoid_rewrite list_elem_of_fmap. setoid_rewrite hash_order_perm. setoid_rewrite elem_of_elements. apply or_iff_compat_l.
    split; [intros (p & (g & -> & Hg') & Hx); by exists g|intros (g & Hg' & Hx)]. exists (idx_group g). split; [by exists g|done]. }
  pose proof (candidates_exact m ak grp ids Hg Hpl Hcand) as Hcx.
  apply spec_bind. eapply spec_mono; [apply read_views_spec| |]; cbv beta.
  - intros e m' [-> [He|He]]; [auto|]. rewrite He in Hcx. split; [done|right; right]. exists u. by rewrite Eg.
  - intros out m' [-> Ho]. rewrite Ho in Hcx. apply spec_ret. split; [done|]. by exists gs.
Qed.

(** C37. Grants take effect on the next lookup, and only grants do.  From a
    store whose indexes are exact, [buckets_for_access_key] changes nothing
    and answers an unknown key with no buckets and a known one, sorted and
    each name once, with exactly the stored buckets whose access list grants
    the user or one of his groups something, at the highest level granted; it
    fails only when one of its own calls of the store failed, when the path of
    the key holds something other than a user, for a failing group lookup, or
    for two such buckets with one name. *)
Theorem openbao_buckets_exact (s : kv_state) (ak : string) :
  good (kv s) ->
  match openbao_buckets ak s with
  | (Next views, s') => kv s' = kv s /\
      match kv s !! user_path ak with
      | Some (DUser u) => exists gs, groups_for_user (user_username u) (user_gid u) = Ok gs /\ StronglySorted view_lt views /\
          forall v, v ∈ views <-> sees (stored (kv s)) ak (list_to_set gs) v
      | d => d = None /\ views = []
      end
  | (Return e, s') => kv s' = kv s /\ (e = BackendError "openbao" /\ call_failed s s' \/
      e = BackendError "json" /\ (exists d, kv s !! user_path ak = Some d /\ forall u, d <> DUser u) \/
      exists u, kv s !! user_path ak = Some (DUser u) /\
      match groups_for_user (user_username u) (user_gid u) with
      | Ok gs => ambiguous (stored (kv s)) ak (list_to_set gs) e
      | r => r = Err e
      end)
  | _ => False
  end.
Proof.
  intros Hg. pose proof (openbao_buckets_spec (kv s) ak Hg s eq_refl) as Hs. destruct (blames_buckets ak s) as [_ Hb].
  destruct (openbao_buckets ak s) as [[views|e| |] s']; [done| |done|done]. destruct Hs as [Hk [->|He]]; (split; [done|]); [|by right].
  left. split; [done|]. by apply Hb.
Qed.

(** ** The operations of the administration *)
Inductive admin_op :=
| UpsertUser (u : UserDoc) | DeleteUser (access_key : string) (cleanup_acls : bool)
| UpsertBucket (b : BucketDoc) | SetBucketAcl (bucket_id : string) (acl : list AclEntry) | DeleteBucket (bucket_id : string).
Definition run_op (op : admin_op) : K unit :=
  match op with
  | UpsertUser u => upsert_user u
  | DeleteUser k cleanup_acls => delete_user k cleanup_acls
  | UpsertBucket b => upsert_bucket b
  | SetBucketAcl id acl => set_bucket_acl id acl
  | DeleteBucket id => delete_bucket id
  end.
(** Ids and keys of the characters an access key has, as a UUID *)
Definition plain_op (op : admin_op) : Prop :=
  match op with
  | UpsertUser _ => True
  | DeleteUser k _ => plain (trim k)
  | UpsertBucket b => plain (trim (doc_id b))
  | SetBucketAcl id _ | DeleteBucket id => plain (trim id)
  end.
(** What the store may be in when the operation starts again *)
Definition resumable (op : admin_op) (m : store) : Prop :=
  match op with
  | UpsertUser _ | DeleteUser _ _ => good m
  | UpsertBucket b => pending (trim (doc_id b)) (doc_acl b) m
  | SetBucketAcl id acl => pending (trim id) acl m
  | DeleteBucket id => pending (trim id) [] m
  end.
(** The indexes when the operation has succeeded: exact, but for a deletion
    that keeps the grants, where the index of the deleted key is empty
    whatever the access lists say, and the other indexes are exact. *)
Definition left_exact (op : admin_op) (m : store) : Prop :=
  match op with
  | DeleteUser k false => wf m /\ forall id p, plain id -> valid_principal p ->
      (indexed m id p <-> names (stored_acl m id) p /\ p <> AccessKey (trim k))
  | _ => good m
  end.
(** What a failing operation leaves *)
Definition left_broken (op : admin_op) (m : store) : Prop :=
  match op with
  | DeleteUser _ true => exists id acl, pending id acl m
  | DeleteUser _ false => good m \/ left_exact op m
  | _ => resumable op m
  end.
(** What the operation leaves when it succeeds *)
Definition done_by (op : admin_op) (m m' : store) : Prop :=
  match op with
  | UpsertUser u => m' = <[user_path (trim (user_access_key u)) := DUser (trimmed_user u)]> m
  | DeleteUser k false => m' = delete (idx_access_key (trim k)) (delete (user_path (trim k)) m)
  | DeleteUser k true => m' !! user_path (trim k) = None /\
      forall id p, plain id -> names (stored_acl m' id) p <-> names (stored_acl m id) p /\ p <> AccessKey (trim k)
  | UpsertBucket b => elsewhere (trim (doc_id b)) m m' /\ m' !! bucket_path (trim (doc_id b)) = Some (DBucket (normalized (trimmed_bucket b)))
  | SetBucketAcl id acl => elsewhere (trim id) m m' /\
      exists b, m !! bucket_path (trim id) = Some (DBucket b) /\ m' !! bucket_path (trim id) = Some (DBucket (normalized (trimmed_bucket (with_acl b acl))))
  | DeleteBucket id => elsewhere (trim id) m m' /\ m' !! bucket_path (trim id) = None
  end.

Lemma delete_user_only_spec k m :
  plain (trim k) -> good m ->
  let op := DeleteUser k false in
  spec m (delete_user k false) (fun _ m' => good m' \/ left_exact op m') (fun _ m' => left_exact op m' /\ done_by op m m').
Proof.
  intros Hk Hg op. pose proof (plain_key _ Hk) as Hv. unfold delete_user. apply spec_bind, spec_reply_if; [auto|intros _]. apply spec_bind, spec_ret.
  set (m1 := delete (user_path (trim k)) m). set (m2 := delete (idx_access_key (trim k)) m1).
  assert (good m1) as Hg1.
  { eapply user_change_good; [exact Hk|intros path Hne; by apply lookup_delete_ne| |done]. by apply map_Forall_delete, Hg. }
  assert (left_exact op m2) as Hex.
  { split; [by apply map_Forall_delete, Hg1|]. intros id p Hid Hp.
    assert (stored_acl m2 id = stored_acl m1 id) as ->.
    { unfold stored_acl, m2. by rewrite lookup_delete_ne by (by apply not_eq_sym, (bucket_not_index id (AccessKey (trim k)))). }
    rewrite <- (proj2 Hg1 id Hid p Hp). unfold indexed, m2. destruct (decide (p = AccessKey (trim k))) as [->|Hne].
    - cbn [principal_path]. rewrite lookup_delete_eq. split; [by intros ?%not_elem_of_nil|tauto].
    - rewrite lookup_delete_ne; [tauto|]. intros Hpath. apply Hne. by apply principal_path_inj. }
  apply spec_bind, spec_call; [by left|by left|]. apply spec_call; cbn [fst snd]; fold m1; [by left|by right|done].
Qed.

Lemma run_op_spec op m :
  plain_op op -> resumable op m ->
  spec m (run_op op)
    (fun _ m' => left_broken op m')
    (fun _ m' => left_exact op m' /\ done_by op m m').
Proof.
  intros Hop Hr. destruct op as [u|k []|b|id acl|id]; cbn [run_op left_broken left_exact resumable done_by plain_op] in *.
  - by apply upsert_user_spec.
  - eapply spec_mono; [by apply delete_user_spec|done|]. cbv beta. intros _ m' (Hg & Hn & Hd & _). split_and!; [done..|].
    intros id p Hid. unfold stored_acl. rewrite Hd by done. destruct (m !! bucket_path id) as [[]|]; cbn [fmap option_fmap option_map strip_kv];
      [|apply names_strip_doc|..]; (split; [by intros ?%not_elem_of_nil|by intros [?%not_elem_of_nil _]]).
  - by apply delete_user_only_spec.
  - eapply spec_mono; [by apply upsert_bucket_spec|done|]. cbv beta. intros _ m' (? & ? & ? & _). auto.
  - by apply set_bucket_acl_spec.
  - eapply spec_mono; [by apply delete_bucket_spec|done|]. cbv beta. intros _ m' (? & ? & ?). auto.
Qed.

(** C36. The administration and its indexes.  An operation on a store with
    exact indexes, or a bucket operation on a store where it failed before,
    always ends.  When it succeeds it has done its work and the indexes are
    exact again, although documents and indexes are written in separate calls
    that may each fail; only a deletion of a user that keeps the grants leaves
    the index of that key empty while access lists go on naming it.  When a
    call fails half-way, a bucket operation can be repeated and, once it
    succeeds, repairs the indexes; a deletion of a user that cleans up leaves
    one bucket half changed. *)
Theorem admin_repairs_indexes (op : admin_op) (s : kv_state) :
  plain_op op -> resumable op (kv s) ->
  match run_op op s with
  | (Next _, s') => left_exact op (kv s') /\ done_by op (kv s) (kv s')
  | (Return _, s') => left_broken op (kv s')
  | _ => False
  end.
Proof. intros Hop Hr. by apply (run_op_spec op (kv s) Hop Hr). Qed.

Lemma good_resumable op m : plain_op op -> good m -> resumable op m.
Proof. destruct op; cbn; auto using good_pending. Qed.

(** An import of documents into a store with exact indexes *)
Lemma for_each_good {X} (f : X -> K unit) (P : dir_error -> store -> Prop) l m :
  (forall x m, x ∈ l -> good m -> spec m (f x) P (fun _ => good)) -> good m -> spec m (for_each_k f l) P (fun _ => good).
Proof.
  revert m. induction l as [|x l IH]; intros m Hf Hg; cbn [for_each_k]; [by apply spec_ret|].
  apply spec_bind. eapply spec_mono; [by apply Hf; [set_solver|]|done|]. cbv beta. intros _ m' Hg'. apply IH; [|done]. intros y m2 Hy. apply Hf. set_solver.
Qed.

Lemma for_each_no_panics {X} (f : X -> res dir_error unit) l : (forall x, f x <> Panics) -> for_each f l <> Panics.
Proof. intros Hf. induction l as [|x l IH]; cbn; [done|]. specialize (Hf x). by destruct (f x) as [[]| |]. Qed.

Lemma validate_doc_no_panics doc : validate doc <> Panics.
Proof.
  unfold validate, ensure. destruct (_ =? _)%Z; [|done]. cbn [mbind res_bind].
  pose proof (for_each_no_panics (fun u => validate_access_key (user_access_key u)) (file_users doc)) as Hu.
  destruct (for_each _ (file_users doc)) as [[]| |]; cbn [mbind res_bind]; [|done|apply Hu; intros u; unfold validate_access_key, ensure; by case_match].
  apply for_each_no_panics. intros b. destruct (validate_bucket_name _) as [[]| |] eqn:En; cbn [mbind res_bind]; [apply validate_no_panics|done|].
  revert En. unfold validate_bucket_name. by repeat case_match.
Qed.

Lemma import_spec doc m :
  Forall (fun b => plain (trim (doc_id b))) (file_buckets doc) -> good m ->
  spec m (import_doc doc false) (fun _ m' => exists id acl, pending id acl m') (fun _ => good).
Proof.
  intros Hids Hg. rewrite list.Forall_forall in Hids.
  assert (forall m', good m' -> exists id acl, pending id acl m') as Hpend by (intros m' ?; exists "x", []; by apply good_pending).
  unfold import_doc. apply spec_bind, spec_unwrap. destruct (validate doc) eqn:Ev; [|auto|by apply validate_doc_no_panics in Ev].
  apply spec_bind, spec_ret, spec_bind. eapply spec_mono; [apply (for_each_good _ (fun _ m' => exists id acl, pending id acl m')); [|done]|done|].
  - intros u m1 _ Hg1. eapply spec_mono; [by apply upsert_user_spec|auto|by intros _ m2 []].
  - cbv beta. intros _ m1 Hg1. apply for_each_good; [|done]. intros b m2 Hb Hg2.
    eapply spec_mono; [apply (upsert_bucket_spec (normalized b))|cbv beta; eauto|by intros _ m3 []].
    + exact (Hids b Hb).
    + apply good_pending; [exact (Hids b Hb)|done].
Qed.
End Loops.
End Paths.

(** ** An administered directory

    The directory file of before, imported into an empty store that serves
    every call, and one whose call number [n] fails before it takes effect. *)
Definition calm : KvEnv := {| kv_fault := fun _ => None; layout_prefix := "/s32p/" |}.
Definition failing_at (n : nat) : KvEnv :=
  {| kv_fault := fun k => if (k =? n)%nat then Some false else None; layout_prefix := "/s32p/" |}.
Definition empty_store : kv_state := {| kv := ∅; kv_calls := 0 |}.
#[local] Existing Instance demo_nss.

Definition private_doc : DirectoryFileV1 := {|
  file_version := 1%Z; file_users := [demo_user];
  file_buckets := [{| doc_id := "1"; doc_name := "home"; doc_data_path := "/d/home";
                      doc_acl := [{| entry_principal := AccessKey "AK1"; entry_access := ReadWrite |}] |}] |}.
Definition imported (doc : DirectoryFileV1) : kv_state := snd (import_doc (E := calm) doc false empty_store).

Lemma good_empty {E : KvEnv} : good ∅.
Proof.
  split; [by apply map_Forall_empty|]. intros id _ p _. unfold indexed, stored_acl. rewrite !lookup_empty. cbn.
  unfold names. cbn. split; by intros ?%not_elem_of_nil.
Qed.

Lemma imported_good doc :
  forallb (fun b => matches_ident 127 (trim (doc_id b))) (file_buckets doc) = true ->
  fst (import_doc (E := calm) doc false empty_store) = Next () -> good (E := calm) (kv (imported doc)).
Proof.
  intros Hids Hok. pose proof (import_spec (E := calm) doc ∅) as H. unfold imported.
  specialize (H ltac:(apply list.Forall_forall; intros b Hb; rewrite forallb_forall in Hids; by apply Hids, list_elem_of_In) good_empty empty_store eq_refl).
  destruct (import_doc _ _ _) as [[] s']; cbn in *; done.
Qed.

Lemma openbao_buckets_exact_witness :
  good (E := calm) (kv (imported demo_doc)) /\
  fst (openbao_buckets (E := calm) "AK1" (imported demo_doc)) = Next alice_views /\
  forall v, v ∈ alice_views <-> sees (stored (kv (imported demo_doc))) "AK1" (list_to_set ["lab"; "users"]) v.
Proof.
  assert (good (E := calm) (kv (imported demo_doc))) as Hg by (apply imported_good; vm_compute; reflexivity).
  assert (fst (openbao_buckets (E := calm) "AK1" (imported demo_doc)) = Next alice_views) as E1 by (vm_compute; reflexivity).
  split; [exact Hg|]. split; [exact E1|].
  pose proof (openbao_buckets_exact (E := calm) (imported demo_doc) "AK1" Hg) as H.
  destruct (openbao_buckets (E := calm) "AK1" (imported demo_doc)) as [f s']. cbn [fst] in E1. subst f. destruct H as [_ H].
  assert (kv (imported demo_doc) !! user_path (E := calm) "AK1" = Some (DUser demo_user)) as Eu by (vm_compute; reflexivity).
  rewrite Eu in H. destruct H as (gs & Egs & _ & Hv).
  assert (groups_for_user (user_username demo_user) (user_gid demo_user) = Ok ["lab"; "users"]) as Eg by (vm_compute; reflexivity).
  rewrite Eg in Egs. injection Egs as <-. exact Hv.
Defined.

(** A change of an access list whose last call, the write of the bucket's
    document, fails; the same change is then made again. *)
Definition ops_read : list AclEntry := [{| entry_principal := GroupName "ops"; entry_access := ReadOnly |}].
Definition regrant : admin_op := SetBucketAcl "1" ops_read.
Definition before_regrant : kv_state := {| kv := kv (imported private_doc); kv_calls := 0 |}.
Definition halfway : kv_state := snd (run_op (E := failing_at 6) regrant before_regrant).
Definition repaired : kv_state := snd (run_op (E := calm) regrant halfway).

Lemma admin_repairs_indexes_witness :
  (fst (run_op (E := failing_at 6) regrant before_regrant) = Return (BackendError "openbao") /\
   kv halfway !! idx_access_key (E := calm) "AK1" = None /\ fst (openbao_buckets (E := calm) "AK1" halfway) = Next []) /\
  resumable (E := calm) regrant (kv halfway) /\ good (E := calm) (kv repaired).
Proof.
  split; [split_and!; vm_compute; reflexivity|].
  assert (good (E := calm) (kv before_regrant)) as Hg by (apply (imported_good private_doc); vm_compute; reflexivity).
  assert (resumable (E := calm) regrant (kv halfway)) as Hr.
  { pose proof (admin_repairs_indexes (E := failing_at 6) regrant before_regrant eq_refl (good_resumable (E := failing_at 6) regrant _ eq_refl Hg)) as H.
    assert (fst (run_op (E := failing_at 6) regrant before_regrant) = Return (BackendError "openbao")) as E1 by (vm_compute; reflexivity).
    unfold halfway. destruct (run_op (E := failing_at 6) regrant before_regrant) as [f s']. cbn [fst] in E1. subst f. exact H. }
  split; [exact Hr|]. pose proof (admin_repairs_indexes (E := calm) regrant halfway eq_refl Hr) as H.
  assert (fst (run_op (E := calm) regrant halfway) = Next tt) as E2 by (vm_compute; reflexivity).
  unfold repaired. destruct (run_op (E := calm) regrant halfway) as [f s']. cbn [fst] in E2. subst f. exact (proj1 H).
Defined.

Definition recreate : list (K unit) :=
  [delete_user (E := calm) "AK1" false; upsert_user (E := calm) demo_user;
   set_bucket_acl (E := calm) "1" [{| entry_principal := AccessKey "AK1"; entry_access := ReadWrite |}]].

(** Deleting a user without cleaning up the access lists loses his
    grants for good.  The index of the key is deleted while the bucket's
    access list keeps naming it; when the key is created again and the same
    access list set again, both calls succeed and the user still sees no
    bucket, because only principals new to the list are added to indexes. *)
Theorem kept_grant_is_lost :
  let s := imported private_doc in
  let r := for_each_k id recreate s in
  fst (openbao_buckets (E := calm) "AK1" s) =
    Next [{| bucket_id := "1"; bucket_name := "home"; data_path := "/d/home"; access := ReadWrite |}] /\
  fst r = Next tt /\ names (stored_acl (E := calm) (kv (snd r)) "1") (AccessKey "AK1") /\
  fst (openbao_buckets (E := calm) "AK1" (snd r)) = Next [].
Proof. vm_compute. split_and!; [done|done|by apply list_elem_of_here|done]. Qed.

(** A user deletion that fails half-way is not completed by repeating
    it.  The bucket has left the index of the key, its access list still
    names the key; the second deletion finds nothing in the index and
    succeeds, and the access list keeps the grant to the deleted key. *)
Theorem deletion_not_resumed :
  let s := before_regrant in
  let once := delete_user (E := failing_at 6) "AK1" true s in
  let twice := delete_user (E := calm) "AK1" true (snd once) in
  fst once = Return (BackendError "openbao") /\ fst twice = Next tt /\
  kv (snd twice) !! user_path (E := calm) "AK1" = None /\ names (stored_acl (E := calm) (kv (snd twice)) "1") (AccessKey "AK1").
Proof. vm_compute. split_and!; try done. by apply list_elem_of_here. Qed.
