(* ===== verification/BaoClient.v ===== *)
(** * s32p-directory/src/openbao_client.rs, s32p-admin/src/openbao.rs: the
    OpenBao session and its set-up

    The client keeps one token, logs in again when it is about to expire,
    and sends it with every call; [setup] mounts the store and creates the
    roles of the proxy and the administrator.  The server and the network
    are a parameter ([http], on a world of any type, which also carries the
    clock); serde_json's parser is one too.  Every call is recorded in
    [bs_log].  The calls on documents are in OpenBao.v. *)

From Stdlib Require Import ZArith Lia Ascii.
From stdpp Require Import base list strings numbers option.
From S2P Require Import Prelude RustStr Utils Directory.

Local Open Scope s3_scope.
Local Open Scope string_scope.

(** ** serde_json::Value *)
Inductive json := JNull | JBool (b : bool) | JNum (n : Z) | JStr (s : string) | JArr (l : list json) | JObj (l : list (string * json)).
(** [Value::get] with a string index *)
Definition jget (k : string) (v : json) : option json :=
  match v with JObj l => snd <$> List.find (fun kv => fst kv =s k) l | _ => None end.
Definition as_str (v : json) : option string := match v with JStr s => Some s | _ => None end.

Record bao_request := { rq_method : string; rq_url : string; rq_token : option string; rq_body : option json }.
Inductive OpenBaoAuth := TokenAuth (token : string) | AppRole (mount role_id secret_id : string).
Inductive bao_error := SendFailed (what : string) | BadStatus (what : string) (status : Z) | BadJson (what : string) | Missing (what : string)
| EmptyMount | NotKvV2 (mount ty ver : string).

Record TokenState := { st_token : option string; st_expires_at : option Z }.
Definition success (status : Z) : bool := (200 <=? status)%Z && (status <? 300)%Z.
Definition seconds (n : Z) : Z := (n * 1000000000)%Z.

Class BaoWorld := {
  world : Type;
  now : world -> Z;
  (* [None]: the call fails before there is a response *)
  http : bao_request -> world -> option (Z * string) * world;
  parse_json : string -> option json;
}.
Record OpenBaoClient := { address : string; auth : OpenBaoAuth }.

Section Client.
Context {B : BaoWorld} (c : OpenBaoClient).

Record bao_state := { bs_world : world; bs_state : TokenState; bs_log : list bao_request }.
Definition bao (A : Type) : Type := bao_state -> res bao_error A * bao_state.
Definition bret {A} (a : A) : bao A := fun s => (Ok a, s).
Definition bfail {A} (e : bao_error) : bao A := fun s => (Err e, s).
Definition bbind {A X} (m : bao A) (f : A -> bao X) : bao X :=
  fun s => match m s with (Ok a, s) => f a s | (Err e, s) => (Err e, s) | (Panics, s) => (Panics, s) end.
Local Notation "x <-- m ;; k" := (bbind m (fun x => k)) (at level 60, m at next level, right associativity).

Definition client_url (api_path : string) : string := address c +:+ "/v1/" +:+ trim_start_matches "/" api_path.
(** [.send().await] *)
Definition http_send (what : string) (r : bao_request) : bao (Z * string) := fun s =>
  let '(o, w) := http r (bs_world s) in
  let s := {| bs_world := w; bs_state := bs_state s; bs_log := (bs_log s ++ [r])%list |} in
  match o with Some resp => (Ok resp, s) | None => (Err (SendFailed what), s) end.
Definition from_json {A} (what : string) (read : json -> option A) (text : string) : bao A :=
  match parse_json text ≫= read with Some a => bret a | None => bfail (BadJson what) end.

(** ** Tokens *)
(** [Option<Auth>] of the login response, an object *)
Definition read_auth (v : json) : option (option (string * Z)) :=
  match v with
  | JObj _ =>
      match jget "auth" v with
      | None | Some JNull => Some None
      | Some a => match jget "client_token" a, jget "lease_duration" a with
                  | Some (JStr t), Some (JNum n) => if (0 <=? n)%Z && (n <=? u64_max)%Z then Some (Some (t, n)) else None
                  | _, _ => None
                  end
      end
  | _ => None
  end.
Definition approle_login (mount role_id secret_id : string) : bao (string * Z) :=
  let what := "openbao approle login" in
  resp <-- http_send what {| rq_method := "POST"; rq_url := client_url ("auth/" +:+ trim_slashes mount +:+ "/login"); rq_token := None;
                        rq_body := Some (JObj [("role_id", JStr role_id); ("secret_id", JStr secret_id)]) |};;
  if negb (success (fst resp)) then bfail (BadStatus what (fst resp))
  else a <-- from_json what read_auth (snd resp);; match a with Some p => bret p | None => bfail (Missing what) end.

Definition needs_login (t : Z) (st : TokenState) : bool :=
  match st_token st, st_expires_at st with Some _, Some exp => (exp <=? t + seconds 30)%Z | _, _ => true end.
(** [Instant + Duration] panics past the largest instant. *)
Definition instant_max : Z := seconds (2 ^ 63 - 1).
Definition store_token (token : string) (ttl : Z) : bao string := fun s =>
  let exp := (now (bs_world s) + seconds ttl)%Z in
  if (instant_max <? exp)%Z then (Panics, s)
  else (Ok token, {| bs_world := bs_world s; bs_state := {| st_token := Some token; st_expires_at := Some exp |}; bs_log := bs_log s |}).
Definition ensure_token : bao string := fun s =>
  match auth c with
  | TokenAuth t => (Ok t, s)
  | AppRole mount role_id secret_id =>
      if needs_login (now (bs_world s)) (bs_state s)
      then (p <-- approle_login mount role_id secret_id;; store_token (fst p) (snd p)) s
      else match st_token (bs_state s) with Some t => (Ok t, s) | None => (Panics, s) end
  end.
(** [request] and the send that follows it *)
Definition bao_call (what method api_path : string) (body : option json) : bao (Z * string) :=
  token <-- ensure_token;; http_send what {| rq_method := method; rq_url := client_url api_path; rq_token := Some token; rq_body := body |}.
Definition send_ok (what method api_path : string) (body : option json) : bao string :=
  resp <-- bao_call what method api_path body;; if success (fst resp) then bret (snd resp) else bfail (BadStatus what (fst resp)).

(** ** Set-up *)
Definition verify_kv_v2 (mount ty ver : string) : bao unit := if (ty =s "kv") && (ver =s "2") then bret tt else bfail (NotKvV2 mount ty ver).
Definition text_at (v : option json) : string := default "" (v ≫= as_str).
Definition mount_entry (want : string) (v : json) : option (string * string) :=
  let table := default v (jget "data" v) in
  entry ← jget want table;
  Some (text_at (jget "type" entry), text_at (jget "options" entry ≫= jget "version")).
Definition read_mount_info (kv_mount : string) : bao (option (string * string)) :=
  text <-- send_ok "list mounts" "GET" "sys/mounts" None;;
  from_json "list mounts" (fun v => Some (mount_entry (trim_slashes kv_mount +:+ "/") v)) text.
Definition already_in_use (status : Z) (body : string) : bool := (status =? 400)%Z && contains_str "path is already in use" (to_ascii_lowercase body).
Definition kv_mount_body : json :=
  JObj [("type", JStr "kv"); ("options", JObj [("version", JStr "2")]); ("description", JStr "s32p directory backend (KV v2)")].
Definition ensure_kv_v2_mount (kv_mount : string) : bao unit :=
  let m := trim_slashes kv_mount in
  if is_empty m then bfail EmptyMount else
  info <-- read_mount_info m;;
  match info with
  | Some (ty, ver) => verify_kv_v2 m ty ver
  | None =>
      resp <-- bao_call "mount kv-v2" "POST" ("sys/mounts/" +:+ m) (Some kv_mount_body);;
      if success (fst resp) then bret tt
      else if already_in_use (fst resp) (snd resp) then
        info <-- read_mount_info m;;
        match info with Some (ty, ver) => verify_kv_v2 m ty ver | None => bfail (BadStatus "mount kv-v2" (fst resp)) end
      else bfail (BadStatus "mount kv-v2" (fst resp))
  end.
Definition enable_auth_approle (approle_mount : string) : bao unit :=
  resp <-- bao_call "enable approle auth" "POST" ("sys/auth/" +:+ trim_slashes approle_mount) (Some (JObj [("type", JStr "approle")]));;
  if success (fst resp) || already_in_use (fst resp) (snd resp) then bret tt else bfail (BadStatus "enable approle auth" (fst resp)).
Definition set_acl_policy (name hcl : string) : bao unit :=
  _ <-- send_ok "set policy" "PUT" ("sys/policies/acl/" +:+ trim_slashes name) (Some (JObj [("policy", JStr hcl)]));; bret tt.
Definition role_path (approle_mount role : string) : string := "auth/" +:+ trim_slashes approle_mount +:+ "/role/" +:+ trim_slashes role.
Definition set_approle_role (approle_mount role : string) (token_policies : list string) : bao unit :=
  _ <-- send_ok "set approle role" "POST" (role_path approle_mount role)
          (Some (JObj [("token_policies", JArr (JStr <$> token_policies)); ("token_no_default_policy", JBool true)]));; bret tt.
(** [Option<Data>] with one text field *)
Definition read_data (field : string) (v : json) : option (option string) :=
  match v with
  | JObj _ => match jget "data" v with
              | None | Some JNull => Some None
              | Some d => match jget field d with Some (JStr s) => Some (Some s) | _ => None end
              end
  | _ => None
  end.
Definition read_approle_role_id (approle_mount role : string) : bao string :=
  text <-- send_ok "read role-id" "GET" (role_path approle_mount role +:+ "/role-id") None;;
  d <-- from_json "read role-id" (read_data "role_id") text;; match d with Some s => bret s | None => bfail (Missing "read role-id") end.
Definition generate_approle_secret_id (approle_mount role : string) : bao string :=
  text <-- send_ok "generate secret-id" "POST" (role_path approle_mount role +:+ "/secret-id") (Some (JObj []));;
  d <-- from_json "generate secret-id" (read_data "secret_id") text;; match d with Some s => bret s | None => bfail (Missing "generate secret-id") end.

(** [OpenBaoAdmin::setup] *)
Definition nl : string := String "010" "".
Definition quoted (s : string) : string := String "034" s +:+ String "034" "".
Definition policy_rule (path : string) (capabilities : list string) : string :=
  "path " +:+ quoted path +:+ " {" +:+ nl +:+ "  capabilities = [" +:+ join "," (quoted <$> capabilities) +:+ "]" +:+ nl +:+ "}" +:+ nl.
Definition policy_text (kv_mount prefix : string) (data metadata : list string) : string :=
  nl +:+ policy_rule (kv_mount +:+ "/data/" +:+ prefix +:+ "/*") data +:+ nl +:+ policy_rule (kv_mount +:+ "/metadata/" +:+ prefix +:+ "/*") metadata.
Definition every_capability : list string := ["create"; "read"; "update"; "delete"; "list"].
Record AppRoleCredentials := { role_name : string; cred_role_id : string; cred_secret_id : string }.
Definition credentials (approle_mount role : string) : bao AppRoleCredentials :=
  id <-- read_approle_role_id approle_mount role;; secret <-- generate_approle_secret_id approle_mount role;;
  bret {| role_name := role; cred_role_id := id; cred_secret_id := secret |}.
Definition setup (approle_mount kv_mount prefix : string) : bao (AppRoleCredentials * AppRoleCredentials) :=
  let kv_mount := trim_slashes kv_mount in
  let prefix := trim_slashes prefix in
  _ <-- ensure_kv_v2_mount kv_mount;;
  _ <-- enable_auth_approle approle_mount;;
  _ <-- set_acl_policy "s32p-proxy" (policy_text kv_mount prefix ["read"] ["list"; "read"]);;
  _ <-- set_acl_policy "s32p-admin" (policy_text kv_mount prefix every_capability every_capability);;
  _ <-- set_approle_role approle_mount "s32p-proxy" ["s32p-proxy"];;
  _ <-- set_approle_role approle_mount "s32p-admin" ["s32p-admin"];;
  proxy <-- credentials approle_mount "s32p-proxy";;
  admin <-- credentials approle_mount "s32p-admin";;
  bret (proxy, admin).
End Client.

(** [new_token], [new_approle] *)
Definition new_token (addr token : string) : OpenBaoClient := {| address := trim_end_matches "/" addr; auth := TokenAuth token |}.
Definition new_approle (addr mount role_id secret_id : string) : OpenBaoClient :=
  {| address := trim_end_matches "/" addr; auth := AppRole (trim_slashes mount) role_id secret_id |}.
Definition fresh_state {B : BaoWorld} (w : world) : bao_state := {| bs_world := w; bs_state := {| st_token := None; st_expires_at := None |}; bs_log := [] |}.

(** ** The logins of a client

    A call ends within the client's timeout of ten seconds, and the clock does
    not go back.  Nothing is assumed of the server's answers: a lease may be
    as short as it likes, and a login may fail. *)
Class BaoClock {B : BaoWorld} := {
  http_time : forall r w, (now w <= now (snd (http r w)) <= now w + seconds 10)%Z;
}.

(** A login the server has answered: its request, the token and the lease of
    the answer, and when the request was sent and the answer was there *)
Record login := { l_request : bao_request; l_token : string; l_lease : Z; l_sent : Z; l_got : Z }.
Definition login_request (c : OpenBaoClient) (mount role_id secret_id : string) : bao_request :=
  {| rq_method := "POST"; rq_url := client_url c ("auth/" +:+ trim_slashes mount +:+ "/login"); rq_token := None;
     rq_body := Some (JObj [("role_id", JStr role_id); ("secret_id", JStr secret_id)]) |}.

Section Logins.
Context {B : BaoWorld}.

(** What the server answered to the first request between two states *)
Definition heard (s s' : bao_state) : list login :=
  match drop (length (bs_log s)) (bs_log s') with
  | r :: _ =>
      match http r (bs_world s) with
      | (Some (status, text), w) =>
          if success status then
            match parse_json text ≫= read_auth with
            | Some (Some (t, n)) => [{| l_request := r; l_token := t; l_lease := n; l_sent := now (bs_world s); l_got := now w |}]
            | _ => []
            end
          else []
      | _ => []
      end
  | [] => []
  end.

(** The states of a client between its calls of [ensure_token], with the
    logins that were answered; in between the client sends other requests and
    time passes. *)
Inductive token_reaches (c : OpenBaoClient) : list login -> bao_state -> Prop :=
| token_start w : token_reaches c [] (fresh_state w)
| token_call h s r s' : token_reaches c h s -> ensure_token c s = (r, s') -> token_reaches c (heard s s' ++ h)%list s'
| token_later h s w log : token_reaches c h s -> (now (bs_world s) <= now w)%Z ->
    token_reaches c h {| bs_world := w; bs_state := bs_state s; bs_log := log |}.
End Logins.

Section Tokens.
Context `{BaoClock} (c : OpenBaoClient) (mount role_id secret_id : string) (Hauth : auth c = AppRole mount role_id secret_id).

(** A login of this client, in time *)
Definition own_login (l : login) : Prop := l_request l = login_request c mount role_id secret_id /\ (l_got l <= l_sent l + seconds 10)%Z.
Definition token_inv (h : list login) (s : bao_state) : Prop :=
  forall t exp, st_token (bs_state s) = Some t -> st_expires_at (bs_state s) = Some exp ->
  exists l, l ∈ h /\ own_login l /\ l_token l = t /\ exp = (l_got l + seconds (l_lease l))%Z.

Lemma login_heard s r s' : approle_login c mount role_id secret_id s = (r, s') ->
  bs_state s' = bs_state s /\
  forall p, r = Ok p -> exists l, heard s s' = [l] /\ own_login l /\ l_token l = fst p /\ l_lease l = snd p /\ l_got l = now (bs_world s').
Proof using H.
  unfold approle_login, bbind, http_send. fold (login_request c mount role_id secret_id).
  pose proof (http_time (login_request c mount role_id secret_id) (bs_world s)) as Ht.
  destruct (http (login_request c mount role_id secret_id) (bs_world s)) as [[[status text]|] w] eqn:Eh; cbn [fst snd] in *; [|intros [= <- <-]; by split; [|intros p [=]]].
  unfold from_json. destruct (success status) eqn:Es; cbn [negb]; [|intros [= <- <-]; by split; [|intros p [=]]].
  destruct (parse_json text ≫= read_auth) as [[[t n]|]|] eqn:Ea; [|intros [= <- <-]; by split; [|intros p [=]]..].
  intros [= <- <-]. split; [done|]. intros p [= <-]. unfold heard. cbn [bs_log]. rewrite drop_app_length, Eh, Es, Ea.
  eexists. split; [reflexivity|]. split; [|done]. split; [done|apply Ht].
Qed.

Lemma inv_more h h' s s' : bs_state s' = bs_state s -> h ⊆ h' -> token_inv h s -> token_inv h' s'.
Proof. intros Es Hsub Hi t exp. rewrite Es. intros Ht He. destruct (Hi t exp Ht He) as (l & Hl & ?). exists l. split; [by apply Hsub|done]. Qed.

Lemma heard_same s : heard s s = [].
Proof. unfold heard. by rewrite drop_ge. Qed.

(** The token a call ends up with *)
Lemma ensure_spec h s r s' : token_inv h s -> ensure_token c s = (r, s') ->
  token_inv (heard s s' ++ h)%list s' /\
  forall t, r = Ok t -> exists l, own_login l /\ l_token l = t /\
    (heard s s' = [l] /\ l_got l = now (bs_world s') \/
     heard s s' = [] /\ l ∈ h /\ (now (bs_world s') + seconds 30 < l_got l + seconds (l_lease l))%Z).
Proof using H Hauth.
  intros Hi E. unfold ensure_token in E. rewrite Hauth in E. destruct (needs_login _ _) eqn:En.
  - unfold bbind in E. destruct (approle_login c mount role_id secret_id s) as [r1 s1] eqn:El. destruct (login_heard _ _ _ El) as [Es Hh].
    destruct r1 as [p|e|]; [|by simplify_eq; split; [eapply inv_more; [exact Es|intros ? ?; apply elem_of_app; by right|done]|]..].
    destruct (Hh p eq_refl) as (l & Hl & Ho & Ht & Hn & Hg). unfold store_token in E. destruct (_ <? _)%Z; simplify_eq.
    + split; [|done]. eapply inv_more; [exact Es|intros ? ?; apply elem_of_app; by right|done].
    + change (heard s {| bs_world := bs_world s1; bs_state := _; bs_log := bs_log s1 |}) with (heard s s1). rewrite Hl. split.
      * intros t exp [= <-] [= <-]. exists l. rewrite Hg, Hn. split_and!; [by left|done|done|done].
      * intros t [= <-]. exists l. split_and!; [done|done|by left].
  - unfold needs_login in En. destruct (st_token (bs_state s)) as [t|] eqn:Et; [|done]. destruct (st_expires_at (bs_state s)) as [exp|] eqn:Ee; [|done].
    simplify_eq. rewrite heard_same. split; [done|]. intros t' [= <-]. destruct (Hi _ _ Et Ee) as (l & Hl & Ho & Ht & Hx). exists l.
    split_and!; [done|done|]. right. split_and!; [done|done|lia].
Qed.

Lemma token_reaches_inv h s : token_reaches c h s -> token_inv h s.
Proof using H Hauth.
  induction 1 as [w|h s r s' _ IH E|h s w log _ IH Hl]; [by intros t exp ?|by eapply ensure_spec|by eapply inv_more].
Qed.
End Tokens.

(** ** Properties *)

(** C32. The token that goes out with a call.  However calls, failed logins
    and waiting follow each other, the token [ensure_token] returns to an
    AppRole client is the one the server answered to a login with the
    client's own mount and credentials, sent at most ten seconds before the
    answer; and either this call has just obtained it, or more than thirty
    seconds of the lease are left, counted from when the answer was there,
    and so more than twenty counted from when the login was sent.  A lease of
    half a minute or less is never used from the cache. *)
Theorem token_fresh `{BaoClock} (c : OpenBaoClient) (mount role_id secret_id t : string) (h : list login) (s s' : bao_state) :
  auth c = AppRole mount role_id secret_id -> token_reaches c h s -> ensure_token c s = (Ok t, s') ->
  exists l, l_request l = login_request c mount role_id secret_id /\ l_token l = t /\ (l_got l <= l_sent l + seconds 10)%Z /\
    (heard s s' = [l] /\ l_got l = now (bs_world s') \/
     heard s s' = [] /\ l ∈ h /\ (now (bs_world s') + seconds 30 < l_got l + seconds (l_lease l))%Z).
Proof.
  intros Ha Hr E. destruct (ensure_spec c mount role_id secret_id Ha h s _ _ (token_reaches_inv c mount role_id secret_id Ha h s Hr) E) as [_ Ht].
  destruct (Ht t eq_refl) as (l & [Hq Hl] & ? & ?). eauto 6.
Qed.

(** *** The requests of the set-up *)
Section Setup.
Context {B : BaoWorld} (c : OpenBaoClient) (tok : string) (Htok : auth c = TokenAuth tok).

Definition root_request (method api_path : string) (body : option json) : bao_request :=
  {| rq_method := method; rq_url := client_url c api_path; rq_token := Some tok; rq_body := body |}.
(** When [m] succeeds it has sent requests that satisfy [P]. *)
Definition runs {A} (P : list bao_request -> Prop) (m : bao A) : Prop :=
  forall s r s', m s = (Ok r, s') -> exists l, P l /\ bs_log s' = (bs_log s ++ l)%list.
Lemma runs_ret {A} (a : A) : runs (fun l => l = []) (bret a).
Proof. intros s r s' [= <- <-]. exists []. by rewrite app_nil_r. Qed.
Lemma runs_fail {A} P (e : bao_error) : runs P (bfail e : bao A).
Proof. by intros s r s'. Qed.
Lemma runs_bind {A X} (P Q R : list bao_request -> Prop) (m : bao A) (f : A -> bao X) :
  runs P m -> (forall a, runs Q (f a)) -> (forall l l', P l -> Q l' -> R (l ++ l')%list) -> runs R (bbind m f).
Proof.
  intros Hm Hf HR s r s'. unfold bbind. destruct (m s) as [[a|e|] s1] eqn:Em; [|done..]. intros Ef.
  destruct (Hm _ _ _ Em) as (l & Hl & E1). destruct (Hf _ _ _ _ Ef) as (l' & Hl' & E2). exists (l ++ l')%list. split; [by apply HR|].
  by rewrite E2, E1, app_assoc.
Qed.
Lemma runs_step {A X} l0 (Q : list bao_request -> Prop) (m : bao A) (f : A -> bao X) :
  runs (fun l => l = l0) m -> (forall a, runs (fun l => Q (l0 ++ l)%list) (f a)) -> runs Q (bbind m f).
Proof. intros Hm Hf. eapply runs_bind; [exact Hm|exact Hf|]. by intros l l' ->. Qed.
Lemma runs_json {A} what (read : json -> option A) text : runs (fun l => l = []) (from_json what read text).
Proof. unfold from_json. destruct (_ ≫= _); [apply runs_ret|apply runs_fail]. Qed.
Lemma runs_call what method path body : runs (fun l => l = [root_request method path body]) (bao_call c what method path body).
Proof using Htok.
  intros s r s'. unfold bao_call, bbind, ensure_token. rewrite Htok. unfold http_send. destruct (http _ _) as [[resp|] w]; [|done]. intros [= <- <-]. cbn. eauto.
Qed.
Lemma runs_send_ok what method path body : runs (fun l => l = [root_request method path body]) (send_ok c what method path body).
Proof using Htok.
  eapply runs_step; [apply runs_call|]. intros resp. destruct (success _); [|apply runs_fail]. intros s r s' E. apply runs_ret in E as (l & -> & ->). by exists [].
Qed.
Lemma runs_text {A} what method path body (k : string -> bao A) :
  (forall text, runs (fun l => l = []) (k text)) -> runs (fun l => l = [root_request method path body]) (bbind (send_ok c what method path body) k).
Proof using Htok.
  intros Hk. eapply runs_bind; [apply runs_send_ok|exact Hk|]. by intros l l' -> ->.
Qed.

Definition mounts_request : bao_request := root_request "GET" "sys/mounts" None.
Lemma runs_mount_info m : runs (fun l => l = [mounts_request]) (read_mount_info c m).
Proof using Htok. apply runs_text. intros text. apply runs_json. Qed.
Definition mount_request (m : string) : bao_request := root_request "POST" ("sys/mounts/" +:+ m) (Some kv_mount_body).
Definition mount_requests (m : string) (l : list bao_request) : Prop :=
  l = [mounts_request] \/ l = [mounts_request; mount_request m] \/ l = [mounts_request; mount_request m; mounts_request].
Lemma runs_verify m ty ver : runs (fun l => l = []) (verify_kv_v2 m ty ver).
Proof. unfold verify_kv_v2. destruct (_ && _); [apply runs_ret|apply runs_fail]. Qed.
Lemma runs_weaken {A} (P Q : list bao_request -> Prop) (m : bao A) : (forall l, P l -> Q l) -> runs P m -> runs Q m.
Proof. intros HPQ Hm s r s' E. destruct (Hm _ _ _ E) as (l & ? & ?). eauto. Qed.
Lemma runs_mount kv_mount : runs (mount_requests (trim_slashes kv_mount)) (ensure_kv_v2_mount c kv_mount).
Proof using Htok.
  unfold ensure_kv_v2_mount. destruct (is_empty _); [apply runs_fail|]. eapply runs_step; [apply runs_mount_info|].
  intros [[ty ver]|]; [eapply runs_weaken; [|apply runs_verify]; intros l ->; by left|].
  eapply runs_step; [apply runs_call|]. intros resp. destruct (success _); [eapply runs_weaken; [|apply runs_ret]; intros l ->; right; by left|].
  destruct (already_in_use _ _); [|apply runs_fail]. eapply runs_step; [apply runs_mount_info|].
  intros [[ty ver]|]; [|apply runs_fail]. eapply runs_weaken; [|apply runs_verify]. intros l ->. right. by right.
Qed.
Lemma runs_approle m : runs (fun l => l = [root_request "POST" ("sys/auth/" +:+ trim_slashes m) (Some (JObj [("type", JStr "approle")]))]) (enable_auth_approle c m).
Proof using Htok.
  eapply runs_step; [apply runs_call|]. intros resp. destruct (_ || _); [|apply runs_fail]. eapply runs_weaken; [|apply runs_ret]. by intros l ->.
Qed.
Lemma runs_field what field text : runs (fun l => l = [])
  (bbind (from_json what (read_data field) text) (fun d => match d with Some s => bret s | None => bfail (Missing what) end)).
Proof. eapply runs_bind; [apply runs_json|intros []; [apply runs_ret|apply runs_fail]|]. by intros l l' -> ->. Qed.

Definition policy_request (name hcl : string) : bao_request := root_request "PUT" ("sys/policies/acl/" +:+ trim_slashes name) (Some (JObj [("policy", JStr hcl)])).
Definition role_request (mount role policy : string) : bao_request :=
  root_request "POST" (role_path mount role) (Some (JObj [("token_policies", JArr [JStr policy]); ("token_no_default_policy", JBool true)])).
Definition credential_requests (mount role : string) : list bao_request :=
  [root_request "GET" (role_path mount role +:+ "/role-id") None; root_request "POST" (role_path mount role +:+ "/secret-id") (Some (JObj []))].
Lemma runs_credentials mount role : runs (fun l => l = credential_requests mount role) (credentials c mount role).
Proof using Htok.
  eapply runs_step; [apply runs_text; intros text; apply runs_field|]. intros id. eapply runs_step; [apply runs_text; intros text; apply runs_field|].
  intros secret. eapply runs_weaken; [|apply runs_ret]. by intros l ->.
Qed.
(** Everything after the store is mounted *)
Definition setup_requests (approle_mount kv below : string) : list bao_request :=
  ([root_request "POST" ("sys/auth/" +:+ trim_slashes approle_mount) (Some (JObj [("type", JStr "approle")]));
    policy_request "s32p-proxy" (policy_text kv below ["read"] ["list"; "read"]);
    policy_request "s32p-admin" (policy_text kv below every_capability every_capability);
    role_request approle_mount "s32p-proxy" "s32p-proxy"; role_request approle_mount "s32p-admin" "s32p-admin"] ++
   credential_requests approle_mount "s32p-proxy" ++ credential_requests approle_mount "s32p-admin")%list.
End Setup.

(** What a successful set-up has done: it has sent exactly these calls,
    with the root token.  The mount table was read first and the store
    mounted only when it was missing; the proxy's role carries the one policy
    that lets it read documents and list and read metadata below the prefix
    and nothing else, the administrator's the one with every capability
    there; no role gets the default policy. *)
Theorem setup_exact {B : BaoWorld} (addr root_token approle_mount kv_mount prefix : string) (w : world) (r : AppRoleCredentials * AppRoleCredentials) (s : bao_state) :
  let c := new_token addr root_token in
  let kv := trim_slashes kv_mount in
  let below := trim_slashes prefix in
  setup c approle_mount kv_mount prefix (fresh_state w) = (Ok r, s) ->
  exists mounting, mount_requests c root_token (trim_slashes kv) mounting /\
    bs_log s = (mounting ++ setup_requests c root_token approle_mount kv below)%list.
Proof.
  intros c kv below E.
  assert (auth c = TokenAuth root_token) as Ht by done.
  enough (runs (fun l => exists mounting, mount_requests c root_token (trim_slashes kv) mounting /\ l = (mounting ++ setup_requests c root_token approle_mount kv below)%list) (setup c approle_mount kv_mount prefix)) as Hr.
  { destruct (Hr _ _ _ E) as (l & (mounting & Hm & ->) & ->). exists mounting. split; [exact Hm|]. cbn [fresh_state bs_log]. rewrite app_nil_l. reflexivity. }
  unfold setup. eapply runs_bind; [by apply runs_mount|intros _|intros l l' Hl Hl'; exists l; split; [exact Hl|]; f_equal; exact Hl'].
  eapply runs_step; [by apply runs_approle|intros _].
  do 2 (eapply runs_step; [apply runs_text; [done|]; intros text; apply runs_ret|intros _]).
  do 2 (eapply runs_step; [apply runs_text; [done|]; intros text; apply runs_ret|intros _]).
  do 2 (eapply runs_step; [by apply runs_credentials|intros ?]).
  eapply runs_weaken; [|apply runs_ret]. intros l ->. reflexivity.
Qed.

(** The set-up never touches a foreign mount: when the mount table lists
    the store's path as anything but a version 2 key-value store, the set-up
    fails with the reason and has sent nothing but the read of that table. *)
Theorem setup_refuses_foreign_mount {B : BaoWorld} (addr root_token approle_mount kv_mount prefix text ty ver : string) (w w' : world) (status : Z) (v : json) :
  let c := new_token addr root_token in
  let m := trim_slashes (trim_slashes kv_mount) in
  m <> "" -> http (mounts_request c root_token) w = (Some (status, text), w') -> success status = true -> parse_json text = Some v ->
  mount_entry (trim_slashes m +:+ "/") v = Some (ty, ver) -> ty <> "kv" \/ ver <> "2" ->
  exists s, setup c approle_mount kv_mount prefix (fresh_state w) = (Err (NotKvV2 m ty ver), s) /\ bs_log s = [mounts_request c root_token].
Proof.
  intros c m Hm Hh Hs Hv He Hk. eexists. split.
  - unfold setup, bbind at 1. unfold ensure_kv_v2_mount. fold m. rewrite (proj2 (is_empty_false m) Hm).
    unfold read_mount_info, send_ok, bao_call, bbind, ensure_token, http_send. cbn [auth c new_token fresh_state bs_world]. fold (mounts_request c root_token).
    change {| rq_method := "GET"; rq_url := client_url _ "sys/mounts"; rq_token := Some root_token; rq_body := None |} with (mounts_request c root_token).
    rewrite Hh. cbn [fst snd]. rewrite Hs. cbn. unfold from_json. rewrite Hv. cbn [mbind option_bind]. rewrite He. cbn. unfold verify_kv_v2.
    assert ((ty =s "kv") && (ver =s "2") = false) as -> by (apply andb_false_iff; rewrite !String.eqb_neq; tauto). reflexivity.
  - reflexivity.
Qed.

(** ** Witnesses *)
(** A server that answers every login with a minute's lease and lists [mount] *)
Definition demo_bao (version : string) : BaoWorld := {|
  world := Z; now := fun w => w;
  http := fun r w => (Some (200%Z, if contains_str "sys/mounts" (rq_url r) then "mounts" else "other"), w);
  parse_json := fun text =>
    if text =s "mounts" then Some (JObj [("data", JObj [("kv/", JObj [("type", JStr "kv"); ("options", JObj [("version", JStr version)])])])])
    else Some (JObj [("auth", JObj [("client_token", JStr "tok"); ("lease_duration", JNum 60)]); ("data", JObj [("role_id", JStr "r"); ("secret_id", JStr "s")])]) |}.
Definition demo_bao_clock : @BaoClock (demo_bao "2").
Proof. refine {| http_time := _ |}. intros r w. cbn. unfold seconds. lia. Defined.

Definition demo_role_client : OpenBaoClient := new_approle "https://bao/" "/approle/" "r" "s".
Definition demo_cold : @bao_state (demo_bao "2") := @fresh_state (demo_bao "2") 0%Z.
Definition demo_logged_in : @bao_state (demo_bao "2") := snd (@ensure_token (demo_bao "2") demo_role_client demo_cold).
(** Twenty-nine seconds after the login *)
Definition demo_warm : @bao_state (demo_bao "2") :=
  @Build_bao_state (demo_bao "2") (seconds 29) (bs_state demo_logged_in) [].

Lemma token_fresh_witness : @ensure_token (demo_bao "2") demo_role_client demo_warm = (Ok "tok", demo_warm) /\
  exists l, l_token l = "tok" /\ (seconds 29 + seconds 30 < l_got l + seconds (l_lease l))%Z.
Proof.
  split; [vm_compute; reflexivity|].
  destruct (@token_fresh (demo_bao "2") demo_bao_clock demo_role_client "approle" "r" "s" "tok"
    (heard demo_cold demo_logged_in ++ [])%list demo_warm demo_warm) as (l & _ & Ht & _ & [[Hh _]|(_ & _ & Hl)]);
    [vm_compute; reflexivity| |vm_compute; reflexivity|discriminate Hh|exists l; split; [exact Ht|exact Hl]].
  apply (@token_later (demo_bao "2") demo_role_client _ demo_logged_in); [|vm_compute; discriminate].
  eapply (@token_call (demo_bao "2") demo_role_client []); [apply token_start|vm_compute; reflexivity].
Defined.

Definition demo_setup (version : string) : res bao_error (AppRoleCredentials * AppRoleCredentials) * @bao_state (demo_bao version) :=
  @setup (demo_bao version) (new_token "https://bao" "root") "approle" "/kv/" "s32p" (@fresh_state (demo_bao version) 0%Z).
Lemma setup_exact_witness : exists r s mounting, demo_setup "2" = (Ok r, s) /\
  mount_requests (new_token "https://bao" "root") "root" "kv" mounting /\ length mounting = 1 /\ length (bs_log s) = 10.
Proof.
  destruct (demo_setup "2") as [[r|e|] s] eqn:E; [|vm_compute in E; discriminate E..].
  destruct (@setup_exact (demo_bao "2") "https://bao" "root" "approle" "/kv/" "s32p" 0%Z r s E) as (mounting & Hm & Hl).
  assert (length (bs_log s) = 10) as H10 by (vm_compute in E; injection E as _ <-; reflexivity).
  exists r, s, mounting. split_and!; [reflexivity|exact Hm| |exact H10]. rewrite Hl, length_app in H10. cbn in H10. lia.
Defined.
Lemma setup_refuses_foreign_mount_witness : exists s, demo_setup "1" = (Err (NotKvV2 "kv" "kv" "1"), s) /\ length (bs_log s) = 1.
Proof.
  destruct (@setup_refuses_foreign_mount (demo_bao "1") "https://bao" "root" "approle" "/kv/" "s32p" "mounts" "kv" "1" 0%Z 0%Z 200%Z
    (JObj [("data", JObj [("kv/", JObj [("type", JStr "kv"); ("options", JObj [("version", JStr "1")])])])])) as (s & E & Hl);
    [vm_compute; discriminate|vm_compute; reflexivity..|right; discriminate|].
  exists s. split; [exact E|]. by rewrite Hl.
Defined.
