(* ===== verification/DirectoryMoves.v ===== *)
(** * Listings, purges and moves of a directory

    What the listing and purging loops of the administration do on a store
    that is well kept; the relation [mirrors] between a directory file and a
    store; export and import carry a directory over. *)

From Stdlib Require Import ZArith Lia Ascii.
From stdpp Require Import base list strings numbers option gmap sorting fin_sets fin_maps.
From S2P Require Import Prelude RustStr Utils Handler Directory OpenBao OpenBaoProofs.

Local Open Scope s3_scope.
Local Open Scope string_scope.

Lemma strip_prefix_cancel p a b : strip_prefix (p +:+ a) (p +:+ b) = strip_prefix a b.
Proof. induction p as [|c p IH]; [done|]. cbn [String.append strip_prefix]. by rewrite Ascii.eqb_refl. Qed.

Section Moves.
Context {E : KvEnv} {N : Nss}.
Definition any {A} : dir_error -> A -> Prop := fun _ _ => True.

(** ** Names below a directory *)
Lemma under_app a b : under a +:+ b = under (a +:+ b).
Proof. unfold under. destruct (is_empty prefix_); [done|]. by rewrite !str_app_assoc. Qed.
Lemma child_under dir path : child (under dir) (under path) = child dir path.
Proof.
  unfold child. rewrite under_app. unfold under at 1 2. destruct (is_empty prefix_); [done|].
  by rewrite !strip_prefix_cancel.
Qed.
Lemma child_plain dir k : plain k -> child dir (dir +:+ "/" +:+ k) = Some k.
Proof.
  intros [_ Hb]%matches_ident_bytes. unfold child. rewrite <- str_app_assoc, strip_prefix_app. cbn [mbind option_bind].
  assert (split_once "/" k = None) as ->; [|done]. apply split_once_none.
  induction k as [|c k IH]; cbn in *; [done|]. apply andb_true_iff in Hb as [Hc Hb]. apply ident_rest_plain in Hc as [_ Hc].
  rewrite (IH Hb). by rewrite Hc.
Qed.

Lemma elem_of_dir_children m dir x : x ∈ children m dir <-> exists key, is_Some (m !! key) /\ child dir key = Some x.
Proof.
  unfold children, sort_dedup. rewrite elem_of_dedup, merge_sort_Permutation, list_elem_of_omap. split.
  - intros (key & ([k d] & -> & Hk%elem_of_map_to_list)%list_elem_of_fmap & Hx). eauto.
  - intros (key & [d Hk] & Hx). exists key. split; [|done]. apply list_elem_of_fmap. exists (key, d). split; [done|]. by apply elem_of_map_to_list.
Qed.
Lemma dir_children_NoDup m dir : NoDup (children m dir).
Proof. apply dedup_sorted_NoDup, StronglySorted_merge_sort; apply _. Qed.

(** The directories that hold only documents *)
Inductive leaf_dir := LUsers | LBuckets | LKeys | LGroups.
Definition leaf_name (l : leaf_dir) : string :=
  match l with LUsers => "users" | LBuckets => "buckets" | LKeys => "index/access_key" | LGroups => "index/group" end.
Definition leaf_path (l : leaf_dir) (k : string) : string := under (leaf_name l +:+ "/" +:+ k).
Definition top_name (l : leaf_dir) : string := match l with LUsers => "users" | LBuckets => "buckets" | _ => "index" end.

Lemma plain_path dir k : plain k -> all_bytes is_visible dir = true -> starts_with "/" dir = false -> dir <> "" ->
  layout_join (dir +:+ "/" +:+ k) = under (dir +:+ "/" +:+ k).
Proof.
  intros Hk Hv Hs Hne. rewrite <- !str_app_assoc, <- under_app. apply (layout_join_plain _ _ 127); [|destruct dir; [done|]; cbn [String.append]; by rewrite starts_with_char in *|by destruct dir|done].
  by rewrite all_bytes_app, Hv.
Qed.
Lemma leaf_join l k : plain k -> layout_join (leaf_name l +:+ "/" +:+ k) = leaf_path l k.
Proof. intros Hk. by destruct l; apply plain_path. Qed.
Lemma leaf_root l : layout_join (leaf_name l) = under (leaf_name l).
Proof. by destruct l. Qed.

(** Every key of a well kept store is in one of them. *)
Lemma wf_leaf m key : wf m -> is_Some (m !! key) -> exists l k, plain k /\ key = leaf_path l k.
Proof.
  intros Hwf [d Hd]. specialize (Hwf _ _ Hd). destruct d as [u|b|ids]; cbn in Hwf.
  - destruct Hwf as [Hk ->]. exists LUsers, (user_access_key u). split; [done|]. by apply (leaf_join LUsers).
  - destruct Hwf as (Hk & -> & _). exists LBuckets, (doc_id b). split; [done|]. by apply (leaf_join LBuckets).
  - destruct Hwf as ((p & Hp & ->) & _). destruct (valid_principal_name p Hp) as [n Hn].
    destruct p as [k|g]; [exists LKeys, k|exists LGroups, g]; cbn [principal_path].
    + assert (plain k) as Hk by (revert Hp; unfold valid_principal; cbn; unfold validate_access_key, ensure; by case_match). split; [done|]. by apply (leaf_join LKeys).
    + assert (plain g) as Hk.
      { revert Hp. unfold valid_principal. cbn. unfold ensure. case_match eqn:Hg; [|done]. intros _. unfold plain, matches_ident in *.
        destruct g as [|c g]; [done|]. apply andb_true_iff in Hg as [Hg Hl]. rewrite Hg. cbn [andb]. apply Nat.leb_le in Hl. apply Nat.leb_le. lia. }
      split; [done|]. by apply (leaf_join LGroups).
Qed.

Lemma leaf_child l l' k : plain k -> child (layout_join (leaf_name l)) (leaf_path l' k) = if decide (leaf_name l = leaf_name l') then Some k else None.
Proof.
  intros Hk. rewrite leaf_root. unfold leaf_path. rewrite child_under. destruct (decide (leaf_name l = leaf_name l')) as [->|Hne]; [by apply child_plain|].
  by destruct l, l'.
Qed.
Lemma leaf_path_inj l l' k k' : leaf_path l k = leaf_path l' k' -> l = l' /\ k = k'.
Proof.
  unfold leaf_path. rewrite <- !under_app. intros H%under_inj. destruct l, l'; cbn in H; injection H; auto; try discriminate.
Qed.

Lemma leaf_children m l x : wf m -> x ∈ children m (layout_join (leaf_name l)) <-> plain x /\ is_Some (m !! leaf_path l x).
Proof.
  intros Hwf. rewrite elem_of_dir_children. split.
  - intros (key & Hk & Hx). destruct (wf_leaf m key Hwf Hk) as (l' & k & Hp & ->). rewrite leaf_child in Hx by done.
    case_decide as Hl; [|done]. injection Hx as ->. destruct l, l'; try discriminate; done.
  - intros [Hx Hs]. exists (leaf_path l x). split; [done|]. rewrite leaf_child by done. by rewrite decide_True.
Qed.

(** ** Listings *)
Lemma plain_no_slash k : plain k -> trim_end_matches "/" k = k /\ is_empty k = false /\ ends_with "/" k = false.
Proof.
  intros [Hne Hb]%matches_ident_bytes. pose proof (ends_with_no_slash "" k Hne Hb) as He. cbn [String.append] in He.
  split_and!; [by apply trim_end_matches_id|by apply is_empty_false|done].
Qed.

Lemma read_all_spec {A} m (read : string -> K (option A)) (f : string -> option A) keys :
  Forall plain keys -> (forall k, k ∈ keys -> spec m (read k) any (fun d m' => m' = m /\ d = f k)) ->
  spec m (read_all read keys) any (fun l m' => m' = m /\ l = omap f keys).
Proof.
  induction keys as [|k keys IH]; intros Hk Hr; cbn [read_all omap list_omap]; [by apply spec_ret|].
  apply Forall_cons in Hk as [Hk Hks]. destruct (plain_no_slash k Hk) as (-> & -> & _). cbv zeta.
  apply spec_bind. eapply spec_mono; [apply Hr; left|done|]. cbv beta. intros d m' [-> ->].
  apply spec_bind. eapply spec_mono; [apply IH; [done|]|done|]. { intros k' Hk'. apply Hr. by right. }
  cbv beta. intros l m' [-> ->]. apply spec_ret. by destruct (f k).
Qed.

Lemma omap_keys_NoDup {A} (f : string -> option A) (g : A -> string) keys :
  (forall k a, k ∈ keys -> f k = Some a -> g a = k) -> NoDup keys -> NoDup (g <$> omap f keys).
Proof.
  intros Hg Hnd. induction keys as [|k keys IH]; cbn [omap list_omap]; [constructor|]. apply NoDup_cons in Hnd as [Hk Hnd].
  assert (forall k' a, k' ∈ keys -> f k' = Some a -> g a = k') as Hg' by (intros k' a Hk'; apply Hg; by right).
  destruct (f k) as [a|] eqn:Ef; [|by apply IH]. cbn. constructor; [|by apply IH].
  intros (a' & Ha & (k' & Hk' & Hf)%list_elem_of_omap)%list_elem_of_fmap. apply Hk.
  rewrite <- (Hg k a); [|left|done]. by rewrite Ha, (Hg' k' a').
Qed.

(** The documents of a kind below one directory *)
Section Listing.
Context {A : Type} (l : leaf_dir) (of_doc : kv_doc -> option A) (key : A -> string) (le : A -> A -> Prop) `{!RelDecision le}.

Definition stored_at (m : store) (k : string) : option A := m !! leaf_path l k ≫= of_doc.

Lemma listed_exact m :
  wf m -> (forall k a, plain k -> stored_at m k = Some a -> key a = k) ->
  let out := merge_sort le (omap (stored_at m) (children m (layout_join (leaf_name l)))) in
  NoDup (key <$> out) /\ forall a, a ∈ out <-> plain (key a) /\ stored_at m (key a) = Some a.
Proof.
  intros Hwf Hkey out. assert (forall k, k ∈ children m (layout_join (leaf_name l)) -> plain k) as Hpl by (intros k [? _]%leaf_children; done).
  split.
  - unfold out. rewrite merge_sort_Permutation. apply omap_keys_NoDup; [|apply dir_children_NoDup]. auto.
  - intros a. unfold out. rewrite merge_sort_Permutation, list_elem_of_omap. split.
    + intros (k & Hk & Ha). rewrite (Hkey k a) by auto. auto.
    + intros [Hk Ha]. exists (key a). split; [|done]. apply leaf_children; [done|]. split; [done|].
      unfold stored_at in Ha. destruct (m !! leaf_path l (key a)); [by eexists|done].
Qed.

Lemma listing_spec m (read : string -> K (option A)) :
  wf m -> (forall k a, plain k -> stored_at m k = Some a -> key a = k) ->
  (forall k, plain k -> spec m (read k) any (fun d m' => m' = m /\ d = stored_at m k)) ->
  spec m (keys ← kv_list_opt (layout_join (leaf_name l));
          match keys with None => mret [] | Some keys => us ← read_all read keys; mret (merge_sort le us) end)
    any (fun out m' => m' = m /\ NoDup (key <$> out) /\ forall a, a ∈ out <-> plain (key a) /\ stored_at m (key a) = Some a).
Proof.
  intros Hwf Hkey Hread. apply spec_bind, spec_call_pure; [done|]. destruct (listed_exact m Hwf Hkey) as [Hnd Hin].
  assert (forall k, k ∈ children m (layout_join (leaf_name l)) -> plain k) as Hpl by (intros k [? _]%leaf_children; done).
  set (keys := children m (layout_join (leaf_name l))) in *. destruct keys as [|k ks] eqn:Ek; [by apply spec_ret|]. rewrite <- Ek in *. clear Ek k ks.
  apply spec_bind. eapply spec_mono; [apply (read_all_spec m _ (stored_at m)); [by apply list.Forall_forall|auto]|done|].
  cbv beta. intros us m' [-> ->]. by apply spec_ret.
Qed.
End Listing.

Definition as_user (d : kv_doc) : option UserDoc := match d with DUser u => Some u | _ => None end.
Definition as_bucket (d : kv_doc) : option BucketDoc := match d with DBucket b => Some b | _ => None end.

Lemma stored_user_key m k u : wf m -> plain k -> stored_at LUsers as_user m k = Some u -> user_access_key u = k.
Proof.
  unfold stored_at. intros Hwf Hk. destruct (m !! leaf_path LUsers k) as [[]|] eqn:Ed; cbn; try done. intros [= ->].
  destruct (Hwf _ _ Ed) as [Hu Hp]. rewrite user_path_plain, under_app in Hp by done. by apply (leaf_path_inj LUsers LUsers) in Hp as [_ ->].
Qed.
Lemma stored_bucket_id m k b : wf m -> plain k -> stored_at LBuckets as_bucket m k = Some b -> doc_id b = k.
Proof.
  unfold stored_at. intros Hwf Hk. destruct (m !! leaf_path LBuckets k) as [[]|] eqn:Ed; cbn; try done. intros [= ->].
  destruct (Hwf _ _ Ed) as (Hu & Hp & _). rewrite bucket_path_plain, under_app in Hp by done. by apply (leaf_path_inj LBuckets LBuckets) in Hp as [_ ->].
Qed.

Lemma stored_user m k u : plain k -> stored_at LUsers as_user m k = Some u <-> m !! user_path k = Some (DUser u).
Proof.
  intros Hk. unfold stored_at. rewrite user_path_plain, under_app by done. change (under ("users/" +:+ k)) with (leaf_path LUsers k).
  destruct (m !! leaf_path LUsers k) as [[]|]; cbn; split; intros [=]; congruence.
Qed.
Lemma stored_bucket m k b : plain k -> stored_at LBuckets as_bucket m k = Some b <-> m !! bucket_path k = Some (DBucket b).
Proof.
  intros Hk. unfold stored_at. rewrite bucket_path_plain, under_app by done. change (under ("buckets/" +:+ k)) with (leaf_path LBuckets k).
  destruct (m !! leaf_path LBuckets k) as [[]|]; cbn; split; intros [=]; congruence.
Qed.

Lemma list_users_spec m : wf m ->
  spec m list_users any (fun us m' => m' = m /\ NoDup (user_access_key <$> us) /\
    forall u, u ∈ us <-> plain (user_access_key u) /\ m !! user_path (user_access_key u) = Some (DUser u)).
Proof.
  intros Hwf. eapply spec_mono; [apply (listing_spec LUsers as_user user_access_key user_le m (fun k => read_user (user_path k)) Hwf)|done|].
  - intros k u Hk. by apply stored_user_key.
  - intros k Hk. apply spec_bind, spec_call_pure; [done|]. pose proof (fun u => stored_user m k u Hk) as Hs.
    destruct (m !! user_path k) as [[u|b|ids]|]; [|by apply spec_error..|]; apply spec_ret; (split; [done|]); symmetry.
    + by apply Hs.
    + destruct (stored_at LUsers as_user m k) as [u|]; [|done]. pose proof (proj1 (Hs u) eq_refl). done.
  - cbv beta. intros us m' (-> & Hnd & Hin). split_and!; [done..|]. intros u. rewrite Hin. split; intros [Hk Hs]; (split; [done|]); by apply stored_user.
Qed.

Lemma list_buckets_spec m : wf m ->
  spec m list_buckets any (fun bs m' => m' = m /\ NoDup (doc_id <$> bs) /\
    forall b, b ∈ bs <-> plain (doc_id b) /\ m !! bucket_path (doc_id b) = Some (DBucket b)).
Proof.
  intros Hwf. eapply spec_mono; [apply (listing_spec LBuckets as_bucket doc_id id_le m (fun k => read_bucket (bucket_path k)) Hwf)|done|].
  - intros k b Hk. by apply stored_bucket_id.
  - intros k Hk. apply spec_bind, spec_call_pure; [done|]. pose proof (fun b => stored_bucket m k b Hk) as Hs.
    destruct (m !! bucket_path k) as [[u|b|ids]|]; [by apply spec_error| |by apply spec_error|]; apply spec_ret; (split; [done|]); symmetry.
    + by apply Hs.
    + destruct (stored_at LBuckets as_bucket m k) as [b|]; [|done]. pose proof (proj1 (Hs b) eq_refl). done.
  - cbv beta. intros bs m' (-> & Hnd & Hin). split_and!; [done..|]. intros b. rewrite Hin. split; intros [Hk Hs]; (split; [done|]); by apply stored_bucket.
Qed.

(** ** Purges *)
#[global] Instance leaf_dir_eq_dec : EqDecision leaf_dir.
Proof. solve_decision. Defined.

(** The directories [ls] are empty, the others as they were. *)
Definition purged (ls : list leaf_dir) (m m' : store) : Prop :=
  wf m' /\ forall l k, plain k -> m' !! leaf_path l k = if decide (l ∈ ls) then None else m !! leaf_path l k.

Lemma purged_nil m : wf m -> purged [] m m.
Proof. intros Hwf. split; [done|]. intros l k _. by rewrite decide_False by apply not_elem_of_nil. Qed.
Lemma purged_cons l ls m m1 m2 : purged [l] m m1 -> purged ls m1 m2 -> purged (l :: ls) m m2.
Proof.
  intros [_ H1] [Hwf H2]. split; [done|]. intros l' k Hk. rewrite H2, H1 by done.
  repeat case_decide; try done; set_solver.
Qed.

Lemma purge_keys_leaf l keys stack m :
  Forall plain keys -> wf m ->
  spec m (purge_keys (leaf_name l) keys stack) any
    (fun st m' => st = stack /\ wf m' /\ forall l' k, plain k -> m' !! leaf_path l' k = if decide (l' = l /\ k ∈ keys) then None else m !! leaf_path l' k).
Proof.
  revert m. induction keys as [|k keys IH]; intros m Hk Hwf; cbn [purge_keys].
  { apply spec_ret. split_and!; [done..|]. intros l' k _. rewrite decide_False; [done|]. by intros [_ ?%not_elem_of_nil]. }
  apply Forall_cons in Hk as [Hk Hks]. destruct (plain_no_slash k Hk) as (_ & _ & ->).
  assert (layout_join (rel_join (leaf_name l) k) = leaf_path l k) as -> by (rewrite <- leaf_join by done; by destruct l).
  apply spec_bind, spec_call; [done..|]. cbn [fst snd].
  eapply spec_mono; [apply IH; [done|by apply map_Forall_delete]|done|]. cbv beta. intros st m' (-> & Hwf' & H). split_and!; [done..|].
  intros l' k' Hk'. rewrite H by done. destruct (decide (l' = l /\ k' = k)) as [[-> ->]|Hne].
  - rewrite lookup_delete_eq. rewrite (decide_True (P := l = l /\ k ∈ k :: keys)) by (split; [done|left]). by case_decide.
  - rewrite lookup_delete_ne by (intros [-> ->]%leaf_path_inj; by apply Hne). assert (k' ∈ k :: keys <-> k' = k \/ k' ∈ keys) as Hc by apply elem_of_cons. repeat case_decide; try done; exfalso; naive_solver.
Qed.

Lemma purge_one l fuel stack m Q :
  wf m -> (forall m', purged [l] m m' -> spec m' (purge_loop fuel stack) any Q) ->
  spec m (purge_loop (S fuel) (leaf_name l :: stack)) any Q.
Proof.
  intros Hwf Hrest. cbn [purge_loop]. apply spec_bind, spec_call_pure; [done|].
  pose proof (fun x => leaf_children m l x Hwf) as Hin. destruct (children m (layout_join (leaf_name l))) as [|k ks] eqn:Ek.
  - apply Hrest. split; [done|]. intros l' k Hk. case_decide as Hl; [|done]. apply list_elem_of_singleton in Hl as ->.
    destruct (m !! leaf_path l k) eqn:Ed; [|done]. exfalso. apply (not_elem_of_nil k), Hin. split; [done|by eexists].
  - rewrite <- Ek in *. apply spec_bind. eapply spec_mono; [apply purge_keys_leaf; [|done]|done|].
    { apply list.Forall_forall. by intros x [? _]%Hin. }
    cbv beta. intros st m' (-> & Hwf' & H). apply Hrest. split; [done|]. intros l' k' Hk'. rewrite H by done.
    destruct (decide (l' ∈ [l])) as [Hl|Hl].
    + apply list_elem_of_singleton in Hl as ->. case_decide as Hd; [done|]. destruct (m !! leaf_path l k') eqn:Ed; [|done].
      exfalso. apply Hd. split; [done|]. apply Hin. split; [done|by eexists].
    + rewrite decide_False; [done|]. intros [-> _]. by apply Hl, list_elem_of_singleton.
Qed.

Lemma purge_leaves ls fuel m :
  (length ls <= fuel)%nat -> wf m -> spec m (purge_loop fuel (leaf_name <$> ls)) any (fun _ m' => purged ls m m').
Proof.
  revert fuel m. induction ls as [|l ls IH]; intros fuel m Hf Hwf; cbn [fmap list_fmap].
  { destruct fuel; by apply spec_ret, purged_nil. }
  destruct fuel as [|fuel]; [cbn in Hf; lia|]. apply purge_one; [done|]. intros m' Hp. cbn in Hf.
  eapply spec_mono; [apply IH; [lia|apply Hp]|done|]. cbv beta. intros _ m2 Hp2. by eapply purged_cons.
Qed.

Definition index_dir_of (x : string) : leaf_dir := if x =s "access_key/" then LKeys else LGroups.
Lemma purge_keys_index keys ls m :
  (forall x, x ∈ keys -> x = "access_key/" \/ x = "group/") ->
  spec m (purge_keys "index" keys (leaf_name <$> ls)) any (fun st m' => m' = m /\ st = leaf_name <$> (rev (index_dir_of <$> keys) ++ ls)%list).
Proof.
  revert ls. induction keys as [|x keys IH]; intros ls Hk; cbn [purge_keys]; [by apply spec_ret|].
  assert (forall y, y ∈ keys -> y = "access_key/" \/ y = "group/") as Hk' by (intros y Hy; apply Hk; by right).
  assert (x = "access_key/" \/ x = "group/") as [-> | ->] by (apply Hk; left).
  all: [> eapply spec_mono; [exact (IH (LKeys :: ls) Hk')|done|] | eapply spec_mono; [exact (IH (LGroups :: ls) Hk')|done|]]; cbv beta; intros st m' [-> ->]; (split; [done|]).
  all: cbn [rev fmap list_fmap]; by rewrite <- app_assoc.
Qed.

Lemma index_children m x : wf m ->
  x ∈ children m (layout_join "index") <->
  (x = "access_key/" /\ exists k, plain k /\ is_Some (m !! leaf_path LKeys k)) \/ (x = "group/" /\ exists k, plain k /\ is_Some (m !! leaf_path LGroups k)).
Proof.
  intros Hwf. rewrite elem_of_dir_children. change (layout_join "index") with (under "index"). split.
  - intros (key & Hk & Hx). destruct (wf_leaf m key Hwf Hk) as (l & k & Hp & ->). unfold leaf_path in Hx. rewrite child_under in Hx.
    destruct l; [done|done|left|right]; injection Hx as <-; eauto.
  - intros [[-> (k & Hp & Hk)]|[-> (k & Hp & Hk)]]; eexists; (split; [exact Hk|]); unfold leaf_path; by rewrite child_under.
Qed.

Lemma purge_tree_leaf l m : l = LUsers \/ l = LBuckets -> wf m -> spec m (purge_tree (leaf_name l)) any (fun _ m' => purged [l] m m').
Proof.
  intros Hl Hwf s Hs. unfold purge_tree. replace (trim_matches "/" (leaf_name l)) with (leaf_name l) by (by destruct Hl as [-> | ->]).
  apply (purge_leaves [l] (3 + key_bytes (kv s)) m); [cbn; lia|done|done].
Qed.

Lemma purge_tree_index m : wf m -> spec m (purge_tree "index") any (fun _ m' => purged [LKeys; LGroups] m m').
Proof.
  intros Hwf s Hs. unfold purge_tree. set (fuel := key_bytes (kv s)).
  change (trim_matches "/" "index") with "index". cut (spec m (purge_loop (3 + fuel) ["index"]) any (fun _ m' => purged [LKeys; LGroups] m m')); [intros H; by apply H|].
  change (3 + fuel)%nat with (S (2 + fuel)). cbn [purge_loop]. apply spec_bind, spec_call_pure; [done|].
  pose proof (fun x => index_children m x Hwf) as Hin. pose proof (dir_children_NoDup m (layout_join "index")) as Hnd.
  set (keys := children m (layout_join "index")) in *.
  assert (forall l, l ∈ [LKeys; LGroups] -> l ∉ rev (index_dir_of <$> keys) -> forall k, plain k -> m !! leaf_path l k = None) as Hempty.
  { intros l Hl Hn k Hk. destruct (m !! leaf_path l k) eqn:Ed; [|done]. exfalso. apply Hn.
    rewrite list_elem_of_In, <- in_rev, <- list_elem_of_In. apply list_elem_of_fmap.
    apply elem_of_cons in Hl as [->|Hl]; [exists "access_key/"|apply list_elem_of_singleton in Hl as ->; exists "group/"]; (split; [done|]); apply Hin.
    - left. split; [done|]. exists k. split; [done|by eexists].
    - right. split; [done|]. exists k. split; [done|by eexists]. }
  assert (length (rev (index_dir_of <$> keys)) <= 2)%nat as Hlen.
  { rewrite length_rev, length_fmap. change 2%nat with (length ["access_key/"; "group/"]). apply submseteq_length, NoDup_submseteq; [done|].
    intros x [[-> _]|[-> _]]%Hin; set_solver. }
  assert (spec m (purge_loop (2 + fuel) (leaf_name <$> rev (index_dir_of <$> keys))) any (fun _ m' => purged [LKeys; LGroups] m m')) as Hrun.
  { eapply spec_mono; [apply purge_leaves; [lia|done]|done|]. cbv beta. intros _ m' [Hwf' H]. split; [done|]. intros l k Hk. rewrite H by done.
    destruct (decide (l ∈ [LKeys; LGroups])) as [Hl|Hl]; case_decide as Hd; try done; [by eapply Hempty|].
    exfalso. apply Hl. rewrite list_elem_of_In, <- in_rev, <- list_elem_of_In in Hd. apply list_elem_of_fmap in Hd as (x & -> & _).
    unfold index_dir_of. destruct (x =s "access_key/"); set_solver. }
  destruct keys as [|x0 ks] eqn:Ek; [exact Hrun|]. rewrite <- Ek in *. apply spec_bind.
  eapply spec_mono; [apply (purge_keys_index keys []); intros x [[-> _]|[-> _]]%Hin; auto|done|]. cbv beta. intros st m' [-> ->]. by rewrite app_nil_r.
Qed.

Lemma purged_all m m1 m2 m3 : purged [LUsers] m m1 -> purged [LBuckets] m1 m2 -> purged [LKeys; LGroups] m2 m3 -> m3 = ∅.
Proof.
  intros H1 H2 [Hwf H3]. apply map_empty. intros key. destruct (m3 !! key) as [d|] eqn:Ed; [|done]. exfalso.
  destruct (wf_leaf m3 key Hwf) as (l & k & Hk & ->); [by eexists|]. rewrite H3 in Ed by done.
  destruct H2 as [_ H2], H1 as [_ H1]. rewrite H2, H1 in Ed by done. by destruct l.
Qed.
End Moves.
