(* ===== verification/Ctl.v ===== *)
(** * s32p-ctl: the operator's commands

    s32p-ctl/src/main.rs on its two backends, the directory file and the
    OpenBao store, with the passwd lookups of directory/posix_users.rs and the
    import of s32p-admin/src/versity_iam.rs.  clap has parsed the arguments;
    reading and rendering YAML is the identity on documents, [save] is the
    validation before the file is written. *)

From Stdlib Require Import ZArith Lia Ascii.
From stdpp Require Import base list strings numbers option gmap sorting fin_sets fin_maps.
From S2P Require Import Prelude RustStr Utils Handler Directory OpenBao.

Local Open Scope s3_scope.
Local Open Scope string_scope.

Definition msg (m : string) : dir_error := BackendError m.

(** ** posix_users.rs

    [getpwuid_r] and [getpwnam_r] with a buffer of a given size: an entry, no
    entry, or an errno. *)
Record PosixIds := { pw_uid : Z; pw_gid : Z }.
Inductive pw_answer (A : Type) := PwEntry (a : A) | PwNone | PwErrno (rc : Z).
Arguments PwEntry {A} _.
Arguments PwNone {A}.
Arguments PwErrno {A} _.
Class Passwd := {
  getpwuid_r : Z -> Z -> pw_answer string;
  getpwnam_r : string -> Z -> pw_answer PosixIds;
  gen_secret_key : string;
}.
Definition ERANGE : Z := 34.

(** The loop both lookups run; [None] when the fuel runs out *)
Fixpoint pw_loop {A} (fuel : nat) (call : Z -> pw_answer A) (buf_size : Z) : option (res dir_error (option A)) :=
  match fuel with
  | O => None
  | S fuel =>
      match call buf_size with
      | PwEntry a => Some (Ok (Some a))
      | PwNone => Some (Ok None)
      | PwErrno rc => if (rc =? ERANGE)%Z && (buf_size <? 2 ^ 20)%Z then pw_loop fuel call (buf_size * 2) else Some (Err (msg "getpw"))
      end
  end.
(** From 4096 the size reaches [1 << 20] after eight doublings. *)
Definition pw_lookup {A} (call : Z -> pw_answer A) : res dir_error (option A) := default Panics (pw_loop 9 call 4096).

Section Ctl.
Context {W : Passwd}.
Definition username_for_uid (uid : Z) : res dir_error (option string) := pw_lookup (getpwuid_r uid).
Definition ids_for_username (username : string) : res dir_error (option PosixIds) :=
  if contains_char "000" username then Err (msg "interior NUL") else pw_lookup (getpwnam_r username).

(** ** Arguments *)
Record UserAddArgs := {
  arg_username : string; arg_access_key : option string; arg_secret_key : option string; arg_uid : option Z; arg_gid : option Z }.

Definition resolve_user_add (args : UserAddArgs) : res dir_error (UserDoc * option string) :=
  let username := to_ascii_lowercase (arg_username args) in
  if is_empty username then Err (EmptyField "--username")
  else
    let access_key := default username (arg_access_key args) in
    _ ← validate_access_key access_key;
    ids ← match arg_uid args, arg_gid args with
          | Some uid, Some gid => Ok (uid, gid)
          | uid, gid =>
              ids ← ids_for_username username;
              match ids with
              | None => Err (msg "no passwd entry")
              | Some ids => Ok (default (pw_uid ids) uid, default (pw_gid ids) gid)
              end
          end;
    let secret := match arg_secret_key args with Some s => (s, None) | None => (gen_secret_key, Some gen_secret_key) end in
    Ok ({| user_access_key := access_key; user_secret_key := fst secret; user_username := username;
           user_uid := fst ids; user_gid := snd ids |}, snd secret).

Definition parse_access_level (s : string) : res dir_error AccessLevel :=
  let l := to_ascii_lowercase (trim s) in
  if bool_decide (l ∈ ["ro"; "read"; "read_only"; "readonly"]) then Ok ReadOnly
  else if bool_decide (l ∈ ["rw"; "write"; "read_write"; "readwrite"]) then Ok ReadWrite
  else Err (msg "invalid access level").

Definition parse_grant (s : string) : res dir_error AclEntry :=
  match split ":" s with
  | [kind; name; level] =>
      let kind := to_ascii_lowercase (trim kind) in
      principal ←
        (if bool_decide (kind ∈ ["ak"; "access_key"]) then Ok (AccessKey (trim name))
         else if bool_decide (kind ∈ ["group"; "group_name"]) then Ok (GroupName (trim name))
         else Err (msg "invalid grant principal type"));
      _ ← validate_principal principal;
      access ← parse_access_level level;
      Ok {| entry_principal := principal; entry_access := access |}
  | _ => Err (msg "invalid grant")
  end.
Fixpoint parse_grants (gs : list string) : res dir_error (list AclEntry) :=
  match gs with [] => Ok [] | g :: gs => e ← parse_grant g; l ← parse_grants gs; Ok (e :: l) end.
Definition parse_acl (gs : list string) : res dir_error (list AclEntry) :=
  acl ← parse_grants gs;
  match acl with [] => Err (msg "at least one --grant") | _ => Ok acl end.

(** ** Operations on a directory file *)
Definition with_users (doc : DirectoryFileV1) (us : list UserDoc) : DirectoryFileV1 :=
  {| file_version := file_version doc; file_users := us; file_buckets := file_buckets doc |}.
Definition with_buckets (doc : DirectoryFileV1) (bs : list BucketDoc) : DirectoryFileV1 :=
  {| file_version := file_version doc; file_users := file_users doc; file_buckets := bs |}.

Definition yaml_user_upsert (doc : DirectoryFileV1) (user : UserDoc) : DirectoryFileV1 :=
  with_users doc (merge_sort user_le (filter (fun u => user_access_key u <> user_access_key user) (file_users doc) ++ [user])%list).
Definition yaml_user_delete (doc : DirectoryFileV1) (access_key : string) (cleanup_acls : bool) : DirectoryFileV1 :=
  let doc := with_users doc (filter (fun u => user_access_key u <> access_key) (file_users doc)) in
  if cleanup_acls then with_buckets doc ((fun b => with_acl b (normalize_acl (without_key access_key (doc_acl b)))) <$> file_buckets doc) else doc.
Definition yaml_bucket_upsert (doc : DirectoryFileV1) (bucket : BucketDoc) : DirectoryFileV1 :=
  with_buckets doc (merge_sort id_le (filter (fun b => doc_id b <> doc_id bucket) (file_buckets doc) ++ [normalized bucket])%list).
Definition yaml_bucket_delete (doc : DirectoryFileV1) (bucket_id : string) : DirectoryFileV1 :=
  with_buckets doc (filter (fun b => doc_id b <> bucket_id) (file_buckets doc)).
(** [iter_mut().find(..)]: the first bucket with the id is changed. *)
Fixpoint set_first_acl (bucket_id : string) (acl : list AclEntry) (bs : list BucketDoc) : option (list BucketDoc) :=
  match bs with
  | [] => None
  | b :: bs => if doc_id b =s bucket_id then Some (with_acl b (normalize_acl acl) :: bs) else cons b <$> set_first_acl bucket_id acl bs
  end.
Definition yaml_bucket_set_acl (doc : DirectoryFileV1) (bucket_id : string) (acl : list AclEntry) : res dir_error DirectoryFileV1 :=
  match set_first_acl bucket_id acl (file_buckets doc) with
  | Some bs => Ok (with_buckets doc bs)
  | None => Err (msg "bucket not found")
  end.

(** [load_directory_yaml_file] and [save_directory_yaml_file]: a document is
    validated when it is read and before it is written. *)
Definition load (doc : DirectoryFileV1) : res dir_error DirectoryFileV1 := _ ← validate doc; Ok doc.
Definition save (doc : DirectoryFileV1) : res dir_error DirectoryFileV1 := _ ← validate doc; Ok doc.

(** ** Commands *)
Inductive Cmd :=
| UserAdd (args : UserAddArgs)
| UserRm (access_key : string) (cleanup_acls : bool)
| BucketAdd (bucket_id : option string) (name data_path : string) (grants : list string)
| BucketRm (bucket_id : string)
| BucketAclSet (bucket_id : string) (grants : list string)
| ImportYaml (doc : DirectoryFileV1) (replace : bool).

(** [async_main] with [Backend::Yaml] *)
Definition yaml_main (uuid : string) (cmd : Cmd) (doc : DirectoryFileV1) : res dir_error DirectoryFileV1 :=
  match cmd with
  | UserAdd args => ug ← resolve_user_add args; doc ← load doc; save (yaml_user_upsert doc (fst ug))
  | UserRm access_key cleanup => doc ← load doc; save (yaml_user_delete doc (trim access_key) cleanup)
  | BucketAdd id name data_path grants =>
      doc ← load doc;
      acl ← parse_acl grants;
      save (yaml_bucket_upsert doc {| doc_id := default uuid id; doc_name := name; doc_data_path := data_path; doc_acl := acl |})
  | BucketRm id => doc ← load doc; save (yaml_bucket_delete doc (trim id))
  | BucketAclSet id grants => doc ← load doc; acl ← parse_acl grants; doc ← yaml_bucket_set_acl doc (trim id) acl; save doc
  | ImportYaml imported replace =>
      _ ← validate imported;
      if replace then save imported
      else doc ← load doc; save (foldl yaml_bucket_upsert (foldl yaml_user_upsert doc (file_users imported)) (file_buckets imported))
  end.

(** [async_main] with [Backend::Openbao] *)
Definition openbao_main {E : KvEnv} {N : Nss} (uuid : string) (cmd : Cmd) : K unit :=
  match cmd with
  | UserAdd args => ug ← unwrap_or_reply (resolve_user_add args) id; upsert_user (fst ug)
  | UserRm access_key cleanup => delete_user access_key cleanup
  | BucketAdd bid name data_path grants =>
      acl ← unwrap_or_reply (parse_acl grants) id;
      match bid with
      | Some i => upsert_bucket {| doc_id := i; doc_name := name; doc_data_path := data_path; doc_acl := acl |}
      | None => _ ← create_bucket uuid name data_path acl; mret tt
      end
  | BucketRm i => delete_bucket i
  | BucketAclSet i grants => acl ← unwrap_or_reply (parse_acl grants) id; set_bucket_acl i acl
  | ImportYaml doc replace => import_doc doc replace
  end.

(** Sessions of the operator, each command with the UUID it would draw *)
Fixpoint yaml_session (cmds : list (string * Cmd)) (doc : DirectoryFileV1) : res dir_error DirectoryFileV1 :=
  match cmds with [] => Ok doc | (uuid, cmd) :: cmds => doc ← yaml_main uuid cmd doc; yaml_session cmds doc end.
Definition openbao_session {E : KvEnv} {N : Nss} (cmds : list (string * Cmd)) : K unit :=
  for_each_k (fun uc => openbao_main (fst uc) (snd uc)) cmds.

(** ** versity_iam.rs *)
Record VersityIamAccount := { iam_access : string; iam_secret : string; iam_role : string; iam_user_id : Z; iam_group_id : Z }.
Inductive OnMissingUser := MissingError | UseAccessKey | Skip.
Record ImportFilter := { include : option (gset string); exclude : option (gset string) }.
Record ImportReport := { imported_keys : list string; filtered_keys : list string; missing_user_skipped : list string }.

Definition iam_entry : Type := string * VersityIamAccount.
Definition effective_key (oa : iam_entry) : iam_entry :=
  let inner := trim (iam_access (snd oa)) in (if is_empty inner then fst oa else inner, snd oa).
Definition iam_le (a b : iam_entry) : Prop := str_le (fst a) (fst b).
#[global] Instance iam_le_dec : RelDecision iam_le.
Proof. intros a b. unfold iam_le. apply _. Defined.
Definition passes (f : ImportFilter) (k : string) : bool :=
  match include f, exclude f with
  | Some inc, _ => bool_decide (k ∈ inc)
  | None, Some exc => negb (bool_decide (k ∈ exc))
  | None, None => true
  end.

Fixpoint import_accounts (f : ImportFilter) (on_missing : OnMissingUser) (entries : list iam_entry) (users : list UserDoc) (r : ImportReport)
    : res dir_error (list UserDoc * ImportReport) :=
  match entries with
  | [] => Ok (users, r)
  | (access_key, acct) :: entries =>
      if negb (passes f access_key) then
        import_accounts f on_missing entries users
          {| imported_keys := imported_keys r; filtered_keys := (filtered_keys r ++ [access_key])%list; missing_user_skipped := missing_user_skipped r |}
      else if is_empty (trim (iam_secret acct)) then Err (EmptyField "secret")
      else
        name ← username_for_uid (iam_user_id acct);
        let import username :=
          import_accounts f on_missing entries
            (users ++ [{| user_access_key := access_key; user_secret_key := trim (iam_secret acct); user_username := username;
                          user_uid := iam_user_id acct; user_gid := iam_group_id acct |}])%list
            {| imported_keys := (imported_keys r ++ [access_key])%list; filtered_keys := filtered_keys r; missing_user_skipped := missing_user_skipped r |} in
        match name, on_missing with
        | Some username, _ => import username
        | None, MissingError => Err (msg "no system user")
        | None, UseAccessKey => import access_key
        | None, Skip =>
            import_accounts f on_missing entries users
              {| imported_keys := imported_keys r; filtered_keys := filtered_keys r; missing_user_skipped := (missing_user_skipped r ++ [access_key])%list |}
        end
  end.
(** [accounts] in the order the [HashMap] yields them *)
Definition versity_iam_to_user_docs (accounts : list iam_entry) (f : ImportFilter) (on_missing : OnMissingUser)
    : res dir_error (list UserDoc * ImportReport) :=
  match include f, exclude f with
  | Some _, Some _ => Err (msg "--include and --exclude are mutually exclusive")
  | _, _ => import_accounts f on_missing (merge_sort iam_le (effective_key <$> accounts)) []
              {| imported_keys := []; filtered_keys := []; missing_user_skipped := [] |}
  end.
End Ctl.
