(* ===== verification/CtlProofs.v ===== *)
(** * The two backends of s32p-ctl keep the same directory

    [mirrors] relates a directory file and an OpenBao store that hold the same
    users and buckets; commands keep the relation, and the two [Directory]
    implementations answer alike under it. *)

From Stdlib Require Import ZArith Lia Ascii.
From stdpp Require Import base list strings numbers option gmap sorting fin_sets fin_maps.
From S2P Require Import Prelude RustStr Utils Handler Directory OpenBao OpenBaoProofs DirectoryMoves Ctl.

Local Open Scope s3_scope.
Local Open Scope string_scope.

(** ** Validation *)
Definition valid_user (u : UserDoc) : Prop := plain (user_access_key u).
Definition valid_bucket (b : BucketDoc) : Prop :=
  validate_bucket_name (doc_name b) = Ok tt /\ Forall (fun e => valid_principal (entry_principal e)) (doc_acl b).

Lemma for_each_ok {X} (f : X -> res dir_error unit) l : for_each f l = Ok tt <-> Forall (fun x => f x = Ok tt) l.
Proof.
  induction l as [|x l IH]; cbn [for_each]; [by split|]. rewrite Forall_cons, <- IH. split.
  - intros ([] & Hx & Hl)%bind_ok_inv. done.
  - intros [-> Hl]. done.
Qed.
Lemma valid_principal_ok p : valid_principal p <-> validate_principal p = Ok tt.
Proof. unfold valid_principal. split; [|by intros ->]. by destruct (validate_principal p) as [[]| |]. Qed.
Lemma validate_acl_ok acl : validate_acl acl = Ok tt <-> Forall (fun e => valid_principal (entry_principal e)) acl.
Proof.
  split; [apply validate_acl_valid|]. induction 1 as [|e acl He _ IH]; cbn [validate_acl]; [done|].
  apply valid_principal_ok in He. by rewrite He.
Qed.
Lemma validate_key_ok k : validate_access_key k = Ok tt <-> plain k.
Proof. unfold validate_access_key, ensure, plain. by destruct (matches_ident 127 k). Qed.

Lemma validate_ok doc :
  validate doc = Ok tt <-> file_version doc = 1%Z /\ Forall valid_user (file_users doc) /\ Forall valid_bucket (file_buckets doc).
Proof.
  unfold validate. split.
  - intros ([] & Hv%ensure_ok_inv & ([] & Hu & Hb)%bind_ok_inv)%bind_ok_inv. apply Z.eqb_eq in Hv.
    apply for_each_ok in Hu, Hb. split_and!; [done| |].
    + eapply list.Forall_impl; [exact Hu|]. intros u. apply validate_key_ok.
    + eapply list.Forall_impl; [exact Hb|]. intros b ([] & Hn & Ha%validate_acl_ok)%bind_ok_inv. done.
  - intros (-> & Hu & Hb). cbn [ensure Z.eqb mbind res_bind].
    rewrite (proj2 (for_each_ok _ (file_users doc))) by (eapply list.Forall_impl; [exact Hu|]; intros u; by apply validate_key_ok).
    cbn [mbind res_bind]. apply for_each_ok. eapply list.Forall_impl; [exact Hb|]. intros b [-> Ha]. by apply validate_acl_ok.
Qed.

(** ** Documents as the administration writes them *)
Lemma merged_normalize acl : merged (normalize_acl acl) = merged acl.
Proof.
  apply map_eq. intros k. pose proof (merged_spec (normalize_acl acl) k) as Hn. pose proof (merged_spec acl k) as Ha.
  assert (forall x, merged acl !! k = Some x -> principal_key (entry_principal x) = k -> x ∈ normalize_acl acl) as Hin
    by (intros x Hx <-; by apply elem_of_normalize).
  destruct (merged (normalize_acl acl) !! k) as [x|] eqn:Ex.
  - destruct Hn as (Hk & (e & He & Hp & Hl) & _). apply elem_of_normalize in He. rewrite Hp, Hk in He. rewrite He. f_equal.
    destruct e, x; cbn in *; congruence.
  - destruct (merged acl !! k) as [x|] eqn:Ey; [|done]. destruct Ha as (Hk & _). exfalso. by apply (Hn x (Hin x eq_refl Hk)).
Qed.
Lemma normalize_idem acl : normalize_acl (normalize_acl acl) = normalize_acl acl.
Proof. unfold normalize_acl at 1 3. fold (merged (normalize_acl acl)) (merged acl). by rewrite merged_normalize. Qed.

Definition tidy_user (u : UserDoc) : Prop := trimmed_user u = u.
Definition tidy_bucket (b : BucketDoc) : Prop :=
  normalized b = b /\ trimmed_bucket b = b /\ plain (doc_id b) /\ is_empty (doc_data_path b) = false.

Lemma normalized_tidy b :
  trimmed_bucket b = b -> plain (doc_id b) -> is_empty (doc_data_path b) = false -> tidy_bucket (normalized b).
Proof.
  intros Ht Hid Hp. split_and!; [| |done|done]; [unfold normalized; cbn; by rewrite normalize_idem|].
  destruct b. unfold trimmed_bucket, normalized in *. cbn in *. injection Ht. congruence.
Qed.
Lemma tidy_with_acl b acl : tidy_bucket b -> tidy_bucket (with_acl b (normalize_acl acl)).
Proof.
  intros (_ & Ht & Hid & Hp). split_and!; [| |done|done]; [unfold normalized, with_acl; cbn; by rewrite normalize_idem|].
  destruct b. unfold trimmed_bucket, with_acl in *. cbn in *. injection Ht. congruence.
Qed.
Lemma normalize_valid acl :
  Forall (fun e => valid_principal (entry_principal e)) acl -> Forall (fun e => valid_principal (entry_principal e)) (normalize_acl acl).
Proof. rewrite !Forall_names. intros H p. rewrite names_normalize. apply H. Qed.

Section Mirror.
Context {E : KvEnv} {N : Nss} {W : Passwd}.

(** The file and the store hold the same users and buckets. *)
Record mirrors (doc : DirectoryFileV1) (m : store) : Prop := {
  mir_valid : validate doc = Ok tt;
  mir_keys : NoDup (user_access_key <$> file_users doc);
  mir_ids : NoDup (doc_id <$> file_buckets doc);
  mir_tidy_users : Forall tidy_user (file_users doc);
  mir_tidy : Forall tidy_bucket (file_buckets doc);
  mir_users : forall k u, plain k -> m !! user_path k = Some (DUser u) <-> u ∈ file_users doc /\ user_access_key u = k;
  mir_buckets : forall id b, plain id -> m !! bucket_path id = Some (DBucket b) <-> b ∈ file_buckets doc /\ doc_id b = id;
}.

Lemma user_path_inj a b : plain a -> plain b -> user_path a = user_path b -> a = b.
Proof. intros Ha Hb. rewrite !user_path_plain by done. by intros H%str_app_inv_l. Qed.

Lemma NoDup_replace {A} (g : A -> string) (l : list A) (x : A) :
  NoDup (g <$> l) -> NoDup (g <$> (filter (fun a => g a <> g x) l ++ [x])%list).
Proof.
  intros Hnd. rewrite fmap_app. apply NoDup_app. split_and!.
  - eapply sublist_NoDup; [exact Hnd|]. apply fmap_sublist, sublist_filter.
  - intros y (a & -> & [Ha _]%list_elem_of_filter)%list_elem_of_fmap. cbn. by intros Hy%list_elem_of_singleton.
  - apply NoDup_singleton.
Qed.

Lemma mirror_user doc m u :
  mirrors doc m -> valid_user u -> tidy_user u -> mirrors (yaml_user_upsert doc u) (<[user_path (user_access_key u) := DUser u]> m).
Proof.
  intros [Hv Hk Hi Htu Ht Hu Hb] Hval Htidy. apply validate_ok in Hv as (Hver & Hvu & Hvb).
  set (us := (filter (fun v => user_access_key v <> user_access_key u) (file_users doc) ++ [u])%list).
  assert (forall v, v ∈ merge_sort user_le us <-> v ∈ file_users doc /\ user_access_key v <> user_access_key u \/ v = u) as Hin.
  { intros v. rewrite merge_sort_Permutation. unfold us. rewrite elem_of_app, list_elem_of_filter, list_elem_of_singleton. tauto. }
  rewrite list.Forall_forall in Hvu, Htu. constructor; cbn [yaml_user_upsert with_users file_users file_buckets file_version]; fold us; try done.
  - apply validate_ok. cbn. fold us. split_and!; [done| |done]. apply list.Forall_forall. intros v [[? _]| ->]%Hin; auto.
  - rewrite merge_sort_Permutation. by apply NoDup_replace.
  - apply list.Forall_forall. intros v [[? _]| ->]%Hin; auto.
  - intros k v Hpk. rewrite Hin. destruct (decide (k = user_access_key u)) as [->|Hne].
    + rewrite lookup_insert_eq. split; [intros [= ->]; auto|]. by intros [[[_ Hn]| ->] Heq].
    + rewrite lookup_insert_ne by (intros Heq%user_path_inj; done). rewrite Hu by done. split; [|].
      * intros [Hin' <-]. split; [left; split; [done|]|done]. done.
      * intros [[[? _]| ->] Heq]; [done|]. by destruct Hne.
  - intros id b Hid. rewrite lookup_insert_ne by (by apply user_not_bucket). by apply Hb.
Qed.

(** One bucket is replaced or removed, on both sides. *)
Lemma mirror_replace doc m bs id (ob : option BucketDoc) m' :
  mirrors doc m -> plain id -> (forall b, ob = Some b -> doc_id b = id /\ valid_bucket b /\ tidy_bucket b) ->
  NoDup (doc_id <$> bs) -> (forall b, b ∈ bs <-> b ∈ file_buckets doc /\ doc_id b <> id \/ ob = Some b) ->
  m' !! bucket_path id = DBucket <$> ob -> elsewhere id m m' -> mirrors (with_buckets doc bs) m'.
Proof.
  intros [Hv Hk Hi Htu Ht Hu Hb] Hid Hob Hnd Hin Hm He. apply validate_ok in Hv as (Hver & Hvu & Hvb). rewrite list.Forall_forall in Hvb, Ht.
  constructor; cbn [with_buckets file_users file_buckets file_version]; try done.
  - apply validate_ok. cbn. split_and!; [done..|]. apply list.Forall_forall. intros b [[? _]|Hs]%Hin; [auto|apply Hob, Hs].
  - apply list.Forall_forall. intros b [[? _]|Hs]%Hin; [auto|apply Hob, Hs].
  - intros k u Hpk. rewrite He; [by apply Hu|by intros; apply user_not_index|by apply user_not_bucket].
  - intros id' b Hid'. rewrite Hin. destruct (decide (id' = id)) as [->|Hne].
    + rewrite Hm. split.
      * destruct ob as [b'|]; [|done]. intros [= ->]. destruct (Hob b eq_refl) as [? _]. auto.
      * intros [[[_ Hn]| ->] Heq]; done.
    + rewrite He; [|by intros; apply bucket_not_index|by intros ?%bucket_path_inj]. rewrite Hb by done. split.
      * intros [Hin' Heq]. split; [left; split; [done|congruence]|done].
      * intros [[[? _]|Hs] Heq]; [done|]. destruct (Hob b Hs) as [Hd _]. congruence.
Qed.

Lemma mirror_bucket_upsert doc m m' b :
  mirrors doc m -> trimmed_bucket b = b -> plain (doc_id b) -> is_empty (doc_data_path b) = false -> valid_bucket b ->
  m' !! bucket_path (doc_id b) = Some (DBucket (normalized b)) -> elsewhere (doc_id b) m m' -> mirrors (yaml_bucket_upsert doc b) m'.
Proof.
  intros Hmir Ht Hid Hp [Hn Ha] Hl He. apply (mirror_replace doc m _ (doc_id b) (Some (normalized b))); [done|done| | | |done|done].
  - intros b' [= <-]. split_and!; [done|split; [done|by apply normalize_valid]|by apply normalized_tidy].
  - rewrite merge_sort_Permutation. apply (NoDup_replace doc_id _ (normalized b)), (mir_ids _ _ Hmir).
  - intros b'. rewrite merge_sort_Permutation, elem_of_app, list_elem_of_filter, list_elem_of_singleton. split.
    + intros [[? ?]| ->]; auto.
    + intros [[? ?]|[= ->]]; auto.
Qed.

Lemma mirror_bucket_delete doc m m' id :
  mirrors doc m -> plain id -> m' !! bucket_path id = None -> elsewhere id m m' -> mirrors (yaml_bucket_delete doc id) m'.
Proof.
  intros Hmir Hid Hl He. apply (mirror_replace doc m _ id None); try done.
  - eapply sublist_NoDup; [exact (mir_ids _ _ Hmir)|]. apply fmap_sublist, sublist_filter.
  - intros b. rewrite list_elem_of_filter. split; [intros [? ?]; auto|]. by intros [[? ?]|].
Qed.

Lemma set_first_acl_spec id acl bs :
  NoDup (doc_id <$> bs) ->
  match set_first_acl id acl bs with
  | Some bs' => exists b, b ∈ bs /\ doc_id b = id /\ doc_id <$> bs' = doc_id <$> bs /\
      forall b', b' ∈ bs' <-> b' ∈ bs /\ doc_id b' <> id \/ b' = with_acl b (normalize_acl acl)
  | None => forall b, b ∈ bs -> doc_id b <> id
  end.
Proof.
  induction bs as [|b bs IH]; cbn [set_first_acl fmap list_fmap]; [by intros _ b ?%not_elem_of_nil|]. intros [Hb Hnd]%NoDup_cons.
  assert (forall b', b' ∈ bs -> doc_id b' <> doc_id b) as Hdiff.
  { intros b' Hb' Heq. apply Hb. rewrite <- Heq. apply list_elem_of_fmap. by exists b'. }
  destruct (String.eqb_spec (doc_id b) id) as [<-|Hne].
  - exists b. split_and!; [left|done|done|]. intros b'. rewrite !elem_of_cons. split.
    + intros [->|Hb']; [auto|]. left. split; [auto|]. by apply Hdiff.
    + intros [[[->|Hb'] Hn]| ->]; auto; done.
  - specialize (IH Hnd). destruct (set_first_acl id acl bs) as [bs'|]; cbn [fmap option_fmap option_map].
    + destruct IH as (b0 & Hb0 & Hid & Hids & Hin). exists b0. split_and!; [by right|done|cbn; by f_equal|].
      intros b'. rewrite !elem_of_cons, Hin. split; [intros [->|[[? ?]|?]]; auto|]. intros [[[->|?] ?]|?]; auto.
    + intros b' [->|Hb']%elem_of_cons; auto.
Qed.

Lemma mirror_set_acl doc m m' id acl b :
  mirrors doc m -> plain id -> Forall (fun e => valid_principal (entry_principal e)) acl ->
  m !! bucket_path id = Some (DBucket b) -> m' !! bucket_path id = Some (DBucket (with_acl b (normalize_acl acl))) -> elsewhere id m m' ->
  exists doc', yaml_bucket_set_acl doc id acl = Ok doc' /\ mirrors doc' m'.
Proof.
  intros Hmir Hid Ha Hb Hb' He. pose proof (set_first_acl_spec id acl (file_buckets doc) (mir_ids _ _ Hmir)) as Hs.
  apply (mir_buckets _ _ Hmir) in Hb as [Hin Hd]; [|done]. unfold yaml_bucket_set_acl.
  destruct (set_first_acl id acl (file_buckets doc)) as [bs|]; [|by destruct (Hs b Hin)].
  destruct Hs as (b0 & Hb0 & Hd0 & Hids & Hmem). exists (with_buckets doc bs). split; [done|].
  assert (b0 = b) as ->.
  { pose proof (mir_ids _ _ Hmir) as Hnd. apply list_elem_of_lookup in Hb0 as [i Hi], Hin as [j Hj].
    assert (i = j) as ->; [|congruence]. eapply NoDup_lookup; [exact Hnd| |]; rewrite list_lookup_fmap; [by rewrite Hi|rewrite Hj; cbn; congruence]. }
  apply (mirror_replace doc m bs id (Some (with_acl b (normalize_acl acl)))); try done.
  - intros b' [= <-]. pose proof (mir_tidy _ _ Hmir) as Ht. rewrite list.Forall_forall in Ht.
    pose proof (mir_valid _ _ Hmir) as (_ & _ & Hvb)%validate_ok. rewrite list.Forall_forall in Hvb.
    split_and!; [by cbn| |by apply tidy_with_acl, Ht]. split; [exact (proj1 (Hvb b Hin))|by apply normalize_valid].
  - rewrite Hids. exact (mir_ids _ _ Hmir).
  - intros b'. rewrite Hmem. split; intros [?|Heq]; auto; [right; by rewrite Heq|right; by injection Heq].
Qed.

Lemma without_nothing ak acl : length (without_key ak acl) = length acl -> without_key ak acl = acl.
Proof.
  unfold without_key. induction acl as [|e acl IH]; [done|]. rewrite filter_cons. case_decide; cbn [length]; intros Hl; [f_equal; apply IH; lia|].
  pose proof (length_filter (fun e => entry_principal e <> AccessKey ak) acl). lia.
Qed.
Lemma tidy_strip ak b : tidy_bucket b -> strip_doc ak b = with_acl b (normalize_acl (without_key ak (doc_acl b))).
Proof.
  intros (Hn & Ht & _ & _). unfold strip_doc. cbv zeta. destruct (Nat.eqb_spec (length (without_key ak (doc_acl b))) (length (doc_acl b))) as [Hl|_].
  - rewrite without_nothing by done. by rewrite <- Hn at 1.
  - destruct b. unfold trimmed_bucket, normalized, with_acl in *. cbn in *. injection Ht. congruence.
Qed.

Lemma mirror_user_delete doc m m' ak :
  mirrors doc m -> plain ak -> m' !! user_path ak = None ->
  (forall id, plain id -> m' !! bucket_path id = strip_kv ak <$> m !! bucket_path id) ->
  (forall k, plain k -> k <> ak -> m' !! user_path k = m !! user_path k) -> mirrors (yaml_user_delete doc ak true) m'.
Proof.
  intros [Hv Hk Hi Htu Ht Hu Hb] Hak Hnone Hdocs Husers. apply validate_ok in Hv as (Hver & Hvu & Hvb).
  set (strip b := with_acl b (normalize_acl (without_key ak (doc_acl b)))).
  assert (forall v, v ∈ filter (fun u => user_access_key u <> ak) (file_users doc) <-> v ∈ file_users doc /\ user_access_key v <> ak) as Hfu
    by (intros v; rewrite list_elem_of_filter; tauto).
  assert (forall b, b ∈ strip <$> file_buckets doc <-> exists b0, b0 ∈ file_buckets doc /\ b = strip b0) as Hfb
    by (intros b; rewrite list_elem_of_fmap; split; intros (b0 & ? & ?); eauto).
  rewrite list.Forall_forall in Hvu, Htu. rewrite list.Forall_forall in Hvb, Ht.
  constructor; cbn [yaml_user_delete with_users with_buckets file_users file_buckets file_version]; fold strip.
  - apply validate_ok. cbn. fold strip. split_and!; [done| |]; apply list.Forall_forall.
    + intros v [? _]%Hfu. auto.
    + intros b (b0 & Hb0 & ->)%Hfb. destruct (Hvb b0 Hb0) as [Hn Ha]. split; [done|]. apply normalize_valid, Forall_names.
      intros p [Hp _]%names_without. revert p Hp. by apply Forall_names.
  - eapply sublist_NoDup; [exact Hk|]. apply fmap_sublist, sublist_filter.
  - rewrite <- list_fmap_compose. exact Hi.
  - apply list.Forall_forall. intros v [? _]%Hfu. auto.
  - apply list.Forall_forall. intros b (b0 & Hb0 & ->)%Hfb. by apply tidy_with_acl, Ht.
  - intros k u Hpk. rewrite Hfu. destruct (decide (k = ak)) as [->|Hne]; [rewrite Hnone; split; [done|]; by intros [[_ ?] ?]|].
    rewrite Husers, Hu by done. split; [intros [? <-]; auto|]. by intros [[? _] ?].
  - intros id b Hid. rewrite Hdocs, Hfb by done. split.
    + destruct (m !! bucket_path id) as [[u|b0|l]|] eqn:Eb; try done. cbn. intros [= <-]. apply Hb in Eb as [Hin Hd]; [|done].
      rewrite tidy_strip by auto. split; [by exists b0|done].
    + intros [(b0 & Hin & ->) Hd]. assert (m !! bucket_path id = Some (DBucket b0)) as -> by (apply Hb; done). cbn. by rewrite tidy_strip by auto.
Qed.

(** ** Lookups and arguments *)
Lemma pw_loop_total {A} (call : Z -> pw_answer A) fuel size :
  (0 < size)%Z -> (2 ^ 20 <= size * 2 ^ Z.of_nat fuel)%Z -> exists r, pw_loop (S fuel) call size = Some r /\ r <> Panics.
Proof.
  revert size. induction fuel as [|fuel IH]; intros size Hp Hs; cbn [pw_loop].
  - destruct (call size) as [a| |rc]; [by eexists..|]. rewrite (proj2 (Z.ltb_ge size (2 ^ 20))) by lia. rewrite andb_false_r. by eexists.
  - destruct (call size) as [a| |rc]; [by eexists..|]. destruct (_ && _); [|by eexists]. apply IH; [lia|].
    rewrite Nat2Z.inj_succ, Z.pow_succ_r in Hs by lia. lia.
Qed.
Lemma pw_lookup_no_panics {A} (call : Z -> pw_answer A) : pw_lookup call <> Panics.
Proof. unfold pw_lookup. destruct (pw_loop_total call 8 4096) as (r & -> & Hr); [lia|by vm_compute|]. exact Hr. Qed.

Lemma resolve_no_panics args : resolve_user_add args <> Panics.
Proof.
  unfold resolve_user_add. cbv zeta. destruct (is_empty _); [done|]. unfold validate_access_key, ensure. destruct (matches_ident 127 _); cbn [mbind res_bind]; [|done].
  assert (ids_for_username (to_ascii_lowercase (arg_username args)) <> Panics) as Hp
    by (unfold ids_for_username; destruct (contains_char _ _); [done|apply pw_lookup_no_panics]).
  destruct (arg_uid args), (arg_gid args); cbn [mbind res_bind]; try done.
  all: destruct (ids_for_username _) as [[ids|]| |]; cbn [mbind res_bind]; done.
Qed.
Lemma resolve_valid args u g : resolve_user_add args = Ok (u, g) -> valid_user u.
Proof.
  unfold resolve_user_add. cbv zeta. destruct (is_empty _); [done|]. intros ([] & Hk%validate_key_ok & (ids & _ & [= <- _])%bind_ok_inv)%bind_ok_inv. done.
Qed.

Lemma parse_grant_ok s : match parse_grant s with Ok e => valid_principal (entry_principal e) | Err _ => True | Panics => False end.
Proof.
  unfold parse_grant. destruct (split ":" s) as [|kind [|name [|level [|]]]]; try done. cbv zeta.
  destruct (bool_decide _); [|destruct (bool_decide _); [|done]]; cbn [mbind res_bind].
  all: match goal with |- context [validate_principal ?p] => destruct (validate_principal p) as [[]| |] eqn:Ep end; cbn [mbind res_bind]; try done.
  all: try (revert Ep; cbn; unfold validate_access_key, ensure; by case_match).
  all: unfold parse_access_level; cbv zeta; repeat (destruct (bool_decide _)); cbn [mbind res_bind entry_principal]; try done; by apply valid_principal_ok.
Qed.
Lemma parse_acl_ok gs : match parse_acl gs with Ok acl => Forall (fun e => valid_principal (entry_principal e)) acl | Err _ => True | Panics => False end.
Proof.
  assert (match parse_grants gs with Ok acl => Forall (fun e => valid_principal (entry_principal e)) acl | Err _ => True | Panics => False end) as H.
  { induction gs as [|g gs IH]; cbn [parse_grants]; [constructor|]. pose proof (parse_grant_ok g) as Hg. destruct (parse_grant g); cbn [mbind res_bind]; try done.
    destruct (parse_grants gs); cbn [mbind res_bind]; try done. by constructor. }
  unfold parse_acl. destruct (parse_grants gs) as [[|]| |]; cbn [mbind res_bind]; done.
Qed.

(** ** Commands

    Fields without surrounding blanks and with plain ids (with blanks the two
    backends part, see [blanks_divide_backends]); a user removal cleans up
    access lists; a file imported in place of the directory has no
    repeated keys and normalised access lists, as an exported one. *)
Definition clean_doc (doc : DirectoryFileV1) : Prop :=
  Forall tidy_user (file_users doc) /\ Forall (fun b => trimmed_bucket b = b /\ plain (doc_id b)) (file_buckets doc).
Definition settled_doc (doc : DirectoryFileV1) : Prop :=
  NoDup (user_access_key <$> file_users doc) /\ NoDup (doc_id <$> file_buckets doc) /\ Forall (fun b => normalized b = b) (file_buckets doc).
Definition clean_cmd (uuid : string) (cmd : Cmd) : Prop :=
  match cmd with
  | UserAdd args => forall u g, resolve_user_add args = Ok (u, g) -> tidy_user u
  | UserRm access_key cleanup => plain (trim access_key) /\ cleanup = true
  | BucketAdd id name data_path _ => plain (default uuid id) /\ trim name = name /\ trim data_path = data_path
  | BucketRm id | BucketAclSet id _ => plain (trim id)
  | ImportYaml doc replace => clean_doc doc /\ (replace = true -> settled_doc doc)
  end.

Lemma mirror_save doc m : mirrors doc m -> save doc = Ok doc.
Proof. intros H. unfold save. by rewrite (mir_valid _ _ H). Qed.

Lemma user_mirror u doc m :
  tidy_user u -> good m -> mirrors doc m -> spec m (upsert_user u) any (fun _ m' => good m' /\ mirrors (yaml_user_upsert doc u) m').
Proof.
  intros Hu Hg Hm. eapply spec_mono; [by apply upsert_user_spec|done|]. cbv beta. intros _ m' [Hg' Heq].
  assert (trim (user_access_key u) = user_access_key u) as Hk by (exact (f_equal user_access_key Hu)).
  unfold tidy_user in Hu. rewrite Hu, Hk in Heq. subst m'. split; [done|].
  apply mirror_user; [done| |done]. apply (proj1 Hg' _ _ (lookup_insert_eq _ _ _)).
Qed.

Lemma import_users_spec us doc m :
  Forall tidy_user us -> good m -> mirrors doc m ->
  spec m (for_each_k upsert_user us) any (fun _ m' => good m' /\ mirrors (foldl yaml_user_upsert doc us) m').
Proof.
  revert doc m. induction us as [|u us IH]; intros doc m Ht Hg Hm; cbn [for_each_k foldl]; [by apply spec_ret|].
  apply Forall_cons in Ht as [Hu Hus]. apply spec_bind. eapply spec_mono; [by apply user_mirror|done|]. cbv beta. intros _ m' [Hg' Hm'].
  by apply IH.
Qed.

Lemma normalized_idem b : normalized (normalized b) = normalized b.
Proof. unfold normalized. cbn. by rewrite normalize_idem. Qed.

Lemma upsert_mirror b doc m :
  trimmed_bucket b = b -> plain (doc_id b) -> good m -> mirrors doc m ->
  spec m (upsert_bucket b) any (fun _ m' => good m' /\ mirrors (yaml_bucket_upsert doc b) m').
Proof.
  intros Ht Hid Hg Hm. pose proof (f_equal doc_id Ht : trim (doc_id b) = doc_id b) as Hti.
  pose proof (f_equal doc_name Ht : trim (doc_name b) = doc_name b) as Htn.
  pose proof (f_equal doc_data_path Ht : trim (doc_data_path b) = doc_data_path b) as Htp.
  pose proof (upsert_bucket_spec b m) as Hu. cbv zeta in Hu. rewrite Hti, Htn, Htp, Ht in Hu.
  eapply spec_mono; [apply Hu; [done|by apply good_pending]|done|]. cbv beta. intros _ m' (Hg' & Hl & He & Hn & Hp). split; [done|].
  eapply mirror_bucket_upsert; [done..| |done|done]. split; [done|].
  destruct (proj1 Hg' _ _ Hl) as (_ & _ & Ha). rewrite Forall_names in *. intros q Hq. apply Ha. by apply names_normalize.
Qed.

Lemma import_buckets_spec bs doc m :
  Forall (fun b => trimmed_bucket b = b /\ plain (doc_id b)) bs -> good m -> mirrors doc m ->
  spec m (for_each_k (fun b => upsert_bucket (normalized b)) bs) any (fun _ m' => good m' /\ mirrors (foldl yaml_bucket_upsert doc bs) m').
Proof.
  revert doc m. induction bs as [|b bs IH]; intros doc m Ht Hg Hm; cbn [for_each_k foldl]; [by apply spec_ret|].
  apply Forall_cons in Ht as [[Hb Hid] Hbs]. apply spec_bind.
  eapply spec_mono; [apply (upsert_mirror (normalized b) doc m); [|done..]|done|]. { destruct b. unfold trimmed_bucket, normalized in *. cbn in *. injection Hb. congruence. }
  cbv beta. intros _ m' [Hg' Hm']. apply IH; [done|done|]. unfold yaml_bucket_upsert in *. by rewrite normalized_idem in Hm'.
Qed.

(** An import in place of the directory leaves the imported file. *)
Lemma foldl_users us doc v :
  NoDup (user_access_key <$> us) ->
  v ∈ file_users (foldl yaml_user_upsert doc us) <-> v ∈ us \/ v ∈ file_users doc /\ user_access_key v ∉ user_access_key <$> us.
Proof.
  revert doc. induction us as [|u us IH]; intros doc; cbn [foldl fmap list_fmap].
  { intros _. split; [intros Hv; right; split; [done|apply not_elem_of_nil]|]. by intros [?%not_elem_of_nil|[? _]]. }
  intros [Hu Hnd]%NoDup_cons. rewrite (IH _ Hnd). cbn [yaml_user_upsert with_users file_users].
  rewrite merge_sort_Permutation, elem_of_app, list_elem_of_filter, list_elem_of_singleton, elem_of_cons, not_elem_of_cons. split.
  - intros [?|[[[? ?]| ->] ?]]; auto.
  - intros [[->|?]|[? [? ?]]]; auto.
Qed.
Lemma foldl_buckets bs doc v :
  NoDup (doc_id <$> bs) -> Forall (fun b => normalized b = b) bs ->
  v ∈ file_buckets (foldl yaml_bucket_upsert doc bs) <-> v ∈ bs \/ v ∈ file_buckets doc /\ doc_id v ∉ doc_id <$> bs.
Proof.
  revert doc. induction bs as [|b bs IH]; intros doc; cbn [foldl fmap list_fmap].
  { intros _ _. split; [intros Hv; right; split; [done|apply not_elem_of_nil]|]. by intros [?%not_elem_of_nil|[? _]]. }
  intros [Hu Hnd]%NoDup_cons [Hn Hns]%Forall_cons. rewrite (IH _ Hnd Hns). cbn [yaml_bucket_upsert with_buckets file_buckets].
  rewrite merge_sort_Permutation, elem_of_app, list_elem_of_filter, list_elem_of_singleton, elem_of_cons, not_elem_of_cons, Hn. split.
  - intros [?|[[[? ?]| ->] ?]]; auto.
  - intros [[->|?]|[? [? ?]]]; auto.
Qed.
Lemma foldl_users_buckets us doc : file_buckets (foldl yaml_user_upsert doc us) = file_buckets doc.
Proof. revert doc. induction us as [|u us IH]; intros doc; [done|]. cbn [foldl]. by rewrite IH. Qed.
Lemma foldl_buckets_users bs doc : file_users (foldl yaml_bucket_upsert doc bs) = file_users doc.
Proof. revert doc. induction bs as [|u us IH]; intros doc; [done|]. cbn [foldl]. by rewrite IH. Qed.

Definition empty_doc : DirectoryFileV1 := {| file_version := 1%Z; file_users := []; file_buckets := [] |}.
Lemma mirrors_empty : mirrors empty_doc ∅.
Proof.
  constructor; cbn; [done|constructor..| |]; intros k d _; rewrite lookup_empty; (split; [done|]); by intros [?%not_elem_of_nil _].
Qed.

Lemma mirrors_same doc doc' m :
  mirrors doc m -> validate doc' = Ok tt -> clean_doc doc' -> settled_doc doc' ->
  (forall u, u ∈ file_users doc' <-> u ∈ file_users doc) -> (forall b, b ∈ file_buckets doc' <-> b ∈ file_buckets doc) -> mirrors doc' m.
Proof.
  intros [_ _ _ _ Ht Hu Hb] Hv [Htu Htb] (Hk & Hi & Hn) Eu Eb. constructor; try done.
  - rewrite list.Forall_forall in *. intros b Hin%Eb. by apply Ht.
  - intros k u Hpk. by rewrite Eu, Hu.
  - intros id b Hid. by rewrite Eb, Hb.
Qed.

Lemma purge_all_spec m : wf m ->
  spec m (_ ← purge_tree "users"; _ ← purge_tree "buckets"; purge_tree "index") any (fun _ m' => m' = ∅).
Proof.
  intros Hwf. apply spec_bind. eapply spec_mono; [by apply (purge_tree_leaf LUsers); [left|]|done|]. cbv beta. intros _ m1 H1.
  apply spec_bind. eapply spec_mono; [apply (purge_tree_leaf LBuckets); [by right|apply H1]|done|]. cbv beta. intros _ m2 H2.
  eapply spec_mono; [apply purge_tree_index, H2|done|]. cbv beta. intros _ m3 H3. by eapply purged_all.
Qed.

Lemma import_spec_replace doc m :
  clean_doc doc -> settled_doc doc -> good m -> spec m (import_doc doc true) any (fun _ m' => good m' /\ mirrors doc m').
Proof.
  intros [Htu Htb] Hset Hg. unfold import_doc. apply spec_bind, spec_unwrap.
  destruct (validate doc) as [[]|e|] eqn:Ev; [|done|by apply validate_doc_no_panics in Ev].
  apply spec_bind. eapply spec_mono; [apply purge_all_spec, Hg|done|]. cbv beta. intros _ m1 ->.
  apply spec_bind. eapply spec_mono; [by apply (import_users_spec _ empty_doc); [..|apply good_empty|apply mirrors_empty]|done|].
  cbv beta. intros _ m2 [Hg2 Hm2]. eapply spec_mono; [by apply import_buckets_spec|done|]. cbv beta. intros _ m3 [Hg3 Hm3].
  split; [done|]. destruct Hset as (Hk & Hi & Hn). eapply mirrors_same; [exact Hm3|done|done|done| |].
  - intros u. rewrite foldl_buckets_users, foldl_users by done. split; [auto|]. by intros [?|[?%not_elem_of_nil _]].
  - intros b. rewrite foldl_buckets by done. rewrite foldl_users_buckets. split; [auto|]. by intros [?|[?%not_elem_of_nil _]].
Qed.

Lemma import_mirror uuid doc replace cur m :
  clean_doc doc -> (replace = true -> settled_doc doc) -> good m -> mirrors cur m ->
  spec m (import_doc doc replace) any
    (fun _ m' => good m' /\ exists doc', yaml_main uuid (ImportYaml doc replace) cur = Ok doc' /\ mirrors doc' m').
Proof.
  intros Hc Hset Hg Hm. cbn [yaml_main]. destruct replace.
  - eapply spec_mono; [by apply import_spec_replace; [|apply Hset|]|done|]. cbv beta. intros _ m' [Hg' Hm']. split; [done|]. exists doc.
    rewrite (mir_valid _ _ Hm'). cbn [mbind res_bind]. split; [by eapply mirror_save|done].
  - destruct Hc as [Htu Htb]. unfold import_doc. apply spec_bind, spec_unwrap.
    destruct (validate doc) as [[]|e|] eqn:Ev; [|done|by apply validate_doc_no_panics in Ev]. cbn [mbind res_bind].
    apply spec_bind, spec_ret, spec_bind. eapply spec_mono; [by apply (import_users_spec _ cur)|done|]. cbv beta. intros _ m2 [Hg2 Hm2].
    eapply spec_mono; [by apply import_buckets_spec|done|]. cbv beta. intros _ m3 [Hg3 Hm3]. split; [done|].
    eexists. split; [|exact Hm3]. unfold load. rewrite (mir_valid _ _ Hm). cbn [mbind res_bind]. by eapply mirror_save.
Qed.

Lemma openbao_main_spec uuid cmd doc m :
  clean_cmd uuid cmd -> good m -> mirrors doc m ->
  spec m (openbao_main uuid cmd) any (fun _ m' => good m' /\ exists doc', yaml_main uuid cmd doc = Ok doc' /\ mirrors doc' m').
Proof.
  intros Hc Hg Hm. assert (load doc = Ok doc) as Hload by (unfold load; by rewrite (mir_valid _ _ Hm)).
  destruct cmd as [args|k c|oid name path gs|id|id gs|d replace]; cbn [openbao_main clean_cmd] in *.
  - apply spec_bind, spec_unwrap. pose proof (resolve_no_panics args) as Hnp. cbn [yaml_main].
    destruct (resolve_user_add args) as [[u g]|e|] eqn:Er; [|done..]. cbn [mbind res_bind fst]. rewrite Hload. cbn [mbind res_bind].
    eapply spec_mono; [apply (user_mirror u doc m); [by eapply Hc|done..]|done|]. cbv beta. intros _ m' [Hg' Hm']. split; [done|].
    eexists. split; [by eapply mirror_save|done].
  - destruct Hc as [Hk ->]. eapply spec_mono; [by apply delete_user_spec|done|]. cbv beta. intros _ m' (Hg' & Hn & Hd & Hu). split; [done|].
    assert (mirrors (yaml_user_delete doc (trim k) true) m') as Hm' by (by eapply mirror_user_delete).
    exists (yaml_user_delete doc (trim k) true). cbn [yaml_main]. rewrite Hload. cbn [mbind res_bind]. split; [by eapply mirror_save|done].
  - destruct Hc as (Hid & Hn & Hp). apply spec_bind, spec_unwrap. cbn [yaml_main]. rewrite Hload. cbn [mbind res_bind].
    pose proof (parse_acl_ok gs) as Ha. destruct (parse_acl gs) as [acl| |]; [|done..]. cbn [mbind res_bind].
    set (b := {| doc_id := default uuid oid; doc_name := name; doc_data_path := path; doc_acl := acl |}).
    assert (spec m (upsert_bucket b) any (fun _ m' => good m' /\ mirrors (yaml_bucket_upsert doc b) m')) as Hu.
    { apply upsert_mirror; [|done..]. unfold trimmed_bucket, b. cbn [doc_id doc_name doc_data_path doc_acl]. by rewrite Hn, Hp, plain_trim. }
    assert (forall m', good m' /\ mirrors (yaml_bucket_upsert doc b) m' ->
              good m' /\ exists doc', save (yaml_bucket_upsert doc b) = Ok doc' /\ mirrors doc' m') as Hfin.
    { intros m' [Hg' Hm']. split; [done|]. eexists. split; [by eapply mirror_save|done]. }
    destruct oid as [i|]; cbn [default] in *.
    + eapply spec_mono; [exact Hu|done|]. cbv beta. intros _ m'. apply Hfin.
    + unfold create_bucket. apply spec_bind, spec_bind. eapply spec_mono; [exact Hu|done|]. cbv beta. intros _ m' Hm'. by apply spec_ret, spec_ret, Hfin.
  - pose proof (delete_bucket_spec id m) as Hd. cbv zeta in Hd.
    eapply spec_mono; [apply Hd; [done|by apply good_pending]|done|]. cbv beta. intros _ m' (Hg' & Hl & He). split; [done|].
    assert (mirrors (yaml_bucket_delete doc (trim id)) m') as Hm' by (by eapply mirror_bucket_delete).
    eexists. cbn [yaml_main]. rewrite Hload. cbn [mbind res_bind]. split; [by eapply mirror_save|done].
  - apply spec_bind, spec_unwrap. cbn [yaml_main]. rewrite Hload. cbn [mbind res_bind].
    pose proof (parse_acl_ok gs) as Ha. destruct (parse_acl gs) as [acl| |]; [|done..]. cbn [mbind res_bind].
    eapply spec_mono; [apply set_bucket_acl_spec; [done|by apply good_pending]|done|]. cbv beta. intros _ m' (Hg' & He & b & Hb & Hb').
    split; [done|]. assert (tidy_bucket b) as (_ & Ht & _ & _).
    { pose proof (mir_tidy _ _ Hm) as Ht. rewrite list.Forall_forall in Ht. apply Ht. by apply (mir_buckets _ _ Hm (trim id) b Hc). }
    assert (normalized (trimmed_bucket (with_acl b acl)) = with_acl b (normalize_acl acl)) as Hw.
    { destruct b. unfold trimmed_bucket, normalized, with_acl in *. cbn in *. injection Ht. congruence. }
    rewrite Hw in Hb'. destruct (mirror_set_acl doc m m' (trim id) acl b) as (doc' & -> & Hm'); [done..|]. cbn [mbind res_bind].
    exists doc'. split; [by eapply mirror_save|done].
  - destruct Hc. by apply import_mirror.
Qed.

(** ** Answers *)
Lemma plain_trim_nonempty k : plain k -> is_empty (trim k) = false.
Proof. intros Hk. rewrite plain_trim by done. by destruct (plain_no_slash k Hk) as (_ & ? & _). Qed.

Lemma load_users_ok us m :
  NoDup (user_access_key <$> us) -> Forall valid_user us -> (forall u, u ∈ us -> m !! user_access_key u = None) ->
  exists m', load_users us m = Ok m' /\ forall k u, m' !! k = Some u <-> m !! k = Some u \/ u ∈ us /\ user_access_key u = k.
Proof.
  revert m. induction us as [|u us IH]; intros m Hnd Hv Hn; cbn [load_users].
  { exists m. split; [done|]. intros k u. split; [auto|]. by intros [?|[?%not_elem_of_nil _]]. }
  cbn in Hnd. apply NoDup_cons in Hnd as [Hu Hnd]. apply Forall_cons in Hv as [Hvu Hv].
  rewrite plain_trim_nonempty, Hn by (done || left).
  assert (forall v, v ∈ us -> user_access_key v <> user_access_key u) as Hdiff.
  { intros v Hin Heq. apply Hu. rewrite <- Heq. apply list_elem_of_fmap. by exists v. }
  destruct (IH (<[user_access_key u := u]> m)) as (m' & Hl & H); [done|done| |].
  { intros v Hin. rewrite lookup_insert_ne by (by apply not_eq_sym, Hdiff). apply Hn. by right. }
  exists m'. split; [done|]. intros k v. rewrite H. destruct (decide (k = user_access_key u)) as [->|Hne].
  - rewrite lookup_insert_eq, elem_of_cons. split.
    + intros [[= ->]|[Hin Heq]]; [auto|by destruct (Hdiff v Hin)].
    + intros [Hm|[[->|Hin] Heq]]; [|auto|by destruct (Hdiff v Hin)]. rewrite Hn in Hm by left. done.
  - rewrite lookup_insert_ne by done. rewrite elem_of_cons. split; [tauto|]. intros [?|[[->|?] ?]]; auto; by destruct Hne.
Qed.

Lemma load_buckets_ok bs m :
  NoDup (doc_id <$> bs) -> Forall tidy_bucket bs -> Forall valid_bucket bs -> (forall b, b ∈ bs -> m !! doc_id b = None) ->
  exists m', load_buckets bs m = Ok m'.
Proof.
  revert m. induction bs as [|b bs IH]; intros m Hnd Ht Hv Hn; cbn [load_buckets]; [by eexists|].
  cbn in Hnd. apply NoDup_cons in Hnd as [Hb Hnd]. apply Forall_cons in Ht as [(_ & Ht & Hid & Hp) Hts]. apply Forall_cons in Hv as [[Hname _] Hv].
  rewrite plain_trim_nonempty by done. pose proof (f_equal doc_name Ht : trim (doc_name b) = doc_name b) as ->.
  pose proof (f_equal doc_data_path Ht : trim (doc_data_path b) = doc_data_path b) as ->. rewrite Hp, Hn by left.
  replace (is_empty (doc_name b)) with false by (by destruct (doc_name b)).
  apply IH; [done..|]. intros v Hin. rewrite lookup_insert_ne; [apply Hn; by right|].
  intros Heq. apply Hb. rewrite Heq. apply list_elem_of_fmap. by exists v.
Qed.

(** A mirrored file loads, and both directories know the same users. *)
Lemma mirrored_loads doc m :
  wf m -> mirrors doc m -> exists d, from_doc doc = Ok d /\ forall k, plain k -> m !! user_path k = DUser <$> (yd_users d !! k).
Proof.
  intros Hwf [Hv Hk Hi Htu Ht Hu Hb]. pose proof Hv as (_ & Hvu & Hvb)%validate_ok.
  destruct (load_users_ok (file_users doc) ∅) as (us & Hus & Hlu); [done|done|intros; apply lookup_empty|].
  destruct (load_buckets_ok (file_buckets doc) ∅) as (bs & Hbs); [done|done|done|intros; apply lookup_empty|].
  eexists. unfold from_doc. rewrite Hv. cbn [mbind res_bind]. rewrite Hus. cbn [mbind res_bind]. rewrite Hbs. cbn [mbind res_bind]. split; [done|].
  cbn [yd_users]. intros k Hpk. destruct (us !! k) as [u|] eqn:Eu; cbn.
  - apply Hlu in Eu as [?|[Hin Heq]]; [by rewrite lookup_empty in H|]. by apply Hu.
  - destruct (m !! user_path k) as [d|] eqn:Ed; [|done]. exfalso. pose proof (Hwf _ _ Ed) as Hd. destruct d as [u|b|ids]; cbn in Hd.
    + apply Hu in Ed; [|done]. rewrite (proj2 (Hlu k u) (or_intror Ed)) in Eu. done.
    + destruct Hd as (Hid & Hp & _). by apply user_not_bucket in Hp.
    + destruct Hd as ((p & Hp & Heq) & _). by apply user_not_index in Heq.
Qed.

Lemma sees_ext (P Q : BucketDoc -> Prop) ak gs v : (forall b, P b <-> Q b) -> sees P ak gs v <-> sees Q ak gs v.
Proof. intros H. split; intros (b & Hb & Hv); exists b; (split; [by apply H|done]). Qed.
Lemma mirrored_stored doc m b : wf m -> mirrors doc m -> stored m b <-> b ∈ file_buckets doc.
Proof.
  intros Hwf Hm. split.
  - intros [path Hp]. destruct (Hwf _ _ Hp) as (Hid & -> & _). by apply (mir_buckets _ _ Hm) in Hp as [? _].
  - intros Hin. exists (bucket_path (doc_id b)). apply (mir_buckets _ _ Hm); [|done].
    pose proof (mir_tidy _ _ Hm) as Ht. rewrite list.Forall_forall in Ht. apply Ht, Hin.
Qed.

Lemma view_lt_irrefl v : ~ view_lt v v.
Proof. unfold view_lt. intros [_ H]%str_lt_iff. done. Qed.
Lemma sorted_NoDup l : StronglySorted view_lt l -> NoDup l.
Proof.
  induction 1 as [|v l Hs IH Hv]; constructor; [|done]. intros Hin. rewrite list.Forall_forall in Hv. by apply (view_lt_irrefl v), Hv.
Qed.
Lemma sorted_views_unique l l' :
  StronglySorted view_lt l -> StronglySorted view_lt l' -> (forall v, v ∈ l <-> v ∈ l') -> l = l'.
Proof.
  intros H1 H2 Hin. apply (StronglySorted_unique_strong view_lt); [|done|done|].
  - intros v w _ _ [Hle Hn]%str_lt_iff [Hle' _]%str_lt_iff. exfalso. apply Hn. by apply (anti_symm str_le).
  - apply NoDup_Permutation; [by apply sorted_NoDup..|done].
Qed.

Lemma same_buckets doc d m ak vs s s' :
  good m -> kv s = m -> mirrors doc m -> from_doc doc = Ok d -> plain ak -> m !! user_path ak = DUser <$> (yd_users d !! ak) ->
  openbao_buckets ak s = (Next vs, s') -> buckets_for_access_key d ak = Ok vs.
Proof.
  intros Hg Hs Hm Hd Hak Hu Hrun. pose proof (openbao_buckets_spec m ak Hg s Hs) as H. rewrite Hrun in H. destruct H as [_ H].
  destruct (yd_users d !! ak) as [u|] eqn:Eu; cbn [fmap option_fmap option_map] in Hu; rewrite Hu in H.
  2: { destruct H as [_ ->]. cbn [buckets_for_access_key yaml_directory]. unfold yaml_buckets_for_access_key. by rewrite Eu. }
  destruct H as (gs & Hgs & Hsort & Hin).
  assert (user_by_access_key d ak = Ok (Some u)) as Hub by (cbn; unfold yaml_user_by_access_key; by rewrite Eu).
  pose proof (yaml_buckets_spec doc d ak u gs Hd Hub Hgs) as Hy. pose proof (fun b => mirrored_stored doc m b (proj1 Hg) Hm) as Hst.
  destruct (buckets_for_access_key d ak) as [vs'|e|]; [| |done].
  - f_equal. destruct Hy as [Hsort' Hin']. apply sorted_views_unique; [done..|]. intros v. rewrite Hin, Hin'. symmetry. by apply sees_ext.
  - exfalso. destruct Hy as (n & b1 & b2 & _ & Hb1 & Hb2 & Hne & Hname & [v1 V1] & [v2 V2]).
    assert (v1 ∈ vs) as I1 by (apply Hin; exists b1; split; [by apply Hst|done]).
    assert (v2 ∈ vs) as I2 by (apply Hin; exists b2; split; [by apply Hst|done]).
    assert (bucket_name v1 = bucket_name v2) as Hn by (rewrite (view_name _ _ _ _ V1), (view_name _ _ _ _ V2); done).
    assert (v1 <> v2) as Hv.
    { intros <-. apply Hne. unfold granted_view in V1, V2. destruct (effective_access (doc_acl b1) _ _), (effective_access (doc_acl b2) _ _); try done.
      cbn in V1, V2. rewrite <- V2 in V1. by injection V1. }
    revert I1 I2. clear -Hsort Hn Hv. induction Hsort as [|v l Hs IH Hall]; [by intros ?%not_elem_of_nil|]. rewrite list.Forall_forall in Hall.
    intros [->|I1]%elem_of_cons [->|I2]%elem_of_cons; [done| | |by apply IH].
    + apply Hall in I2 as [_ H]%str_lt_iff. done.
    + apply Hall in I1 as [_ H]%str_lt_iff. congruence.
Qed.

Lemma session_spec cmds doc m :
  Forall (fun uc => clean_cmd (fst uc) (snd uc)) cmds -> good m -> mirrors doc m ->
  spec m (openbao_session cmds) any (fun _ m' => good m' /\ exists doc', yaml_session cmds doc = Ok doc' /\ mirrors doc' m').
Proof.
  unfold openbao_session. revert doc m. induction cmds as [|[uuid cmd] cmds IH]; intros doc m Hc Hg Hm; cbn [for_each_k yaml_session].
  { apply spec_ret. split; [done|]. by exists doc. }
  apply Forall_cons in Hc as [Hc Hcs]. apply spec_bind. eapply spec_mono; [by apply openbao_main_spec|done|]. cbv beta.
  cbn [fst snd]. intros _ m1 [Hg1 (doc1 & Hy & Hm1)]. rewrite Hy. cbn [mbind res_bind]. by apply IH.
Qed.


(** ** Export *)
Lemma export_spec doc m :
  good m -> mirrors doc m -> spec m export_doc any (fun doc' m' => m' = m /\ mirrors doc' m /\ clean_doc doc' /\ settled_doc doc').
Proof.
  intros Hg Hm. unfold export_doc. apply spec_bind. eapply spec_mono; [apply list_users_spec, Hg|done|]. cbv beta. intros us m1 (-> & Hku & Hus).
  apply spec_bind. eapply spec_mono; [apply list_buckets_spec, Hg|done|]. cbv beta. intros bs m1 (-> & Hkb & Hbs). cbv zeta.
  set (root := {| file_version := 1%Z; file_users := us; file_buckets := bs |}).
  assert (forall u, u ∈ us <-> u ∈ file_users doc) as Eu.
  { intros u. rewrite Hus. split; [intros [Hp Hl]; by apply (mir_users _ _ Hm) in Hl as [? _]|]. intros Hin.
    pose proof (mir_valid _ _ Hm) as (_ & Hv & _)%validate_ok. rewrite list.Forall_forall in Hv. pose proof (Hv u Hin) as Hp. split; [done|].
    by apply (mir_users _ _ Hm). }
  pose proof (mir_tidy _ _ Hm) as Ht. rewrite list.Forall_forall in Ht.
  assert (forall b, b ∈ bs <-> b ∈ file_buckets doc) as Eb.
  { intros b. rewrite Hbs. split; [intros [Hp Hl]; by apply (mir_buckets _ _ Hm) in Hl as [? _]|]. intros Hin.
    destruct (Ht b Hin) as (_ & _ & Hp & _). split; [done|]. by apply (mir_buckets _ _ Hm). }
  assert (clean_doc root /\ settled_doc root) as [Hc Hset].
  { pose proof (mir_tidy_users _ _ Hm) as Htu. rewrite list.Forall_forall in Htu.
    split; [split|split_and!; [done..|]]; apply list.Forall_forall; cbn; intros x Hx.
    - by apply Htu, Eu.
    - apply Eb, Ht in Hx as (_ & ? & ? & _). done.
    - apply Eb, Ht in Hx as (? & _). done. }
  apply spec_bind, spec_unwrap. assert (validate root = Ok tt) as Hv.
  { pose proof (mir_valid _ _ Hm) as (_ & Hvu & Hvb)%validate_ok. apply validate_ok. cbn. rewrite list.Forall_forall in Hvu.
    split_and!; [done| |]; apply list.Forall_forall; [intros u ?%Eu; auto|]. rewrite list.Forall_forall in Hvb. intros b ?%Eb; auto. }
  rewrite Hv. apply spec_ret. split_and!; [done| |done|done]. by eapply mirrors_same.
Qed.

(** Moving a directory with an export and an import loses nothing.  The
    export of a store that the commands have filled leaves it unchanged; an
    import of the exported file in place of any directory makes that store
    hold the same user and bucket documents and the same indexes. *)
Theorem export_import_roundtrip (doc0 doc : DirectoryFileV1) (s s1 t t1 : kv_state) :
  good (kv s) -> mirrors doc0 (kv s) -> export_doc s = (Next doc, s1) ->
  good (kv t) -> import_doc doc true t = (Next tt, t1) ->
  kv s1 = kv s /\ good (kv t1) /\
  (forall k u, plain k -> kv t1 !! user_path k = Some (DUser u) <-> kv s !! user_path k = Some (DUser u)) /\
  (forall id b, plain id -> kv t1 !! bucket_path id = Some (DBucket b) <-> kv s !! bucket_path id = Some (DBucket b)) /\
  (forall id p, plain id -> valid_principal p -> indexed (kv t1) id p <-> indexed (kv s) id p).
Proof.
  intros Hg Hm He Hgt Hi. pose proof (export_spec doc0 (kv s) Hg Hm s eq_refl) as Hx. rewrite He in Hx. destruct Hx as (Hs & Hm1 & Hc & Hset).
  pose proof (import_spec_replace doc (kv t) Hc Hset Hgt t eq_refl) as Ht. rewrite Hi in Ht. destruct Ht as [Hg1 Hm2].
  assert (forall id b, plain id -> kv t1 !! bucket_path id = Some (DBucket b) <-> kv s !! bucket_path id = Some (DBucket b)) as Hb
    by (intros id b Hid; by rewrite (mir_buckets _ _ Hm1), (mir_buckets _ _ Hm2)).
  split_and!; [done..|intros k u Hk; by rewrite (mir_users _ _ Hm1), (mir_users _ _ Hm2)|done|].
  intros id p Hid Hp. rewrite (proj2 Hg id Hid p Hp), (proj2 Hg1 id Hid p Hp). unfold stored_acl.
  destruct (kv s !! bucket_path id) as [d|] eqn:Ed.
  - destruct (bucket_path_holds _ _ _ (proj1 Hg) Hid Ed) as (b & -> & _). apply Hb in Ed; [|done]. by rewrite Ed.
  - destruct (kv t1 !! bucket_path id) as [d|] eqn:Ed1; [|done].
    destruct (bucket_path_holds _ _ _ (proj1 Hg1) Hid Ed1) as (b & -> & _). apply Hb in Ed1; [|done]. by rewrite Ed1 in Ed.
Qed.
End Mirror.

(** ** The VersityGW import *)
Section Versity.
Context {W : Passwd}.

(** The document an account becomes, or [None] when it is left out *)
Definition account_doc (on_missing : OnMissingUser) (ka : iam_entry) (u : UserDoc) : Prop :=
  user_access_key u = fst ka /\ user_secret_key u = trim (iam_secret (snd ka)) /\ user_secret_key u <> "" /\
  user_uid u = iam_user_id (snd ka) /\ user_gid u = iam_group_id (snd ka) /\
  (username_for_uid (iam_user_id (snd ka)) = Ok (Some (user_username u)) \/
   username_for_uid (iam_user_id (snd ka)) = Ok None /\ on_missing = UseAccessKey /\ user_username u = fst ka).

(** How the entries are divided *)
Record divided (f : ImportFilter) (on_missing : OnMissingUser) (entries : list iam_entry) (users : list UserDoc) (r : ImportReport) : Prop := {
  div_all : (imported_keys r ++ filtered_keys r ++ missing_user_skipped r)%list ≡ₚ fst <$> entries;
  div_users : user_access_key <$> users = imported_keys r;
  div_docs : Forall (fun u => exists ka, ka ∈ entries /\ account_doc on_missing ka u) users;
  div_imported : imported_keys r `sublist_of` fst <$> entries;
  div_passed : Forall (fun k => passes f k = true) (imported_keys r ++ missing_user_skipped r)%list;
  div_filtered : Forall (fun k => passes f k = false) (filtered_keys r);
  div_skipped : on_missing <> Skip -> missing_user_skipped r = [];
}.

Definition add_report (a b : ImportReport) : ImportReport := {|
  imported_keys := (imported_keys a ++ imported_keys b)%list; filtered_keys := (filtered_keys a ++ filtered_keys b)%list;
  missing_user_skipped := (missing_user_skipped a ++ missing_user_skipped b)%list |}.

Lemma import_accounts_spec f om entries users r users' r' :
  import_accounts f om entries users r = Ok (users', r') ->
  exists us d, users' = (users ++ us)%list /\ r' = add_report r d /\ divided f om entries us d.
Proof.
  revert users r. induction entries as [|[k acct] entries IH]; intros users r; cbn [import_accounts].
  { intros [= <- <-]. exists [], {| imported_keys := []; filtered_keys := []; missing_user_skipped := [] |}.
    rewrite app_nil_r. destruct r. unfold add_report. cbn. rewrite !app_nil_r. split_and!; [done..|]. by constructor; cbn; try constructor. }
  destruct (passes f k) eqn:Ep; cbn [negb].
  2: { intros (us & d & -> & -> & D)%IH. exists us, {| imported_keys := imported_keys d; filtered_keys := k :: filtered_keys d; missing_user_skipped := missing_user_skipped d |}.
       split_and!; [done|unfold add_report; cbn; by rewrite <- app_assoc|]. destruct D. constructor; cbn; try done.
       - rewrite <- div_all0. by rewrite <- Permutation_middle.
       - eapply list.Forall_impl; [exact div_docs0|]. intros u (ka & Hka & Hd). exists ka. split; [by right|done].
       - by apply sublist_cons.
       - by constructor. }
  destruct (is_empty (trim (iam_secret acct))) eqn:Es; [done|]. apply is_empty_false in Es.
  intros (name & Hname & Hgo)%bind_ok_inv. cbv zeta in Hgo.
  assert (forall username, account_doc om (k, acct) {| user_access_key := k; user_secret_key := trim (iam_secret acct); user_username := username;
              user_uid := iam_user_id acct; user_gid := iam_group_id acct |} ->
            import_accounts f om entries (users ++ [{| user_access_key := k; user_secret_key := trim (iam_secret acct); user_username := username;
              user_uid := iam_user_id acct; user_gid := iam_group_id acct |}])%list
              {| imported_keys := (imported_keys r ++ [k])%list; filtered_keys := filtered_keys r; missing_user_skipped := missing_user_skipped r |} = Ok (users', r') ->
            exists us d, users' = (users ++ us)%list /\ r' = add_report r d /\ divided f om ((k, acct) :: entries) us d) as Himp.
  { intros username Hdoc (us & d & -> & -> & D)%IH. eexists (_ :: us), {| imported_keys := k :: imported_keys d; filtered_keys := filtered_keys d; missing_user_skipped := missing_user_skipped d |}.
    split_and!; [by rewrite <- app_assoc|unfold add_report; cbn; by rewrite <- app_assoc|]. destruct D. constructor; cbn; try done.
    - by rewrite div_all0.
    - by rewrite div_users0.
    - constructor; [exists (k, acct); split; [left|exact Hdoc]|]. eapply list.Forall_impl; [exact div_docs0|]. intros u (ka & Hka & Hd). exists ka. split; [by right|done].
    - by apply sublist_skip.
    - by constructor. }
  destruct name as [username|]; [|destruct om].
  - apply (Himp username); [|done]. unfold account_doc. cbn. split_and!; auto.
  - done.
  - apply (Himp k); [|done]. unfold account_doc. cbn. split_and!; auto.
  - apply IH in Hgo as (us & d & -> & -> & D).
    exists us, {| imported_keys := imported_keys d; filtered_keys := filtered_keys d; missing_user_skipped := k :: missing_user_skipped d |}.
    split_and!; [done|unfold add_report; cbn; by rewrite <- app_assoc|]. destruct D. constructor; cbn; try done.
    + rewrite <- div_all0, <- !Permutation_middle. done.
    + eapply list.Forall_impl; [exact div_docs0|]. intros u (ka & Hka & Hd). exists ka. split; [by right|done].
    + by apply sublist_cons.
    + rewrite Forall_app in *. destruct div_passed0. split; [done|by constructor].
Qed.

Lemma sorted_sublist {A} (R : A -> A -> Prop) l l' : l `sublist_of` l' -> StronglySorted R l' -> StronglySorted R l.
Proof.
  induction 1 as [|x l l' Hs IH|x l l' Hs IH]; [done|..]; intros [Hl Hx]%StronglySorted_inv; [|by apply IH].
  constructor; [by apply IH|]. rewrite list.Forall_forall in *. intros y Hy. apply Hx. by eapply sublist_subseteq.
Qed.

(** The import report accounts for every VersityGW account.  Each
    effective access key is reported exactly once, as imported, filtered or
    skipped; the filtered ones are those the filter refuses, keys are skipped
    only when asked to; the documents are, in order of their keys, the
    imported accounts with their trimmed, not empty secret, the system's
    user name or, when asked to, the key. *)
Theorem versity_import_complete (accounts : list iam_entry) (f : ImportFilter) (om : OnMissingUser) (users : list UserDoc) (r : ImportReport) :
  versity_iam_to_user_docs accounts f om = Ok (users, r) ->
  StronglySorted str_le (imported_keys r) /\ ~ (is_Some (include f) /\ is_Some (exclude f)) /\
  divided f om (merge_sort iam_le (effective_key <$> accounts)) users r.
Proof.
  unfold versity_iam_to_user_docs. intros H.
  assert (import_accounts f om (merge_sort iam_le (effective_key <$> accounts)) []
            {| imported_keys := []; filtered_keys := []; missing_user_skipped := [] |} = Ok (users, r) /\ ~ (is_Some (include f) /\ is_Some (exclude f))) as [Hi Hx].
  { destruct (include f), (exclude f); try done; (split; [done|]); intros [[] []]; done. }
  apply import_accounts_spec in Hi as (us & d & -> & -> & D). destruct d as [a b c]. unfold add_report. cbn. split_and!; [|done|exact D].
  pose proof (div_imported _ _ _ _ _ D) as Hs. cbn in Hs.
  assert (StronglySorted iam_le (merge_sort iam_le (effective_key <$> accounts))) as Hss.
  { apply StronglySorted_merge_sort; unfold iam_le; intros ? **; [by etrans|apply str_le_total]. }
  eapply sorted_sublist; [exact Hs|]. eapply StronglySorted_fmap; [|exact Hss]. done.
Qed.
End Versity.
