(* ===== verification/CtlWitness.v ===== *)
(** * A session of the operator

    Concrete commands for the theorems of [CtlProofs]. *)

From Stdlib Require Import ZArith Lia Ascii.
From stdpp Require Import base list strings numbers option gmap sorting fin_sets fin_maps.
From S2P Require Import Prelude RustStr Utils Handler Directory OpenBao OpenBaoProofs DirectoryMoves Ctl CtlProofs.

Local Open Scope s3_scope.
Local Open Scope string_scope.

(** ** A session of the operator *)
Definition demo_passwd : Passwd := {|
  getpwuid_r := fun uid size => if (uid =? 1000)%Z then if (size <? 8192)%Z then PwErrno ERANGE else PwEntry "alice" else PwNone;
  getpwnam_r := fun name size => if name =s "alice" then PwEntry {| pw_uid := 1000; pw_gid := 100 |}%Z else PwNone;
  gen_secret_key := "Zk3" |}.
#[local] Existing Instance demo_nss.
#[local] Existing Instance demo_passwd.

Definition operator_session : list (string * Cmd) :=
  [("u0", UserAdd {| arg_username := "Alice"; arg_access_key := Some "AK1"; arg_secret_key := None; arg_uid := None; arg_gid := None |});
   ("u1", UserAdd {| arg_username := "bob"; arg_access_key := None; arg_secret_key := Some "s"; arg_uid := Some 7%Z; arg_gid := Some 8%Z |});
   ("7f3c", BucketAdd None "home" "/d/home" ["ak:AK1:rw"; "group:lab:ro"; "ak:bob:read_only"]);
   ("u3", BucketAdd (Some "9a") "shared" "/d/shared" ["group:users:ro"]);
   ("u4", BucketAclSet "9a" ["ak:AK1:read_write"; "ak:bob:rw"]);
   ("u5", UserRm "bob" true)].
Definition administered : kv_state := snd (openbao_session (E := calm) operator_session empty_store).
Definition written_doc : DirectoryFileV1 := match yaml_session operator_session empty_doc with Ok doc => doc | _ => empty_doc end.

Lemma operator_session_clean : Forall (fun uc => clean_cmd (fst uc) (snd uc)) operator_session.
Proof.
  unfold operator_session. rewrite !Forall_cons. cbn [fst snd clean_cmd].
  split_and!; try apply Forall_nil; try (intros u g Hu; vm_compute in Hu; injection Hu as <- _); vm_compute; reflexivity.
Qed.


(** Blanks divide the backends.  A bucket name with a blank at its end is
    accepted by the OpenBao backend, which trims it, and refused by the file's
    backend, which does not; a secret key with one is accepted by both, and
    the two directories then know different secrets. *)
Definition blank_name : list (string * Cmd) := [("7f3c", BucketAdd None "home " "/d/home" ["ak:AK1:rw"])].
Definition blank_secret : list (string * Cmd) :=
  [("u1", UserAdd {| arg_username := "bob"; arg_access_key := None; arg_secret_key := Some "s "; arg_uid := Some 7%Z; arg_gid := Some 8%Z |})].
Definition secret_in (u : option kv_doc) : option string := match u with Some (DUser u) => Some (user_secret_key u) | _ => None end.

Theorem blanks_divide_backends :
  fst (openbao_session (E := calm) blank_name empty_store) = Next tt /\ yaml_session blank_name empty_doc = Err (InvalidBucketName "home ") /\
  fst (openbao_session (E := calm) blank_secret empty_store) = Next tt /\
  secret_in (kv (snd (openbao_session (E := calm) blank_secret empty_store)) !! user_path (E := calm) "bob") = Some "s" /\
  exists doc, yaml_session blank_secret empty_doc = Ok doc /\ user_secret_key <$> file_users doc = ["s "].
Proof.
  split; [vm_compute; reflexivity|]. split; [vm_compute; reflexivity|]. split; [vm_compute; reflexivity|]. split; [vm_compute; reflexivity|].
  eexists. split; [vm_compute; reflexivity|reflexivity].
Qed.

(** The directory moved onto a store that holds another one *)
Definition exported : DirectoryFileV1 := match fst (export_doc (E := calm) administered) with Next doc => doc | _ => empty_doc end.
Definition moved : kv_state := snd (import_doc (E := calm) exported true (imported demo_doc)).

Lemma administered_good : good (E := calm) (kv administered) /\ mirrors (E := calm) written_doc (kv administered).
Proof.
  pose proof (session_spec (E := calm) operator_session empty_doc ∅ operator_session_clean good_empty mirrors_empty empty_store eq_refl) as H.
  unfold administered. destruct (openbao_session (E := calm) operator_session empty_store) as [f s'] eqn:Er.
  assert (f = Next tt) as -> by (change f with (fst (f, s')); rewrite <- Er; vm_compute; reflexivity).
  destruct H as [Hg (doc & Hy & Hm)]. split; [exact Hg|]. unfold written_doc. by rewrite Hy.
Qed.

Lemma export_import_roundtrip_witness :
  length (file_users exported) = 1 /\ length (file_buckets exported) = 2 /\ good (E := calm) (kv moved) /\
  (forall id b, plain id -> kv moved !! bucket_path (E := calm) id = Some (DBucket b) <-> kv administered !! bucket_path (E := calm) id = Some (DBucket b)).
Proof.
  split; [vm_compute; reflexivity|]. split; [vm_compute; reflexivity|].
  destruct (export_doc (E := calm) administered) as [f s1] eqn:Ee.
  assert (f = Next exported) as -> by (unfold exported; rewrite Ee; cbn [fst]; change f with (fst (f, s1)); rewrite <- Ee; vm_compute; reflexivity).
  destruct (import_doc (E := calm) exported true (imported demo_doc)) as [g t1] eqn:Ei.
  assert (g = Next tt) as -> by (change g with (fst (g, t1)); rewrite <- Ei; vm_compute; reflexivity).
  assert (moved = t1) as -> by (unfold moved; rewrite Ei; reflexivity).
  destruct (export_import_roundtrip (E := calm) written_doc exported administered s1 (imported demo_doc) t1
              (proj1 administered_good) (proj2 administered_good) Ee) as (_ & Hg & _ & Hb & _).
  - apply imported_good; vm_compute; reflexivity.
  - exact Ei.
  - split; [exact Hg|exact Hb].
Defined.

Definition iam_accounts : list iam_entry :=
  [("K2", {| iam_access := " AK9 "; iam_secret := "s9 "; iam_role := "user"; iam_user_id := 1000; iam_group_id := 100 |}%Z);
   ("K1", {| iam_access := ""; iam_secret := "s1"; iam_role := "admin"; iam_user_id := 1; iam_group_id := 1 |}%Z);
   ("K3", {| iam_access := "K3"; iam_secret := ""; iam_role := ""; iam_user_id := 2; iam_group_id := 2 |}%Z)].
Definition without_k3 : ImportFilter := {| include := None; exclude := Some {["K3"]} |}.
Definition iam_report : ImportReport := {| imported_keys := ["AK9"]; filtered_keys := ["K3"]; missing_user_skipped := ["K1"] |}.
Definition iam_alice : UserDoc :=
  {| user_access_key := "AK9"; user_secret_key := "s9"; user_username := "alice"; user_uid := 1000; user_gid := 100 |}%Z.

Lemma versity_import_complete_witness :
  versity_iam_to_user_docs iam_accounts without_k3 Skip = Ok ([iam_alice], iam_report) /\
  divided without_k3 Skip (merge_sort iam_le (effective_key <$> iam_accounts)) [iam_alice] iam_report.
Proof.
  assert (versity_iam_to_user_docs iam_accounts without_k3 Skip = Ok ([iam_alice], iam_report)) as H by (vm_compute; reflexivity).
  split; [exact H|]. exact (proj2 (proj2 (versity_import_complete _ _ _ _ _ H))).
Defined.

Definition empty_path : Cmd := BucketAdd (Some "1") "home" "" ["group:users:ro"].

(** s32p-ctl writes a directory file that the proxy refuses to load: on
    the YAML backend an empty data path passes the validation of the file,
    which then fails to load; the same command is refused on OpenBao. *)
Theorem ctl_writes_unloadable_file :
  exists doc, yaml_main "u" empty_path empty_doc = Ok doc /\ from_doc doc = Err (EmptyField "bucket data_path") /\
    fst (openbao_main (E := calm) "u" empty_path empty_store) = Return (EmptyField "bucket.data_path").
Proof. exists (match yaml_main "u" empty_path empty_doc with Ok doc => doc | _ => empty_doc end). split_and!; vm_compute; reflexivity. Qed.
