(* ===== verification/Nss.v ===== *)
(** * User names for the gateway: nss_proto.rs, nss_lookup.rs,
      s32p-proxy/src/nss_listener.rs and s32p-gateway/src/nss_client.rs

    A worker may not read the passwd database.  It asks the proxy over one
    socket for the name of a uid and keeps the answers.  [getpwuid_r] is
    libc's and a parameter; so are the moments at which calls on the socket
    fail, time out, or are dropped with the request that made them. *)

From Stdlib Require Import ZArith Lia Ascii.
From stdpp Require Import base list strings numbers option gmap fin_maps.
From S2P Require Import Prelude RustStr Bytes PayloadSource ChunkCodec Directory OpenBao Ctl.

Local Open Scope s3_scope.
Local Open Scope Z_scope.

(** ** nss_proto.rs *)
Definition ABSTRACT_PREFIX : ascii := "@".
Definition REQUEST_LEN : Z := 4.
Definition MAX_NAME_LEN : Z := 255.

(** [uid.to_le_bytes()] *)
Definition encode_request (uid : Z) : bytes := (fun i => byte_of (uid / 256 ^ i mod 256)) <$> [0; 1; 2; 3].
Definition decode_request (buf : bytes) : Z := foldr (fun b acc => byte_val b + 256 * acc) 0 buf.

(** [None] is [NameTooLong]. *)
Definition encode_response (name : option string) : option bytes :=
  let b := match name with Some s => bytes_of s | None => [] end in
  if MAX_NAME_LEN <? blen b then None else Some (byte_of (blen b) :: b).

Section Nss.
Context {P : Passwd}.

(** ** nss_lookup.rs: three calls, each with twice the buffer *)
Fixpoint getpwuid_loop (n : nat) (uid buf_len : Z) : option string :=
  match n with
  | O => None
  | S n =>
      match getpwuid_r uid buf_len with
      | PwEntry name => Some name
      | PwErrno rc => if rc =? ERANGE then getpwuid_loop n uid (buf_len * 2) else None
      | PwNone => None
      end
  end.
Definition lookup_username_blocking (uid : Z) : option string := getpwuid_loop 3 uid (16 * 1024).

(** ** nss_listener.rs: [serve_connection] answers what it reads, in order *)
Definition answer_request (uid : Z) : bytes :=
  default [byte_of 0] (encode_response (lookup_username_blocking uid)).
Fixpoint serve_connection (requests : bytes) : bytes :=
  match requests with
  | a :: b :: c :: d :: requests => answer_request (decode_request [a; b; c; d]) ++ serve_connection requests
  | _ => []
  end.

(** ** nss_client.rs: one exchange

    A stream holds what the listener answered and nobody has read yet. *)
Record stream := { inbox : bytes }.

(** [read_exact]: fails at the end of the stream *)
Definition read_exact (n : Z) (s : stream) : option (bytes * stream) :=
  if n <=? blen (inbox s) then Some (take (Z.to_nat n) (inbox s), {| inbox := drop (Z.to_nat n) (inbox s) |}) else None.

Definition read_reply (s : stream) : option (option string * stream) :=
  '(len, s) ← read_exact 1 s;
  let len := match len with [b] => byte_val b | _ => 0 end in
  if len =? 0 then Some (None, s)
  else '(name, s) ← read_exact len s; name ← AwsChunked.from_utf8 name; Some (Some name, s).

Definition write_request (uid : Z) (s : stream) : stream := {| inbox := inbox s ++ serve_connection (encode_request uid) |}.

(** How an exchange goes: it completes, a call fails, the timeout fires, or
    the future is dropped before or after the request was written. *)
Inductive exchange := Completes | Fails | TimesOut | Dropped (written : bool).
(** One iteration of the loop of [query_socket] *)
Record attempt := { at_connects : bool; at_exchange : exchange }.

Inductive query_end := Name (name : option string) | QueryError | QueryDropped.
(** [inr tt] goes on to the next attempt. *)
Definition query_attempt (last : bool) (a : attempt) (uid : Z) (conn : option stream) : (query_end + unit) * option stream :=
  match conn, at_connects a with
  | None, false => (inl QueryError, None)
  | _, _ =>
      let s := default {| inbox := [] |} conn in
      match at_exchange a with
      | Completes =>
          match read_reply (write_request uid s) with
          | Some (name, s) => (inl (Name name), Some s)
          | None => ((if last then inl QueryError else inr tt), None)
          end
      | Fails => ((if last then inl QueryError else inr tt), None)
      | TimesOut => (inl QueryError, None)
      | Dropped written => (inl QueryDropped, Some (if written then write_request uid s else s))
      end
  end.
Definition query_socket (a0 a1 : attempt) (uid : Z) (conn : option stream) : query_end * option stream :=
  match query_attempt false a0 uid conn with
  | (inl e, conn) => (e, conn)
  | (inr _, conn) =>
      match query_attempt true a1 uid conn with
      | (inl e, conn) => (e, conn)
      | (inr _, conn) => (QueryError, conn)
      end
  end.

(** ** nss_client.rs: the cache *)
Definition CACHE_TTL : Z := 300 * 1000000000.
Definition ERROR_FALLBACK_TTL : Z := 30 * 1000000000.

Inductive Address := Abstract (name : string) | SocketPath (p : string).
Inductive Backend := Direct | Socket (addr : Address).
Definition from_env (env_value : option string) : Backend :=
  match trim <$> env_value with
  | None => Direct
  | Some s =>
      match s with
      | EmptyString => Direct
      | String c rest => if Ascii.eqb c ABSTRACT_PREFIX then Socket (Abstract rest) else Socket (SocketPath s)
      end
  end.

Record CacheEntry := { ce_value : option string; ce_expires_at : Z }.
Definition cache_get (now uid : Z) (m : gmap Z CacheEntry) : option (option string) :=
  e ← m !! uid; if now <? ce_expires_at e then Some (ce_value e) else None.
Definition cache_insert (now uid : Z) (value : option string) (ttl : Z) (m : gmap Z CacheEntry) : gmap Z CacheEntry :=
  <[uid := {| ce_value := value; ce_expires_at := now + ttl |}]> m.
Definition nss_sweep (now : Z) (m : gmap Z CacheEntry) : gmap Z CacheEntry := filter (fun kv => now < ce_expires_at (snd kv)) m.

(** *** Lookups that interleave

    A lookup reads the cache, asks the backend (on the socket, one at a time),
    stores the answer and returns it. *)
Inductive nss_task := Asking (uid : Z) | Storing (uid : Z) (value : option string) (ttl : Z) | Answered (uid : Z) (value : option string).
Record nss_state := { ns_cache : gmap Z CacheEntry; ns_conn : option stream; ns_tasks : gmap nat nss_task; ns_now : Z }.

Definition start_lookup (uid : Z) (st : nss_state) : nss_task :=
  match cache_get (ns_now st) uid (ns_cache st) with Some hit => Answered uid hit | None => Asking uid end.
Definition ask (b : Backend) (a0 a1 : attempt) (uid : Z) (conn : option stream) : option nss_task * option stream :=
  match b with
  | Direct => (Some (Storing uid (lookup_username_blocking uid) CACHE_TTL), conn)
  | Socket _ =>
      match query_socket a0 a1 uid conn with
      | (Name name, conn) => (Some (Storing uid name CACHE_TTL), conn)
      | (QueryError, conn) => (Some (Storing uid None ERROR_FALLBACK_TTL), conn)
      | (QueryDropped, conn) => (None, conn)
      end
  end.
Definition set_task (t : nat) (k : option nss_task) (st : nss_state) : nss_state :=
  {| ns_cache := ns_cache st; ns_conn := ns_conn st; ns_tasks := partial_alter (fun _ => k) t (ns_tasks st); ns_now := ns_now st |}.

Inductive nss_event :=
| Start (t : nat) (uid : Z) | Ask (t : nat) (a0 a1 : attempt) | Store (t : nat) | Drop (t : nat) | Sweep | Tick (d : Z).
Definition nss_step (b : Backend) (st : nss_state) (e : nss_event) : option nss_state :=
  match e with
  | Start t uid => match ns_tasks st !! t with None => Some (set_task t (Some (start_lookup uid st)) st) | _ => None end
  | Ask t a0 a1 =>
      match ns_tasks st !! t with
      | Some (Asking uid) =>
          let '(k, conn) := ask b a0 a1 uid (ns_conn st) in
          let st := set_task t k st in
          Some {| ns_cache := ns_cache st; ns_conn := conn; ns_tasks := ns_tasks st; ns_now := ns_now st |}
      | _ => None
      end
  | Store t =>
      match ns_tasks st !! t with
      | Some (Storing uid value ttl) =>
          let st := set_task t (Some (Answered uid value)) st in
          Some {| ns_cache := cache_insert (ns_now st) uid value ttl (ns_cache st); ns_conn := ns_conn st; ns_tasks := ns_tasks st; ns_now := ns_now st |}
      | _ => None
      end
  (* dropped before the request had its turn on the socket *)
  | Drop t => match ns_tasks st !! t with Some (Asking _) => Some (set_task t None st) | _ => None end
  | Sweep => Some {| ns_cache := nss_sweep (ns_now st) (ns_cache st); ns_conn := ns_conn st; ns_tasks := ns_tasks st; ns_now := ns_now st |}
  | Tick d => if 0 <=? d then Some {| ns_cache := ns_cache st; ns_conn := ns_conn st; ns_tasks := ns_tasks st; ns_now := ns_now st + d |} else None
  end.
Definition nss_run (b : Backend) (st : nss_state) (es : list nss_event) : option nss_state := foldl (fun o e => st ← o; nss_step b st e) (Some st) es.
Definition nss_new (now : Z) : nss_state := {| ns_cache := ∅; ns_conn := None; ns_tasks := ∅; ns_now := now |}.

(** [owner_info] of main.rs *)
Definition owner_info (uid : Z) (looked_up : option string) : string * string := (print_u64 uid, default (print_u64 uid) looked_up).
End Nss.

(** ** The wire protocol *)
Section Protocol.
Context {P : Passwd}.

Lemma decode_encode_request uid : is_u32 uid -> decode_request (encode_request uid) = uid.
Proof.
  intros [H0 H1]. unfold u32_max in H1. unfold encode_request, decode_request. cbn [fmap list_fmap foldr].
  rewrite !byte_val_of by (apply Z.mod_pos_bound; lia). change (256 ^ 0) with 1. change (256 ^ 1) with 256.
  change (256 ^ 2) with 65536. change (256 ^ 3) with 16777216. Z.to_euclidean_division_equations. lia.
Qed.
Lemma serve_request uid rest : is_u32 uid -> serve_connection (encode_request uid ++ rest) = answer_request uid ++ serve_connection rest.
Proof. intros Hu. rewrite <- (decode_encode_request uid Hu) at 2. done. Qed.

(** Names are text: libc's bytes pass through [to_string_lossy]. *)
Definition names_are_text : Prop := forall uid buf name, getpwuid_r uid buf = PwEntry name -> AwsChunked.utf8_valid (length (bytes_of name)) (bytes_of name) = true.
Lemma getpwuid_loop_found n uid buf name : getpwuid_loop n uid buf = Some name -> exists buf, getpwuid_r uid buf = PwEntry name.
Proof.
  revert buf. induction n as [|n IH]; intros buf; cbn [getpwuid_loop]; [done|]. destruct (getpwuid_r uid buf) eqn:E; [|done|].
  - intros [= ->]. eauto.
  - case_match; [apply IH|done].
Qed.
Lemma lookup_text uid name : names_are_text -> lookup_username_blocking uid = Some name -> AwsChunked.from_utf8 (bytes_of name) = Some name.
Proof.
  intros Ht [buf Hb]%getpwuid_loop_found. unfold AwsChunked.from_utf8. by rewrite (Ht uid buf name Hb), str_of_bytes_of.
Qed.

(** What the protocol can carry of a name *)
Definition known (uid : Z) : option string :=
  name ← lookup_username_blocking uid; if is_empty name || (MAX_NAME_LEN <? blen (bytes_of name)) then None else Some name.

Lemma read_exact_app n a b : blen a = n -> read_exact n {| inbox := a ++ b |} = Some (a, {| inbox := b |}).
Proof.
  intros <-. unfold read_exact, blen. cbn [inbox]. rewrite length_app, (proj2 (Z.leb_le _ _)) by lia.
  rewrite Nat2Z.id, take_app_length, drop_app_length. done.
Qed.
Lemma read_unknown rest : read_reply {| inbox := byte_of 0 :: rest |} = Some (None, {| inbox := rest |}).
Proof. unfold read_reply. change (byte_of 0 :: rest) with ([byte_of 0] ++ rest). by rewrite read_exact_app. Qed.
Lemma read_name name rest : name <> ""%string -> blen (bytes_of name) <= MAX_NAME_LEN -> AwsChunked.from_utf8 (bytes_of name) = Some name ->
  read_reply {| inbox := byte_of (blen (bytes_of name)) :: bytes_of name ++ rest |} = Some (Some name, {| inbox := rest |}).
Proof.
  intros Hne Hlen Hu. unfold read_reply. change (?b :: bytes_of name ++ rest) with ([b] ++ bytes_of name ++ rest). rewrite read_exact_app by done.
  cbn [mbind option_bind]. rewrite byte_val_of by (unfold MAX_NAME_LEN in Hlen; pose proof (blen_nonneg (bytes_of name)); lia).
  destruct (Z.eqb_spec (blen (bytes_of name)) 0) as [E|_].
  - destruct name; [done|]. unfold blen in E. cbn in E. lia.
  - rewrite read_exact_app by done. cbn [mbind option_bind]. by rewrite Hu.
Qed.
Lemma read_answer uid rest : names_are_text -> read_reply {| inbox := answer_request uid ++ rest |} = Some (known uid, {| inbox := rest |}).
Proof.
  intros Ht. unfold answer_request, encode_response, known. destruct (lookup_username_blocking uid) as [name|] eqn:E; [|apply read_unknown].
  cbn [mbind option_bind]. destruct (Z.ltb_spec MAX_NAME_LEN (blen (bytes_of name))) as [Hl|Hl].
  - rewrite orb_true_r. apply read_unknown.
  - destruct (is_empty name) eqn:Ee.
    + apply is_empty_true in Ee as ->. apply read_unknown.
    + cbn [orb default from_option id app]. apply read_name; [by apply is_empty_false|done|by eapply lookup_text].
Qed.

(** Reading one reply after the other *)
Fixpoint read_replies (n : nat) (s : stream) : option (list (option string) * stream) :=
  match n with
  | O => Some ([], s)
  | S n => '(r, s) ← read_reply s; '(rs, s) ← read_replies n s; Some (r :: rs, s)
  end.
Lemma read_served uids : names_are_text -> Forall is_u32 uids ->
  read_replies (length uids) {| inbox := serve_connection (concat (encode_request <$> uids)) |} = Some (known <$> uids, {| inbox := [] |}).
Proof.
  intros Ht. induction 1 as [|uid uids Hu _ IH]; [done|]. rewrite fmap_cons. cbn [concat length read_replies].
  rewrite serve_request, read_answer by done. cbn [mbind option_bind]. by rewrite IH.
Qed.
End Protocol.

(** C31. Round trip of the name protocol: whatever uids a worker asks for on
    one connection, reading the replies yields their names in the order of
    the requests, [None] for an unknown uid or a name the length byte cannot
    carry, and nothing is left over; a request has 4 bytes, a reply 1 to 256. *)
Theorem nss_wire_roundtrip {P : Passwd} (uids : list Z) :
  names_are_text -> Forall is_u32 uids ->
  read_replies (length uids) {| inbox := serve_connection (concat (encode_request <$> uids)) |} = Some (known <$> uids, {| inbox := [] |}) /\
  Forall (fun uid => blen (encode_request uid) = REQUEST_LEN /\ 1 <= blen (answer_request uid) <= 1 + MAX_NAME_LEN) uids.
Proof.
  intros Ht Hu. split; [by apply read_served|]. apply Forall_true. intros uid. split; [done|].
  unfold answer_request, encode_response. case_match eqn:E; [unfold blen, MAX_NAME_LEN; cbn; lia|]. apply Z.ltb_ge in E. revert E. generalize (match lookup_username_blocking uid with Some s => bytes_of s | None => [] end).
  intros b Hb. cbn [default from_option id]. unfold blen in *. cbn [length]. unfold MAX_NAME_LEN in *. lia.
Qed.

(** ** The client *)
Section Client.
Context {P : Passwd} (b : Backend).
Hypothesis text : names_are_text.

Definition right_name (uid : Z) (v : option string) : Prop := forall name, v = Some name -> lookup_username_blocking uid = Some name.
(** A name the proxy can tell is denied for the short time only. *)
Definition short_denial (uid : Z) (v : option string) (ttl : Z) : Prop :=
  right_name uid v /\ ttl <= CACHE_TTL /\ (v = None -> is_Some (known uid) -> ttl <= ERROR_FALLBACK_TTL).
Record nss_inv (st : nss_state) : Prop := {
  inv_conn s : ns_conn st = Some s -> inbox s = [];
  inv_cache uid e : ns_cache st !! uid = Some e -> short_denial uid (ce_value e) (ce_expires_at e - ns_now st);
  inv_tasks t k : ns_tasks st !! t = Some k ->
    match k with
    | Asking uid => is_u32 uid
    | Storing uid v ttl => short_denial uid v ttl
    | Answered uid v => right_name uid v
    end;
}.
(** Requests name a [u32], and no exchange is dropped between the request and
    the reply. *)
Definition event_ok (e : nss_event) : Prop :=
  match e with
  | Start _ uid => is_u32 uid
  | Ask _ a0 a1 => at_exchange a0 <> Dropped true /\ at_exchange a1 <> Dropped true
  | _ => True
  end.

Lemma known_right uid : right_name uid (known uid).
Proof. intros name. unfold known. destruct (lookup_username_blocking uid); cbn; [|done]. by case_match. Qed.
Lemma known_short uid : short_denial uid (known uid) CACHE_TTL.
Proof. split_and!; [apply known_right|done|]. intros -> [? H]. done. Qed.
Lemma query_name uid s : is_u32 uid -> inbox s = [] -> read_reply (write_request uid s) = Some (known uid, {| inbox := [] |}).
Proof.
  intros Hu Hs. unfold write_request. rewrite Hs. rewrite <- (app_nil_r (encode_request uid)), serve_request by done. by apply read_answer.
Qed.
Lemma attempt_clean last a uid conn r conn' :
  is_u32 uid -> (forall s, conn = Some s -> inbox s = []) -> at_exchange a <> Dropped true -> query_attempt last a uid conn = (r, conn') ->
  (forall s, conn' = Some s -> inbox s = []) /\ (forall name, r = inl (Name name) -> name = known uid).
Proof.
  intros Hu Hc Ha. unfold query_attempt.
  assert (inbox (default {| inbox := [] |} conn) = []) as Hs by (destruct conn; [by apply Hc|done]).
  destruct conn as [s|], (at_connects a), (at_exchange a) as [| | |[]]; try done; rewrite ?query_name by done; destruct last; intros [= <- <-]; split; naive_solver.
Qed.
Lemma query_clean a0 a1 uid conn e conn' :
  is_u32 uid -> (forall s, conn = Some s -> inbox s = []) -> event_ok (Ask 0 a0 a1) -> query_socket a0 a1 uid conn = (e, conn') ->
  (forall s, conn' = Some s -> inbox s = []) /\ (forall name, e = Name name -> name = known uid).
Proof.
  intros Hu Hc [H0 H1]. unfold query_socket. destruct (query_attempt false a0 uid conn) as [r0 c0] eqn:E0.
  destruct (attempt_clean _ _ _ _ _ _ Hu Hc H0 E0) as [Hc0 Hr0].
  destruct r0 as [e0|[]]; [intros [= <- <-]; split; [done|]; intros; apply Hr0; congruence|].
  destruct (query_attempt true a1 uid c0) as [r1 c1] eqn:E1. destruct (attempt_clean _ _ _ _ _ _ Hu Hc0 H1 E1) as [Hc1 Hr1].
  destruct r1 as [e1|[]]; intros [= <- <-]; split; try done. intros; apply Hr1; congruence.
Qed.
Lemma error_short uid : short_denial uid None ERROR_FALLBACK_TTL.
Proof. split_and!; [done|unfold ERROR_FALLBACK_TTL, CACHE_TTL; lia|done]. Qed.
Lemma direct_short uid : short_denial uid (lookup_username_blocking uid) CACHE_TTL.
Proof. split_and!; [by intros ?|done|]. intros E [n Hn]. unfold known in Hn. by rewrite E in Hn. Qed.
Lemma ask_clean a0 a1 uid conn k conn' :
  is_u32 uid -> (forall s, conn = Some s -> inbox s = []) -> event_ok (Ask 0 a0 a1) -> ask b a0 a1 uid conn = (k, conn') ->
  (forall s, conn' = Some s -> inbox s = []) /\ (forall x, k = Some x -> exists v ttl, x = Storing uid v ttl /\ short_denial uid v ttl).
Proof.
  intros Hu Hc He. unfold ask. destruct b as [|addr].
  - intros [= <- <-]. split; [done|]. intros x [= <-]. eauto using direct_short.
  - destruct (query_socket a0 a1 uid conn) as [e c] eqn:E. destruct (query_clean _ _ _ _ _ _ Hu Hc He E) as [Hc' Hn].
    destruct e as [name| |]; intros [= <- <-]; (split; [done|]); intros x; [|intros [= <-]; eauto using error_short|done].
    intros [= <-]. rewrite (Hn name eq_refl). eauto using known_short.
Qed.

Definition task_ok (k : nss_task) : Prop :=
  match k with
  | Asking uid => is_u32 uid
  | Storing uid v ttl => short_denial uid v ttl
  | Answered uid v => right_name uid v
  end.
Lemma tasks_set (m : gmap nat nss_task) t o :
  (forall t k, m !! t = Some k -> task_ok k) -> (forall k, o = Some k -> task_ok k) ->
  forall t' k, partial_alter (fun _ => o) t m !! t' = Some k -> task_ok k.
Proof.
  intros Hm Ho t' k. destruct (decide (t' = t)) as [->|Hne]; [rewrite lookup_partial_alter_eq|rewrite lookup_partial_alter_ne by done]; eauto.
Qed.
Lemma short_later uid v d1 d2 : d2 <= d1 -> short_denial uid v d1 -> short_denial uid v d2.
Proof. intros Hd (Hr & Hc & He). split_and!; [done|lia|]. intros Hv Hk. specialize (He Hv Hk). lia. Qed.
Lemma start_ok uid st : nss_inv st -> is_u32 uid -> task_ok (start_lookup uid st).
Proof.
  intros Hi Hu. unfold start_lookup, cache_get. destruct (ns_cache st !! uid) as [e|] eqn:E; [|done]. cbn [mbind option_bind].
  destruct (ns_now st <? ce_expires_at e); [|done]. apply (inv_cache st Hi uid e E).
Qed.

Lemma nss_step_inv st e st' : nss_inv st -> event_ok e -> nss_step b st e = Some st' -> nss_inv st'.
Proof.
  intros Hi He. pose proof (inv_tasks st Hi) as Ht. fold task_ok in Ht. destruct e as [t uid|t a0 a1|t|t| |d]; cbn [nss_step].
  - destruct (ns_tasks st !! t) eqn:E; [done|]. intros [= <-]. split; [apply Hi|apply Hi|]. apply tasks_set; [done|].
    intros k [= <-]. by apply start_ok.
  - destruct (ns_tasks st !! t) as [[uid| |]|] eqn:E; try done. destruct (ask b a0 a1 uid (ns_conn st)) as [k conn] eqn:Ea.
    intros [= <-]. destruct (ask_clean a0 a1 uid (ns_conn st) k conn) as [Hc Hk]; [apply (Ht t _ E)|apply Hi|done|done|].
    split; [done|apply Hi|]. apply tasks_set; [done|]. intros x Hx. destruct (Hk x Hx) as (v & ttl & -> & Hs). done.
  - destruct (ns_tasks st !! t) as [[|uid v ttl|]|] eqn:E; try done. intros [= <-]. pose proof (Ht t _ E) as Hs. split; [apply Hi| |].
    + intros uid' e'. cbn [ns_cache ns_now]. unfold cache_insert. intros [[<- <-]|[_ Hl]]%lookup_insert_Some; [|by apply Hi].
      cbn. replace (ns_now st + ttl - ns_now st) with ttl by lia. done.
    + apply tasks_set; [done|]. intros k [= <-]. apply Hs.
  - destruct (ns_tasks st !! t) as [[| |]|] eqn:E; try done. intros [= <-]. split; [apply Hi|apply Hi|]. by apply tasks_set.
  - intros [= <-]. split; [apply Hi| |apply Hi]. intros uid e. cbn. unfold nss_sweep. intros [Hl _]%map_lookup_filter_Some. by apply Hi.
  - destruct (Z.leb_spec 0 d); [|done]. intros [= <-]. split; [apply Hi| |apply Hi]. intros uid e Hl. cbn.
    eapply short_later; [|apply (inv_cache st Hi uid e Hl)]. lia.
Qed.
Lemma nss_run_none es : foldl (fun o e => st ← o; nss_step b st e) None es = None.
Proof. by induction es. Qed.
Lemma nss_run_inv es st st' : nss_inv st -> Forall event_ok es -> nss_run b st es = Some st' -> nss_inv st'.
Proof.
  unfold nss_run. intros Hi Hf. revert st Hi. induction Hf as [|e es He _ IH]; intros st Hi; cbn [foldl]; [by intros [= <-]|].
  cbn [mbind option_bind]. destruct (nss_step b st e) as [st1|] eqn:E; [|by rewrite nss_run_none].
  apply IH. by eapply nss_step_inv.
Qed.
Lemma nss_new_inv now : nss_inv (nss_new now).
Proof. split; [done|..]; intros ? ?; cbn; by rewrite lookup_empty. Qed.
End Client.

(** C19. Names are never mixed up: however lookups, failures, timeouts,
    sweeps and time interleave, a lookup that answers a name answers the name
    libc gives the proxy for that uid, and a cached "unknown" for a uid whose
    name the protocol can carry is asked again after at most 30 seconds, as
    long as no exchange is dropped between its request and its reply. *)
Theorem nss_names_right {P : Passwd} (b : Backend) (now : Z) (es : list nss_event) (st : nss_state) :
  names_are_text -> Forall event_ok es -> nss_run b (nss_new now) es = Some st ->
  (forall t uid name, ns_tasks st !! t = Some (Answered uid (Some name)) -> lookup_username_blocking uid = Some name) /\
  (forall uid e, ns_cache st !! uid = Some e -> ce_value e = None -> is_Some (known uid) -> ce_expires_at e <= ns_now st + ERROR_FALLBACK_TTL).
Proof.
  intros Ht He Hr. pose proof (nss_run_inv b Ht es _ st (nss_new_inv now) He Hr) as [_ Hc Hk]. split.
  - intros t uid name Hl. by apply (Hk t _ Hl).
  - intros uid e Hl Hv Hn. destruct (Hc uid e Hl) as (_ & _ & Hs). specialize (Hs Hv Hn). lia.
Qed.

Lemma nss_run_step {P : Passwd} b st e es st1 r : nss_step b st e = Some st1 -> nss_run b st1 es = r -> nss_run b st (e :: es) = r.
Proof. intros E <-. unfold nss_run. cbn [foldl mbind option_bind]. by rewrite E. Qed.

(** C20. A dropped request shifts the names: when a client goes away between
    the request and the reply of a lookup, the connection is kept with the
    reply unread; the next lookup, for another uid, answers the name of the
    first one and keeps it for five minutes, and its own reply is left for
    the lookup after it. *)
Theorem dropped_exchange_shifts_names {P : Passwd} (addr : Address) (now u1 u2 : Z) (a1 : attempt) :
  names_are_text -> is_u32 u1 -> is_u32 u2 ->
  exists st, nss_run (Socket addr) (nss_new now)
    [Start 0 u1; Ask 0 {| at_connects := true; at_exchange := Dropped true |} a1; Start 1 u2; Ask 1 {| at_connects := true; at_exchange := Completes |} a1; Store 1] = Some st /\
    ns_tasks st !! 1%nat = Some (Answered u2 (known u1)) /\
    ns_cache st !! u2 = Some {| ce_value := known u1; ce_expires_at := now + CACHE_TTL |} /\
    ns_conn st = Some {| inbox := answer_request u2 |}.
Proof.
  intros Ht H1 H2. eexists. split.
  - eapply nss_run_step; [cbn [nss_step nss_new ns_tasks]; rewrite lookup_empty; reflexivity|]. eapply nss_run_step.
    { cbn [nss_step set_task nss_new ns_tasks]. rewrite lookup_partial_alter_eq. reflexivity. }
    eapply nss_run_step.
    { cbn [nss_step set_task nss_new ns_tasks ns_cache ns_now]. rewrite !lookup_partial_alter_ne, lookup_empty by done. reflexivity. }
    eapply nss_run_step.
    { cbn [nss_step set_task nss_new ns_tasks ns_cache ns_now ns_conn]. rewrite lookup_partial_alter_eq. unfold start_lookup. cbn [set_task ns_cache ns_now nss_new]. unfold cache_get. rewrite lookup_empty. cbn -[query_socket].
      unfold query_socket, query_attempt. cbn [at_connects at_exchange default from_option id].
      unfold write_request. cbn [inbox]. rewrite app_nil_l, <- (app_nil_r (encode_request u1)), serve_request by done.
      cbn [serve_connection]. rewrite app_nil_r, read_answer by done. reflexivity. }
    eapply nss_run_step; [|reflexivity]. cbn [nss_step set_task ns_tasks ns_cache ns_now ns_conn]. rewrite lookup_partial_alter_eq. reflexivity.
  - cbn [set_task ns_tasks ns_cache ns_now ns_conn nss_new]. unfold cache_insert. rewrite lookup_partial_alter_eq, lookup_insert_eq.
    split_and!; try done. by rewrite <- (app_nil_r (encode_request u2)), serve_request, app_nil_r.
Qed.

(** ** At concrete values *)
Definition two_users : Passwd :=
  {| getpwuid_r := fun uid _ => if uid =? 1000 then PwEntry "alice"%string else if uid =? 1001 then PwEntry "bob"%string else PwNone;
     getpwnam_r := fun _ _ => PwNone; gen_secret_key := ""%string |}.
Lemma two_users_text : @names_are_text two_users.
Proof. intros uid buf name. cbn. repeat case_match; try done; intros [= <-]; reflexivity. Qed.
Lemma small_u32 n : 0 <= n <= 65535 -> is_u32 n.
Proof. unfold is_u32, u32_max. lia. Qed.

Lemma nss_wire_roundtrip_witness :
  @read_replies 3 {| inbox := @serve_connection two_users (concat (encode_request <$> [1001; 7; 1000])) |} =
    Some ([Some "bob"; None; Some "alice"]%string, {| inbox := [] |}).
Proof.
  destruct (@nss_wire_roundtrip two_users [1001; 7; 1000]) as [H _].
  - apply two_users_text.
  - repeat (apply Forall_cons; split; [apply small_u32; lia|]). constructor.
  - exact H.
Defined.

Definition at_once : attempt := {| at_connects := true; at_exchange := Completes |}.
Definition demo_lookups : list nss_event :=
  [Start 0 1000; Start 1 1001; Ask 1 {| at_connects := true; at_exchange := Fails |} at_once; Ask 0 at_once at_once; Store 1; Tick 5; Store 0; Start 2 1001; Sweep].
Definition after_lookups : nss_state := default (nss_new 0) (@nss_run two_users (Socket (Abstract "s32p-nss-1")) (nss_new 0) demo_lookups).
Lemma nss_names_right_witness :
  ns_tasks after_lookups !! 2%nat = Some (Answered 1001 (Some "bob"%string)) /\ @lookup_username_blocking two_users 1001 = Some "bob"%string.
Proof.
  split; [vm_compute; reflexivity|].
  refine (proj1 (@nss_names_right two_users (Socket (Abstract "s32p-nss-1")) 0 demo_lookups after_lookups two_users_text _ _) 2%nat 1001 "bob"%string _).
  - repeat (apply Forall_cons; split; [first [exact I|apply small_u32; lia|split; discriminate]|]). constructor.
  - vm_compute. reflexivity.
  - vm_compute. reflexivity.
Defined.

Lemma dropped_exchange_shifts_names_witness : exists st,
  @nss_run two_users (Socket (Abstract "s32p-nss-1")) (nss_new 0)
    [Start 0 1000; Ask 0 {| at_connects := true; at_exchange := Dropped true |} at_once; Start 1 1001; Ask 1 at_once at_once; Store 1] = Some st /\
  ns_tasks st !! 1%nat = Some (Answered 1001 (Some "alice"%string)).
Proof.
  destruct (@dropped_exchange_shifts_names two_users (Abstract "s32p-nss-1") 0 1000 1001 at_once two_users_text) as (st & Hr & Ha & _).
  - apply small_u32; lia.
  - apply small_u32; lia.
  - exists st. split; [exact Hr|exact Ha].
Defined.
