(* ===== verification/BucketAcl.v ===== *)
(** * The bucket access levels a worker is given

    [format_bucket_acl] and [validate_bucket_link_name] of
    s32p-proxy/src/worker_manager.rs write the [S32P_BUCKET_ACL] variable;
    [is_s3_bucket_name_charset] and [parse_bucket_acl] of
    s32p-gateway/src/main.rs read it back. *)

From Stdlib Require Import ZArith Lia Ascii.
From stdpp Require Import base list strings numbers option gmap.
From S2P Require Import Prelude RustStr Directory.

Local Open Scope s3_scope.
Local Open Scope string_scope.

(** [format_bucket_acl]; the gateway's [AclLevel] has the two values of
    [AccessLevel]. *)
Definition level_name (l : AccessLevel) : string := match l with ReadOnly => "ro" | ReadWrite => "rw" end.
Definition acl_entry (b : BucketView) : string := bucket_name b +:+ ":" +:+ level_name (access b).
Definition format_bucket_acl (buckets : list BucketView) : string := join "," (acl_entry <$> buckets).

(** [is_s3_bucket_name_charset] *)
Definition bucket_char (c : ascii) : bool := is_ascii_lower c || is_ascii_digit c || (c =c ".") || (c =c "-").
Definition is_s3_bucket_name_charset (name : string) : bool := negb (is_empty name) && all_bytes bucket_char name.

(** [parse_bucket_acl] *)
Definition parse_acl_entry (out : gmap string AccessLevel) (entry : string) : gmap string AccessLevel :=
  let entry := trim entry in
  if is_empty entry then out
  else match split_once ":" entry with
       | None => out
       | Some (name, level) =>
           let name := trim name in
           let level := trim level in
           if negb (is_s3_bucket_name_charset name) then out
           else if level =s "ro" then <[name := ReadOnly]> out
           else if level =s "rw" then <[name := ReadWrite]> out
           else out
       end.
Definition parse_bucket_acl (raw : string) : gmap string AccessLevel := foldl parse_acl_entry ∅ (split "," raw).

(** [validate_bucket_link_name]: [c.is_control()] is a C0 or C1 code point
    or DEL, [c.is_whitespace()] what [trim] removes. *)
Fixpoint any_suffix (f : string -> bool) (s : string) : bool :=
  f s || match s with "" => false | String _ s => any_suffix f s end.
Definition starts_with_control (s : string) : bool :=
  match s with
  | "" => false
  | String a s1 =>
      in_range 0 31 a || in_range 127 127 a ||
      match s1 with String b _ => in_range 0xC2 0xC2 a && in_range 0x80 0x9F b | "" => false end
  end.
Definition starts_with_whitespace (s : string) : bool := match strip_ws s with Some _ => true | None => false end.
Definition validate_bucket_link_name (name : string) : bool :=
  negb (is_empty name) && negb (contains_char "/" name || contains_char "000" name)
  && negb (any_suffix (fun s => starts_with_control s || starts_with_whitespace s) name)
  && negb ((name =s ".") || (name =s "..")).

(** ** Transport *)
Definition charset_names (bs : list BucketView) : Prop := Forall (fun b => is_s3_bucket_name_charset (bucket_name b) = true) bs.

Lemma bucket_char_plain c : bucket_char c = true -> is_visible c = true /\ (c =c ",") = false /\ (c =c ":") = false.
Proof.
  unfold bucket_char. intros H. destruct c as [[] [] [] [] [] [] [] []]; try discriminate H; vm_compute; auto.
Qed.

Lemma acl_entry_parsed out b :
  is_s3_bucket_name_charset (bucket_name b) = true ->
  contains_char "," (acl_entry b) = false /\ parse_acl_entry out (acl_entry b) = <[bucket_name b := access b]> out.
Proof.
  intros Hn. pose proof Hn as Hn'. unfold is_s3_bucket_name_charset in Hn'. apply andb_true_iff in Hn' as [Hne Hall].
  assert (all_bytes is_visible (bucket_name b) = true) as Hv by (eapply all_bytes_impl; [|exact Hall]; apply bucket_char_plain).
  assert (forall c, bucket_char c = false -> contains_char c (bucket_name b) = false) as Hc by (intros c Hc; by eapply all_bytes_not_contains).
  assert (all_bytes is_visible (acl_entry b) = true) as Hve
    by (unfold acl_entry; rewrite all_bytes_app, Hv; by destruct (access b)).
  split.
  - unfold acl_entry. rewrite contains_char_app, Hc by done. by destruct (access b).
  - unfold parse_acl_entry. rewrite trim_visible by done.
    assert (is_empty (acl_entry b) = false) as -> by (unfold acl_entry; by destruct (bucket_name b)).
    assert (split_once ":" (acl_entry b) = Some (bucket_name b, level_name (access b))) as ->
      by (apply split_once_some; split; [reflexivity|by apply Hc]).
    rewrite (trim_visible (bucket_name b)), Hn by done. rewrite trim_visible by (by destruct (access b)). by destruct (access b).
Qed.

Definition level_of (bs : list BucketView) (name : string) : option AccessLevel :=
  access <$> list.last (filter (fun b => bucket_name b = name) bs).

Lemma parsed_entries bs out :
  charset_names bs -> forall name, foldl parse_acl_entry out (acl_entry <$> bs) !! name =
    match level_of bs name with Some l => Some l | None => out !! name end.
Proof.
  intros Hbs. revert out. induction Hbs as [|b bs Hb _ IH] using Forall_ind; intros out name; [done|].
  cbn [foldl fmap list_fmap]. destruct (acl_entry_parsed out b Hb) as [_ ->]. rewrite IH. unfold level_of.
  rewrite filter_cons. case_decide as Hn.
  - rewrite last_cons. destruct (list.last (filter _ bs)); [done|]. cbn. rewrite Hn. apply lookup_insert_eq.
  - destruct (list.last (filter _ bs)); [done|]. cbn. by rewrite lookup_insert_ne.
Qed.

Lemma formatted_levels bs name : charset_names bs -> parse_bucket_acl (format_bucket_acl bs) !! name = level_of bs name.
Proof.
  intros Hbs. unfold parse_bucket_acl, format_bucket_acl. destruct bs as [|b bs]; [done|].
  rewrite split_join.
  - rewrite parsed_entries by done. rewrite lookup_empty. by destruct (level_of _ _).
  - done.
  - apply Forall_fmap. eapply Forall_impl; [exact Hbs|]. intros b' Hb'. apply (acl_entry_parsed ∅ b' Hb').
Qed.

(** The access levels arrive.  For buckets with S3 names, whatever their
    number and order, the gateway reads from the variable the proxy wrote
    exactly the level of every bucket (of the last one, should a name occur
    twice), and no level for any other name. *)
Theorem bucket_acl_roundtrip (bs : list BucketView) (name : string) :
  charset_names bs -> parse_bucket_acl (format_bucket_acl bs) !! name = level_of bs name.
Proof. apply formatted_levels. Qed.

(** A bucket name the directory accepts is an S3 name, so that the theorem
    above covers every bucket a validated directory file lists. *)
Lemma bucket_rest_charset n s : matches_bucket_rest n s = true -> all_bytes bucket_char s = true.
Proof.
  revert n. induction s as [|c s IH]; intros n H; [done|]. cbn [matches_bucket_rest] in H.
  assert (forall c, bucket_inner c = bucket_char c) as Hi by done.
  destruct s as [|c' s]; apply andb_true_iff in H as [H H'].
  - cbn. rewrite <- Hi. unfold bucket_inner. by rewrite H'.
  - cbn [all_bytes]. rewrite <- Hi, H. exact (IH _ H').
Qed.

Lemma valid_bucket_name_charset name : is_ok (validate_bucket_name name) = true -> is_s3_bucket_name_charset name = true.
Proof.
  unfold validate_bucket_name. destruct (matches_bucket_name name) eqn:Hm; [intros _|done].
  unfold matches_bucket_name in Hm. destruct name as [|c s]; [done|]. apply andb_true_iff in Hm as [Hc Hs].
  unfold is_s3_bucket_name_charset. cbn [is_empty negb andb all_bytes]. rewrite (bucket_rest_charset _ _ Hs).
  unfold bucket_char. unfold bucket_edge in Hc. by rewrite Hc.
Qed.

Definition demo_views : list BucketView :=
  [{| bucket_id := "1"; bucket_name := "logs"; data_path := "/l"; access := ReadOnly |};
   {| bucket_id := "2"; bucket_name := "data-2"; data_path := "/d"; access := ReadWrite |}].

Lemma bucket_acl_roundtrip_witness :
  format_bucket_acl demo_views = "logs:ro,data-2:rw" /\ parse_bucket_acl (format_bucket_acl demo_views) !! "logs" = Some ReadOnly.
Proof.
  split; [reflexivity|]. rewrite (bucket_acl_roundtrip demo_views "logs"); [reflexivity|]. repeat constructor.
Defined.

(** The transport fails open.  A bucket name that the proxy's own check
    lets into a worker but that is outside the S3 character set loses its
    level, and the gateway treats a bucket without one as writable; a name
    with a comma can even raise the level of another bucket. *)
Theorem bucket_acl_fails_open :
  validate_bucket_link_name "Logs" = true /\
  parse_bucket_acl (format_bucket_acl [{| bucket_id := "1"; bucket_name := "Logs"; data_path := "/l"; access := ReadOnly |}]) !! "Logs" = None /\
  validate_bucket_link_name "x,logs" = true /\
  parse_bucket_acl (format_bucket_acl (demo_views ++ [{| bucket_id := "3"; bucket_name := "x,logs"; data_path := "/x"; access := ReadWrite |}]))
    !! "logs" = Some ReadWrite.
Proof. repeat split; vm_compute; reflexivity. Qed.
