(* ===== verification/Workers.v ===== *)
(** * s32p-proxy/src/worker_manager.rs: how a worker is started

    [spawn_worker] and what it calls: the filter on data paths, the staged
    root with a link per bucket, the launcher's command line and environment,
    the templates, the fingerprint of the directory snapshot and the wait for
    the worker's socket.  What the kernel, the random generator and the hasher
    answer is an argument ([SpawnEnv]).  The slots that share a worker between
    requests are in WorkerSlots.v. *)

From Stdlib Require Import ZArith Lia Ascii.
From stdpp Require Import base list strings numbers option gmap sorting fin_sets.
From S2P Require Import Prelude RustStr Http Directory BucketAcl.

Local Open Scope s3_scope.
Local Open Scope string_scope.

(** ** Workers *)
Record WorkerKey := { wk_access_key : string; wk_profile : string }.
#[global] Instance worker_key_eq_dec : EqDecision WorkerKey.
Proof. solve_decision. Defined.
#[global] Instance worker_key_countable : Countable WorkerKey.
Proof.
  apply (inj_countable' (fun k => (wk_access_key k, wk_profile k)) (fun p => {| wk_access_key := p.1; wk_profile := p.2 |})).
  by intros [].
Defined.

(** [SocketAddr] of a worker: always 127.0.0.1 and a port *)
Inductive WorkerEndpoint := EpTcp (port : Z) | EpUds (path : string).
#[global] Instance endpoint_eq_dec : EqDecision WorkerEndpoint.
Proof. solve_decision. Defined.
Definition show_endpoint (e : WorkerEndpoint) : string :=
  match e with EpTcp port => "127.0.0.1:" +:+ print_u64 port | EpUds p => p end.

(** [WorkerHandle], without the child process; [spawn_id] tells apart the
    processes the proxy starts. *)
Record WorkerHandle := {
  h_key : WorkerKey;
  h_username : string;
  h_endpoint : WorkerEndpoint;
  h_posix_root : string;
  h_worker_token : string;
  h_spawn_fingerprint : Z;
  spawn_id : nat;
}.
#[global] Instance worker_handle_eq_dec : EqDecision WorkerHandle.
Proof. solve_decision. Defined.

(** ** [data_path_under_allowed_root]

    [Path::components] of an absolute path drops empty and "." components. *)
Definition is_absolute (p : string) : bool := starts_with "/" p.
Definition components (p : string) : list string := filter (fun c => c <> "" /\ c <> ".") (split "/" p).
Definition has_parent_dir (p : string) : bool := bool_decide (".." ∈ components p).
Definition path_starts_with (p root : string) : bool := bool_decide (components root `prefix_of` components p).
Definition data_path_under_allowed_root (data_path : string) (allowed_roots : list string) : bool :=
  match allowed_roots with
  | [] => true
  | _ =>
      if negb (is_absolute data_path) || has_parent_dir data_path then false
      else existsb (fun r => is_absolute r && negb (has_parent_dir r) && path_starts_with data_path r) allowed_roots
  end.

(** ** [directory_fingerprint]: what is fed to the hasher, in order *)
Inductive hashed := HStr (s : string) | HNum (n : Z).
Definition view_id_le (a b : BucketView) : Prop := str_le (bucket_id a) (bucket_id b).
#[global] Instance view_id_le_dec : RelDecision view_id_le.
Proof. intros a b. unfold view_id_le. apply _. Defined.
Definition level_num (l : AccessLevel) : Z := match l with ReadOnly => 0 | ReadWrite => 1 end.
Definition hashed_view (b : BucketView) : list hashed := [HStr (bucket_id b); HStr (data_path b); HNum (level_num (access b))].
Definition hashed_snapshot (user : UserDoc) (buckets : list BucketView) : list hashed :=
  ([HStr (user_access_key user); HStr (user_secret_key user); HNum (user_uid user); HNum (user_gid user); HStr (user_username user)]
   ++ HNum (Z.of_nat (length buckets)) :: (merge_sort view_id_le buckets ≫= hashed_view))%list.

(** ** Templates *)
Record TemplateVars := {
  v_username : string; v_uid : Z; v_gid : Z; v_access_key : string; v_secret_key : string; v_posix_root : string;
  v_endpoint : WorkerEndpoint; v_region : string; v_virtual_hosted_suffixes : string; v_log_level : string; v_log_format : string;
}.
Inductive spawn_error :=
| UnknownProfile (name : string) | UnterminatedToken (input : string) | UnknownToken (name input : string)
| RuntimeRoot | TempDirFailed | ChownFailed | BadLinkName (name : string) | DuplicateName (name : string) | RelativeDataPath (name : string)
| SymlinkFailed (name : string) | RenameFailed (name : string) | RootNotUtf8 | NoFreePort | MissingRunDir | RunDirFailed
| LaunchFailed | NotReady.

Definition token_value (vars : TemplateVars) (name : string) : option string :=
  if name =s "username" then Some (v_username vars)
  else if name =s "uid" then Some (print_u64 (v_uid vars))
  else if name =s "gid" then Some (print_u64 (v_gid vars))
  else if name =s "access_key" then Some (v_access_key vars)
  else if name =s "secret_key" then Some (v_secret_key vars)
  else if name =s "posix_root" then Some (v_posix_root vars)
  else if name =s "bind_addr" then Some (show_endpoint (v_endpoint vars))
  else if name =s "bind_uds" then Some (show_endpoint (v_endpoint vars))
  else if name =s "region" then Some (v_region vars)
  else if name =s "virtual_hosted_suffixes" then Some (v_virtual_hosted_suffixes vars)
  else if name =s "log_level" then Some (v_log_level vars)
  else if name =s "log_format" then Some (v_log_format vars)
  else None.

(** The loop of [render_template] on [&input[i..]]; every turn consumes four
    bytes or more. *)
Fixpoint render_loop (fuel : nat) (input : string) (vars : TemplateVars) (rest out : string) : res spawn_error string :=
  match fuel with
  | O => Panics
  | S fuel =>
      match split_at_str "{{" rest with
      | None => Ok (out +:+ rest)
      | Some (lit, after) =>
          match split_at_str "}}" after with
          | None => Err (UnterminatedToken input)
          | Some (name, rest) =>
              match token_value vars (trim name) with
              | None => Err (UnknownToken (trim name) input)
              | Some value => render_loop fuel input vars rest ((out +:+ lit) +:+ value)
              end
          end
      end
  end.
Definition render_template (input : string) (vars : TemplateVars) : res spawn_error string :=
  render_loop (S (String.length input)) input vars input "".

Fixpoint render_args (args : list string) (vars : TemplateVars) : res spawn_error (list string) :=
  match args with
  | [] => Ok []
  | a :: args => a ← render_template a vars; args ← render_args args vars; Ok (a :: args)
  end.
Fixpoint render_env (env : list (string * string)) (vars : TemplateVars) : res spawn_error (list (string * string)) :=
  match env with
  | [] => Ok []
  | (k, v) :: env => v ← render_template v vars; env ← render_env env vars; Ok ((k, v) :: env)
  end.

(** ** Configuration *)
Inductive UpstreamKind := UpTcp | UpUds.
Record WorkerProfile := { exec : string; args : list string; kind : UpstreamKind; uds_run_dir : option string; env : list (string * string) }.
Record LauncherConfig := { launcher_path : string; pass_user_flag_if_root : bool; landlock : bool; landlock_strict : bool }.
Record SpawnConfig := {
  posix_root : string; allowed_data_path_roots : list string; launcher : LauncherConfig; profiles : gmap string WorkerProfile;
  region : string; virtual_hosted_suffixes : list string; log_level : option string; log_format : option string; nss_sock_env : string;
}.

(** What the kernel and the libraries answer to one [spawn_worker] *)
Class SpawnEnv := {
  euid_is_root : bool;
  runtime_root_ok : bool;
  tempdir_in : string -> string -> option string;
  chown_ok : bool;
  symlink_ok : string -> bool;
  link_rename_ok : string -> bool;
  to_str_ok : bool;
  pick_free_port : option Z;
  run_dir_ok : bool;
  gen_instance_id : string;
  gen_worker_token : string;
  utc_offset : Z;
  launches : bool;
  connects : nat -> bool;
  elapsed : nat -> Z;
  sip_hash : list hashed -> Z;
  process : nat;
}.

(** The launcher's command line and environment; [cmd.env] replaces. *)
Record Command := { program : string; cmd_args : list string; cmd_env : gmap string string }.

Section Spawn.
Context {E : SpawnEnv} (cfg : SpawnConfig).

(** ** [create_staged_posix_root]

    The links of the staged root, by name.  [fs::remove_file] of a name that
    is not there fails and is ignored. *)
Definition tmp_name (name : string) : string := "." +:+ name +:+ ".tmp".
Fixpoint stage_links (buckets : list BucketView) (seen : gset string) (links : gmap string string)
    : res spawn_error (gmap string string) :=
  match buckets with
  | [] => Ok links
  | b :: buckets =>
      let name := bucket_name b in
      _ ← ensure (validate_bucket_link_name name) (BadLinkName name);
      _ ← ensure (negb (bool_decide (name ∈ seen))) (DuplicateName name);
      _ ← ensure (is_absolute (data_path b)) (RelativeDataPath name);
      let links := delete name (delete (tmp_name name) links) in
      _ ← ensure (symlink_ok name) (SymlinkFailed name);
      let links := <[tmp_name name := data_path b]> links in
      _ ← ensure (link_rename_ok name) (RenameFailed name);
      stage_links buckets ({[name]} ∪ seen) (<[name := data_path b]> (delete (tmp_name name) links))
  end.

Definition create_staged_posix_root (user : UserDoc) (buckets : list BucketView) : res spawn_error (string * gmap string string) :=
  _ ← ensure runtime_root_ok RuntimeRoot;
  root ← ok_or (tempdir_in (posix_root cfg) ("s32p-" +:+ user_access_key user +:+ "-")) TempDirFailed;
  _ ← ensure (negb euid_is_root || chown_ok) ChownFailed;
  links ← stage_links buckets ∅ ∅;
  Ok (root, links).

(** [uds_socket_path]: the run directory and the socket in it;
    [Path::join] of a relative name *)
Definition path_join (base name : string) : string :=
  if is_empty base then name else if ends_with "/" base then base +:+ name else base +:+ "/" +:+ name.
Definition run_dir (base : string) (uid : Z) : string := path_join base (print_u64 uid +:+ "-" +:+ gen_instance_id).
Definition uds_socket_path (base : string) (uid : Z) (profile : string) : res spawn_error string :=
  _ ← ensure (run_dir_ok && (negb euid_is_root || chown_ok)) RunDirFailed;
  Ok (path_join (run_dir base uid) (profile +:+ ".sock")).

Definition choose_endpoint (profile : WorkerProfile) (profile_name : string) (user : UserDoc) : res spawn_error WorkerEndpoint :=
  match kind profile with
  | UpTcp => port ← ok_or pick_free_port NoFreePort; Ok (EpTcp port)
  | UpUds =>
      base ← ok_or (uds_run_dir profile) MissingRunDir;
      sock ← uds_socket_path base (user_uid user) profile_name;
      Ok (EpUds sock)
  end.

(** ** The command line *)
Definition bucket_flag (b : BucketView) : list string :=
  [match access b with ReadOnly => "--ro" | ReadWrite => "--rw" end; data_path b].
Definition landlock_args (staged_root : string) (profile : WorkerProfile) (user : UserDoc) (endpoint : WorkerEndpoint)
    (buckets : list BucketView) : list string :=
  if landlock (launcher cfg) then
    (["--rw"; staged_root] ++ (buckets ≫= bucket_flag)
     ++ match endpoint with EpUds _ => ["--rw"; run_dir (default "" (uds_run_dir profile)) (user_uid user)] | EpTcp _ => [] end
     ++ ["--resolve-libs"] ++ (if landlock_strict (launcher cfg) then ["--landlock-strict"] else []))%list
  else [].
Definition user_args (user : UserDoc) : list string :=
  if pass_user_flag_if_root (launcher cfg) && euid_is_root then ["--user"; user_username user] else [].

Definition template_vars (user : UserDoc) (staged_root : string) (endpoint : WorkerEndpoint) : TemplateVars := {|
  v_username := user_username user; v_uid := user_uid user; v_gid := user_gid user; v_access_key := user_access_key user;
  v_secret_key := user_secret_key user; v_posix_root := staged_root; v_endpoint := endpoint; v_region := region cfg;
  v_virtual_hosted_suffixes := join "," (virtual_hosted_suffixes cfg);
  v_log_level := default "info" (log_level cfg); v_log_format := default "text" (log_format cfg);
|}.

Definition show_i64 (n : Z) : string := if (n <? 0)%Z then "-" +:+ print_u64 (- n) else print_u64 n.
Definition worker_env (rendered : list (string * string)) (buckets : list BucketView) : gmap string string :=
  let e := foldl (fun m kv => <[kv.1 := kv.2]> m) (∅ : gmap string string) rendered in
  let e := <["S32P_LOG_UTC_OFFSET_SECS" := show_i64 utc_offset]> e in
  let e := <["S32P_BUCKET_ACL" := format_bucket_acl buckets]> e in
  let e := <["S32P_WORKER_TOKEN" := gen_worker_token]> e in
  <["S32P_NSS_PROXY_SOCK" := nss_sock_env cfg]> e.

(** ** [wait_until_ready]: attempt [i], with the time that has passed after it *)
Definition ready_timeout : Z := 20 * nanos_per_sec.
Definition poll_interval : Z := 50000000.
Fixpoint wait_loop (fuel : nat) (i : nat) : option (res spawn_error unit) :=
  match fuel with
  | O => None
  | S fuel =>
      if connects i then Some (Ok tt)
      else if (ready_timeout <=? elapsed i)%Z then Some (Err NotReady)
      else wait_loop fuel (S i)
  end.
Definition wait_until_ready : option (res spawn_error unit) := wait_loop 401 0.

(** ** [spawn_worker] *)
Definition allowed_buckets (buckets : list BucketView) : list BucketView :=
  filter (fun b => data_path_under_allowed_root (data_path b) (allowed_data_path_roots cfg) = true) buckets.

Record spawned := { s_handle : WorkerHandle; s_command : Command; s_links : gmap string string }.

Definition spawn_worker (user : UserDoc) (buckets : list BucketView) (profile_name : string) : res spawn_error spawned :=
  profile ← ok_or (profiles cfg !! profile_name) (UnknownProfile profile_name);
  let buckets := allowed_buckets buckets in
  '(staged_root, links) ← create_staged_posix_root user buckets;
  _ ← ensure to_str_ok RootNotUtf8;
  endpoint ← choose_endpoint profile profile_name user;
  let vars := template_vars user staged_root endpoint in
  rendered_args ← render_args (args profile) vars;
  rendered_env ← render_env (env profile) vars;
  let cmd := {|
    program := launcher_path (launcher cfg);
    cmd_args := (user_args user ++ landlock_args staged_root profile user endpoint buckets ++ ["--"; exec profile] ++ rendered_args)%list;
    cmd_env := worker_env rendered_env buckets |} in
  _ ← ensure launches LaunchFailed;
  let handle := {|
    h_key := {| wk_access_key := user_access_key user; wk_profile := profile_name |};
    h_username := user_username user; h_endpoint := endpoint; h_posix_root := staged_root; h_worker_token := gen_worker_token;
    h_spawn_fingerprint := sip_hash (hashed_snapshot user buckets); spawn_id := process |} in
  _ ← default Panics wait_until_ready;
  Ok {| s_handle := handle; s_command := cmd; s_links := links |}.
End Spawn.

(** ** Templates are filled in once

    A template as its literals and tokens: the first literal, then tokens with
    the literal after each. *)
Definition template : Type := string * list (string * string).
Definition print_template (t : template) : string :=
  t.1 +:+ foldr (fun nl s => "{{" +:+ nl.1 +:+ "}}" +:+ nl.2 +:+ s) "" t.2.
Definition filled (vars : TemplateVars) (t : template) : option string :=
  foldl (fun acc nl => out ← acc; v ← token_value vars (trim nl.1); Some ((out +:+ v) +:+ nl.2)) (Some t.1) t.2.
(** A literal does not open a token, a name does not close one. *)
Definition plain_literal (l : string) : Prop := contains_str "{{" (l +:+ "{") = false.
Definition plain_name (n : string) : Prop := contains_str "}}" (n +:+ "}") = false.
Definition plain_template (t : template) : Prop :=
  plain_literal t.1 /\ Forall (fun nl => plain_name nl.1 /\ plain_literal nl.2) t.2.

Lemma split_at_doubled c a b :
  contains_str (String c (String c "")) (a +:+ String c "") = false ->
  split_at_str (String c (String c "")) (a +:+ String c (String c b)) = Some (a, b).
Proof.
  set (p := String c (String c "")). induction a as [|x a IH]; intros H.
  - cbn. by rewrite Ascii.eqb_refl.
  - assert (contains_str p (a +:+ String c "") = false) as Ha.
    { destruct (contains_str p (a +:+ String c "")) eqn:E; [|done]. rewrite <- H. symmetry. apply (contains_str_app_l p (String x "") (a +:+ String c "") E). }
    specialize (IH Ha). change (String x a +:+ String c (String c b)) with (String x (a +:+ String c (String c b))).
    cbn [split_at_str]. destruct (strip_prefix p (String x (a +:+ String c (String c b)))) as [r|] eqn:Es; [|by rewrite IH].
    exfalso. apply strip_prefix_some in Es. assert (contains_str p (String x (a +:+ String c "")) = true) as Hc; [|by apply (eq_true_false_abs _ Hc) in H].
    apply contains_str_spec. destruct a as [|y a]; cbn in Es; injection Es as -> Es.
    + exists "", "". done.
    + subst y. exists "", (a +:+ String c ""). done.
Qed.

Lemma split_at_str_none p s : contains_str p s = false -> split_at_str p s = None.
Proof. unfold contains_str. by destruct (split_at_str p s). Qed.

Lemma plain_no_token l : plain_literal l -> split_at_str "{{" l = None.
Proof.
  intros H. apply split_at_str_none. destruct (contains_str "{{" l) eqn:E; [|done].
  by rewrite <- H, (contains_str_app_r _ l "{" E).
Qed.

Lemma render_loop_filled fuel input vars out lit toks v :
  plain_template (lit, toks) -> (String.length (print_template (lit, toks)) < fuel)%nat ->
  foldl (fun acc nl => out ← acc; v ← token_value vars (trim nl.1); Some ((out +:+ v) +:+ nl.2)) (Some (out +:+ lit)) toks = Some v ->
  render_loop fuel input vars (print_template (lit, toks)) out = Ok v.
Proof.
  revert out lit fuel. induction toks as [|[n l] toks IH]; intros out lit [|fuel] [Hl Hp] Hf Hv; cbn [fst snd] in *; try lia.
  - unfold print_template. cbn [foldr fst snd foldl] in *. rewrite str_app_nil_r. cbn [render_loop]. rewrite plain_no_token by done. congruence.
  - apply Forall_cons in Hp as [[Hn Hl'] Hp]. cbn [fst snd] in *. unfold print_template in *. cbn [foldr fst snd] in *.
    set (rest := foldr _ _ _) in *. cbn [render_loop].
    change ("{{" +:+ n +:+ "}}" +:+ l +:+ rest) with (String "{" (String "{" (n +:+ String "}" (String "}" (l +:+ rest))))).
    rewrite (split_at_doubled "{" lit _ Hl), (split_at_doubled "}" n _ Hn).
    cbn [foldl fst snd mbind option_bind] in Hv.
    destruct (token_value vars (trim n)) as [x|]; cbn [mbind option_bind] in Hv.
    + apply IH; [by split| |by rewrite str_app_assoc in Hv |- *; rewrite !str_app_assoc in *].
      rewrite !str_length_app in *. cbn [String.length fst snd] in *. lia.
    + exfalso. clear -Hv. induction toks; cbn in Hv; auto; done.
Qed.

(** Templates are filled in once.  Whatever a template is made of, the
    rendered text is its literals with every token replaced by its value, as
    it is: a value is never scanned for tokens again, so that a user name or
    a path that looks like a token does not pull in another value. *)
Theorem template_filled_once (vars : TemplateVars) (t : template) (v : string) :
  plain_template t -> filled vars t = Some v -> render_template (print_template t) vars = Ok v.
Proof.
  destruct t as [lit toks]. intros Hp Hv. unfold render_template. apply render_loop_filled; [done|lia|exact Hv].
Qed.

Lemma split_at_str_length p s a b : split_at_str p s = Some (a, b) -> (String.length a + String.length p + String.length b = String.length s)%nat.
Proof.
  revert a b. induction s as [|c s IH]; intros a b; cbn [split_at_str].
  - destruct (strip_prefix p "") eqn:Es; [|done]. apply strip_prefix_some in Es. intros [= <- <-].
      apply (f_equal String.length) in Es. rewrite str_length_app in Es. cbn in *. lia.
  - destruct (strip_prefix p (String c s)) as [r|] eqn:Es.
    + apply strip_prefix_some in Es. intros [= <- <-].
      apply (f_equal String.length) in Es. rewrite str_length_app in Es. cbn in *. lia.
    + destruct (split_at_str p s) as [[a' b']|] eqn:E; [|done]. intros [= <- <-]. specialize (IH _ _ eq_refl). cbn. lia.
Qed.

Lemma render_template_returns input vars : no_panic (render_template input vars).
Proof.
  assert (forall fuel rest out, (String.length rest < fuel)%nat -> no_panic (render_loop fuel input vars rest out)) as H; [|apply H; lia].
  induction fuel as [|fuel IH]; intros rest out Hf; [lia|]. cbn [render_loop].
  destruct (split_at_str "{{" rest) as [[lit after]|] eqn:E1; [|done]. apply split_at_str_length in E1.
  destruct (split_at_str "}}" after) as [[name rest']|] eqn:E2; [|done]. apply split_at_str_length in E2.
  destruct (token_value vars (trim name)); [|done]. apply IH. cbn in *. lia.
Qed.

(** ** Staging *)
Section SpawnProofs.
Context {E : SpawnEnv} (cfg : SpawnConfig).

(** No bucket is named like the temporary link of another. *)
Definition no_tmp_clash (buckets : list BucketView) : Prop :=
  forall b c, b ∈ buckets -> c ∈ buckets -> bucket_name b <> tmp_name (bucket_name c).

Lemma stage_links_spec bs seen links links' :
  no_tmp_clash bs -> (forall b n, b ∈ bs -> n ∈ dom links -> n <> tmp_name (bucket_name b)) -> dom links ⊆ seen ->
  stage_links bs seen links = Ok links' ->
  NoDup (bucket_name <$> bs) /\ Forall (fun b => (bucket_name b ∉ seen) /\ validate_bucket_link_name (bucket_name b) = true /\ is_absolute (data_path b) = true) bs /\
  forall n t, links' !! n = Some t <-> links !! n = Some t \/ exists b, b ∈ bs /\ bucket_name b = n /\ data_path b = t.
Proof.
  revert seen links. induction bs as [|b bs IH]; intros seen links Hc Hd Hs; cbn [stage_links].
  { intros [= <-]. split_and!; [constructor..|]. set_solver. }
  intros H. apply bind_ok_inv in H as ([] & Hv%ensure_ok_inv & H). apply bind_ok_inv in H as ([] & Hn%ensure_ok_inv & H).
  apply bind_ok_inv in H as ([] & Ha%ensure_ok_inv & H). apply bind_ok_inv in H as ([] & _ & H). apply bind_ok_inv in H as ([] & _ & H).
  set (n := bucket_name b) in *. apply negb_true_iff, bool_decide_eq_false in Hn.
  assert (n <> tmp_name n) as Hne by (apply (Hc b b); set_solver).
  set (l1 := <[n := data_path b]> _) in H.
  assert (forall m, l1 !! m = (if decide (m = n) then Some (data_path b) else links !! m)) as Hl1.
  { intros m. unfold l1. case_decide as Hm; [subst m; apply lookup_insert_eq|]. rewrite lookup_insert_ne by done.
    destruct (decide (m = tmp_name n)) as [->|Hm'].
    - rewrite lookup_delete_eq. symmetry. apply not_elem_of_dom. intros Hin. by apply (Hd b (tmp_name n)); [set_solver|..].
    - rewrite lookup_delete_ne, lookup_insert_ne, !lookup_delete_ne by done. done. }
  destruct (IH ({[n]} ∪ seen) l1) as (IH1 & IH2 & IH3); [|..|done|].
  - intros x y Hx Hy. apply Hc; set_solver.
  - intros x m Hx Hm. apply elem_of_dom in Hm as [t Hm]. rewrite Hl1 in Hm. case_decide as Hmn.
    + subst m. apply (Hc b x); set_solver.
    + apply Hd; [set_solver|]. apply elem_of_dom. by exists t.
  - intros m Hm. apply elem_of_dom in Hm as [t Hm]. rewrite Hl1 in Hm. case_decide; [set_solver|].
    apply elem_of_union. right. apply Hs, elem_of_dom. by exists t.
  - split_and!.
    + cbn. constructor; [|done]. intros (x & Hx & Hin)%list_elem_of_fmap. rewrite list.Forall_forall in IH2. apply (IH2 x Hin). set_solver.
    + constructor; [done|]. eapply Forall_impl; [exact IH2|]. cbn. set_solver.
    + intros m t. rewrite IH3, Hl1. case_decide as Hm.
      * subst m. split.
        -- intros [[= <-]|(x & Hx & Hxn & _)]; [right; exists b; set_solver|].
           exfalso. rewrite list.Forall_forall in IH2. destruct (IH2 x Hx) as [Hx' _]. apply Hx'. set_solver.
        -- intros [Hin|(x & [->|Hx]%elem_of_cons & Hxn & Ht)]; [|by left; f_equal|right; by exists x].
           exfalso. apply Hn, Hs, elem_of_dom. by exists t.
      * split; [intros [?|(x & Hx & ? & ?)]; [auto|right; exists x; set_solver]|].
        intros [?|(x & [->|Hx]%elem_of_cons & Hxn & Ht)]; [auto|by destruct Hm|right; by exists x].
Qed.

(** ** What a worker is given *)

Lemma spawn_inv user buckets profile_name s :
  spawn_worker cfg user buckets profile_name = Ok s ->
  exists profile endpoint rargs renv,
    let allowed := allowed_buckets cfg buckets in
    profiles cfg !! profile_name = Some profile /\
    stage_links allowed ∅ ∅ = Ok (s_links s) /\
    cmd_args (s_command s) = (user_args cfg user ++ landlock_args cfg (h_posix_root (s_handle s)) profile user endpoint allowed
                              ++ ["--"; exec profile] ++ rargs)%list /\
    cmd_env (s_command s) = worker_env cfg renv allowed /\
    s_handle s = {| h_key := {| wk_access_key := user_access_key user; wk_profile := profile_name |};
                    h_username := user_username user; h_endpoint := endpoint; h_posix_root := h_posix_root (s_handle s);
                    h_worker_token := gen_worker_token; h_spawn_fingerprint := sip_hash (hashed_snapshot user allowed); spawn_id := process |}.
Proof.
  unfold spawn_worker, create_staged_posix_root. intros (profile & Hp%ok_or_ok_inv & H)%bind_ok_inv.
  apply bind_ok_inv in H as ([root links] & Hs & H). apply bind_ok_inv in H as (_ & _ & H).
  apply bind_ok_inv in H as (endpoint & _ & H). apply bind_ok_inv in H as (rargs & _ & H). apply bind_ok_inv in H as (renv & _ & H).
  apply bind_ok_inv in H as (_ & _ & H). apply bind_ok_inv in H as (_ & _ & [= <-]). exists profile, endpoint, rargs, renv. cbn.
  apply bind_ok_inv in Hs as (_ & _ & Hs). apply bind_ok_inv in Hs as (r & _ & Hs). apply bind_ok_inv in Hs as (_ & _ & Hs).
  apply bind_ok_inv in Hs as (l & Hl & [= <- <-]). done.
Qed.

Definition valid_names (bs : list BucketView) : Prop := Forall (fun b => is_ok (validate_bucket_name (bucket_name b)) = true) bs.

Lemma valid_no_clash bs : valid_names bs -> no_tmp_clash bs.
Proof.
  unfold valid_names. rewrite list.Forall_forall. intros Hv b c Hb _ He. specialize (Hv b Hb). rewrite He in Hv. discriminate Hv.
Qed.

Lemma none_named bs n : (forall b, b ∈ bs -> bucket_name b <> n) -> filter (fun b => bucket_name b = n) bs = [].
Proof.
  induction bs as [|b bs IH]; intros H; [done|]. rewrite filter_cons, decide_False by (apply H; set_solver). apply IH. set_solver.
Qed.

Lemma level_of_unique bs n b : NoDup (bucket_name <$> bs) -> b ∈ bs -> bucket_name b = n -> level_of bs n = Some (access b).
Proof.
  intros Hnd Hb Hn. unfold level_of. enough (filter (fun b => bucket_name b = n) bs = [b]) as -> by done.
  induction bs as [|x bs IH]; [by apply not_elem_of_nil in Hb|]. cbn in Hnd. apply NoDup_cons in Hnd as [Hx Hnd].
  assert (forall y, y ∈ bs -> bucket_name y <> bucket_name x) as Hne by (intros y Hy E1; apply Hx, list_elem_of_fmap; by exists y).
  rewrite filter_cons. apply elem_of_cons in Hb as [->|Hb].
  - rewrite decide_True by done. f_equal. apply none_named. intros y Hy. rewrite <- Hn. by apply Hne.
  - rewrite decide_False; [by apply IH|]. intros E1. apply (Hne b Hb). congruence.
Qed.

Lemma level_of_absent bs n : (forall b, b ∈ bs -> bucket_name b <> n) -> level_of bs n = None.
Proof.
  intros H. unfold level_of. by rewrite none_named.
Qed.

(** [levels] holds the granted level of every staged bucket, and nothing else. *)
Definition granted_levels (buckets : list BucketView) (links : gmap string string) (levels : gmap string AccessLevel) : Prop :=
  forall n, match links !! n with
            | Some t => exists b, b ∈ buckets /\ bucket_name b = n /\ data_path b = t /\
                data_path_under_allowed_root t (allowed_data_path_roots cfg) = true /\ levels !! n = Some (access b)
            | None => levels !! n = None /\
                forall b, b ∈ buckets -> bucket_name b = n -> data_path_under_allowed_root (data_path b) (allowed_data_path_roots cfg) = false
            end.

Lemma spawned_levels (user : UserDoc) (buckets : list BucketView) (profile_name : string) (s : spawned) :
  valid_names buckets -> spawn_worker cfg user buckets profile_name = Ok s ->
  granted_levels buckets (s_links s) (parse_bucket_acl (format_bucket_acl (allowed_buckets cfg buckets))).
Proof.
  intros Hv (profile & endpoint & rargs & renv & _ & Hl & _ & He & Hh)%spawn_inv. set (allowed := allowed_buckets cfg buckets) in *.
  assert (forall b, b ∈ allowed <-> data_path_under_allowed_root (data_path b) (allowed_data_path_roots cfg) = true /\ b ∈ buckets) as Hin
    by (intros b; apply (list_elem_of_filter (fun b => data_path_under_allowed_root (data_path b) (allowed_data_path_roots cfg) = true))).
  assert (valid_names allowed) as Hva by (unfold valid_names in *; rewrite list.Forall_forall in *; intros b [_ Hb]%Hin; auto).
  apply stage_links_spec in Hl as (Hnd & _ & Hl); [|by apply valid_no_clash|set_solver|set_solver].
  assert (charset_names allowed) as Hc by (eapply Forall_impl; [exact Hva|]; intros b; apply valid_bucket_name_charset).
  intros n. rewrite formatted_levels by done. destruct (s_links s !! n) as [t|] eqn:Hn.
  - apply Hl in Hn as [Hn|(b & Hb & Hbn & Ht)]; [by rewrite lookup_empty in Hn|]. exists b. pose proof (proj1 (Hin b) Hb) as [Ha Hb'].
    split_and!; [done..|by rewrite <- Ht|by apply level_of_unique].
  - assert (forall b, b ∈ allowed -> bucket_name b <> n) as Hno.
    { intros b Hb Hbn. assert (s_links s !! n = Some (data_path b)) by (apply Hl; right; by exists b). congruence. }
    split; [by apply level_of_absent|]. intros b Hb Hbn. destruct (data_path_under_allowed_root _ _) eqn:Ha; [|done].
    exfalso. apply (Hno b); [by apply Hin|done].
Qed.

(** A worker is given the buckets of its user and no others.  When
    [spawn_worker] succeeds, the links of the staged root are exactly the
    buckets of the snapshot whose data path is below an allowed root, each
    with its path; the variable the gateway reads holds for each of them
    exactly the granted level and nothing for any other name; and the token
    in the environment is the one in the handle, whose key is the user's. *)
Theorem worker_sees_granted_buckets (user : UserDoc) (buckets : list BucketView) (profile_name : string) (s : spawned) :
  valid_names buckets -> spawn_worker cfg user buckets profile_name = Ok s ->
  h_key (s_handle s) = {| wk_access_key := user_access_key user; wk_profile := profile_name |} /\
  cmd_env (s_command s) !! "S32P_WORKER_TOKEN" = Some (h_worker_token (s_handle s)) /\
  exists acl, cmd_env (s_command s) !! "S32P_BUCKET_ACL" = Some acl /\
  forall n, match s_links s !! n with
            | Some t => exists b, b ∈ buckets /\ bucket_name b = n /\ data_path b = t /\
                data_path_under_allowed_root t (allowed_data_path_roots cfg) = true /\ parse_bucket_acl acl !! n = Some (access b)
            | None => parse_bucket_acl acl !! n = None /\
                forall b, b ∈ buckets -> bucket_name b = n -> data_path_under_allowed_root (data_path b) (allowed_data_path_roots cfg) = false
            end.
Proof.
  intros Hv Hs. pose proof (spawned_levels user buckets profile_name s Hv Hs) as Hlev.
  apply spawn_inv in Hs as (profile & endpoint & rargs & renv & _ & _ & _ & He & Hh).
  rewrite He, Hh. cbn [h_key h_worker_token]. split; [done|]. unfold worker_env. cbn zeta.
  split; [rewrite lookup_insert_ne by done; apply lookup_insert_eq|]. exists (format_bucket_acl (allowed_buckets cfg buckets)).
  split; [do 2 rewrite lookup_insert_ne by done; apply lookup_insert_eq|exact Hlev].
Qed.

(** ** Waiting for the worker *)
Lemma wait_loop_returns : (forall i, (Z.of_nat i * poll_interval <= elapsed i)%Z) ->
  forall fuel i, (400 < fuel + i)%nat -> (i <= 400)%nat -> exists r, wait_loop fuel i = Some r /\ (r = Ok tt \/ r = Err NotReady).
Proof.
  intros He. induction fuel as [|fuel IH]; intros i Hi Hm; [lia|]. cbn [wait_loop].
  destruct (connects i); [eauto|]. destruct (Z.leb_spec ready_timeout (elapsed i)); [eauto|]. apply IH; [lia|].
  assert (i <> 400)%nat; [|lia]. intros ->. specialize (He 400%nat).
  unfold ready_timeout, poll_interval, nanos_per_sec in *. lia.
Qed.

Lemma stage_links_return bs : forall seen links, no_panic (stage_links bs seen links).
Proof.
  induction bs as [|b bs IH]; intros seen links; cbn [stage_links]; [done|].
  repeat (apply bind_no_panic; [apply ensure_no_panic|intros ? _]). apply IH.
Qed.
Lemma render_args_return l vars : no_panic (render_args l vars).
Proof.
  induction l as [|a l IH]; cbn [render_args]; [done|].
  apply bind_no_panic; [apply render_template_returns|]. intros v _. by apply bind_no_panic.
Qed.
Lemma render_env_return l vars : no_panic (render_env l vars).
Proof.
  induction l as [|[k a] l IH]; cbn [render_env]; [done|].
  apply bind_no_panic; [apply render_template_returns|]. intros v _. by apply bind_no_panic.
Qed.

(** C35. Starting a worker comes to an end.  When the clock runs, so that
    [i] turns of the readiness loop take at least [i] times its sleep,
    [spawn_worker] returns, a worker or an error: the loops over templates
    and links stop, and the wait is over after at most 401 attempts. *)
Theorem spawn_worker_returns (user : UserDoc) (buckets : list BucketView) (profile_name : string) :
  (forall i, (Z.of_nat i * poll_interval <= elapsed i)%Z) ->
  no_panic (spawn_worker cfg user buckets profile_name).
Proof.
  intros He. unfold spawn_worker, create_staged_posix_root, choose_endpoint, uds_socket_path.
  destruct (wait_loop_returns He 401 0 ltac:(lia) ltac:(lia)) as (r & Hr & Hrr). unfold wait_until_ready. rewrite Hr.
  repeat first [apply bind_no_panic; [|intros ? _] | apply ok_or_no_panic | apply ensure_no_panic | apply stage_links_return
    | apply render_args_return | apply render_env_return | done | case_match].
  by destruct Hrr as [-> | ->].
Qed.
End SpawnProofs.

(** ** Fingerprints *)
Definition view_key (b : BucketView) : string * string * AccessLevel := (bucket_id b, data_path b, access b).

Lemma hashed_views_inj l l' : (l ≫= hashed_view) = (l' ≫= hashed_view) -> view_key <$> l = view_key <$> l'.
Proof.
  revert l'. induction l as [|a l IH]; intros [|b l']; cbn; try done. intros [= Hi Hp Hl Hr]. f_equal; [|by apply IH].
  unfold view_key. f_equal; [congruence|]. by destruct (access a), (access b).
Qed.

Lemma hashed_views_key l l' : view_key <$> l = view_key <$> l' -> (l ≫= hashed_view) = (l' ≫= hashed_view).
Proof.
  revert l'. induction l as [|a l IH]; intros [|b l']; cbn; try done. intros [= Hi Hp Hl Hr]. rewrite Hi, Hp, Hl. by rewrite (IH l').
Qed.

Definition key_le (a b : string * string * AccessLevel) : Prop := str_le a.1.1 b.1.1.

Lemma sorted_keys l : StronglySorted key_le (view_key <$> merge_sort view_id_le l).
Proof.
  assert (StronglySorted view_id_le (merge_sort view_id_le l)) as H.
  { apply StronglySorted_merge_sort; unfold view_id_le; intros ? **; [by etrans|apply str_le_total]. }
  induction H as [|a l' _ IH Ha]; cbn; constructor; [done|]. rewrite list.Forall_forall in Ha. apply list.Forall_forall.
  intros x (b & -> & Hb)%list_elem_of_fmap. by apply Ha.
Qed.

Lemma fingerprint_same (u u' : UserDoc) (bs bs' : list BucketView) :
  NoDup (bucket_id <$> bs) ->
  (hashed_snapshot u bs = hashed_snapshot u' bs' <-> u = u' /\ view_key <$> bs ≡ₚ view_key <$> bs').
Proof.
  intros Hnd. assert (forall l : list BucketView, view_key <$> merge_sort view_id_le l ≡ₚ view_key <$> l) as Hp
    by (intros l; by rewrite merge_sort_Permutation).
  unfold hashed_snapshot. split.
  - intros [= Hk Hs Hu Hg Hn _ Hv]. split; [destruct u, u'; cbn in *; congruence|].
    apply hashed_views_inj in Hv. by rewrite <- Hp, Hv, Hp.
  - intros [<- Hperm]. apply Permutation_length in Hperm as Hlen. rewrite !length_fmap in Hlen. rewrite Hlen. do 2 f_equal.
    apply hashed_views_key, (StronglySorted_unique_strong key_le); [|apply sorted_keys..|by rewrite !Hp].
    intros x y Hx Hy Hxy Hyx. rewrite Hp in Hx. rewrite Hp, <- Hperm in Hy. assert (x.1.1 = y.1.1) as Hid by (by apply (anti_symm str_le)).
    apply list_elem_of_fmap in Hx as (a & -> & Ha). apply list_elem_of_fmap in Hy as (b & -> & Hb). cbn in Hid. f_equal.
    apply list_elem_of_lookup in Ha as [i Hi]. apply list_elem_of_lookup in Hb as [j Hj].
    assert (i = j) as ->; [|congruence]. eapply (NoDup_lookup (bucket_id <$> bs)); [done|rewrite list_lookup_fmap, Hi; reflexivity|].
    rewrite list_lookup_fmap, Hj. cbn. by rewrite Hid.
Qed.

(** What the fingerprint tells apart.  The text that is hashed is the
    same for two snapshots precisely when the users agree in every field and
    the buckets agree, in any order, on id, data path and level: the order of
    the directory's answer never recycles a worker, and every change of
    credentials, of a data path or of a grant is noticed (up to collisions of
    the hash).  The name of a bucket is not part of it. *)
Theorem fingerprint_exact (u u' : UserDoc) (bs bs' : list BucketView) :
  NoDup (bucket_id <$> bs) ->
  (hashed_snapshot u bs = hashed_snapshot u' bs' <-> u = u' /\ view_key <$> bs ≡ₚ view_key <$> bs').
Proof. apply fingerprint_same. Qed.

(** ** A worker that starts *)
Definition demo_spawn : SpawnEnv := {|
  euid_is_root := true; runtime_root_ok := true; tempdir_in := fun root prefix => Some (root +:+ "/" +:+ prefix +:+ "x1");
  chown_ok := true; symlink_ok := fun _ => true; link_rename_ok := fun _ => true; to_str_ok := true; pick_free_port := Some 4000%Z;
  run_dir_ok := true; gen_instance_id := "00c0ffee"; gen_worker_token := "tok"; utc_offset := 3600%Z; launches := true;
  connects := fun i => Nat.eqb i 2; elapsed := fun i => (Z.of_nat i * poll_interval)%Z; sip_hash := fun l => Z.of_nat (length l); process := 0 |}.
Definition demo_cfg : SpawnConfig := {|
  posix_root := "/run/roots"; allowed_data_path_roots := ["/srv"];
  launcher := {| launcher_path := "/bin/launch"; pass_user_flag_if_root := true; landlock := true; landlock_strict := true |};
  profiles := {["gw" := {| exec := "/bin/gw"; args := ["--listen"; "{{bind_uds}}"]; kind := UpUds; uds_run_dir := Some "/run/s32p";
                           env := [("AK", "{{ access_key }}")] |}]};
  region := "r1"; virtual_hosted_suffixes := ["s3.example"]; log_level := None; log_format := None; nss_sock_env := "@nss" |}.
Definition granted_views : list BucketView :=
  [{| bucket_id := "1"; bucket_name := "home"; data_path := "/srv/home"; access := ReadWrite |};
   {| bucket_id := "2"; bucket_name := "etc"; data_path := "/srv/../etc"; access := ReadWrite |};
   {| bucket_id := "3"; bucket_name := "logs"; data_path := "/srv/logs"; access := ReadOnly |}].
Definition demo_started : option (list string * string * option string) :=
  match @spawn_worker demo_spawn demo_cfg demo_user granted_views "gw" with
  | Ok s => Some (cmd_args (s_command s), show_endpoint (h_endpoint (s_handle s)), s_links s !! "etc")
  | _ => None
  end.

(** A bucket outside the allowed roots is dropped, the others arrive. *)
Lemma worker_sees_granted_buckets_witness :
  demo_started = Some (["--user"; "alice"; "--rw"; "/run/roots/s32p-AK1-x1"; "--rw"; "/srv/home"; "--ro"; "/srv/logs";
                        "--rw"; "/run/s32p/1000-00c0ffee"; "--resolve-libs"; "--landlock-strict"; "--"; "/bin/gw"; "--listen";
                        "/run/s32p/1000-00c0ffee/gw.sock"], "/run/s32p/1000-00c0ffee/gw.sock", None) /\
  exists s, @spawn_worker demo_spawn demo_cfg demo_user granted_views "gw" = Ok s /\
    cmd_env (s_command s) !! "S32P_WORKER_TOKEN" = Some (h_worker_token (s_handle s)).
Proof.
  split; [vm_compute; reflexivity|].
  destruct (@spawn_worker demo_spawn demo_cfg demo_user granted_views "gw") as [s|e|] eqn:Es.
  - exists s. split; [reflexivity|]. apply (@worker_sees_granted_buckets demo_spawn demo_cfg demo_user granted_views "gw" s); [|exact Es].
    repeat constructor.
  - vm_compute in Es. discriminate Es.
  - vm_compute in Es. discriminate Es.
Defined.

Lemma spawn_worker_returns_witness : no_panic (@spawn_worker demo_spawn demo_cfg demo_user granted_views "gw").
Proof. apply (@spawn_worker_returns demo_spawn demo_cfg). intros i. reflexivity. Defined.

Definition tricky_vars : TemplateVars := {|
  v_username := "{{secret_key}}"; v_uid := 7%Z; v_gid := 8%Z; v_access_key := "AK"; v_secret_key := "S"; v_posix_root := "/r";
  v_endpoint := EpTcp 80; v_region := "r"; v_virtual_hosted_suffixes := ""; v_log_level := "info"; v_log_format := "text" |}.

Lemma template_filled_once_witness :
  render_template "u={{ username }},p={{bind_addr}}" tricky_vars = Ok "u={{secret_key}},p=127.0.0.1:80".
Proof.
  apply (template_filled_once tricky_vars ("u=", [(" username ", ",p="); ("bind_addr", "")])); [|reflexivity].
  split; [reflexivity|]. repeat constructor.
Defined.

Definition home_view (name path : string) : BucketView := {| bucket_id := "1"; bucket_name := name; data_path := path; access := ReadWrite |}.

Lemma fingerprint_exact_witness :
  hashed_snapshot demo_user (rev granted_views) = hashed_snapshot demo_user granted_views /\
  hashed_snapshot demo_user [home_view "a" "/srv/a"] <> hashed_snapshot demo_user [home_view "a" "/srv/b"].
Proof.
  split.
  - apply (fingerprint_exact demo_user demo_user (rev granted_views) granted_views).
    + apply (bool_decide_eq_true _). vm_compute. reflexivity.
    + split; [reflexivity|]. apply fmap_Permutation. symmetry. apply Permutation_rev.
  - intros H. discriminate H.
Defined.

(** A bucket that is renamed in the directory keeps its id, data path and
    levels, so that the fingerprint is the same although the staged root and
    the levels of a fresh worker would differ: the worker that runs is not
    replaced and goes on serving the old name. *)
Theorem renamed_bucket_unnoticed :
  hashed_snapshot demo_user [home_view "old" "/srv/home"] = hashed_snapshot demo_user [home_view "new" "/srv/home"] /\
  @stage_links demo_spawn [home_view "old" "/srv/home"] ∅ ∅ <> @stage_links demo_spawn [home_view "new" "/srv/home"] ∅ ∅ /\
  format_bucket_acl [home_view "old" "/srv/home"] <> format_bucket_acl [home_view "new" "/srv/home"].
Proof.
  split; [reflexivity|]. split; [|intros H; discriminate H].
  intros H. apply (f_equal (fun r => match r with Ok m => m !! "old" | _ => None end)) in H. vm_compute in H. discriminate H.
Qed.
