(* ===== verification/WorkerConfig.v ===== *)
(** * s32p-gateway/src/main.rs: the configuration a worker loads

    [load_cfg] reads the environment that [spawn_worker] of the proxy
    (Workers.v) wrote: the rendered variables of the profile, the fixed ones
    added to them, and the proxy's own environment, which the command
    inherits.  The theorem joins the two sides. *)

From Stdlib Require Import ZArith Lia Ascii.
From stdpp Require Import base list strings numbers option gmap.
From S2P Require Import Prelude RustStr Http Utils Directory BucketAcl Sessions Workers.

Local Open Scope s3_scope.
Local Open Scope string_scope.

Record Cfg := {
  c_bind_addr : string; c_bind_uds : option string; c_posix_root : string; c_access_key : string; c_secret_key : string; c_public_scheme : string;
  c_region : string; c_chunk_size : Z; c_inflight : Z; c_pool_size : Z; c_direct_io : bool; c_copy_max_size : Z; c_mpu_dir_name : string;
  c_lustre_max_stripe_count : Z; c_virtual_hosted_suffixes : list string; c_worker_token : string; c_bucket_acl : gmap string AccessLevel;
}.
Inductive cfg_error := VarMissing (name : string) | BadMpuDir (name : string).

Section Load.
Context (vars : gmap string string).

Definition env_bool (k : string) (d : bool) : bool :=
  match vars !! k with
  | Some v =>
      if bool_decide (v ∈ ["1"; "true"; "TRUE"; "yes"; "YES"]) then true
      else if bool_decide (v ∈ ["0"; "false"; "FALSE"; "no"; "NO"]) then false else d
  | None => d
  end.
Definition env_usize (k : string) (d : Z) : Z := default d (v ← vars !! k; parse_u64_str v).
Definition saturating_mul (a b : Z) : Z := Z.min (a * b) u64_max.

(** the check of [S32P_MPU_DIR] *)
Definition bad_mpu_dir (name : string) : bool :=
  is_empty name || (name =s ".") || (name =s "..") || contains_char "/" name || contains_char "\" name.
Definition suffix_list (s : string) : list string := filter (fun x => x <> "") (trim <$> split "," s).

Definition load_cfg : res cfg_error Cfg :=
  let bind_addr := default "127.0.0.1:0" (vars !! "S32P_BIND_ADDR") in
  posix_root ← ok_or (vars !! "S32P_POSIX_ROOT") (VarMissing "S32P_POSIX_ROOT");
  access_key ← ok_or (vars !! "AWS_ACCESS_KEY_ID") (VarMissing "AWS_ACCESS_KEY_ID");
  secret_key ← ok_or (vars !! "AWS_SECRET_ACCESS_KEY") (VarMissing "AWS_SECRET_ACCESS_KEY");
  let chunk_size := wrap64 (wrap64 (env_usize "S32P_CHUNK_SIZE_MB" 4 * 1024) * 1024) in
  let inflight := Z.max (env_usize "S32P_INFLIGHT" 16) 1 in
  let pool_size := Z.max (env_usize "S32P_POOL_SIZE" (Z.max (saturating_mul inflight 8) 1)) 1 in
  let copy_max_size := saturating_mul (Z.max (env_usize "S32P_COPY_MAX_SIZE_GB" 5) 1) (1024 * 1024 * 1024) in
  let mpu_dir_name := default ".s32p-mpu" (vars !! "S32P_MPU_DIR") in
  _ ← ensure (negb (bad_mpu_dir mpu_dir_name)) (BadMpuDir mpu_dir_name);
  Ok {| c_bind_addr := bind_addr; c_bind_uds := vars !! "S32P_BIND_UDS"; c_posix_root := posix_root; c_access_key := access_key; c_secret_key := secret_key;
        c_public_scheme := default "http" (vars !! "S32P_PUBLIC_SCHEME"); c_region := default "us-east-1" (vars !! "S32P_REGION");
        c_chunk_size := chunk_size; c_inflight := inflight; c_pool_size := pool_size; c_direct_io := env_bool "S32P_DIRECT_IO" false;
        c_copy_max_size := copy_max_size; c_mpu_dir_name := mpu_dir_name;
        c_lustre_max_stripe_count := Z.max (env_usize "S32P_LUSTRE_MAX_STRIPE_COUNT" 4) 1 mod 2 ^ 32;
        c_virtual_hosted_suffixes := match vars !! "S32P_VIRTUAL_HOSTED_SUFFIXES" with Some s => suffix_list s | None => [] end;
        c_worker_token := default "" (vars !! "S32P_WORKER_TOKEN");
        c_bucket_acl := match vars !! "S32P_BUCKET_ACL" with Some s => parse_bucket_acl s | None => ∅ end |}.
End Load.

(** ** What the proxy wrote *)
Lemma render_env_elem env vars renv k t : render_env env vars = Ok renv -> (k, t) ∈ env -> exists v, render_template t vars = Ok v /\ (k, v) ∈ renv.
Proof.
  revert renv. induction env as [|[k' t'] env IH]; intros renv E Hin; [by apply not_elem_of_nil in Hin|]. cbn in E.
  apply bind_ok_inv in E as (v & Ev & E). apply bind_ok_inv in E as (renv' & Er & [= <-]).
  apply elem_of_cons in Hin as [[= -> ->]|Hin]; [exists v; split; [done|by left]|].
  destruct (IH _ Er Hin) as (v' & ? & ?). exists v'. split; [done|by right].
Qed.
Lemma render_env_keys env vars renv : render_env env vars = Ok renv -> renv.*1 = env.*1.
Proof.
  revert renv. induction env as [|[k t] env IH]; intros renv E; cbn in E; [by injection E as <-|].
  apply bind_ok_inv in E as (v & Ev & E). apply bind_ok_inv in E as (renv' & Er & [= <-]). cbn. f_equal. by apply IH.
Qed.
Lemma foldl_insert_lookup (l : list (string * string)) (m : gmap string string) k :
  NoDup l.*1 -> foldl (fun m kv => <[kv.1 := kv.2]> m) m l !! k = match (list_to_map l : gmap string string) !! k with Some v => Some v | None => m !! k end.
Proof.
  revert m. induction l as [|[k' v'] l IH]; intros m Hnd; cbn [foldl fst snd]; [cbn; by rewrite lookup_empty|].
  apply list.NoDup_cons in Hnd as [Hni Hnd]. rewrite IH by done. rewrite list_to_map_cons. destruct (decide (k = k')) as [->|Hne].
  - rewrite lookup_insert_eq. rewrite (not_elem_of_list_to_map_1 l k') by done. by rewrite lookup_insert_eq.
  - by rewrite !lookup_insert_ne.
Qed.
Lemma profile_variable env vars renv k t v : NoDup env.*1 -> render_env env vars = Ok renv -> (k, t) ∈ env -> render_template t vars = Ok v ->
  foldl (fun m kv => <[kv.1 := kv.2]> m) (∅ : gmap string string) renv !! k = Some v.
Proof.
  intros Hnd Er Hin Et. pose proof (render_env_keys _ _ _ Er) as Ek. destruct (render_env_elem _ _ _ _ _ Er Hin) as (v' & Ev' & Hv').
  assert (v' = v) as -> by congruence. rewrite foldl_insert_lookup by (by rewrite Ek). rewrite (elem_of_list_to_map_1 renv k v); [done|by rewrite Ek|done].
Qed.
Lemma str_app_nil (s : string) : s +:+ "" = s.
Proof. induction s as [|c s IH]; cbn; [done|]. by rewrite IH. Qed.

(** The variables of the gateway profile in the shipped etc/s32p-proxy.yaml that carry templates *)
Definition gateway_templates : list (string * string) :=
  [("S32P_BIND_UDS", "{{bind_uds}}"); ("S32P_POSIX_ROOT", "{{posix_root}}"); ("AWS_ACCESS_KEY_ID", "{{access_key}}");
   ("AWS_SECRET_ACCESS_KEY", "{{secret_key}}"); ("S32P_REGION", "{{region}}"); ("S32P_VIRTUAL_HOSTED_SUFFIXES", "{{virtual_hosted_suffixes}}")].
Definition template_of (vars : TemplateVars) (k : string) : option string :=
  if k =s "S32P_BIND_UDS" then Some (show_endpoint (v_endpoint vars)) else if k =s "S32P_POSIX_ROOT" then Some (v_posix_root vars)
  else if k =s "AWS_ACCESS_KEY_ID" then Some (v_access_key vars) else if k =s "AWS_SECRET_ACCESS_KEY" then Some (v_secret_key vars)
  else if k =s "S32P_REGION" then Some (v_region vars) else if k =s "S32P_VIRTUAL_HOSTED_SUFFIXES" then Some (v_virtual_hosted_suffixes vars) else None.
Lemma render_token vars t name v : split_at_str "{{" t = Some ("", name +:+ "}}") -> split_at_str "}}" (name +:+ "}}") = Some (name, "") ->
  token_value vars (trim name) = Some v -> render_template t vars = Ok v.
Proof.
  intros E1 E2 E3. unfold render_template. destruct (String.length t) as [|n] eqn:El; [by destruct t|].
  cbn [render_loop]. rewrite E1, E2, E3. cbn [render_loop].
  replace (split_at_str "{{" "") with (None : option (string * string)) by reflexivity. by rewrite !str_app_nil.
Qed.
Lemma gateway_rendered vars k t : (k, t) ∈ gateway_templates -> exists v, template_of vars k = Some v /\ render_template t vars = Ok v.
Proof.
  unfold gateway_templates. rewrite !elem_of_cons.
  intros [[= -> ->]|[[= -> ->]|[[= -> ->]|[[= -> ->]|[[= -> ->]|[[= -> ->]|H]]]]]]; [..|by apply not_elem_of_nil in H].
  1: eexists; split; [reflexivity|]; by apply (render_token _ _ "bind_uds").
  1: eexists; split; [reflexivity|]; by apply (render_token _ _ "posix_root").
  1: eexists; split; [reflexivity|]; by apply (render_token _ _ "access_key").
  1: eexists; split; [reflexivity|]; by apply (render_token _ _ "secret_key").
  1: eexists; split; [reflexivity|]; by apply (render_token _ _ "region").
  eexists; split; [reflexivity|]; by apply (render_token _ _ "virtual_hosted_suffixes").
Qed.

Definition clean_suffix (x : string) : Prop := trim x = x /\ x <> "" /\ contains_char "," x = false.
Lemma suffixes_read l : Forall clean_suffix l -> suffix_list (join "," l) = l.
Proof.
  intros Hl. unfold suffix_list. destruct l as [|x l]; [done|]. rewrite split_join; [|done|].
  - induction Hl as [|y l' (Ht & He & _) _ IH]; [done|]. cbn [fmap list_fmap]. rewrite Ht, filter_cons, decide_True by done. f_equal. exact IH.
  - eapply Forall_impl; [exact Hl|]. by intros y (_ & _ & ?).
Qed.

Section Spawned.
Context {E : SpawnEnv} (cfg : SpawnConfig).

Lemma spawn_env_inv user buckets profile_name s : spawn_worker cfg user buckets profile_name = Ok s ->
  exists profile renv, profiles cfg !! profile_name = Some profile /\
    render_env (env profile) (template_vars cfg user (h_posix_root (s_handle s)) (h_endpoint (s_handle s))) = Ok renv /\
    cmd_env (s_command s) = worker_env cfg renv (allowed_buckets cfg buckets) /\ h_worker_token (s_handle s) = gen_worker_token.
Proof.
  unfold spawn_worker. intros (profile & Hp%ok_or_ok_inv & H)%bind_ok_inv.
  apply bind_ok_inv in H as ([root links] & Hs & H). apply bind_ok_inv in H as (_ & _ & H).
  apply bind_ok_inv in H as (endpoint & _ & H). apply bind_ok_inv in H as (rargs & _ & H). apply bind_ok_inv in H as (renv & Hr & H).
  apply bind_ok_inv in H as (_ & _ & H). apply bind_ok_inv in H as (_ & _ & [= <-]). by exists profile, renv.
Qed.
Definition fixed_names : list string := ["S32P_LOG_UTC_OFFSET_SECS"; "S32P_BUCKET_ACL"; "S32P_WORKER_TOKEN"; "S32P_NSS_PROXY_SOCK"].
Lemma worker_env_profile renv bs k : k ∉ fixed_names ->
  worker_env cfg renv bs !! k = foldl (fun m kv => <[kv.1 := kv.2]> m) (∅ : gmap string string) renv !! k.
Proof.
  unfold fixed_names, worker_env. intros H. rewrite !not_elem_of_cons in H. cbn zeta. by rewrite !lookup_insert_ne by (intros <-; tauto).
Qed.
Lemma worker_env_fixed renv bs : worker_env cfg renv bs !! "S32P_WORKER_TOKEN" = Some gen_worker_token /\
  worker_env cfg renv bs !! "S32P_BUCKET_ACL" = Some (format_bucket_acl bs).
Proof.
  unfold worker_env. cbn zeta. split; [rewrite lookup_insert_ne by done; apply lookup_insert_eq|].
  do 2 rewrite lookup_insert_ne by done. apply lookup_insert_eq.
Qed.

(** A profile for the gateway: the templates of the shipped one among its
    variables, which do not move the multipart directory *)
Definition gateway_profile (p : WorkerProfile) : Prop :=
  NoDup (env p).*1 /\ ("S32P_MPU_DIR" ∉ (env p).*1) /\ forall kt, kt ∈ gateway_templates -> kt ∈ env p.
Lemma gateway_variable user root endpoint p renv bs k :
  gateway_profile p -> render_env (env p) (template_vars cfg user root endpoint) = Ok renv -> k ∈ gateway_templates.*1 ->
  worker_env cfg renv bs !! k = template_of (template_vars cfg user root endpoint) k.
Proof.
  intros (Hnd & _ & Hin) Er ([k' t] & -> & Hk)%list_elem_of_fmap. cbn. destruct (gateway_rendered (template_vars cfg user root endpoint) _ _ Hk) as (v & -> & Ev).
  rewrite worker_env_profile; [by eapply profile_variable; eauto|].
  assert (k' ∈ gateway_templates.*1) as Hk' by (apply list_elem_of_fmap; by exists (k', t)). clear -Hk'. unfold gateway_templates, fixed_names in *. cbn in Hk'. set_solver.
Qed.
Lemma no_mpu_dir user root endpoint p renv bs :
  gateway_profile p -> render_env (env p) (template_vars cfg user root endpoint) = Ok renv -> worker_env cfg renv bs !! "S32P_MPU_DIR" = None.
Proof.
  intros (Hnd & Hm & _) Er. rewrite worker_env_profile by (unfold fixed_names; set_solver). pose proof (render_env_keys _ _ _ Er) as Ek.
  rewrite foldl_insert_lookup by (by rewrite Ek). rewrite (not_elem_of_list_to_map_1 renv "S32P_MPU_DIR") by (by rewrite Ek). apply lookup_empty.
Qed.
End Spawned.

(** ** Properties *)

(** C18. A worker loads what the proxy gave it.  Whatever environment the
    proxy itself runs in (as long as it does not move the multipart
    directory), when [spawn_worker] succeeds on a profile with the gateway's
    variables, [load_cfg] of the started worker succeeds, and the worker
    serves the staged root of this user, verifies requests with the user's
    keys, trusts the token of the handle, holds for every staged bucket exactly
    the level the directory grants and no level for any other name (for bucket
    names the directory accepts), listens where the proxy will connect, uses the proxy's
    region and virtual-host suffixes, and has at least one buffer. *)
Theorem worker_configured `{SpawnEnv} (cfg : SpawnConfig) (user : UserDoc) (buckets : list BucketView) (profile_name : string) (p : WorkerProfile)
    (s : spawned) (inherited : gmap string string) :
  profiles cfg !! profile_name = Some p -> gateway_profile p -> Forall clean_suffix (virtual_hosted_suffixes cfg) ->
  inherited !! "S32P_MPU_DIR" = None -> valid_names buckets -> spawn_worker cfg user buckets profile_name = Ok s ->
  exists c, load_cfg (cmd_env (s_command s) ∪ inherited) = Ok c /\
    c_posix_root c = h_posix_root (s_handle s) /\ c_access_key c = user_access_key user /\ c_secret_key c = user_secret_key user /\
    c_worker_token c = h_worker_token (s_handle s) /\ granted_levels cfg buckets (s_links s) (c_bucket_acl c) /\
    c_bind_uds c = Some (show_endpoint (h_endpoint (s_handle s))) /\ c_region c = region cfg /\
    c_virtual_hosted_suffixes c = virtual_hosted_suffixes cfg /\ (1 <= c_inflight c /\ 1 <= c_pool_size c)%Z /\ bad_mpu_dir (c_mpu_dir_name c) = false.
Proof.
  intros Hp Hg Hsuf Hmpu Hnames Hspawn. pose proof (spawned_levels cfg user buckets profile_name s Hnames Hspawn) as Hlev.
  destruct (spawn_env_inv cfg _ _ _ _ Hspawn) as (p' & renv & Hp' & Hr & He & Htok). assert (p' = p) as -> by congruence. rewrite He.
  destruct (worker_env_fixed cfg renv (allowed_buckets cfg buckets)) as [Htoken Hacl].
  set (e := worker_env cfg renv (allowed_buckets cfg buckets)) in *. set (vars := e ∪ inherited).
  assert (forall k v, e !! k = Some v -> vars !! k = Some v) as Hu by (intros; by apply lookup_union_Some_l).
  assert (forall k v, k ∈ gateway_templates.*1 -> template_of (template_vars cfg user (h_posix_root (s_handle s)) (h_endpoint (s_handle s))) k = Some v -> vars !! k = Some v) as Ht.
  { intros k v Hk Ev. apply Hu. unfold e. by erewrite gateway_variable. }
  assert (vars !! "S32P_MPU_DIR" = None) as Hm by (apply lookup_union_None; split; [by eapply no_mpu_dir|done]).
  unfold load_cfg.
  rewrite (Ht "S32P_POSIX_ROOT" _ ltac:(set_solver) eq_refl), (Ht "AWS_ACCESS_KEY_ID" _ ltac:(set_solver) eq_refl),
    (Ht "AWS_SECRET_ACCESS_KEY" _ ltac:(set_solver) eq_refl), (Ht "S32P_BIND_UDS" _ ltac:(set_solver) eq_refl), (Ht "S32P_REGION" _ ltac:(set_solver) eq_refl),
    (Ht "S32P_VIRTUAL_HOSTED_SUFFIXES" _ ltac:(set_solver) eq_refl), Hm, (Hu _ _ Htoken), (Hu _ _ Hacl). cbn [ok_or mbind res_bind].
  eexists. split; [reflexivity|]. cbn. split_and!; try done; [by apply suffixes_read|lia..].
Qed.

(** A chunk size of zero is accepted, from [0] and from a number of
    megabytes whose product wraps around. *)
Lemma zero_chunk_accepted (vars : gmap string string) (v : string) (c : Cfg) :
  vars !! "S32P_CHUNK_SIZE_MB" = Some v -> (v = "0" \/ v = "17592186044416") -> load_cfg vars = Ok c -> c_chunk_size c = 0%Z.
Proof.
  intros Ev Hv (? & _ & H)%bind_ok_inv. apply bind_ok_inv in H as (? & _ & H). apply bind_ok_inv in H as (? & _ & H). apply bind_ok_inv in H as (? & _ & [= <-]).
  cbn. unfold env_usize. rewrite Ev. by destruct Hv as [-> | ->].
Qed.
(** A worker without a token starts. *)
Lemma token_optional (vars : gmap string string) (c : Cfg) : vars !! "S32P_WORKER_TOKEN" = None -> load_cfg vars = Ok c -> c_worker_token c = "".
Proof.
  intros Ev (? & _ & H)%bind_ok_inv. apply bind_ok_inv in H as (? & _ & H). apply bind_ok_inv in H as (? & _ & H). apply bind_ok_inv in H as (? & _ & [= <-]).
  cbn. by rewrite Ev.
Qed.

(** ** Witness *)
Definition gateway_demo_profile : WorkerProfile :=
  {| exec := "/bin/gw"; args := []; kind := UpUds; uds_run_dir := Some "/run/s32p"; env := (gateway_templates ++ [("S32P_POOL_SIZE", "0")])%list |}.
Definition gateway_demo_cfg : SpawnConfig := {|
  posix_root := "/run/roots"; allowed_data_path_roots := ["/srv"];
  launcher := {| launcher_path := "/bin/launch"; pass_user_flag_if_root := true; landlock := true; landlock_strict := true |};
  profiles := {["gw" := gateway_demo_profile]}; region := "r1"; virtual_hosted_suffixes := ["s3.example"; "s3.local"];
  log_level := None; log_format := None; nss_sock_env := "@nss" |}.
Definition gateway_demo_spawned : res spawn_error spawned := @spawn_worker demo_spawn gateway_demo_cfg demo_user granted_views "gw".

Lemma worker_configured_witness : exists s c, gateway_demo_spawned = Ok s /\
  load_cfg (cmd_env (s_command s) ∪ {["AWS_ACCESS_KEY_ID" := "proxy"]}) = Ok c /\ c_access_key c = user_access_key demo_user /\
  c_virtual_hosted_suffixes c = ["s3.example"; "s3.local"] /\ granted_levels gateway_demo_cfg granted_views (s_links s) (c_bucket_acl c).
Proof.
  destruct gateway_demo_spawned as [s|e|] eqn:Es; [|vm_compute in Es; discriminate Es..].
  destruct (@worker_configured demo_spawn gateway_demo_cfg demo_user granted_views "gw" gateway_demo_profile s {["AWS_ACCESS_KEY_ID" := "proxy"]})
    as (c & E & _ & Ea & _ & _ & El & _ & _ & Ev & _).
  - reflexivity.
  - split_and!.
    + apply (bool_decide_unpack _). vm_compute. exact I.
    + apply (bool_decide_unpack _). vm_compute. exact I.
    + intros kt Hk. apply elem_of_app. by left.
  - repeat (apply list.Forall_cons; split; [split_and!; [reflexivity|discriminate|reflexivity]|]). constructor.
  - reflexivity.
  - repeat (apply list.Forall_cons; split; [reflexivity|]). constructor.
  - exact Es.
  - exists s, c. split_and!; [reflexivity|exact E|exact Ea|exact Ev|exact El].
Defined.
