(* ===== verification/WorkerSlots.v ===== *)
(** * s32p-proxy/src/worker_manager.rs: the slots of the workers

    [get_running], [ensure_running], [retire_worker] and the removals of
    [sweep_once], as concurrent tasks over the map of slots.  A step is what a
    task does between two points at which others may run: one access to the
    map, or one critical section of a slot's mutex.  Waking the waiters of a
    [Notify] reaches the tasks that have called [notified()] by then; a task
    that is about to call it is not among them.  The shard locks that some of
    these functions hold across an [await] are not modelled: they only exclude
    interleavings. *)

From Stdlib Require Import ZArith Lia.
From stdpp Require Import base list strings numbers option gmap fin_maps fin_map_dom.
From S2P Require Import Prelude Workers.

(** [SlotState]; the slot itself is shared, tasks hold it by its number. *)
Inductive SlotState := Stopped | Starting | Running (h : WorkerHandle).

(** Where a task is.  [En...] are the places of [ensure_running], [Gr...]
    those of [get_running] and of the sweeper. *)
Inductive task :=
| EnEntry (k : WorkerKey)
| EnFast (k : WorkerKey) (slot : nat)
| EnClaim (k : WorkerKey) (slot : nat)
| EnWait (k : WorkerKey) (slot : nat)
| EnListening (k : WorkerKey) (slot : nat)
| EnSpawning (k : WorkerKey) (slot : nat)
| EnDone (k : WorkerKey) (h : WorkerHandle)
| EnFailed (k : WorkerKey)
| GrGet (k : WorkerKey)
| GrTerminate (k : WorkerKey) (h : WorkerHandle)
| GrRemove (k : WorkerKey)
| GrDone (k : WorkerKey) (h : option WorkerHandle).

Record slots_state := {
  slots : gmap WorkerKey nat;
  cells : gmap nat SlotState;
  alive : gset nat;
  tasks : gmap nat task;
  next_process : nat;
}.

(** [slot.notify.notify_waiters()] *)
Definition wake (slot : nat) (t : task) : task :=
  match t with
  | EnListening k s => if Nat.eqb s slot then EnFast k s else t
  | _ => t
  end.
Definition notify_waiters (slot : nat) (ts : gmap nat task) : gmap nat task := wake slot <$> ts.

Definition set_task (t : nat) (x : task) (s : slots_state) : slots_state :=
  {| slots := slots s; cells := cells s; alive := alive s; tasks := <[t := x]> (tasks s); next_process := next_process s |}.
Definition set_cell (slot : nat) (c : SlotState) (s : slots_state) : slots_state :=
  {| slots := slots s; cells := <[slot := c]> (cells s); alive := alive s; tasks := tasks s; next_process := next_process s |}.
Definition set_slots (m : gmap WorkerKey nat) (s : slots_state) : slots_state :=
  {| slots := m; cells := cells s; alive := alive s; tasks := tasks s; next_process := next_process s |}.
Definition wake_all (slot : nat) (s : slots_state) : slots_state :=
  {| slots := slots s; cells := cells s; alive := alive s; tasks := notify_waiters slot (tasks s); next_process := next_process s |}.
Definition kill (p : nat) (s : slots_state) : slots_state :=
  {| slots := slots s; cells := cells s; alive := alive s ∖ {[p]}; tasks := tasks s; next_process := next_process s |}.
Definition boot (p : nat) (s : slots_state) : slots_state :=
  {| slots := slots s; cells := cells s; alive := {[p]} ∪ alive s; tasks := tasks s; next_process := S p |}.

Definition is_alive (h : WorkerHandle) (s : slots_state) : bool := bool_decide (spawn_id h ∈ alive s).

(** The handle of a running slot *)
Definition running_in (c : option SlotState) : option WorkerHandle := match c with Some (Running h) => Some h | _ => None end.
Definition current (k : WorkerKey) (s : slots_state) : option WorkerHandle := slots s !! k ≫= fun slot => running_in (cells s !! slot).

(** What task [t] does next, in the places where it needs nobody.  The fast
    path and the claim are two critical sections of [ensure_running]. *)
Definition advance (t : nat) (s : slots_state) : option slots_state :=
  x ← tasks s !! t;
  match x with
  | EnEntry k =>
      match slots s !! k with
      | Some slot => Some (set_task t (EnFast k slot) s)
      | None => let slot := fresh (dom (cells s)) in
                Some (set_task t (EnFast k slot) (set_slots (<[k := slot]> (slots s)) (set_cell slot Stopped s)))
      end
  | EnFast k slot =>
      match running_in (cells s !! slot) with
      | Some h => Some (set_task t (if is_alive h s then EnDone k h else EnClaim k slot) s)
      | None => Some (set_task t (EnClaim k slot) s)
      end
  | EnClaim k slot =>
      match cells s !! slot with
      | Some Stopped => Some (set_task t (EnSpawning k slot) (set_cell slot Starting s))
      | _ => Some (set_task t (EnWait k slot) s)
      end
  | EnWait k slot => Some (set_task t (EnListening k slot) s)
  | EnListening _ _ | EnSpawning _ _ | EnDone _ _ | EnFailed _ | GrDone _ _ => None
  | GrGet k =>
      match current k s with
      | None => Some (set_task t (GrDone k None) s)
      | Some h => Some (set_task t (if is_alive h s then GrDone k (Some h) else GrTerminate k h) s)
      end
  | GrTerminate k h => Some (set_task t (GrRemove k) (kill (spawn_id h) s))
  | GrRemove k => Some (set_task t (GrDone k None) (set_slots (delete k (slots s)) s))
  end.

(** The end of [spawn_worker] for task [t]; a worker that has started has the
    key it was started for. *)
Definition spawn_ends (t : nat) (k : WorkerKey) (slot : nat) (h : option WorkerHandle) (s : slots_state) : slots_state :=
  match h with
  | Some h => set_task t (EnDone k h) (wake_all slot (set_cell slot (Running h) (boot (spawn_id h) s)))
  | None => set_task t (EnFailed k) (wake_all slot (set_cell slot Stopped s))
  end.

(** [retire_worker]: the slot is stopped if it still runs this worker. *)
Definition retire (k : WorkerKey) (h : WorkerHandle) (s : slots_state) : slots_state :=
  match slots s !! k with
  | Some slot =>
      match running_in (cells s !! slot) with
      | Some h' => if decide (h' = h) then wake_all slot (set_cell slot Stopped s) else s
      | None => s
      end
  | None => s
  end.

Inductive slot_step : slots_state -> slots_state -> Prop :=
| Arrives s t x : tasks s !! t = None -> (exists k, x = EnEntry k \/ x = GrGet k) -> slot_step s (set_task t x s)
| Advances s t s' : advance t s = Some s' -> slot_step s s'
| Spawned s t k slot h : tasks s !! t = Some (EnSpawning k slot) ->
    (forall h', h = Some h' -> h_key h' = k /\ spawn_id h' = next_process s) -> slot_step s (spawn_ends t k slot h s)
| Sweeps s t k h : tasks s !! t = None -> current k s = Some h -> slot_step s (set_task t (GrTerminate k h) s)
| Dies s p : slot_step s (kill p s).

Inductive retire_step : slots_state -> slots_state -> Prop :=
| Retires s k h : retire_step s (retire k h s).

Definition any_step (s s' : slots_state) : Prop := slot_step s s' \/ retire_step s s'.

Definition no_workers : slots_state := {| slots := ∅; cells := ∅; alive := ∅; tasks := ∅; next_process := 0 |}.

(** ** One start at a time *)

(** The slot a task is at, with its key *)
Definition at_slot (x : task) : option (WorkerKey * nat) :=
  match x with
  | EnFast k s | EnClaim k s | EnWait k s | EnListening k s | EnSpawning k s => Some (k, s)
  | _ => None
  end.
Definition handed (x : task) : option (WorkerKey * WorkerHandle) :=
  match x with EnDone k h | GrDone k (Some h) | GrTerminate k h => Some (k, h) | _ => None end.

(** [owner] gives every slot the key it was made for. *)
Record slots_ok (owner : gmap nat WorkerKey) (s : slots_state) : Prop := {
  owned : dom owner = dom (cells s);
  slots_owned : forall k slot, slots s !! k = Some slot -> owner !! slot = Some k;
  tasks_owned : forall t x k slot, tasks s !! t = Some x -> at_slot x = Some (k, slot) -> owner !! slot = Some k;
  running_owned : forall slot h, cells s !! slot = Some (Running h) -> owner !! slot = Some (h_key h);
  handed_owned : forall t x k h, tasks s !! t = Some x -> handed x = Some (k, h) -> h_key h = k;
  starting_one : forall slot, cells s !! slot = Some Starting <-> exists t k, tasks s !! t = Some (EnSpawning k slot);
  spawning_one : forall t t' k k' slot, tasks s !! t = Some (EnSpawning k slot) -> tasks s !! t' = Some (EnSpawning k' slot) -> t = t';
}.

Definition spawns (x : task) (slot : nat) : Prop := exists k, x = EnSpawning k slot.

Lemma ok_set_task owner s t x :
  slots_ok owner s -> (forall k slot, at_slot x = Some (k, slot) -> owner !! slot = Some k) ->
  (forall k h, handed x = Some (k, h) -> h_key h = k) -> (forall slot, ~ spawns x slot) ->
  (forall y slot, tasks s !! t = Some y -> ~ spawns y slot) -> slots_ok owner (set_task t x s).
Proof.
  intros [H1 H2 H3 H4 H5 H6 H7] Ha Hh Hx Hy. split; cbn; auto.
  - intros t' x' k slot [[<- <-]|[_ Ht]]%lookup_insert_Some; eauto.
  - intros t' x' k h [[<- <-]|[_ Ht]]%lookup_insert_Some; eauto.
  - intros slot. rewrite H6. split; intros (t' & k & Ht).
    + exists t', k. rewrite lookup_insert_ne; [done|]. intros <-. eapply Hy; [done|]. by exists k.
    + apply lookup_insert_Some in Ht as [[_ ->]|[_ Ht]]; [destruct (Hx slot); by exists k|eauto].
  - intros t1 t2 k1 k2 slot [[_ ->]|[_ Ht1]]%lookup_insert_Some; [destruct (Hx slot); by exists k1|].
    intros [[_ ->]|[_ Ht2]]%lookup_insert_Some; [destruct (Hx slot); by exists k2|]. eauto.
Qed.

Lemma ok_same owner s s' : slots_ok owner s -> slots s' = slots s -> cells s' = cells s -> tasks s' = tasks s -> slots_ok owner s'.
Proof. intros [] E1 E2 E3. split; rewrite ?E1, ?E2, ?E3; auto. Qed.

Lemma ok_delete owner s k : slots_ok owner s -> slots_ok owner (set_slots (delete k (slots s)) s).
Proof. intros [H1 H2 H3 H4 H5 H6 H7]. split; cbn; auto. intros k' slot [_ Hk]%lookup_delete_Some. auto. Qed.

Lemma wake_at slot x : at_slot (wake slot x) = at_slot x /\ handed (wake slot x) = handed x.
Proof. destruct x; cbn; try done. by destruct (_ =? _)%nat. Qed.
Lemma wake_spawning slot x k s : wake slot x = EnSpawning k s <-> x = EnSpawning k s.
Proof. destruct x; cbn; try done. destruct (_ =? _)%nat; split; intros [=]. Qed.

Lemma ok_wake owner s slot : slots_ok owner s -> slots_ok owner (wake_all slot s).
Proof.
  intros [H1 H2 H3 H4 H5 H6 H7].
  assert (forall t x, notify_waiters slot (tasks s) !! t = Some x <-> exists y, tasks s !! t = Some y /\ x = wake slot y) as Hn.
  { intros t x. unfold notify_waiters. rewrite lookup_fmap. destruct (tasks s !! t); cbn; naive_solver. }
  assert (forall t k s', notify_waiters slot (tasks s) !! t = Some (EnSpawning k s') <-> tasks s !! t = Some (EnSpawning k s')) as Hs.
  { intros t k s'. rewrite Hn. split; [|intros H; exists (EnSpawning k s'); done]. intros (y & Hy & E). symmetry in E. apply wake_spawning in E. by subst. }
  split; cbn; auto.
  - intros t x k s' (y & Hy & ->)%Hn. rewrite (proj1 (wake_at slot y)). eauto.
  - intros t x k h (y & Hy & ->)%Hn. rewrite (proj2 (wake_at slot y)). eauto.
  - intros s'. rewrite H6. split; intros (t & k & Ht); exists t, k; by apply Hs.
  - intros t t' k k' s' Ht%Hs Ht'%Hs. eauto.
Qed.

(** A slot nobody spawns for is made, or its state changes. *)
Lemma ok_set_cell owner s slot c :
  slots_ok owner s -> cells s !! slot <> Some Starting -> c <> Starting -> (forall h, c <> Running h) -> slot ∈ dom owner ->
  slots_ok owner (set_cell slot c s).
Proof.
  intros [H1 H2 H3 H4 H5 H6 H7] Hn Hc Hr Hd. split; cbn; auto.
  - rewrite dom_insert_L, <- H1. set_solver.
  - intros s' h [[_ E]|[_ Hs]]%lookup_insert_Some; [by destruct (Hr h)|auto].
  - intros s'. rewrite <- H6. destruct (decide (slot = s')) as [<-|Hne]; [rewrite lookup_insert_eq|by rewrite lookup_insert_ne].
    split; [intros [=]|]; done.
Qed.

Lemma ok_new_slot owner s k :
  slots_ok owner s -> let slot := fresh (dom (cells s)) in
  slots s !! k = None ->
  slots_ok (<[slot := k]> owner) (set_slots (<[k := slot]> (slots s)) (set_cell slot Stopped s)).
Proof.
  intros [H1 H2 H3 H4 H5 H6 H7] slot Hk. assert (slot ∉ dom (cells s)) as Hf by apply is_fresh.
  assert (owner !! slot = None) as Ho by (apply not_elem_of_dom; by rewrite H1).
  assert (forall s' k', owner !! s' = Some k' -> <[slot := k]> owner !! s' = Some k') as Hmono
    by (intros s' k' Hs; rewrite lookup_insert_ne; [done|intros <-; congruence]).
  split; cbn.
  - by rewrite !dom_insert_L, H1.
  - intros k' s' [[<- <-]|[_ Hs]]%lookup_insert_Some; [apply lookup_insert_eq|auto].
  - intros. eauto.
  - intros s' h [[_ [=]]|[_ Hs]]%lookup_insert_Some. auto.
  - auto.
  - intros s'. rewrite <- H6. destruct (decide (slot = s')) as [<-|Hne]; [|by rewrite lookup_insert_ne].
    rewrite lookup_insert_eq. split; [done|]. intros Hs. destruct Hf. apply elem_of_dom. by exists Starting.
  - auto.
Qed.

Lemma ok_claim owner s t k slot :
  slots_ok owner s -> tasks s !! t = Some (EnClaim k slot) -> cells s !! slot = Some Stopped ->
  slots_ok owner (set_task t (EnSpawning k slot) (set_cell slot Starting s)).
Proof.
  intros [H1 H2 H3 H4 H5 H6 H7] Ht Hc.
  assert (forall t' k', tasks s !! t' = Some (EnSpawning k' slot) -> False) as Hno
    by (intros t' k' Ht'; assert (cells s !! slot = Some Starting) by (apply H6; eauto); congruence).
  split; cbn; auto.
  - rewrite dom_insert_L, H1. apply elem_of_dom_2 in Hc. set_solver.
  - intros t' x k' s' [[<- <-]|[_ Ht']]%lookup_insert_Some; [intros [= <- <-]; by eapply H3|eauto].
  - intros s' h [[_ [=]]|[_ Hs]]%lookup_insert_Some. auto.
  - intros t' x k' h [[<- <-]|[_ Ht']]%lookup_insert_Some; [done|eauto].
  - intros s'. destruct (decide (slot = s')) as [<-|Hne].
    + rewrite lookup_insert_eq. split; [|done]. intros _. exists t, k. apply lookup_insert_eq.
    + rewrite lookup_insert_ne, H6 by done. split; intros (t' & k' & Ht'); exists t', k'.
      * rewrite lookup_insert_ne; [done|congruence].
      * apply lookup_insert_Some in Ht' as [[_ [=]]|[_ ?]]; [congruence|done].
  - intros t1 t2 k1 k2 s' [[<- E1]|[Hn1 Ht1]]%lookup_insert_Some [[<- E2]|[Hn2 Ht2]]%lookup_insert_Some; [done| | |eauto].
    + injection E1 as <- <-. by apply Hno in Ht2.
    + injection E2 as <- <-. by apply Hno in Ht1.
Qed.

Lemma set_task_wake t x slot s : wake slot x = x -> set_task t x (wake_all slot s) = wake_all slot (set_task t x s).
Proof. intros Hx. unfold set_task, wake_all, notify_waiters. cbn. by rewrite fmap_insert, Hx. Qed.

Lemma ok_spawn_ends owner s t k slot h :
  slots_ok owner s -> tasks s !! t = Some (EnSpawning k slot) -> (forall h', h = Some h' -> h_key h' = k) ->
  slots_ok owner (spawn_ends t k slot h s).
Proof.
  intros Hok Ht Hh.
  assert (forall c x s0, s0 = set_cell slot c s -> tasks s0 = tasks s -> (forall h, c = Running h -> h_key h = k) -> c <> Starting ->
           at_slot x = None -> (forall k' h, handed x = Some (k', h) -> h_key h = k') -> slots_ok owner (set_task t x s0)) as Hend.
  { destruct Hok as [H1 H2 H3 H4 H5 H6 H7]. assert (owner !! slot = Some k) as Ho by (by eapply H3).
    intros c x s0 -> _ Hc Hcs Ha Hx. assert (forall s', ~ spawns x s') as Hns by (intros s' [k' ->]; done). split; cbn; auto.
    - rewrite dom_insert_L, <- H1. apply elem_of_dom_2 in Ho. set_solver.
    - intros t' y k' s' [[<- <-]|[_ Ht']]%lookup_insert_Some; [congruence|eauto].
    - intros s' h' [[<- ->]|[_ Hs]]%lookup_insert_Some; [by rewrite (Hc h')|auto].
    - intros t' y k' h' [[<- <-]|[_ Ht']]%lookup_insert_Some; eauto.
    - intros s'. destruct (decide (slot = s')) as [<-|Hne].
      + rewrite lookup_insert_eq. split; [intros [= ?]; done|]. intros (t' & k' & [[_ E]|[Hn Ht']]%lookup_insert_Some).
        * destruct (Hns slot). by exists k'.
        * destruct Hn. eauto.
      + rewrite lookup_insert_ne, H6 by done. split; intros (t' & k' & Ht'); exists t', k'.
        * rewrite lookup_insert_ne; [done|congruence].
        * apply lookup_insert_Some in Ht' as [[_ E]|[_ ?]]; [destruct (Hns s'); by exists k'|done].
    - intros t1 t2 k1 k2 s' [[_ E]|[_ Ht1]]%lookup_insert_Some; [destruct (Hns s'); by exists k1|].
      intros [[_ E]|[_ Ht2]]%lookup_insert_Some; [destruct (Hns s'); by exists k2|]. eauto. }
  unfold spawn_ends. destruct h as [h|]; rewrite set_task_wake by done; apply ok_wake.
  - apply (ok_same _ (set_task t (EnDone k h) (set_cell slot (Running h) s))); try done.
    eapply Hend; try done; [by intros h' [= <-]; apply Hh|by intros k' h' [= <- <-]; apply Hh].
  - eapply Hend; done.
Qed.

Lemma advance_ok owner s t s' : slots_ok owner s -> advance t s = Some s' -> exists owner', slots_ok owner' s'.
Proof.
  intros Hok Ha. unfold advance in Ha. destruct (tasks s !! t) as [x|] eqn:Ht; [|done]. cbn [mbind option_bind] in Ha.
  pose proof Hok as [H1 H2 H3 H4 H5 H6 H7].
  assert (forall y, (forall k slot, at_slot y = Some (k, slot) -> owner !! slot = Some k) ->
            (forall k h, handed y = Some (k, h) -> h_key h = k) -> (forall slot, ~ spawns y slot) -> (forall slot, ~ spawns x slot) ->
            slots_ok owner (set_task t y s)) as Hset.
  { intros y ????. apply ok_set_task; try done. intros z slot Hz. rewrite Ht in Hz. by injection Hz as <-. }
  assert (forall k slot, at_slot x = Some (k, slot) -> owner !! slot = Some k) as Hx by (intros; by eapply H3).
  assert (forall k h, current k s = Some h -> h_key h = k) as Hcur.
  { intros k h. unfold current. destruct (slots s !! k) as [slot|] eqn:Ek; [|done]. cbn.
    destruct (cells s !! slot) as [[| |h']|] eqn:Ec; intros [= <-]. apply H4 in Ec. apply H2 in Ek. congruence. }
  destruct x as [k|k slot|k slot|k slot|k slot|k slot|k h|k|k|k h|k|k o]; try discriminate Ha; cbn in Hx.
  - destruct (slots s !! k) as [slot|] eqn:Ek; injection Ha as <-.
    + exists owner. apply Hset; try done; [intros k' s' [= <- <-]; auto|by intros ? [? ?]|by intros ? [? ?]].
    + exists (<[fresh (dom (cells s)) := k]> owner). apply ok_set_task; try done; [by apply ok_new_slot|..].
      * intros k' s' [= <- <-]. apply lookup_insert_eq.
      * by intros ? [? ?].
      * intros y slot. cbn. rewrite Ht. intros [= <-] [? ?]. done.
  - exists owner. destruct (running_in (cells s !! slot)) as [h|] eqn:Er.
    + destruct (cells s !! slot) as [[| |h']|] eqn:Ec; try discriminate Er. injection Er as ->. apply H4 in Ec. rewrite (Hx k slot) in Ec by done.
      injection Ec as Ec. injection Ha as <-. destruct (is_alive h s); apply Hset; try done; try (by intros ? [? ?]). by intros k' h' [= <- <-].
    + injection Ha as <-. apply Hset; try done; by intros ? [? ?].
  - exists owner. assert (slots_ok owner (set_task t (EnWait k slot) s)) as Hw by (apply Hset; try done; by intros ? [? ?]).
    destruct (cells s !! slot) as [[| |h]|] eqn:Ec; injection Ha as <-; try done. by apply ok_claim.
  - injection Ha as <-. exists owner. apply Hset; try done; by intros ? [? ?].
  - exists owner. destruct (current k s) as [h|] eqn:Ec; injection Ha as <-.
    + destruct (is_alive h s); apply Hset; try done; try (by intros ? [? ?]); intros k' h' [= <- <-]; auto.
    + apply Hset; try done; by intros ? [? ?].
  - injection Ha as <-. exists owner. apply (ok_same _ (set_task t (GrRemove k) s)); try done. apply Hset; try done; by intros ? [? ?].
  - injection Ha as <-. exists owner. apply (ok_same _ (set_slots (delete k (slots s)) (set_task t (GrDone k None) s))); try done.
    apply (ok_delete _ (set_task t (GrDone k None) s)). apply Hset; try done; by intros ? [? ?].
Qed.

Lemma any_step_ok owner s s' : slots_ok owner s -> any_step s s' -> exists owner', slots_ok owner' s'.
Proof.
  intros Hok [Hs|Hs].
  - destruct Hs as [s t x Ht [k Hx]|s t s' Ha|s t k slot h Ht Hh|s t k h Ht Hc|s p].
    + exists owner. apply ok_set_task; try done; try (by destruct Hx as [-> | ->]); [by intros slot [? ?]; destruct Hx as [-> | ->]|by rewrite Ht].
    + by eapply advance_ok.
    + exists owner. apply ok_spawn_ends; try done. intros h' E. by apply Hh.
    + exists owner. apply ok_set_task; try done; [|by intros ? [? ?]|by rewrite Ht].
      intros k' h' [= <- <-]. destruct Hok as [_ H2 _ H4 _ _ _]. unfold current in Hc. destruct (slots s !! k) as [slot|] eqn:Ek; [|done].
      cbn in Hc. destruct (cells s !! slot) as [[| |h']|] eqn:Ec; try discriminate Hc. injection Hc as ->.
      apply H4 in Ec. apply H2 in Ek. congruence.
    + exists owner. by apply (ok_same _ s).
  - destruct Hs as [s k h]. exists owner. unfold retire. destruct (slots s !! k) as [slot|] eqn:Ek; [|done].
    destruct (cells s !! slot) as [[| |h']|] eqn:Ec; cbn; try done. case_decide; [|done]. apply ok_wake, ok_set_cell; try done; [congruence|].
    eapply elem_of_dom_2, (slots_owned _ _ Hok), Ek.
Qed.

Lemma reachable_slots_ok s : rtc any_step no_workers s -> exists owner, slots_ok owner s.
Proof.
  assert (slots_ok ∅ no_workers) as H0.
  { split; cbn; set_solver. }
  assert (exists owner, slots_ok owner no_workers) as Hok by eauto. revert Hok. clear H0. intros Hok Hs. revert Hok.
  induction Hs as [|s s1 s2 Hst _ IH]; [done|]. intros [o Ho]. apply IH. by eapply any_step_ok.
Qed.

(** C17. One worker is started at a time and handed to the right user.
    However requests, the sweeper, the reconciler and the deaths of processes
    interleave, at most one task starts a worker for a slot, precisely when
    the slot is marked as starting, and a worker that [ensure_running] or
    [get_running] hands out was started for the access key and the profile
    that were asked for. *)
Theorem worker_slots_safe (s : slots_state) :
  rtc any_step no_workers s ->
  (forall t t' k k' slot, tasks s !! t = Some (EnSpawning k slot) -> tasks s !! t' = Some (EnSpawning k' slot) -> t = t') /\
  (forall slot, cells s !! slot = Some Starting <-> exists t k, tasks s !! t = Some (EnSpawning k slot)) /\
  (forall t k h, tasks s !! t = Some (EnDone k h) \/ tasks s !! t = Some (GrDone k (Some h)) -> h_key h = k).
Proof.
  intros [owner [H1 H2 H3 H4 H5 H6 H7]]%reachable_slots_ok. split_and!; [done|done|].
  intros t k h [Ht|Ht]; by eapply H5.
Qed.

(** ** Waiting on a slot that runs

    The steps of other tasks, new requests, the sweeper and the deaths of
    processes leave such a slot and its waiters as they are; only the
    reconciler wakes them, when it retires this very worker. *)
Definition waits_on_running (t : nat) (k : WorkerKey) (slot : nat) (h : WorkerHandle) (s : slots_state) : Prop :=
  tasks s !! t = Some (EnListening k slot) /\ cells s !! slot = Some (Running h) /\
  forall t' k', tasks s !! t' <> Some (EnSpawning k' slot).

Lemma keeps_waiting t k slot h s t0 x :
  waits_on_running t k slot h s -> t0 <> t -> (forall k', x <> EnSpawning k' slot) -> waits_on_running t k slot h (set_task t0 x s).
Proof.
  intros (Ht & Hc & Hn) Hne Hx. split_and!; cbn; [by rewrite lookup_insert_ne|done|].
  intros t' k' [[_ E]|[_ ?]]%lookup_insert_Some; [by destruct (Hx k')|by apply (Hn t' k')].
Qed.

Lemma wait_other t k slot h s s' :
  waits_on_running t k slot h s -> tasks s' = tasks s -> cells s' !! slot = cells s !! slot -> waits_on_running t k slot h s'.
Proof. intros (Ht & Hc & Hn) E1 E2. unfold waits_on_running. by rewrite E1, E2. Qed.

Lemma spawn_waits t k slot h s t0 k0 slot0 h0 :
  waits_on_running t k slot h s -> tasks s !! t0 = Some (EnSpawning k0 slot0) -> waits_on_running t k slot h (spawn_ends t0 k0 slot0 h0 s).
Proof.
  intros (Ht & Hc & Hn) Ht0. assert (slot0 <> slot) as Hs by (intros ->; by apply (Hn t0 k0)). assert (t0 <> t) as Hne by congruence.
  assert (wake slot0 (EnListening k slot) = EnListening k slot) as Hw by (cbn; by rewrite (proj2 (Nat.eqb_neq _ _))).
  assert (forall x, (forall k', x <> EnSpawning k' slot) -> forall s1, tasks s1 = notify_waiters slot0 (tasks s) -> cells s1 !! slot = Some (Running h) ->
            waits_on_running t k slot h (set_task t0 x s1)) as Hgo.
  { intros x Hx s1 E1 E2. apply keeps_waiting; try done. split_and!; [|done|].
    - rewrite E1. unfold notify_waiters. by rewrite lookup_fmap, Ht; cbn [fmap option_fmap option_map]; rewrite Hw.
    - intros t' k'. rewrite E1. unfold notify_waiters. rewrite lookup_fmap. destruct (tasks s !! t') as [y|] eqn:Ey; [|done].
      cbn. intros [= E]. apply wake_spawning in E as ->. by apply (Hn t' k'). }
  unfold spawn_ends. destruct h0; apply Hgo; cbn; try done; by rewrite lookup_insert_ne.
Qed.

Lemma advance_waits t k slot h s t0 s' :
  waits_on_running t k slot h s -> advance t0 s = Some s' -> waits_on_running t k slot h s'.
Proof.
  intros Hw Ha. pose proof Hw as (Ht & Hc & Hn). unfold advance in Ha.
  destruct (decide (t0 = t)) as [->|Hne]; [by rewrite Ht in Ha|]. destruct (tasks s !! t0) as [x|] eqn:E0; [|done]. cbn [mbind option_bind] in Ha.
  destruct x as [k0|k0 s0|k0 s0|k0 s0|k0 s0|k0 s0|k0 h0|k0|k0|k0 h0|k0|k0 o]; try discriminate Ha.
  - destruct (slots s !! k0); injection Ha as <-; [by apply keeps_waiting|]. apply keeps_waiting; try done. apply (wait_other _ _ _ _ s); try done.
    cbn. rewrite lookup_insert_ne; [done|]. intros E. apply (is_fresh (dom (cells s))). rewrite E. apply elem_of_dom. by exists (Running h).
  - destruct (running_in _) as [h0|]; injection Ha as <-; apply keeps_waiting; try done. by destruct (is_alive h0 s).
  - destruct (cells s !! s0) as [[| |h0]|] eqn:Ec; injection Ha as <-; try by apply keeps_waiting.
    assert (s0 <> slot) as Hs by congruence. apply keeps_waiting; try done; [|congruence]. apply (wait_other _ _ _ _ s); try done. cbn. by rewrite lookup_insert_ne.
  - injection Ha as <-. by apply keeps_waiting.
  - destruct (current k0 s) as [h0|]; injection Ha as <-; apply keeps_waiting; try done. by destruct (is_alive h0 s).
  - injection Ha as <-. by apply keeps_waiting.
  - injection Ha as <-. by apply keeps_waiting.
Qed.

Lemma slot_step_waits t k slot h s s' : waits_on_running t k slot h s -> slot_step s s' -> waits_on_running t k slot h s'.
Proof.
  intros Hw Hst. pose proof Hw as (Ht & _ & _).
  destruct Hst as [s t0 x H0 [k0 Hx]|s t0 s' Ha|s t0 k0 slot0 h0 H0 _|s t0 k0 h0 H0 _|s p].
  - apply keeps_waiting; [done|congruence|by destruct Hx as [-> | ->]].
  - by eapply advance_waits.
  - by apply spawn_waits.
  - apply keeps_waiting; [done|congruence|done].
  - by apply (wait_other _ _ _ _ s).
Qed.

(** The reconciler retires another worker. *)
Lemma retire_waits t k slot h s k0 h0 :
  waits_on_running t k slot h s -> (slots s !! k0 = Some slot -> h0 <> h) -> waits_on_running t k slot h (retire k0 h0 s).
Proof.
  intros Hw Hother. pose proof Hw as (Ht & Hc & Hn). unfold retire. destruct (slots s !! k0) as [slot0|]; [|done].
  destruct (running_in (cells s !! slot0)) as [h'|] eqn:Er; [|done]. case_decide as Hh; [subst h'|done].
  assert (slot0 <> slot) as Hne by (intros ->; rewrite Hc in Er; injection Er as ->; by apply Hother).
  split_and!; cbn; [|by rewrite lookup_insert_ne|].
  - unfold notify_waiters. rewrite lookup_fmap, Ht. cbn. by rewrite (proj2 (Nat.eqb_neq _ _)).
  - intros t' k'. unfold notify_waiters. rewrite lookup_fmap. destruct (tasks s !! t') as [y|] eqn:Ey; [|done].
    cbn. intros [= E]. apply wake_spawning in E as ->. by apply (Hn t' k').
Qed.

(** No step but the retirement of [h] from [slot] *)
Definition unretired (slot : nat) (h : WorkerHandle) (s s' : slots_state) : Prop :=
  slot_step s s' \/ exists k0 h0, s' = retire k0 h0 s /\ (slots s !! k0 = Some slot -> h0 <> h).

(** A slot that has left the map does not come back. *)
Definition unlisted (slot : nat) (s : slots_state) : Prop := forall k0, slots s !! k0 <> Some slot.

Lemma unlisted_stays slot h s s' : cells s !! slot = Some (Running h) -> unlisted slot s -> any_step s s' -> unlisted slot s'.
Proof.
  intros Hc Hu [Hs|Hr]; [|destruct Hr as [s k0 h0]; unfold retire; repeat case_match; exact Hu].
  destruct Hs as [s t0 x H0 Hx|s t0 s' Ha|s t0 k0 slot0 h0 H0 _|s t0 k0 h0 H0 _|s p]; [done| |by destruct h0|done|done].
  unfold advance in Ha. destruct (tasks s !! t0) as [x|]; [|done]. cbn [mbind option_bind] in Ha.
  destruct x as [k0|k0 s0|k0 s0|k0 s0|k0 s0|k0 s0|k0 h0|k0|k0|k0 h0|k0|k0 o]; try discriminate Ha; repeat case_match; simplify_eq; try done.
  - intros k1. cbn. intros [[_ E]|[_ Hk]]%lookup_insert_Some; [|by apply (Hu k1)]. apply (is_fresh (dom (cells s))). rewrite E. by apply elem_of_dom_2 in Hc.
  - intros k1. cbn. intros [_ Hk]%lookup_delete_Some. by apply (Hu k1).
Qed.

(** C22. A waiter can be forgotten.  A task of [ensure_running] that waits on
    a slot whose worker runs, or has died, and for which nobody starts a
    worker waits through every further step of every other task, of the
    sweeper, of the processes and of the reconciler, until the reconciler
    retires this very worker from this very slot.  When the slot has left the
    map, as it does when the worker's death is noticed, the reconciler cannot
    reach it any more, and the task waits through every step there is. *)
Theorem waiter_forgotten (t : nat) (k : WorkerKey) (slot : nat) (h : WorkerHandle) (s s' : slots_state) :
  waits_on_running t k slot h s ->
  (rtc (unretired slot h) s s' -> tasks s' !! t = Some (EnListening k slot)) /\
  (unlisted slot s -> rtc any_step s s' -> tasks s' !! t = Some (EnListening k slot)).
Proof.
  intros Hw. split.
  - intros Hs. enough (waits_on_running t k slot h s') as (Ht & _) by done. revert Hw.
    induction Hs as [|s s1 s2 [Hst|(k0 & h0 & -> & Hst)] _ IH]; [done|..]; intros Hw; apply IH; [by eapply slot_step_waits|by apply retire_waits].
  - intros Hu Hs. enough (waits_on_running t k slot h s') as (Ht & _) by done. revert Hw Hu.
    induction Hs as [|s s1 s2 Hst _ IH]; [done|]. intros Hw Hu. pose proof Hw as (_ & Hc & _). apply IH; [|by eapply unlisted_stays].
    destruct Hst as [Hst|Hst]; [by eapply slot_step_waits|]. destruct Hst as [s k0 h0]. apply retire_waits; [done|]. intros E. by destruct (Hu k0).
Qed.

(** ** Three runs *)
Definition alice_key : WorkerKey := {| wk_access_key := "AK1"; wk_profile := "gw" |}.
Definition alice_worker (p : nat) : WorkerHandle := {|
  h_key := alice_key; h_username := "alice"; h_endpoint := EpTcp 4000; h_posix_root := "/r"; h_worker_token := "tok";
  h_spawn_fingerprint := 0; spawn_id := p |}.

(** A schedule: the next moves, checked against [slot_step] *)
Inductive move := Arrive (t : nat) (x : task) | Advance (t : nat) | Spawn (t : nat) | Death (p : nat).
Definition play (m : move) (s : slots_state) : option slots_state :=
  match m with
  | Arrive t x =>
      match tasks s !! t, x with
      | None, EnEntry _ | None, GrGet _ => Some (set_task t x s)
      | _, _ => None
      end
  | Advance t => advance t s
  | Spawn t =>
      match tasks s !! t with
      | Some (EnSpawning k slot) => if decide (k = alice_key) then Some (spawn_ends t k slot (Some (alice_worker (next_process s))) s) else None
      | _ => None
      end
  | Death p => Some (kill p s)
  end.
Definition schedule (ms : list move) : option slots_state := foldl (fun o m => s ← o; play m s) (Some no_workers) ms.

Lemma play_step m s s' : play m s = Some s' -> slot_step s s'.
Proof.
  destruct m as [t x|t|t|p]; cbn [play].
  - destruct (tasks s !! t) eqn:Et; [done|]. destruct x; intros [= <-]; apply Arrives; eauto.
  - apply Advances.
  - destruct (tasks s !! t) as [[]|] eqn:Et; try done. case_decide as Hk; [|done]. intros [= <-]. apply (Spawned s t k slot (Some (alice_worker (next_process s)))); [done|]. by intros h' [= <-].
  - intros [= <-]. apply Dies.
Qed.

Lemma schedule_reaches ms s : schedule ms = Some s -> rtc any_step no_workers s.
Proof.
  unfold schedule. assert (forall s0, foldl (fun o m => s ← o; play m s) (Some s0) ms = Some s -> rtc any_step s0 s) as H; [|by apply H].
  induction ms as [|m ms IH]; intros s0; cbn [foldl mbind option_bind]; [intros [= ->]; apply rtc_refl|].
  destruct (play m s0) as [s1|] eqn:Em; [|clear; induction ms; [done|exact IHms]].
  intros H. eapply rtc_l; [left; by eapply play_step|by apply IH].
Qed.

Definition starts (t : nat) : list move := [Arrive t (EnEntry alice_key); Advance t; Advance t; Advance t].
Definition lost_wakeup : list move := starts 0 ++ starts 1 ++ [Spawn 0; Advance 1].
Definition dead_worker : list move := starts 0 ++ [Spawn 0; Arrive 1 (EnEntry alice_key); Advance 1; Death 0; Advance 1; Advance 1; Advance 1].
Definition late_removal : list move :=
  starts 0 ++ [Spawn 0; Death 0; Arrive 1 (GrGet alice_key); Advance 1; Arrive 2 (GrGet alice_key); Advance 2; Advance 1; Advance 1; Advance 2]
  ++ starts 3 ++ [Spawn 3; Advance 2].

Lemma waits_after (ms : list move) (t : nat) (h : WorkerHandle) s :
  schedule ms = Some s -> tasks s !! t = Some (EnListening alice_key 0) -> cells s !! 0%nat = Some (Running h) ->
  rtc any_step no_workers s /\ waits_on_running t alice_key 0 h s.
Proof.
  intros Hs Ht Hc. assert (rtc any_step no_workers s) as Hr by (by eapply schedule_reaches). split; [done|]. split_and!; [done|done|].
  intros t' k' Ht'. apply reachable_slots_ok in Hr as [o Ho]. assert (cells s !! 0%nat = Some Starting) by (apply (starting_one _ _ Ho); eauto). congruence.
Qed.

(** The second of two requests for the same user decides to wait while the
    first starts the worker, and asks for the notification only after it was
    sent: it waits although the worker runs, until that worker is retired (a
    lost wake-up). *)
Lemma waiter_forgotten_witness :
  exists s, schedule lost_wakeup = Some s /\ rtc any_step no_workers s /\ tasks s !! 0%nat = Some (EnDone alice_key (alice_worker 0)) /\
    is_alive (alice_worker 0) s = true /\
    forall s', rtc (unretired 0 (alice_worker 0)) s s' -> tasks s' !! 1%nat = Some (EnListening alice_key 0).
Proof.
  destruct (schedule lost_wakeup) as [s|] eqn:Es; [|vm_compute in Es; discriminate Es]. exists s.
  assert (tasks s !! 1%nat = Some (EnListening alice_key 0) /\ cells s !! 0%nat = Some (Running (alice_worker 0)) /\
          tasks s !! 0%nat = Some (EnDone alice_key (alice_worker 0)) /\ is_alive (alice_worker 0) s = true) as (H1 & H2 & H3 & H4).
  { vm_compute in Es. injection Es as <-. split_and!; vm_compute; reflexivity. }
  destruct (waits_after lost_wakeup 1 (alice_worker 0) s Es H1 H2) as [Hr Hw]. split_and!; [reflexivity|exact Hr|exact H3|exact H4|].
  intros s'. exact (proj1 (waiter_forgotten 1 alice_key 0 (alice_worker 0) s s' Hw)).
Defined.

(** A request that finds the slot of a worker that has just died waits as
    well, although nobody will start another one for this slot. *)
Theorem dead_worker_waits :
  exists s, schedule dead_worker = Some s /\ alive s = ∅ /\ rtc any_step no_workers s /\ waits_on_running 1 alice_key 0 (alice_worker 0) s.
Proof.
  destruct (schedule dead_worker) as [s|] eqn:Es; [|vm_compute in Es; discriminate Es]. exists s.
  assert (tasks s !! 1%nat = Some (EnListening alice_key 0) /\ cells s !! 0%nat = Some (Running (alice_worker 0)) /\ alive s = ∅) as (H1 & H2 & H3).
  { vm_compute in Es. injection Es as <-. split_and!; vm_compute; reflexivity. }
  split; [done|]. split; [done|]. by apply (waits_after dead_worker).
Qed.

(** Two requests that find the same dead worker each remove the slot of the
    key; the second removal hits the slot of the worker that has been started
    in between, and a live worker is no longer known to the proxy. *)
Theorem late_removal_orphans :
  exists s, schedule late_removal = Some s /\ rtc any_step no_workers s /\ slots s = ∅ /\
    tasks s !! 3%nat = Some (EnDone alice_key (alice_worker 1)) /\ is_alive (alice_worker 1) s = true.
Proof.
  destruct (schedule late_removal) as [s|] eqn:Es; [|vm_compute in Es; discriminate Es]. exists s. split; [done|].
  split; [by eapply schedule_reaches|]. vm_compute in Es. injection Es as <-. split_and!; vm_compute; reflexivity.
Qed.

Lemma worker_slots_safe_witness :
  exists s, schedule late_removal = Some s /\ forall k h, tasks s !! 3%nat = Some (EnDone k h) -> h_key h = k.
Proof.
  destruct (schedule late_removal) as [s|] eqn:Es; [|vm_compute in Es; discriminate Es]. exists s. split; [reflexivity|].
  intros k h Ht. apply (worker_slots_safe s (schedule_reaches late_removal s Es)) with (t := 3%nat). left. exact Ht.
Defined.
