(* ===== verification/Reconciler.v ===== *)
(** * s32p-proxy/src/worker_manager.rs: the reconciler and the sweeper

    What [reconcile_once] decides for a worker from the directory's answers,
    and what [sweep_once] does with retired and with idle workers. *)

From Stdlib Require Import ZArith Lia.
From stdpp Require Import base list strings numbers option gmap.
From S2P Require Import Prelude RustStr Directory BucketAcl Workers.

Local Open Scope Z_scope.

(** The verdict on one running worker *)
Inductive verdict := Keep | RetireWorker.
#[global] Instance verdict_eq_dec : EqDecision verdict.
Proof. solve_decision. Defined.

Section Reconcile.
Context {E : SpawnEnv} (cfg : SpawnConfig) {D : Type} `{!Directory D}.

Definition reconcile_verdict (d : D) (h : WorkerHandle) : verdict :=
  let ak := wk_access_key (h_key h) in
  match user_by_access_key d ak with
  | Ok (Some user) =>
      match buckets_for_access_key d ak with
      | Ok buckets =>
          if sip_hash (hashed_snapshot user (allowed_buckets cfg buckets)) =? h_spawn_fingerprint h then Keep else RetireWorker
      | _ => Keep
      end
  | Ok None => RetireWorker
  | _ => Keep
  end.

(** The retiring list: a worker with its deadline *)
Record RetiringWorker := { r_handle : WorkerHandle; terminate_after_unix : Z }.
Definition retired (now grace_secs : Z) (h : WorkerHandle) (l : list RetiringWorker) : list RetiringWorker :=
  (l ++ [{| r_handle := h; terminate_after_unix := sat_add64 now grace_secs |}])%list.

(** The first part of [sweep_once]: the workers it terminates and those that
    go on draining *)
Definition due (now : Z) (is_alive : WorkerHandle -> bool) (r : RetiringWorker) : bool :=
  (terminate_after_unix r <=? now) || negb (is_alive (r_handle r)).
Definition sweep_retiring (now : Z) (is_alive : WorkerHandle -> bool) (l : list RetiringWorker) : list RetiringWorker * list RetiringWorker :=
  (filter (fun r => due now is_alive r = true) l, filter (fun r => due now is_alive r = false) l).

(** The second part, for a running worker: is it terminated and its slot
    removed *)
Definition sweep_removes (now last_used idle_secs : Z) (is_alive : bool) : bool :=
  negb is_alive || (idle_secs <=? sat_sub now last_used).
End Reconcile.

Section Proofs.
Context {E : SpawnEnv} (cfg : SpawnConfig) {D : Type} `{!Directory D}.

Lemma spawn_fingerprint user buckets profile s :
  spawn_worker cfg user buckets profile = Ok s ->
  wk_access_key (h_key (s_handle s)) = user_access_key user /\
  h_spawn_fingerprint (s_handle s) = sip_hash (hashed_snapshot user (allowed_buckets cfg buckets)).
Proof. intros (? & ? & ? & ? & _ & _ & _ & _ & ->)%spawn_inv. done. Qed.

(** Revocations reach the workers.  For a worker that was started from a
    snapshot of the directory, the reconciler retires it when its user is
    gone, and keeps it while the snapshot is the same, in any order, or the
    directory cannot answer; when it keeps the worker on an answer, and the
    hash does not collide on the two snapshots, every credential and every
    allowed bucket's id, path and level are as they were at the start. *)
Theorem revocations_noticed (d : D) (user : UserDoc) (buckets : list BucketView) (profile : string) (s : spawned) :
  spawn_worker cfg user buckets profile = Ok s -> NoDup (bucket_id <$> allowed_buckets cfg buckets) ->
  let ak := user_access_key user in
  match user_by_access_key d ak, buckets_for_access_key d ak with
  | Ok None, _ => reconcile_verdict cfg d (s_handle s) = RetireWorker
  | Ok (Some user'), Ok buckets' =>
      let same := user' = user /\ view_key <$> allowed_buckets cfg buckets' ≡ₚ view_key <$> allowed_buckets cfg buckets in
      (same -> reconcile_verdict cfg d (s_handle s) = Keep) /\
      (reconcile_verdict cfg d (s_handle s) = Keep ->
       (sip_hash (hashed_snapshot user (allowed_buckets cfg buckets)) = sip_hash (hashed_snapshot user' (allowed_buckets cfg buckets')) ->
        hashed_snapshot user (allowed_buckets cfg buckets) = hashed_snapshot user' (allowed_buckets cfg buckets')) -> same)
  | _, _ => reconcile_verdict cfg d (s_handle s) = Keep
  end.
Proof.
  intros [Hk Hf]%spawn_fingerprint Hnd. cbn zeta. unfold reconcile_verdict. rewrite Hk, Hf.
  destruct (user_by_access_key d (user_access_key user)) as [[user'|]|e|]; try done.
  destruct (buckets_for_access_key d (user_access_key user)) as [buckets'|e|]; try done. split.
  - intros [-> Hp]. rewrite (proj2 (fingerprint_same user user (allowed_buckets cfg buckets) (allowed_buckets cfg buckets') Hnd)); [by rewrite Z.eqb_refl|].
    split; [done|]. by symmetry.
  - destruct (_ =? _) eqn:Eh; [|done]. intros _ Hc. apply Z.eqb_eq in Eh. symmetry in Eh. apply Hc in Eh.
    apply fingerprint_same in Eh as [-> Hp]; [|done]. split; [done|]. by symmetry.
Qed.
End Proofs.

(** ** A grant is withdrawn *)
Definition fixed_directory (u : option UserDoc) (bs : list BucketView) : Directory unit :=
  {| user_by_access_key := fun _ _ => Ok u; buckets_for_access_key := fun _ _ => Ok bs |}.
Definition counting_env : SpawnEnv := {|
  euid_is_root := true; runtime_root_ok := true; tempdir_in := fun root prefix => Some (root +:+ prefix)%string;
  chown_ok := true; symlink_ok := fun _ => true; link_rename_ok := fun _ => true; to_str_ok := true; pick_free_port := Some 4000%Z;
  run_dir_ok := true; gen_instance_id := "0"; gen_worker_token := "tok"; utc_offset := 0; launches := true;
  connects := fun i => true; elapsed := fun i => (Z.of_nat i * poll_interval)%Z; sip_hash := fun l => Z.of_nat (length l); process := 0 |}.

Lemma revocations_noticed_witness :
  exists s, @spawn_worker counting_env demo_cfg demo_user granted_views "gw" = Ok s /\
    @reconcile_verdict counting_env demo_cfg unit (fixed_directory None []) tt (s_handle s) = RetireWorker /\
    @reconcile_verdict counting_env demo_cfg unit (fixed_directory (Some demo_user) (rev granted_views)) tt (s_handle s) = Keep.
Proof.
  destruct (@spawn_worker counting_env demo_cfg demo_user granted_views "gw") as [s|e|] eqn:Es; [|vm_compute in Es; discriminate Es..].
  assert (NoDup (bucket_id <$> @allowed_buckets demo_cfg granted_views)) as Hnd by (apply (bool_decide_eq_true _); vm_compute; reflexivity).
  exists s. split; [reflexivity|]. split.
  - exact (@revocations_noticed counting_env demo_cfg unit (fixed_directory None []) tt demo_user granted_views "gw" s Es Hnd).
  - apply (@revocations_noticed counting_env demo_cfg unit (fixed_directory (Some demo_user) (rev granted_views)) tt demo_user granted_views "gw" s Es Hnd).
    split; [reflexivity|]. vm_compute. apply perm_swap.
Defined.
