(* ===== verification/ObjectWitness.v ===== *)
(** * Requests on a small export

    The hypotheses of the theorems on the object handlers hold together: an
    export with one bucket, a kernel that answers every call from the tree,
    and requests that run through the handlers to their replies. *)

From Stdlib Require Import ZArith Lia Ascii.
From stdpp Require Import base list strings numbers option gmap sorting.
From S2P Require Import Classifier.
From S2P Require Import Prelude RustStr Http Utils Preconditions UriEncoding S3Resp S3Xml Bytes FsHelpers FileSystem Handler Idempotency Streaming PayloadSource Upload Copy GatewayHelpers Objects PutObject GetObject DeleteObject CopyObject RenameObject ObjectMeta.

Local Open Scope Z_scope.

Definition demo_node (n : Z) : inode := {| i_ino := n; i_mtime := 5; i_mode := 420; i_uid := 1; i_xattrs := ∅ |}.
Definition abcd : bytes := bytes_of "abcd".

Definition demo_tree : filesystem := list_to_map
  [([], Directory (demo_node 1) 4096 false); (["export"], Directory (demo_node 2) 4096 false);
   (["export"; "b"], Directory (demo_node 3) 4096 false); (["export"; "b"; "old"], RegFile (demo_node 4) abcd false);
   (["export"; "b"; "odd"], RegFile (demo_node 5) abcd false); (["export"; "b"; "link"], RegFile (demo_node 6) abcd true);
   (["export"; "b"; "d"], Directory (demo_node 7) 4096 false); (["export"; "b"; "d"; "x"], RegFile (demo_node 8) abcd false)]%string.
Definition demo_world : world := {| files := demo_tree; xattr_support := ∅; idempotency := ∅ |}.

Definition demo_form : FormCodec := {| form_parse := fun s => if is_empty s then [] else [("k", s)]; form_serialize := fun l => default "" (snd <$> head l) |}%string.

Definition demo_body_env : upload_env :=
  {| open_ok := true; prealloc := Allocated; ftruncate_ok := true; write_events := fun _ => Written |}.

(** Files of four bytes are read; [odd] is on a file system that takes
    [O_DIRECT]. *)
#[local] Instance demo_objects : ObjEnv := {|
  o_posix_root := ["export"%string]; o_mpu_dir_name := ".s32p-mpu"%string;
  o_stream_cfg := {| chunk_size := 4096; inflight := 2; direct_io := true |}; o_copy_max_size := 1000; o_max_tokens := 10; o_region := "r1"%string;
  fault := fun _ _ => None; device := fun _ => 1; device_xattrs := fun _ => true;
  o_direct := fun p => bool_decide (list.last p = Some "odd"%string);
  fresh_ino := fun _ => 77; process_uid := 1; o_owner_info := fun _ => ("1", "u")%string; now := 9 * nanos_per_sec; instant_now := 7;
  o_body_env := demo_body_env;
  o_uring_read := fun _ off len => Ok (Z.max 0 (Z.min len (4 - off))); o_read_at := fun _ off len => Ok (Z.max 0 (Z.min len (4 - off)));
  o_open_read := fun _ => Ok tt; client_leaves := None; new_boundary := "boundary"%string;
  o_form := demo_form; mime_guess := fun _ => None;
  xml_events := fun b => if bool_decide (b = bytes_of "<Tagging>") then
      [XStart "Tagging"; XStart "TagSet"; XStart "Tag"; XStart "Key"; XText (Ok "k"); XEnd "Key"; XStart "Value"; XText (Ok "v"); XEnd "Value"; XEnd "Tag"]%string
    else [XStart "Delete"; XStart "Key"; XText (Ok "d/x"); XEnd "Key"; XStart "Key"; XText (Ok "d"); XEnd "Key"]%string;
  fmt_http_date := fun _ => "date"%string; o_format_s3_time := fun _ => "time"%string; o_httpdate_parse := fun _ => None; o_percent_decode_utf8 := Some;
  show_io := fun _ => "io"%string; show_write := fun _ => "write"%string; show_copy := fun _ => "copy"%string; o_show_cond_error := fun _ => "cond"%string;
  o_show_util_error := fun _ => "util"%string; show_body_error := fun _ => "body"%string |}.

Definition demo_request (op : S3Op) (key : string) (headers : list (string * string)) (body : list item) : object_request :=
  {| oq_headers := headers_of headers; oq_path := ("/b/" +:+ key)%string; oq_query := ∅; oq_body := body;
     oq_class := {| bucket := Some "b"%string; Classifier.key := Some key; query := ∅; op := op |} |}.

Definition demo_put (key : string) : object_request :=
  demo_request (Write PutObject) key [("content-length", "4"); ("content-type", "text/x"); ("x-amz-meta-k", "v"); ("x-amz-tagging", "t")]%string
    [Data (bytes_of "wx"); Data (bytes_of "yz")].

Definition etag_of (r : option obj_reply) : string := match r with Some (PutObjectOk e) => e | _ => ""%string end.

(** ** PutObject and GetObject *)
Definition after_put : world := snd (replies (handle_put_object (demo_put "new/o")) demo_world).
Definition new_etag : string := etag_of (fst (replies (handle_put_object (demo_put "new/o")) demo_world)).

Lemma demo_writes : writes_not_cancelled.
Proof. done. Qed.
Lemma demo_xattrs p : honest_xattrs p.
Proof. done. Qed.

Lemma put_acknowledged_witness :
  replies (handle_put_object (demo_put "new/o")) demo_world = (Some (PutObjectOk new_etag), after_put) /\
  put_result (demo_put "new/o") ["export"; "b"; "new"; "o"]%string (bytes_of "wxyz") "v" new_etag demo_world after_put.
Proof.
  split; [vm_compute; reflexivity|].
  apply (put_acknowledged (demo_put "new/o") ["export"; "b"; "new"; "o"]%string demo_world after_put false 4 "v" new_etag);
    first [apply demo_writes | apply demo_xattrs | vm_compute; done].
Defined.

Definition demo_append (key : string) : object_request :=
  demo_request (Write PutObject) key [("content-length", "2"); ("x-amz-write-offset-bytes", "4")]%string [Data (bytes_of "ef")].

Lemma append_acknowledged_witness :
  exists etag w', replies (handle_put_object (demo_append "old")) demo_world = (Some (PutObjectOk etag), w') /\
  append_result ["export"; "b"; "old"]%string (bytes_of "ef") etag demo_world w'.
Proof.
  exists (etag_of (fst (replies (handle_put_object (demo_append "old")) demo_world))), (snd (replies (handle_put_object (demo_append "old")) demo_world)).
  split; [vm_compute; reflexivity|].
  apply (append_acknowledged (demo_append "old") ["export"; "b"; "old"]%string demo_world _ false 2 4);
    first [apply demo_writes | vm_compute; done].
Defined.

(** A PUT that must not replace, to a key that is taken *)
Definition demo_guarded : object_request :=
  demo_request (Write PutObject) "old" [("content-length", "4"); ("if-none-match", "*")]%string [Data (bytes_of "wxyz")].

Lemma put_refusal_changes_nothing_witness :
  exists e w', replies (handle_put_object demo_guarded) demo_world = (Some (Error e), w') /\ resp_status e = 412 /\ files w' = files demo_world.
Proof.
  exists (precondition_failed "PUT precondition failed" (Some "/b/old"%string)), demo_world.
  split; [vm_compute; reflexivity|]. split; [done|].
  apply (put_refusal_changes_nothing demo_guarded ["export"; "b"; "old"]%string demo_world demo_world
           (precondition_failed "PUT precondition failed" (Some "/b/old"%string))); vm_compute; done.
Defined.

Lemma append_unaligned_never_acknowledged_witness :
  exists r w', replies (handle_put_object (demo_append "odd")) demo_world = (Some r, w') /\ is_put_ok r = false.
Proof.
  exists (Error (internal_error "write" (Some "/b/odd"%string) None)), (snd (replies (handle_put_object (demo_append "odd")) demo_world)).
  split; [vm_compute; reflexivity|].
  apply (append_unaligned_never_acknowledged (demo_append "odd") ["export"; "b"; "odd"]%string demo_world
           (snd (replies (handle_put_object (demo_append "odd")) demo_world)) false 2 4); vm_compute; done.
Defined.

Lemma put_through_link_never_acknowledged_witness :
  exists r w', replies (handle_put_object (demo_put "link")) demo_world = (Some r, w') /\ is_put_ok r = false /\
    content_at ["export"; "b"; "link"]%string (files w') = bytes_of "wxyz".
Proof.
  exists (Error (internal_error "failed to write object tags" (Some "/b/link"%string) None)),
    (snd (replies (handle_put_object (demo_put "link")) demo_world)).
  split; [vm_compute; reflexivity|]. split; [|vm_compute; reflexivity].
  apply (put_through_link_never_acknowledged (demo_put "link") ["export"; "b"; "link"]%string demo_world
           (snd (replies (handle_put_object (demo_put "link")) demo_world)) (demo_node 6) abcd);
    first [apply demo_xattrs | vm_compute; done].
Defined.

(** A body that ends early *)
Definition demo_short : object_request :=
  demo_request (Write PutObject) "old" [("content-length", "4")]%string [Data (bytes_of "w")].

Lemma failed_put_loses_object_witness :
  exists w', replies (store_body demo_short false ["export"; "b"; "old"]%string 4 ≫= fun _ => mret DeleteNoContent) demo_world =
    (Some (Error (internal_error "write" (Some "/b/old"%string) None)), w') /\
  files w' !! ["export"; "b"; "old"]%string <> files demo_world !! ["export"; "b"; "old"]%string.
Proof.
  eexists. unfold replies, mbind, handler_bind. erewrite (failed_put_loses_object demo_short ["export"; "b"; "old"]%string demo_world
    (demo_node 4) abcd false false 4); [|vm_compute; done..].
  split; [done|]. vm_compute. congruence.
Defined.

Lemma demo_reads p (b : bytes) : blen b = 4 -> undisturbed_read p b.
Proof.
  intros Hb. split; try done; [rewrite Hb; done| |]; intros off len Ho Hl Hin; cbn; do 2 f_equal; lia.
Qed.

Definition no_conditions : ConditionalHeaders := Build_ConditionalHeaders None None None None None None None None None None.

Definition demo_get (key : string) : object_request := demo_request (Read GetObject) key [("range", "bytes=1-2")]%string [].

Lemma readable_old : readable (demo_get "old") ["export"; "b"; "old"]%string (demo_node 4) abcd false demo_world.
Proof.
  split; [done|done| |done|done|done|done|].
  - exists ["export"; "b"]%string. done.
  - exists no_conditions. done.
Qed.

Lemma get_object_delivers_witness :
  exists r, replies (handle_get_object (demo_get "old")) demo_world = (Some (ObjectReply r), demo_world) /\
    delivered (or_body r) = Some (bytes_of "bc") /\ or_content_length r = 2 /\
    or_status r = 206 /\ or_content_range r = Some "bytes 1-2/4"%string.
Proof.
  destruct (get_object_delivers (demo_get "old") ["export"; "b"; "old"]%string (demo_node 4) abcd false demo_world
              {| start := 1; end_excl := 3 |}) as (r & H1 & H2 & H3 & _ & H4).
  - apply readable_old.
  - done.
  - done.
  - by apply demo_reads.
  - right. exists "bytes=1-2"%string. vm_compute. done.
  - exists r. destruct H4 as [H4 H5]. split_and!; done.
Defined.

Definition demo_get_new : object_request := demo_request (Read GetObject) "new/o" [] [].

Lemma readable_new i l :
  files after_put !! ["export"; "b"; "new"; "o"]%string = Some (RegFile i (bytes_of "wxyz") l) ->
  readable demo_get_new ["export"; "b"; "new"; "o"]%string i (bytes_of "wxyz") l after_put.
Proof.
  intros Hn. split; [reflexivity|reflexivity| |reflexivity|reflexivity|exact Hn| |].
  - exists ["export"; "b"]%string. split; [reflexivity|]. split; [reflexivity|]. vm_compute. reflexivity.
  - split; [reflexivity|]. split; reflexivity.
  - exists no_conditions. split; reflexivity.
Qed.


(** ** DeleteObject and DeleteObjects *)
Definition demo_delete (key : string) : object_request := demo_request (Write DeleteObject) key [] [].
Definition after_delete : world := snd (replies (handle_delete_object (demo_delete "d/x")) demo_world).

Lemma delete_acknowledged_witness :
  replies (handle_delete_object (demo_delete "d/x")) demo_world = (Some DeleteNoContent, after_delete) /\
  files after_delete !! ["export"; "b"; "d"; "x"]%string = None /\ files after_delete !! ["export"; "b"; "d"]%string = None /\
  loses_only ["export"; "b"]%string ["export"; "b"; "d"; "x"]%string (files demo_world) (files after_delete).
Proof.
  split; [vm_compute; reflexivity|].
  destruct (delete_acknowledged (demo_delete "d/x") ["export"; "b"; "d"; "x"]%string demo_world after_delete)
    as (H1 & _ & H2 & _); [vm_compute; done..|]. split; [exact H1|]. split; [vm_compute; reflexivity|exact H2].
Defined.

(** The export with an empty bucket and nothing else *)
Definition empty_world : world := {| files := list_to_map
  [([], Directory (demo_node 1) 4096 false); (["export"], Directory (demo_node 2) 4096 false);
   (["export"; "b"], Directory (demo_node 3) 4096 false)]%string; xattr_support := ∅; idempotency := ∅ |}.

Lemma delete_slash_removes_bucket_witness :
  exists w', replies (handle_delete_object (demo_delete "/")) empty_world = (Some DeleteNoContent, w') /\
    files w' !! ["export"; "b"]%string = None /\ files w' !! ["export"]%string = None.
Proof.
  destruct (delete_slash_removes_bucket (demo_delete "/") ["export"; "b"]%string (Directory (demo_node 3) 4096 false) empty_world)
    as (w' & H1 & H2 & H3); [vm_compute; done..|].
  exists w'. split; [exact H1|]. split; [exact H2|]. apply (H3 (Directory (demo_node 2) 4096 false)); vm_compute; done.
Defined.

Definition demo_batch : object_request :=
  {| oq_headers := headers_of []; oq_path := "/b"%string; oq_query := {["delete"%string := [""%string]]}; oq_body := [];
     oq_class := {| bucket := Some "b"%string; Classifier.key := None; query := {["delete"%string := [""%string]]}; op := Write DeleteObjects |} |}.

Lemma delete_objects_accounts_witness :
  exists w', replies (handle_delete_objects demo_batch) demo_world = (Some (DeleteObjectsResult ["d/x"; "d"]%string []), w') /\
    files w' !! ["export"; "b"; "d"; "x"]%string = None /\
    files w' !! ["export"; "b"; "old"]%string = Some (RegFile (demo_node 4) abcd false).
Proof.
  exists (snd (replies (handle_delete_objects demo_batch) demo_world)). split; [vm_compute; reflexivity|].
  destruct (delete_objects_accounts demo_batch demo_world (snd (replies (handle_delete_objects demo_batch) demo_world)) ["d/x"; "d"]%string [])
    as (b & quiet & keys & Hb & Hk & _ & Hf & _ & [_ K G]); [by split|vm_compute; reflexivity|].
  vm_compute in Hb. injection Hb as <-. vm_compute in Hk. injection Hk as <- <-. split.
  - apply G. exists "d/x"%string. split; [set_solver|]. split; [set_solver|]. vm_compute. done.
  - apply K; [vm_compute; done|done|]. intros p (key & Hkey & Hp) Hpre.
    apply elem_of_cons in Hkey as [->|[->|[]%elem_of_nil]%elem_of_cons]; vm_compute in Hp; injection Hp as <-;
      destruct Hpre as [l Hl]; simplify_eq.
Defined.

(** ** CopyObject *)
Definition demo_copy (key : string) : object_request :=
  demo_request (Write CopyObject) key [("x-amz-copy-source", "/b/old"); ("x-amz-metadata-directive", "REPLACE"); ("content-type", "text/y")]%string [].
Definition after_copy (key : string) : world := snd (replies (handle_copy_object (demo_copy key)) demo_world).
Definition copy_etag (key : string) : string :=
  match fst (replies (handle_copy_object (demo_copy key)) demo_world) with Some (CopyObjectOk e _) => e | _ => ""%string end.

Lemma demo_sane p (b : bytes) : blen b = 4 -> sane_source p b.
Proof. intros Hb. split; intros off len n Ho Hl [= <-]; lia. Qed.

Lemma copy_acknowledged_witness :
  replies (handle_copy_object (demo_copy "c/o")) demo_world = (Some (CopyObjectOk (copy_etag "c/o") "time"), after_copy "c/o") /\
  copy_result (demo_copy "c/o") ["export"; "b"; "old"]%string ["export"; "b"; "c"; "o"]%string abcd (copy_etag "c/o") "time"
    demo_world (after_copy "c/o").
Proof.
  split; [vm_compute; reflexivity|].
  apply (copy_acknowledged (demo_copy "c/o") "b" "old" ["export"; "b"; "old"]%string ["export"; "b"; "c"; "o"]%string (demo_node 4) abcd false);
    [reflexivity|reflexivity|reflexivity|reflexivity|by apply demo_sane|done|done|apply demo_xattrs|done|vm_compute; reflexivity].
Defined.

Lemma copy_onto_itself_zeroes_witness :
  replies (handle_copy_object (demo_copy "old")) demo_world = (Some (CopyObjectOk (copy_etag "old") "time"), after_copy "old") /\
  exists i l, files (after_copy "old") !! ["export"; "b"; "old"]%string = Some (RegFile i (zeros 4) l).
Proof.
  split; [vm_compute; reflexivity|].
  apply (copy_onto_itself_zeroes (demo_copy "old") "b" "old" ["export"; "b"; "old"]%string (demo_node 4) abcd false (copy_etag "old") "time" demo_world);
    [reflexivity|reflexivity|reflexivity|reflexivity|by apply demo_sane|done|done|apply demo_xattrs|done|vm_compute; reflexivity].
Defined.

(** ** RenameObject *)
Definition demo_rename (headers : list (string * string)) : object_request :=
  {| oq_headers := headers_of ([("x-amz-rename-source", "/d/x"); ("x-amz-client-token", "tok")]%string ++ headers);
     oq_path := "/b/r"%string; oq_query := {["renameobject"%string := [""%string]]}; oq_body := [];
     oq_class := {| bucket := Some "b"%string; Classifier.key := Some "r"%string; query := {["renameobject"%string := [""%string]]};
                    op := Write RenameObject |} |}.
Definition plain_rename : object_request := demo_rename [].
Definition after_rename : world := snd (replies (handle_rename_object plain_rename) demo_world).

Lemma demo_unanswered rq : unanswered rq demo_world.
Proof. intros t d _. cbn. by rewrite lookup_empty. Qed.

Lemma rename_acknowledged_witness :
  replies (handle_rename_object plain_rename) demo_world = (Some (RenameReply 200 ""), after_rename) /\
  files after_rename !! ["export"; "b"; "r"]%string = Some (RegFile (demo_node 8) abcd false).
Proof.
  split; [vm_compute; reflexivity|].
  apply (rename_acknowledged plain_rename "d/x" ["export"; "b"; "d"; "x"]%string ["export"; "b"; "r"]%string demo_world after_rename 200 "");
    [reflexivity|reflexivity|reflexivity|apply demo_unanswered|vm_compute; reflexivity|reflexivity].
Defined.

Definition guarded_rename : object_request := demo_rename [("x-amz-rename-source-if-match", "other")]%string.

Lemma rename_refusal_changes_nothing_witness :
  exists e w', replies (handle_rename_object guarded_rename) demo_world = (Some (Error e), w') /\
    same_objects (files demo_world !!.) (files w' !!.) /\ unanswered guarded_rename w'.
Proof.
  exists (precondition_failed "x-amz-rename-source-if-match did not match source" (Some "/b/r"%string)),
    (snd (replies (handle_rename_object guarded_rename) demo_world)). split; [vm_compute; reflexivity|].
  apply (rename_refusal_changes_nothing guarded_rename "d/x" ["export"; "b"; "d"; "x"]%string ["export"; "b"; "r"]%string demo_world
           _ (precondition_failed "x-amz-rename-source-if-match did not match source" (Some "/b/r"%string)));
    [reflexivity|reflexivity|reflexivity|apply demo_unanswered|vm_compute; reflexivity].
Defined.

Lemma rename_retry_replayed_witness :
  replies (handle_rename_object plain_rename) after_rename = (Some (RenameReply 200 ""), after_rename).
Proof.
  apply (rename_retry_replayed plain_rename "d/x" "tok" ["export"; "b"; "d"; "x"]%string ["export"; "b"; "r"]%string ["export"; "b"]%string
           demo_world after_rename after_rename);
    [reflexivity|reflexivity|reflexivity|apply demo_unanswered|reflexivity|reflexivity|vm_compute; reflexivity|reflexivity|reflexivity|reflexivity
    |vm_compute; reflexivity].
Defined.

(** ** Tags *)
Definition demo_tagging (op : WriteOp) : object_request := demo_request (Write op) "old" [] [Data (bytes_of "<Tagging>")].
Definition after_tagging : world := snd (replies (handle_put_object_tagging (demo_tagging PutObjectTagging)) demo_world).

Lemma put_tagging_roundtrip_witness :
  replies (handle_put_object_tagging (demo_tagging PutObjectTagging)) demo_world = (Some PutTaggingOk, after_tagging) /\
  replies (handle_get_object_tagging (demo_tagging PutObjectTagging)) after_tagging = (Some (TaggingReply "v"), after_tagging).
Proof.
  split; [vm_compute; reflexivity|].
  apply (put_tagging_roundtrip (demo_tagging PutObjectTagging) ["export"; "b"; "old"]%string (RegFile (demo_node 4) abcd false)
           (bytes_of "<Tagging>") "v" demo_world after_tagging);
    [reflexivity|apply demo_xattrs|reflexivity|reflexivity|reflexivity|reflexivity|vm_compute; reflexivity|vm_compute; reflexivity|vm_compute; reflexivity].
Defined.

Lemma delete_tagging_clears_witness :
  exists w', replies (handle_delete_object_tagging (demo_tagging DeleteObjectTagging)) after_tagging = (Some DeleteTaggingOk, w') /\
    attr_of ["export"; "b"; "old"]%string TAGGING_XATTR (files w') = None.
Proof.
  exists (snd (replies (handle_delete_object_tagging (demo_tagging DeleteObjectTagging)) after_tagging)). split; [vm_compute; reflexivity|].
  apply (delete_tagging_clears (demo_tagging DeleteObjectTagging) ["export"; "b"; "old"]%string
           (with_xattrs {[TAGGING_XATTR := "v"%string]} (RegFile (demo_node 4) abcd false)) after_tagging);
    [reflexivity|apply demo_xattrs|vm_compute; reflexivity|vm_compute; reflexivity].
Defined.
