(* ===== verification/Listing.v ===== *)
(** * s32p-gateway/src/main.rs: ListObjectsV2 and ListObjectsV1

    A listing walks the directory tree with an explicit stack of frames.  A
    page that is cut short hands the stack out: version 2 as an opaque token
    that carries the directory and the cursor of every frame, version 1 as
    the last key, from which the stack is rebuilt.  The tree does not change
    while a client pages through it. *)

From Stdlib Require Import ZArith Lia Ascii.
From stdpp Require Import base list strings numbers option gmap sorting.
From S2P Require Import Classifier.
From S2P Require Import Prelude RustStr Http Utils UriEncoding S3Resp Bytes FsHelpers FileSystem GatewayHelpers.

Local Open Scope s3_scope.
Local Open Scope Z_scope.

(** ** Data *)

(** [ListOwnerInfo] and [ListObjectInfo] of s3xml.rs *)
Record ListOwnerInfo := { owner_id : string; owner_display_name : string }.
Record ListObjectInfo := {
  lo_key : string;
  lo_last_modified : string;
  lo_etag : string;
  lo_size : Z;
  lo_owner : option ListOwnerInfo;
}.

(** A frame of the continuation token and the token. *)
Record ListV2Frame := { fr_dir : string; fr_after : string }.
Record ListV2Token := {
  tok_v : Z;
  tok_bucket : string;
  tok_prefix : string;
  tok_delimiter : option string;
  tok_stack : list ListV2Frame;
}.

Record DirItem := { it_name : string; sort_key : string; it_is_dir : bool; it_path : path }.

Record RuntimeFrame := { dir_key : string; after : string; entries : option (list DirItem); idx : nat }.

(** [StatxInfo] *)
Record StatxInfo := { stx_ino : Z; stx_size : Z; stx_uid : Z; stx_mtime : system_time }.

(** Configuration, the tree, the refusals of the kernel, and the crates that
    are not part of the repository (serde and base64 behind the token codec,
    the time formatter, percent-encoding) *)
Class ListEnv := {
  l_posix_root : path;
  l_mpu_dir_name : string;
  l_fs : filesystem;
  read_dir_fault : path -> option io_kind;
  entry_fault : path -> bool;
  stat_fault : path -> bool;
  owner_info : Z -> ListOwnerInfo;
  format_s3_time_system : system_time -> string;
  encode_token : ListV2Token -> option string;
  decode_token : string -> res string ListV2Token;
  l_utf8_percent_encode : (ascii -> bool) -> string -> string;
  debug_opt_str : option string -> string;
}.

Definition slash : string := "/"%string.

(** [split_prefix] *)
Definition split_prefix (prefix : string) : string * option string :=
  if is_empty prefix || ends_with slash prefix then (prefix, None)
  else match rsplit_once "/" prefix with
       | Some (a, b) => ((if is_empty a then a else a +:+ slash)%string, Some b)
       | None => (""%string, Some prefix)
       end.

Definition mk_frame (dir after : string) : ListV2Frame := {| fr_dir := dir; fr_after := after |}.

(** The descent of [build_stack_from_last]: one frame per directory, the
    cursor of each at the segment that follows. *)
Fixpoint descend_frames (cur_dir : string) (parts : list string) : list ListV2Frame :=
  match parts with
  | [] => [mk_frame cur_dir ""]
  | [seg] => [mk_frame cur_dir seg]
  | seg :: rest => mk_frame cur_dir (seg +:+ slash) :: descend_frames (cur_dir +:+ seg +:+ slash) rest
  end%string.

(** [build_stack_from_last] *)
Definition build_stack_from_last (dir_prefix last_key : string) (recursive : bool) : list ListV2Frame :=
  let start := [mk_frame dir_prefix ""] in
  match strip_prefix dir_prefix last_key with
  | None => start
  | Some rel =>
      let rel := trim_start_matches "/" rel in
      if is_empty rel then start
      else if negb recursive then
        let first := default rel (head (split "/" rel)) in
        [mk_frame dir_prefix (if ends_with slash last_key then first +:+ slash else first)%string]
      else descend_frames dir_prefix (filter (fun p => is_empty p = false) (split "/" rel))
  end.

(** [first_index_after] *)
Fixpoint index_after (es : list DirItem) (after : string) : nat :=
  match es with
  | [] => 0
  | it :: es => if (after <s sort_key it) then 0 else S (index_after es after)
  end%nat.
Definition first_index_after (es : list DirItem) (after : string) : nat :=
  if is_empty after then 0%nat else index_after es after.

Section Walk.
Context {E : ListEnv}.

Definition faulty_read_dir (p : path) : res io_kind (list (string * node)) :=
  match read_dir_fault p with Some e => Err e | None => read_dir l_fs p end.

(** [system_time_from_unix]; for a time before the epoch it subtracts the
    nanoseconds that it should add *)
Definition system_time_from_unix (sec nsec : Z) : system_time :=
  if 0 <=? sec then sec * nanos_per_sec + nsec else - (- sec * nanos_per_sec + nsec).
Definition statx_mtime (t : system_time) : system_time := system_time_from_unix (t / nanos_per_sec) (t mod nanos_per_sec).
(** [statx_info]: follows links, falling back to the link itself *)
Definition statx_info (p : path) : option StatxInfo :=
  if stat_fault p then None
  else match l_fs !! p with
       | Some n => Some {| stx_ino := i_ino (node_inode n); stx_size := node_size n;
                           stx_uid := i_uid (node_inode n); stx_mtime := statx_mtime (i_mtime (node_inode n)) |}
       | None => None
       end.

(** The loop body of [read_dir_sorted] *)
Definition dir_item (dir_fs : path) (e : string * node) : option DirItem :=
  let p := dir_fs ++ [fst e] in
  if entry_fault p then None
  else let d := is_dir_node (snd e) in
       Some {| it_name := fst e; sort_key := (if d then fst e +:+ slash else fst e)%string;
               it_is_dir := d; it_path := p |}.

Definition item_le (a b : DirItem) : Prop := str_le (sort_key a) (sort_key b).
#[global] Instance item_le_dec : RelDecision item_le.
Proof. intros a b. unfold item_le. apply _. Defined.

(** [read_dir_sorted] *)
Definition read_dir_sorted (dir_fs : path) : res io_kind (list DirItem) :=
  match faulty_read_dir dir_fs with
  | Err NotFound => Ok []
  | Err e => Err e
  | Panics => Panics
  | Ok l => Ok (merge_sort item_le (omap (dir_item dir_fs) l))
  end.

(** The entries [ensure_frame_loaded] puts into a frame *)
Definition load_dir (bucket : string) (leaf_filter : option string) (is_root : bool) (dir : string)
    : option (list DirItem) :=
  match join_object_path l_posix_root bucket dir with
  | Ok dir_fs =>
      match read_dir_sorted dir_fs with
      | Ok es => Some (match is_root, leaf_filter with
                       | true, Some lf => filter (fun it => starts_with lf (sort_key it) = true) es
                       | _, _ => es
                       end)
      | _ => None
      end
  | _ => None
  end.

(** [ensure_frame_loaded]: [None] is the error return *)
Definition ensure_frame_loaded (bucket : string) (leaf_filter : option string) (is_root : bool) (f : RuntimeFrame)
    : option RuntimeFrame :=
  match entries f with
  | Some _ => Some f
  | None =>
      es ← load_dir bucket leaf_filter is_root (dir_key f);
      Some {| dir_key := dir_key f; after := after f; entries := Some es; idx := first_index_after es (after f) |}
  end.

(** [read_dir(&it.path).map(|mut rd| rd.next().is_none()).unwrap_or(false)] *)
Definition dir_is_empty (p : path) : bool :=
  match faulty_read_dir p with Ok [] => true | _ => false end.

(** What one entry of a directory leads to *)
Inductive visit_result :=
| Emit (o : ListObjectInfo) | EmitPrefix (cp : string) | Descend (child : string) | Skip.

Definition object_info (key : string) (stx : StatxInfo) (size : Z) (want_owner : bool) : ListObjectInfo :=
  {| lo_key := key; lo_last_modified := format_s3_time_system (stx_mtime stx);
     lo_etag := format_object_etag (stx_ino stx) (stx_mtime stx) (stx_size stx); lo_size := size;
     lo_owner := if want_owner then Some (owner_info (stx_uid stx)) else None |}.

(** The body of the loop after [top.after = it.sort_key] *)
Definition visit (recursive want_owner : bool) (prefix dir : string) (it : DirItem) : visit_result :=
  if is_empty dir && it_is_dir it && (it_name it =s l_mpu_dir_name) then Skip
  else if it_is_dir it then
    let key := (dir +:+ it_name it +:+ slash)%string in
    if negb recursive then EmitPrefix key
    else if dir_is_empty (it_path it) then
      match statx_info (it_path it) with
      | Some stx => if starts_with prefix key then Emit (object_info key stx 0 want_owner) else Skip
      | None => Skip
      end
    else Descend key
  else
    match statx_info (it_path it) with
    | None => Skip
    | Some stx =>
        let key := (dir +:+ it_name it)%string in
        if starts_with prefix key then Emit (object_info key stx (stx_size stx) want_owner) else Skip
    end.

(** The state of the loop; [stack] has the deepest frame first. *)
Record walk_state := {
  stack : list RuntimeFrame;
  contents : list ListObjectInfo;
  common_prefixes : list string;
  last_emitted : option string;
}.

Section Request.
Context (bucket prefix : string) (leaf_filter : option string) (recursive want_owner : bool).

Definition set_stack (s : list RuntimeFrame) (st : walk_state) : walk_state :=
  {| stack := s; contents := contents st; common_prefixes := common_prefixes st; last_emitted := last_emitted st |}.

(** One pass of the loop, with [top :: below] on the stack *)
Definition walk_step (top : RuntimeFrame) (below : list RuntimeFrame) (st : walk_state) : walk_state :=
  match ensure_frame_loaded bucket leaf_filter (bool_decide (below = [])) top with
  | None => set_stack below st
  | Some top =>
      match default [] (entries top) !! idx top with
      | None => set_stack below st
      | Some it =>
          let top := {| dir_key := dir_key top; after := sort_key it; entries := entries top; idx := S (idx top) |} in
          match visit recursive want_owner prefix (dir_key top) it with
          | Skip => set_stack (top :: below) st
          | Descend child =>
              set_stack ({| dir_key := child; after := ""; entries := None; idx := 0 |} :: top :: below) st
          | EmitPrefix cp =>
              {| stack := top :: below; contents := contents st;
                 common_prefixes := common_prefixes st ++ [cp]; last_emitted := Some cp |}
          | Emit o =>
              {| stack := top :: below; contents := contents st ++ [o];
                 common_prefixes := common_prefixes st; last_emitted := Some (lo_key o) |}
          end
      end
  end.

Definition emitted (st : walk_state) : Z := Z.of_nat (length (contents st) + length (common_prefixes st)).

(** [while contents.len() + common_prefixes.len() < max_keys] *)
Fixpoint walk (fuel : nat) (max_keys : Z) (st : walk_state) : option walk_state :=
  if max_keys <=? emitted st then Some st
  else match stack st with
       | [] => Some st
       | top :: below =>
           match fuel with
           | O => None
           | S fuel => walk fuel max_keys (walk_step top below st)
           end
       end.

(** The passes that are left: one per entry, those of a directory that is
    descended into, and one to pop a frame.  A pass that emits is [Some].
    [depth] bounds the nesting; the fuel of a walk is the length. *)
Inductive listed := LObject (o : ListObjectInfo) | LPrefix (cp : string).

Definition visit_trace (sub : string -> list (option listed)) (dir : string) (it : DirItem) : list (option listed) :=
  match visit recursive want_owner prefix dir it with
  | Emit o => [Some (LObject o)]
  | EmitPrefix cp => [Some (LPrefix cp)]
  | Skip => [None]
  | Descend child => None :: sub child
  end.
Fixpoint dir_trace (depth : nat) (dir : string) : list (option listed) :=
  match depth with
  | O => []
  | S depth =>
      match load_dir bucket leaf_filter false dir with
      | None => [None]
      | Some es => concat (visit_trace (dir_trace depth) dir <$> es) ++ [None]
      end
  end.

Definition max_depth : nat := max_list (length <$> (map_to_list l_fs).*1).
Definition frame_trace (is_root : bool) (f : RuntimeFrame) : list (option listed) :=
  match ensure_frame_loaded bucket leaf_filter is_root f with
  | None => [None]
  | Some f => concat (visit_trace (dir_trace (S (S max_depth))) (dir_key f) <$> drop (idx f) (default [] (entries f))) ++ [None]
  end.
Fixpoint stack_trace (s : list RuntimeFrame) : list (option listed) :=
  match s with
  | [] => []
  | f :: s => frame_trace (bool_decide (s = [])) f ++ stack_trace s
  end.

Definition start_frame (f : ListV2Frame) : RuntimeFrame :=
  {| dir_key := fr_dir f; after := fr_after f; entries := None; idx := 0 |}.

(** The walk of one request, from the frames of a token (root first) *)
Definition run_walk (frames : list ListV2Frame) (max_keys : Z) : option walk_state :=
  let s := rev (start_frame <$> frames) in
  walk (length (stack_trace s)) max_keys {| stack := s; contents := []; common_prefixes := []; last_emitted := None |}.

Definition save_frame (f : RuntimeFrame) : ListV2Frame := {| fr_dir := dir_key f; fr_after := after f |}.
End Request.

(** ** The handlers *)

(** [bucket_exists_dir] and the test on the start directory *)
Definition dir_visible (p : path) : bool := negb (stat_fault p) && is_dir l_fs p.
Definition bucket_exists_dir (bucket : string) : res path_error bool :=
  match bucket_root_path l_posix_root bucket with
  | Ok p => Ok (dir_visible p)
  | Err e => Err e
  | Panics => Panics
  end.

(** The bucket check every handler starts with: [Some] is the early return. *)
Definition bucket_refusal (bucket path : string) : option HttpResponse :=
  match bucket_exists_dir bucket with
  | Ok true => None
  | Ok false => Some (no_such_bucket "bucket not found" (Some path))
  | Err e => Some (access_denied (path_error_message e) (Some path))
  | Panics => None
  end.

(** [delimiter]: [Some] in the middle is the answer to a delimiter that is
    not supported. *)
Definition delimiter_of (q : QueryParams) : option string :=
  match first q "delimiter" with
  | Some d => if is_empty d then None else Some d
  | None => None
  end.
Definition recursive_of (delimiter : option string) : res HttpResponse bool :=
  match delimiter with
  | None => Ok true
  | Some d => if d =s slash then Ok false else Err (not_implemented "only delimiter=/ is supported" None)
  end.
Definition max_keys_of (q : QueryParams) : Z :=
  Z.min (default 1000 (first q "max-keys" ≫= parse_u32_str)) 1000.
Definition url_encode_of (q : QueryParams) : bool :=
  match first q "encoding-type" with Some v => v =s "url" | None => false end.
(** The closure [enc] *)
Definition enc (url_encode : bool) (s : string) : string :=
  if url_encode then s3_url_encode l_utf8_percent_encode s else s.
Definition enc_info (url_encode : bool) (o : ListObjectInfo) : ListObjectInfo :=
  {| lo_key := enc url_encode (lo_key o); lo_last_modified := lo_last_modified o; lo_etag := lo_etag o;
     lo_size := lo_size o; lo_owner := lo_owner o |}.

(** The arguments of [s3resp::list_objects_v2] and [list_objects_v1] *)
Record list_v2 := {
  v2_bucket : string; v2_prefix : string; v2_delimiter : option string; v2_key_count : Z; v2_max_keys : Z;
  v2_is_truncated : bool; v2_token : option string; v2_next_token : option string; v2_start_after : option string;
  v2_encoding_type : option string; v2_contents : list ListObjectInfo; v2_common_prefixes : list string;
}.
Record list_v1 := {
  v1_bucket : string; v1_prefix : string; v1_delimiter : option string; v1_marker : string;
  v1_next_marker : option string; v1_max_keys : Z; v1_is_truncated : bool; v1_encoding_type : option string;
  v1_contents : list ListObjectInfo; v1_common_prefixes : list string;
}.

(** The message of a token that belongs to another listing *)
Definition token_mismatch (bucket prefix : string) (delimiter : option string) (tok : ListV2Token) : list string :=
  (if tok_bucket tok =s bucket then []
   else ["request-bucket " +:+ bucket +:+ " != token-bucket " +:+ tok_bucket tok]) ++
  (if tok_prefix tok =s prefix then []
   else ["request-prefix " +:+ prefix +:+ " != token-prefix " +:+ tok_prefix tok]) ++
  (if bool_decide (tok_delimiter tok = delimiter) then []
   else ["request-delimiter " +:+ debug_opt_str delimiter +:+ " != token-delimiter " +:+ debug_opt_str (tok_delimiter tok)])%string.

Definition bad_list_request (message path : string) : HttpResponse :=
  s3_error 400 "InvalidRequest" message (Some path) None.

(** The frames a listing starts with *)
Definition initial_frames (bucket prefix dir_prefix path : string) (delimiter : option string) (recursive : bool)
    (continuation_token start_after : option string) : res HttpResponse (list ListV2Frame) :=
  match continuation_token with
  | Some ct =>
      match decode_token ct with
      | Ok tok =>
          match token_mismatch bucket prefix delimiter tok with
          | [] => Ok (tok_stack tok)
          | parts => Err (bad_list_request
                            ("continuation-token does not match request parameters: " +:+ join ", " parts)%string path)
          end
      | Err e => Err (bad_list_request e path)
      | Panics => Panics
      end
  | None =>
      match start_after with
      | Some sa => Ok (build_stack_from_last dir_prefix sa recursive)
      | None => Ok [mk_frame dir_prefix ""]
      end
  end.

Definition points_into_reserved (frames : list ListV2Frame) : bool :=
  existsb (fun f => is_reserved_first_segment (fr_dir f) l_mpu_dir_name) frames.

(** [handle_list_objects_v2]; [None] means that the walk ran out of fuel. *)
Definition handle_list_objects_v2 (path : string) (class : S3RequestClass) : option (res HttpResponse list_v2) :=
  let bucket := default ""%string (Classifier.bucket class) in
  let q := Classifier.query class in
  if is_empty bucket then Some (Err (not_implemented "missing bucket" (Some path)))
  else if negb (bool_decide (first q "list-type" = Some "2"%string))
  then Some (Err (not_implemented "missing list-type=2" None))
  else match bucket_refusal bucket path with Some r => Some (Err r) | None =>
  let prefix := default ""%string (first q "prefix") in
  let delimiter := delimiter_of q in
  match recursive_of delimiter with Err r => Some (Err r) | Panics => Some Panics | Ok recursive =>
  let max_keys := max_keys_of q in
  let fetch_owner := bool_decide (is_Some (first q "fetch-owner")) in
  let continuation_token := first q "continuation-token" in
  let start_after := first q "start-after" in
  let url_encode := url_encode_of q in
  let answer key_count truncated next cs ps := {|
    v2_bucket := bucket; v2_prefix := enc url_encode prefix;
    v2_delimiter := if recursive then None else Some slash; v2_key_count := key_count; v2_max_keys := max_keys;
    v2_is_truncated := truncated; v2_token := continuation_token; v2_next_token := next;
    v2_start_after := enc url_encode <$> start_after;
    v2_encoding_type := if url_encode then Some "url"%string else None;
    v2_contents := enc_info url_encode <$> cs; v2_common_prefixes := enc url_encode <$> ps |} in
  if negb (is_empty prefix) && is_reserved_first_segment prefix l_mpu_dir_name
  then Some (Ok (answer 0 false None [] []))
  else
  let '(dir_prefix, leaf_filter) := split_prefix prefix in
  match join_object_path l_posix_root bucket dir_prefix with
  | Panics => Some Panics
  | Err e => Some (Err (access_denied (path_error_message e) None))
  | Ok start_dir_fs =>
  if negb (dir_visible start_dir_fs) then Some (Ok (answer 0 false None [] []))
  else match initial_frames bucket prefix dir_prefix path delimiter recursive continuation_token start_after with
  | Panics => Some Panics
  | Err r => Some (Err r)
  | Ok frames =>
  if points_into_reserved frames
  then Some (Err (bad_list_request "continuation-token points into a reserved prefix" path))
  else
  let frames := match frames with [] => [mk_frame dir_prefix ""] | _ => frames end in
  st ← run_walk bucket prefix leaf_filter recursive fetch_owner frames max_keys;
  let key_count := emitted st in
  let is_truncated := (max_keys <=? key_count) && negb (bool_decide (stack st = [])) in
  let next_token :=
    if is_truncated && (0 <? key_count) then
      encode_token {| tok_v := 1; tok_bucket := bucket; tok_prefix := prefix;
                      tok_delimiter := if recursive then None else Some slash;
                      tok_stack := save_frame <$> rev (stack st) |}
    else None in
  Some (Ok (answer key_count (is_truncated && bool_decide (is_Some next_token)) next_token
              (contents st) (common_prefixes st)))
  end end end end.

(** [handle_list_objects_v1] *)
Definition handle_list_objects_v1 (path : string) (class : S3RequestClass) : option (res HttpResponse list_v1) :=
  let bucket := default ""%string (Classifier.bucket class) in
  let q := Classifier.query class in
  if is_empty bucket then Some (Err (not_implemented "missing bucket" (Some path)))
  else match bucket_refusal bucket path with Some r => Some (Err r) | None =>
  let prefix := default ""%string (first q "prefix") in
  let marker := default ""%string (first q "marker") in
  match recursive_of (delimiter_of q) with Err r => Some (Err r) | Panics => Some Panics | Ok recursive =>
  let max_keys := max_keys_of q in
  let url_encode := url_encode_of q in
  let answer truncated next cs ps := {|
    v1_bucket := bucket; v1_prefix := enc url_encode prefix; v1_delimiter := if recursive then None else Some slash;
    v1_marker := enc url_encode marker; v1_next_marker := enc url_encode <$> next; v1_max_keys := max_keys;
    v1_is_truncated := truncated; v1_encoding_type := if url_encode then Some "url"%string else None;
    v1_contents := enc_info url_encode <$> cs; v1_common_prefixes := enc url_encode <$> ps |} in
  if negb (is_empty prefix) && is_reserved_first_segment prefix l_mpu_dir_name
  then Some (Ok (answer false None [] []))
  else
  let '(dir_prefix, leaf_filter) := split_prefix prefix in
  match join_object_path l_posix_root bucket dir_prefix with
  | Panics => Some Panics
  | Err e => Some (Err (access_denied (path_error_message e) None))
  | Ok start_dir_fs =>
  if negb (dir_visible start_dir_fs) then Some (Ok (answer false None [] []))
  else
  let frames := if is_empty marker then [mk_frame dir_prefix ""] else build_stack_from_last dir_prefix marker recursive in
  if points_into_reserved frames then Some (Err (bad_list_request "marker points into a reserved prefix" path))
  else
  st ← run_walk bucket prefix leaf_filter recursive true frames max_keys;
  let is_truncated := (max_keys <=? emitted st) && negb (bool_decide (stack st = [])) in
  Some (Ok (answer is_truncated (if is_truncated then last_emitted st else None) (contents st) (common_prefixes st)))
  end end end.
End Walk.
