(* ===== verification/OpenFile.v ===== *)
(** * s32p-gateway/src/fs_helpers.rs: opening files, stripes and file times

    [open_file] with its fall-back from direct to buffered I/O and, in a
    Lustre build, the creation of the file with a stripe layout first; the
    stripe count of a file; and the time [statx_info] reports.  The file
    system is a parameter with a state of its own. *)

From Stdlib Require Import ZArith Lia.
From stdpp Require Import base list strings numbers option.
From S2P Require Import Prelude RustStr Http FsHelpers FileSystem GatewayHelpers Listing.

Local Open Scope Z_scope.

(** ** Modes and layouts *)
Inductive OpenMode := OpenRead | WriteCreateTruncate | ReadWriteCreate | WriteExistingNoTrunc.
Inductive OpenDirect := Buffered | Direct | TryDirect.
Record LustreStriping := { stripe_size : Z; stripe_count : Z; stripe_offset : Z; stripe_pattern : Z }.
Definition wrap_i32 (n : Z) : Z := (n + 2 ^ 31) mod 2 ^ 32 - 2 ^ 31.
Definition LustreStriping_new (size count : Z) : LustreStriping :=
  {| stripe_size := size; stripe_count := wrap_i32 (Z.max count 1); stripe_offset := -1; stripe_pattern := 0 |}.

(** [stripe_count_for_size]; the release profile wraps the sum around. *)
Definition stripe_count_for_size (file_size stripe_size max_stripe_count : Z) : Z :=
  if stripe_size =? 0 then 1
  else
    let n := (wrap64 (wrap64 (file_size + stripe_size) - 1) / stripe_size) mod 2 ^ 32 in
    let n := if n <? 1 then 1 else n in
    if (0 <? max_stripe_count) && (max_stripe_count <? n) then max_stripe_count else n.

(** ** [open_file] *)
Definition EINVAL : Z := 22.
Definition EOPNOTSUPP : Z := 95.
Definition ENOTSUP : Z := 95.
Definition ENOSYS : Z := 38.
Definition EEXIST : Z := 17.
Definition ENOENT : Z := 2.
Definition is_direct_io_not_supported (errno : Z) : bool :=
  (errno =? EINVAL) || (errno =? EOPNOTSUPP) || (errno =? ENOTSUP) || (errno =? ENOSYS).
(** The flags of [open_file_io] *)
Record open_flags := { fl_read : bool; fl_write : bool; fl_create : bool; fl_truncate : bool; fl_direct : bool }.
Definition flags_of (mode : OpenMode) (direct : bool) : open_flags :=
  match mode with
  | OpenRead => {| fl_read := true; fl_write := false; fl_create := false; fl_truncate := false; fl_direct := direct |}
  | WriteCreateTruncate => {| fl_read := false; fl_write := true; fl_create := true; fl_truncate := true; fl_direct := direct |}
  | ReadWriteCreate => {| fl_read := true; fl_write := true; fl_create := true; fl_truncate := false; fl_direct := direct |}
  | WriteExistingNoTrunc => {| fl_read := false; fl_write := true; fl_create := false; fl_truncate := false; fl_direct := direct |}
  end.

(** The calls of the operating system on one path; an error is its errno. *)
Class OpenOs := {
  os : Type;
  os_open : open_flags -> os -> (Z + unit) * os;
  os_remove : os -> (Z + unit) * os;
  os_exists : os -> bool;
  os_lustre_create : LustreStriping -> os -> (Z + unit) * os;
}.
Section Open.
Context {O : OpenOs} (lustre : bool).

Definition open_file_io (mode : OpenMode) (direct : bool) (s : os) : (Z + unit) * os := os_open (flags_of mode direct) s.
Definition should_create (mode : OpenMode) (s : os) : bool :=
  match mode with OpenRead | WriteExistingNoTrunc => false | WriteCreateTruncate => true | ReadWriteCreate => negb (os_exists s) end.
Definition remove_first (mode : OpenMode) (s : os) : (Z + unit) * os :=
  match mode with
  | WriteCreateTruncate => match os_remove s with (inl e, s) => if e =? ENOENT then (inr tt, s) else (inl e, s) | r => r end
  | _ => (inr tt, s)
  end.
(** The part of a Lustre build *)
Definition create_striped (mode : OpenMode) (striping : option LustreStriping) (s : os) : (Z + unit) * os :=
  match striping with
  | Some l =>
      if lustre && should_create mode s then
        match remove_first mode s with
        | (inl e, s) => (inl e, s)
        | (inr _, s) => match os_lustre_create l s with (inl e, s) => if e =? EEXIST then (inr tt, s) else (inl e, s) | r => r end
        end
      else (inr tt, s)
  | None => (inr tt, s)
  end.
Definition used (d : bool) (r : (Z + unit) * os) : (Z + bool) * os := match r with (inr _, s) => (inr d, s) | (inl e, s) => (inl e, s) end.
(** The result is the errno of the failure or whether direct I/O is used. *)
Definition open_file (mode : OpenMode) (direct : OpenDirect) (striping : option LustreStriping) (s : os) : (Z + bool) * os :=
  match create_striped mode striping s with
  | (inl e, s) => (inl e, s)
  | (inr _, s) =>
      match direct with
      | Buffered => used false (open_file_io mode false s)
      | Direct => used true (open_file_io mode true s)
      | TryDirect =>
          match open_file_io mode true s with
          | (inr _, s) => (inr true, s)
          | (inl e, s) => if is_direct_io_not_supported e then used false (open_file_io mode false s) else (inl e, s)
          end
      end
  end.
End Open.

(** ** Stripes *)
(** The reference: the ceiling of the quotient, at least one, at most [max]. *)
Definition stripes (file_size stripe_size max_stripe_count : Z) : Z :=
  let n := Z.max 1 (- (- file_size / stripe_size)) in if 0 <? max_stripe_count then Z.min n max_stripe_count else n.
Lemma ceil_div a b : 0 < b -> (a + b - 1) / b = - (- a / b).
Proof. intros Hb. Z.div_mod_to_equations. nia. Qed.

(** ** Properties *)

(** The stripe count of a file is between one and the configured
    maximum, and it is the number of stripes the file fills whenever the sum
    of file and stripe size fits 64 bits and that number 32 bits. *)
Theorem stripe_count_exact (file_size stripe_size max_stripe_count : Z) :
  is_u64 file_size -> is_u64 stripe_size -> is_u32 max_stripe_count -> 0 < stripe_size ->
  let n := stripe_count_for_size file_size stripe_size max_stripe_count in
  (1 <= n /\ (0 < max_stripe_count -> n <= max_stripe_count)) /\
  (file_size + stripe_size <= u64_max -> - (- file_size / stripe_size) < 2 ^ 32 -> n = stripes file_size stripe_size max_stripe_count).
Proof.
  intros Hf Hs Hm Hpos. unfold stripe_count_for_size, stripes. rewrite (proj2 (Z.eqb_neq stripe_size 0)) by lia.
  assert (0 <= max_stripe_count) by (unfold is_u32 in Hm; lia).
  assert (forall k, let n := (let n := if k <? 1 then 1 else k in if (0 <? max_stripe_count) && (max_stripe_count <? n) then max_stripe_count else n) in
            n = (if 0 <? max_stripe_count then Z.min (Z.max 1 k) max_stripe_count else Z.max 1 k)) as Hclamp.
  { intros k. cbn zeta. destruct (Z.ltb_spec k 1), (Z.ltb_spec 0 max_stripe_count); cbn [andb]; try lia;
      match goal with |- context [max_stripe_count <? ?x] => destruct (Z.ltb_spec max_stripe_count x); lia end. }
  cbn zeta in *. rewrite Hclamp. split; [destruct (Z.ltb_spec 0 max_stripe_count); lia|]. intros Hsum Hn. unfold is_u64 in *.
  rewrite (wrap64_id (file_size + stripe_size)) by (unfold is_u64; lia). rewrite wrap64_id by (unfold is_u64; lia). rewrite ceil_div by lia.
  rewrite Z.mod_small; [done|]. split; [|lia]. rewrite <- ceil_div by lia. apply Z.div_pos; lia.
Qed.

(** Past 32 bits the count starts again from zero: a file of [2^32] stripes
    gets one. *)
Lemma stripe_count_wraps (max_stripe_count : Z) : 1 <= max_stripe_count -> stripe_count_for_size (2 ^ 32 * 2 ^ 20) (2 ^ 20) max_stripe_count = 1.
Proof.
  intros H. unfold stripe_count_for_size. cbn [Z.eqb]. set (n := (_ / _) mod _). vm_compute in n. subst n. cbn [Z.ltb Z.compare].
  destruct (Z.ltb_spec max_stripe_count 1); [lia|by rewrite andb_false_r].
Qed.

(** ** File times *)
(** [Metadata::modified], which every other handler reads, is the time itself. *)
Lemma statx_mtime_exact t : statx_mtime t = t <-> 0 <= t \/ t mod nanos_per_sec = 0.
Proof.
  unfold statx_mtime, system_time_from_unix, nanos_per_sec. pose proof (Z.div_mod t 1000000000 ltac:(lia)) as Hd. pose proof (Z.mod_pos_bound t 1000000000 ltac:(lia)).
  destruct (Z.leb_spec 0 (t / 1000000000)); lia.
Qed.
Lemma statx_mtime_off t : statx_mtime t = t \/ statx_mtime t = t - 2 * (t mod nanos_per_sec).
Proof.
  unfold statx_mtime, system_time_from_unix, nanos_per_sec. pose proof (Z.div_mod t 1000000000 ltac:(lia)) as Hd. destruct (Z.leb_spec 0 (t / 1000000000)); lia.
Qed.

(** A listing and a HEAD agree on the ETag of an object exactly when its
    modification time is not before 1970 or is a whole second:
    [system_time_from_unix] subtracts the nanoseconds of a time before the
    epoch, so a client that compares the two sees a change that never
    happened. *)
Theorem listing_etag_agrees (ino size : Z) (t : system_time) :
  is_u64 ino -> is_u64 size ->
  format_object_etag ino (statx_mtime t) size = format_object_etag ino t size <-> 0 <= t \/ t mod nanos_per_sec = 0.
Proof.
  intros Hi Hs. rewrite <- statx_mtime_exact. split; [|by intros ->].
  intros E. destruct (etag_identifies _ _ _ _ _ _ Hi Hi Hs Hs E) as [_ [Hw _]]. specialize (Hw eq_refl).
  destruct (statx_mtime_off t) as [H|H]; [done|]. rewrite H in Hw |- *. pose proof (Z.mod_pos_bound t nanos_per_sec ltac:(unfold nanos_per_sec; lia)) as Hb.
  unfold wrap64, nanos_per_sec in *. Z.div_mod_to_equations. lia.
Qed.

(** ** Witnesses *)
Lemma stripe_count_exact_witness : stripe_count_for_size 10 4 8 = 3 /\ stripe_count_for_size 10 4 8 = stripes 10 4 8.
Proof.
  split; [vm_compute; reflexivity|]. apply (stripe_count_exact 10 4 8); unfold is_u64, is_u32, u64_max, u32_max; try lia. vm_compute. reflexivity.
Defined.
Lemma listing_etag_agrees_witness : format_object_etag 7 (statx_mtime 1500000000) 4096 = format_object_etag 7 1500000000 4096 /\
  format_object_etag 7 (statx_mtime (-500000000)) 4096 <> format_object_etag 7 (-500000000) 4096.
Proof.
  split; [apply (listing_etag_agrees 7 4096 1500000000); [unfold is_u64, u64_max; lia..|lia]|].
  intros E. apply (listing_etag_agrees 7 4096 (-500000000)) in E; [|unfold is_u64, u64_max; lia..]. vm_compute in E. destruct E as [E|E]; [by apply E|discriminate E].
Defined.
