(* ===== verification/Lustre.v ===== *)
(** * s32p-gateway/src/lustre.rs, and the read-ahead of streaming.rs

    What a build with the [lustre] feature tells the file system: the guards
    that keep the calls away from other file systems, the ranges of an
    advice, the file that is created with a layout, and the sections
    [stream_segment] announces before it reads them.  [statfs],
    [llapi_file_create] and [llapi_ladvise] are liblustreapi's and the
    kernel's: parameters, or the calls that are made. *)

From Stdlib Require Import ZArith Lia Ascii.
From stdpp Require Import base list strings numbers option.
From S2P Require Import Prelude RustStr FsHelpers Streaming OpenFile.

Local Open Scope s3_scope.
Local Open Scope Z_scope.

(** ** Is this Lustre? *)
Definition LL_SUPER_MAGIC : Z := 198183888. (* 0x0BD00BD0 *)

(** [Path::parent]: the last component goes, with the separators and the "."
    segments before it; the root and the empty path have no parent. *)
Fixpoint trim_segments (r : list string) : list string :=
  match r with
  | s :: ((_ :: _) as r') => if (s =s "")%s3 || (s =s ".")%s3 then trim_segments r' else r
  | _ => r
  end.
Definition path_parent (p : string) : option string :=
  let rooted := starts_with "/" p in
  match trim_segments (rev (split "/" p)) with
  | _ :: ((_ :: _) as r) =>
      let up := trim_segments r in
      Some (if rooted && (length up =? 1)%nat then "/" else join "/" (rev up))%string
  | [s] => if rooted || (s =s "")%s3 then None else Some ""%string
  | [] => None
  end.

(** [f_type] of the file system, [None] when the call fails. *)
Definition is_lustre_fd (fstatfs : option Z) : bool := bool_decide (fstatfs = Some LL_SUPER_MAGIC).
Definition is_lustre_path (statfs : string -> option Z) (path : string) : bool :=
  if (path =s "")%s3 || contains_char "000" path then false else bool_decide (statfs path = Some LL_SUPER_MAGIC).
Definition skip_if_not_lustre_parent (statfs : string -> option Z) (path : string) : bool :=
  is_lustre_path statfs (default "."%string (path_parent path)).

(** ** Creating a file with a layout

    [inl None] is an error without an errno, [create] the call of
    liblustreapi. *)
Definition file_create {O : OpenOs} (statfs : string -> option Z) (path : string) (create : LustreStriping -> os -> (Z + unit) * os)
    (l : LustreStriping) (s : os) : (option Z + unit) * os :=
  if negb (skip_if_not_lustre_parent statfs path) then (inr tt, s)
  else if (path =s "")%s3 || contains_char "000" path then (inl None, s)
  else match create l s with (inl e, s) => (inl (Some e), s) | (inr _, s) => (inr tt, s) end.

(** ** Advice *)
Inductive lu_ladvise_type := LU_LADVISE_WILLREAD | LU_LADVISE_LOCKAHEAD | LU_LADVISE_LOCKNOEXPAND.
#[global] Instance lu_ladvise_type_eq_dec : EqDecision lu_ladvise_type.
Proof. solve_decision. Defined.
Record llapi_lu_ladvise := { lla_advice : lu_ladvise_type; lla_start : Z; lla_end : Z; lla_value1 : Z }.
(** One call of [llapi_ladvise]: whether [LF_ASYNC] is set, and the advice *)
Record ladvise_call := { call_async : bool; call_advs : list llapi_lu_ladvise }.
Inductive advice_error := EmptyRange | RangeOverflow.
Definition WriteUser : Z := 2.

Definition build_adv (advice : lu_ladvise_type) (start len value1 : Z) : res advice_error llapi_lu_ladvise :=
  if len =? 0 then Err EmptyRange
  else
    e ← ok_or (checked_add64 start (len - 1)) RangeOverflow;
    Ok {| lla_advice := advice; lla_start := start; lla_end := e; lla_value1 := value1 |}.
Definition ladvise_many (advs : list llapi_lu_ladvise) : list ladvise_call :=
  match advs with
  | [] => []
  | _ => [{| call_async := existsb (fun a => bool_decide (lla_advice a = LU_LADVISE_WILLREAD)) advs; call_advs := advs |}]
  end.
Definition ladvise_range (advice : lu_ladvise_type) (start len value1 : Z) : list ladvise_call :=
  if len =? 0 then []
  else match build_adv advice start len value1 with Ok adv => ladvise_many [adv] | _ => [] end.

Section Advice.
Context (fstatfs : option Z).
Definition advise_if_lustre (calls : list ladvise_call) : list ladvise_call := if is_lustre_fd fstatfs then calls else [].
Definition advise_locknoexpand (start len : Z) : list ladvise_call := advise_if_lustre (ladvise_range LU_LADVISE_LOCKNOEXPAND start len 0).
Definition advise_lockahead_write (start len : Z) : list ladvise_call := advise_if_lustre (ladvise_range LU_LADVISE_LOCKAHEAD start len WriteUser).
Definition advise_willread (start len : Z) : list ladvise_call := advise_if_lustre (ladvise_range LU_LADVISE_WILLREAD start len 0).
Definition advise_locknoexpand_and_lockahead_write (start len : Z) : list ladvise_call :=
  advise_if_lustre
    (if len =? 0 then []
     else match build_adv LU_LADVISE_LOCKNOEXPAND start len 0, build_adv LU_LADVISE_LOCKAHEAD start len WriteUser with
          | Ok a, Ok b => ladvise_many [a; b]
          | _, _ => []
          end).
End Advice.

(** ** The sections of [stream_segment]

    The range of the segment is announced in sections of [section_bytes]
    bytes, each when the first read of the section before it is submitted. *)
Section ReadAhead.
Context (direct : bool) (chunk_size inflight seg_start effective_end : Z).
Definition section_bytes : Z := sat_mul64 inflight chunk_size.
(** [next_section_to_advise], and the [(start, len)] given to [advise_willread] *)
Record read_ahead := { next_section : Z; advised : list (Z * Z) }.
Definition advise_section (start : Z) (l : list (Z * Z)) : list (Z * Z) :=
  if effective_end <=? start then l
  else
    let e := Z.min effective_end (sat_add64 start section_bytes) in
    let len := sat_sub e start in
    if 0 <? len then l ++ [(start, len)] else l.
Definition seed : read_ahead := {| next_section := sat_add64 seg_start section_bytes; advised := advise_section seg_start [] |}.
Definition maybe_advise_next_section (off : Z) (a : read_ahead) : read_ahead :=
  if section_bytes =? 0 then a
  else if negb (sat_sub off seg_start mod section_bytes =? 0) then a
  else
    let next_start := sat_add64 off section_bytes in
    if (next_start =? next_section a) && (next_start <? effective_end)
    then {| next_section := sat_add64 (next_section a) section_bytes; advised := advise_section next_start (advised a) |}
    else a.
(** The first [n] submissions of the segment, of the initial fill and of the
    loop after it: both advise, then queue a read. *)
Fixpoint submissions (n : nat) (off : Z) (a : read_ahead) (reads : list (Z * Z)) : Z * read_ahead * list (Z * Z) :=
  match n with
  | O => (off, a, reads)
  | S n =>
      if off <? effective_end then
        let a := maybe_advise_next_section off a in
        let '(off, reads) := push_read direct chunk_size effective_end off reads in
        submissions n off a reads
      else (off, a, reads)
  end.
End ReadAhead.

(** The example paths of the standard library's documentation *)
Example path_parent_examples :
  path_parent "/foo/bar" = Some "/foo"%string /\ path_parent "/foo" = Some "/"%string /\ path_parent "/" = None /\ path_parent "foo/bar" = Some "foo"%string /\
  path_parent "foo" = Some ""%string /\ path_parent "" = None /\ path_parent "/a//b/." = Some "/a"%string.
Proof. by vm_compute. Qed.

(** ** The read-ahead keeps ahead *)
Section ReadAheadProofs.
Context (direct : bool) (chunk_size inflight seg_start effective_end : Z).
Context (Hc : 0 < chunk_size) (Hi : 1 <= inflight) (Hs : 0 <= seg_start < effective_end) (He : effective_end <= i64_max).
Context (HS : inflight * chunk_size <= i64_max) (Ha : direct = true -> chunk_size mod ALIGN = 0).
Local Abbreviation S_ := (inflight * chunk_size).
Local Abbreviation advise := (advise_section chunk_size inflight effective_end).

(** The [i]-th section *)
Definition section_of (i : nat) : Z * Z := (seg_start + Z.of_nat i * S_, Z.min S_ (effective_end - (seg_start + Z.of_nat i * S_))).

Lemma section_bytes_eq : section_bytes chunk_size inflight = S_.
Proof using HS. unfold section_bytes, sat_mul64, u64_max, i64_max in *. lia. Qed.

Lemma submit_len_eq off : 0 <= off < effective_end -> submit_len direct chunk_size effective_end off = Z.min chunk_size (effective_end - off).
Proof using Hc He Ha.
  intros Ho. unfold submit_len, sat_sub, sat_add64, u64_max, i64_max in *. rewrite (Z.max_r 0) by lia.
  destruct direct; [|lia]. specialize (Ha eq_refl). pose proof (Z.mod_pos_bound (Z.min chunk_size (effective_end - off)) ALIGN ltac:(unfold ALIGN; lia)) as Hr.
  assert (ALIGN = 4096) by done. destruct (Z.le_gt_cases chunk_size (effective_end - off)).
  - rewrite (Z.min_l chunk_size) in * by lia. rewrite Ha. cbn. destruct (Z.ltb_spec effective_end (Z.min (2 ^ 64 - 1) (off + chunk_size))); lia.
  - rewrite (Z.min_r chunk_size) in * by lia. destruct (Z.eqb_spec ((effective_end - off) mod ALIGN) 0); cbn [negb];
      match goal with |- context [?a <? ?b] => destruct (Z.ltb_spec a b); lia end.
Qed.

Lemma advise_section_eq k l : seg_start + Z.of_nat k * S_ < effective_end -> advise (seg_start + Z.of_nat k * S_) l = l ++ [section_of k].
Proof using Hc Hi He HS Hs.
  intros Hk. unfold advise_section. rewrite section_bytes_eq, (proj2 (Z.leb_gt _ _)) by lia. unfold sat_sub, sat_add64, u64_max, i64_max, section_of in *.
  assert (0 < S_) by nia. assert (0 <= Z.of_nat k * S_) by nia. rewrite (Z.min_r (2 ^ 64 - 1)) by lia.
  rewrite (Z.max_r 0) by lia. rewrite (proj2 (Z.ltb_lt _ _)) by lia. do 3 f_equal. lia.
Qed.

(** The next read is the [r]-th of section [q]; [k] sections are announced. *)
Definition ahead (off : Z) (a : read_ahead) (k : nat) : Prop :=
  next_section a = seg_start + Z.of_nat k * S_ /\ advised a = section_of <$> seq 0 k /\ seg_start + (Z.of_nat k - 1) * S_ < effective_end /\
  (off = effective_end /\ effective_end <= seg_start + Z.of_nat k * S_ \/
   off < effective_end /\ exists q r, 0 <= q /\ 0 <= r < inflight /\ off = seg_start + q * S_ + r * chunk_size /\
     (r = 0 -> Z.of_nat k = q + 1) /\ (0 < r -> Z.of_nat k = q + 2 \/ Z.of_nat k = q + 1 /\ effective_end <= seg_start + Z.of_nat k * S_)).

Lemma ahead_seed : ahead seg_start (seed chunk_size inflight seg_start effective_end) 1.
Proof using Hc Hi He HS Hs.
  unfold ahead, seed. rewrite section_bytes_eq. cbn [next_section advised]. unfold sat_add64, u64_max, i64_max in *. split_and!; [lia| |nia|].
  - pose proof (advise_section_eq 0 []) as E. replace (seg_start + Z.of_nat 0 * S_) with seg_start in E by lia. rewrite E by lia. done.
  - right. split; [lia|]. exists 0, 0. nia.
Qed.

(** When a read is submitted its own section is announced, and the next one
    if there is one. *)
Definition advised_for (off : Z) (a : read_ahead) (k : nat) : Prop :=
  next_section a = seg_start + Z.of_nat k * S_ /\ advised a = section_of <$> seq 0 k /\ seg_start + (Z.of_nat k - 1) * S_ < effective_end /\
  exists q r, 0 <= q /\ 0 <= r < inflight /\ off = seg_start + q * S_ + r * chunk_size /\
    (Z.of_nat k = q + 2 \/ Z.of_nat k = q + 1 /\ effective_end <= seg_start + Z.of_nat k * S_).

Lemma section_boundary q r : 0 <= q -> 0 <= r < inflight -> ((q * S_ + r * chunk_size) mod S_ =? 0) = (r =? 0).
Proof using Hc Hi.
  intros Hq Hr. rewrite Z.add_comm, Z.mod_add, Z.mod_small by nia. destruct (Z.eqb_spec r 0), (Z.eqb_spec (r * chunk_size) 0); nia.
Qed.

Lemma ahead_advised off a k : ahead off a k -> off < effective_end ->
  exists k', (k <= k')%nat /\ advised_for off (maybe_advise_next_section chunk_size inflight seg_start effective_end off a) k'.
Proof using Hc Hi He HS Hs.
  intros (Hn & Hl & Hk & [[-> ?]|(_ & q & r & Hq & Hr & Hoff & H0 & Hpos)]) Ho; [lia|]. unfold maybe_advise_next_section. rewrite section_bytes_eq.
  assert (0 < S_) by nia. rewrite (proj2 (Z.eqb_neq S_ 0)) by lia. unfold sat_sub, sat_add64.
  replace (Z.max 0 (off - seg_start)) with (q * S_ + r * chunk_size) by nia. rewrite section_boundary by done.
  destruct (Z.eqb_spec r 0) as [->|Hr0]; cbn [negb]; [|exists k; split; [done|]; split_and!; [done..|]; exists q, r; naive_solver lia].
  specialize (H0 eq_refl). unfold u64_max, i64_max in *. assert (off + S_ = seg_start + Z.of_nat k * S_) as Hnext by nia.
  rewrite (Z.min_r _ (off + S_)), Hn by lia. rewrite Hnext, Z.eqb_refl. cbn [andb]. destruct (Z.ltb_spec (seg_start + Z.of_nat k * S_) effective_end) as [Hlt|Hge].
  - exists (S k). split; [lia|]. split_and!; cbn [next_section advised].
    + rewrite Nat2Z.inj_succ, Z.mul_succ_l. lia.
    + rewrite advise_section_eq, Hl by done. by rewrite seq_S, fmap_app.
    + rewrite Nat2Z.inj_succ. replace (Z.succ (Z.of_nat k) - 1) with (Z.of_nat k) by lia. done.
    + exists q, 0. split_and!; [done|lia|lia|nia|]. left. lia.
  - exists k. split; [done|]. split_and!; [done..|]. exists q, 0. split_and!; [done|lia|lia|nia|]. right. lia.
Qed.

(** The read itself stays within what is announced. *)
Lemma advised_read off a k : advised_for off a k -> off < effective_end ->
  off + Z.min chunk_size (effective_end - off) <= seg_start + Z.of_nat k * S_ /\ (Z.of_nat k - 2) * S_ + seg_start <= off /\
  ahead (off + Z.min chunk_size (effective_end - off)) a k.
Proof using Hc Hi Hs He HS.
  intros (Hn & Hl & Hk & q & r & Hq & Hr & Hoff & Hcase) Ho. assert (0 < S_) by nia. assert ((r + 1) * chunk_size <= S_) by nia.
  assert (q * S_ + S_ <= Z.of_nat k * S_) by (destruct Hcase; nia).
  split; [lia|]. split; [destruct Hcase; nia|]. split; [done|]. split; [done|]. split; [done|].
  destruct (Z.le_gt_cases effective_end (off + chunk_size)) as [Hend|Hmore]; [left; lia|]. right. split; [lia|].
  destruct (Z.eq_dec (r + 1) inflight) as [Hlast|Hin].
  - assert (off + chunk_size = seg_start + (q + 1) * S_) by nia. exists (q + 1), 0. split_and!; [lia|lia|lia|lia| |lia]. intros _. destruct Hcase as [?|[Hq1 ?]]; [lia|].
    rewrite Hq1 in *. lia.
  - exists q, (r + 1). split_and!; [done|lia|lia|lia|lia|]. intros _. done.
Qed.

Lemma submissions_ahead n off a k reads :
  ahead off a k -> Forall (fun rd => rd.1 + rd.2 <= seg_start + Z.of_nat k * S_) reads -> 0 <= off ->
  exists k', let '(off', a', reads') := submissions direct chunk_size inflight seg_start effective_end n off a reads in
    ahead off' a' k' /\ Forall (fun rd => rd.1 + rd.2 <= seg_start + Z.of_nat k' * S_) reads' /\
    (reads' = reads /\ k' = k \/ forall rd : Z * Z, list.last reads' = Some rd -> seg_start + (Z.of_nat k' - 2) * S_ <= rd.1).
Proof using Hc Hi He HS Hs Ha.
  revert off a k reads. induction n as [|n IH]; intros off a k reads Hah Hrd Ho; cbn [submissions]; [exists k; naive_solver|].
  destruct (Z.ltb_spec off effective_end) as [Hlt|]; [|exists k; naive_solver].
  destruct (ahead_advised off a k Hah Hlt) as (k1 & Hk1 & Had). destruct (advised_read _ _ _ Had Hlt) as (Hend & Hstart & Hnext).
  unfold push_read. rewrite submit_len_eq by lia. unfold sat_add64. rewrite Z.min_r by (unfold u64_max, i64_max in *; lia).
  assert (Z.of_nat k * S_ <= Z.of_nat k1 * S_) by (apply Z.mul_le_mono_nonneg_r; [nia|lia]).
  edestruct (IH _ _ k1 (reads ++ [(off, Z.min chunk_size (effective_end - off))]) Hnext) as (k2 & H2).
  { apply list.Forall_app. split; [eapply list.Forall_impl; [exact Hrd|]; cbn beta; intros rd ?; lia|]. by repeat constructor. }
  { lia. }
  exists k2. destruct (submissions _ _ _ _ _ n _ _ _) as [[off' a'] reads']. destruct H2 as (H2 & Hf & Hl). split; [done|]. split; [done|]. right.
  destruct Hl as [[-> ->]|Hl]; [|done]. intros rd. rewrite last_snoc. intros [= <-]. cbn. lia.
Qed.
End ReadAheadProofs.

(** ** Properties *)

(** Read-ahead: the sections that are announced are the first sections of the
    range, each once and in order; after any number of submissions every
    submitted read lies in announced sections, nothing further than one
    section past the last read is announced, and when everything is submitted
    the whole range is. *)
Theorem readahead_one_section_ahead (direct : bool) (chunk_size inflight seg_start effective_end : Z) (n : nat) :
  0 < chunk_size -> 1 <= inflight -> 0 <= seg_start < effective_end -> effective_end <= i64_max ->
  inflight * chunk_size <= i64_max -> (direct = true -> chunk_size mod ALIGN = 0) ->
  let S_ := inflight * chunk_size in
  let '(off, a, reads) := submissions direct chunk_size inflight seg_start effective_end n seg_start (seed chunk_size inflight seg_start effective_end) [] in
  exists k, advised a = section_of chunk_size inflight seg_start effective_end <$> seq 0 k /\
    seg_start + (Z.of_nat k - 1) * S_ < effective_end /\
    Forall (fun rd => rd.1 + rd.2 <= seg_start + Z.of_nat k * S_) reads /\
    (forall rd : Z * Z, list.last reads = Some rd -> seg_start + (Z.of_nat k - 2) * S_ <= rd.1) /\
    (effective_end <= off -> effective_end <= seg_start + Z.of_nat k * S_).
Proof.
  intros Hc Hi Hs He HS Ha S_.
  destruct (submissions_ahead direct chunk_size inflight seg_start effective_end Hc Hi Hs He HS Ha n seg_start _ 1 []
              (ahead_seed chunk_size inflight seg_start effective_end Hc Hi Hs He HS)) as (k & H); [constructor|lia|].
  destruct (submissions _ _ _ _ _ _ _ _ _) as [[off a] reads]. destruct H as ((Hn & Hl & Hk & Hoff) & Hf & Hlast). exists k. split_and!; [done..| |].
  - intros rd E. destruct Hlast as [[-> _]|Hlast]; [done|]. by apply Hlast.
  - intros Hge. destruct Hoff as [[_ ?]|[? _]]; [done|lia].
Qed.

Lemma readahead_one_section_ahead_witness :
  let '(off, a, reads) := submissions false 10 2 5 68 7 5 (seed 10 2 5 68) [] in
  off = 68 /\ advised a = [(5, 20); (25, 20); (45, 20); (65, 3)] /\ exists k, advised a = section_of 10 2 5 68 <$> seq 0 k.
Proof.
  pose proof (readahead_one_section_ahead false 10 2 5 68 7 ltac:(lia) ltac:(lia) ltac:(lia) ltac:(vm_compute; discriminate) ltac:(vm_compute; discriminate) ltac:(done)) as H.
  destruct (submissions _ _ _ _ _ _ _ _ _) as [[off a] reads] eqn:E. vm_compute in E. injection E as <- <- <-. destruct H as (k & H & _). by split_and!; [..|exists k].
Defined.

(** Advice: each of the four calls is made exactly when the file is on
    Lustre and the range is not empty and ends below [2^64]; what it names is
    exactly the bytes from [start] for [len], and it is asynchronous exactly
    when it is about reading. *)
Definition names_range (start len : Z) (c : ladvise_call) : Prop :=
  Forall (fun a => forall x, lla_start a <= x <= lla_end a <-> start <= x < start + len) (call_advs c).
Theorem advice_exact (fstatfs : option Z) (start len : Z) (kind : lu_ladvise_type) (value1 : Z) :
  is_u64 start -> is_u64 len ->
  let calls := advise_if_lustre fstatfs (ladvise_range kind start len value1) in
  (fstatfs = Some LL_SUPER_MAGIC /\ 0 < len /\ start + len <= 2 ^ 64 ->
     exists c, calls = [c] /\ names_range start len c /\ (call_async c = true <-> kind = LU_LADVISE_WILLREAD)) /\
  (~ (fstatfs = Some LL_SUPER_MAGIC /\ 0 < len /\ start + len <= 2 ^ 64) -> calls = []).
Proof.
  intros Hs Hl. unfold advise_if_lustre, is_lustre_fd, ladvise_range, build_adv, is_u64, u64_max in *. cbn zeta. split.
  - intros (-> & Hp & Hr). rewrite bool_decide_true by done. rewrite (proj2 (Z.eqb_neq len 0)) by lia.
    rewrite (proj2 (checked_add64_some start (len - 1) (start + len - 1))) by (unfold u64_max; lia). cbn. eexists. split; [done|]. unfold names_range.
    split; [constructor; [intros x; cbn [lla_start lla_end]; lia|constructor]|]. cbn. rewrite orb_false_r. apply bool_decide_eq_true.
  - intros Hn. case_bool_decide; [|done]. destruct (Z.eqb_spec len 0); [done|]. unfold checked_add64, u64_max.
    destruct (Z.leb_spec (start + (len - 1)) (2 ^ 64 - 1)); [|done]. exfalso. apply Hn. split_and!; [done|lia|lia].
Qed.

Lemma advice_exact_witness :
  exists c, advise_willread (Some LL_SUPER_MAGIC) 4096 8192 = [c] /\ names_range 4096 8192 c.
Proof.
  destruct (advice_exact (Some LL_SUPER_MAGIC) 4096 8192 LU_LADVISE_WILLREAD 0) as [H _]; [vm_compute; intuition congruence..|].
  destruct H as (c & E & Hr & _); [vm_compute; intuition congruence|]. by exists c.
Defined.

(** Creation is left alone elsewhere: when the parent is not on Lustre, or
    cannot be examined, [file_create] answers success without any call, and
    [open_file] creates the file itself. *)
Lemma file_create_elsewhere {O : OpenOs} statfs path create l (s : os) :
  statfs (default "."%string (path_parent path)) <> Some LL_SUPER_MAGIC -> file_create statfs path create l s = (inr tt, s).
Proof.
  intros H. unfold file_create, skip_if_not_lustre_parent, is_lustre_path. rewrite (bool_decide_false _ H). by destruct (_ || _)%bool eqn:E at 1.
Qed.
