(* ===== verification/Pagination.v ===== *)
(** * Paging through a listing

    A page is a prefix of what is left to list, and the continuation token
    stands for the rest: following the tokens yields every entry once, in
    order, whatever the page size.  A listing without a delimiter is the
    sorted list of the keys of the regular files and of the empty
    directories below the prefix. *)

From Stdlib Require Import ZArith Lia Ascii.
From stdpp Require Import base list strings numbers option gmap sorting.
From S2P Require Import Classifier.
From S2P Require Import Prelude RustStr Http Utils UriEncoding S3Resp Bytes FsHelpers FileSystem GatewayHelpers Listing.

Local Open Scope Z_scope.

(** ** Entries of one directory *)
Section Entries.
Context {E : ListEnv}.
Context (names_ok : forall p name n, l_fs !! (p ++ [name]) = Some n -> safe_component name).

(** The item an entry of the tree is listed as *)
Definition item_at (p : path) (name : string) (n : node) : DirItem :=
  {| it_name := name; sort_key := (if is_dir_node n then name +:+ slash else name)%string;
     it_is_dir := is_dir_node n; it_path := p ++ [name] |}.

Lemma dir_item_some p e it : dir_item p e = Some it -> it = item_at p (fst e) (snd e).
Proof. unfold dir_item. case_match; [done|]. by intros [= <-]. Qed.

Lemma elem_of_dir_items p it :
  it ∈ omap (dir_item p) (children l_fs p) -> exists n, l_fs !! (p ++ [it_name it]) = Some n /\ it = item_at p (it_name it) n.
Proof.
  intros ([name n] & Hin & Hit)%list_elem_of_omap. apply dir_item_some in Hit as ->. cbn.
  apply elem_of_children in Hin. eauto.
Qed.

(** Sort keys are distinct, because names are. *)
Lemma sort_key_inj p n1 n2 a b :
  safe_component a -> safe_component b ->
  sort_key (item_at p a n1) = sort_key (item_at p b n2) -> a = b.
Proof.
  intros (_ & _ & _ & Ha & _) (_ & _ & _ & Hb & _). cbn.
  destruct (is_dir_node n1), (is_dir_node n2); intros H; try done.
  - apply (f_equal (strip_suffix slash)) in H. rewrite !strip_suffix_app in H. congruence.
  - subst b. rewrite contains_char_app in Hb. cbn in Hb. by rewrite orb_true_r in Hb.
  - subst a. rewrite contains_char_app in Ha. cbn in Ha. by rewrite orb_true_r in Ha.
Qed.

Lemma dir_items_NoDup p : NoDup (sort_key <$> omap (dir_item p) (children l_fs p)).
Proof using names_ok.
  assert (forall l : list (string * node), (forall e, e ∈ l -> safe_component (fst e)) -> NoDup (fst <$> l) ->
    NoDup (sort_key <$> omap (dir_item p) l)) as H.
  { induction l as [|[name n] l IH]; cbn; intros Hs Hnd; [constructor|].
    apply NoDup_cons in Hnd as [Hn Hnd].
    assert (NoDup (sort_key <$> omap (dir_item p) l)) as IH' by (apply IH; [set_solver|done]).
    destruct (dir_item p (name, n)) as [it|] eqn:Ei; [|done]. cbn. apply NoDup_cons. split; [|done].
    intros (it' & Hk & ([name' n'] & Hin & Hi)%list_elem_of_omap)%list_elem_of_fmap.
    apply dir_item_some in Ei as ->, Hi as ->. cbn [fst snd] in Hk. apply Hn.
    apply sort_key_inj in Hk as ->; [|apply (Hs (name, n)); set_solver|apply (Hs (name', n')); set_solver].
    apply list_elem_of_fmap. by exists (name', n'). }
  apply H; [|apply children_NoDup]. intros [name n] Hin%elem_of_children. cbn. eauto.
Qed.

Definition item_lt (a b : DirItem) : Prop := str_lt (sort_key a) (sort_key b).

#[local] Instance item_le_total : Total item_le.
Proof. intros a b. apply (str_le_total (sort_key a) (sort_key b)). Qed.
#[local] Instance item_le_trans : Transitive item_le.
Proof. intros a b c. apply (str_le_trans (sort_key a)). Qed.

Lemma sorted_strict l : StronglySorted item_le l -> NoDup (sort_key <$> l) -> StronglySorted item_lt l.
Proof.
  induction 1 as [|a l Hl IH Ha]; cbn; [constructor|]. intros [Hn Hnd]%NoDup_cons. constructor; [auto|].
  apply list.Forall_forall. intros b Hb. apply str_lt_iff. split; [by eapply list.Forall_forall in Ha|].
  intros Heq. apply Hn. apply list_elem_of_fmap. eauto.
Qed.

(** What [load_dir] finds: items of the tree, strictly sorted. *)
Record loaded (p : path) (es : list DirItem) : Prop := {
  loaded_sorted : StronglySorted item_lt es;
  loaded_item : forall it, it ∈ es -> exists n, l_fs !! (p ++ [it_name it]) = Some n /\ it = item_at p (it_name it) n;
}.

Lemma filter_loaded p es (P : DirItem -> Prop) `{forall x, Decision (P x)} : loaded p es -> loaded p (filter P es).
Proof.
  intros [Hs Hi]. split.
  - clear Hi. induction Hs as [|a l Hl IH Ha]; [constructor|]. rewrite filter_cons. case_decide; [|done].
    constructor; [done|]. apply list.Forall_forall. intros b [_ Hb]%list_elem_of_filter. by eapply list.Forall_forall in Ha.
  - intros it [_ Hin]%list_elem_of_filter. auto.
Qed.

Lemma read_dir_sorted_loaded p es : read_dir_sorted p = Ok es -> loaded p es.
Proof using names_ok.
  unfold read_dir_sorted. destruct (faulty_read_dir p) as [l|e|] eqn:Er; [|by destruct e; intros; simplify_eq; split; [constructor|set_solver]|done].
  intros [= <-]. assert (l = children l_fs p) as ->.
  { unfold faulty_read_dir in Er. case_match; [done|]. by apply read_dir_ok in Er as [_ ->]. }
  pose proof (merge_sort_Permutation item_le (omap (dir_item p) (children l_fs p))) as Hp. split.
  - apply sorted_strict; [by apply StronglySorted_merge_sort; apply _|]. rewrite Hp. apply dir_items_NoDup.
  - intros it Hin. rewrite Hp in Hin. by apply elem_of_dir_items.
Qed.

Lemma load_dir_loaded bucket lf r dir es :
  load_dir bucket lf r dir = Some es -> exists p, join_object_path l_posix_root bucket dir = Ok p /\ loaded p es.
Proof using names_ok.
  unfold load_dir. destruct (join_object_path _ _ _) as [p| |]; [|done..].
  destruct (read_dir_sorted p) as [l| |] eqn:Er; [|done..]. intros [= <-]. exists p. split; [done|].
  apply read_dir_sorted_loaded in Er. destruct r, lf; try done. by apply filter_loaded.
Qed.

(** A directory longer than every path of the tree has no entries. *)
Lemma read_dir_deep p es : (max_depth <= length p)%nat -> read_dir_sorted p = Ok es -> es = [].
Proof using names_ok.
  intros Hd Hr. apply read_dir_sorted_loaded in Hr as [_ Hi]. destruct es as [|it es]; [done|].
  destruct (Hi it) as (n & Hn & _); [set_solver|]. exfalso.
  assert (length (p ++ [it_name it]) <= max_depth)%nat as Hle.
  { apply max_list_elem_of_le. apply list_elem_of_fmap. exists (p ++ [it_name it]). split; [done|].
    apply list_elem_of_fmap. exists (p ++ [it_name it], n). split; [done|]. by apply elem_of_map_to_list. }
  rewrite length_app in Hle. cbn in Hle. lia.
Qed.

(** *** The cursor *)
Lemma sort_key_nonempty p name n : safe_component name -> sort_key (item_at p name n) <> ""%string.
Proof. intros (Hne & _). cbn. destruct name; [done|]. by destruct (is_dir_node n). Qed.

Lemma index_after_sorted es i it :
  StronglySorted item_lt es -> es !! i = Some it -> index_after es (sort_key it) = S i.
Proof.
  intros Hs. revert i. induction Hs as [|a l Hl IH Ha]; intros i Hi; [done|]. cbn.
  destruct i as [|i]; cbn in Hi.
  - simplify_eq. assert (String.leb (sort_key it) (sort_key it) = true) as -> by apply (str_le_refl (sort_key it)).
    cbn. f_equal. destruct l as [|b l]; [done|]. cbn. apply Forall_cons_iff in Ha as [Ha _].
    by rewrite (proj2 (str_lt_leb _ _) Ha).
  - assert (str_lt (sort_key a) (sort_key it)) as Hlt. { eapply list.Forall_forall in Ha; [exact Ha|]. by eapply list_elem_of_lookup_2. }
    apply str_lt_iff in Hlt as [Hle _]. unfold str_le in Hle. rewrite Hle. cbn. f_equal. by apply IH.
Qed.

Lemma first_index_after_entry p es i it :
  loaded p es -> es !! i = Some it -> first_index_after es (sort_key it) = S i.
Proof using names_ok.
  intros [Hs Hl] Hi. unfold first_index_after.
  destruct (Hl it) as (n & Hn & Heq); [by eapply list_elem_of_lookup_2|].
  rewrite (proj2 (is_empty_false _)); [by apply index_after_sorted|]. rewrite Heq. apply sort_key_nonempty. eauto.
Qed.
End Entries.

(** ** The walk *)

Definition objects_of (l : list listed) : list ListObjectInfo :=
  omap (fun x => match x with LObject o => Some o | LPrefix _ => None end) l.
Definition prefixes_of (l : list listed) : list string :=
  omap (fun x => match x with LPrefix p => Some p | LObject _ => None end) l.
Definition listed_key (x : listed) : string := match x with LObject o => lo_key o | LPrefix p => p end.

Lemma objects_prefixes_length l : (length (objects_of l) + length (prefixes_of l) = length l)%nat.
Proof. unfold objects_of, prefixes_of in *. induction l as [|[] l IH]; cbn; lia. Qed.

Section Walks.
Context {E : ListEnv}.
Context (names_ok : forall p name n, l_fs !! (p ++ [name]) = Some n -> safe_component name).
Context (bucket prefix : string) (leaf_filter : option string) (recursive want_owner : bool).

Local Abbreviation vis := (visit recursive want_owner prefix).
Local Abbreviation dtrace := (dir_trace bucket prefix leaf_filter recursive want_owner).
Local Abbreviation strace := (stack_trace bucket prefix leaf_filter recursive want_owner).
Local Abbreviation ftrace := (frame_trace bucket prefix leaf_filter recursive want_owner).

Lemma visit_descend dir it child :
  vis dir it = Descend child ->
  child = (dir +:+ it_name it +:+ "/")%string /\ it_is_dir it = true /\
  (dir = ""%string -> it_name it <> l_mpu_dir_name).
Proof.
  unfold visit. destruct (is_empty dir && it_is_dir it && (it_name it =s l_mpu_dir_name)%s3) eqn:Eh; [done|].
  destruct (it_is_dir it) eqn:Ed; [|repeat case_match; done].
  destruct recursive; cbn; [|done]. destruct (dir_is_empty _); [repeat case_match; done|]. intros [= <-].
  split_and!; [done..|]. intros ->. cbn in Eh. by apply str_eqb_false in Eh.
Qed.

Lemma child_dir_form (dir name : string) : dir_form (dir +:+ name +:+ "/").
Proof. right. exists (dir +:+ name)%string. by rewrite str_app_assoc. Qed.

Lemma visit_trace_ext s1 s2 dir es :
  (forall it child, it ∈ es -> vis dir it = Descend child -> s1 child = s2 child) ->
  concat (visit_trace prefix recursive want_owner s1 dir <$> es)
  = concat (visit_trace prefix recursive want_owner s2 dir <$> es).
Proof.
  intros H. induction es as [|it es IH]; cbn; [done|]. f_equal; [|apply IH; set_solver].
  unfold visit_trace. destruct (vis dir it) eqn:Ev; try done. f_equal. apply (H it); [set_solver|done].
Qed.

(** The nesting bound is large enough. *)
Lemma dir_trace_stable d dir :
  dir_form dir ->
  (forall p, join_object_path l_posix_root bucket dir = Ok p -> max_depth <= length p + d)%nat ->
  dtrace (S d) dir = dtrace (S (S d)) dir.
Proof using names_ok.
  revert dir. induction d as [|d IH]; intros dir Hf Hd.
  - cbn [dir_trace]. destruct (load_dir bucket leaf_filter false dir) as [es|] eqn:El; [|done].
    assert (es = []) as ->; [|done]. unfold load_dir in El. destruct (join_object_path _ _ _) as [p| |] eqn:Ej; [|done..].
    destruct (read_dir_sorted p) as [l| |] eqn:Er; [|done..]. apply (read_dir_deep names_ok) in Er; [|specialize (Hd p eq_refl); lia].
    subst l. by injection El as <-.
  - change (dtrace (S (S ?x)) dir) with (match load_dir bucket leaf_filter false dir with
      | None => [None] | Some es => concat (visit_trace prefix recursive want_owner (dtrace (S x)) dir <$> es) ++ [None] end).
    destruct (load_dir bucket leaf_filter false dir) as [es|] eqn:El; [|done]. f_equal.
    apply visit_trace_ext. intros it child Hit Hv.
    destruct (load_dir_loaded names_ok _ _ _ _ _ El) as (p & Hj & [_ Hl]).
    destruct (Hl it Hit) as (n & Hn & _). apply visit_descend in Hv as (-> & _ & _).
    destruct (join_entry l_posix_root bucket dir (it_name it) p) as [_ Hc]; [done|eauto|done|].
    apply IH; [apply child_dir_form|]. intros q. rewrite Hc. intros [= <-]. rewrite length_app. cbn.
    specialize (Hd p Hj). lia.
Qed.

Lemma dir_trace_deep dir :
  dir_form dir -> dtrace (S (S max_depth)) dir = dtrace (S (S (S max_depth))) dir.
Proof using names_ok. intros Hf. apply dir_trace_stable; [done|]. intros. lia. Qed.

Context (mpu_ok : contains_char "/" l_mpu_dir_name = false).

(** A frame whose cursor and index agree *)
Definition frame_ok (is_root : bool) (f : RuntimeFrame) : Prop :=
  (dir_form (dir_key f) /\ is_reserved_first_segment (dir_key f) l_mpu_dir_name = false) /\
  forall es, entries f = Some es ->
    load_dir bucket leaf_filter is_root (dir_key f) = Some es /\ idx f = first_index_after es (after f).
Fixpoint stack_ok (s : list RuntimeFrame) : Prop :=
  match s with
  | [] => True
  | f :: s => frame_ok (bool_decide (s = [])) f /\ stack_ok s
  end.

(** A frame of a token the walk can start from *)
Definition saved_ok (f : ListV2Frame) : Prop :=
  dir_form (fr_dir f) /\ is_reserved_first_segment (fr_dir f) l_mpu_dir_name = false.

Lemma stack_start_ok fs : Forall saved_ok fs -> stack_ok (start_frame <$> fs).
Proof. induction 1 as [|f fs Hf _ IH]; cbn; [done|]. split; [by split|done]. Qed.

Lemma stack_saved_ok s : stack_ok s -> Forall saved_ok (save_frame <$> s).
Proof. induction s as [|f s IH]; cbn; [constructor|]. intros [[Hf _] Hs]. constructor; [done|auto]. Qed.

(** The walk never enters the multipart directory. *)
Lemma child_unreserved dir name :
  dir_form dir -> safe_component name -> (dir = ""%string -> name <> l_mpu_dir_name) ->
  is_reserved_first_segment dir l_mpu_dir_name = false ->
  is_reserved_first_segment (dir +:+ name +:+ "/") l_mpu_dir_name = false.
Proof using mpu_ok.
  intros Hd (_ & _ & _ & Hn & _) Hm Hr. apply not_true_is_false. rewrite reserved_head, trim_end_head by done.
  apply not_true_iff_false in Hr. rewrite reserved_head, trim_end_head in Hr by done. intros H. apply Hr. clear Hr.
  destruct Hd as [->|[d' ->]].
  - cbn in H. rewrite head_split_app, split_absent in H by done. cbn in H. by destruct (Hm eq_refl); congruence.
  - rewrite str_app_assoc in H. cbn in H. rewrite head_split_app in H. by rewrite head_split_app.
Qed.

(** Reloading a saved frame gives the frame back. *)
Lemma frame_reload r f : frame_ok r f -> ftrace r (start_frame (save_frame f)) = ftrace r f.
Proof.
  intros [_ Hok]. unfold frame_trace, ensure_frame_loaded. cbn. destruct (entries f) as [es|] eqn:Ee; [|done].
  destruct (Hok es eq_refl) as [-> Hi]. cbn. by rewrite Ee, Hi.
Qed.

Lemma stack_reload s : stack_ok s -> strace (start_frame <$> (save_frame <$> s)) = strace s.
Proof.
  induction s as [|f s IH]; cbn; [done|]. intros [Hf Hs]. rewrite IH by done. f_equal.
  assert (bool_decide (start_frame <$> (save_frame <$> s) = []) = bool_decide (s = [])) as -> by (by destruct s).
  by apply frame_reload.
Qed.

Lemma frame_trace_start dir :
  ftrace false {| dir_key := dir; after := ""; entries := None; idx := 0 |} = dtrace (S (S (S max_depth))) dir.
Proof.
  unfold frame_trace, ensure_frame_loaded. cbn [entries dir_key after].
  change (dtrace (S (S (S max_depth))) dir) with (match load_dir bucket leaf_filter false dir with
    | None => [None] | Some es => concat (visit_trace prefix recursive want_owner (dtrace (S (S max_depth))) dir <$> es) ++ [None] end).
  by destruct (load_dir bucket leaf_filter false dir).
Qed.

(** One pass consumes one element of the trace. *)
Lemma ensure_ok r f f' :
  frame_ok r f -> ensure_frame_loaded bucket leaf_filter r f = Some f' ->
  frame_ok r f' /\ dir_key f' = dir_key f /\ exists es, entries f' = Some es /\
    load_dir bucket leaf_filter r (dir_key f) = Some es.
Proof.
  intros [Hd Hok]. unfold ensure_frame_loaded. destruct (entries f) as [es|] eqn:Ee.
  - intros [= <-]. destruct (Hok es eq_refl) as [Hl Hi]. split_and!; [|done|eauto]. split; [done|].
    intros es'. rewrite Ee. by intros [= <-].
  - destruct (load_dir bucket leaf_filter r (dir_key f)) as [es|] eqn:El; [|done]. cbn. intros [= <-]. cbn.
    split_and!; [|done|eauto]. split; [done|]. cbn. by intros es' [= <-].
Qed.

Definition emits (st st' : walk_state) (new : list listed) : Prop :=
  contents st' = contents st ++ objects_of new /\
  common_prefixes st' = common_prefixes st ++ prefixes_of new /\
  last_emitted st' = match list.last new with Some x => Some (listed_key x) | None => last_emitted st end.

Lemma walk_step_spec top below st :
  stack_ok (top :: below) ->
  exists ev, strace (top :: below) = ev :: strace (stack (walk_step bucket prefix leaf_filter recursive want_owner top below st)) /\
    stack_ok (stack (walk_step bucket prefix leaf_filter recursive want_owner top below st)) /\
    emits st (walk_step bucket prefix leaf_filter recursive want_owner top below st) (option_list ev).
Proof using names_ok mpu_ok.
  intros [Hf Hs]. unfold walk_step. cbn [stack_trace]. set (r := bool_decide (below = [])) in *.
  unfold frame_trace at 1.
  destruct (ensure_frame_loaded bucket leaf_filter r top) as [top'|] eqn:El.
  2:{ exists None. split_and!; [done|done|]. split_and!; cbn; by rewrite ?app_nil_r. }
  destruct (ensure_ok r top top' Hf El) as ([[Hd Hres] Hok] & Hk & es & He & Hl). rewrite Hk in *. rewrite He. change (default [] (Some es)) with es.
  destruct (Hok es He) as [_ Hidx].
  destruct (es !! idx top') as [it|] eqn:Ei.
  2:{ exists None. rewrite drop_ge by (by apply lookup_ge_None). cbn. split_and!; [done|done|].
      split_and!; cbn; by rewrite ?app_nil_r. }
  rewrite (drop_S _ _ _ Ei). cbn [fmap list_fmap concat].
  destruct (load_dir_loaded names_ok _ _ _ _ _ Hl) as (p & Hj & Hld).
  set (next := {| dir_key := _; after := _; entries := _; idx := _ |}). cbn [dir_key].
  assert (frame_ok r next) as Hnext.
  { split; [done|]. intros es' [= <-]. split; [exact Hl|]. cbn. symmetry. by eapply first_index_after_entry. }
  assert (forall b, frame_trace bucket prefix leaf_filter recursive want_owner b next =
     concat (visit_trace prefix recursive want_owner (dtrace (S (S max_depth))) (dir_key top) <$> drop (S (idx top')) es) ++ [None]) as Htr.
  { intros b. unfold frame_trace. cbn. done. }
  assert (strace (next :: below) = ftrace r next ++ strace below) as Hstr by done.
  change (dir_key next) with (dir_key top).
  unfold visit_trace at 1. destruct (vis (dir_key top) it) as [o|cp|child|] eqn:Ev; cbn [stack set_stack].
  - exists (Some (LObject o)). rewrite Hstr, Htr. split_and!; [by rewrite <- !app_assoc|by split|]. split_and!; cbn; by rewrite ?app_nil_r.
  - exists (Some (LPrefix cp)). rewrite Hstr, Htr. split_and!; [by rewrite <- !app_assoc|by split|]. split_and!; cbn; by rewrite ?app_nil_r.
  - exists None. apply visit_descend in Ev as (-> & _ & Hmpu). cbn [stack_trace].
    destruct (loaded_item _ _ Hld it) as (n & Hn & _); [by eapply list_elem_of_lookup_2|]. rewrite bool_decide_false by done. fold r. rewrite Htr.
    rewrite dir_trace_deep, frame_trace_start by apply child_dir_form. split_and!.
    + by rewrite <- !app_assoc.
    + split; [|by split]. split; [|done]. split; [apply child_dir_form|]. apply child_unreserved; eauto.
    + split_and!; cbn; by rewrite ?app_nil_r.
  - exists None. rewrite Hstr, Htr. split_and!; [by rewrite <- !app_assoc|by split|]. split_and!; cbn; by rewrite ?app_nil_r.
Qed.

Lemma emits_trans st st1 st2 n1 n2 : emits st st1 n1 -> emits st1 st2 n2 -> emits st st2 (n1 ++ n2).
Proof.
  intros (H1 & H2 & H3) (H4 & H5 & H6). unfold emits, objects_of, prefixes_of in *.
  rewrite !omap_app, H4, H5, H6, H1, H2, H3, <- !app_assoc. split_and!; [done..|].
  rewrite last_app. by destruct (list.last n2).
Qed.

Lemma emits_count st st' new : emits st st' new -> emitted st' = emitted st + Z.of_nat (length new).
Proof.
  intros (H1 & H2 & _). unfold emitted. rewrite H1, H2, !length_app. pose proof (objects_prefixes_length new). lia.
Qed.

Lemma omap_option_list {A} (o : option A) l : omap id (o :: l) = option_list o ++ omap id l.
Proof. by destruct o. Qed.

(** The loop emits a prefix of what is left and stops when the page is full
    or nothing is left. *)
Lemma walk_spec fuel max st :
  stack_ok (stack st) -> (length (strace (stack st)) <= fuel)%nat -> emitted st <= max ->
  exists st' new, walk bucket prefix leaf_filter recursive want_owner fuel max st = Some st' /\
    stack_ok (stack st') /\ emits st st' new /\
    omap id (strace (stack st)) = new ++ omap id (strace (stack st')) /\
    (emitted st' = max \/ stack st' = []).
Proof using names_ok mpu_ok.
  revert st. induction fuel as [|fuel IH]; intros st Hok Hfuel Hmax; cbn [walk];
    destruct (Z.leb_spec max (emitted st)) as [Hle|Hlt].
  all: try (exists st, []; split_and!; [done|done|split_and!; by rewrite ?app_nil_r|done|left; lia]).
  all: destruct (stack st) as [|top below] eqn:Es;
    [exists st, []; split_and!; [done|by rewrite Es|split_and!; by rewrite ?app_nil_r|by rewrite Es|by right]|].
  all: destruct (walk_step_spec top below st) as (ev & Htr & Hok1 & Hem); [done|]; rewrite Htr in *; cbn in Hfuel.
  { lia. }
  set (st1 := walk_step _ _ _ _ _ _ _ _) in *.
  assert (emitted st1 <= max) as Hm1. { rewrite (emits_count _ _ _ Hem). destruct ev; cbn; lia. }
  destruct (IH st1) as (st' & new & Hw & Hok' & Hem' & Hrest & Hstop); [done|lia|done|].
  exists st', (option_list ev ++ new). split_and!; [done|done|by eapply emits_trans| |done].
  by rewrite omap_option_list, Hrest, app_assoc.
Qed.

Lemma fmap_rev {A B} (f : A -> B) l : f <$> rev l = rev (f <$> l).
Proof. apply List.map_rev. Qed.

(** What is left to list, from the frames of a token *)
Definition listing (frames : list ListV2Frame) : list listed := omap id (strace (rev (start_frame <$> frames))).

Lemma run_walk_spec frames max :
  Forall saved_ok frames -> 0 <= max ->
  exists st new, run_walk bucket prefix leaf_filter recursive want_owner frames max = Some st /\
    Forall saved_ok (save_frame <$> rev (stack st)) /\
    contents st = objects_of new /\ common_prefixes st = prefixes_of new /\
    last_emitted st = listed_key <$> list.last new /\ emitted st = Z.of_nat (length new) /\
    listing frames = new ++ listing (save_frame <$> rev (stack st)) /\
    (Z.of_nat (length new) = max \/ stack st = []).
Proof using names_ok mpu_ok.
  intros Hf Hm. unfold run_walk. set (s := rev (start_frame <$> frames)).
  assert (stack_ok s) as Hs.
  { subst s. rewrite <- fmap_rev. apply stack_start_ok. by apply List.Forall_rev. }
  destruct (walk_spec (length (strace s)) max {| stack := s; contents := []; common_prefixes := []; last_emitted := None |})
    as (st & new & Hw & Hok & Hem & Hrest & Hstop); [done|done|done|].
  pose proof (emits_count _ _ _ Hem) as Hcount.
  change (emitted {| stack := s; contents := []; common_prefixes := []; last_emitted := None |}) with 0 in Hcount.
  destruct Hem as (Hc & Hp & Hl). cbn in *.
  exists st, new. split_and!; try done.
  - rewrite fmap_rev. apply List.Forall_rev. by apply stack_saved_ok.
  - unfold listing. fold s. rewrite Hrest. f_equal. rewrite <- !fmap_rev, rev_involutive. by rewrite stack_reload.
  - destruct Hstop; [left|right]; lia || done.
Qed.
End Walks.

(** ** Following continuation tokens *)

Lemma split_prefix_form prefix : dir_form (fst (split_prefix prefix)).
Proof.
  unfold split_prefix. destruct (is_empty prefix || ends_with slash prefix) eqn:E; cbn.
  - apply orb_true_iff in E as [->%is_empty_true|He]; [by left|]. apply ends_with_spec in He as (r & ->). right. by exists r.
  - destruct (rsplit_once "/" prefix) as [[a b]|]; cbn; [|by left].
    destruct a as [|x a]; cbn; [by left|]. right. by exists (String x a).
Qed.

Lemma descend_frames_form dir parts : dir_form dir -> Forall (fun f => dir_form (fr_dir f)) (descend_frames dir parts).
Proof.
  revert dir. induction parts as [|x [|y parts] IH]; intros dir Hd; cbn; [by apply Forall_singleton..|].
  constructor; [done|]. apply IH. right. exists (dir +:+ x)%string. by rewrite str_app_assoc.
Qed.

Lemma build_stack_form dir last_key recursive :
  dir_form dir -> Forall (fun f => dir_form (fr_dir f)) (build_stack_from_last dir last_key recursive).
Proof.
  intros Hd. unfold build_stack_from_last. destruct (strip_prefix dir last_key); [|by apply Forall_singleton].
  repeat case_match; try (by apply Forall_singleton). by apply descend_frames_form.
Qed.

Lemma build_stack_nonempty dir last_key recursive : build_stack_from_last dir last_key recursive <> [].
Proof.
  unfold build_stack_from_last. destruct (strip_prefix dir last_key); [|done].
  repeat case_match; try done. destruct (filter _ _) as [|x [|y l]]; done.
Qed.

Section V2.
Context {E : ListEnv}.
Context (names_ok : forall p name n, l_fs !! (p ++ [name]) = Some n -> safe_component name).
Context (mpu_ok : contains_char "/" l_mpu_dir_name = false).
Context (codec : forall t, exists s, encode_token t = Some s /\ decode_token s = Ok t).

(** The next request of a client: the same query with the token *)
Definition with_token (t : string) (class : S3RequestClass) : S3RequestClass :=
  {| Classifier.bucket := Classifier.bucket class; Classifier.key := Classifier.key class;
     Classifier.query := <["continuation-token"%string := [t]]> (Classifier.query class);
     Classifier.op := Classifier.op class |}.

(** A client that follows at most [n] tokens and gathers the pages *)
Fixpoint follow_v2 (n : nat) (path : string) (class : S3RequestClass) : option (list ListObjectInfo * list string) :=
  match handle_list_objects_v2 path class with
  | Some (Ok r) =>
      match v2_is_truncated r, v2_next_token r with
      | true, Some t =>
          match n with
          | O => None
          | S n => '(cs, ps) ← follow_v2 n path (with_token t class);
                   Some (v2_contents r ++ cs, v2_common_prefixes r ++ ps)
          end
      | _, _ => Some (v2_contents r, v2_common_prefixes r)
      end
  | _ => None
  end.

(** A request that reaches the walk *)
Record listable (path : string) (class : S3RequestClass) (bucket prefix : string) (recursive : bool) : Prop := {
  ls_bucket : Classifier.bucket class = Some bucket;
  ls_nonempty : bucket <> ""%string;
  ls_type : first (Classifier.query class) "list-type" = Some "2"%string;
  ls_exists : bucket_refusal bucket path = None;
  ls_prefix : default ""%string (first (Classifier.query class) "prefix") = prefix;
  ls_delimiter : recursive_of (delimiter_of (Classifier.query class)) = Ok recursive;
  ls_max : 1 <= max_keys_of (Classifier.query class);
  ls_unreserved : prefix = ""%string \/ is_reserved_first_segment prefix l_mpu_dir_name = false;
  ls_start : exists p, join_object_path l_posix_root bucket (fst (split_prefix prefix)) = Ok p /\ dir_visible p = true;
}.

Lemma first_insert_ne (q : QueryParams) k k' v :
  to_ascii_lowercase k <> k' -> first (<[k' := v]> q) k = first q k.
Proof. intros H. unfold first. by rewrite lookup_insert_ne. Qed.

Lemma first_token (q : QueryParams) t :
  first (<["continuation-token"%string := [t]]> q) "continuation-token" = Some t.
Proof. unfold first. change (to_ascii_lowercase "continuation-token") with "continuation-token"%string. by rewrite lookup_insert_eq. Qed.

Lemma with_token_listable path class bucket prefix recursive t :
  listable path class bucket prefix recursive -> listable path (with_token t class) bucket prefix recursive.
Proof.
  intros []. split; cbn; try done; unfold delimiter_of, max_keys_of in *; rewrite ?first_insert_ne by (vm_compute; done); done.
Qed.

Definition wants_owner (class : S3RequestClass) : bool :=
  bool_decide (is_Some (first (Classifier.query class) "fetch-owner")).

(** What a request with these frames has left to list *)
Definition listing_of (class : S3RequestClass) (bucket prefix : string) (recursive : bool) (frames : list ListV2Frame) : list listed :=
  listing bucket prefix (snd (split_prefix prefix)) recursive (wants_owner class) frames.

Lemma saved_unreserved frames : Forall saved_ok frames -> points_into_reserved frames = false.
Proof.
  intros H. apply not_true_is_false. intros (f & Hf & Hr)%existsb_exists.
  apply List.Forall_forall with (x := f) in H; [|done]. destruct H as [_ H]. congruence.
Qed.

(** One page *)
Lemma v2_page path class bucket prefix recursive frames :
  listable path class bucket prefix recursive ->
  initial_frames bucket prefix (fst (split_prefix prefix)) path (delimiter_of (Classifier.query class)) recursive
    (first (Classifier.query class) "continuation-token") (first (Classifier.query class) "start-after") = Ok frames ->
  frames <> [] -> Forall saved_ok frames ->
  exists r new rest, handle_list_objects_v2 path class = Some (Ok r) /\
    v2_contents r = enc_info (url_encode_of (Classifier.query class)) <$> objects_of new /\
    v2_common_prefixes r = enc (url_encode_of (Classifier.query class)) <$> prefixes_of new /\
    listing_of class bucket prefix recursive frames = new ++ listing_of class bucket prefix recursive rest /\
    (v2_is_truncated r = false /\ rest = [] \/
     v2_is_truncated r = true /\ new <> [] /\ rest <> [] /\ Forall saved_ok rest /\
       exists t, v2_next_token r = Some t /\
         initial_frames bucket prefix (fst (split_prefix prefix)) path (delimiter_of (Classifier.query class)) recursive
           (Some t) (first (Classifier.query class) "start-after") = Ok rest).
Proof using names_ok mpu_ok codec.
  intros [Hb Hne Hty Hex Hpf Hdel Hmax Hres (p & Hj & Hvis)] Hfr Hnf Hok.
  unfold handle_list_objects_v2. rewrite Hb. cbn [default from_option id].
  rewrite (proj2 (is_empty_false bucket)) by done. rewrite Hty. cbn [negb bool_decide].
  rewrite bool_decide_true by done. cbn [negb]. rewrite Hex, Hpf, Hdel.
  replace (negb (is_empty prefix) && is_reserved_first_segment prefix l_mpu_dir_name) with false
    by (destruct Hres as [->| ->]; [done|by rewrite andb_false_r]).
  destruct (split_prefix prefix) as [dp lf] eqn:Esp. cbn [fst snd] in *. rewrite Hj, Hvis. cbn [negb].
  rewrite Hfr, saved_unreserved by done.
  replace (match frames with [] => [mk_frame dp ""] | _ :: _ => frames end) with frames by (by destruct frames).
  destruct (run_walk_spec names_ok bucket prefix lf recursive (wants_owner class) mpu_ok frames (max_keys_of (Classifier.query class)))
    as (st & new & Hw & Hsv & Hc & Hp & _ & Hcount & Hl & Hstop); [done|lia|].
  unfold wants_owner in Hw. rewrite Hw. cbn [mbind option_bind]. rewrite Hcount.
  set (rest := save_frame <$> rev (stack st)) in *.
  destruct (bool_decide (stack st = [])) eqn:Est; cbn [negb]; rewrite ?andb_false_r; cbn [andb].
  - apply bool_decide_eq_true in Est. assert (rest = []) as Hr by (subst rest; by rewrite Est).
    eexists _, new, []. split; [done|]. cbn. rewrite Hc, Hp. split_and!; try done.
    + unfold listing_of. rewrite Esp. cbn [snd]. by rewrite Hl, Hr.
    + by left.
  - apply bool_decide_eq_false in Est. destruct Hstop as [Hstop|]; [|done].
    rewrite (proj2 (Z.leb_le _ _)) by lia. rewrite (proj2 (Z.ltb_lt 0 _)) by lia. cbn [andb].
    destruct (codec {| tok_v := 1; tok_bucket := bucket; tok_prefix := prefix;
      tok_delimiter := if recursive then None else Some slash; tok_stack := rest |}) as (s & He & Hd).
    rewrite He. eexists _, new, rest. split; [done|]. cbn. rewrite Hc, Hp. split_and!; try done.
    + unfold listing_of. rewrite Esp. cbn [snd]. by rewrite Hl.
    + right. split_and!; try done.
      * intros ->. cbn in Hstop. lia.
      * subst rest. destruct (stack st); [done|]. cbn. rewrite fmap_app. by intros [_ H]%List.app_eq_nil.
      * exists s. split; [done|]. rewrite Hd. unfold token_mismatch. cbn. rewrite !String.eqb_refl, bool_decide_true; [done|].
        unfold recursive_of in Hdel. destruct (delimiter_of _) as [d|]; [|by simplify_eq].
        destruct (String.eqb_spec d slash); simplify_eq. done.
Qed.

Lemma follow_v2_spec n path class bucket prefix recursive frames :
  listable path class bucket prefix recursive ->
  initial_frames bucket prefix (fst (split_prefix prefix)) path (delimiter_of (Classifier.query class)) recursive
    (first (Classifier.query class) "continuation-token") (first (Classifier.query class) "start-after") = Ok frames ->
  frames <> [] -> Forall saved_ok frames ->
  let full := listing_of class bucket prefix recursive frames in
  (length full <= n)%nat ->
  follow_v2 n path class = Some (enc_info (url_encode_of (Classifier.query class)) <$> objects_of full,
                                 enc (url_encode_of (Classifier.query class)) <$> prefixes_of full).
Proof using names_ok mpu_ok codec.
  revert class frames. induction n as [|n IH]; intros class frames Hls Hfr Hne Hok full Hn; cbn [follow_v2];
    destruct (v2_page path class bucket prefix recursive frames) as (r & new & rest & -> & Hc & Hp & Hl & Hcase); try done;
    subst full; rewrite Hl in *; rewrite length_app in Hn;
    (destruct Hcase as [[-> Hr]|(-> & Hnew & Hrest & Hsv & t & -> & Hnext)];
     [subst rest; cbn; change (listing_of class bucket prefix recursive []) with (@nil listed); rewrite app_nil_r, Hc, Hp; done|]).
  - destruct new; [done|]. cbn in Hn. lia.
  - rewrite (IH (with_token t class) rest); try done.
    + cbn. unfold listing_of, wants_owner, url_encode_of. cbn. rewrite !first_insert_ne by (vm_compute; done).
      unfold objects_of, prefixes_of in *. rewrite !omap_app, !fmap_app, Hc, Hp. done.
    + by apply with_token_listable.
    + unfold with_token, delimiter_of in *. cbn [Classifier.query].
      rewrite (first_insert_ne _ "delimiter"), (first_insert_ne _ "start-after"), first_token by (vm_compute; done). done.
    + unfold listing_of, wants_owner in *. cbn. rewrite first_insert_ne by (vm_compute; done). destruct new; [done|]. cbn in Hn. lia.
Qed.
End V2.

Section V2Claim.
Context {E : ListEnv}.

Lemma initial_frames_saved bucket prefix path delimiter recursive sa frames :
  initial_frames bucket prefix (fst (split_prefix prefix)) path delimiter recursive None sa = Ok frames ->
  points_into_reserved frames = false -> frames <> [] /\ Forall saved_ok frames.
Proof.
  intros Hi Hr.
  assert (Forall (fun f => dir_form (fr_dir f)) frames /\ frames <> []) as [Hf Hne].
  { cbn in Hi. destruct sa; injection Hi as <-.
    - split; [apply build_stack_form, split_prefix_form|apply build_stack_nonempty].
    - split; [apply Forall_singleton, split_prefix_form|done]. }
  split; [done|]. apply list.Forall_forall. intros f Hin. split; [by eapply list.Forall_forall in Hf|].
  apply not_true_is_false. intros Hres. apply not_true_iff_false in Hr. apply Hr. apply existsb_exists.
  exists f. split; [by apply list_elem_of_In|done].
Qed.

(** C12. ListObjectsV2, paged.  A client that follows the continuation tokens
    of a listing receives, over all its pages, exactly what one unbounded
    page would list, in the same order and nothing twice, whatever the page
    size, with or without delimiter, prefix and start-after; and the number
    of requests is bounded by the number of entries. *)
Theorem v2_pages_complete (path : string) (class : S3RequestClass) (bucket prefix : string) (recursive : bool)
    (frames : list ListV2Frame) :
  (forall p name n, l_fs !! (p ++ [name]) = Some n -> safe_component name) ->
  contains_char "/" l_mpu_dir_name = false ->
  (forall t, exists s, encode_token t = Some s /\ decode_token s = Ok t) ->
  listable path class bucket prefix recursive ->
  first (Classifier.query class) "continuation-token" = None ->
  initial_frames bucket prefix (fst (split_prefix prefix)) path (delimiter_of (Classifier.query class)) recursive
    None (first (Classifier.query class) "start-after") = Ok frames ->
  points_into_reserved frames = false ->
  let full := listing_of class bucket prefix recursive frames in
  follow_v2 (length full) path class =
    Some (enc_info (url_encode_of (Classifier.query class)) <$> objects_of full,
          enc (url_encode_of (Classifier.query class)) <$> prefixes_of full).
Proof.
  intros Hn Hm Hc Hls Hct Hi Hr full. destruct (initial_frames_saved _ _ _ _ _ _ _ Hi Hr) as [Hne Hsv].
  apply (follow_v2_spec Hn Hm Hc); [done|by rewrite Hct|done|done|done].
Qed.
End V2Claim.
