(* ===== verification/ListingSpec.v ===== *)
(** * What a listing without delimiter lists

    The recursive walk of [Listing], read as a statement about the tree: its
    keys are, in strictly increasing byte order, the keys of the files and of
    the empty directories below the prefix, the multipart directory apart. *)

From Stdlib Require Import ZArith Lia Ascii.
From stdpp Require Import base list strings numbers option gmap sorting.
From S2P Require Import Classifier.
From S2P Require Import Prelude RustStr Http Utils UriEncoding S3Resp Bytes FsHelpers FileSystem GatewayHelpers Listing Pagination.

Local Open Scope Z_scope.

(** ** Order of keys *)
Lemma str_lt_app_diff a b x y : str_lt a b -> strip_prefix a b = None -> str_lt (a +:+ x) (b +:+ y).
Proof.
  revert b. induction a as [|c a IH]; intros b Hlt Hp; [by destruct b|].
  destruct b as [|d b]; [by destruct (Hlt eq_refl)|]. cbn in *. apply str_lt_cons in Hlt. apply str_lt_cons.
  destruct Hlt as [?|[-> Hlt]]; [by left|right]. split; [done|]. apply IH; [done|].
  by rewrite Ascii.eqb_refl in Hp.
Qed.

Lemma str_lt_app_r a b y : str_lt a b -> str_lt a (b +:+ y).
Proof.
  revert b. induction a as [|c a IH]; intros b Hlt.
  - apply str_lt_nil. by destruct b; [destruct (Hlt eq_refl)|].
  - destruct b as [|d b]; [by destruct (Hlt eq_refl)|]. cbn. apply str_lt_cons in Hlt. apply str_lt_cons.
    destruct Hlt as [?|[-> Hlt]]; [by left|right; auto].
Qed.

Lemma elem_of_concat {A} (x : A) ls : x ∈ concat ls <-> exists l, l ∈ ls /\ x ∈ l.
Proof.
  rewrite list_elem_of_In, List.in_concat. split; intros (l & H1 & H2); exists l; by rewrite !list_elem_of_In in *.
Qed.

Lemma concat_sorted {A B} (R : relation B) (f : A -> list B) (S : relation A) l :
  StronglySorted S l -> (forall a, a ∈ l -> StronglySorted R (f a)) ->
  (forall a b, a ∈ l -> b ∈ l -> S a b -> forall x y, x ∈ f a -> y ∈ f b -> R x y) ->
  StronglySorted R (concat (f <$> l)).
Proof.
  induction 1 as [|a l Hl IH Ha]; cbn; intros Hs Hc; [constructor|]. apply StronglySorted_app_2.
  - intros x y Hx (lb & (b & -> & Hb)%list_elem_of_fmap & Hy)%elem_of_concat.
    eapply Hc; [| | |done|done]; [set_solver|set_solver|]. by eapply list.Forall_forall in Ha.
  - apply Hs. set_solver.
  - apply IH; [set_solver|]. intros; eapply Hc; [| | |done|done]; set_solver.
Qed.

(** The sort key of a directory is not a proper prefix of another sort key. *)
Lemma slash_once a b r (d : bool) :
  contains_char "/" a = false -> contains_char "/" b = false ->
  (b +:+ (if d then "/" else "") = (a +:+ "/") +:+ r)%string -> d = true /\ a = b /\ r = ""%string.
Proof.
  intros Ha Hb H. rewrite str_app_assoc in H. apply (f_equal (split "/")) in H. cbn in H. rewrite split_app, (split_absent _ a) in H by done.
  destruct d; [rewrite split_app in H|rewrite str_app_nil_r in H]; rewrite (split_absent _ b) in H by done; cbn in H; injection H as H1 H.
  - split_and!; [done|done|]. pose proof (join_split "/" r) as Hj. by rewrite <- H in Hj.
  - by destruct (split_nonempty "/" r).
Qed.

(** ** The keys of a tree *)
Section Tree.
Context {E : ListEnv}.

(** A tree without faults: names are names, parents are directories. *)
Record plain_tree : Prop := {
  pt_read_dir : forall p, read_dir_fault p = None;
  pt_entry : forall p, entry_fault p = false;
  pt_stat : forall p, stat_fault p = false;
  pt_names : forall p name n, l_fs !! (p ++ [name]) = Some n -> safe_component name;
  pt_parents : forall p name n, l_fs !! (p ++ [name]) = Some n -> exists i s l, l_fs !! p = Some (Directory i s l);
}.
Context (plain : plain_tree).
Context (bucket prefix : string) (leaf_filter : option string) (want_owner : bool).
Local Abbreviation dtrace := (dir_trace bucket prefix leaf_filter true want_owner).

(** An object of the directory at [p]: the names below it and the node *)
Definition leaf_at (p rel : path) (n : node) : Prop :=
  rel <> [] /\ l_fs !! (p ++ rel) = Some n /\ (is_dir_node n = true -> children l_fs (p ++ rel) = []).

Definition entry_key (dir : string) (rel : path) (n : node) : string :=
  (dir +:+ join "/" rel +:+ (if is_dir_node n then "/" else ""))%string.

(** The multipart directory of the bucket and what is in it *)
Definition hidden (dir : string) (rel : path) (n : node) : Prop :=
  dir = ""%string /\ head rel = Some l_mpu_dir_name /\ (is_dir_node n = true \/ (2 <= length rel)%nat).

Definition is_key (dir : string) (p : path) (k : string) : Prop :=
  exists rel n, leaf_at p rel n /\ ~ hidden dir rel n /\ k = entry_key dir rel n /\ starts_with prefix k = true.

Definition trace_keys (tr : list (option listed)) : list string := listed_key <$> omap id tr.
Definition only_objects (tr : list (option listed)) : Prop := prefixes_of (omap id tr) = [].

Lemma trace_keys_app a b : trace_keys (a ++ b) = trace_keys a ++ trace_keys b.
Proof. unfold trace_keys. by rewrite omap_app, fmap_app. Qed.

Lemma trace_keys_concat l : trace_keys (concat l) = concat (trace_keys <$> l).
Proof.
  induction l as [|x l IH]; [done|]. change (concat (x :: l)) with (x ++ concat l).
  change (trace_keys <$> (x :: l)) with (trace_keys x :: (trace_keys <$> l)). by rewrite trace_keys_app, IH.
Qed.

Lemma only_objects_app a b : only_objects a -> only_objects b -> only_objects (a ++ b).
Proof. unfold only_objects, prefixes_of. rewrite !omap_app. by intros -> ->. Qed.

Lemma only_objects_concat l : (forall x, x ∈ l -> only_objects x) -> only_objects (concat l).
Proof.
  induction l as [|x l IH]; intros H; [done|]. change (concat (x :: l)) with (x ++ concat l).
  apply only_objects_app; [apply H; set_solver|apply IH; set_solver].
Qed.

(** Ancestors of a node are directories. *)
Lemma child_of_node p name rel n :
  l_fs !! (p ++ name :: rel) = Some n -> rel <> [] ->
  exists m, l_fs !! (p ++ [name]) = Some m /\ is_dir_node m = true /\ children l_fs (p ++ [name]) <> [].
Proof using plain.
  revert p name. induction rel as [|x rel IH]; intros p name Hn Hne; [done|].
  assert (exists m, l_fs !! ((p ++ [name]) ++ [x]) = Some m) as [m Hm].
  { rewrite <- app_assoc. cbn. destruct rel as [|y rel]; [by exists n|].
    destruct (IH (p ++ [name]) x) as (m & Hm & _); [by rewrite <- app_assoc|done|].
    exists m. by rewrite <- app_assoc in Hm. }
  destruct (pt_parents plain _ _ _ Hm) as (i & s & l & Hd). exists (Directory i s l). split_and!; [done|done|].
  intros Hc. apply elem_of_children in Hm. rewrite Hc in Hm. by apply elem_of_nil in Hm.
Qed.

Lemma load_all dir p i s l :
  join_object_path l_posix_root bucket dir = Ok p -> l_fs !! p = Some (Directory i s l) ->
  exists es, read_dir_sorted p = Ok es /\ load_dir bucket leaf_filter false dir = Some es /\ loaded p es /\
    forall name n, l_fs !! (p ++ [name]) = Some n -> item_at p name n ∈ es.
Proof using plain.
  intros Hj Hp.
  assert (read_dir_sorted p = Ok (merge_sort item_le (omap (dir_item p) (children l_fs p)))) as Hr.
  { unfold read_dir_sorted, faulty_read_dir, read_dir, stat. by rewrite (pt_read_dir plain), Hp. }
  eexists. split; [exact Hr|]. split; [unfold load_dir; by rewrite Hj, Hr|].
  split; [apply (read_dir_sorted_loaded (pt_names plain)); done|].
  intros name n Hn. rewrite merge_sort_Permutation. apply list_elem_of_omap. exists (name, n).
  split; [by apply elem_of_children|]. unfold dir_item. by rewrite (pt_entry plain).
Qed.

(** *** One entry *)
Lemma visit_plain dir p name n :
  l_fs !! (p ++ [name]) = Some n ->
  visit true want_owner prefix dir (item_at p name n) =
    (if is_dir_node n then
       if is_empty dir && (name =s l_mpu_dir_name)%s3 then Skip
       else if bool_decide (children l_fs (p ++ [name]) = []) then
         if starts_with prefix (dir +:+ name +:+ "/")
         then Emit (object_info (dir +:+ name +:+ "/") {| stx_ino := i_ino (node_inode n); stx_size := node_size n;
                     stx_uid := i_uid (node_inode n); stx_mtime := statx_mtime (i_mtime (node_inode n)) |} 0 want_owner)
         else Skip
       else Descend (dir +:+ name +:+ "/")
     else if starts_with prefix (dir +:+ name)
          then Emit (object_info (dir +:+ name) {| stx_ino := i_ino (node_inode n); stx_size := node_size n;
                     stx_uid := i_uid (node_inode n); stx_mtime := statx_mtime (i_mtime (node_inode n)) |} (node_size n) want_owner)
          else Skip)%string.
Proof using plain.
  intros Hn. unfold visit, statx_info. cbn. rewrite (pt_stat plain), Hn.
  destruct (is_dir_node n) eqn:Ed; cbn; rewrite ?andb_true_r, ?andb_false_r; [|done].
  destruct (is_empty dir && _); [done|].
  assert (dir_is_empty (p ++ [name]) = bool_decide (children l_fs (p ++ [name]) = [])) as ->; [|done].
  unfold dir_is_empty, faulty_read_dir, read_dir, stat. rewrite (pt_read_dir plain), Hn.
  destruct n; try done. by destruct (children l_fs (p ++ [name])).
Qed.

(** What the passes of one entry list, given what its directory lists *)
Record entry_spec (dir : string) (p : path) (name : string) (n : node) (tr : list (option listed)) : Prop := {
  es_objects : only_objects tr;
  es_sorted : StronglySorted str_lt (trace_keys tr);
  es_form : forall k, k ∈ trace_keys tr -> exists x, k = (dir +:+ sort_key (item_at p name n) +:+ x)%string /\
    (is_dir_node n = false -> x = ""%string);
  es_keys : forall k, k ∈ trace_keys tr <->
    exists rel m, leaf_at p (name :: rel) m /\ ~ hidden dir (name :: rel) m /\ k = entry_key dir (name :: rel) m /\
      starts_with prefix k = true;
}.

Record dir_spec (dir : string) (p : path) (tr : list (option listed)) : Prop := {
  ds_objects : only_objects tr;
  ds_sorted : StronglySorted str_lt (trace_keys tr);
  ds_keys : forall k, k ∈ trace_keys tr <-> is_key dir p k;
}.

Lemma entry_key_child dir name rel m :
  rel <> [] -> entry_key dir (name :: rel) m = entry_key (dir +:+ name +:+ "/") rel m.
Proof.
  intros Hr. unfold entry_key. rewrite join_cons by done. by rewrite !str_app_assoc.
Qed.

Lemma leaf_of_file p name n rel m :
  l_fs !! (p ++ [name]) = Some n -> is_dir_node n = false \/ children l_fs (p ++ [name]) = [] ->
  leaf_at p (name :: rel) m -> rel = [] /\ m = n.
Proof using plain.
  intros Hn Hc (_ & Hm & _). destruct rel as [|x rel]; [split; [done|congruence]|]. exfalso.
  destruct (child_of_node p name (x :: rel) m Hm) as (n' & Hn' & Hd & Hne); [done|].
  destruct Hc as [Hc|Hc]; [congruence|done].
Qed.

Lemma leaf_of_full p name n rel m :
  l_fs !! (p ++ [name]) = Some n -> is_dir_node n = true -> children l_fs (p ++ [name]) <> [] ->
  leaf_at p (name :: rel) m <-> leaf_at (p ++ [name]) rel m.
Proof.
  intros Hn Hd Hc. unfold leaf_at. rewrite <- app_assoc. cbn. split.
  - intros (_ & Hm & Hl). split_and!; try done. intros ->. apply Hc. apply Hl. congruence.
  - by intros (Hr & Hm & Hl).
Qed.

(** An entry that is listed itself, or not at all *)
Lemma entry_single dir p name n (o : ListObjectInfo) :
  l_fs !! (p ++ [name]) = Some n -> is_dir_node n = false \/ children l_fs (p ++ [name]) = [] ->
  (is_dir_node n = true -> ~ (dir = ""%string /\ name = l_mpu_dir_name)) ->
  lo_key o = (dir +:+ sort_key (item_at p name n))%string ->
  entry_spec dir p name n (if starts_with prefix (lo_key o) then [Some (LObject o)] else [None]).
Proof using plain.
  intros Hn Hc Hh Ho.
  assert (Hk : lo_key o = entry_key dir [name] n).
  { rewrite Ho. unfold entry_key. cbn. destruct (is_dir_node n); [done|]. by rewrite str_app_nil_r. }
  assert (trace_keys (if starts_with prefix (lo_key o) then [Some (LObject o)] else [None]) =
          if starts_with prefix (lo_key o) then [lo_key o] else []) as Ht by (by case_match).
  split; rewrite ?Ht.
  - by case_match.
  - case_match; repeat constructor.
  - case_match; [|set_solver]. intros k ->%list_elem_of_singleton. exists ""%string. split; [|done]. by rewrite str_app_nil_r, Ho.
  - intros k. split.
    + destruct (starts_with prefix (lo_key o)) eqn:Es; [|set_solver]. intros ->%list_elem_of_singleton. exists [], n. split_and!; [..|done|done].
      * split_and!; [done|done|]. intros Hd. destruct Hc; congruence.
      * intros (-> & [= ->] & [Hd|Hl]); [by apply Hh|cbn in Hl; lia].
    + intros (rel & m & Hl & _ & -> & Hs). destruct (leaf_of_file _ _ _ _ _ Hn Hc Hl) as [-> ->].
      rewrite Hk, Hs. set_solver.
Qed.

Lemma entry_hidden dir p name n :
  l_fs !! (p ++ [name]) = Some n -> is_dir_node n = true -> dir = ""%string -> name = l_mpu_dir_name ->
  entry_spec dir p name n [None].
Proof.
  intros Hn Hd -> ->. split; [done|constructor|set_solver|]. intros k. split; [set_solver|].
  intros (rel & m & (_ & Hm & _) & Hh & _ & _). exfalso. apply Hh. split_and!; [done|done|].
  destruct rel; [left; congruence|right; cbn; lia].
Qed.

Lemma entry_full dir p name n tr :
  l_fs !! (p ++ [name]) = Some n -> is_dir_node n = true -> children l_fs (p ++ [name]) <> [] ->
  ~ (dir = ""%string /\ name = l_mpu_dir_name) -> safe_component name ->
  dir_spec (dir +:+ name +:+ "/") (p ++ [name]) tr -> entry_spec dir p name n (None :: tr).
Proof.
  intros Hn Hd Hc Hh Hs [Ho Hso Hk]. split; [done|done| |]; change (trace_keys (None :: tr)) with (trace_keys tr).
  - intros k (rel & m & (Hr & _) & _ & -> & _)%Hk. cbn. rewrite Hd.
    exists (join "/" rel +:+ (if is_dir_node m then "/" else ""))%string. split; [|done]. unfold entry_key, slash. by rewrite !str_app_assoc.
  - intros k. rewrite Hk. unfold is_key. split.
    + intros (rel & m & Hl & _ & -> & Hp). exists rel, m. assert (rel <> []) as Hr by apply Hl. split_and!; [..|done].
      * by eapply leaf_of_full.
      * intros (-> & [= ->] & _). by apply Hh.
      * by rewrite entry_key_child.
    + intros (rel & m & Hl & _ & -> & Hp). apply (leaf_of_full _ _ _ _ _ Hn Hd Hc) in Hl.
      assert (rel <> []) as Hr by apply Hl. rewrite entry_key_child in * by done. exists rel, m. split_and!; try done.
      intros (H & _ & _). destruct dir; [|done]. by destruct name.
Qed.

(** *** A directory *)
Lemma keys_ordered dir p a n x b m y :
  safe_component a -> safe_component b -> item_lt (item_at p a n) (item_at p b m) ->
  (is_dir_node n = false -> x = ""%string) ->
  str_lt (dir +:+ sort_key (item_at p a n) +:+ x) (dir +:+ sort_key (item_at p b m) +:+ y).
Proof.
  intros (_ & _ & _ & Ha & _) (_ & _ & _ & Hb & _) Hlt Hx. apply str_lt_app. unfold item_lt in Hlt.
  destruct (is_dir_node n) eqn:Ed.
  - apply str_lt_app_diff; [done|]. destruct (strip_prefix _ _) as [r|] eqn:Ep; [|done]. exfalso.
    apply strip_prefix_some in Ep. cbn in Ep. rewrite Ed in Ep.
    assert (b +:+ (if is_dir_node m then "/" else "") = (a +:+ "/") +:+ r)%string as Heq.
    { etrans; [|exact Ep]. destruct (is_dir_node m); [done|]. by rewrite str_app_nil_r. }
    apply slash_once in Heq as (Hd & <- & _); [|done..]. cbn in Hlt. rewrite Hd, Ed in Hlt.
    by apply str_lt_iff in Hlt as [_ []].
  - rewrite Hx, str_app_nil_r by done. by apply str_lt_app_r.
Qed.

Lemma entries_spec dir p es (f : DirItem -> list (option listed)) :
  loaded p es ->
  (forall name n, l_fs !! (p ++ [name]) = Some n -> item_at p name n ∈ es -> entry_spec dir p name n (f (item_at p name n))) ->
  (forall name rel n m, l_fs !! (p ++ [name]) = Some n -> leaf_at p (name :: rel) m ->
     starts_with prefix (entry_key dir (name :: rel) m) = true -> item_at p name n ∈ es) ->
  dir_spec dir p (concat (f <$> es) ++ [None]).
Proof using plain.
  intros Hld Hes Hall.
  assert (forall it, it ∈ es -> exists n, l_fs !! (p ++ [it_name it]) = Some n /\ it = item_at p (it_name it) n /\
    safe_component (it_name it) /\ entry_spec dir p (it_name it) n (f it)) as Hit.
  { intros it Hin. destruct (loaded_item _ _ Hld it Hin) as (n & Hn & Heq). exists n.
    split_and!; [done|done|by eapply pt_names|]. rewrite Heq at 2. apply Hes; [done|]. by rewrite <- Heq. }
  assert (trace_keys (concat (f <$> es) ++ [None]) = concat ((fun it => trace_keys (f it)) <$> es)) as Ht.
  { rewrite trace_keys_app, trace_keys_concat, <- list_fmap_compose. change (trace_keys [None]) with (@nil string). by rewrite app_nil_r. }
  split; rewrite ?Ht.
  - apply only_objects_app; [|done]. apply only_objects_concat. intros x (it & -> & Hin)%list_elem_of_fmap.
    destruct (Hit it Hin) as (n & _ & _ & _ & []). done.
  - apply concat_sorted with (S := item_lt); [apply Hld|..].
    + intros it Hin. destruct (Hit it Hin) as (n & _ & _ & _ & []). done.
    + intros a b Ha Hb Hlt x y Hx Hy.
      destruct (Hit a Ha) as (n & _ & Hae & Hsa & Ea), (Hit b Hb) as (m & _ & Hbe & Hsb & Eb).
      destruct (es_form _ _ _ _ _ Ea x Hx) as (x' & -> & Hx'), (es_form _ _ _ _ _ Eb y Hy) as (y' & -> & _).
      rewrite Hae, Hbe in Hlt. by apply keys_ordered.
  - intros k. rewrite elem_of_concat. split.
    + intros (l & (it & -> & Hin)%list_elem_of_fmap & Hk). destruct (Hit it Hin) as (n & _ & _ & _ & Ei).
      apply (es_keys _ _ _ _ _ Ei) in Hk as (rel & m & ?). by exists (it_name it :: rel), m.
    + intros (rel & m & Hl & Hh & -> & Hp). destruct rel as [|name rel]; [by destruct Hl|].
      assert (exists n, l_fs !! (p ++ [name]) = Some n) as [n Hn].
      { destruct rel as [|x rel]; [exists m; apply Hl|]. destruct (child_of_node p name (x :: rel) m) as (n & ? & _); [apply Hl|done|eauto]. }
      pose proof (Hall _ _ _ _ Hn Hl Hp) as Hin. exists (trace_keys (f (item_at p name n))). split.
      * apply list_elem_of_fmap. eauto.
      * apply (es_keys _ _ _ _ _ (Hes _ _ Hn Hin)). by exists rel, m.
Qed.

Lemma entry_spec_visit dir p name n (sub : string -> list (option listed)) :
  l_fs !! (p ++ [name]) = Some n ->
  (is_dir_node n = true -> children l_fs (p ++ [name]) <> [] ->
    dir_spec (dir +:+ name +:+ "/") (p ++ [name]) (sub (dir +:+ name +:+ "/")%string)) ->
  entry_spec dir p name n (visit_trace prefix true want_owner sub dir (item_at p name n)).
Proof using plain.
  intros Hn Hsub. assert (safe_component name) as Hs by (by eapply pt_names).
  unfold visit_trace. rewrite (visit_plain dir p name n Hn). destruct (is_dir_node n) eqn:Ed.
  - destruct (is_empty dir && (name =s l_mpu_dir_name)%s3) eqn:Eh.
    + apply andb_true_iff in Eh as [->%is_empty_true ->%String.eqb_eq]. by eapply entry_hidden.
    + assert (~ (dir = ""%string /\ name = l_mpu_dir_name)) as Hh.
      { intros [-> ->]. cbn in Eh. by rewrite String.eqb_refl in Eh. }
      case_bool_decide as Hc; [|by eapply entry_full; auto].
      set (o := object_info _ _ _ _). replace (dir +:+ name +:+ "/")%string with (lo_key o) by done.
      pose proof (entry_single dir p name n o Hn) as H. destruct (starts_with prefix (lo_key o)); apply H; auto; cbn; by rewrite Ed.
  - set (o := object_info _ _ _ _). replace (dir +:+ name)%string with (lo_key o) by done.
    pose proof (entry_single dir p name n o Hn) as H. destruct (starts_with prefix (lo_key o)); apply H; auto; try congruence; cbn; by rewrite Ed.
Qed.

Lemma dir_trace_spec d dir p i s l :
  dir_form dir -> join_object_path l_posix_root bucket dir = Ok p -> l_fs !! p = Some (Directory i s l) ->
  (max_depth <= length p + d)%nat -> dir_spec dir p (dtrace (S d) dir).
Proof using plain.
  revert dir p i s l. induction d as [|d IH]; intros dir p i s l Hf Hj Hp Hd; cbn [dir_trace];
    destruct (load_all dir p i s l Hj Hp) as (es & Hr & Hl & Hld & Hall); rewrite Hl; apply entries_spec; try done;
    try (intros; by eapply Hall); intros name n Hn Hin.
  - apply (read_dir_deep (pt_names plain)) in Hr; [|lia]. subst es. by apply elem_of_nil in Hin.
  - apply entry_spec_visit; [done|]. intros Hdir _. destruct n as [| i' s' l' |]; try done. eapply IH; [apply child_dir_form| |done|].
    + eapply join_entry; [done|by eapply pt_names|done].
    + rewrite length_app. cbn. lia.
Qed.
End Tree.

(** ** The start of a listing *)
Section Start.
Context {E : ListEnv} (plain : plain_tree).

Lemma rsplit_once_no_sep c s a b : rsplit_once c s = Some (a, b) -> contains_char c b = false.
Proof.
  revert a b. induction s as [|x s IH]; intros a b; cbn; [done|].
  destruct (rsplit_once c s) as [[a' b']|] eqn:Er; [intros [= <- <-]; by eapply IH|].
  destruct (Ascii.eqb_spec x c) as [->|]; [|done]. intros [= <- <-]. clear IH. induction s as [|y s IH]; [done|].
  cbn in Er |- *. destruct (rsplit_once c s) as [[]|]; [done|]. destruct (y =c c)%s3; [done|]. by apply IH.
Qed.

Lemma rsplit_once_none c s : rsplit_once c s = None -> contains_char c s = false.
Proof.
  induction s as [|y s IH]; cbn; [done|]. destruct (rsplit_once c s) as [[]|]; [done|]. destruct (y =c c)%s3; [done|]. auto.
Qed.

(** The prefix is the directory and the leaf filter, a leading slash apart. *)
Lemma split_prefix_spec prefix dir lf :
  split_prefix prefix = (dir, lf) ->
  match lf with
  | None => prefix = dir
  | Some x => contains_char "/" x = false /\ (prefix = dir +:+ x \/ dir = "" /\ prefix = "/" +:+ x)%string
  end.
Proof.
  unfold split_prefix. destruct (is_empty prefix || ends_with slash prefix); [by intros [= <- <-]|].
  destruct (rsplit_once "/" prefix) as [[a b]|] eqn:Er; intros [= <- <-].
  - split; [by eapply rsplit_once_no_sep|]. apply rsplit_once_some in Er as ->.
    destruct a as [|x a]; [by right|]. left. cbn. by rewrite str_app_assoc.
  - split; [by apply rsplit_once_none|by left].
Qed.

Lemma starts_with_cut x a r : contains_char "/" x = false ->
  starts_with x (a +:+ "/" +:+ r) = true -> starts_with x a = true.
Proof.
  revert a. induction x as [|c x IH]; intros a Hx; [done|]. cbn in Hx. apply orb_false_iff in Hx as [Hc Hx].
  unfold starts_with in *. destruct a as [|d a]; cbn.
  - by rewrite Hc.
  - destruct (c =c d)%s3; [by apply IH|done].
Qed.

Lemma starts_with_app_r x a b : starts_with x a = true -> starts_with x (a +:+ b) = true.
Proof. rewrite !starts_with_spec. intros [r ->]. exists (r +:+ b)%string. by rewrite str_app_assoc. Qed.

Lemma starts_with_app_inv d x a : starts_with (d +:+ x) (d +:+ a) = true -> starts_with x a = true.
Proof. rewrite !starts_with_spec. intros [r H]. rewrite str_app_assoc in H. exists r. by apply str_app_inv_l in H. Qed.

(** The leaf filter drops no entry that holds a key. *)
Lemma leaf_filter_keeps prefix dir x p name rel n m :
  split_prefix prefix = (dir, Some x) -> l_fs !! (p ++ [name]) = Some n -> leaf_at p (name :: rel) m ->
  starts_with prefix (entry_key dir (name :: rel) m) = true -> starts_with x (sort_key (item_at p name n)) = true.
Proof using plain.
  intros Hsp Hn Hl Hpre. apply split_prefix_spec in Hsp as [Hx [->|[-> ->]]].
  - unfold entry_key in Hpre. apply starts_with_app_inv in Hpre. cbn [sort_key item_at].
    destruct rel as [|y rel].
    + destruct Hl as (_ & Hm & _). assert (m = n) as -> by congruence. cbn in Hpre.
      destruct (is_dir_node n); [done|]. by rewrite str_app_nil_r in Hpre.
    + destruct (child_of_node plain p name (y :: rel) m) as (n' & Hn' & Hd & _); [apply Hl|done|].
      assert (n' = n) as -> by congruence. rewrite Hd. apply starts_with_app_r.
      rewrite join_cons, !str_app_assoc in Hpre by done. by eapply starts_with_cut.
  - exfalso. destruct (pt_names plain _ _ _ Hn) as (Hne & _ & _ & Hs & _). unfold entry_key in Hpre.
    apply starts_with_spec in Hpre as [r Hr].
    by destruct rel; cbn in Hr; destruct name as [|c name]; try done; cbn in Hr; injection Hr as -> _.
Qed.

Lemma start_spec bucket prefix dir lf want_owner p i s l :
  split_prefix prefix = (dir, lf) -> join_object_path l_posix_root bucket dir = Ok p ->
  l_fs !! p = Some (Directory i s l) ->
  dir_spec prefix dir p (frame_trace bucket prefix lf true want_owner true (start_frame (mk_frame dir ""))).
Proof using plain.
  intros Hsp Hj Hp. assert (dir_form dir) as Hf. { pose proof (split_prefix_form prefix) as H. by rewrite Hsp in H. }
  destruct (load_all plain bucket None dir p i s l Hj Hp) as (es & Hr & _ & Hld & Hall).
  set (keep := match lf with Some x => filter (fun it => starts_with x (sort_key it) = true) es | None => es end).
  assert (load_dir bucket lf true dir = Some keep) as Hl.
  { unfold load_dir. rewrite Hj, Hr. subst keep. by destruct lf. }
  unfold frame_trace, ensure_frame_loaded. cbn [entries start_frame mk_frame dir_key fr_dir after fr_after].
  rewrite Hl. cbn [mbind option_bind entries idx dir_key]. change (first_index_after keep "") with 0%nat. rewrite drop_0.
  change (default [] (Some keep)) with keep. apply entries_spec; try done.
  - subst keep. destruct lf; [by apply filter_loaded|done].
  - intros name n Hn _. apply entry_spec_visit; [done..|]. intros Hd Hc.
    destruct n as [| i' s' l' |]; try done. eapply dir_trace_spec; [done|apply child_dir_form| |done|].
    + eapply join_entry; [done|by eapply pt_names|done].
    + lia.
  - intros name rel n m Hn Hk Hpre. subst keep. destruct lf as [x|]; [|by apply Hall].
    apply list_elem_of_filter. split; [|by apply Hall]. by eapply leaf_filter_keeps.
Qed.

(** A recursive listing is the sorted list of the keys below the prefix. *)
Lemma listing_recursive class bucket prefix p i s l :
  join_object_path l_posix_root bucket (fst (split_prefix prefix)) = Ok p -> l_fs !! p = Some (Directory i s l) ->
  let full := listing_of class bucket prefix true [mk_frame (fst (split_prefix prefix)) ""] in
  prefixes_of full = [] /\ StronglySorted str_lt (listed_key <$> full) /\
  forall k, k ∈ listed_key <$> full <-> is_key prefix (fst (split_prefix prefix)) p k.
Proof using plain.
  intros Hj Hp full. destruct (split_prefix prefix) as [dir lf] eqn:Hsp. cbn [fst] in *.
  destruct (start_spec bucket prefix dir lf (wants_owner class) p i s l Hsp Hj Hp) as [Ho Hs Hk].
  assert (full = omap id (frame_trace bucket prefix lf true (wants_owner class) true (start_frame (mk_frame dir "")))) as ->.
  { subst full. unfold listing_of, listing. rewrite Hsp. cbn [snd]. cbn [fmap list_fmap rev app stack_trace].
    rewrite bool_decide_true by done. by rewrite app_nil_r. }
  split_and!; [exact Ho|exact Hs|exact Hk].
Qed.
End Start.

Section Exact.
Context {E : ListEnv}.

Lemma objects_only l : prefixes_of l = [] -> lo_key <$> objects_of l = listed_key <$> l.
Proof. induction l as [|[o|cp] l IH]; cbn; intros H; [done| |done]. f_equal. by apply IH. Qed.

Lemma objects_only_length l : prefixes_of l = [] -> length (objects_of l) = length l.
Proof. intros H. pose proof (objects_prefixes_length l) as Hl. rewrite H in Hl. cbn in Hl. lia. Qed.

Lemma dir_visible_node p : dir_visible p = true -> exists i s l, l_fs !! p = Some (Directory i s l).
Proof.
  unfold dir_visible, is_dir, stat. intros [_ H]%andb_true_iff. destruct (l_fs !! p) as [[]|]; try done. eauto.
Qed.

(** C13. ListObjectsV2 without delimiter is exact.  In a tree without faults
    the pages of a listing hold, in strictly increasing byte order, the key of
    every file and of every empty directory below the prefix outside the
    multipart directory, each once, and nothing else; no common prefix is
    reported. *)
Theorem recursive_listing_exact (path : string) (class : S3RequestClass) (bucket prefix : string) (p : FileSystem.path) :
  plain_tree -> contains_char "/" l_mpu_dir_name = false ->
  (forall t, exists s, encode_token t = Some s /\ decode_token s = Ok t) ->
  listable path class bucket prefix true ->
  first (Classifier.query class) "continuation-token" = None -> first (Classifier.query class) "start-after" = None ->
  is_reserved_first_segment (fst (split_prefix prefix)) l_mpu_dir_name = false ->
  join_object_path l_posix_root bucket (fst (split_prefix prefix)) = Ok p ->
  exists objects, follow_v2 (length objects) path class =
      Some (enc_info (url_encode_of (Classifier.query class)) <$> objects, []) /\
    StronglySorted str_lt (lo_key <$> objects) /\
    forall k, k ∈ lo_key <$> objects <-> is_key prefix (fst (split_prefix prefix)) p k.
Proof.
  intros Hpl Hm Hc Hls Hct Hsa Hr Hj. set (frames := [mk_frame (fst (split_prefix prefix)) ""]).
  destruct (ls_start _ _ _ _ _ Hls) as (p' & Hj' & Hvis). assert (p' = p) as -> by congruence.
  destruct (dir_visible_node p Hvis) as (i & s & l & Hp).
  destruct (listing_recursive Hpl class bucket prefix p i s l Hj Hp) as (Hpre & Hsort & Hkeys). fold frames in Hpre, Hsort, Hkeys.
  set (full := listing_of class bucket prefix true frames) in *. exists (objects_of full).
  rewrite objects_only_length, objects_only by done. split_and!; [|done|done].
  rewrite (follow_v2_spec (pt_names Hpl) Hm Hc (length full) path class bucket prefix true frames); try done.
  - fold full. by rewrite Hpre.
  - by rewrite Hct, Hsa.
  - apply Forall_singleton. split; [apply split_prefix_form|done].
Qed.
End Exact.

(** ** Checking a concrete tree *)
Definition safe_componentb (s : string) : bool :=
  negb (is_empty s) && negb (s =s ".")%s3 && negb (s =s "..")%s3 && negb (contains_char "/" s) && negb (contains_char "000" s).

Lemma safe_componentb_spec s : safe_componentb s = true -> safe_component s.
Proof.
  unfold safe_componentb, safe_component. rewrite !andb_true_iff, !negb_true_iff, is_empty_false, !String.eqb_neq. tauto.
Qed.

Definition tree_ok (fs : filesystem) : bool :=
  forallb (fun e => match list.last (fst e) with
                    | Some name => safe_componentb name &&
                        match fs !! parent (fst e) with Some (Directory _ _ _) => true | _ => false end
                    | None => true
                    end) (map_to_list fs).

Lemma tree_ok_spec fs p name n :
  tree_ok fs = true -> fs !! (p ++ [name]) = Some n ->
  safe_component name /\ exists i s l, fs !! p = Some (Directory i s l).
Proof.
  intros Hok Hn. unfold tree_ok in Hok. rewrite forallb_forall in Hok.
  specialize (Hok (p ++ [name], n)). cbn [fst] in Hok. rewrite last_snoc in Hok.
  unfold parent in Hok. rewrite length_app, Nat.add_sub, take_app_length in Hok.
  apply elem_of_map_to_list, list_elem_of_In in Hn. apply Hok, andb_true_iff in Hn as [Hs Hd].
  split; [by apply safe_componentb_spec|]. destruct (fs !! p) as [[]|]; try done. eauto.
Qed.
