(* ===== verification/MarkerPaging.v ===== *)
(** * Paging with markers

    Version 1 hands out the last key of a page and rebuilds the stack of the
    walk from it.  The rebuilt stack is the saved one when the key names a
    file or a common prefix, so the pages are complete; the key of an empty
    directory rebuilds a cursor in front of that directory, and the directory
    is listed again. *)

From Stdlib Require Import ZArith Lia Ascii.
From stdpp Require Import base list strings numbers option gmap sorting.
From S2P Require Import Classifier.
From S2P Require Import Prelude RustStr Http Utils UriEncoding S3Resp Bytes FsHelpers FileSystem GatewayHelpers Listing Pagination ListingSpec.

Local Open Scope Z_scope.

(** ** The stack a key stands for *)

(** The directory reached from [cur] through [names], and the frames passed. *)
Fixpoint reach (cur : string) (names : list string) : string :=
  match names with [] => cur | n :: ns => reach (cur +:+ n +:+ slash) ns end%string.
Fixpoint passed (cur : string) (names : list string) : list ListV2Frame :=
  match names with [] => [] | n :: ns => mk_frame cur (n +:+ slash) :: passed (cur +:+ n +:+ slash) ns end%string.

Lemma reach_app cur ns n : reach cur (ns ++ [n]) = (reach cur ns +:+ n +:+ slash)%string.
Proof. revert cur. induction ns as [|x ns IH]; intros cur; cbn; [done|]. by rewrite IH. Qed.

Lemma passed_app cur ns n : passed cur (ns ++ [n]) = passed cur ns ++ [mk_frame (reach cur ns) (n +:+ slash)].
Proof. revert cur. induction ns as [|x ns IH]; intros cur; cbn; [done|]. by rewrite IH. Qed.

Lemma reach_base cur ns : reach cur ns = (cur +:+ reach "" ns)%string.
Proof.
  revert cur. induction ns as [|x ns IH]; intros cur; cbn; [by rewrite str_app_nil_r|].
  rewrite (IH (cur +:+ x +:+ slash)%string), (IH (x +:+ slash)%string). by rewrite !str_app_assoc.
Qed.

Lemma descend_frames_reach cur ns x :
  descend_frames cur (ns ++ [x]) = passed cur ns ++ [mk_frame (reach cur ns) x].
Proof.
  revert cur. induction ns as [|n ns IH]; intros cur; cbn; [done|].
  destruct (ns ++ [x]) as [|y l] eqn:El; [by destruct ns|]. by rewrite IH.
Qed.

Lemma split_reach ns x :
  Forall safe_component ns -> contains_char "/" x = false -> split "/" (reach "" ns +:+ x) = ns ++ [x].
Proof.
  intros Hs Hx. induction Hs as [|n ns (_ & _ & _ & Hn & _) _ IH]; cbn [reach app]; [by apply split_absent|].
  cbn [String.append]. rewrite reach_base. unfold slash. rewrite !str_app_assoc. cbn [String.append].
  by rewrite split_app_sep, IH.
Qed.

Lemma safe_nonempty n : safe_component n -> is_empty n = false.
Proof. intros (Hn & _). by apply is_empty_false. Qed.

Lemma filter_safe l : Forall safe_component l -> filter (fun p => is_empty p = false) l = l.
Proof.
  induction 1 as [|n l Hn _ IH]; [done|]. rewrite filter_cons, decide_True by (by apply safe_nonempty). by rewrite IH.
Qed.

Lemma trim_start_safe n r : safe_component n -> trim_start_matches "/" (n +:+ r) = (n +:+ r)%string.
Proof.
  intros (Hn & _ & _ & Hc & _). destruct n as [|c n]; [done|]. cbn in *. apply orb_false_iff in Hc as [Hc _].
  by rewrite Hc.
Qed.

Lemma trim_start_reach ns x r : Forall safe_component ns -> safe_component x ->
  trim_start_matches "/" (reach "" ns +:+ x +:+ r) = (reach "" ns +:+ x +:+ r)%string.
Proof.
  intros Hs Hx. destruct Hs as [|n ns Hn _]; cbn [reach String.append]; [by apply trim_start_safe|].
  cbn [String.append]. rewrite reach_base, !str_app_assoc. by apply trim_start_safe.
Qed.

(** A key of a file, or of a common prefix, stands for the frames passed. *)
Lemma build_stack_recursive base ns x :
  Forall safe_component ns -> safe_component x ->
  build_stack_from_last base (reach base ns +:+ x) true = passed base ns ++ [mk_frame (reach base ns) x].
Proof.
  intros Hs Hx. unfold build_stack_from_last. rewrite reach_base, str_app_assoc, strip_prefix_app.
  rewrite <- (str_app_nil_r x), trim_start_reach by done. rewrite str_app_nil_r.
  assert (is_empty (reach "" ns +:+ x) = false) as ->.
  { apply is_empty_false. intros H. pose proof (split_reach ns x Hs) as Hsp. rewrite H in Hsp. cbn in Hsp.
    destruct Hx as (Hne & _ & _ & Hc & _). specialize (Hsp Hc). destruct ns as [|? [|]]; by simplify_eq. }
  cbn [negb]. destruct Hx as (? & ? & ? & Hc & ?). rewrite split_reach by done.
  rewrite filter_safe by (apply Forall_app; split; [done|by apply Forall_singleton]).
  rewrite descend_frames_reach. by rewrite <- reach_base.
Qed.

Lemma ends_with_absent b x : x <> ""%string -> contains_char "/" x = false -> ends_with slash (b +:+ x) = false.
Proof.
  intros Hx Hc. apply not_true_is_false. intros [r Hr]%ends_with_spec. revert r Hr. induction b as [|c b IH]; intros r Hr.
  - cbn in Hr. subst x. rewrite contains_char_app in Hc. cbn in Hc. by rewrite orb_true_r in Hc.
  - destruct r as [|d r]; cbn in Hr; [|injection Hr as _ Hr; by eapply IH].
    injection Hr as _ Hr. by destruct b, x.
Qed.

Lemma build_stack_flat base x (d : bool) :
  safe_component x -> (d = false -> ends_with slash (base +:+ x) = false) ->
  build_stack_from_last base (base +:+ x +:+ (if d then slash else "")) false
  = [mk_frame base (x +:+ (if d then slash else ""))%string].
Proof.
  intros Hx Hd. unfold build_stack_from_last. rewrite strip_prefix_app, trim_start_safe by done.
  assert (is_empty (x +:+ (if d then slash else "")) = false) as ->.
  { apply is_empty_false. destruct Hx as (Hne & _). by destruct x. }
  cbn [negb]. assert (head (split "/" (x +:+ (if d then slash else ""))) = Some x) as ->.
  { destruct Hx as (_ & _ & _ & Hc & _). destruct d; [unfold slash; rewrite head_split_app|rewrite str_app_nil_r];
      by rewrite split_absent. }
  change (default _ (Some x)) with x. f_equal. destruct d.
  - replace (ends_with slash _) with true; [done|]. symmetry. apply ends_with_spec.
    exists (base +:+ x)%string. by rewrite str_app_assoc.
  - by rewrite str_app_nil_r, Hd.
Qed.

(** The key of a directory stands for a cursor in front of it. *)
Lemma build_stack_directory base x :
  safe_component x -> build_stack_from_last base (base +:+ x +:+ "/") true = [mk_frame base x].
Proof.
  intros Hx. unfold build_stack_from_last. rewrite strip_prefix_app, trim_start_safe by done.
  assert (is_empty (x +:+ "/") = false) as -> by (destruct Hx; by destruct x). cbn [negb].
  rewrite split_app, split_absent by apply Hx. change (split "/" "") with [""%string]. cbn [app]. rewrite filter_cons, decide_True by (by apply safe_nonempty).
  by rewrite filter_cons, decide_False.
Qed.

(** ** The stack during a walk *)
Section Boundary.
Context {E : ListEnv} (plain : plain_tree).
Context (bucket prefix : string) (leaf_filter : option string) (recursive want_owner : bool) (base : string).
Local Abbreviation step := (walk_step bucket prefix leaf_filter recursive want_owner).

(** The walk is in the directory reached through [names]. *)
Definition walk_at (s : list RuntimeFrame) : Prop :=
  match s with
  | [] => True
  | top :: below => exists names, dir_key top = reach base names /\ save_frame <$> rev below = passed base names /\
      Forall safe_component names /\ (recursive = false -> names = [])
  end.

(** A page boundary: the last pass listed the key the cursor is at. *)
Definition boundary (st : walk_state) : Prop :=
  exists top below x (d : bool), stack st = top :: below /\ safe_component x /\
    after top = (x +:+ (if d then slash else ""))%string /\
    last_emitted st = Some (dir_key top +:+ after top)%string.

Lemma walk_at_pop top below : walk_at (top :: below) -> walk_at below.
Proof.
  intros (names & _ & Hb & Hs & Hr). destruct below as [|g below]; [done|]. cbn in Hb. rewrite fmap_app in Hb.
  destruct names as [|n names _] using rev_ind; [by destruct (save_frame <$> rev below)|].
  rewrite passed_app in Hb. apply app_inj_tail in Hb as [Hb [= Hd _]]. apply Forall_app in Hs as [Hs _].
  exists names. split_and!; [done|done|done|]. intros H. specialize (Hr H). by destruct names.
Qed.

Lemma visit_key dir p name n :
  match visit recursive want_owner prefix dir (item_at p name n) with
  | Emit o => lo_key o = (dir +:+ sort_key (item_at p name n))%string
  | EmitPrefix cp => cp = (dir +:+ sort_key (item_at p name n))%string
  | Descend child => child = (dir +:+ name +:+ slash)%string /\ is_dir_node n = true /\ recursive = true
  | Skip => True
  end.
Proof. unfold visit. cbn. destruct (is_dir_node n), recursive; repeat case_match; try done; by simplify_eq. Qed.

Lemma step_boundary top below st :
  stack_ok bucket leaf_filter (top :: below) -> walk_at (top :: below) ->
  walk_at (stack (step top below st)) /\ (emitted (step top below st) <> emitted st -> boundary (step top below st)).
Proof using plain.
  intros [Hf _] Hat. pose proof (walk_at_pop _ _ Hat) as Hpop. unfold walk_step.
  destruct (ensure_frame_loaded _ _ _ top) as [top'|] eqn:El; [|by split; cbn].
  destruct (ensure_ok _ _ _ _ _ Hf El) as (_ & Hk & es & He & Hl). rewrite He. change (default [] (Some es)) with es.
  destruct (es !! idx top') as [it|] eqn:Ei; [|by split; cbn].
  destruct (load_dir_loaded (pt_names plain) _ _ _ _ _ Hl) as (p & _ & Hld).
  destruct (loaded_item _ _ Hld it) as (n & Hn & Hit); [by eapply list_elem_of_lookup_2|].
  assert (safe_component (it_name it)) as Hsafe by (by eapply pt_names).
  pose proof (visit_key (dir_key top) p (it_name it) n) as Hv. rewrite <- Hit in Hv.
  destruct Hat as (names & Hd & Hb & Hs & Hr). cbn [dir_key]. rewrite Hk.
  assert (sort_key it = it_name it +:+ (if is_dir_node n then slash else ""))%string as Hsort.
  { rewrite Hit at 1. cbn. destruct (is_dir_node n); [done|]. by rewrite str_app_nil_r. }
  destruct (visit recursive want_owner prefix (dir_key top) it) as [o|cp|child|]; cbn [stack set_stack].
  - split; [by exists names|]. intros _. eexists _, below, (it_name it), (is_dir_node n). cbn. by rewrite Hv.
  - split; [by exists names|]. intros _. eexists _, below, (it_name it), (is_dir_node n). cbn. by rewrite Hv.
  - destruct Hv as (-> & Hdir & Hrec). split; [|done]. exists (names ++ [it_name it]). split_and!.
    + cbn. by rewrite reach_app, Hd.
    + cbn. rewrite fmap_app, Hb, passed_app. cbn. f_equal. unfold save_frame. cbn. by rewrite Hd, Hsort, Hdir.
    + apply Forall_app. split; [done|by apply Forall_singleton].
    + congruence.
  - split; [by exists names|]. done.
Qed.

Context (mpu_ok : contains_char "/" l_mpu_dir_name = false).

Lemma walk_boundary fuel max st st' :
  walk bucket prefix leaf_filter recursive want_owner fuel max st = Some st' ->
  stack_ok bucket leaf_filter (stack st) -> walk_at (stack st) -> emitted st < max ->
  walk_at (stack st') /\ (max <= emitted st' -> boundary st').
Proof using plain mpu_ok.
  revert st. induction fuel as [|fuel IH]; intros st; cbn [walk]; intros Hw Hok Hat Hlt;
    rewrite (proj2 (Z.leb_gt _ _) Hlt) in Hw; destruct (stack st) as [|top below] eqn:Es;
    try done; try (simplify_eq; split; [by rewrite Es|lia]).
  destruct (walk_step_spec (pt_names plain) bucket prefix leaf_filter recursive want_owner mpu_ok top below st Hok) as (_ & _ & Hok1 & _).
  destruct (step_boundary top below st Hok Hat) as [Hat1 Hb1]. set (st1 := step top below st) in *.
  destruct (Z.leb_spec max (emitted st1)) as [Hm|Hm]; [|by apply (IH st1)].
  assert (st' = st1) as ->. { destruct fuel; cbn [walk] in Hw; rewrite (proj2 (Z.leb_le _ _) Hm) in Hw; congruence. }
  split; [done|]. intros _. apply Hb1. lia.
Qed.

(** The key at a boundary stands for the stack at the boundary. *)
Lemma boundary_rebuilds st k :
  walk_at (stack st) -> boundary st -> last_emitted st = Some k ->
  recursive = false \/ ends_with slash k = false ->
  build_stack_from_last base k recursive = save_frame <$> rev (stack st).
Proof using.
  intros Hat (top & below & x & d & Hst & Hx & Ha & Hl) Hk Hend. rewrite Hl in Hk. injection Hk as <-.
  rewrite Hst in *. destruct Hat as (names & Hd & Hb & Hs & Hr). cbn. rewrite fmap_app, Hb. cbn.
  unfold save_frame. rewrite Ha, Hd in *.
  assert (d = false -> ends_with slash (reach base names +:+ x) = false) as Hnd.
  { intros _. apply ends_with_absent; apply Hx. }
  destruct recursive.
  - destruct Hend as [|Hend]; [done|]. destruct d.
    + apply not_true_iff_false in Hend. destruct Hend. apply ends_with_spec. eexists. by rewrite <- str_app_assoc.
    + rewrite str_app_nil_r. by apply build_stack_recursive.
  - rewrite Hr in * by done. cbn in *. by apply build_stack_flat.
Qed.
End Boundary.

(** ** Following markers *)
Section V1.
Context {E : ListEnv}.

(** The next request of a client: the same query with the marker *)
Definition with_marker (m : string) (class : S3RequestClass) : S3RequestClass :=
  {| Classifier.bucket := Classifier.bucket class; Classifier.key := Classifier.key class;
     Classifier.query := <["marker"%string := [m]]> (Classifier.query class);
     Classifier.op := Classifier.op class |}.

Fixpoint follow_v1 (n : nat) (path : string) (class : S3RequestClass) : option (list ListObjectInfo * list string) :=
  match handle_list_objects_v1 path class with
  | Some (Ok r) =>
      match v1_is_truncated r, v1_next_marker r with
      | true, Some m =>
          match n with
          | O => None
          | S n => '(cs, ps) ← follow_v1 n path (with_marker m class);
                   Some (v1_contents r ++ cs, v1_common_prefixes r ++ ps)
          end
      | _, _ => Some (v1_contents r, v1_common_prefixes r)
      end
  | _ => None
  end.

(** A request that reaches the walk; keys are not URL-encoded. *)
Record listable_v1 (path : string) (class : S3RequestClass) (bucket prefix : string) (recursive : bool) : Prop := {
  l1_bucket : Classifier.bucket class = Some bucket;
  l1_nonempty : bucket <> ""%string;
  l1_exists : bucket_refusal bucket path = None;
  l1_prefix : default ""%string (first (Classifier.query class) "prefix") = prefix;
  l1_delimiter : recursive_of (delimiter_of (Classifier.query class)) = Ok recursive;
  l1_max : 1 <= max_keys_of (Classifier.query class);
  l1_plain : url_encode_of (Classifier.query class) = false;
  l1_unreserved : prefix = ""%string \/ is_reserved_first_segment prefix l_mpu_dir_name = false;
  l1_start : exists p, join_object_path l_posix_root bucket (fst (split_prefix prefix)) = Ok p /\ dir_visible p = true;
}.

Definition listing_v1 (bucket prefix : string) (recursive : bool) (frames : list ListV2Frame) : list listed :=
  listing bucket prefix (snd (split_prefix prefix)) recursive true frames.

(** The frames a request starts with *)
Definition marker_frames (class : S3RequestClass) (prefix : string) (recursive : bool) : list ListV2Frame :=
  let marker := default ""%string (first (Classifier.query class) "marker") in
  let base := fst (split_prefix prefix) in
  if is_empty marker then [mk_frame base ""] else build_stack_from_last base marker recursive.

Lemma enc_info_plain o : enc_info false o = o.
Proof. by destruct o. Qed.
Lemma enc_info_list (l : list ListObjectInfo) : enc_info false <$> l = l.
Proof. induction l as [|o l IH]; cbn; [done|]. by rewrite IH, enc_info_plain. Qed.
Lemma enc_list (l : list string) : enc false <$> l = l.
Proof. induction l as [|o l IH]; cbn; [done|]. by rewrite IH. Qed.

Lemma with_marker_listable path class bucket prefix recursive m :
  listable_v1 path class bucket prefix recursive -> listable_v1 path (with_marker m class) bucket prefix recursive.
Proof.
  intros []. split; cbn; try done; unfold delimiter_of, max_keys_of, url_encode_of in *;
    rewrite ?first_insert_ne by (vm_compute; done); done.
Qed.

Context (plain : plain_tree) (mpu_ok : contains_char "/" l_mpu_dir_name = false).

(** The frames of a page that a marker of the previous page stands for *)
Definition resumable (prefix : string) (recursive : bool) (frames : list ListV2Frame) : Prop :=
  frames <> [] /\ Forall saved_ok frames /\ walk_at recursive (fst (split_prefix prefix)) (rev (start_frame <$> frames)).

Lemma v1_page path class bucket prefix recursive :
  listable_v1 path class bucket prefix recursive ->
  let frames := marker_frames class prefix recursive in
  resumable prefix recursive frames ->
  (recursive = true -> forall k, k ∈ listed_key <$> listing_v1 bucket prefix recursive frames -> ends_with slash k = false) ->
  exists r new rest, handle_list_objects_v1 path class = Some (Ok r) /\
    v1_contents r = objects_of new /\ v1_common_prefixes r = prefixes_of new /\
    listing_v1 bucket prefix recursive frames = new ++ listing_v1 bucket prefix recursive rest /\
    (v1_is_truncated r = false /\ rest = [] \/
     v1_is_truncated r = true /\ new <> [] /\ resumable prefix recursive rest /\
       exists m, v1_next_marker r = Some m /\ m <> ""%string /\ marker_frames (with_marker m class) prefix recursive = rest).
Proof using plain mpu_ok.
  intros [Hb Hne Hex Hpf Hdel Hmax Hpl Hres (p & Hj & Hvis)] frames (Hnf & Hok & Hat) Hends.
  unfold handle_list_objects_v1. rewrite Hb. cbn [default from_option id].
  rewrite (proj2 (is_empty_false bucket)), Hex, Hpf, Hdel by done.
  replace (negb (is_empty prefix) && is_reserved_first_segment prefix l_mpu_dir_name) with false
    by (destruct Hres as [->| ->]; [done|by rewrite andb_false_r]).
  unfold listing_v1, marker_frames in *.
  destruct (split_prefix prefix) as [dp lf] eqn:Esp. cbn [fst snd] in *. rewrite Hj, Hvis. cbn [negb].
  fold frames. rewrite saved_unreserved by done. rewrite Hpl.
  destruct (run_walk_spec (pt_names plain) bucket prefix lf recursive true mpu_ok frames (max_keys_of (Classifier.query class)))
    as (st & new & Hw & Hsv & Hc & Hp & Hlast & Hcount & Hl & Hstop); [done|lia|].
  rewrite Hw. cbn [mbind option_bind]. set (rest := save_frame <$> rev (stack st)) in *.
  destruct (bool_decide (stack st = [])) eqn:Est; cbn [negb]; rewrite ?andb_false_r; cbn [andb].
  - apply bool_decide_eq_true in Est. assert (rest = []) as Hr by (subst rest; by rewrite Est).
    eexists _, new, []. split; [done|]. cbn. rewrite enc_info_list, enc_list, Hc, Hp. split_and!; try done; [by rewrite Hl, Hr|by left].
  - apply bool_decide_eq_false in Est. destruct Hstop as [Hstop|]; [|done].
    rewrite Hcount, (proj2 (Z.leb_le _ _)) by lia. cbn [andb].
    assert (new <> []) as Hnew by (intros ->; cbn in Hstop; lia).
    destruct (walk_boundary plain bucket prefix lf recursive true dp mpu_ok _ _ _ _ Hw) as [Hat' Hb'].
    { cbn. rewrite <- fmap_rev. apply stack_start_ok. by apply List.Forall_rev. }
    { exact Hat. }
    { change (0 < max_keys_of (Classifier.query class)). lia. }
    destruct (list.last new) as [x|] eqn:Ex; [|by apply last_None in Ex]. cbn in Hlast.
    assert (listed_key x ∈ listed_key <$> listing bucket prefix lf recursive true frames) as Hx.
    { rewrite Hl, fmap_app. apply elem_of_app. left. apply list_elem_of_fmap. exists x. split; [done|].
      apply last_Some in Ex as (l' & ->). set_solver. }
    assert (boundary st) as Hbd by (apply Hb'; lia).
    assert (build_stack_from_last dp (listed_key x) recursive = rest) as Hre.
    { eapply boundary_rebuilds; [done|done|done|]. destruct recursive; [right; by apply Hends|by left]. }
    assert (listed_key x <> ""%string) as Hxe.
    { destruct Hbd as (top & below & y & d & _ & (Hy & _) & Ha & Hl'). rewrite Hlast in Hl'. injection Hl' as ->. rewrite Ha.
      destruct (dir_key top), y; done. }
    eexists _, new, rest. split; [done|]. cbn. rewrite enc_info_list, enc_list, Hc, Hp, Hlast. split_and!; try done.
    right. split_and!; try done.
    + unfold resumable. rewrite Esp. cbn [fst]. split_and!; [|done|].
      * subst rest. destruct (stack st); [done|]. cbn. rewrite fmap_app. by intros [_ H]%List.app_eq_nil.
      * subst rest. destruct (stack st) as [|top below]; [done|]. destruct Hat' as (names & Hd & Hbl & Hsn & Hrn).
        rewrite <- !fmap_rev, rev_involutive. cbn. exists names. split_and!; try done.
        rewrite <- !fmap_rev in *. etrans; [|exact Hbl]. by rewrite <- !list_fmap_compose.
    + eexists. split_and!; [done|done|]. cbn. unfold first. change (to_ascii_lowercase "marker") with "marker"%string.
      rewrite lookup_insert_eq. cbn. by rewrite (proj2 (is_empty_false _) Hxe).
Qed.

Lemma follow_v1_spec n path class bucket prefix recursive :
  listable_v1 path class bucket prefix recursive ->
  let frames := marker_frames class prefix recursive in
  resumable prefix recursive frames ->
  (recursive = true -> forall k, k ∈ listed_key <$> listing_v1 bucket prefix recursive frames -> ends_with slash k = false) ->
  let full := listing_v1 bucket prefix recursive frames in
  (length full <= n)%nat -> follow_v1 n path class = Some (objects_of full, prefixes_of full).
Proof using plain mpu_ok.
  revert class. induction n as [|n IH]; intros class Hls frames Hres Hends full Hn; cbn [follow_v1];
    destruct (v1_page path class bucket prefix recursive Hls Hres Hends) as (r & new & rest & -> & Hc & Hp & Hl & Hcase);
    subst full; fold frames in Hl; rewrite Hl in *; rewrite length_app in Hn;
    (destruct Hcase as [[-> Hr]|(-> & Hnew & Hrest & m & -> & _ & Hnext)];
     [subst rest; cbn; change (listing_v1 bucket prefix recursive []) with (@nil listed); by rewrite app_nil_r, Hc, Hp|]).
  - destruct new; [done|]. cbn in Hn. lia.
  - rewrite (IH (with_marker m class)); rewrite ?Hnext; try done.
    + cbn. unfold objects_of, prefixes_of in *. by rewrite !omap_app, Hc, Hp.
    + by apply with_marker_listable.
    + intros Hrec k Hk. apply (Hends Hrec). rewrite fmap_app. by apply elem_of_app; right.
    + destruct new; [done|]. cbn in Hn. lia.
Qed.
End V1.

(** An entry after the cursor is still to come. *)
Lemma index_after_keeps es cursor it :
  it ∈ es -> str_lt cursor (sort_key it) -> it ∈ drop (first_index_after es cursor) es.
Proof.
  intros Hin Hlt. unfold first_index_after. destruct (is_empty cursor); [done|].
  induction es as [|a es IH]; [done|]. cbn [index_after]. destruct (cursor <s sort_key a)%s3 eqn:Ea; [done|].
  cbn. apply IH. apply elem_of_cons in Hin as [->|]; [|done]. apply str_lt_leb in Hlt. congruence.
Qed.

Section V1Claims.
Context {E : ListEnv}.

Lemma frame_lists bucket prefix lf want_owner r dir cursor es it o :
  load_dir bucket lf r dir = Some es -> it ∈ es -> str_lt cursor (sort_key it) ->
  visit true want_owner prefix dir it = Emit o ->
  lo_key o ∈ listed_key <$> omap id (frame_trace bucket prefix lf true want_owner r (start_frame (mk_frame dir cursor))).
Proof.
  intros Hl Hin Hlt Hv. unfold frame_trace, ensure_frame_loaded.
  cbn [entries start_frame mk_frame dir_key fr_dir after fr_after]. rewrite Hl. cbn [mbind option_bind entries idx dir_key].
  change (default [] (Some es)) with es. rewrite omap_app, fmap_app. apply elem_of_app. left.
  apply (list_elem_of_fmap_2' _ _ (LObject o)); [|done]. apply list_elem_of_omap. exists (Some (LObject o)). split; [|done].
  apply elem_of_concat. exists [Some (LObject o)]. split; [|set_solver]. apply list_elem_of_fmap. exists it.
  split; [unfold visit_trace; by rewrite Hv|by apply index_after_keeps].
Qed.

(** ListObjectsV1, paged.  A client that follows the markers receives
    over all its pages exactly what one unbounded page would list, in order
    and nothing twice, whatever the page size, with delimiter [/] always and
    without a delimiter when no empty directory is listed (an empty directory
    is the one entry whose key ends with a slash). *)
Theorem v1_pages_complete (path : string) (class : S3RequestClass) (bucket prefix : string) (recursive : bool) :
  plain_tree -> contains_char "/" l_mpu_dir_name = false ->
  listable_v1 path class bucket prefix recursive ->
  first (Classifier.query class) "marker" = None ->
  is_reserved_first_segment (fst (split_prefix prefix)) l_mpu_dir_name = false ->
  let full := listing_v1 bucket prefix recursive [mk_frame (fst (split_prefix prefix)) ""] in
  (recursive = true -> forall k, k ∈ listed_key <$> full -> ends_with slash k = false) ->
  follow_v1 (length full) path class = Some (objects_of full, prefixes_of full).
Proof.
  intros Hpl Hm Hls Hmk Hr full Hends.
  assert (marker_frames class prefix recursive = [mk_frame (fst (split_prefix prefix)) ""]) as Hf.
  { unfold marker_frames. by rewrite Hmk. }
  pose proof (follow_v1_spec Hpl Hm (length full) path class bucket prefix recursive Hls) as H. rewrite Hf in H.
  apply H; [|done|done]. split_and!; [done|apply Forall_singleton; split; [apply split_prefix_form|done]|].
  exists []. by split_and!.
Qed.

(** The marker of an empty directory does not pass it.  Without a
    delimiter, a request whose marker is the key of an empty directory below
    the prefix lists that directory again, so a client that pages with
    [max-keys=1] never gets beyond it. *)
Theorem v1_empty_directory_repeats (bucket prefix name : string) (p : path) (i j : inode) (s t : Z) (l m : bool) :
  plain_tree -> join_object_path l_posix_root bucket (fst (split_prefix prefix)) = Ok p ->
  l_fs !! p = Some (Directory i s l) -> l_fs !! (p ++ [name]) = Some (Directory j t m) -> children l_fs (p ++ [name]) = [] ->
  ~ (fst (split_prefix prefix) = ""%string /\ name = l_mpu_dir_name) ->
  let key := (fst (split_prefix prefix) +:+ name +:+ "/")%string in
  starts_with prefix key = true ->
  key ∈ listed_key <$> listing_v1 bucket prefix true (build_stack_from_last (fst (split_prefix prefix)) key true).
Proof.
  intros Hpl Hj Hp Hn Hc Hh key Hpre. assert (safe_component name) as Hs by (by eapply pt_names).
  unfold listing_v1. destruct (split_prefix prefix) as [dir lf] eqn:Esp. cbn [fst snd] in *.
  destruct (load_all Hpl bucket None dir p i s l Hj Hp) as (es & Hr & _ & _ & Hall).
  unfold key at 2. rewrite build_stack_directory by done. unfold listing. cbn [fmap list_fmap rev app stack_trace].
  rewrite bool_decide_true, app_nil_r by done.
  pose proof (visit_plain Hpl prefix true dir p name _ Hn) as Hv. cbn [is_dir_node] in Hv.
  rewrite bool_decide_true in Hv by done. fold key in Hv. rewrite Hpre in Hv.
  replace (is_empty dir && (name =s l_mpu_dir_name)%s3) with false in Hv.
  2:{ symmetry. apply not_true_is_false. intros [->%is_empty_true ->%String.eqb_eq]%andb_true_iff. by apply Hh. }
  set (it := item_at p name (Directory j t m)) in *.
  assert (exists keep, load_dir bucket lf true dir = Some keep /\ it ∈ keep) as (keep & Hl & Hin).
  { unfold load_dir. rewrite Hj, Hr. destruct lf as [x|]; eexists; (split; [done|]); [|by apply Hall].
    apply list_elem_of_filter. split; [|by apply Hall].
    eapply (leaf_filter_keeps Hpl prefix dir x p name [] _ (Directory j t m) Esp Hn); [|exact Hpre]. split_and!; [done|done|]. by intros _. }
  change key with (lo_key (object_info key {| stx_ino := i_ino (node_inode (Directory j t m)); stx_size := node_size (Directory j t m);
    stx_uid := i_uid (node_inode (Directory j t m)); stx_mtime := statx_mtime (i_mtime (node_inode (Directory j t m))) |} 0 true)).
  eapply frame_lists; [exact Hl|exact Hin| |exact Hv]. cbn. apply str_lt_iff. rewrite <- (str_app_nil_r name) at 1 3.
  split; [apply str_lt_iff, str_lt_app; by apply str_lt_nil|]. intros H%str_app_inv_l. done.
Qed.
End V1Claims.
