(* ===== verification/ListingWitness.v ===== *)
(** * A bucket to list

    The hypotheses of the theorems on listings hold together: an export with
    one bucket, files at several levels, an empty directory and a multipart
    directory, and a token codec that inverts. *)

From Stdlib Require Import ZArith Lia Ascii.
From stdpp Require Import base list strings numbers option gmap sorting countable.
From S2P Require Import Classifier.
From S2P Require Import Prelude RustStr Http Utils UriEncoding S3Resp Bytes FsHelpers FileSystem GatewayHelpers Listing Pagination ListingSpec MarkerPaging.

Local Open Scope Z_scope.

(** ** A codec *)
Fixpoint bits (p : positive) : string :=
  match p with xH => "" | xO p => String "0" (bits p) | xI p => String "1" (bits p) end.
Fixpoint unbits (s : string) : positive :=
  match s with "" => xH | String c s => if Ascii.eqb c "0" then xO (unbits s) else xI (unbits s) end%string.

Lemma unbits_bits p : unbits (bits p) = p.
Proof. induction p as [p IH|p IH|]; cbn; by rewrite ?IH. Qed.

Definition token_parts (t : ListV2Token) :=
  (tok_v t, tok_bucket t, tok_prefix t, tok_delimiter t, (fun f => (fr_dir f, fr_after f)) <$> tok_stack t).
Definition token_of_parts (x : Z * string * string * option string * list (string * string)) : ListV2Token :=
  let '(v, b, p, d, s) := x in
  {| tok_v := v; tok_bucket := b; tok_prefix := p; tok_delimiter := d; tok_stack := (fun f => mk_frame (fst f) (snd f)) <$> s |}.

Lemma token_of_parts_spec t : token_of_parts (token_parts t) = t.
Proof.
  destruct t as [v b p d s]. cbn. f_equal. induction s as [|[dir cursor] s IH]; cbn; [done|]. by rewrite IH.
Qed.

Definition demo_encode (t : ListV2Token) : option string := Some (bits (encode (token_parts t))).
Definition demo_decode (s : string) : res string ListV2Token :=
  match decode (unbits s) with Some x => Ok (token_of_parts x) | None => Err "invalid"%string end.

Lemma demo_codec t : exists s, demo_encode t = Some s /\ demo_decode s = Ok t.
Proof.
  eexists. split; [done|]. unfold demo_decode. by rewrite unbits_bits, decode_encode, token_of_parts_spec.
Qed.

(** ** A tree *)
Definition demo_inode (n : Z) : inode := {| i_ino := n; i_mtime := 0; i_mode := 420; i_uid := 1; i_xattrs := ∅ |}.
Definition demo_dir (n : Z) : node := Directory (demo_inode n) 4096 false.
Definition demo_file (n : Z) : node := RegFile (demo_inode n) [] false.
Definition demo_fs : filesystem := list_to_map
  [([], demo_dir 1); (["export"], demo_dir 2); (["export"; "b"], demo_dir 3);
   (["export"; "b"; "a"], demo_dir 4); (["export"; "b"; "a"; "x"], demo_file 5); (["export"; "b"; "a"; "y"], demo_file 6);
   (["export"; "b"; "a.txt"], demo_file 7); (["export"; "b"; "e"], demo_dir 8); (["export"; "b"; "z"], demo_file 9);
   (["export"; "b"; ".s32p-mpu"], demo_dir 10)]%string.

#[local] Instance demo_env : ListEnv := {|
  l_posix_root := ["export"%string]; l_mpu_dir_name := ".s32p-mpu"; l_fs := demo_fs;
  read_dir_fault := fun _ => None; entry_fault := fun _ => false; stat_fault := fun _ => false;
  owner_info := fun _ => {| owner_id := "1"; owner_display_name := "u" |};
  format_s3_time_system := fun _ => "t"%string;
  encode_token := demo_encode; decode_token := demo_decode; l_utf8_percent_encode := fun _ s => s;
  debug_opt_str := fun _ => ""%string |}.

Lemma demo_plain : plain_tree.
Proof.
  split; try done; intros p name n Hn; eapply (tree_ok_spec demo_fs p name n); (vm_compute; reflexivity) || exact Hn.
Qed.

Definition demo_request (q : list (string * list string)) : S3RequestClass :=
  {| Classifier.bucket := Some "b"%string; Classifier.key := None; Classifier.query := list_to_map q; Classifier.op := Classifier.Other |}.
Definition demo_v2 : S3RequestClass := demo_request [("list-type", ["2"]); ("max-keys", ["2"])]%string.

Lemma demo_listable : listable "/b" demo_v2 "b" "" true.
Proof.
  split; try done; try (vm_compute; done); [by left|]. eexists. split; [by vm_compute|by vm_compute].
Qed.

Definition keys_of_pages (r : list ListObjectInfo * list string) : list string * list string :=
  (lo_key <$> fst r, snd r).

(** The pages of two entries, put together *)
Lemma v2_pages_complete_witness :
  keys_of_pages <$> follow_v2 5 "/b" demo_v2 = Some (["a.txt"; "a/x"; "a/y"; "e/"; "z"], [])%string.
Proof.
  change 5%nat with (length (listing_of demo_v2 "b" "" true [mk_frame "" ""])).
  rewrite (v2_pages_complete "/b" demo_v2 "b" "" true [mk_frame "" ""]);
    [by vm_compute|apply demo_plain|done|apply demo_codec|apply demo_listable|done|done|by vm_compute].
Defined.

Lemma recursive_listing_exact_witness :
  exists objects, follow_v2 (length objects) "/b" demo_v2 = Some (enc_info false <$> objects, []) /\
    StronglySorted str_lt (lo_key <$> objects) /\
    forall k, k ∈ lo_key <$> objects <-> is_key "" "" ["export"; "b"]%string k.
Proof.
  apply (recursive_listing_exact "/b" demo_v2 "b" "");
    [apply demo_plain|done|apply demo_codec|apply demo_listable|done|done|by vm_compute|done].
Defined.

Definition demo_v1 : S3RequestClass := demo_request [("max-keys", ["1"]); ("delimiter", ["/"])]%string.

Lemma v1_pages_complete_witness :
  keys_of_pages <$> follow_v1 4 "/b" demo_v1 = Some (["a.txt"; "z"], ["a/"; "e/"])%string.
Proof.
  change 4%nat with (length (listing_v1 "b" "" false [mk_frame "" ""])).
  rewrite (v1_pages_complete "/b" demo_v1 "b" "" false);
    [by vm_compute|apply demo_plain|done| |done|by vm_compute|done].
  split; try done; try (vm_compute; done); [by left|]. eexists. split; [by vm_compute|by vm_compute].
Defined.

Lemma v1_empty_directory_repeats_witness :
  "e/"%string ∈ listed_key <$> listing_v1 "b" "" true (build_stack_from_last "" "e/" true).
Proof.
  apply (v1_empty_directory_repeats "b" "" "e" ["export"; "b"]%string (demo_inode 3) (demo_inode 8) 4096 4096 false false);
    [apply demo_plain|done|by vm_compute..| |done]. by intros [_ H].
Defined.
