(* ===== verification/Multipart.v ===== *)
(** * s32p-gateway/src/multipart.rs

    Multipart uploads.  An upload is a directory with a [meta.json], a file
    [direct.bin] in which parts are placed at their final offset when the
    part size can be guessed, and one file per part otherwise; completion
    either renames [direct.bin] into place or assembles a new file.

    The handlers are state-passing programs over [store].  Every answer of
    the operating system is a parameter: [io] for calls that succeed or fail,
    [kread] and [kwrite] for what io_uring does to the chunks of a copy, an
    [upload_env] for the body of a part.  Arithmetic on [u64] wraps, as the
    release profile compiles it. *)

From Stdlib Require Import ZArith Lia Ascii.
From stdpp Require Import base list list_numbers strings numbers option gmap sorting.
From S2P Require Import Classifier.
From S2P Require Import Prelude RustStr Http Utils Preconditions UriEncoding S3Resp S3Xml Bytes FsHelpers Handler Streaming PayloadSource Upload Copy GatewayHelpers.

Local Open Scope s3_scope.
Local Open Scope Z_scope.

(** ** The metadata of an upload *)
Definition MAX_PARTS_PER_UPLOAD : Z := 10000.

Inductive UploadState := Active | Completing | Completed.

Inductive PartStored := Direct (off : Z) | File (name : string).

Record PartMeta := { part_size : Z; part_etag : string; part_last_modified : string; part_stored : PartStored }.

Record UploadMeta := {
  m_v : Z;
  m_bucket : string;
  m_key : string;
  m_upload_id : string;
  m_initiated : string;
  m_state : UploadState;
  assumed_part_size : option Z;
  total_size_hint : option Z;
  m_parts : gmap Z PartMeta;
}.

#[global] Instance UploadState_eq_dec : EqDecision UploadState.
Proof. solve_decision. Defined.
#[global] Instance PartStored_eq_dec : EqDecision PartStored.
Proof. solve_decision. Defined.

Definition set_state (s : UploadState) (m : UploadMeta) : UploadMeta := {|
  m_v := m_v m; m_bucket := m_bucket m; m_key := m_key m; m_upload_id := m_upload_id m;
  m_initiated := m_initiated m; m_state := s; assumed_part_size := assumed_part_size m;
  total_size_hint := total_size_hint m; m_parts := m_parts m |}.
Definition set_assumed (s : Z) (m : UploadMeta) : UploadMeta := {|
  m_v := m_v m; m_bucket := m_bucket m; m_key := m_key m; m_upload_id := m_upload_id m;
  m_initiated := m_initiated m; m_state := m_state m; assumed_part_size := Some s;
  total_size_hint := total_size_hint m; m_parts := m_parts m |}.
Definition set_hint (h : Z) (m : UploadMeta) : UploadMeta := {|
  m_v := m_v m; m_bucket := m_bucket m; m_key := m_key m; m_upload_id := m_upload_id m;
  m_initiated := m_initiated m; m_state := m_state m; assumed_part_size := assumed_part_size m;
  total_size_hint := Some h; m_parts := m_parts m |}.
Definition insert_part (pn : Z) (p : PartMeta) (m : UploadMeta) : UploadMeta := {|
  m_v := m_v m; m_bucket := m_bucket m; m_key := m_key m; m_upload_id := m_upload_id m;
  m_initiated := m_initiated m; m_state := m_state m; assumed_part_size := assumed_part_size m;
  total_size_hint := total_size_hint m; m_parts := <[pn := p]> (m_parts m) |}.

(** [sanitize_upload_id] *)
Definition sanitize_upload_id (upload_id : string) : res string unit :=
  if is_empty upload_id then Err "empty uploadId"%string
  else if contains_char "/" upload_id || contains_char "\" upload_id then Err "invalid uploadId"%string
  else if contains_char "000" upload_id then Err "invalid uploadId"%string
  else Ok tt.

(** [recompute_assumed_part_size]: [counts.into_iter()] runs in the order of
    the hash map, a parameter. *)
Definition count_sizes (ps : list PartMeta) : gmap Z nat :=
  foldr (fun p counts => <[part_size p := S (default O (counts !! part_size p))]> counts) ∅ ps.

Definition recompute_assumed_part_size (hash_order : list (Z * nat) -> list (Z * nat)) (m : UploadMeta) : UploadMeta :=
  match assumed_part_size m with
  | Some _ => m
  | None =>
      let counts := count_sizes (snd <$> map_to_list (m_parts m)) in
      match find (fun kv => (2 <=? snd kv)%nat) (hash_order (map_to_list counts)) with
      | Some (sz, _) => set_assumed sz m
      | None => m
      end
  end.

(** [compute_sequential_direct_offset] *)
Fixpoint sequential_offset (m : UploadMeta) (pns : list Z) (off : Z) : option Z :=
  match pns with
  | [] => Some off
  | pn :: rest =>
      match m_parts m !! pn with
      | Some p => match part_stored p with
                  | Direct o => if o =? off then sequential_offset m rest (sat_add64 off (part_size p)) else None
                  | File _ => None
                  end
      | None => None
      end
  end.

Definition compute_sequential_direct_offset (m : UploadMeta) (part_number : Z) : option Z :=
  if part_number <=? 1 then Some 0 else sequential_offset m (seqZ 1 (part_number - 1)) 0.

(** [part_file_name]: [format!("part-{:05}.bin", part_number)] *)
Definition part_file_name (part_number : Z) : string :=
  ("part-" +:+ zero_pad 5 (print_u64 part_number) +:+ ".bin")%string.
Definition part_tmp_name (part_number : Z) : string := (part_file_name part_number +:+ ".tmp")%string.

(** The placement decision of phase 1: promote [assumed_part_size] from the
    headers of this part, then place it. *)
Definition promote_assumed (part_number logical_len : Z) (m : UploadMeta) : UploadMeta * bool :=
  match assumed_part_size m with
  | Some _ => (m, false)
  | None =>
      if (if part_number =? 1 then true
          else existsb (fun p => part_size p =? logical_len) (snd <$> map_to_list (m_parts m)))
      then (set_assumed logical_len m, true)
      else (m, false)
  end.

Definition direct_offset (part_number logical_len : Z) (m : UploadMeta) : option Z :=
  match assumed_part_size m with
  | Some s => if logical_len <=? s then Some (wrap64 ((part_number - 1) * s)) else None
  | None => compute_sequential_direct_offset m part_number
  end.

(** The entry phase 3 records. *)
Definition record_part (hash_order : list (Z * nat) -> list (Z * nat)) (part_number : Z) (p : PartMeta)
    (m : UploadMeta) : UploadMeta :=
  recompute_assumed_part_size hash_order (insert_part part_number p m).

(** ** The file system the handlers see *)

(** One upload directory; [meta_json] is [None] when the file is missing or
    does not parse. *)
Record upload_fs := {
  meta_json : option UploadMeta;
  direct_bin : option bytes;
  parts_dir : gmap string bytes;
  complete_bin : option bytes;
}.

Definition set_meta_json (m : option UploadMeta) (u : upload_fs) : upload_fs :=
  {| meta_json := m; direct_bin := direct_bin u; parts_dir := parts_dir u; complete_bin := complete_bin u |}.
Definition set_direct_bin (d : option bytes) (u : upload_fs) : upload_fs :=
  {| meta_json := meta_json u; direct_bin := d; parts_dir := parts_dir u; complete_bin := complete_bin u |}.
Definition set_parts_dir (p : gmap string bytes) (u : upload_fs) : upload_fs :=
  {| meta_json := meta_json u; direct_bin := direct_bin u; parts_dir := p; complete_bin := complete_bin u |}.
Definition set_complete_bin (c : option bytes) (u : upload_fs) : upload_fs :=
  {| meta_json := meta_json u; direct_bin := direct_bin u; parts_dir := parts_dir u; complete_bin := c |}.

(** A regular file of the export and what [stat] tells of it. *)
Record object := { content : bytes; ino : Z; mtime : system_time }.

(** [uploads] is keyed by bucket and directory name; [mpu_roots] are the
    buckets that have a multipart directory. *)
Record store := {
  buckets : gset string;
  mpu_roots : gset string;
  uploads : gmap (string * string) upload_fs;
  objects : gmap (list string) object;
}.

Definition set_uploads (u : gmap (string * string) upload_fs) (st : store) : store :=
  {| buckets := buckets st; mpu_roots := mpu_roots st; uploads := u; objects := objects st |}.
Definition set_objects (o : gmap (list string) object) (st : store) : store :=
  {| buckets := buckets st; mpu_roots := mpu_roots st; uploads := uploads st; objects := o |}.

Definition object_etag_unquoted (o : object) : string :=
  format_object_etag_unquoted (ino o) (mtime o) (blen (content o)).
Definition object_etag (o : object) : string := format_object_etag (ino o) (mtime o) (blen (content o)).

(** ** Replies and the handler monad *)
Record part_info := { pi_number : Z; pi_last_modified : string; pi_etag : string; pi_size : Z }.
Record upload_info := { ui_key : string; ui_upload_id : string; ui_initiated : string }.

Inductive reply :=
| Refused (r : HttpResponse)
| CreateOk (bucket key upload_id : string)
| UploadPartOk (etag : string)
| UploadPartCopyOk (etag last_modified : string)
| ListPartsOk (bucket key upload_id : string) (parts : list part_info)
| ListUploadsOk (bucket : string) (uploads : list upload_info)
| CompleteOk (location bucket key etag : string)
| AbortNoContent.

Definition M : Type -> Type := handler store reply.
Definition refuse {A} (r : HttpResponse) : M A := reply_with (Refused r).
(** [if b { return r; }] *)
Definition refuse_if (b : bool) (r : HttpResponse) : M unit := if b then refuse r else mret tt.

(** ** Handlers *)

(** [GatewayConfig], as far as the handlers read it *)
Record Config := { posix_root : list string; mpu_dir_name : string; public_scheme : string; stream_cfg : StreamCfg }.

Record request := { rq_headers : header_map; rq_path : string; rq_body : list item }.

(** Call sites whose outcome the environment decides. *)
Inductive site :=
| CreateUploadDir | CreateParent | Lock | LockAgain | WriteMetaPlan | WriteMetaRecord | WriteMetaCreate
| WriteMetaCompleting | WriteMetaActive | WriteMetaCompleted | ReadUploadsDir
| OpenDirectBin | OpenPartTmp | RenamePart | RemoveTmp | StatSource | OpenSource
| OpenPartFile (pn : Z) | RemovePartFile (pn : Z) | OpenDirectRead
| TruncateDirect | RenameDirect | RenameDstTmp | RemoveDst | RemoveDstTmp
| OpenStaging | OpenStagingAgain | TruncateStaging | RemoveStaging | RenameStaging | RenameStagingTmp
| RemoveUploadDir | StatFinal
| CopyToDirect (pn : Z) | CopyFromDirect (pn : Z) | CopyFromFile (pn : Z) | CopyPartDirect | CopyPartFile
| CopyDirectAcross | CopyStagingAcross.

(** [Denied] is [PermissionDenied]; [Exdev] is what [rename] answers across
    file systems. *)
Inductive io_answer := Succeeds | Denied | Exdev | Fails (m : string).

Definition succeeds (a : io_answer) : bool := match a with Succeeds => true | _ => false end.
Definition io_message (a : io_answer) : string :=
  match a with
  | Succeeds => "" | Denied => "Permission denied (os error 13)"
  | Exdev => "Invalid cross-device link (os error 18)" | Fails m => m
  end%string.

Definition bad_request (code message path : string) : HttpResponse := s3_error 400 code message (Some path) None.
Definition internal (message path : string) : HttpResponse := internal_error message (Some path) None.
(** [no_such_upload] *)
Definition no_such_upload (resource : option string) : HttpResponse :=
  s3_error 404 "NoSuchUpload" "upload not found" resource None.
Definition not_active (path : string) : HttpResponse :=
  s3_error 409 "InvalidRequest" "upload is not active" (Some path) None.

(** The configuration and everything the environment decides. *)
Class Env := {
  cfg : Config;
  io : site -> io_answer;
  (* the answers of io_uring to the chunks of a copy *)
  kread : site -> bytes -> Z -> Z -> res string Z;
  kwrite : site -> nat -> write_event;
  (* the kernel's side of a request body; whether [O_DIRECT] is supported *)
  body_env : upload_env;
  direct_supported : bool;
  (* [format_s3_time_system(SystemTime::now())] and the display of errors *)
  now_s3 : string;
  show_upload_error : upload_error -> string;
  show_copy_error : copy_error -> string;
  show_cond_error : cond_error -> string;
  show_util_error : util_error -> string;
  (* the iteration order of a [HashMap] *)
  hash_order : list (Z * nat) -> list (Z * nat);
  (* the inode and time of a file renamed into place; whether the upload and
     the destination are on different file systems; the files
     [copy_file_to_file] opens; what other clients put at the destination
     between the checks and a commit *)
  new_ino : Z;
  new_mtime : system_time;
  cross_device : bool;
  copy_env : site -> upload_env;
  appears : site -> option object;
  (* the events of [quick_xml]'s reader and the display of a body error *)
  xml_reader : bytes -> list xml_event;
  show_read_error : io_error -> string;
  (* the httpdate and percent-encoding crates *)
  httpdate_parse : string -> option system_time;
  percent_decode_utf8 : string -> option string;
}.

Section Handlers.
Context {E : Env}.

Definition sys (s : site) (path : string) : M unit :=
  if succeeds (io s) then mret tt else refuse (internal (io_message (io s)) path).

(** [dir.exists()]: a name without slashes is a directory of [uploads/], or
    one of the two names every directory has. *)
Definition dot_name (id : string) : bool := (id =s ".") || (id =s "..").
Definition dir_exists (bucket id : string) (st : store) : bool :=
  if dot_name id then bool_decide (bucket ∈ mpu_roots st)
  else bool_decide (is_Some (uploads st !! (bucket, id))).

(** [read_meta] *)
Definition read_meta (bucket id : string) : M (option UploadMeta) :=
  get (fun st => uploads st !! (bucket, id) ≫= meta_json).

Definition update_upload (bucket id : string) (f : upload_fs -> upload_fs) : M unit :=
  modify (fun st => set_uploads (alter f (bucket, id) (uploads st)) st).

(** [write_meta_atomic], with and without [?] *)
Definition write_meta (s : site) (bucket id : string) (m : UploadMeta) (path : string) : M unit :=
  _ ← sys s path; update_upload bucket id (set_meta_json (Some m)).
Definition try_write_meta (s : site) (bucket id : string) (m : UploadMeta) : M unit :=
  if succeeds (io s) then update_upload bucket id (set_meta_json (Some m)) else mret tt.

Definition lift_path {A} (r : res path_error A) (path : option string) : M A :=
  match r with
  | Ok a => mret a
  | Err e => refuse (access_denied (path_error_message e) path)
  | Panics => panic
  end.

Definition require_bucket (bucket path : string) : M unit :=
  _ ← lift_path (bucket_root_path (posix_root cfg) bucket) (Some path);
  exists_ ← get (fun st => bool_decide (bucket ∈ buckets st));
  refuse_if (negb exists_) (no_such_bucket "bucket not found" (Some path)).

Definition check_upload_id (upload_id path : string) : M unit :=
  match sanitize_upload_id upload_id with
  | Ok _ => mret tt
  | Err e => refuse (bad_request "InvalidRequest" e path)
  | Panics => panic
  end.

(** *** [handle_create_mpu]; [upload_id] comes from [gen_upload_id] *)
Definition handle_create_mpu (upload_id : string) (rq : request) (bucket key : string) : M reply :=
  let path := rq_path rq in
  _ ← refuse_if (is_empty bucket || is_empty key) (bad_request "InvalidRequest" "missing bucket or key" path);
  _ ← require_bucket bucket path;
  _ ← sys CreateUploadDir path;
  _ ← modify (fun st => {| buckets := buckets st; mpu_roots := {[bucket]} ∪ mpu_roots st;
        uploads := <[(bucket, upload_id) := {| meta_json := None; direct_bin := None; parts_dir := ∅;
                                               complete_bin := None |}]> (uploads st);
        objects := objects st |});
  let meta := {| m_v := 1; m_bucket := bucket; m_key := key; m_upload_id := upload_id; m_initiated := now_s3;
                 m_state := Active; assumed_part_size := None; total_size_hint := None; m_parts := ∅ |} in
  _ ← sys Lock path;
  _ ← write_meta WriteMetaCreate bucket upload_id meta path;
  mret (CreateOk bucket key upload_id).

(** *** [handle_list_uploads]; [read_dir] gives the entries in no particular order *)
Definition upload_listed (e : string * string * upload_fs) (bucket : string) : option upload_info :=
  if negb (fst (fst e) =s bucket) then None
  else match meta_json (snd e) with
       | Some m => if bool_decide (m_state m = Active)
                   then Some {| ui_key := m_key m; ui_upload_id := m_upload_id m; ui_initiated := m_initiated m |}
                   else None
       | None => None
       end.

Definition handle_list_uploads (rq : request) (bucket : string) : M reply :=
  let path := rq_path rq in
  _ ← refuse_if (is_empty bucket) (bad_request "InvalidRequest" "missing bucket" path);
  _ ← require_bucket bucket path;
  root ← get (fun st => bool_decide (bucket ∈ mpu_roots st));
  if negb root then mret (ListUploadsOk bucket [])
  else
    _ ← sys ReadUploadsDir path;
    entries ← get (fun st => map_to_list (uploads st));
    mret (ListUploadsOk bucket (omap (fun e => upload_listed e bucket) entries)).

(** *** [handle_list_parts]: the entries of the [BTreeMap] in order *)
Definition part_le (a b : Z * PartMeta) : Prop := fst a <= fst b.
#[global] Instance part_le_dec : RelDecision part_le.
Proof. intros a b. unfold part_le. apply _. Defined.

Definition list_parts (m : UploadMeta) : list part_info :=
  (fun '(pn, p) => {| pi_number := pn; pi_last_modified := part_last_modified p; pi_etag := part_etag p;
                      pi_size := part_size p |}) <$> merge_sort part_le (map_to_list (m_parts m)).

Definition find_upload (rq : request) (bucket upload_id : string) : M unit :=
  let path := rq_path rq in
  _ ← lift_path (bucket_root_path (posix_root cfg) bucket) (Some path);
  found ← get (dir_exists bucket upload_id);
  refuse_if (negb found) (no_such_upload (Some path)).

Definition lock_and_read (rq : request) (bucket key upload_id : string) : M UploadMeta :=
  let path := rq_path rq in
  _ ← sys Lock path;
  om ← read_meta bucket upload_id;
  match om with
  | None => refuse (no_such_upload (Some path))
  | Some m =>
      if negb (m_bucket m =s bucket) || negb (m_key m =s key) then refuse (no_such_upload (Some path))
      else mret m
  end.

Definition handle_list_parts (rq : request) (bucket key upload_id : string) : M reply :=
  let path := rq_path rq in
  _ ← refuse_if (is_empty bucket || is_empty key) (bad_request "InvalidRequest" "missing bucket or key" path);
  _ ← check_upload_id upload_id path;
  _ ← find_upload rq bucket upload_id;
  m ← lock_and_read rq bucket key upload_id;
  mret (ListPartsOk bucket key upload_id (list_parts m)).

(** *** [handle_abort] *)

(** [fs::remove_dir_all(dir)]: through the name [.] every entry of [uploads/]
    goes and the directory itself stays, through [..] every entry of the
    multipart directory goes. *)
Definition remove_upload_dir (bucket id : string) (st : store) : store :=
  if dot_name id then
    {| buckets := buckets st;
       mpu_roots := if id =s ".." then mpu_roots st ∖ {[bucket]} else mpu_roots st;
       uploads := filter (fun kv => kv.1.1 <> bucket) (uploads st);
       objects := objects st |}
  else set_uploads (delete (bucket, id) (uploads st)) st.

Definition handle_abort (rq : request) (bucket key upload_id : string) : M reply :=
  let path := rq_path rq in
  _ ← refuse_if (is_empty bucket || is_empty key) (bad_request "InvalidRequest" "missing bucket or key" path);
  _ ← check_upload_id upload_id path;
  _ ← find_upload rq bucket upload_id;
  _ ← (if succeeds (io RemoveUploadDir) then modify (remove_upload_dir bucket upload_id) else mret tt);
  mret AbortNoContent.

(** *** [handle_upload_part] *)

(** Phase 1, under the lock: promote the assumed size and place the part. *)
Definition plan_part (rq : request) (bucket key upload_id : string) (part_number logical_len : Z) : M (option Z) :=
  let path := rq_path rq in
  m ← lock_and_read rq bucket key upload_id;
  _ ← refuse_if (negb (bool_decide (m_state m = Active))) (not_active path);
  let '(m, dirty) := promote_assumed part_number logical_len m in
  _ ← (if dirty then write_meta WriteMetaPlan bucket upload_id m path else mret tt);
  mret (direct_offset part_number logical_len m).

(** Phase 3, under the lock again: re-read the metadata and record the part. *)
Definition finish_part (rq : request) (bucket upload_id : string) (part_number : Z) (p : PartMeta) (ok : reply)
    : M reply :=
  let path := rq_path rq in
  _ ← sys LockAgain path;
  om ← read_meta bucket upload_id;
  match om with
  | None => refuse (no_such_upload (Some path))
  | Some m =>
      _ ← refuse_if (negb (bool_decide (m_state m = Active))) (not_active path);
      _ ← write_meta WriteMetaRecord bucket upload_id (record_part hash_order part_number p m) path;
      mret ok
  end.

(** [write_object_body] on the reader the body needs *)
Definition write_body (rq : request) (is_aws_chunked : bool) (dest : WriteObjectDest) (f0 : bytes) (logical_len : Z)
    (c : StreamCfg) : upload_result * bytes :=
  if is_aws_chunked then write_object_body body_env (AwsChunked.new (rq_body rq)) dest f0 logical_len c
  else write_object_body body_env (Plain.new (rq_body rq)) dest f0 logical_len c.

Definition with_direct (c : StreamCfg) (d : bool) : StreamCfg :=
  {| chunk_size := chunk_size c; inflight := inflight c; direct_io := d |}.

Definition upload_of (bucket id : string) (st : store) : upload_fs :=
  default {| meta_json := None; direct_bin := None; parts_dir := ∅; complete_bin := None |} (uploads st !! (bucket, id)).

(** Phase 2, in place in [direct.bin] *)
Definition write_direct (rq : request) (bucket upload_id : string) (is_aws_chunked : bool) (off logical_len : Z)
    : M unit :=
  let path := rq_path rq in
  let use_direct := direct_io_ok_for_aligned_range off logical_len (stream_cfg cfg) && direct_supported in
  _ ← sys OpenDirectBin path;
  f0 ← get (fun st => default [] (direct_bin (upload_of bucket upload_id st)));
  let '(r, f) := write_body rq is_aws_chunked (DestFile off) f0 logical_len
                   (with_direct (stream_cfg cfg) use_direct) in
  _ ← update_upload bucket upload_id (set_direct_bin (Some f));
  match r with
  | Returned (Ok _) => mret tt
  | Returned (Err e) => refuse (internal (show_upload_error e) path)
  | Returned Panics => panic
  | WaitsForever => fun st => (Hangs, st)
  end.

Definition remove_tmp (bucket upload_id tmp : string) : M unit :=
  if succeeds (io RemoveTmp)
  then update_upload bucket upload_id (fun u => set_parts_dir (delete tmp (parts_dir u)) u)
  else mret tt.

(** [fs::rename(&tmp_path, &final_path)] *)
Definition rename_part (path bucket upload_id : string) (part_number : Z) : M unit :=
  let tmp := part_tmp_name part_number in
  if succeeds (io RenamePart) then
    update_upload bucket upload_id (fun u =>
      match parts_dir u !! tmp with
      | Some f => set_parts_dir (<[part_file_name part_number := f]> (delete tmp (parts_dir u))) u
      | None => u
      end)
  else
    _ ← remove_tmp bucket upload_id tmp;
    refuse (internal (io_message (io RenamePart)) path).

(** Phase 2, as a file of its own *)
Definition write_part_file (rq : request) (bucket upload_id : string) (is_aws_chunked : bool)
    (part_number logical_len : Z) : M unit :=
  let path := rq_path rq in
  let tmp := part_tmp_name part_number in
  f0 ← get (fun st => default [] (parts_dir (upload_of bucket upload_id st) !! tmp));
  let '(r, f) := write_body rq is_aws_chunked DestPath f0 logical_len (stream_cfg cfg) in
  _ ← (if open_ok body_env
       then update_upload bucket upload_id (fun u => set_parts_dir (<[tmp := f]> (parts_dir u)) u)
       else mret tt);
  match r with
  | Returned (Ok _) => rename_part path bucket upload_id part_number
  | Returned (Err e) =>
      _ ← remove_tmp bucket upload_id tmp;
      refuse (internal (show_upload_error e) path)
  | Returned Panics => panic
  | WaitsForever => fun st => (Hangs, st)
  end.

Definition part_etag_of (part_number logical_len : Z) : string :=
  (quote +:+ "p" +:+ print_u64 part_number +:+ "-" +:+ print_u64 logical_len +:+ quote)%string.

(** [handle_upload_part] without [x-amz-copy-source] *)
Definition upload_part_body (rq : request) (bucket key upload_id : string) (part_number : Z) : M reply :=
  let path := rq_path rq in
  _ ← refuse_if (is_empty bucket || is_empty key) (bad_request "InvalidRequest" "missing bucket or key" path);
  _ ← refuse_if ((part_number =? 0) || (MAX_PARTS_PER_UPLOAD <? part_number))
        (bad_request "InvalidArgument" "invalid partNumber" path);
  _ ← check_upload_id upload_id path;
  match compute_logical_len (rq_headers rq) with
  | Panics => panic
  | Err e => refuse (length_error_response e path)
  | Ok (is_aws_chunked, logical_len) =>
      _ ← find_upload rq bucket upload_id;
      direct_off ← plan_part rq bucket key upload_id part_number logical_len;
      let etag := part_etag_of part_number logical_len in
      match direct_off with
      | Some off =>
          _ ← write_direct rq bucket upload_id is_aws_chunked off logical_len;
          finish_part rq bucket upload_id part_number
            {| part_size := logical_len; part_etag := etag; part_last_modified := now_s3; part_stored := Direct off |}
            (UploadPartOk etag)
      | None =>
          _ ← write_part_file rq bucket upload_id is_aws_chunked part_number logical_len;
          finish_part rq bucket upload_id part_number
            {| part_size := logical_len; part_etag := etag; part_last_modified := now_s3;
               part_stored := File (part_file_name part_number) |}
            (UploadPartOk etag)
      end
  end.

(** *** [handle_upload_part_copy] *)
Definition plan_part_copy (rq : request) (bucket key upload_id : string) (part_number logical_len src_size : Z)
    (has_range : bool) : M (option Z) :=
  let path := rq_path rq in
  m ← lock_and_read rq bucket key upload_id;
  _ ← refuse_if (negb (bool_decide (m_state m = Active))) (not_active path);
  let hint := bool_decide (total_size_hint m = None) && bool_decide (m_parts m = ∅) && negb has_range in
  let m := if hint then set_hint src_size m else m in
  let '(m, promoted) := promote_assumed part_number logical_len m in
  _ ← (if hint || promoted then write_meta WriteMetaPlan bucket upload_id m path else mret tt);
  mret (direct_offset part_number logical_len m).

(** A copy that ends: its error is reported, its panic is a panic. *)
Definition run_copy (r : res copy_error unit) (on_err : M unit) (path : string) : M unit :=
  match r with
  | Ok _ => mret tt
  | Err e => _ ← on_err; refuse (internal (show_copy_error e) path)
  | Panics => panic
  end.

Definition copy_source_range (rq : request) (src_size : Z) : M ByteRange :=
  match hm_get (rq_headers rq) "x-amz-copy-source-range" with
  | Some (Some s) =>
      match parse_range_header s src_size with
      | Ok (Some r) => mret r
      | Ok None => mret {| start := 0; end_excl := src_size |}
      | Err e => refuse (invalid_request ("invalid x-amz-copy-source-range: " +:+ show_util_error e)%string
                           (Some (rq_path rq)))
      | Panics => panic
      end
  | _ => mret {| start := 0; end_excl := src_size |}
  end.

Definition parse_conditions (rq : request) : M ConditionalHeaders :=
  match parse_conditional_headers httpdate_parse (rq_headers rq) with
  | Ok c => mret c
  | Err e => refuse (invalid_request ("invalid conditional headers: " +:+ show_cond_error e)%string (Some (rq_path rq)))
  | Panics => panic
  end.

(** The object a copy reads from, after the stat and the preconditions. *)
Definition find_source (rq : request) (bucket key : string) : M object :=
  let path := rq_path rq in
  '(src_bucket, src_key) ← (match parse_copy_source percent_decode_utf8 (rq_headers rq) with
                             | Ok v => mret v
                             | Err e => refuse (bad_request "InvalidRequest" e path)
                             | Panics => panic
                             end);
  _ ← refuse_if (is_reserved_first_segment src_key (mpu_dir_name cfg)
                 || is_reserved_first_segment key (mpu_dir_name cfg))
        (access_denied "reserved key prefix" (Some path));
  _ ← require_bucket bucket path;
  _ ← require_bucket src_bucket path;
  src_path ← lift_path (join_object_path (posix_root cfg) src_bucket src_key) None;
  osrc ← get (fun st => objects st !! src_path);
  match osrc, io StatSource with
  | _, Denied => refuse (access_denied "permission denied" None)
  | None, _ => refuse (no_such_key "source not found" None)
  | Some o, Succeeds =>
      cond ← parse_conditions rq;
      match evaluate_copy_source_preconditions cond (object_etag_unquoted o) (mtime o) with
      | Proceed => mret o
      | NotModified | PreconditionFailed =>
          refuse (precondition_failed "UploadPartCopy copy-source precondition failed" (Some path))
      end
  | Some _, a => refuse (internal (io_message a) path)
  end.

Definition copy_cfg : StreamCfg := with_direct (stream_cfg cfg) false.

(** [copy_range_to_range] at a call site *)
Definition copy_at (s : site) (src : bytes) (src_off : Z) (dst : bytes) (dst_off len : Z)
    : res copy_error unit * bytes :=
  copy_range_to_range src (kread s src) (kwrite s) src_off dst dst_off len copy_cfg.

Definition handle_upload_part_copy (rq : request) (bucket key upload_id : string) (part_number : Z) : M reply :=
  let path := rq_path rq in
  _ ← refuse_if (is_empty bucket || is_empty key) (bad_request "InvalidRequest" "missing bucket or key" path);
  _ ← refuse_if ((part_number =? 0) || (MAX_PARTS_PER_UPLOAD <? part_number))
        (bad_request "InvalidArgument" "invalid partNumber" path);
  _ ← check_upload_id upload_id path;
  src ← find_source rq bucket key;
  let src_size := blen (content src) in
  let has_range := contains_key (rq_headers rq) "x-amz-copy-source-range" in
  range ← copy_source_range rq src_size;
  let logical_len := sat_sub (end_excl range) (start range) in
  _ ← find_upload rq bucket upload_id;
  direct_off ← plan_part_copy rq bucket key upload_id part_number logical_len src_size has_range;
  let part stored := {| part_size := logical_len; part_etag := object_etag src; part_last_modified := now_s3;
                        part_stored := stored |} in
  let ok := UploadPartCopyOk (object_etag src) now_s3 in
  _ ← (if succeeds (io OpenSource) then mret tt
       else refuse (internal ("open source: " +:+ io_message (io OpenSource))%string path));
  match direct_off with
  | Some off =>
      _ ← (if succeeds (io OpenDirectBin) then mret tt
           else refuse (internal ("open direct.bin: " +:+ io_message (io OpenDirectBin))%string path));
      f0 ← get (fun st => default [] (direct_bin (upload_of bucket upload_id st)));
      let '(r, f) := copy_at CopyPartDirect (content src) (start range) f0 off logical_len in
      _ ← update_upload bucket upload_id (set_direct_bin (Some f));
      _ ← run_copy r (mret tt) path;
      finish_part rq bucket upload_id part_number (part (Direct off)) ok
  | None =>
      let tmp := part_tmp_name part_number in
      _ ← (if succeeds (io OpenPartTmp) then mret tt
           else refuse (internal ("open part tmp: " +:+ io_message (io OpenPartTmp))%string path));
      f0 ← get (fun st => default [] (parts_dir (upload_of bucket upload_id st) !! tmp));
      let '(r, f) := copy_at CopyPartFile (content src) (start range) f0 0 logical_len in
      _ ← update_upload bucket upload_id (fun u => set_parts_dir (<[tmp := f]> (parts_dir u)) u);
      _ ← run_copy r (remove_tmp bucket upload_id tmp) path;
      _ ← rename_part path bucket upload_id part_number;
      finish_part rq bucket upload_id part_number (part (File (part_file_name part_number))) ok
  end.

(** [handle_upload_part] *)
Definition handle_upload_part (rq : request) (bucket key upload_id : string) (part_number : Z) : M reply :=
  if contains_key (rq_headers rq) "x-amz-copy-source"
  then handle_upload_part_copy rq bucket key upload_id part_number
  else upload_part_body rq bucket key upload_id part_number.

(** *** [handle_complete] *)

(** [build_location] *)
Definition build_location (rq : request) (scheme : string) : string :=
  let host := match hm_get (rq_headers rq) "host" with Some (Some h) => h | _ => "localhost" end%string in
  (scheme +:+ "://" +:+ host +:+ rq_path rq)%string.

(** The checks on the requested list; the result is [last_pn].  The list is
    not empty, so [last().unwrap()] does not panic. *)
Definition validate_parts (requested : list Z) (m : UploadMeta) (path : string) : M Z :=
  match list.last requested with
  | None => panic
  | Some last_pn =>
      _ ← refuse_if (MAX_PARTS_PER_UPLOAD <? last_pn) (bad_request "InvalidArgument" "invalid partNumber" path);
      _ ← refuse_if (negb (Z.of_nat (length requested) =? last_pn) || negb (default 0 (head requested) =? 1))
            (bad_request "InvalidRequest" "parts must be contiguous starting at 1" path);
      match find (fun pn => bool_decide (m_parts m !! pn = None)) (seqZ 1 last_pn) with
      | Some pn => refuse (bad_request "InvalidRequest" ("missing uploaded part " +:+ print_u64 pn)%string path)
      | None => mret last_pn
      end
  end.

(** The fast-path test: [Some (assumed, final_size)] when [direct.bin] can be
    completed in place.  Every part looked up was found by [validate_parts]. *)
Definition at_slot (s pn : Z) (p : PartMeta) : bool :=
  match part_stored p with Direct off => off =? wrap64 ((pn - 1) * s) | File _ => true end.
Definition fast_layout (m : UploadMeta) (last_pn : Z) : option (Z * Z) :=
  match assumed_part_size m with
  | None => None
  | Some s =>
      let full pn := match m_parts m !! pn with
                     | Some p => (part_size p =? s) && at_slot s pn p
                     | None => false
                     end in
      match m_parts m !! last_pn with
      | Some last => if forallb full (seqZ 1 (last_pn - 1)) && at_slot s last_pn last
                     then Some (s, wrap64 (wrap64 ((last_pn - 1) * s) + part_size last))
                     else None
      | None => None
      end
  end.

Definition dst_tmp_path (dst : list string) (upload_id : string) : list string :=
  take (length dst - 1) dst ++ [(".s32p-mpu-tmp-" +:+ upload_id)%string].

Definition put_object (p : list string) (b : bytes) (st : store) : store :=
  set_objects (<[p := {| content := b; ino := new_ino; mtime := new_mtime |}]> (objects st)) st.
Definition remove_file (s : site) (p : list string) : M unit :=
  if succeeds (io s) then modify (fun st => set_objects (delete p (objects st)) st) else mret tt.

(** Another client creates the destination between the checks and the commit. *)
Definition meanwhile (s : site) (dst : list string) : M unit :=
  match appears s with
  | Some o => modify (fun st => set_objects (<[dst := o]> (objects st)) st)
  | None => mret tt
  end.

(** [fs::rename] or [rename_noreplace] *)
Inductive rename_result := Renamed | AlreadyExists | CrossDevice | RenameFailed (m : string).
Definition rename_outcome (s : site) (noreplace : bool) (dst : list string) (st : store) : rename_result :=
  match io s with
  | Exdev => CrossDevice
  | Denied | Fails _ => RenameFailed (io_message (io s))
  | Succeeds => if noreplace && bool_decide (is_Some (objects st !! dst)) then AlreadyExists else Renamed
  end.

(** The completion of one upload. *)
Section Complete.
Context (rq : request) (bucket key upload_id : string) (dst : list string) (noreplace : bool) (location : string).

Definition update_this : (upload_fs -> upload_fs) -> M unit := update_upload bucket upload_id.
Definition get_this {A} (f : upload_fs -> A) : M A := get (fun st => f (upload_of bucket upload_id st)).

(** [meta.state = Active; write_meta_atomic(..)] and the 412 answer *)
Definition back_to_active {A} (m : UploadMeta) : M A :=
  _ ← try_write_meta WriteMetaActive bucket upload_id (set_state Active m);
  refuse (precondition_failed "CompleteMultipartUpload precondition failed" (Some (rq_path rq))).

(** [meta.state = Completed], removal of the upload, and the final stat *)
Definition finish_complete (m : UploadMeta) : M reply :=
  _ ← try_write_meta WriteMetaCompleted bucket upload_id (set_state Completed m);
  _ ← (if succeeds (io RemoveUploadDir) then modify (remove_upload_dir bucket upload_id) else mret tt);
  o ← get (fun st => objects st !! dst);
  match o, io StatFinal with
  | Some o, Succeeds => mret (CompleteOk location bucket key (object_etag o))
  | _, a => refuse (internal (io_message a) (rq_path rq))
  end.

(** Copy the part files into [direct.bin]; [false] disables the fast path. *)
Fixpoint fast_copy (assumed : Z) (pns : list Z) (m : UploadMeta) : M (bool * UploadMeta) :=
  match pns with
  | [] => mret (true, m)
  | pn :: rest =>
      let expected_off := wrap64 ((pn - 1) * assumed) in
      match m_parts m !! pn with
      | None => panic
      | Some part =>
          match part_stored part with
          | Direct off => if off =? expected_off then fast_copy assumed rest m else mret (false, m)
          | File name =>
              osrc ← get_this (fun u => parts_dir u !! name);
              match osrc, io (OpenPartFile pn) with
              | Some src, Succeeds =>
                  d ← get_this (fun u => default [] (direct_bin u));
                  let '(r, d) := copy_at (CopyToDirect pn) src 0 d expected_off (part_size part) in
                  _ ← update_this (set_direct_bin (Some d));
                  match r with
                  | Panics => panic
                  | Err _ => mret (false, m)
                  | Ok _ =>
                      let m := insert_part pn {| part_size := part_size part; part_etag := part_etag part;
                                                 part_last_modified := part_last_modified part;
                                                 part_stored := Direct expected_off |} m in
                      _ ← (if succeeds (io (RemovePartFile pn))
                           then update_this (fun u => set_parts_dir (delete name (parts_dir u)) u) else mret tt);
                      fast_copy assumed rest m
                  end
              | _, _ => mret (false, m)
              end
          end
      end
  end.

(** [copy_file_to_file] into the temporary file next to the destination *)
Definition copy_across (s : site) (src : bytes) (size : Z) : M (res copy_error unit) :=
  let open_read : res string unit := if succeeds (io s) then Ok tt else Err (io_message (io s)) in
  let '(r, f) := copy_file_to_file src (kread s src) (kread s src) open_read (kwrite s) (copy_env s) size copy_cfg in
  _ ← (if succeeds (io s) && open_ok (copy_env s) then modify (put_object (dst_tmp_path dst upload_id) f) else mret tt);
  mret r.

Definition remove_existing_dst : M unit :=
  exists_ ← get (fun st => bool_decide (is_Some (objects st !! dst)));
  if negb noreplace && exists_ then remove_file RemoveDst dst else mret tt.

(** Move the temporary file next to the destination into place. *)
Definition move_tmp_to_dst : M unit :=
  let tmp := dst_tmp_path dst upload_id in
  modify (fun st => match objects st !! tmp with
                    | Some o => set_objects (<[dst := o]> (delete tmp (objects st))) st
                    | None => st
                    end).

(** Truncate [direct.bin] and rename it into place; returning normally means
    falling back. *)
Definition fast_commit (final_size : Z) (m : UploadMeta) : M UploadMeta :=
  let tmp := dst_tmp_path dst upload_id in
  if negb (succeeds (io TruncateDirect)) then mret m
  else
    _ ← update_this (fun u => set_direct_bin (Some (truncate (default [] (direct_bin u)) final_size)) u);
    _ ← meanwhile RenameDirect dst;
    r ← get (rename_outcome RenameDirect noreplace dst);
    d ← get_this (fun u => default [] (direct_bin u));
    match r with
    | Renamed =>
        _ ← update_this (set_direct_bin None);
        _ ← modify (put_object dst d);
        rep ← finish_complete m; reply_with rep
    | AlreadyExists => back_to_active m
    | RenameFailed _ => mret m
    | CrossDevice =>
        _ ← remove_file RemoveDstTmp tmp;
        cr ← copy_across CopyDirectAcross d final_size;
        match cr with
        | Panics => panic
        | Err _ => _ ← remove_file RemoveDstTmp tmp; mret m
        | Ok _ =>
            _ ← remove_existing_dst;
            r2 ← get (rename_outcome RenameDstTmp noreplace dst);
            match r2 with
            | Renamed => _ ← move_tmp_to_dst; rep ← finish_complete m; reply_with rep
            | AlreadyExists => _ ← remove_file RemoveDstTmp tmp; back_to_active m
            | _ => _ ← remove_file RemoveDstTmp tmp; mret m
            end
        end
    end.

Definition fast_path (last_pn : Z) (m : UploadMeta) : M UploadMeta :=
  match fast_layout m last_pn with
  | None => mret m
  | Some (assumed, final_size) =>
      if negb (succeeds (io OpenDirectBin)) then mret m
      else
        _ ← update_this (fun u => set_direct_bin (Some (default [] (direct_bin u))) u);
        r ← fast_copy assumed (seqZ 1 last_pn) m;
        match r : bool * UploadMeta with
        | (true, m) => fast_commit final_size m
        | (false, m) => mret m
        end
  end.

(** *** The fallback: assemble a new file *)
Inductive staging := InUpload | NextToDst.

Definition get_staged (w : staging) : M bytes :=
  match w with
  | InUpload => get_this (fun u => default [] (complete_bin u))
  | NextToDst => get (fun st => default [] (content <$> objects st !! dst_tmp_path dst upload_id))
  end.
Definition set_staged (w : staging) (b : bytes) : M unit :=
  match w with
  | InUpload => update_this (set_complete_bin (Some b))
  | NextToDst => modify (put_object (dst_tmp_path dst upload_id) b)
  end.
Definition remove_staged (w : staging) : M unit :=
  match w with
  | InUpload => if succeeds (io RemoveStaging) then update_this (set_complete_bin None) else mret tt
  | NextToDst => remove_file RemoveStaging (dst_tmp_path dst upload_id)
  end.

(** Open the staging file, falling back to the upload directory. *)
Definition open_staging : M staging :=
  let w := if cross_device then NextToDst else InUpload in
  _ ← remove_staged w;
  if succeeds (io OpenStaging) then _ ← set_staged w []; mret w
  else match w with
       | NextToDst =>
           _ ← remove_staged InUpload;
           _ ← sys OpenStagingAgain (rq_path rq);
           _ ← set_staged InUpload []; mret InUpload
       | InUpload => refuse (internal (io_message (io OpenStaging)) (rq_path rq))
       end.

(** Append the parts to the staging file; the result is its size. *)
Fixpoint assemble (w : staging) (direct_file : option bytes) (pns : list Z) (m : UploadMeta) (out_off : Z) : M Z :=
  match pns with
  | [] => mret out_off
  | pn :: rest =>
      match m_parts m !! pn with
      | None => panic
      | Some part =>
          '(s, src, off) ← (match part_stored part with
                             | Direct off =>
                                 match direct_file with
                                 | Some d => mret (CopyFromDirect pn, d, off)
                                 | None => refuse (internal "direct.bin missing" (rq_path rq))
                                 end
                             | File name =>
                                 osrc ← get_this (fun u => parts_dir u !! name);
                                 match osrc, io (OpenPartFile pn) with
                                 | Some f, Succeeds => mret (CopyFromFile pn, f, 0)
                                 | _, a => refuse (internal (io_message a) (rq_path rq))
                                 end
                             end);
          out ← get_staged w;
          let '(r, out) := copy_at s src off out out_off (part_size part) in
          _ ← set_staged w out;
          _ ← run_copy r (mret tt) (rq_path rq);
          assemble w direct_file rest m (sat_add64 out_off (part_size part))
      end
  end.

(** Commit the staging file of the upload directory across file systems. *)
Definition commit_across (size : Z) (m : UploadMeta) : M unit :=
  let tmp := dst_tmp_path dst upload_id in
  _ ← remove_file RemoveDstTmp tmp;
  src ← get_staged InUpload;
  cr ← copy_across CopyStagingAcross src size;
  _ ← run_copy cr (remove_file RemoveDstTmp tmp) (rq_path rq);
  _ ← remove_existing_dst;
  r2 ← get (rename_outcome RenameStagingTmp noreplace dst);
  match r2 with
  | Renamed => _ ← move_tmp_to_dst; remove_staged InUpload
  | AlreadyExists => _ ← remove_file RemoveDstTmp tmp; _ ← remove_staged InUpload; back_to_active m
  | CrossDevice => _ ← remove_file RemoveDstTmp tmp; refuse (internal (io_message Exdev) (rq_path rq))
  | RenameFailed e => _ ← remove_file RemoveDstTmp tmp; refuse (internal e (rq_path rq))
  end.

Definition commit_staged (w : staging) (size : Z) (m : UploadMeta) : M unit :=
  _ ← remove_existing_dst;
  _ ← meanwhile RenameStaging dst;
  r ← get (rename_outcome RenameStaging noreplace dst);
  match w, r with
  | NextToDst, Renamed => move_tmp_to_dst
  | InUpload, Renamed =>
      out ← get_staged InUpload;
      _ ← update_this (set_complete_bin None);
      modify (put_object dst out)
  | _, AlreadyExists => _ ← remove_staged w; back_to_active m
  | InUpload, CrossDevice => commit_across size m
  | InUpload, RenameFailed e => refuse (internal e (rq_path rq))
  | NextToDst, CrossDevice => _ ← remove_staged w; refuse (internal (io_message Exdev) (rq_path rq))
  | NextToDst, RenameFailed e => _ ← remove_staged w; refuse (internal e (rq_path rq))
  end.

Definition fallback (last_pn : Z) (m : UploadMeta) : M reply :=
  w ← open_staging;
  direct_file ← get_this direct_bin;
  let direct_file := if succeeds (io OpenDirectRead) then direct_file else None in
  out_off ← assemble w direct_file (seqZ 1 last_pn) m 0;
  _ ← (if succeeds (io TruncateStaging) then out ← get_staged w; set_staged w (truncate out out_off)
       else _ ← remove_staged w; refuse (internal (io_message (io TruncateStaging)) (rq_path rq)));
  _ ← commit_staged w out_off m;
  finish_complete m.

(** The completion proper: the state is [Completing] and the lock is held. *)
Definition run_completion (last_pn : Z) (m : UploadMeta) : M reply :=
  m ← fast_path last_pn m;
  fallback last_pn m.
End Complete.

Definition handle_complete (rq : request) (bucket key upload_id : string) : M reply :=
  let path := rq_path rq in
  _ ← refuse_if (is_empty bucket || is_empty key) (bad_request "InvalidRequest" "missing bucket or key" path);
  _ ← check_upload_id upload_id path;
  _ ← find_upload rq bucket upload_id;
  body ← (match collect_body_capped show_read_error (rq_headers rq) (rq_body rq) XML_BODY_MAX_BYTES with
         | Ok d => mret d
         | Err (TooLarge _) => refuse (bad_request "InvalidRequest" "request body too large" path)
         | Err (ReadBody e) => refuse (bad_request "InvalidRequest" ("failed to read body: " +:+ e)%string path)
         | Panics => panic
         end);
  requested ← (match parse_complete_parts (xml_reader body) with
               | Ok v => mret v
               | Err e => refuse (bad_request "InvalidRequest" e path)
               | Panics => panic
               end);
  let location := build_location rq (public_scheme cfg) in
  m ← lock_and_read rq bucket key upload_id;
  _ ← refuse_if (negb (bool_decide (m_state m = Active))) (not_active path);
  let m := set_state Completing m in
  _ ← try_write_meta WriteMetaCompleting bucket upload_id m;
  last_pn ← validate_parts requested m path;
  dst ← lift_path (join_object_path (posix_root cfg) bucket key) (Some path);
  cond ← parse_conditions rq;
  let noreplace := match if_none_match cond with Some Any => true | _ => false end in
  existing ← get (fun st => (fun o => (object_etag_unquoted o, mtime o)) <$> objects st !! dst);
  _ ← refuse_if (match evaluate_write_preconditions cond existing with PreconditionFailed => true | _ => false end)
        (precondition_failed "CompleteMultipartUpload precondition failed" (Some path));
  _ ← sys CreateParent path;
  run_completion rq bucket key upload_id dst noreplace location last_pn m.

(** [handle]: dispatch on the classified operation.  [new_id] is what
    [gen_upload_id] draws. *)
Definition handle (rq : request) (new_id : string) (op : Classifier.MultipartOp) (bucket key : string) : M reply :=
  match op with
  | Classifier.CreateMultipartUpload => handle_create_mpu new_id rq bucket key
  | Classifier.UploadPart upload_id part_number => handle_upload_part rq bucket key upload_id part_number
  | Classifier.ListParts upload_id => handle_list_parts rq bucket key upload_id
  | Classifier.CompleteMultipartUpload upload_id => handle_complete rq bucket key upload_id
  | Classifier.AbortMultipartUpload upload_id => handle_abort rq bucket key upload_id
  | Classifier.ListMultipartUploads => handle_list_uploads rq bucket
  | Classifier.MultipartUnknown => refuse (not_implemented "unknown multipart request" (Some (rq_path rq)))
  end.
End Handlers.
