(* ===== verification/UploadId.v ===== *)
(** * s32p-gateway/src/multipart.rs: upload ids

    [gen_upload_id] draws twenty random bytes, clears the top bit of the
    first and encodes them; when the kernel has no random bytes it builds a
    buffer from the time, a counter and the process id.  base64 is a
    parameter with what RFC 4648 says of its URL-safe alphabet. *)

From Stdlib Require Import ZArith Lia Ascii.
From stdpp Require Import base list strings numbers option.
From S2P Require Import Prelude RustStr Multipart.

Local Open Scope s3_scope.
Local Open Scope Z_scope.

(** [n.to_le_bytes()] for an integer of [k] bytes *)
Fixpoint to_le_bytes (k : nat) (n : Z) : list Z := match k with O => [] | S k => n mod 256 :: to_le_bytes k (n / 256) end.
(** [dst[start..end].copy_from_slice(src)] panics unless the lengths agree. *)
Definition copy_from_slice (start stop : nat) (src dst : list Z) : res unit (list Z) :=
  if decide (length src = stop - start)%nat then Ok (take start dst ++ src ++ drop stop dst) else Panics.

Section UploadId.
Context (b64 : list Z -> string).

Definition encode_upload_id (buf : list Z) : res unit string :=
  match buf with b0 :: rest => Ok (b64 (Z.land b0 127 :: rest)) | [] => Panics end.
(** [random]: the twenty bytes of [getrandom], if it fills the buffer *)
Definition gen_upload_id (random : option (list Z)) (secs subsec_nanos counter pid : Z) : res unit string :=
  match random with
  | Some buf => encode_upload_id buf
  | None =>
      let fallback := replicate 32 0 in
      fallback ← copy_from_slice 0 8 (to_le_bytes 8 secs) fallback;
      fallback ← copy_from_slice 8 16 (to_le_bytes 4 subsec_nanos) fallback;
      fallback ← copy_from_slice 16 24 (to_le_bytes 8 counter) fallback;
      fallback ← copy_from_slice 24 32 (to_le_bytes 8 pid) fallback;
      encode_upload_id fallback
  end.
End UploadId.

(** ** base64url *)
Definition b64_alphabet : string := "ABCDEFGHIJKLMNOPQRSTUVWXYZabcdefghijklmnopqrstuvwxyz0123456789-_".
Definition b64_char (sextet : Z) : ascii := default "A"%char (String.list_ascii_of_string b64_alphabet !! Z.to_nat sextet).
(** The text is over the alphabet, and its first character is the top six bits of the first byte. *)
Definition base64url (b64 : list Z -> string) : Prop :=
  forall b0 rest, 0 <= b0 < 256 -> exists s, b64 (b0 :: rest) = String (b64_char (b0 / 4)) s /\
    Forall (fun c => c ∈ String.list_ascii_of_string b64_alphabet) (String.list_ascii_of_string s).

Lemma land_127 b : 0 <= Z.land b 127 < 128.
Proof. change 127 with (Z.ones 7). rewrite Z.land_ones by lia. apply Z.mod_pos_bound. lia. Qed.
Lemma b64_char_in n : b64_char n ∈ String.list_ascii_of_string b64_alphabet.
Proof.
  unfold b64_char. destruct (_ !! _) as [c|] eqn:E; [by eapply list_elem_of_lookup_2|]. vm_compute. by left.
Qed.
Lemma absent_char c s : c ∉ String.list_ascii_of_string b64_alphabet ->
  Forall (fun c => c ∈ String.list_ascii_of_string b64_alphabet) (String.list_ascii_of_string s) -> contains_char c s = false.
Proof.
  intros Hc. induction s as [|x s IH]; cbn; [done|]. intros [Hx Hs]%list.Forall_cons. rewrite IH by done.
  destruct (Ascii.eqb_spec x c) as [->|]; [done|]. by rewrite ?orb_false_r.
Qed.

(** ** Properties *)

(** Upload ids are usable: with random bytes from the kernel
    [gen_upload_id] returns an id that every later request with it passes
    [sanitize_upload_id], that is over the URL-safe alphabet, and whose first
    character is a letter, never the [-] a command line would read as an
    option. *)
Theorem upload_id_usable (b64 : list Z -> string) (b0 : Z) (rest : list Z) (secs subsec_nanos counter pid : Z) :
  base64url b64 -> exists c s, gen_upload_id b64 (Some (b0 :: rest)) secs subsec_nanos counter pid = Ok (String c s) /\
    sanitize_upload_id (String c s) = Ok tt /\ is_ascii_alphabetic c = true /\
    Forall (fun c => c ∈ String.list_ascii_of_string b64_alphabet) (String.list_ascii_of_string s).
Proof.
  intros Hb. pose proof (land_127 b0) as Hr. destruct (Hb (Z.land b0 127) rest ltac:(lia)) as (s & Es & Hs).
  exists (b64_char (Z.land b0 127 / 4)), s. cbn [gen_upload_id encode_upload_id]. rewrite Es.
  assert (Forall (fun c => c ∈ String.list_ascii_of_string b64_alphabet) (String.list_ascii_of_string (String (b64_char (Z.land b0 127 / 4)) s))) as Hall.
  { cbn. apply list.Forall_cons. split; [apply b64_char_in|done]. }
  split_and!; [done| | |done].
  - unfold sanitize_upload_id. cbn [is_empty]. rewrite !absent_char by (done || (apply (bool_decide_unpack _); vm_compute; exact I)). done.
  - assert (forall n, (n < 32)%nat -> is_ascii_alphabetic (b64_char (Z.of_nat n)) = true) as Hn.
    { intros n Hn. do 32 (destruct n as [|n]; [vm_compute; reflexivity|]). lia. }
    assert (0 <= Z.land b0 127 / 4 < 32) by (Z.div_mod_to_equations; lia). rewrite <- (Z2Nat.id (Z.land b0 127 / 4)) by lia. apply Hn. lia.
Qed.

(** Without random bytes no upload can be started: the fall-back copies
    the four bytes of [subsec_nanos] into eight, which panics, whatever the
    time, the counter and the process. *)
Lemma upload_id_fallback_panics (b64 : list Z -> string) (secs subsec_nanos counter pid : Z) :
  gen_upload_id b64 None secs subsec_nanos counter pid = Panics.
Proof. reflexivity. Qed.

(** ** Witness *)
(** The encoder of RFC 4648 *)
Fixpoint encode_sextets (l : list Z) : string :=
  match l with
  | a :: b :: c :: l => String (b64_char (a / 4)) (String (b64_char (a mod 4 * 16 + b / 16)) (String (b64_char (b mod 16 * 4 + c / 64)) (String (b64_char (c mod 64)) (encode_sextets l))))
  | [a; b] => String (b64_char (a / 4)) (String (b64_char (a mod 4 * 16 + b / 16)) (String (b64_char (b mod 16 * 4)) ""))
  | [a] => String (b64_char (a / 4)) (String (b64_char (a mod 4 * 16)) "")
  | [] => ""
  end.
Lemma encode_sextets_alphabet n l : (length l <= n)%nat ->
  Forall (fun c => c ∈ String.list_ascii_of_string b64_alphabet) (String.list_ascii_of_string (encode_sextets l)).
Proof.
  revert l. induction n as [|n IH]; intros [|a [|b [|c l]]] Hl; cbn in *; try lia;
    repeat (first [apply list.Forall_nil_2|apply list.Forall_cons; split; [apply b64_char_in|]]). apply IH. lia.
Qed.
Lemma encode_sextets_base64url : base64url encode_sextets.
Proof.
  intros b0 rest _. pose proof (encode_sextets_alphabet _ (b0 :: rest) (le_n _)) as H.
  destruct rest as [|b [|c l]]; eexists; (split; [reflexivity|]); cbn in H; by apply list.Forall_cons in H as [_ H].
Qed.
Lemma upload_id_usable_witness : exists c s, gen_upload_id encode_sextets (Some [255; 255; 255; 0]) 0 0 0 0 = Ok (String c s) /\
  String c s = "f___AA"%string /\ sanitize_upload_id (String c s) = Ok tt.
Proof.
  destruct (upload_id_usable encode_sextets 255 [255; 255; 0] 0 0 0 0 encode_sextets_base64url) as (c & s & E & Hs & _).
  exists c, s. split_and!; [exact E| |exact Hs]. vm_compute in E. by injection E as <- <-.
Defined.
