(* ===== verification/Completion.v ===== *)
(** * Completing a multipart upload

    What [handle_complete] commits: whenever it reports success, by whichever
    of its paths (rename of [direct.bin], copy across file systems, assembly
    next to the destination or in the upload directory), the object is the
    concatenation of the parts. *)

From Stdlib Require Import ZArith Lia Ascii.
From stdpp Require Import base list list_numbers strings numbers option gmap sorting.
From S2P Require Import Prelude RustStr Http Utils Preconditions UriEncoding S3Resp S3Xml Bytes FsHelpers Handler Streaming PayloadSource Upload Copy GatewayHelpers Multipart.

Local Open Scope Z_scope.

(** ** Reasoning about handlers

    [ends x Q R]: a normal result satisfies [Q], a reply satisfies [R]. *)
Definition ends {A} (x : flow reply A * store) (Q : A -> store -> Prop) (R : reply -> store -> Prop) : Prop :=
  match x with
  | (Next a, st) => Q a st
  | (Return r, st) => R r st
  | _ => True
  end.

Lemma ends_bind {A B} (m : M A) (f : A -> M B) st Q R :
  ends ((m ≫= f) st) Q R <-> ends (m st) (fun a st => ends (f a st) Q R) R.
Proof. unfold mbind, handler_bind. by destruct (m st) as [[] ?]. Qed.

Lemma ends_mono {A} (x : flow reply A * store) (Q Q' : A -> store -> Prop) (R R' : reply -> store -> Prop) :
  ends x Q R -> (forall a st, Q a st -> Q' a st) -> (forall r st, R r st -> R' r st) -> ends x Q' R'.
Proof. destruct x as [[] ?]; cbn; auto. Qed.

Lemma ends_ret {A} (a : A) st Q R : ends ((mret a : M A) st) Q R <-> Q a st.
Proof. done. Qed.

Lemma ends_refuse {A} r st (Q : A -> store -> Prop) R : R (Refused r) st -> ends (refuse r st) Q R.
Proof. done. Qed.

Lemma ends_get {A} (f : store -> A) st Q R : ends (get f st) Q R <-> Q (f st) st.
Proof. done. Qed.

Lemma ends_modify f st Q R : ends (modify f st) Q R <-> Q tt (f st).
Proof. done. Qed.

(** The goals of this file are about success only: every refusal satisfies them. *)
Definition on_success (P : store -> Prop) (r : reply) (st : store) : Prop :=
  match r with CompleteOk _ _ _ _ => P st | _ => True end.

Lemma ends_refuse_if b r st (Q : unit -> store -> Prop) P :
  (b = false -> Q tt st) -> ends (refuse_if b r st) Q (on_success P).
Proof. unfold refuse_if. destruct b; cbn; auto. Qed.

Create Rewrite HintDb ends.
#[export] Hint Rewrite @ends_bind @ends_ret @ends_get @ends_modify : ends.

(** ** Where a part is *)

(** [f] shows [d] at [off], byte by byte. *)
Definition shows (f : bytes) (off : Z) (d : bytes) : Prop :=
  forall i : nat, (i < length d)%nat -> f !! (Z.to_nat off + i)%nat = d !! i.

Lemma shows_slice f off d : 0 <= off -> shows f off d -> slice f off (off + blen d) = d.
Proof. intros. by apply slice_from_lookup. Qed.

Lemma shows_write f off d : 0 <= off -> shows (write_at f off d) off d.
Proof. intros Ho i Hi. by apply lookup_write_at_in. Qed.

(** Bytes that are not touched stay. *)
Definition preserved (f f' : bytes) (lo hi : Z) : Prop :=
  forall (k : nat) x, (k < Z.to_nat lo \/ Z.to_nat hi <= k)%nat -> f !! k = Some x -> f' !! k = Some x.

Lemma shows_preserved f f' lo hi off d :
  0 <= off -> 0 <= lo -> off + blen d <= lo \/ hi <= off -> preserved f f' lo hi -> shows f off d -> shows f' off d.
Proof.
  intros Ho Hlo Hd Hp Hs i Hi. destruct (lookup_lt_is_Some_2 d i Hi) as [x Hx].
  rewrite Hx. apply Hp; [unfold blen in *; lia|]. by rewrite Hs.
Qed.

Lemma preserved_write f off d : 0 <= off -> preserved f (write_at f off d) off (off + blen d).
Proof. intros Ho k x Hk Hx. apply lookup_write_at_out; [done..|]. unfold blen in Hk. lia. Qed.

(** The bytes [d] of a part can be read back where [p] says they are. *)
Definition part_holds (u : upload_fs) (p : PartMeta) (d : bytes) : Prop :=
  part_size p = blen d /\
  match part_stored p with
  | Direct off => 0 <= off /\ off + blen d <= u64_max /\ exists db, direct_bin u = Some db /\ shows db off d
  | File name => exists f, parts_dir u !! name = Some f /\ shows f 0 d
  end.

(** Parts [1..n] of [m] hold the [n] byte strings [ds]. *)
Definition parts_hold (u : upload_fs) (m : UploadMeta) (ds : list bytes) : Prop :=
  forall (j : nat) d, ds !! j = Some d ->
    exists p, m_parts m !! (Z.of_nat j + 1) = Some p /\ part_holds u p d /\
      (forall name, part_stored p = File name -> name = part_file_name (Z.of_nat j + 1)).

(** *** File names *)
Lemma parse_digits_zeros n s : parse_digits u64_max 0 (String.string_of_list_ascii (replicate n "0"%char) +:+ s)
  = parse_digits u64_max 0 s.
Proof. induction n as [|n IH]; [done|]. done. Qed.

Lemma part_file_name_inj a b : is_u64 a -> is_u64 b -> part_file_name a = part_file_name b -> a = b.
Proof.
  intros Ha Hb H. unfold part_file_name, zero_pad in H. apply str_app_inv_l in H.
  apply (f_equal (strip_suffix ".bin")) in H. rewrite !strip_suffix_app in H.
  assert (forall n, is_u64 n -> parse_digits u64_max 0 (print_u64 n) = Some n) as Hp.
  { intros n Hn. pose proof (parse_print_u64 n Hn) as E. unfold parse_u64_str, parse_uint in E.
    rewrite strip_plus_digits in E by (apply print_u64_digits; unfold is_u64 in Hn; lia).
    by rewrite (proj2 (is_empty_false _) (print_u64_nonempty n)) in E. }
  injection H as H. apply (f_equal (parse_digits u64_max 0)) in H. rewrite !parse_digits_zeros, !Hp in H by done.
  congruence.
Qed.

Lemma part_tmp_name_inj a b : is_u64 a -> is_u64 b -> part_tmp_name a = part_tmp_name b -> a = b.
Proof.
  intros Ha Hb H. unfold part_tmp_name in H. apply (f_equal (strip_suffix ".tmp")) in H.
  rewrite !strip_suffix_app in H. apply part_file_name_inj; congruence.
Qed.

Lemma strip_bin_tmp s : strip_suffix ".bin" (s +:+ ".tmp") = None.
Proof.
  destruct (strip_suffix ".bin" (s +:+ ".tmp")) as [r|] eqn:E; [|done]. apply strip_suffix_some in E.
  apply (f_equal (fun x => String.list_ascii_of_string x)) in E.
  assert (forall x y, String.list_ascii_of_string (x +:+ y) = String.list_ascii_of_string x ++ String.list_ascii_of_string y)
    as Happ. { induction x as [|c x IH]; intros y; cbn; [done|]. by rewrite IH. }
  rewrite !Happ in E. apply (f_equal (@rev ascii)) in E. rewrite !rev_app_distr in E. cbn in E. congruence.
Qed.

Lemma tmp_not_part a b : part_tmp_name a <> part_file_name b.
Proof.
  intros H. apply (f_equal (strip_suffix ".bin")) in H. unfold part_tmp_name in H. rewrite strip_bin_tmp in H.
  unfold part_file_name in H. rewrite <- str_app_assoc, strip_suffix_app in H. done.
Qed.

(** *** Assembling by position *)
Lemma shows_concat f ds base :
  (forall j d, ds !! j = Some d -> shows f (base + blen (concat (take j ds))) d) -> 0 <= base ->
  shows f base (concat ds).
Proof.
  revert base. induction ds as [|d ds IH]; intros base H Hb; [intros i Hi; cbn in Hi; lia|].
  intros i Hi. cbn in *. destruct (decide (i < length d)%nat) as [Hlt|Hge].
  - rewrite lookup_app_l by done. specialize (H 0%nat d eq_refl i Hlt). cbn in H.
    by rewrite Z.add_0_r in H.
  - rewrite lookup_app_r by lia. rewrite length_app in Hi.
    assert (shows f (base + blen d) (concat ds)) as Hs.
    { apply IH; [|pose proof (blen_nonneg d); lia]. intros j d' Hj. specialize (H (S j) d' Hj).
      cbn in H. by rewrite blen_app, Z.add_assoc in H. }
    specialize (Hs (i - length d)%nat ltac:(lia)). rewrite <- Hs. f_equal. unfold blen. lia.
Qed.

Lemma truncate_shows f d : shows f 0 d -> truncate f (blen d) = d.
Proof.
  intros Hs. apply shows_slice in Hs as Hsl; [|done]. unfold slice in Hsl. change (Z.to_nat 0) with 0%nat in Hsl.
  rewrite drop_0, Z.sub_0_r, Z.add_0_l in Hsl. unfold truncate. rewrite Hsl, zeros_nil, app_nil_r; [done|].
  rewrite <- Hsl. unfold blen. rewrite length_take. lia.
Qed.

Lemma concat_take_uniform (ds : list bytes) (s : Z) (j : nat) :
  (forall i d, ds !! i = Some d -> (S i < length ds)%nat -> blen d = s) -> (j < length ds)%nat ->
  blen (concat (take j ds)) = Z.of_nat j * s.
Proof.
  revert j. induction ds as [|d ds IH]; intros [|j] Hu Hj; cbn -[Z.mul] in *; try (rewrite ?blen_nil; lia).
  rewrite blen_app, IH, (Hu 0%nat d); try (done || lia). intros i d' Hd Hi. apply (Hu (S i)); [done|lia].
Qed.

(** ** The fast path *)
Section Completion.
Context {E : Env}.
Context (sane : forall s src, sane_reads src (kread s src)) (chunk_pos : 0 < chunk_size (stream_cfg cfg)).
Context (bucket upload_id : string).

Definition upload_at (st : store) (u : upload_fs) : Prop := uploads st !! (bucket, upload_id) = Some u.

Lemma upload_of_at st u : upload_at st u -> upload_of bucket upload_id st = u.
Proof. unfold upload_at, upload_of. by intros ->. Qed.

Lemma post_update f st u (Q : unit -> store -> Prop) R :
  upload_at st u ->
  (forall st', upload_at st' (f u) -> objects st' = objects st -> Q tt st') ->
  ends (update_upload bucket upload_id f st) Q R.
Proof.
  intros Hu HQ. cbn. apply HQ; [|done]. unfold upload_at in *. cbn. rewrite lookup_alter_eq. by rewrite Hu.
Qed.

Lemma post_get_this {A} (f : upload_fs -> A) st u Q R :
  upload_at st u -> Q (f u) st -> ends (get_this bucket upload_id f st) Q R.
Proof. intros Hu HQ. cbn. by rewrite (upload_of_at st u Hu). Qed.

(** One [copy_range_to_range], whatever its outcome. *)
Lemma copy_at_spec s src so dst d_o len r f :
  0 <= so -> 0 <= d_o -> 0 <= len -> so + len <= u64_max -> d_o + len <= u64_max ->
  copy_at s src so dst d_o len = (r, f) ->
  preserved dst f d_o (d_o + len) /\
  (r = Ok tt -> forall d, blen d = len -> shows src so d -> f = write_at dst d_o d).
Proof.
  intros Hso Hdo Hl Hsl Hdl Hc. unfold copy_at in Hc. split.
  - intros k x Hk Hx.
    eapply (copy_range_frame src (kread s src) (kwrite s) so dst d_o len); eauto.
  - intros -> d Hd Hs. apply copy_range_ok in Hc as [_ ->]; auto. rewrite <- Hd. by rewrite shows_slice.
Qed.

(** The layout the fast path relies on: all parts but the last have the
    assumed size, and a part in [direct.bin] is in its slot. *)
Record slots (m : UploadMeta) (s : Z) (ds : list bytes) : Prop := {
  slots_size : 0 <= s;
  slots_uniform : forall i d, ds !! i = Some d -> (S i < length ds)%nat -> blen d = s;
  slots_fit : forall (i : nat) d, ds !! i = Some d -> Z.of_nat i * s + blen d <= u64_max;
  slots_at : forall (i : nat) p off, (i < length ds)%nat -> m_parts m !! (Z.of_nat i + 1) = Some p ->
    part_stored p = Direct off -> off = Z.of_nat i * s;
}.

Lemma slots_disjoint m s ds i j di dj :
  slots m s ds -> ds !! i = Some di -> ds !! j = Some dj -> i <> j ->
  Z.of_nat i * s + blen di <= Z.of_nat j * s \/ Z.of_nat j * s + blen dj <= Z.of_nat i * s.
Proof.
  intros [Hs Hu _ _] Hi Hj Hne.
  pose proof (lookup_lt_Some _ _ _ Hi). pose proof (lookup_lt_Some _ _ _ Hj).
  destruct (decide (i < j)%nat).
  - left. rewrite (Hu i di) by (done || lia). nia.
  - right. rewrite (Hu j dj) by (done || lia). nia.
Qed.

(** Writing into the slot of a part that is still a file disturbs nothing. *)
Lemma parts_hold_direct u m s ds i d db' :
  slots m s ds -> ds !! i = Some d ->
  (forall p off, m_parts m !! (Z.of_nat i + 1) = Some p -> part_stored p <> Direct off) ->
  preserved (default [] (direct_bin u)) db' (Z.of_nat i * s) (Z.of_nat i * s + blen d) ->
  parts_hold u m ds -> parts_hold (set_direct_bin (Some db') u) m ds.
Proof.
  intros Hsl Hi Hfile Hp Hh j dj Hj. destruct (Hh j dj Hj) as (p & Hm & [Hsz Hst] & Hn).
  exists p. split_and!; [done| |done]. split; [done|].
  destruct (part_stored p) as [off|name] eqn:Est; [|done].
  destruct Hst as (H0 & Hb & db & Hdb & Hs). split_and!; [done..|]. exists db'. split; [done|].
  rewrite Hdb in Hp. cbn in Hp.
  assert (j <> i) as Hji by (intros ->; by eapply Hfile).
  pose proof (lookup_lt_Some _ _ _ Hj). assert (off = Z.of_nat j * s) as -> by (by eapply slots_at).
  pose proof (slots_size _ _ _ Hsl).
  eapply shows_preserved; [lia| | |exact Hp|done]; [lia|].
  destruct (slots_disjoint m s ds i j d dj); auto.
Qed.

(** Recording a part that has been copied into its slot. *)
Lemma parts_hold_insert u m s ds i d p db name :
  slots m s ds -> ds !! i = Some d -> Z.of_nat (length ds) <= MAX_PARTS_PER_UPLOAD ->
  m_parts m !! (Z.of_nat i + 1) = Some p -> part_size p = blen d ->
  name = part_file_name (Z.of_nat i + 1) -> direct_bin u = Some db -> shows db (Z.of_nat i * s) d ->
  parts_hold u m ds ->
  forall u' keep, (u' = u \/ u' = set_parts_dir (delete name (parts_dir u)) u) ->
  keep = {| part_size := part_size p; part_etag := part_etag p; part_last_modified := part_last_modified p;
            part_stored := Direct (Z.of_nat i * s) |} ->
  parts_hold u' (insert_part (Z.of_nat i + 1) keep m) ds /\
  slots (insert_part (Z.of_nat i + 1) keep m) s ds.
Proof.
  intros Hsl Hi Hlen Hm Hsz -> Hdb Hs Hh u' keep Hu' ->. split.
  - intros j dj Hj. destruct (decide (j = i)) as [->|Hne].
    + simplify_eq. cbn. rewrite lookup_insert_eq. eexists. split_and!; [done| |done].
      split; [done|]. cbn. pose proof (slots_size _ _ _ Hsl). pose proof (slots_fit _ _ _ Hsl i d Hi).
      split_and!; [lia|done|]. exists db. split; [|done]. by destruct Hu' as [->| ->].
    + destruct (Hh j dj Hj) as (q & Hq & [Hqs Hqt] & Hn). cbn. rewrite lookup_insert_ne by lia.
      exists q. split_and!; [done| |done]. split; [done|].
      destruct (part_stored q) as [off|nm] eqn:Eq.
      * by destruct Hu' as [->| ->].
      * destruct Hqt as (f & Hf & Hsf). exists f. split; [|done]. destruct Hu' as [->| ->]; [done|].
        cbn. rewrite (Hn nm) in * by done. rewrite lookup_delete_ne; [done|].
        pose proof (lookup_lt_Some _ _ _ Hj). pose proof (lookup_lt_Some _ _ _ Hi).
        intros Heq. apply part_file_name_inj in Heq; unfold is_u64, u64_max, MAX_PARTS_PER_UPLOAD in *; lia.
  - destruct Hsl as [H0 Hu Hf Ha]. split; [done..|]. intros j q off Hj Hq Hst. cbn in Hq.
    destruct (decide (j = i)) as [->|Hne].
    + rewrite lookup_insert_eq in Hq. simplify_eq. cbn in Hst. congruence.
    + rewrite lookup_insert_ne in Hq by lia. by eapply Ha.
Qed.

(** The loop over the part files: the parts stay readable whatever happens,
    and when it goes through every part is in its slot. *)
Definition copied_in (s : Z) (ds : list bytes) (objs : gmap (list string) object) (pns : list Z) (m0 : UploadMeta)
    (r : bool * UploadMeta) (st : store) : Prop :=
  exists u, upload_at st u /\ parts_hold u r.2 ds /\ slots r.2 s ds /\ objects st = objs /\
    (forall pn p off, m_parts m0 !! pn = Some p -> part_stored p = Direct off ->
       exists p', m_parts r.2 !! pn = Some p' /\ part_stored p' = Direct off) /\
    (r.1 = true -> forall pn, pn ∈ pns -> exists p off, m_parts r.2 !! pn = Some p /\ part_stored p = Direct off).

Lemma fast_copy_post s ds pns m st u :
  Z.of_nat (length ds) <= MAX_PARTS_PER_UPLOAD -> Forall (fun pn => 1 <= pn <= Z.of_nat (length ds)) pns ->
  slots m s ds -> parts_hold u m ds -> upload_at st u ->
  ends (fast_copy bucket upload_id s pns m st) (copied_in s ds (objects st) pns m) (fun _ _ => False).
Proof.
  intros Hlen. revert m st u. induction pns as [|pn pns IH]; intros m st u Hpns Hsl Hh Hu; cbn [fast_copy].
  { exists u. split_and!; try done; [eauto|]. intros _ pn Hpn. by apply elem_of_nil in Hpn. }
  apply Forall_cons_iff in Hpns as [Hpn Hpns].
  set (i := Z.to_nat (pn - 1)). assert (pn = Z.of_nat i + 1) as Epn by (subst i; lia).
  destruct (lookup_lt_is_Some_2 ds i) as [d Hd]; [lia|].
  destruct (Hh i d Hd) as (p & Hm & Hp & Hn). rewrite Epn, Hm.
  pose proof (slots_size _ _ _ Hsl) as Hs0. pose proof (slots_fit _ _ _ Hsl i d Hd) as Hfit.
  pose proof (blen_nonneg d) as Hd0.
  replace (Z.of_nat i + 1 - 1) with (Z.of_nat i) by lia. rewrite wrap64_id by (unfold is_u64; nia).
  destruct (part_stored p) as [off|name] eqn:Est.
  - (* already in direct.bin *)
    case_match; [|exists u; split_and!; try done; cbn; eauto].
    eapply ends_mono; [apply (IH m st u); done| |done].
    intros r st' (u' & Hu' & Hh' & Hsl' & Ho & Hkeep & Hall). exists u'. split_and!; try done.
    intros Hr pn' [-> |Hin]%elem_of_cons; [|by apply Hall]. destruct (Hkeep _ _ _ Hm Est) as (p' & ? & ?). eauto.
  - (* a file of its own *)
    destruct Hp as [Hsz Hst]. rewrite Est in Hst. destruct Hst as (f & Hf & Hsf).
    rewrite ends_bind. apply (post_get_this _ _ u); [done|]. rewrite Hf.
    destruct (io (OpenPartFile _)); try (exists u; split_and!; try done; cbn; eauto).
    rewrite ends_bind. apply (post_get_this _ _ u); [done|].
    destruct (copy_at _ _ _ _ _ _) as [r db'] eqn:Ec.
    rewrite Hsz in Ec. apply copy_at_spec in Ec as [Hpr Hok]; [|lia..|nia|lia].
    rewrite ends_bind. apply (post_update _ _ u); [done|]. intros st1 Hu1 Ho1.
    assert (parts_hold (set_direct_bin (Some db') u) m ds) as Hh1.
    { eapply parts_hold_direct; [done..| | |done]; [|done]. intros q off Hq. congruence. }
    destruct r as [[]|e|]; [|exists (set_direct_bin (Some db') u); split_and!; try done; cbn; eauto|done].
    specialize (Hok eq_refl d eq_refl Hsf). subst db'.
    set (keep := {| part_size := part_size p; part_etag := _; part_last_modified := _; part_stored := _ |}).
    assert (forall st2 u2, upload_at st2 u2 -> objects st2 = objects st1 ->
      (u2 = set_direct_bin (Some (write_at (default [] (direct_bin u)) (Z.of_nat i * s) d)) u \/
       u2 = set_parts_dir (delete name (parts_dir u))
              (set_direct_bin (Some (write_at (default [] (direct_bin u)) (Z.of_nat i * s) d)) u)) ->
      ends (fast_copy bucket upload_id s pns (insert_part (Z.of_nat i + 1) keep m) st2)
        (copied_in s ds (objects st) (Z.of_nat i + 1 :: pns) m) (fun _ _ => False)) as Hrest.
    { intros st2 u2 Hu2 Ho2 Hcase.
      destruct (parts_hold_insert (set_direct_bin (Some (write_at (default [] (direct_bin u)) (Z.of_nat i * s) d)) u)
                  m s ds i d p (write_at (default [] (direct_bin u)) (Z.of_nat i * s) d) name)
        with (u' := u2) (keep := keep) as [Hh2 Hsl2]; auto.
      { by apply shows_write; nia. }
      eapply ends_mono; [apply (IH _ st2 u2); done| |done].
      intros r st' (u' & Hu' & Hh' & Hsl' & Ho & Hkeep & Hall).
      assert (exists p' off, m_parts r.2 !! (Z.of_nat i + 1) = Some p' /\ part_stored p' = Direct off) as Hthis.
      { destruct (Hkeep (Z.of_nat i + 1) keep (Z.of_nat i * s)) as (p' & ? & ?); [|done|eauto].
        cbn. by rewrite lookup_insert_eq. }
      exists u'. split_and!; try done; [by rewrite Ho, Ho2, Ho1| |].
      - intros pn' p' off Hp' Hst'. apply (Hkeep pn' p' off); [|done]. cbn.
        rewrite lookup_insert_ne; [done|]. intros <-. congruence.
      - intros Hr pn' [-> |Hin]%elem_of_cons; [done|by apply Hall]. }
    rewrite ends_bind. case_match.
    + apply (post_update _ _ (set_direct_bin (Some (write_at (default [] (direct_bin u)) (Z.of_nat i * s) d)) u)); [done|].
      intros st2 Hu2 Ho2. eapply Hrest; [exact Hu2|done|by right].
    + eapply Hrest; [exact Hu1|done|by left].
Qed.

(** When every part is in its slot, [direct.bin] shows the whole object. *)
Lemma direct_shows_all u m s ds :
  ds <> [] -> slots m s ds -> parts_hold u m ds ->
  (forall pn, pn ∈ seqZ 1 (Z.of_nat (length ds)) -> exists p off, m_parts m !! pn = Some p /\ part_stored p = Direct off) ->
  exists db, direct_bin u = Some db /\ shows db 0 (concat ds).
Proof.
  intros Hne Hsl Hh Hall.
  assert (forall j d, ds !! j = Some d -> exists db, direct_bin u = Some db /\ shows db (Z.of_nat j * s) d) as Hd.
  { intros j d Hj. pose proof (lookup_lt_Some _ _ _ Hj) as Hlt.
    destruct (Hh j d Hj) as (p & Hm & [Hsz Hst] & _).
    destruct (Hall (Z.of_nat j + 1)) as (p' & off & Hm' & Hst'); [apply elem_of_seqZ; lia|].
    simplify_eq. rewrite Hst' in Hst. rewrite <- (slots_at _ _ _ Hsl j p off) by done.
    destruct Hst as (_ & _ & db & ? & ?). eauto. }
  destruct (lookup_lt_is_Some_2 ds 0) as [d0 H0]; [destruct ds; [done|cbn; lia]|].
  destruct (Hd 0%nat d0 H0) as (db & Hdb & _). exists db. split; [done|].
  apply shows_concat; [|done]. intros j d Hj. destruct (Hd j d Hj) as (db' & Hdb' & Hs). simplify_eq.
  rewrite (concat_take_uniform _ s), Z.add_0_l; [done| |by eapply lookup_lt_Some]. by apply (slots_uniform m).
Qed.

(** Cutting [direct.bin] to its final size loses no part. *)
Lemma parts_hold_truncate u m s ds db :
  slots m s ds -> parts_hold u m ds -> direct_bin u = Some db ->
  parts_hold (set_direct_bin (Some (truncate db (blen (concat ds)))) u) m ds.
Proof.
  intros Hsl Hh Hdb j d Hj. destruct (Hh j d Hj) as (p & Hm & [Hsz Hst] & Hn).
  exists p. split_and!; [done| |done]. split; [done|].
  destruct (part_stored p) as [off|name] eqn:Est; [|done].
  destruct Hst as (H0 & Hb & db' & Hdb' & Hs). simplify_eq. split_and!; [done..|]. eexists. split; [done|].
  pose proof (lookup_lt_Some _ _ _ Hj) as Hlt. rewrite (slots_at _ _ _ Hsl j p off Hlt Hm Est) in *.
  intros i Hi. destruct (lookup_lt_is_Some_2 d i Hi) as [x Hx]. rewrite Hx.
  apply lookup_truncate; [|by rewrite Hs].
  assert (blen (concat (take j ds)) = Z.of_nat j * s) as Hpre.
  { apply concat_take_uniform; [by apply (slots_uniform m)|done]. }
  rewrite <- (take_drop_middle ds j d Hj), concat_app, blen_app, Hpre. cbn. rewrite blen_app.
  pose proof (blen_nonneg (concat (drop (S j) ds))). unfold blen in *. nia.
Qed.

Context (rq : request) (key : string) (dst : list string) (noreplace : bool) (location : string).
Context (tmp_ne : dst_tmp_path dst upload_id <> dst).

(** The object at the destination is [whole]. *)
Definition committed (whole : bytes) (st : store) : Prop := content <$> objects st !! dst = Some whole.

Lemma try_write_meta_objects s m st (Q : unit -> store -> Prop) R :
  (forall st', objects st' = objects st -> Q tt st') -> ends (try_write_meta s bucket upload_id m st) Q R.
Proof. intros HQ. unfold try_write_meta. by case_match; apply HQ. Qed.

Lemma back_to_active_post {A} m st (Q : A -> store -> Prop) P :
  ends (back_to_active rq bucket upload_id m st) Q (on_success P).
Proof. unfold back_to_active. rewrite ends_bind. by apply try_write_meta_objects. Qed.

Lemma finish_complete_post whole m st :
  committed whole st ->
  ends (finish_complete rq bucket key upload_id dst location m st) (on_success (committed whole))
    (on_success (committed whole)).
Proof.
  intros Hc. unfold finish_complete. rewrite ends_bind. apply try_write_meta_objects. intros st1 H1.
  rewrite ends_bind.
  assert (forall st2, objects st2 = objects st1 ->
    ends ((get (fun st => objects st !! dst) ≫= fun o =>
      match o, io StatFinal with
      | Some o, Succeeds => mret (CompleteOk location bucket key (object_etag o))
      | _, a => refuse (internal (io_message a) (rq_path rq))
      end) st2) (on_success (committed whole)) (on_success (committed whole))) as Hend.
  { intros st2 H2. rewrite ends_bind, ends_get. unfold committed in *. rewrite H2, H1.
    destruct (objects st !! dst) eqn:Eo; [|done]. destruct (io StatFinal); try done. cbn. by rewrite H2, H1, Eo. }
  destruct (succeeds (io RemoveUploadDir)); apply Hend; [|done]. unfold remove_upload_dir.
  by destruct (dot_name upload_id).
Qed.

Lemma remove_file_uploads s p st (Q : unit -> store -> Prop) R :
  (forall st', uploads st' = uploads st -> (forall q, q <> p -> objects st' !! q = objects st !! q) -> Q tt st') ->
  ends (remove_file s p st) Q R.
Proof.
  intros HQ. unfold remove_file. destruct (succeeds (io s)); apply HQ; try done.
  intros q Hq. cbn. by rewrite lookup_delete_ne.
Qed.

Lemma meanwhile_post s st (Q : unit -> store -> Prop) R :
  (forall st', uploads st' = uploads st -> (forall q, q <> dst -> objects st' !! q = objects st !! q) -> Q tt st') ->
  ends (meanwhile s dst st) Q R.
Proof.
  intros HQ. unfold meanwhile. destruct (appears s); apply HQ; try done. intros q Hq. cbn. by rewrite lookup_insert_ne.
Qed.

Lemma remove_existing_post st (Q : unit -> store -> Prop) R :
  (forall st', uploads st' = uploads st -> (forall q, q <> dst -> objects st' !! q = objects st !! q) -> Q tt st') ->
  ends (remove_existing_dst dst noreplace st) Q R.
Proof.
  intros HQ. unfold remove_existing_dst. rewrite ends_bind, ends_get.
  destruct (negb noreplace && _); [by apply remove_file_uploads|by apply HQ].
Qed.

(** [copy_file_to_file] next to the destination: on success the copy is there. *)
Lemma copy_across_post s src size st (Q : res copy_error unit -> store -> Prop) R :
  0 <= size <= i64_max ->
  (forall r st', uploads st' = uploads st ->
     (r = Ok tt -> size <= blen src /\ content <$> objects st' !! dst_tmp_path dst upload_id = Some (slice src 0 size)) ->
     Q r st') ->
  ends (copy_across upload_id dst s src size st) Q R.
Proof.
  intros Hsz HQ. unfold copy_across.
  destruct (copy_file_to_file _ _ _ _ _ _ _ _) as [r f] eqn:Ec. rewrite ends_bind.
  destruct (succeeds (io s) && open_ok (copy_env s)) eqn:Eo; apply HQ; try done.
  - intros ->. apply copy_file_ok in Ec as [Hle ->]; auto. split; [done|]. cbn. by rewrite lookup_insert_eq.
  - intros ->. unfold copy_file_to_file in Ec. destruct (succeeds (io s)); [|done]. cbn in Eo. by rewrite Eo in Ec.
Qed.

Lemma move_tmp_committed whole st (Q : unit -> store -> Prop) R :
  content <$> objects st !! dst_tmp_path dst upload_id = Some whole ->
  (forall st', committed whole st' -> Q tt st') -> ends (move_tmp_to_dst upload_id dst st) Q R.
Proof.
  intros Ht HQ. apply HQ. unfold committed. destruct (objects st !! dst_tmp_path dst upload_id) as [o|] eqn:Eo; [|done].
  cbn in *. by rewrite lookup_insert_eq.
Qed.

(** Truncate and rename: success leaves the whole object, anything else
    leaves the parts readable for the fallback. *)
Lemma fast_commit_post u m s ds st :
  ds <> [] -> slots m s ds -> parts_hold u m ds -> upload_at st u -> blen (concat ds) <= i64_max ->
  (forall pn, pn ∈ seqZ 1 (Z.of_nat (length ds)) -> exists p off, m_parts m !! pn = Some p /\ part_stored p = Direct off) ->
  ends (fast_commit rq bucket key upload_id dst noreplace location (blen (concat ds)) m st)
    (fun m' st' => m' = m /\ exists u', upload_at st' u' /\ parts_hold u' m ds)
    (on_success (committed (concat ds))).
Proof.
  intros Hne Hsl Hh Hu Htot Hall. unfold fast_commit.
  destruct (direct_shows_all u m s ds) as (db & Hdb & Hshow); [done..|].
  destruct (succeeds (io TruncateDirect)); cbn [negb]; [|split; [done|]; by eauto].
  rewrite ends_bind. apply (post_update _ _ u); [done|]. intros st1 Hu1 _.
  pose proof (parts_hold_truncate u m s ds db Hsl Hh Hdb) as Hh1.
  rewrite Hdb in Hu1. cbn [default from_option] in Hu1. rewrite truncate_shows in Hh1, Hu1 by done.
  set (u1 := set_direct_bin _ u) in *.
  rewrite ends_bind. apply meanwhile_post. intros st2 Hup2 _.
  assert (upload_at st2 u1) as Hu2 by (unfold upload_at in *; by rewrite Hup2).
  rewrite ends_bind, ends_get, ends_bind. apply (post_get_this _ _ u1); [done|].
  destruct (rename_outcome RenameDirect noreplace dst st2).
  - rewrite ends_bind. apply (post_update _ _ u1); [done|]. intros st3 _ _.
    rewrite ends_bind, ends_modify, ends_bind.
    eapply ends_mono; [apply (finish_complete_post (concat ds)); unfold committed; cbn; by rewrite lookup_insert_eq| |done].
    by intros r st'.
  - apply back_to_active_post.
  - rewrite ends_bind. apply remove_file_uploads. intros st3 Hup3 _. rewrite ends_bind.
    apply copy_across_post; [pose proof (blen_nonneg (concat ds)); lia|]. intros r st4 Hup4 Hok.
    assert (upload_at st4 u1) as Hu4 by (unfold upload_at in *; by rewrite Hup4, Hup3).
    destruct r as [[]| |]; [|rewrite ends_bind; apply remove_file_uploads; intros st5 Hup5 _;
      split; [done|]; exists u1; unfold upload_at in *; by rewrite Hup5|done].
    destruct (Hok eq_refl) as [_ Htmp]. cbn [u1 set_direct_bin direct_bin default from_option] in Htmp.
    rewrite slice_full in Htmp by done.
    rewrite ends_bind. apply remove_existing_post. intros st5 Hup5 Hob5. rewrite ends_bind, ends_get.
    rewrite <- Hob5 in Htmp by done.
    destruct (rename_outcome RenameDstTmp noreplace dst st5).
    + rewrite ends_bind. apply (move_tmp_committed (concat ds)); [done|]. intros st6 Hc6. rewrite ends_bind.
      eapply ends_mono; [by apply (finish_complete_post (concat ds))|by intros r st'|done].
    + rewrite ends_bind. apply remove_file_uploads. intros st6 _ _. apply back_to_active_post.
    + rewrite ends_bind. apply remove_file_uploads. intros st6 Hup6 _. split; [done|]. exists u1.
      unfold upload_at in *. by rewrite Hup6, Hup5.
    + rewrite ends_bind. apply remove_file_uploads. intros st6 Hup6 _. split; [done|]. exists u1.
      unfold upload_at in *. by rewrite Hup6, Hup5.
  - split; [done|]. eauto.
Qed.

Lemma blen_concat_uniform (ds : list bytes) s d :
  (forall i d, ds !! i = Some d -> (S i < length ds)%nat -> blen d = s) ->
  list.last ds = Some d -> blen (concat ds) = (Z.of_nat (length ds) - 1) * s + blen d.
Proof.
  intros Hu Hl. rewrite last_lookup in Hl. pose proof (lookup_lt_Some _ _ _ Hl).
  rewrite <- (take_drop_middle ds _ d Hl) at 1. rewrite concat_app, blen_app, (concat_take_uniform _ s); [|done|done].
  cbn. rewrite blen_app, drop_ge by lia. cbn. replace (Z.of_nat (length ds) - 1) with (Z.of_nat (pred (length ds))) by lia.
  rewrite blen_nil. lia.
Qed.

(** The test of the fast path is enough: offsets do not wrap. *)
Lemma fast_layout_slots u m ds s fin :
  fast_layout m (Z.of_nat (length ds)) = Some (s, fin) -> parts_hold u m ds -> ds <> [] ->
  blen (concat ds) <= i64_max -> 0 <= s -> slots m s ds /\ fin = blen (concat ds).
Proof.
  intros Hf Hh Hne Htot Hs. unfold fast_layout in Hf.
  destruct (assumed_part_size m) as [s'|]; [|done].
  destruct (m_parts m !! _) as [lp|] eqn:Elp; [|done].
  destruct (forallb _ _ && _) eqn:Eall; [|done]. simplify_eq. apply andb_true_iff in Eall as [Hfull Hlast].
  destruct (list.last ds) as [dl|] eqn:El; [|by apply last_None in El].
  pose proof El as Hl. rewrite last_lookup in Hl. pose proof (lookup_lt_Some _ _ _ Hl) as Hlt.
  assert (forall i d, ds !! i = Some d -> (S i < length ds)%nat ->
    exists p, m_parts m !! (Z.of_nat i + 1) = Some p /\ blen d = s /\ at_slot s (Z.of_nat i + 1) p = true) as Hp.
  { intros i d Hi Hi'. destruct (Hh i d Hi) as (p & Hm & [Hsz _] & _). exists p. split; [done|].
    rewrite forallb_forall in Hfull. specialize (Hfull (Z.of_nat i + 1)). rewrite Hm in Hfull.
    rewrite <- list_elem_of_In, elem_of_seqZ in Hfull. specialize (Hfull ltac:(lia)).
    apply andb_true_iff in Hfull as [Hz Ha]. apply Z.eqb_eq in Hz. by rewrite <- Hsz. }
  assert (forall i d, ds !! i = Some d -> (S i < length ds)%nat -> blen d = s) as Hu.
  { intros i d Hi Hi'. by destruct (Hp i d Hi Hi') as (? & _ & ? & _). }
  pose proof (blen_concat_uniform ds s dl Hu El) as Hsum. pose proof (blen_nonneg dl) as Hdl.
  assert (forall i : nat, (i < length ds)%nat -> 0 <= Z.of_nat i * s <= blen (concat ds) - blen dl) as Hbound by (intros; nia).
  assert (lp = lp /\ part_size lp = blen dl) as [_ Hlsz].
  { destruct (Hh _ dl Hl) as (p & Hm & [Hsz _] & _).
    replace (Z.of_nat (pred (length ds)) + 1) with (Z.of_nat (length ds)) in Hm by lia. by simplify_eq. }
  unfold i64_max in Htot.
  assert (forall i : nat, (i < length ds)%nat -> wrap64 (Z.of_nat i * s) = Z.of_nat i * s) as Hw.
  { intros i Hi. apply wrap64_id. specialize (Hbound i Hi). unfold is_u64, u64_max. lia. }
  split.
  - split; [done|done| |].
    + intros i d Hi. pose proof (lookup_lt_Some _ _ _ Hi) as Hi'. specialize (Hbound i Hi'). unfold u64_max.
      destruct (decide (S i < length ds)%nat).
      * rewrite (Hu i d) by done. nia.
      * replace (pred (length ds)) with i in Hl by lia. simplify_eq. lia.
    + intros i p off Hi Hm Hst.
      assert (at_slot s (Z.of_nat i + 1) p = true) as Ha.
      { destruct (decide (S i < length ds)%nat).
        - destruct (lookup_lt_is_Some_2 ds i Hi) as [d Hd]. destruct (Hp i d) as (p' & Hm' & _ & Ha); [done..|]. by simplify_eq.
        - replace (Z.of_nat i + 1) with (Z.of_nat (length ds)) in * by lia. by simplify_eq. }
      unfold at_slot in Ha. rewrite Hst in Ha. apply Z.eqb_eq in Ha as ->.
      replace (Z.of_nat i + 1 - 1) with (Z.of_nat i) by lia. by apply Hw.
  - rewrite Hlsz. replace (Z.of_nat (length ds) - 1) with (Z.of_nat (pred (length ds))) in * by lia.
    rewrite Hw by done. rewrite wrap64_id; [by rewrite Hsum|]. specialize (Hbound _ Hlt). unfold is_u64, u64_max. lia.
Qed.

(** The fast path as a whole. *)
Lemma fast_path_post u m ds st :
  ds <> [] -> Z.of_nat (length ds) <= MAX_PARTS_PER_UPLOAD -> parts_hold u m ds -> upload_at st u ->
  blen (concat ds) <= i64_max -> (forall s, assumed_part_size m = Some s -> 0 <= s) ->
  ends (fast_path rq bucket key upload_id dst noreplace location (Z.of_nat (length ds)) m st)
    (fun m' st' => exists u', upload_at st' u' /\ parts_hold u' m' ds)
    (on_success (committed (concat ds))).
Proof.
  intros Hne Hlen Hh Hu Htot Hs. unfold fast_path.
  destruct (fast_layout m _) as [[s fin]|] eqn:Ef; [|by exists u].
  assert (0 <= s) as Hs0.
  { apply Hs. unfold fast_layout in Ef. destruct (assumed_part_size m); [|done].
    destruct (m_parts m !! _); [|done]. case_match; by simplify_eq. }
  destruct (fast_layout_slots u m ds s fin) as [Hsl ->]; [done..|].
  destruct (succeeds (io OpenDirectBin)); cbn [negb]; [|by exists u].
  rewrite ends_bind. apply (post_update _ _ u); [done|]. intros st1 Hu1 _.
  set (u1 := set_direct_bin _ u) in *.
  assert (parts_hold u1 m ds) as Hh1.
  { intros j d Hj. destruct (Hh j d Hj) as (p & Hm & [Hsz Hst] & Hn). exists p. split_and!; [done| |done].
    split; [done|]. destruct (part_stored p); [|done]. destruct Hst as (? & ? & db & Hdb & ?).
    split_and!; [done..|]. exists db. cbn. by rewrite Hdb. }
  rewrite ends_bind.
  eapply ends_mono; [apply (fast_copy_post s ds _ m st1 u1); try done| |done].
  { apply list.Forall_forall. intros pn Hpn. apply elem_of_seqZ in Hpn. lia. }
  intros [[|] m'] st2 (u2 & Hu2 & Hh2 & Hsl2 & _ & _ & Hall); cbn in *; [|by exists u2].
  eapply ends_mono; [apply (fast_commit_post u2 m' s ds st2); auto| |done].
  intros m2 st3 (-> & u3 & ? & ?). by exists u3.
Qed.

(** ** The fallback *)

(** The staging file holds [out]. *)
Definition staged (w : staging) (st : store) (out : bytes) : Prop :=
  match w with
  | InUpload => exists u, upload_at st u /\ complete_bin u = Some out
  | NextToDst => content <$> objects st !! dst_tmp_path dst upload_id = Some out
  end.

(** The parts are readable, the staging file holds [out], and what was opened
    as [direct.bin] is that file. *)
Definition assembling (w : staging) (m : UploadMeta) (ds : list bytes) (df : option bytes) (out : bytes) (st : store) : Prop :=
  exists u, upload_at st u /\ parts_hold u m ds /\ staged w st out /\ (forall d, df = Some d -> direct_bin u = Some d).

Lemma get_staged_post w st out (Q : bytes -> store -> Prop) R :
  staged w st out -> Q out st -> ends (get_staged bucket upload_id dst w st) Q R.
Proof.
  destruct w; cbn.
  - intros (u & Hu & Hc) HQ. rewrite (upload_of_at _ _ Hu), Hc. done.
  - by intros ->.
Qed.

Lemma set_staged_post w m ds df out out' st (Q : unit -> store -> Prop) R :
  assembling w m ds df out st -> (forall st', assembling w m ds df out' st' -> Q tt st') ->
  ends (set_staged bucket upload_id dst w out' st) Q R.
Proof.
  intros (u & Hu & Hh & Hst & Hdf) HQ. destruct w; cbn [set_staged].
  - apply (post_update _ _ u); [done|]. intros st' Hu' _. apply HQ.
    exists (set_complete_bin (Some out') u). split_and!; [done|done| |done]. by exists (set_complete_bin (Some out') u).
  - apply HQ. exists u. split_and!; [done..| |done]. cbn. by rewrite lookup_insert_eq.
Qed.

Lemma assemble_post w df m ds j st :
  Z.of_nat (length ds) <= MAX_PARTS_PER_UPLOAD -> blen (concat ds) <= i64_max -> (j <= length ds)%nat ->
  assembling w m ds df (concat (take j ds)) st ->
  ends (assemble rq bucket upload_id dst w df (seqZ (Z.of_nat j + 1) (Z.of_nat (length ds) - Z.of_nat j)) m
          (blen (concat (take j ds))) st)
    (fun off st' => off = blen (concat ds) /\ assembling w m ds df (concat ds) st')
    (fun r _ => exists e, r = Refused e).
Proof.
  intros Hlen Htot. remember (length ds - j)%nat as r eqn:Er. revert j Er st.
  induction r as [|r IH]; intros j Er st Hj Ha.
  { rewrite seqZ_nil by lia. cbn [assemble]. rewrite take_ge in Ha |- * by lia. done. }
  rewrite seqZ_cons by lia. cbn [assemble].
  destruct (lookup_lt_is_Some_2 ds j) as [d Hd]; [lia|].
  destruct Ha as (u & Hu & Hh & Hst & Hdf). destruct (Hh j d Hd) as (p & Hm & [Hsz Hp] & _). rewrite Hm.
  assert (concat (take (S j) ds) = concat (take j ds) ++ d) as Hnext.
  { rewrite (take_S_r ds j d) by done. rewrite concat_app. cbn. by rewrite app_nil_r. }
  assert (blen (concat (take j ds)) + blen d <= i64_max) as Hsum.
  { rewrite <- (take_drop (S j) ds), concat_app, Hnext, !blen_app in Htot.
    pose proof (blen_nonneg (concat (drop (S j) ds))). lia. }
  pose proof (blen_nonneg (concat (take j ds))) as Hpre. pose proof (blen_nonneg d) as Hd0. unfold i64_max in Hsum.
  rewrite ends_bind.
  (* the source of the part, whichever it is *)
  assert (forall s src off, 0 <= off -> off + blen d <= u64_max -> shows src off d ->
    ends ((get_staged bucket upload_id dst w ≫= fun out =>
      let '(r, out) := copy_at s src off out (blen (concat (take j ds))) (part_size p) in
      _ ← set_staged bucket upload_id dst w out;
      _ ← run_copy r (mret tt) (rq_path rq);
      assemble rq bucket upload_id dst w df (seqZ (Z.succ (Z.of_nat j + 1)) (Z.pred (Z.of_nat (length ds) - Z.of_nat j))) m
        (sat_add64 (blen (concat (take j ds))) (part_size p))) st)
      (fun off st' => off = blen (concat ds) /\ assembling w m ds df (concat ds) st')
      (fun r _ => exists e, r = Refused e)) as Hcopy.
  { intros s src off Hoff Hfit Hshow. rewrite ends_bind. apply (get_staged_post _ _ (concat (take j ds))); [done|].
    destruct (copy_at _ _ _ _ _ _) as [cr out'] eqn:Ec. rewrite Hsz in *.
    apply copy_at_spec in Ec as [_ Hok]; [|unfold u64_max in *; lia..].
    rewrite ends_bind. apply (set_staged_post w m ds df (concat (take j ds))); [by exists u|]. intros st1 Ha1.
    rewrite ends_bind. destruct cr as [[]|e|]; cbn [run_copy]; [|by eexists|done].
    rewrite (Hok eq_refl d eq_refl Hshow), write_at_end, <- Hnext in Ha1. rewrite ends_ret.
    replace (sat_add64 _ _) with (blen (concat (take (S j) ds))).
    2:{ rewrite Hnext, blen_app. unfold sat_add64, u64_max. lia. }
    replace (Z.succ (Z.of_nat j + 1)) with (Z.of_nat (S j) + 1) by lia.
    replace (Z.pred (Z.of_nat (length ds) - Z.of_nat j)) with (Z.of_nat (length ds) - Z.of_nat (S j)) by lia.
    apply IH; [lia|lia|done]. }
  destruct (part_stored p) as [off|name].
  - destruct Hp as (Hoff & Hfit & db & Hdb & Hshow).
    destruct df as [d'|]; [|by eexists]. rewrite ends_ret.
    assert (d' = db) as -> by (specialize (Hdf d' eq_refl); congruence). by apply Hcopy.
  - destruct Hp as (f & Hf & Hshow). rewrite ends_bind. apply (post_get_this _ _ u); [done|]. rewrite Hf.
    destruct (io (OpenPartFile _)); try (by eexists). rewrite ends_ret. apply Hcopy; [done|unfold u64_max; lia|done].
Qed.

Lemma open_staging_post u m ds st :
  upload_at st u -> parts_hold u m ds ->
  ends (open_staging rq bucket upload_id dst st)
    (fun w st' => exists u', upload_at st' u' /\ parts_hold u' m ds /\ staged w st' [] /\ direct_bin u' = direct_bin u)
    (fun r _ => exists e, r = Refused e).
Proof.
  intros Hu Hh. unfold open_staging.
  assert (forall w st, upload_at st u -> parts_hold u m ds ->
    ends (remove_staged bucket upload_id dst w st) (fun _ st' => exists u', upload_at st' u' /\ parts_hold u' m ds /\ direct_bin u' = direct_bin u)
      (fun r _ => exists e, r = Refused e)) as Hrm.
  { intros w st' Hu' Hh'. destruct w; cbn [remove_staged].
    - destruct (succeeds (io RemoveStaging)); [|by exists u].
      apply (post_update _ _ u); [done|]. intros st2 Hu2 _. by exists (set_complete_bin None u).
    - apply remove_file_uploads. intros st2 Hup _. exists u. unfold upload_at in *. by rewrite Hup. }
  assert (forall w st u, upload_at st u -> parts_hold u m ds ->
    ends (set_staged bucket upload_id dst w [] st)
      (fun _ st' => exists u', upload_at st' u' /\ parts_hold u' m ds /\ staged w st' [] /\ direct_bin u' = direct_bin u)
      (fun r _ => exists e, r = Refused e)) as Hset.
  { intros w st' u' Hu' Hh'. destruct w; cbn [set_staged].
    - apply (post_update _ _ u'); [done|]. intros st2 Hu2 _. exists (set_complete_bin (Some []) u'). split_and!; try done.
      by exists (set_complete_bin (Some []) u').
    - exists u'. split_and!; try done. cbn. by rewrite lookup_insert_eq. }
  set (w := if cross_device then NextToDst else InUpload). rewrite ends_bind.
  eapply ends_mono; [by apply Hrm| |done]. intros _ st1 (u1 & Hu1 & Hh1 & Hd1).
  destruct (succeeds (io OpenStaging)).
  - rewrite ends_bind. eapply ends_mono; [by apply Hset| |done]. intros _ st2 (u2 & ? & ? & ? & ?). exists u2. split_and!; congruence || done.
  - destruct w; [by eexists|]. rewrite ends_bind. cbn [remove_staged].
    assert (forall st2 u2, upload_at st2 u2 -> parts_hold u2 m ds -> direct_bin u2 = direct_bin u1 ->
      ends ((sys OpenStagingAgain (rq_path rq) ≫= fun _ => set_staged bucket upload_id dst InUpload [] ≫= fun _ => mret InUpload) st2)
        (fun w st' => exists u', upload_at st' u' /\ parts_hold u' m ds /\ staged w st' [] /\ direct_bin u' = direct_bin u)
        (fun r _ => exists e, r = Refused e)) as Hgo.
    { intros st2 u2 Hu2 Hh2 Hd2. rewrite ends_bind. unfold sys. destruct (succeeds (io OpenStagingAgain)); [|by eexists].
      rewrite ends_ret, ends_bind. eapply ends_mono; [by apply Hset| |done].
      intros _ st3 (u3 & ? & ? & ? & ?). exists u3. split_and!; congruence || done. }
    destruct (succeeds (io RemoveStaging)); [|by apply (Hgo st1 u1)].
    apply (post_update _ _ u1); [done|]. intros st2 Hu2 _. by apply (Hgo st2 (set_complete_bin None u1)).
Qed.

(** Removing or creating the destination does not touch the staging file. *)
Lemma staged_frame w st st' out :
  uploads st' = uploads st -> (forall q, q <> dst -> objects st' !! q = objects st !! q) ->
  staged w st out -> staged w st' out.
Proof.
  intros Hup Hob. destruct w; cbn; [|by rewrite Hob]. unfold upload_at. by rewrite Hup.
Qed.

Lemma commit_across_post whole m st :
  staged InUpload st whole -> blen whole <= i64_max ->
  ends (commit_across rq bucket upload_id dst noreplace (blen whole) m st) (fun _ st' => committed whole st')
    (on_success (committed whole)).
Proof.
  intros Hst Hb. unfold commit_across. rewrite ends_bind. apply remove_file_uploads. intros st1 Hup1 _.
  assert (staged InUpload st1 whole) as Hst1 by (cbn in *; unfold upload_at in *; by rewrite Hup1).
  rewrite ends_bind. apply (get_staged_post _ _ whole); [done|]. rewrite ends_bind.
  apply copy_across_post; [pose proof (blen_nonneg whole); lia|]. intros r st2 Hup2 Hok.
  rewrite ends_bind. destruct r as [[]|e|]; cbn [run_copy]; [| |done].
  2:{ rewrite ends_bind. by apply remove_file_uploads. }
  rewrite ends_ret. destruct (Hok eq_refl) as [_ Htmp]. rewrite slice_full in Htmp by done.
  rewrite ends_bind. apply remove_existing_post. intros st3 Hup3 Hob3. rewrite <- Hob3 in Htmp by done.
  rewrite ends_bind, ends_get. destruct (rename_outcome _ _ _ st3).
  - rewrite ends_bind. apply (move_tmp_committed whole); [done|]. intros st4 Hc. cbn [remove_staged].
    destruct (succeeds (io RemoveStaging)); [|done]. done.
  - rewrite ends_bind. apply remove_file_uploads. intros st4 _ _. rewrite ends_bind. cbn [remove_staged].
    destruct (succeeds (io RemoveStaging)); apply back_to_active_post.
  - rewrite ends_bind. by apply remove_file_uploads.
  - rewrite ends_bind. by apply remove_file_uploads.
Qed.

Lemma remove_staged_refuse {A} w e st (Q : A -> store -> Prop) P :
  ends ((remove_staged bucket upload_id dst w ≫= fun _ => refuse e) st) Q (on_success P).
Proof.
  rewrite ends_bind. destruct w; cbn [remove_staged]; [destruct (succeeds (io RemoveStaging)); done|].
  by apply remove_file_uploads.
Qed.

Lemma commit_staged_post w whole m st :
  staged w st whole -> blen whole <= i64_max ->
  ends (commit_staged rq bucket upload_id dst noreplace w (blen whole) m st) (fun _ st' => committed whole st')
    (on_success (committed whole)).
Proof.
  intros Hst Hb. unfold commit_staged. rewrite ends_bind. apply remove_existing_post. intros st1 Hup1 Hob1.
  apply (staged_frame _ _ st1) in Hst; [|done..].
  rewrite ends_bind. apply meanwhile_post. intros st2 Hup2 Hob2. apply (staged_frame _ _ st2) in Hst; [|done..].
  rewrite ends_bind, ends_get.
  assert (forall w, ends ((remove_staged bucket upload_id dst w ≫= fun _ => back_to_active rq bucket upload_id m) st2)
    (fun (_ : unit) st' => committed whole st') (on_success (committed whole))) as Hback.
  { intros w'. rewrite ends_bind. destruct w'; cbn [remove_staged].
    - destruct (succeeds (io RemoveStaging)); apply back_to_active_post.
    - apply remove_file_uploads. intros. apply back_to_active_post. }
  destruct w, (rename_outcome _ _ _ st2); try apply Hback; try apply remove_staged_refuse; try done.
  - destruct Hst as (u & Hu & Hc). rewrite ends_bind. apply (get_staged_post InUpload _ whole); [by exists u|].
    rewrite ends_bind. apply (post_update _ _ u); [done|]. intros st3 _ _. unfold committed. cbn. by rewrite lookup_insert_eq.
  - by apply commit_across_post.
  - apply (move_tmp_committed whole); [done|]. done.
Qed.

Lemma refused_on_success {A} (x : flow reply A * store) Q P :
  ends x Q (fun r _ => exists e, r = Refused e) -> ends x Q (on_success P).
Proof. intros H. eapply ends_mono; [exact H|done|]. by intros r st (e & ->). Qed.

Lemma fallback_post u m ds st :
  Z.of_nat (length ds) <= MAX_PARTS_PER_UPLOAD -> blen (concat ds) <= i64_max ->
  upload_at st u -> parts_hold u m ds ->
  ends (fallback rq bucket key upload_id dst noreplace location (Z.of_nat (length ds)) m st)
    (on_success (committed (concat ds))) (on_success (committed (concat ds))).
Proof.
  intros Hlen Htot Hu Hh. unfold fallback. rewrite ends_bind. apply refused_on_success.
  eapply ends_mono; [by apply (open_staging_post u m ds)| |done].
  intros w st1 (u1 & Hu1 & Hh1 & Hst1 & _). rewrite ends_bind. apply (post_get_this _ _ u1); [done|].
  set (df := if succeeds _ then _ else _). rewrite ends_bind.
  assert (assembling w m ds df (concat (take 0 ds)) st1) as Ha.
  { exists u1. split_and!; try done. subst df. by case_match; intros; simplify_eq. }
  eapply (assemble_post w df m ds 0) in Ha; [|done|done|lia].
  rewrite Z.sub_0_r in Ha.
  eapply ends_mono; [exact Ha| |].
  2:{ by intros r st' (e & ->). }
  intros off st2 (-> & Ha2). pose proof Ha2 as (u2 & Hu2 & Hh2 & Hst2 & _). rewrite ends_bind.
  destruct (succeeds (io TruncateStaging)); [|apply remove_staged_refuse].
  rewrite ends_bind. apply (get_staged_post _ _ (concat ds)); [done|]. rewrite truncate_id.
  apply (set_staged_post w m ds df (concat ds)); [done|]. intros st3 (u3 & Hu3 & Hh3 & Hst3 & _).
  rewrite ends_bind. eapply ends_mono; [by apply commit_staged_post| |done].
  intros [] st4 Hc. by apply finish_complete_post.
Qed.

(** Both paths: a completion that reports success has stored the parts. *)
Lemma run_completion_post u m ds st :
  ds <> [] -> Z.of_nat (length ds) <= MAX_PARTS_PER_UPLOAD -> blen (concat ds) <= i64_max ->
  (forall s, assumed_part_size m = Some s -> 0 <= s) ->
  upload_at st u -> parts_hold u m ds ->
  ends (run_completion rq bucket key upload_id dst noreplace location (Z.of_nat (length ds)) m st)
    (on_success (committed (concat ds))) (on_success (committed (concat ds))).
Proof.
  intros Hne Hlen Htot Hs Hu Hh. unfold run_completion. rewrite ends_bind.
  eapply ends_mono; [by apply (fast_path_post u m ds)| |done].
  intros m' st' (u' & Hu' & Hh'). by apply (fallback_post u' m').
Qed.
End Completion.

(** ** The requested list *)

(** [sort_unstable] and [dedup] give a strictly increasing list. *)
Lemma dedup_parts_cons2 a b l :
  dedup_parts (a :: b :: l) = if a =? b then dedup_parts (b :: l) else a :: dedup_parts (b :: l).
Proof. done. Qed.

Lemma dedup_parts_sorted l : StronglySorted Z.le l -> StronglySorted Z.lt (dedup_parts l).
Proof.
  assert (forall l x, x ∈ dedup_parts l -> x ∈ l) as Hsub.
  { induction l0 as [|a [|b l0] IH]; intros x; [done|done|]. rewrite dedup_parts_cons2.
    destruct (a =? b); [intros Hx%IH; set_solver|]. intros [->|Hx%IH]%elem_of_cons; set_solver. }
  induction 1 as [|a l Hl IH Ha]; [constructor|]. destruct l as [|b l]; [repeat constructor|].
  rewrite dedup_parts_cons2. destruct (Z.eqb_spec a b) as [->|Hne]; [done|]. constructor; [done|].
  apply list.Forall_forall. intros x Hx. apply Hsub in Hx. rewrite list.Forall_forall in Ha.
  pose proof (Ha b ltac:(set_solver)). inversion_clear Hl as [|? ? _ Hb]. rewrite list.Forall_forall in Hb.
  apply elem_of_cons in Hx as [->|Hx]; [lia|]. specialize (Hb x Hx). lia.
Qed.

(** A strictly increasing list from [a] whose last element leaves no gap. *)
Lemma sorted_contiguous l a n :
  StronglySorted Z.lt l -> head l = Some a -> list.last l = Some n -> Z.of_nat (length l) = n - a + 1 ->
  l = seqZ a (n - a + 1).
Proof.
  revert a. induction l as [|x l IH]; intros a Hs Hh Hl Hn; [done|]. cbn in Hh. simplify_eq.
  inversion_clear Hs as [|? ? Hs' Ha]. rewrite seqZ_cons by (cbn in Hn; lia).
  destruct l as [|y l].
  { cbn in *. simplify_eq. by rewrite seqZ_nil by lia. }
  rewrite last_cons_cons in Hl. f_equal.
  assert (forall l y, StronglySorted Z.lt (y :: l) -> forall n, list.last (y :: l) = Some n -> y + Z.of_nat (length l) <= n) as Hlow.
  { clear. induction l as [|z l IH]; intros y Hs n Hl; [cbn in *; simplify_eq; lia|].
    inversion_clear Hs as [|? ? Hs' Ha]. rewrite last_cons_cons in Hl. specialize (IH z Hs' n Hl).
    apply Forall_cons_iff in Ha as [Ha _]. cbn [length]. lia. }
  pose proof (Hlow l y Hs' n Hl) as Hy. apply Forall_cons_iff in Ha as [Hay _]. cbn [length] in Hn.
  assert (y = a + 1) as -> by lia.
  replace (Z.pred (n - a + 1)) with (n - (a + 1) + 1) by lia. replace (Z.succ a) with (a + 1) by lia.
  apply IH; [done|done|done|]. cbn [length]. lia.
Qed.

Lemma parse_complete_parts_sorted doc l : parse_complete_parts doc = Ok l -> StronglySorted Z.lt l.
Proof.
  unfold parse_complete_parts. intros ([b parts] & _ & H)%bind_ok_inv. cbn [snd] in H.
  destruct parts as [|x parts]; [done|]. injection H as <-. apply dedup_parts_sorted.
  apply StronglySorted_merge_sort; apply _.
Qed.

Lemma parts_hold_set_state u u' m s ds :
  direct_bin u' = direct_bin u -> parts_dir u' = parts_dir u -> parts_hold u m ds -> parts_hold u' (set_state s m) ds.
Proof.
  intros Hd Hp Hh j d Hj. destruct (Hh j d Hj) as (p & Hm & [Hsz Hst] & Hn). exists p. split_and!; [done| |done].
  split; [done|]. destruct (part_stored p); by rewrite ?Hd, ?Hp.
Qed.

Section HandleComplete.
Context {E : Env}.

(** What a reply to a completion may claim: a success means that the list was
    [1..n] and that the object is there. *)
Definition assembled (bucket key : string) (requested : list Z) (ds : list bytes) (st : store) : Prop :=
  requested = seqZ 1 (Z.of_nat (length ds)) /\
  exists dst, join_object_path (posix_root cfg) bucket key = Ok dst /\ committed dst (concat ds) st.

Lemma handle_complete_post rq bucket key upload_id u m requested ds st :
  (forall s src, sane_reads src (kread s src)) -> 0 < chunk_size (stream_cfg cfg) ->
  (forall dst, join_object_path (posix_root cfg) bucket key = Ok dst -> dst_tmp_path dst upload_id <> dst) ->
  uploads st !! (bucket, upload_id) = Some u -> meta_json u = Some m -> parts_hold u m ds ->
  (forall s, assumed_part_size m = Some s -> 0 <= s) -> blen (concat ds) <= i64_max ->
  (forall body, collect_body_capped show_read_error (rq_headers rq) (rq_body rq) XML_BODY_MAX_BYTES = Ok body ->
    parse_complete_parts (xml_reader body) = Ok requested) ->
  list.last requested = Some (Z.of_nat (length ds)) ->
  ends (handle_complete rq bucket key upload_id st)
    (on_success (assembled bucket key requested ds)) (on_success (assembled bucket key requested ds)).
Proof.
  intros Hsane Hchunk Htmp Hu Hm Hh Has Htot Hreq Hlast. unfold handle_complete.
  rewrite ends_bind. apply ends_refuse_if. intros _.
  rewrite ends_bind. unfold check_upload_id. destruct (sanitize_upload_id upload_id); [rewrite ends_ret|done..].
  rewrite ends_bind. unfold find_upload. rewrite ends_bind.
  destruct (bucket_root_path _ _); cbn [lift_path]; [rewrite ends_ret|done..].
  rewrite ends_bind, ends_get. apply ends_refuse_if. intros _.
  rewrite ends_bind.
  destruct (collect_body_capped _ _ _ _) as [doc|[]|]; [rewrite ends_ret|done..]. rewrite ends_bind.
  rewrite (Hreq doc eq_refl), ends_ret. pose proof (parse_complete_parts_sorted _ _ (Hreq doc eq_refl)) as Hsorted.
  rewrite ends_bind. unfold lock_and_read, sys. rewrite ends_bind.
  destruct (succeeds (io Lock)); [rewrite ends_ret|done]. rewrite ends_bind. unfold read_meta.
  rewrite ends_get, Hu. cbn [mbind option_bind]. rewrite Hm. destruct (_ || _); [done|]. rewrite ends_ret.
  rewrite ends_bind. apply ends_refuse_if. intros _. rewrite ends_bind. unfold try_write_meta.
  set (m1 := set_state Completing m).
  assert (exists u1 st1, (if succeeds (io WriteMetaCompleting)
      then update_upload bucket upload_id (set_meta_json (Some m1)) else mret tt) st = (Next tt, st1) /\
      uploads st1 !! (bucket, upload_id) = Some u1 /\ parts_hold u1 m1 ds) as (u1 & st1 & -> & Hu1 & Hh1).
  { destruct (succeeds (io WriteMetaCompleting)).
    - exists (set_meta_json (Some m1) u). eexists. split; [done|]. cbn. rewrite lookup_alter_eq, Hu.
      split; [done|]. by apply (parts_hold_set_state u).
    - exists u, st. split_and!; [done..|]. by apply (parts_hold_set_state u). }
  cbn [ends]. rewrite ends_bind. unfold validate_parts. rewrite Hlast.
  rewrite ends_bind. apply ends_refuse_if. intros Hmax. rewrite ends_bind. apply ends_refuse_if. intros Hcont.
  apply orb_false_iff in Hcont as [Hcl Hch]. apply negb_false_iff, Z.eqb_eq in Hcl. apply negb_false_iff, Z.eqb_eq in Hch.
  apply Z.ltb_ge in Hmax.
  assert (requested = seqZ 1 (Z.of_nat (length ds))) as Hseq.
  { replace (Z.of_nat (length ds)) with (Z.of_nat (length ds) - 1 + 1) by lia.
    apply sorted_contiguous; [done| |done|lia]. destruct requested; cbn in *; [lia|congruence]. }
  assert (ds <> []) as Hne by (intros ->; by rewrite Hseq in Hlast).
  case_match; [done|]. rewrite ends_ret, ends_bind.
  destruct (join_object_path _ _ _) as [dst| |] eqn:Ej; cbn [lift_path]; [rewrite ends_ret|done..].
  rewrite ends_bind. unfold parse_conditions. destruct (parse_conditional_headers _ _); [rewrite ends_ret|done..].
  rewrite ends_bind, ends_get, ends_bind. apply ends_refuse_if. intros _. rewrite ends_bind. unfold sys.
  destruct (succeeds (io CreateParent)); [rewrite ends_ret|done].
  eapply ends_mono; [apply (run_completion_post Hsane Hchunk bucket upload_id rq key dst) with (u := u1) (ds := ds); auto| |].
  all: intros r st2; destruct r; cbn; intros; try done; split; [done|]; by exists dst.
Qed.
End HandleComplete.
