(* ===== verification/PartUploads.v ===== *)
(** * Concurrent part uploads

    The parts of an upload arrive on many connections at once.  A part upload
    takes the lock to plan its placement, writes its chunks without the lock,
    and takes the lock again to record the part; requests may also fail or be
    dropped at any point, and then the writes they have queued may still land
    later.  This file gives that behaviour as a step relation
    over the directory of one upload, built from the functions the handlers
    use, and proves what is readable in every reachable state. *)

From Stdlib Require Import ZArith Lia Ascii.
From stdpp Require Import base list list_numbers strings numbers option gmap sorting relations.
From S2P Require Import Prelude RustStr Http Utils Preconditions UriEncoding S3Resp S3Xml Bytes FsHelpers Handler Streaming PayloadSource Upload Copy GatewayHelpers Multipart Completion.

Local Open Scope Z_scope.
Local Arguments part_file_name : simpl never.
Local Arguments part_tmp_name : simpl never.

(** A part upload between its two locked phases.  [fl_todo] are the chunks
    (ranges of the data) not yet written; [fl_disturbed] says that another
    upload of the same part number was in flight at the same time;
    [fl_dropped] that its request is gone and only its writes are left. *)
Record flight := {
  fl_pn : Z;
  fl_data : bytes;
  fl_place : option Z;
  fl_todo : list (nat * nat);
  fl_renamed : bool;
  fl_disturbed : bool;
  fl_dropped : bool;
}.

(** The upload directory, the requests in flight, and two records of what
    happened: [acked] maps a part number to the data of the last upload of it
    that was acknowledged, and [troubled] holds the part numbers whose last
    upload is not over, has failed, or was acknowledged but overlapped with
    another upload of the same part, one that was dropped with writes
    outstanding included. *)
Record sys := { up : upload_fs; flights : gmap nat flight; acked : gmap Z bytes; troubled : gset Z }.

Definition disturb (pn : Z) (fl : flight) : flight :=
  {| fl_pn := fl_pn fl; fl_data := fl_data fl; fl_place := fl_place fl; fl_todo := fl_todo fl;
     fl_renamed := fl_renamed fl; fl_disturbed := fl_disturbed fl || (fl_pn fl =? pn); fl_dropped := fl_dropped fl |}.
Definition busy (pn : Z) (fs : gmap nat flight) : bool :=
  existsb (fun kv => fl_pn (snd kv) =? pn) (map_to_list fs).

Definition after_chunk (todo : list (nat * nat)) (fl : flight) : flight :=
  {| fl_pn := fl_pn fl; fl_data := fl_data fl; fl_place := fl_place fl; fl_todo := todo;
     fl_renamed := fl_renamed fl; fl_disturbed := fl_disturbed fl; fl_dropped := fl_dropped fl |}.
Definition after_rename (fl : flight) : flight :=
  {| fl_pn := fl_pn fl; fl_data := fl_data fl; fl_place := fl_place fl; fl_todo := fl_todo fl;
     fl_renamed := true; fl_disturbed := fl_disturbed fl; fl_dropped := fl_dropped fl |}.
Definition after_drop (fl : flight) : flight :=
  {| fl_pn := fl_pn fl; fl_data := fl_data fl; fl_place := fl_place fl; fl_todo := fl_todo fl;
     fl_renamed := fl_renamed fl; fl_disturbed := fl_disturbed fl; fl_dropped := true |}.

(** The chunks cover the data, and nothing else. *)
Definition covers (todo : list (nat * nat)) (i : nat) : Prop := exists lo hi, (lo, hi) ∈ todo /\ (lo <= i < hi)%nat.
Definition chunks_of (data : bytes) (todo : list (nat * nat)) : Prop :=
  (forall i, (i < length data)%nat -> covers todo i) /\ Forall (fun c => (snd c <= length data)%nat) todo.

(** Opening the destination: [direct.bin] is created, the temporary file has
    whatever content an earlier attempt left, or none. *)
Definition open_dest (place : option Z) (pn : Z) (t0 : bytes) (u : upload_fs) : upload_fs :=
  match place with
  | Some _ => set_direct_bin (Some (default [] (direct_bin u))) u
  | None => set_parts_dir (<[part_tmp_name pn := t0]> (parts_dir u)) u
  end.

(** A write of a chunk: into [direct.bin], or into the file [name] that the
    open temporary file is now. *)
Definition write_chunk (fl : flight) (name : string) (lo hi : nat) (u : upload_fs) : upload_fs :=
  let d := take (hi - lo) (drop lo (fl_data fl)) in
  match fl_place fl with
  | Some off => set_direct_bin (Some (write_at (default [] (direct_bin u)) (off + Z.of_nat lo) d)) u
  | None => set_parts_dir (alter (fun t => write_at t (Z.of_nat lo) d) name (parts_dir u)) u
  end.
(** The temporary file of a part is shared by its uploads.  An upload that is
    alone finds its own; another one may have renamed it to the part's file,
    or removed it, so that the write goes there or nowhere. *)
Definition lands (fl : flight) (lo hi : nat) (u u' : upload_fs) : Prop :=
  u' = write_chunk fl (part_tmp_name (fl_pn fl)) lo hi u \/
  (fl_disturbed fl || fl_dropped fl = true /\ fl_place fl = None /\
     (u' = u \/ u' = write_chunk fl (part_file_name (fl_pn fl)) lo hi u)).

Section Steps.
Context (hash_order : list (Z * nat) -> list (Z * nat)).

(** Parts are below [2^64 / 10000] bytes (1.8 PB), so that no offset of
    [direct.bin] wraps. *)
Definition size_ok (n : Z) : Prop := 0 <= n /\ MAX_PARTS_PER_UPLOAD * n <= u64_max.

Definition stored_as (fl : flight) : PartStored :=
  match fl_place fl with Some off => Direct off | None => File (part_file_name (fl_pn fl)) end.

Inductive step : sys -> sys -> Prop :=
| step_plan s fid pn data m m1 m2 b todo t0 :
    meta_json (up s) = Some m -> m_state m = Active -> 1 <= pn <= MAX_PARTS_PER_UPLOAD ->
    size_ok (blen data) -> flights s !! fid = None -> chunks_of data todo ->
    m1 = m \/ (exists h, m1 = set_hint h m) ->
    promote_assumed pn (blen data) m1 = (m2, b) ->
    step s {| up := open_dest (direct_offset pn (blen data) m2) pn t0 (set_meta_json (Some m2) (up s));
              flights := <[fid := {| fl_pn := pn; fl_data := data; fl_place := direct_offset pn (blen data) m2;
                                     fl_todo := todo; fl_renamed := false; fl_disturbed := busy pn (flights s);
                                     fl_dropped := false |}]>
                           (disturb pn <$> flights s);
              acked := acked s; troubled := {[pn]} ∪ troubled s |}
| step_write s fid fl lo hi todo u' :
    flights s !! fid = Some fl -> fl_renamed fl = false -> fl_todo fl ≡ₚ (lo, hi) :: todo -> lands fl lo hi (up s) u' ->
    step s {| up := u'; flights := <[fid := after_chunk todo fl]> (flights s); acked := acked s; troubled := troubled s |}
| step_rename s fid fl t t' :
    flights s !! fid = Some fl -> fl_dropped fl = false -> fl_renamed fl = false -> fl_place fl = None -> fl_todo fl = [] ->
    parts_dir (up s) !! part_tmp_name (fl_pn fl) = Some t -> t' = t \/ t' = truncate t (blen (fl_data fl)) ->
    step s {| up := set_parts_dir (<[part_file_name (fl_pn fl) := t']> (delete (part_tmp_name (fl_pn fl))
                                     (parts_dir (up s)))) (up s);
              flights := <[fid := after_rename fl]> (flights s); acked := acked s; troubled := troubled s |}
| step_record s fid fl m p :
    flights s !! fid = Some fl -> fl_dropped fl = false -> fl_todo fl = [] -> (fl_place fl = None -> fl_renamed fl = true) ->
    meta_json (up s) = Some m -> m_state m = Active ->
    part_size p = blen (fl_data fl) -> part_stored p = stored_as fl ->
    step s {| up := set_meta_json (Some (record_part hash_order (fl_pn fl) p m)) (up s);
              flights := delete fid (flights s); acked := <[fl_pn fl := fl_data fl]> (acked s);
              troubled := if fl_disturbed fl then troubled s else troubled s ∖ {[fl_pn fl]} |}
| step_drop s fid fl u :
    flights s !! fid = Some fl ->
    u = up s \/ u = set_parts_dir (delete (part_tmp_name (fl_pn fl)) (parts_dir (up s))) (up s) ->
    step s {| up := u; flights := <[fid := after_drop fl]> (flights s); acked := acked s; troubled := troubled s |}
| step_forget s fid fl :
    flights s !! fid = Some fl -> fl_dropped fl = true ->
    step s {| up := up s; flights := delete fid (flights s); acked := acked s; troubled := troubled s |}.

(** A new upload, as [handle_create_mpu] leaves it. *)
Definition fresh_upload (s : sys) : Prop :=
  exists m, up s = {| meta_json := Some m; direct_bin := None; parts_dir := ∅; complete_bin := None |} /\
    m_parts m = ∅ /\ assumed_part_size m = None /\ flights s = ∅ /\ acked s = ∅ /\ troubled s = ∅.
End Steps.

(** ** The invariant *)
Section Invariant.
Context (hash_order : list (Z * nat) -> list (Z * nat)) (hash_perm : forall l, hash_order l ≡ₚ l).

(** What the metadata guarantees of a recorded part. *)
Definition part_ok (a : option Z) (pn : Z) (p : PartMeta) : Prop :=
  1 <= pn <= MAX_PARTS_PER_UPLOAD /\ size_ok (part_size p) /\
  match part_stored p with
  | Direct off => exists s, a = Some s /\ off = (pn - 1) * s /\ part_size p <= s
  | File name => name = part_file_name pn
  end.

Record meta_ok (m : UploadMeta) : Prop := {
  assumed_ok : forall s, assumed_part_size m = Some s -> size_ok s;
  parts_ok : forall pn p, m_parts m !! pn = Some p -> part_ok (assumed_part_size m) pn p;
}.

(** A flight is placed in its own slot or file. *)
Record flight_ok (a : option Z) (fl : flight) : Prop := {
  fl_pn_ok : 1 <= fl_pn fl <= MAX_PARTS_PER_UPLOAD;
  fl_size_ok : size_ok (blen (fl_data fl));
  fl_place_ok : forall off, fl_place fl = Some off ->
    exists s, a = Some s /\ off = (fl_pn fl - 1) * s /\ blen (fl_data fl) <= s;
  fl_chunks_ok : Forall (fun c => (snd c <= length (fl_data fl))%nat) (fl_todo fl);
}.

(** [f] shows at [off] the bytes of [d] that are not in [todo]. *)
Definition shows_done (f : bytes) (off : Z) (d : bytes) (todo : list (nat * nat)) : Prop :=
  forall i : nat, (i < length d)%nat -> ~ covers todo i -> f !! (Z.to_nat off + i)%nat = d !! i.

(** What an undisturbed flight has written so far is there; a request that
    was dropped is no longer answered for. *)
Definition flight_written (u : upload_fs) (fl : flight) : Prop :=
  match fl_place fl with
  | Some off => exists db, direct_bin u = Some db /\ shows_done db off (fl_data fl) (fl_todo fl)
  | None => if fl_renamed fl then exists f, parts_dir u !! part_file_name (fl_pn fl) = Some f /\ shows f 0 (fl_data fl)
            else exists t, parts_dir u !! part_tmp_name (fl_pn fl) = Some t /\ shows_done t 0 (fl_data fl) (fl_todo fl)
  end.

Record inv (s : sys) : Prop := {
  inv_meta : exists m, meta_json (up s) = Some m /\ meta_ok m /\
    (forall fid fl, flights s !! fid = Some fl -> flight_ok (assumed_part_size m) fl) /\
    (forall pn d, acked s !! pn = Some d -> pn ∉ troubled s ->
       exists p, m_parts m !! pn = Some p /\ part_holds (up s) p d);
  inv_alone : forall fid fl, flights s !! fid = Some fl -> fl_disturbed fl = false -> fl_dropped fl = false ->
    (forall fid' fl', flights s !! fid' = Some fl' -> fl_pn fl' = fl_pn fl -> fid' = fid) /\
    flight_written (up s) fl;
  inv_troubled : forall fid fl, flights s !! fid = Some fl -> fl_pn fl ∈ troubled s;
}.

(** *** Recomputing the assumed size *)
Lemma count_sizes_elem ps k n : count_sizes ps !! k = Some n -> exists p, p ∈ ps /\ part_size p = k.
Proof.
  revert n. induction ps as [|p ps IH]; intros n; cbn; [done|].
  destruct (decide (part_size p = k)) as [<-|Hne]; [intros _; exists p; set_solver|].
  rewrite lookup_insert_ne by done. intros (q & Hq & Hk)%IH. exists q. set_solver.
Qed.

Lemma recompute_assumed m s :
  assumed_part_size (recompute_assumed_part_size hash_order m) = Some s ->
  assumed_part_size m = Some s \/
  (assumed_part_size m = None /\ exists pn p, m_parts m !! pn = Some p /\ part_size p = s).
Proof.
  unfold recompute_assumed_part_size. destruct (assumed_part_size m) eqn:Ea; [rewrite Ea; auto|].
  destruct (find _ _) as [[sz n]|] eqn:Ef; [|rewrite Ea; auto]. cbn. intros [= <-]. right. split; [done|].
  apply find_some in Ef as [Hin _]. rewrite <- list_elem_of_In, hash_perm in Hin.
  apply elem_of_map_to_list, count_sizes_elem in Hin as (p & Hp & Hs).
  apply list_elem_of_fmap in Hp as ([pn q] & -> & Hq). apply elem_of_map_to_list in Hq. eauto.
Qed.

Lemma recompute_parts m : m_parts (recompute_assumed_part_size hash_order m) = m_parts m.
Proof.
  unfold recompute_assumed_part_size. destruct (assumed_part_size m); [done|]. by destruct (find _ _) as [[] |].
Qed.

Lemma recompute_keeps m s :
  assumed_part_size m = Some s -> assumed_part_size (recompute_assumed_part_size hash_order m) = Some s.
Proof. intros H. unfold recompute_assumed_part_size. by rewrite H. Qed.

(** Recording a well-placed part keeps the metadata well-formed. *)
Lemma record_part_ok m pn p : meta_ok m -> part_ok (assumed_part_size m) pn p -> meta_ok (record_part hash_order pn p m).
Proof.
  intros [Ha Hp] Hpn. unfold record_part. set (m1 := insert_part pn p m).
  assert (forall pn' p', m_parts m1 !! pn' = Some p' -> part_ok (assumed_part_size m) pn' p') as Hp1.
  { intros pn' p'. cbn. rewrite lookup_insert_Some. intros [[<- <-]|[_ ?]]; auto. }
  split.
  - intros s Hs. apply recompute_assumed in Hs as [Hs|(_ & pn' & p' & Hp' & <-)]; [by apply Ha|].
    by apply Hp1 in Hp' as (_ & ? & _).
  - intros pn' p'. rewrite recompute_parts. intros Hp'. apply Hp1 in Hp' as (? & ? & Hst).
    split; [done|]. split; [done|].
    destruct (part_stored p'); [|done]. destruct Hst as (s & Hs & ? & ?). exists s. split_and!; [|done..].
    by apply recompute_keeps.
Qed.

(** *** Planning *)
Lemma promote_ok m pn len m2 b :
  meta_ok m -> size_ok len -> promote_assumed pn len m = (m2, b) ->
  meta_ok m2 /\ m_parts m2 = m_parts m /\ m_state m2 = m_state m /\
  (forall s, assumed_part_size m = Some s -> assumed_part_size m2 = Some s) /\
  (pn = 1 -> assumed_part_size m2 <> None).
Proof.
  intros [Ha Hp] Hlen. unfold promote_assumed. destruct (assumed_part_size m) as [s|] eqn:Ea.
  - intros [= <- <-]. rewrite Ea. split_and!; try done. split; by rewrite Ea.
  - case_match eqn:Ec; intros [= <- <-]; cbn.
    + split_and!; try done. split; [by intros s [= <-]|]. intros pn' p' Hp'. apply Hp in Hp' as (? & ? & Hst).
      split; [done|]. split; [done|]. destruct (part_stored p'); [by destruct Hst as (? & ? & _)|done].
    + rewrite Ea. split_and!; try done; [split; rewrite Ea; done|]. intros ->. done.
Qed.

(** A part that goes to [direct.bin] goes to its own slot. *)
Lemma direct_offset_slot m pn len off :
  meta_ok m -> 1 <= pn <= MAX_PARTS_PER_UPLOAD -> (pn = 1 -> assumed_part_size m <> None) ->
  direct_offset pn len m = Some off -> exists s, assumed_part_size m = Some s /\ off = (pn - 1) * s /\ len <= s.
Proof.
  intros [Ha Hp] Hpn H1. unfold direct_offset. destruct (assumed_part_size m) as [s|] eqn:Ea.
  - destruct (Z.leb_spec len s); [|done]. intros [= <-]. exists s. split_and!; try done.
    destruct (Ha s eq_refl) as [? Hs]. apply wrap64_id. unfold is_u64, MAX_PARTS_PER_UPLOAD in *. nia.
  - unfold compute_sequential_direct_offset. destruct (Z.leb_spec pn 1); [by destruct H1; [lia|]|].
    rewrite seqZ_cons by lia. cbn [sequential_offset]. destruct (m_parts m !! 1) as [p|] eqn:Ep; [|done].
    apply Hp in Ep as (_ & _ & Hst). destruct (part_stored p); [|done]. by destruct Hst as (? & ? & _).
Qed.

Lemma flight_ok_mono a a' fl : (forall s, a = Some s -> a' = Some s) -> flight_ok a fl -> flight_ok a' fl.
Proof.
  intros Hm [? ? Hp ?]. split; [done..| |done]. intros off Ho. destruct (Hp off Ho) as (s & ? & ? & ?). eauto.
Qed.

(** *** A request only touches its own part *)
Definition only_part (a : option Z) (pn : Z) (u u' : upload_fs) : Prop :=
  (forall db s, direct_bin u = Some db -> a = Some s ->
     exists db', direct_bin u' = Some db' /\ preserved db db' ((pn - 1) * s) (pn * s)) /\
  (forall name, name <> part_file_name pn -> name <> part_tmp_name pn -> parts_dir u' !! name = parts_dir u !! name).

Lemma pn_u64 pn : 1 <= pn <= MAX_PARTS_PER_UPLOAD -> is_u64 pn.
Proof. unfold is_u64, u64_max, MAX_PARTS_PER_UPLOAD. lia. Qed.

Lemma other_names pn pn' :
  1 <= pn <= MAX_PARTS_PER_UPLOAD -> 1 <= pn' <= MAX_PARTS_PER_UPLOAD -> pn' <> pn ->
  part_file_name pn' <> part_file_name pn /\ part_file_name pn' <> part_tmp_name pn /\
  part_tmp_name pn' <> part_file_name pn /\ part_tmp_name pn' <> part_tmp_name pn.
Proof.
  intros H1%pn_u64 H2%pn_u64 Hne. split_and!.
  - by intros ?%part_file_name_inj.
  - intros H. by symmetry in H; apply tmp_not_part in H.
  - apply tmp_not_part.
  - by intros ?%part_tmp_name_inj.
Qed.

Lemma only_part_holds a pn pn' p d u u' :
  only_part a pn u u' -> 1 <= pn <= MAX_PARTS_PER_UPLOAD -> pn' <> pn -> part_ok a pn' p ->
  part_holds u p d -> part_holds u' p d.
Proof.
  intros [Hdb Hpd] Hpn Hne (Hpn' & Hsz & Hst) [Hl Hh]. split; [done|].
  destruct (part_stored p) as [off|name].
  - destruct Hst as (s & Ha & -> & Hle). destruct Hh as (? & ? & db & Hd & Hs). split_and!; [done..|].
    destruct (Hdb db s Hd Ha) as (db' & Hd' & Hpr). exists db'. split; [done|].
    destruct Hsz as [Hsz _].
    eapply shows_preserved; [lia| | |exact Hpr|done]; [nia|].
    destruct (decide (pn' < pn)); [left|right]; nia.
  - destruct Hh as (f & Hf & Hs). subst name. destruct (other_names pn pn') as (? & ? & _ & _); [done..|].
    exists f. by rewrite Hpd.
Qed.

Lemma shows_done_preserved f f' lo hi off d todo :
  0 <= off -> 0 <= lo -> off + blen d <= lo \/ hi <= off -> preserved f f' lo hi ->
  shows_done f off d todo -> shows_done f' off d todo.
Proof.
  intros Ho Hlo Hd Hp Hs i Hi Hc. destruct (lookup_lt_is_Some_2 d i Hi) as [x Hx].
  rewrite Hx. apply Hp; [unfold blen in *; lia|]. by rewrite Hs.
Qed.

Lemma only_part_written a pn fl u u' :
  only_part a pn u u' -> 1 <= pn <= MAX_PARTS_PER_UPLOAD -> fl_pn fl <> pn -> flight_ok a fl ->
  flight_written u fl -> flight_written u' fl.
Proof.
  intros [Hdb Hpd] Hpn Hne [Hpn' [Hsz _] Hpl _] Hw. unfold flight_written in *.
  destruct (other_names pn (fl_pn fl)) as (? & ? & ? & ?); [done..|].
  destruct (fl_place fl) as [off|].
  - destruct Hw as (db & Hd & Hs). destruct (Hpl off eq_refl) as (s & Ha & -> & Hle).
    destruct (Hdb db s Hd Ha) as (db' & Hd' & Hpr). exists db'. split; [done|].
    eapply shows_done_preserved; [nia| | |exact Hpr|done]; [nia|].
    destruct (decide (fl_pn fl < pn)); [left|right]; nia.
  - destruct (fl_renamed fl); by rewrite Hpd.
Qed.

Lemma only_part_files a pn u parts' :
  (forall name, name <> part_file_name pn -> name <> part_tmp_name pn -> parts' !! name = parts_dir u !! name) ->
  only_part a pn u (set_parts_dir parts' u).
Proof. intros H. split; [|done]. intros db s Hd _. exists db. split; [done|]. by intros k x _ ?. Qed.

Lemma only_part_refl a pn u m : only_part a pn u (set_meta_json m u).
Proof. split; [|done]. intros db s Hd _. exists db. split; [done|]. by intros k x _ ?. Qed.

Lemma only_part_open a pn place t0 m u : only_part a pn u (open_dest place pn t0 (set_meta_json m u)).
Proof.
  destruct place; cbn.
  - split; [|done]. intros db s Hd _. exists db. cbn. rewrite Hd. split; [done|]. by intros k x _ ?.
  - split; [|cbn; intros name _ Hn; by rewrite lookup_insert_ne].
    intros db s Hd _. exists db. split; [done|]. by intros k x _ ?.
Qed.

Lemma chunk_length lo hi (d : bytes) : (hi <= length d)%nat -> length (take (hi - lo) (drop lo d)) = (hi - lo)%nat.
Proof. intros. rewrite length_take, length_drop. lia. Qed.

Lemma only_part_write a fl name lo hi u :
  flight_ok a fl -> (hi <= length (fl_data fl))%nat -> name = part_tmp_name (fl_pn fl) \/ name = part_file_name (fl_pn fl) ->
  only_part a (fl_pn fl) u (write_chunk fl name lo hi u).
Proof.
  intros [Hpn [Hsz _] Hpl _] Hhi Hname. unfold write_chunk. destruct (fl_place fl) as [off|].
  - split; [|done]. intros db s Hd Ha. destruct (Hpl off eq_refl) as (s' & Ha' & -> & Hle). assert (s' = s) as -> by congruence.
    eexists. split; [done|]. rewrite Hd. cbn. intros k x Hk Hx.
    destruct (decide (lo < hi)%nat) as [Hlt|Hge].
    2:{ replace (hi - lo)%nat with 0%nat by lia. by rewrite take_0. }
    assert (fl_pn fl * s = (fl_pn fl - 1) * s + s) as Hslot by lia.
    assert (0 <= (fl_pn fl - 1) * s) as Hpos by nia.
    apply lookup_write_at_out; [lia|done|]. rewrite chunk_length by done. unfold blen in *.
    destruct Hk; [left|right]; lia.
  - apply only_part_files. intros n Hn1 Hn2. apply lookup_alter_ne. destruct Hname; congruence.
Qed.

Lemma only_part_id a pn u : only_part a pn u u.
Proof. split; [|done]. intros db s Hd _. exists db. split; [done|]. by intros k x _ ?. Qed.

Lemma only_part_lands a fl lo hi u u' :
  flight_ok a fl -> (hi <= length (fl_data fl))%nat -> lands fl lo hi u u' -> only_part a (fl_pn fl) u u'.
Proof. intros Hok Hhi [->|(_ & _ & [->| ->])]; [|apply only_part_id|]; apply only_part_write; auto. Qed.

Lemma lands_meta fl lo hi u u' : lands fl lo hi u u' -> meta_json u' = meta_json u.
Proof. unfold lands, write_chunk. intros [->|(_ & _ & [->| ->])]; [|done|]; by destruct (fl_place fl). Qed.

Lemma covers_perm t t' i : t ≡ₚ t' -> covers t i <-> covers t' i.
Proof. intros Hp. unfold covers. by setoid_rewrite Hp. Qed.

(** Writing a chunk makes it readable and keeps the chunks written before. *)
Lemma shows_done_write f off d todo lo hi todo' :
  0 <= off -> (hi <= length d)%nat -> todo ≡ₚ (lo, hi) :: todo' -> shows_done f off d todo ->
  shows_done (write_at f (off + Z.of_nat lo) (take (hi - lo) (drop lo d))) off d todo'.
Proof.
  intros Ho Hhi Hp Hs i Hi Hc. destruct (decide (lo <= i < hi)%nat) as [Hin|Hout].
  - replace (Z.to_nat off + i)%nat with (Z.to_nat (off + Z.of_nat lo) + (i - lo))%nat by lia.
    rewrite lookup_write_at_in; [|lia|rewrite chunk_length; lia].
    rewrite lookup_take_lt by lia. rewrite lookup_drop. f_equal. lia.
  - destruct (lookup_lt_is_Some_2 d i Hi) as [x Hx]. rewrite Hx.
    apply lookup_write_at_out; [lia| |rewrite chunk_length by done; lia].
    rewrite Hs; [done..|]. rewrite (covers_perm _ _ _ Hp). intros (l & h & Hlh & Hr).
    apply elem_of_cons in Hlh as [[= -> ->]|Hlh]; [done|]. apply Hc. by exists l, h.
Qed.

Lemma shows_done_nil f off d : shows_done f off d [] -> shows f off d.
Proof. intros H i Hi. apply H; [done|]. intros (lo & hi & Hin & _). by apply elem_of_nil in Hin. Qed.

Lemma write_chunk_written fl lo hi todo u :
  (forall off, fl_place fl = Some off -> 0 <= off) -> fl_renamed fl = false ->
  (hi <= length (fl_data fl))%nat -> fl_todo fl ≡ₚ (lo, hi) :: todo ->
  flight_written u fl -> flight_written (write_chunk fl (part_tmp_name (fl_pn fl)) lo hi u) (after_chunk todo fl).
Proof.
  intros Hoff Hr Hhi Hp Hw. unfold flight_written, write_chunk in *. cbn. rewrite Hr in *.
  destruct (fl_place fl) as [off|].
  - destruct Hw as (db & Hd & Hs). eexists. split; [done|]. rewrite Hd. cbn. eapply shows_done_write; eauto.
  - destruct Hw as (t & Ht & Hs). cbn. rewrite lookup_alter_eq, Ht. eexists. split; [done|].
    rewrite <- (Z.add_0_l (Z.of_nat lo)). by eapply shows_done_write.
Qed.

(** *** The steps preserve the invariant *)
Lemma inv_plan s fid pn data m m1 m2 b todo t0 :
  inv s -> meta_json (up s) = Some m -> 1 <= pn <= MAX_PARTS_PER_UPLOAD -> size_ok (blen data) ->
  flights s !! fid = None -> chunks_of data todo -> m1 = m \/ (exists h, m1 = set_hint h m) ->
  promote_assumed pn (blen data) m1 = (m2, b) ->
  inv {| up := open_dest (direct_offset pn (blen data) m2) pn t0 (set_meta_json (Some m2) (up s));
         flights := <[fid := {| fl_pn := pn; fl_data := data; fl_place := direct_offset pn (blen data) m2;
                                fl_todo := todo; fl_renamed := false; fl_disturbed := busy pn (flights s);
                                fl_dropped := false |}]>
                      (disturb pn <$> flights s);
         acked := acked s; troubled := {[pn]} ∪ troubled s |}.
Proof.
  intros [(m' & Hm' & Hmok & Hfl & Hack) Halone Htr] Hm Hpn Hsz Hfid [Hcov Hch] Hm1 Hpr.
  assert (m' = m) as -> by congruence.
  assert (meta_ok m1 /\ m_parts m1 = m_parts m /\ assumed_part_size m1 = assumed_part_size m) as (Hmok1 & Hp1 & Ha1).
  { destruct Hm1 as [->|[h ->]]; [done|]. split; [|done]. destruct Hmok. by split. }
  destruct (promote_ok m1 pn (blen data) m2 b) as (Hmok2 & Hp2 & _ & Hkeep & H1); [done..|].
  set (place := direct_offset pn (blen data) m2) in *. set (u' := open_dest _ _ _ _).
  assert (only_part (assumed_part_size m2) pn (up s) u') as Honly by apply only_part_open.
  assert (meta_json u' = Some m2) as Hmeta by (subst u'; by destruct place).
  set (new := {| fl_pn := pn; fl_data := data; fl_place := place; fl_todo := _; fl_renamed := _; fl_disturbed := _; fl_dropped := _ |}).
  assert (forall fid' fl', flights s !! fid' = Some fl' -> flight_ok (assumed_part_size m2) fl') as Hfl2.
  { intros fid' fl' H. eapply flight_ok_mono; [|by eapply Hfl]. intros sz Hsz'. apply Hkeep. by rewrite Ha1. }
  split; cbn.
  - exists m2. split_and!; [done..| |].
    + intros fid' fl'. rewrite lookup_insert_Some. intros [[_ <-]|[_ Hfl']].
      * split; [done..| |done]. intros off Ho. by apply (direct_offset_slot m2).
      * rewrite lookup_fmap_Some in Hfl'. destruct Hfl' as (fl0 & <- & H0). destruct (Hfl2 _ _ H0). by split.
    + intros pn' d Hd Hnt. destruct (Hack pn' d Hd) as (p & Hp & Hh); [set_solver|]. assert (pn <> pn') as Hne by set_solver.
      exists p. rewrite Hp2, Hp1. split; [done|]. eapply (only_part_holds _ pn pn'); [done|done|congruence| |done].
      apply (parts_ok m2 Hmok2). by rewrite Hp2, Hp1.
  - intros fid' fl'. rewrite lookup_insert_Some. intros [[<- <-]|[Hne Hfl']] Hdis Hdrop.
    + cbn in Hdis. split.
      * intros fid2 fl2. rewrite lookup_insert_Some. intros [[-> _]|[_ Hf2]] Hpn2; [done|].
        rewrite lookup_fmap_Some in Hf2. destruct Hf2 as (fl0 & <- & H0). cbn in Hpn2. exfalso.
        unfold busy in Hdis. apply not_true_iff_false in Hdis. apply Hdis. apply existsb_exists.
        exists (fid2, fl0). split; [by apply list_elem_of_In, elem_of_map_to_list|]. by apply Z.eqb_eq.
      * unfold flight_written. subst u'. cbn. destruct place; cbn.
        -- eexists. split; [done|]. intros i Hi Hc. by destruct Hc; apply Hcov.
        -- rewrite lookup_insert_eq. eexists. split; [done|]. intros i Hi Hc. by destruct Hc; apply Hcov.
    + rewrite lookup_fmap_Some in Hfl'. destruct Hfl' as (fl0 & <- & H0). cbn in Hdis.
      apply orb_false_iff in Hdis as [Hdis Hpne]. apply Z.eqb_neq in Hpne.
      destruct (Halone _ _ H0 Hdis Hdrop) as [Hal Hw]. split.
      * intros fid2 fl2. rewrite lookup_insert_Some. intros [[-> <-]|[_ Hf2]] Hpn2; [by cbn in Hpn2|].
        rewrite lookup_fmap_Some in Hf2. destruct Hf2 as (fl1 & <- & H1'). by eapply Hal.
      * exact (only_part_written _ pn fl0 (up s) u' Honly Hpn Hpne (Hfl2 _ _ H0) Hw).
  - intros fid' fl'. rewrite lookup_insert_Some. intros [[_ <-]|[_ Hf]]; [cbn; set_solver|].
    rewrite lookup_fmap_Some in Hf. destruct Hf as (fl0 & <- & H0). cbn. apply elem_of_union_r. by eapply Htr.
Qed.

(** A change confined to the part of flight [fid] keeps the rest; [fs'] are the
    flights afterwards, where only [fid] may differ. *)
Lemma inv_flight s fid fl u' fs' :
  inv s -> flights s !! fid = Some fl -> meta_json u' = meta_json (up s) ->
  (forall a, flight_ok a fl -> only_part a (fl_pn fl) (up s) u') ->
  (forall fid', fid' <> fid -> fs' !! fid' = flights s !! fid') ->
  (forall fl', fs' !! fid = Some fl' ->
     fl_pn fl' = fl_pn fl /\ fl_disturbed fl' = fl_disturbed fl /\ (fl_dropped fl' = false -> fl_dropped fl = false) /\
     (forall a, flight_ok a fl -> flight_ok a fl') /\
     (fl_disturbed fl' = false -> fl_dropped fl' = false -> flight_written (up s) fl -> flight_written u' fl')) ->
  inv {| up := u'; flights := fs'; acked := acked s; troubled := troubled s |}.
Proof.
  intros [(m & Hm & Hmok & Hfl & Hack) Halone Htr] Hfid Hmeta Honly Hother Hthis.
  pose proof (Hfl _ _ Hfid) as Hok. specialize (Honly _ Hok). pose proof (fl_pn_ok _ _ Hok) as Hpn.
  assert (forall fid' fl', fs' !! fid' = Some fl' ->
    (fid' = fid /\ fl_pn fl' = fl_pn fl) \/ (fid' <> fid /\ flights s !! fid' = Some fl')) as Hcases.
  { intros fid' fl' H. destruct (decide (fid' = fid)) as [->|Hne]; [left|right; by rewrite <- Hother].
    split; [done|]. by apply Hthis. }
  split; cbn.
  - exists m. split_and!; [by rewrite Hmeta|done| |].
    + intros fid' fl' H. destruct (Hcases _ _ H) as [[-> _]|[_ H']]; [|by eapply Hfl].
      destruct (Hthis fl' H) as (_ & _ & _ & Hk & _). auto.
    + intros pn d Hd Hnt. destruct (Hack pn d Hd Hnt) as (p & Hp & Hh). exists p. split; [done|].
      eapply (only_part_holds _ (fl_pn fl) pn); [done|done| |by apply (parts_ok m Hmok)|done].
      intros ->. by eapply Hnt, Htr.
  - intros fid' fl' H Hdis Hdrop. destruct (Hcases _ _ H) as [[-> Hpn']|[Hne H']].
    + destruct (Hthis fl' H) as (_ & Hd & Hdr & _ & Hw). rewrite Hdis in Hd.
      destruct (Halone fid fl Hfid) as [Hal Hwr]; [done|auto|]. split; [|auto].
      intros fid2 fl2 H2 Hpn2. destruct (Hcases _ _ H2) as [[-> _]|[_ H2']]; [done|]. eapply Hal; [done|congruence].
    + destruct (Halone _ _ H' Hdis Hdrop) as [Hal Hwr].
      assert (fl_pn fl' <> fl_pn fl) as Hpne.
      { intros Heq. apply Hne. symmetry. by eapply Hal. }
      split; [|by eapply (only_part_written _ (fl_pn fl)); eauto].
      intros fid2 fl2 H2 Hpn2. destruct (Hcases _ _ H2) as [[-> Hp2]|[_ H2']]; [congruence|]. by eapply Hal.
  - intros fid' fl' H. destruct (Hcases _ _ H) as [[-> ->]|[_ H']]; by eapply Htr.
Qed.

Lemma flight_offset_nonneg a fl off : flight_ok a fl -> fl_place fl = Some off -> 0 <= off.
Proof. intros [Hpn [? _] Hpl _] Ho. destruct (Hpl off Ho) as (s & _ & -> & ?). nia. Qed.

Lemma inv_write s fid fl lo hi todo u' :
  inv s -> flights s !! fid = Some fl -> fl_renamed fl = false -> fl_todo fl ≡ₚ (lo, hi) :: todo -> lands fl lo hi (up s) u' ->
  inv {| up := u'; flights := <[fid := after_chunk todo fl]> (flights s); acked := acked s; troubled := troubled s |}.
Proof.
  intros Hinv Hfid Hr Hp Hl. pose proof Hinv as [(m & _ & _ & Hfl & _) _ _]. pose proof (Hfl _ _ Hfid) as Hok.
  pose proof (fl_chunks_ok _ _ Hok) as Hch. rewrite Hp in Hch. apply Forall_cons_iff in Hch as [Hhi Hrest]. cbn in Hhi.
  eapply (inv_flight _ fid fl); [done|done| | | |].
  - by eapply lands_meta.
  - intros a Ha. by eapply only_part_lands.
  - intros fid' Hne. by rewrite lookup_insert_ne.
  - intros fl'. rewrite lookup_insert_eq. intros [= <-]. split_and!; try done.
    + intros a [? ? ? _]. by split.
    + cbn. intros Hdis Hdrop Hw. destruct Hl as [->|(Hno & _)]; [|by rewrite Hdis, Hdrop in Hno].
      eapply write_chunk_written; try done. intros off. by eapply flight_offset_nonneg.
Qed.

Lemma inv_rename s fid fl t t' :
  inv s -> flights s !! fid = Some fl -> fl_renamed fl = false -> fl_place fl = None -> fl_todo fl = [] ->
  parts_dir (up s) !! part_tmp_name (fl_pn fl) = Some t -> t' = t \/ t' = truncate t (blen (fl_data fl)) ->
  inv {| up := set_parts_dir (<[part_file_name (fl_pn fl) := t']> (delete (part_tmp_name (fl_pn fl))
                                (parts_dir (up s)))) (up s);
         flights := <[fid := after_rename fl]> (flights s); acked := acked s; troubled := troubled s |}.
Proof.
  intros Hinv Hfid Hr Hpl Htodo Ht Ht'.
  eapply (inv_flight _ fid fl); [done|done|done| | |].
  - intros a _. apply only_part_files. intros name Hn1 Hn2. by rewrite lookup_insert_ne, lookup_delete_ne.
  - intros fid' Hne. by rewrite lookup_insert_ne.
  - intros fl'. rewrite lookup_insert_eq. intros [= <-]. split_and!; try done.
    + intros a [? ? ? ?]. by split.
    + intros _ _ Hw. unfold flight_written in *. rewrite Hpl, Hr, Htodo in Hw. cbn. rewrite Hpl, lookup_insert_eq.
      destruct Hw as (t0 & Ht0 & Hs). simplify_eq. exists t'. split; [done|]. apply shows_done_nil in Hs.
      destruct Ht' as [-> | ->]; [done|]. intros i Hi. destruct (lookup_lt_is_Some_2 _ i Hi) as [x Hx]. rewrite Hx.
      apply lookup_truncate; [unfold blen; lia|]. by rewrite Hs.
Qed.

Lemma inv_drop s fid fl u :
  inv s -> flights s !! fid = Some fl ->
  u = up s \/ u = set_parts_dir (delete (part_tmp_name (fl_pn fl)) (parts_dir (up s))) (up s) ->
  inv {| up := u; flights := <[fid := after_drop fl]> (flights s); acked := acked s; troubled := troubled s |}.
Proof.
  intros Hinv Hfid Hu. eapply (inv_flight _ fid fl); [done|done| | | |].
  - by destruct Hu as [-> | ->].
  - intros a _. destruct Hu as [-> | ->]; [apply only_part_id|].
    apply only_part_files. intros name _ Hn. by rewrite lookup_delete_ne.
  - intros fid' Hne. by rewrite lookup_insert_ne.
  - intros fl'. rewrite lookup_insert_eq. intros [= <-]. split_and!; try done. intros a [? ? ? ?]. by split.
Qed.

Lemma inv_forget s fid fl :
  inv s -> flights s !! fid = Some fl ->
  inv {| up := up s; flights := delete fid (flights s); acked := acked s; troubled := troubled s |}.
Proof.
  intros Hinv Hfid. eapply (inv_flight _ fid fl); [done|done|done| | |].
  - intros a _. apply only_part_id.
  - intros fid' Hne. by rewrite lookup_delete_ne.
  - intros fl'. by rewrite lookup_delete_eq.
Qed.

(** What a finished flight records is well placed, and readable when nothing
    disturbed it. *)
Lemma finished_part_ok a fl p :
  flight_ok a fl -> part_size p = blen (fl_data fl) -> part_stored p = stored_as fl -> part_ok a (fl_pn fl) p.
Proof.
  intros [Hpn Hsz Hpl _] Hs Hst. split; [done|]. rewrite Hs. split; [done|]. rewrite Hst. unfold stored_as.
  destruct (fl_place fl); [|done]. by apply Hpl.
Qed.

Lemma finished_part_holds a u fl p :
  (forall s, a = Some s -> size_ok s) -> flight_ok a fl -> fl_todo fl = [] ->
  (fl_place fl = None -> fl_renamed fl = true) -> flight_written u fl ->
  part_size p = blen (fl_data fl) -> part_stored p = stored_as fl -> part_holds u p (fl_data fl).
Proof.
  intros Ha Hok Htodo Hr Hw Hs Hst. split; [done|]. rewrite Hst. unfold stored_as, flight_written in *. rewrite Htodo in Hw.
  destruct (fl_place fl) as [off|] eqn:Epl; [|by rewrite Hr in Hw].
  destruct Hw as (db & Hd & Hsd). split_and!; [by eapply flight_offset_nonneg| |exists db; split; [done|by apply shows_done_nil]].
  destruct Hok as [Hpn Hsz Hpl _]. destruct (Hpl off Epl) as (s & Has & -> & Hle).
  destruct (Ha s Has) as [? Hb]. unfold MAX_PARTS_PER_UPLOAD in *. nia.
Qed.

Lemma part_holds_meta u m p d : part_holds (set_meta_json m u) p d <-> part_holds u p d.
Proof. done. Qed.

Lemma inv_record s fid fl m p :
  inv s -> flights s !! fid = Some fl -> fl_dropped fl = false -> fl_todo fl = [] -> (fl_place fl = None -> fl_renamed fl = true) ->
  meta_json (up s) = Some m -> part_size p = blen (fl_data fl) -> part_stored p = stored_as fl ->
  inv {| up := set_meta_json (Some (record_part hash_order (fl_pn fl) p m)) (up s);
         flights := delete fid (flights s); acked := <[fl_pn fl := fl_data fl]> (acked s);
         troubled := if fl_disturbed fl then troubled s else troubled s ∖ {[fl_pn fl]} |}.
Proof.
  intros [(m' & Hm' & Hmok & Hfl & Hack) Halone Htr] Hfid Hdrop Htodo Hready Hm Hsz Hst.
  assert (m' = m) as -> by congruence. pose proof (Hfl _ _ Hfid) as Hok.
  pose proof (record_part_ok m (fl_pn fl) p Hmok (finished_part_ok _ _ _ Hok Hsz Hst)) as Hmok'.
  assert (m_parts (record_part hash_order (fl_pn fl) p m) = <[fl_pn fl := p]> (m_parts m)) as Hparts
    by apply recompute_parts.
  split; cbn.
  - eexists. split; [done|]. split; [done|]. split.
    + intros fid' fl'. rewrite lookup_delete_Some. intros [_ H]. eapply flight_ok_mono; [|by eapply Hfl].
      intros sz. apply (recompute_keeps (insert_part _ _ _)).
    + intros pn d Hd Hnt. rewrite Hparts. setoid_rewrite part_holds_meta. pose proof (Htr _ _ Hfid) as Hin.
      rewrite lookup_insert_Some in Hd. destruct Hd as [[<- <-]|[Hne Hd]].
      * destruct (fl_disturbed fl) eqn:Edis; [done|]. exists p. rewrite lookup_insert_eq. split; [done|].
        eapply finished_part_holds; [apply (assumed_ok m Hmok)|done..| |done|done]. by apply (Halone fid).
      * destruct (Hack pn d Hd) as (q & Hq & Hh); [destruct (fl_disturbed fl); set_solver|].
        exists q. split; [|done]. by rewrite lookup_insert_ne.
  - intros fid' fl'. rewrite lookup_delete_Some. intros [Hne H] Hdis Hdr. destruct (Halone _ _ H Hdis Hdr) as [Hal Hw].
    split; [|done]. intros fid2 fl2. rewrite lookup_delete_Some. intros [_ H2]. by apply Hal.
  - intros fid' fl'. rewrite lookup_delete_Some. intros [Hne H]. pose proof (Htr _ _ H) as Hin.
    destruct (fl_disturbed fl) eqn:Edis; [done|]. apply elem_of_difference. split; [done|]. rewrite elem_of_singleton.
    intros Heq. apply Hne. symmetry. by eapply (proj1 (Halone fid fl Hfid Edis Hdrop)).
Qed.

Lemma inv_step s s' : inv s -> step hash_order s s' -> inv s'.
Proof.
  intros Hinv Hst. destruct Hst.
  - by eapply inv_plan.
  - by eapply inv_write.
  - by eapply inv_rename.
  - by eapply inv_record.
  - by eapply inv_drop.
  - by eapply inv_forget.
Qed.

Lemma inv_fresh s : fresh_upload s -> inv s.
Proof.
  intros (m & Hu & Hp & Ha & Hf & Hk & Ht). split.
  - exists m. rewrite Hu. split; [done|]. split; [split|].
    + rewrite Ha. done.
    + intros pn p. by rewrite Hp.
    + split; [intros fid fl; by rewrite Hf|intros pn d; by rewrite Hk].
  - intros fid fl. by rewrite Hf.
  - intros fid fl. by rewrite Hf.
Qed.

Lemma inv_reachable s0 s : fresh_upload s0 -> rtc (step hash_order) s0 s -> inv s.
Proof.
  intros Hf Hr. apply inv_fresh in Hf. induction Hr as [|s0 s1 s Hst _ IH]; [done|]. apply IH. by eapply inv_step.
Qed.

(** The last acknowledged bodies of the parts, as a list, and that nothing has
    troubled these parts. *)
Definition acked_parts (s : sys) (ds : list bytes) : Prop :=
  forall (j : nat) d, ds !! j = Some d -> acked s !! (Z.of_nat j + 1) = Some d.
Definition untroubled (s : sys) (n : nat) : Prop := forall j : nat, (j < n)%nat -> Z.of_nat j + 1 ∉ troubled s.

Lemma acked_parts_hold s ds : inv s -> acked_parts s ds -> untroubled s (length ds) ->
  exists m, meta_json (up s) = Some m /\ parts_hold (up s) m ds /\ (forall a, assumed_part_size m = Some a -> 0 <= a).
Proof.
  intros [(m & Hm & Hmok & _ & Hack) _ _] Hds Hun. exists m. split; [done|]. split.
  - intros j d Hj. destruct (Hack _ _ (Hds j d Hj)) as (p & Hp & Hh); [by eapply Hun, lookup_lt_Some|]. exists p. split; [done|]. split; [done|].
    intros name Hn. pose proof (parts_ok m Hmok _ _ Hp) as (_ & _ & Hst). by rewrite Hn in Hst.
  - intros a Ha. by apply (assumed_ok m Hmok) in Ha as [? _].
Qed.
End Invariant.

(** ** The steps as a program *)
Inductive cmd :=
| CPlan (fid : nat) (pn : Z) (data : bytes) (todo : list (nat * nat))
| CWrite (fid : nat)
| CRename (fid : nat)
| CRecord (fid : nat) (etag : string)
| CDrop (fid : nat)
| CForget (fid : nat).

Definition chunks_ofb (data : bytes) (todo : list (nat * nat)) : bool :=
  forallb (fun i => existsb (fun c => (fst c <=? i) && (i <? snd c))%nat todo) (seq 0 (length data)) &&
  forallb (fun c => snd c <=? length data)%nat todo.

Definition exec (hash_order : list (Z * nat) -> list (Z * nat)) (c : cmd) (s : sys) : option sys :=
  m ← meta_json (up s);
  match c with
  | CPlan fid pn data todo =>
      if bool_decide (m_state m = Active) && (1 <=? pn) && (pn <=? MAX_PARTS_PER_UPLOAD)
         && (MAX_PARTS_PER_UPLOAD * blen data <=? u64_max) && bool_decide (flights s !! fid = None) && chunks_ofb data todo
      then
        let m2 := fst (promote_assumed pn (blen data) m) in
        let place := direct_offset pn (blen data) m2 in
        Some {| up := open_dest place pn [] (set_meta_json (Some m2) (up s));
                flights := <[fid := {| fl_pn := pn; fl_data := data; fl_place := place; fl_todo := todo;
                                       fl_renamed := false; fl_disturbed := busy pn (flights s); fl_dropped := false |}]>
                             (disturb pn <$> flights s);
                acked := acked s; troubled := {[pn]} ∪ troubled s |}
      else None
  | CWrite fid =>
      fl ← flights s !! fid;
      match fl_renamed fl, fl_todo fl with
      | false, (lo, hi) :: todo =>
          Some {| up := write_chunk fl (part_tmp_name (fl_pn fl)) lo hi (up s); flights := <[fid := after_chunk todo fl]> (flights s);
                  acked := acked s; troubled := troubled s |}
      | _, _ => None
      end
  | CRename fid =>
      fl ← flights s !! fid;
      t ← parts_dir (up s) !! part_tmp_name (fl_pn fl);
      match fl_dropped fl || fl_renamed fl, fl_place fl, fl_todo fl with
      | false, None, [] =>
          Some {| up := set_parts_dir (<[part_file_name (fl_pn fl) := t]> (delete (part_tmp_name (fl_pn fl))
                                         (parts_dir (up s)))) (up s);
                  flights := <[fid := after_rename fl]> (flights s); acked := acked s; troubled := troubled s |}
      | _, _, _ => None
      end
  | CRecord fid etag =>
      fl ← flights s !! fid;
      let p := {| part_size := blen (fl_data fl); part_etag := etag; part_last_modified := ""; part_stored := stored_as fl |} in
      match fl_todo fl, fl_place fl, fl_renamed fl with
      | [], None, false => None
      | [], _, _ =>
          if bool_decide (m_state m = Active) && negb (fl_dropped fl) then
            Some {| up := set_meta_json (Some (record_part hash_order (fl_pn fl) p m)) (up s);
                    flights := delete fid (flights s); acked := <[fl_pn fl := fl_data fl]> (acked s);
                    troubled := if fl_disturbed fl then troubled s else troubled s ∖ {[fl_pn fl]} |}
          else None
      | _, _, _ => None
      end
  | CDrop fid =>
      fl ← flights s !! fid;
      Some {| up := up s; flights := <[fid := after_drop fl]> (flights s); acked := acked s; troubled := troubled s |}
  | CForget fid =>
      fl ← flights s !! fid;
      if fl_dropped fl then Some {| up := up s; flights := delete fid (flights s); acked := acked s; troubled := troubled s |} else None
  end.

Definition exec_all (hash_order : list (Z * nat) -> list (Z * nat)) (cs : list cmd) (s : sys) : option sys :=
  foldl (fun os c => s ← os; exec hash_order c s) (Some s) cs.

Lemma chunks_ofb_ok data todo : chunks_ofb data todo = true -> chunks_of data todo.
Proof.
  unfold chunks_ofb. rewrite andb_true_iff, !forallb_forall. intros [Hc Hb]. split.
  - intros i Hi. specialize (Hc i). rewrite <- list_elem_of_In, elem_of_seq in Hc. specialize (Hc ltac:(lia)).
    apply existsb_exists in Hc as ([lo hi] & Hin & Hr). exists lo, hi. rewrite list_elem_of_In. split; [done|].
    apply andb_true_iff in Hr as [H1%Nat.leb_le H2%Nat.ltb_lt]. done.
  - apply list.Forall_forall. intros c Hc'. apply Nat.leb_le. apply Hb. by apply list_elem_of_In.
Qed.

Lemma exec_sound hash_order c s s' : exec hash_order c s = Some s' -> step hash_order s s'.
Proof.
  unfold exec. destruct (meta_json (up s)) as [m|] eqn:Em; [|done]. cbn [mbind option_bind].
  destruct c as [fid pn data todo|fid|fid|fid etag|fid|fid].
  - case_match eqn:Ec; [|done]. intros [= <-]. repeat (apply andb_true_iff in Ec as [Ec ?]).
    destruct (promote_assumed pn (blen data) m) as [m2 b] eqn:Ep. cbn [fst].
    apply (step_plan hash_order s fid pn data m m m2 b todo []); try done.
    + by apply bool_decide_eq_true in Ec.
    + lia.
    + split; [apply blen_nonneg|lia].
    + by eapply bool_decide_eq_true.
    + by apply chunks_ofb_ok.
    + by left.
  - destruct (flights s !! fid) as [fl|] eqn:Ef; [|done]. cbn [mbind option_bind].
    destruct (fl_renamed fl) eqn:Er; [done|]. destruct (fl_todo fl) as [|[lo hi] todo] eqn:Et; [done|]. intros [= <-].
    eapply step_write; [done..|by rewrite Et|by left].
  - destruct (flights s !! fid) as [fl|] eqn:Ef; [|done]. cbn [mbind option_bind].
    destruct (parts_dir (up s) !! _) as [t|] eqn:Et; [|done]. cbn [mbind option_bind].
    destruct (fl_dropped fl || fl_renamed fl) eqn:Er; [done|]. apply orb_false_iff in Er as [Ed Er]. destruct (fl_place fl) eqn:Ep; [done|].
    destruct (fl_todo fl) eqn:Eo; [|done]. intros [= <-]. eapply step_rename; try done. by left.
  - destruct (flights s !! fid) as [fl|] eqn:Ef; [|done]. cbn [mbind option_bind].
    destruct (fl_todo fl) eqn:Eo; [|done].
    assert (forall r, (if bool_decide (m_state m = Active) && negb (fl_dropped fl) then Some r else None) = Some s' ->
      m_state m = Active /\ fl_dropped fl = false /\ s' = r) as Hact.
    { intros r. case_bool_decide; [|done]. destruct (fl_dropped fl); [done|]. by intros [= <-]. }
    destruct (fl_place fl) eqn:Ep; [|destruct (fl_renamed fl) eqn:Er; [|done]];
      intros (? & ? & ->)%Hact; eapply step_record; try done; by rewrite Ep.
  - destruct (flights s !! fid) as [fl|] eqn:Ef; [|done]. cbn [mbind option_bind]. intros [= <-].
    eapply step_drop; [done|]. by left.
  - destruct (flights s !! fid) as [fl|] eqn:Ef; [|done]. cbn [mbind option_bind]. destruct (fl_dropped fl) eqn:Ed; [|done]. intros [= <-].
    by eapply step_forget.
Qed.

Lemma exec_all_sound hash_order cs s s' : exec_all hash_order cs s = Some s' -> rtc (step hash_order) s s'.
Proof.
  unfold exec_all. revert s. induction cs as [|c cs IH]; intros s; cbn [foldl]; [by intros [= <-]|].
  cbn [mbind option_bind]. destruct (exec hash_order c s) as [s1|] eqn:E.
  - intros H. eapply rtc_l; [by eapply exec_sound|]. by apply IH.
  - assert (forall cs, foldl (fun os c => s ← os; exec hash_order c s) None cs = None) as -> by (induction cs0; done). done.
Qed.

(** ** What clients get *)

Definition completes_ok (x : flow reply reply) : Prop :=
  exists location bucket key etag, x = Next (CompleteOk location bucket key etag) \/ x = Return (CompleteOk location bucket key etag).

Lemma ends_completes {x : flow reply reply} {st P} :
  ends (x, st) (on_success P) (on_success P) -> completes_ok x -> P st.
Proof. intros H (l & b & k & e & [-> | ->]); exact H. Qed.

(** In every reachable state of any number of concurrent part uploads (in
    any order and interleaving, chunks written in any order, requests failing
    or being dropped anywhere and their writes landing later, parts
    re-uploaded with other sizes), every part whose last upload was
    acknowledged and did not overlap with another one of it can be read back,
    byte for byte, where the metadata says it is. *)
Theorem acknowledged_parts_readable (hash_order : list (Z * nat) -> list (Z * nat)) (s0 s : sys) (pn : Z) (d : bytes) :
  (forall l, hash_order l ≡ₚ l) -> fresh_upload s0 -> rtc (step hash_order) s0 s -> acked s !! pn = Some d -> pn ∉ troubled s ->
  exists m p, meta_json (up s) = Some m /\ m_parts m !! pn = Some p /\ part_holds (up s) p d.
Proof.
  intros Hh Hf Hr Hd Hnt. destruct (inv_reachable hash_order Hh s0 s Hf Hr) as [(m & Hm & _ & _ & Hack) _ _].
  destruct (Hack pn d Hd Hnt) as (p & ? & ?). by exists m, p.
Qed.


(** ** A run *)
Definition demo_cfg : Config := {|
  posix_root := ["export"]; mpu_dir_name := ".s32p-mpu"; public_scheme := "https";
  stream_cfg := {| chunk_size := 4; inflight := 2; direct_io := false |} |}%string.

(** A reader of part lists written [2,1]. *)
Definition parts_reader (b : bytes) : list xml_event :=
  split "," (str_of b) ≫= (fun pn => [XStart "PartNumber"; XText (Ok pn); XEnd "PartNumber"]%string).

(** An environment in which everything works but for the sites [io'] decides. *)
Definition demo_env (io' : site -> io_answer) (app : site -> option object) : Env := {|
  cfg := demo_cfg; io := io'; kread := fun _ src => count_in src; kwrite := fun _ _ => Written;
  body_env := env_with Written; direct_supported := false; now_s3 := "now"%string;
  show_upload_error := fun _ => "upload error"%string; show_copy_error := fun _ => "copy error"%string;
  show_cond_error := fun _ => "bad condition"%string; show_util_error := fun _ => "bad value"%string;
  hash_order := id; new_ino := 7; new_mtime := 0; cross_device := false; copy_env := fun _ => env_with Written;
  appears := app; xml_reader := parts_reader; show_read_error := fun _ => "read error"%string; httpdate_parse := fun _ => None; percent_decode_utf8 := fun _ => None |}.

Definition no_headers : list (string * string) := [].
Definition demo_rq (hs : list (string * string)) (body : string) : request :=
  {| rq_headers := headers_of hs; rq_path := "/b/k"; rq_body := [Data (bytes_of body)] |}.
Definition demo_meta : UploadMeta := {|
  m_v := 1; m_bucket := "b"; m_key := "k"; m_upload_id := "U"; m_initiated := "now"; m_state := Active;
  assumed_part_size := None; total_size_hint := None; m_parts := ∅ |}%string.
Definition demo0 : sys := {|
  up := {| meta_json := Some demo_meta; direct_bin := None; parts_dir := ∅; complete_bin := None |};
  flights := ∅; acked := ∅; troubled := ∅ |}.
Definition demo_store (u : upload_fs) (objs : gmap (list string) object) : store := {|
  buckets := {["b"%string]}; mpu_roots := {["b"%string]}; uploads := {[("b", "U")%string := u]}; objects := objs |}.
Definition pa : bytes := bytes_of "hello ".
Definition pb : bytes := bytes_of "world".
(** Part 2 arrives first and is stored as a file, part 1 goes to [direct.bin];
    their writes interleave. *)
Definition demo_run : list cmd :=
  [CPlan 0 2 pb [(0, 5)]; CPlan 1 1 pa [(4, 6); (0, 4)]; CWrite 1; CWrite 0; CRename 0; CRecord 0 "e"; CWrite 1; CRecord 1 "e"]%nat%string.
Definition demo_sys : sys := default demo0 (exec_all id demo_run demo0).

Lemma demo_fresh : fresh_upload demo0.
Proof. exists demo_meta. by repeat split. Qed.

Lemma demo_reached : rtc (step id) demo0 demo_sys.
Proof.
  apply (exec_all_sound _ demo_run). unfold demo_sys. destruct (exec_all id demo_run demo0) eqn:E; [done|].
  exfalso. revert E. vm_compute. discriminate.
Qed.

Lemma acknowledged_parts_readable_witness :
  exists m p, meta_json (up demo_sys) = Some m /\ m_parts m !! 1 = Some p /\ part_holds (up demo_sys) p pa.
Proof.
  apply (acknowledged_parts_readable id demo0 demo_sys 1 pa); [done|exact demo_fresh|exact demo_reached|vm_compute; reflexivity|].
  vm_compute. intros H. inversion H.
Defined.

Definition all_succeed : site -> io_answer := fun _ => Succeeds.
Definition quiet : site -> option object := fun _ => None.
Definition complete_run (io' : site -> io_answer) (app : site -> option object) (hs : list (string * string))
    (pns : list string) (st : store) : flow reply reply * store :=
  @handle_complete (demo_env io' app) (demo_rq hs (join "," pns)) "b" "k" "U" st.


(** ** Where acknowledged data is not safe *)

Definition content_at_k (st : store) : option bytes := content <$> objects st !! ["export"; "b"; "k"]%string.
Definition succeeded (x : flow reply reply) : bool :=
  match x with Next (CompleteOk _ _ _ _) | Return (CompleteOk _ _ _ _) => true | _ => false end.
Definition refused_with (status : Z) (x : flow reply reply) : bool :=
  match x with Next (Refused r) | Return (Refused r) => resp_status r =? status | _ => false end.

Definition four (c : ascii) : bytes := replicate 4 c.
Definition halves : list (nat * nat) := [(0, 2); (2, 4)]%nat.
(** Part 1 is uploaded and acknowledged; a second upload of it writes half of
    its data and is dropped. *)
Definition retry_run : list cmd :=
  [CPlan 0 1 (four "a") halves; CWrite 0; CWrite 0; CRecord 0 "e"; CPlan 1 1 (four "b") halves; CWrite 1; CDrop 1; CForget 1]%nat%string.
(** Two uploads of part 1 at the same time, both acknowledged. *)
Definition mixed_run : list cmd :=
  [CPlan 0 1 (four "a") halves; CPlan 1 1 (four "b") halves; CWrite 0; CWrite 1; CWrite 1; CWrite 0;
   CRecord 0 "e"; CRecord 1 "e"]%nat%string.
Definition run_sys (cs : list cmd) : sys := default demo0 (exec_all id cs demo0).

Lemma run_reached cs : is_Some (exec_all id cs demo0) -> rtc (step id) demo0 (run_sys cs).
Proof. intros [s Hs]. unfold run_sys. rewrite Hs. by apply (exec_all_sound _ cs). Qed.

(** Parts are overwritten in place in [direct.bin], so an acknowledged part
    does not survive a second upload of it: after a retry that failed half
    way, and after two concurrent uploads that were both acknowledged, the
    completion succeeds and stores a mixture of the two bodies. *)
Theorem reupload_mixes_bodies :
  rtc (step id) demo0 (run_sys retry_run) /\ flights (run_sys retry_run) = ∅ /\
  rtc (step id) demo0 (run_sys mixed_run) /\ flights (run_sys mixed_run) = ∅ /\
  forall run, run = retry_run \/ run = mixed_run ->
    let '(x, st) := complete_run all_succeed quiet [] ["1"]%string (demo_store (up (run_sys run)) ∅) in
    succeeded x = true /\ content_at_k st = Some (bytes_of "bbaa").
Proof.
  split_and!.
  - apply run_reached. eexists. vm_compute. reflexivity.
  - vm_compute. reflexivity.
  - apply run_reached. eexists. vm_compute. reflexivity.
  - vm_compute. reflexivity.
  - intros run [-> | ->]; vm_compute; done.
Qed.

(** Parts 1 and 2 of six bytes, both in [direct.bin]. *)
Definition two_run : list cmd :=
  [CPlan 0 1 pa [(0, 6)]; CWrite 0; CRecord 0 "e"; CPlan 0 2 pa [(0, 6)]; CWrite 0; CRecord 0 "e"]%nat%string.
Definition two_store (objs : gmap (list string) object) : store := demo_store (up (run_sys two_run)) objs.
Definition other : object := {| content := bytes_of "other"; ino := 9; mtime := 0 |}.

(** A completion that is refused because of the parts it lists leaves the
    upload in the state [Completing]: the missing part can no longer be
    uploaded, and the parts that are there can no longer be completed; both
    answer 409. *)
Theorem rejected_completion_wedges :
  let '(x1, st1) := complete_run all_succeed quiet [] ["1"; "2"; "3"]%string (two_store ∅) in
  refused_with 400 x1 = true /\
  refused_with 409 (fst (complete_run all_succeed quiet [] ["1"; "2"]%string st1)) = true /\
  refused_with 409 (fst (@handle_upload_part (demo_env all_succeed quiet) (demo_rq [("content-length", "6")]%string "")
                           "b" "k" "U" 3 st1)) = true.
Proof. vm_compute. done. Qed.

(** A conditional completion that loses its race cuts [direct.bin] before it
    finds out: listing part 1 of two with [If-None-Match: *] answers 412 and
    gives the upload back, but part 2 is gone; completing both parts then
    succeeds and stores zeros in its place. *)
Theorem lost_race_zeroes_later_parts :
  let '(x1, st1) := complete_run all_succeed (fun s => match s with RenameDirect => Some other | _ => None end)
                      [("if-none-match", "*")]%string ["1"]%string (two_store ∅) in
  let '(x2, st2) := complete_run all_succeed quiet [] ["1"; "2"]%string st1 in
  refused_with 412 x1 = true /\ succeeded x2 = true /\ content_at_k st2 = Some (pa ++ zeros 6).
Proof. vm_compute. done. Qed.

(** The fallback removes the destination before it commits: when the
    final rename fails, the completion answers 500 and the object that was
    there before is gone. *)
Theorem failed_commit_loses_object :
  let old := {[ ["export"; "b"; "k"]%string := other ]} in
  let '(x, st) := complete_run (fun s => match s with RenameDirect | RenameStaging => Fails "EIO" | _ => Succeeds end)
                    quiet [] ["1"; "2"]%string (two_store old) in
  content_at_k (two_store old) = Some (bytes_of "other") /\ refused_with 500 x = true /\ content_at_k st = None.
Proof. vm_compute. done. Qed.

(** ** Aborting *)

(** What [AbortMultipartUpload] removes.  With the name of an upload it
    removes that upload and nothing else, whichever bucket key the request
    names; the names [.] and [..] pass [sanitize_upload_id] too, and remove
    every upload of the bucket. *)
Theorem abort_removes `{E : Env} (rq : request) (bucket key upload_id : string) (root : list string) (st : store) :
  key <> ""%string -> bucket_root_path (posix_root cfg) bucket = Ok root ->
  sanitize_upload_id upload_id = Ok tt -> dir_exists bucket upload_id st = true -> io RemoveUploadDir = Succeeds ->
  exists st', handle_abort rq bucket key upload_id st = (Next AbortNoContent, st') /\
    objects st' = objects st /\
    forall b id, uploads st' !! (b, id) =
      (if bool_decide (b = bucket /\ (id = upload_id \/ dot_name upload_id = true)) then None else uploads st !! (b, id)).
Proof.
  intros Hk Hr Hs Hd Hio. unfold handle_abort, check_upload_id, find_upload. rewrite Hs, Hr, Hio.
  assert (bucket <> ""%string) as Hb.
  { intros ->. unfold bucket_root_path, join_object_path in Hr. cbn in Hr. done. }
  rewrite (proj2 (is_empty_false bucket)), (proj2 (is_empty_false key)) by done.
  unfold mbind, handler_bind, refuse_if, mret, handler_ret, get, modify. cbn. rewrite Hd. cbn.
  eexists. split; [done|]. unfold remove_upload_dir. destruct (dot_name upload_id) eqn:Edot; cbn.
  - split; [done|]. intros b id. case_bool_decide as Hc.
    + destruct Hc as [-> _]. apply map_lookup_filter_None. right. intros u Hu. cbn. tauto.
    + destruct (uploads st !! (b, id)) as [u|] eqn:Eu.
      * apply map_lookup_filter_Some. split; [done|]. cbn. intros ->. apply Hc. auto.
      * apply map_lookup_filter_None. by left.
  - split; [done|]. intros b id. case_bool_decide as Hc.
    + destruct Hc as [-> [-> |?]]; [|done]. by rewrite lookup_delete_eq.
    + rewrite lookup_delete_ne; [done|]. intros [= <- <-]. apply Hc. auto.
Qed.

Lemma abort_removes_witness :
  exists st', @handle_abort (demo_env all_succeed quiet) (demo_rq [] "") "b" "k" ".." (two_store ∅) = (Next AbortNoContent, st') /\
    objects st' = objects (two_store ∅) /\
    forall b id, uploads st' !! (b, id) =
      (if bool_decide (b = "b"%string /\ (id = ".."%string \/ dot_name ".." = true)) then None
       else uploads (two_store ∅) !! (b, id)).
Proof.
  apply (@abort_removes (demo_env all_succeed quiet) (demo_rq [] "") "b" "k" ".." ["export"; "b"]%string (two_store ∅));
    done.
Defined.
