(* ===== verification/UploadRefinement.v ===== *)
(** * [handle_upload_part] follows the step relation

    A part upload that the handler acknowledges is a run of the steps of
    [PartUploads]: one plan, writes, perhaps a rename, one record.  What is
    proved of every interleaving of steps so holds of the handler's runs. *)

From Stdlib Require Import ZArith Lia Ascii.
From stdpp Require Import base list list_numbers strings numbers option gmap sorting relations.
From S2P Require Import Prelude RustStr Http Utils Preconditions UriEncoding S3Resp S3Xml Bytes FsHelpers Handler Streaming PayloadSource Upload Copy GatewayHelpers Multipart Completion PartUploads.

Local Open Scope Z_scope.
Local Arguments part_file_name : simpl never.
Local Arguments part_tmp_name : simpl never.

(** The payload a request body carries. *)
Definition body_payload (rq : request) (is_aws_chunked : bool) : bytes :=
  if is_aws_chunked then payload (AwsChunked.new (rq_body rq)) else payload (Plain.new (rq_body rq)).

Section Refinement.
Context {E : Env}.

(** A body that was written without error has been written whole. *)
Lemma upload_body_ok rq c dest f0 len conf f :
  no_cancel body_env -> 0 < chunk_size conf -> 0 <= len <= i64_max ->
  (match dest with DestFile off => 0 <= off | DestPath => True end) ->
  write_body rq c dest f0 len conf = (Returned (Ok tt), f) ->
  len <= blen (body_payload rq c) /\ f = stored dest f0 (take (Z.to_nat len) (body_payload rq c)).
Proof.
  intros Hnc Hch Hlen Hd Hw. unfold write_body, body_payload in *.
  destruct c; (apply write_object_body_stored in Hw; [done| |done|done|done|done]); intros H; discriminate H.
Qed.

Context (no_cancel_env : no_cancel body_env) (chunk_pos : 0 < chunk_size (stream_cfg cfg)).
Context (hash_perm : forall l, hash_order l ≡ₚ l).

(** The state after an acknowledged upload of [data] as part [pn]. *)
Definition after_upload (s : sys) (pn : Z) (data : bytes) (u : upload_fs) : sys := {|
  up := u; flights := disturb pn <$> flights s;
  acked := <[pn := data]> (acked s);
  troubled := if busy pn (flights s) then {[pn]} ∪ troubled s else ({[pn]} ∪ troubled s) ∖ {[pn]} |}.

Definition whole_chunk (data : bytes) : list (nat * nat) := [(0, length data)]%nat.

Lemma whole_chunk_ok data : chunks_of data (whole_chunk data).
Proof.
  split; [|by repeat constructor]. intros i Hi. exists 0%nat, (length data). split; [by left|lia].
Qed.

(** The flight a plan creates, and the directory after its only write. *)
Definition planned (s : sys) (pn : Z) (data : bytes) (m2 : UploadMeta) : flight := {|
  fl_pn := pn; fl_data := data; fl_place := direct_offset pn (blen data) m2; fl_todo := whole_chunk data;
  fl_renamed := false; fl_disturbed := busy pn (flights s); fl_dropped := false |}.
Definition directory_after (pn : Z) (data : bytes) (m2 : UploadMeta) (u : upload_fs) : upload_fs :=
  match direct_offset pn (blen data) m2 with
  | Some off => set_direct_bin (Some (write_at (default [] (direct_bin u)) off data)) (set_meta_json (Some m2) u)
  | None => set_parts_dir (<[part_file_name pn := data]> (delete (part_tmp_name pn) (parts_dir u))) (set_meta_json (Some m2) u)
  end.

Lemma rtc_once_eq {A} (R : relation A) x y z : R x y -> y = z -> rtc R x z.
Proof. intros ? <-. by apply rtc_once. Qed.

(** Planning, writing and recording, as steps. *)
Lemma upload_steps s fid pn data m m2 b p u' :
  meta_json (up s) = Some m -> m_state m = Active -> 1 <= pn <= MAX_PARTS_PER_UPLOAD -> size_ok (blen data) ->
  flights s !! fid = None -> promote_assumed pn (blen data) m = (m2, b) -> m_state m2 = Active ->
  part_size p = blen data -> part_stored p = stored_as (planned s pn data m2) ->
  u' = set_meta_json (Some (record_part hash_order pn p m2)) (directory_after pn data m2 (up s)) ->
  rtc (step hash_order) s (after_upload s pn data u').
Proof.
  intros Hm Hact Hpn Hsz Hfid Hpr Hact2 Hps Hst ->.
  eapply rtc_l. { eapply (step_plan _ s fid pn data m m m2 b (whole_chunk data) []); eauto using whole_chunk_ok. }
  set (fl := planned s pn data m2).
  eapply rtc_l.
  { eapply (step_write _ _ fid fl 0 (length data) []); cbn; [by rewrite lookup_insert_eq|done|done|by left]. }
  cbn [up flights acked troubled]. rewrite insert_insert_eq.
  assert (take (length data - 0) (drop 0 data) = data) as Hall by (rewrite drop_0, Nat.sub_0_r; by apply take_ge).
  unfold directory_after. change (fl_place fl) with (direct_offset pn (blen data) m2).
  destruct (direct_offset pn (blen data) m2) as [off|] eqn:Eo.
  - eapply rtc_once_eq.
    { eapply (step_record _ _ fid (after_chunk [] fl) m2 p); cbn; try done.
      - by rewrite lookup_insert_eq.
      - by rewrite Eo.
      - unfold write_chunk. cbn. by rewrite Eo. }
    unfold after_upload. f_equal.
    + unfold write_chunk. cbn. rewrite Eo, Hall, Z.add_0_r. done.
    + cbn. rewrite delete_insert_id; [done|]. by rewrite lookup_fmap, Hfid.
  - eapply rtc_l.
    { eapply (step_rename _ _ fid (after_chunk [] fl) data data); cbn; try done; [by rewrite lookup_insert_eq| |by left].
      unfold write_chunk. cbn. rewrite Eo. cbn. rewrite lookup_alter_eq, lookup_insert_eq. cbn. rewrite Hall.
      f_equal. destruct data; [done|]. unfold write_at. cbn. by rewrite drop_nil, app_nil_r. }
    cbn [up flights acked troubled]. rewrite insert_insert_eq.
    eapply rtc_once_eq.
    { eapply (step_record _ _ fid (after_rename (after_chunk [] fl)) m2 p); cbn; try done.
      - by rewrite lookup_insert_eq.
      - unfold write_chunk. cbn. by rewrite Eo. }
    unfold after_upload. f_equal.
    + unfold write_chunk. cbn. rewrite Eo. unfold set_meta_json, set_parts_dir. cbn. by rewrite delete_alter_eq, delete_insert_eq.
    + cbn. rewrite delete_insert_id; [done|]. by rewrite lookup_fmap, Hfid.
Qed.

(** What a reply to a part upload may claim. *)
Definition on_ack (P : store -> Prop) (r : reply) (st : store) : Prop :=
  match r with UploadPartOk _ => P st | _ => True end.

Lemma ack_refuse_if b r st (Q : unit -> store -> Prop) P :
  (b = false -> Q tt st) -> ends (refuse_if b r st) Q (on_ack P).
Proof. unfold refuse_if. destruct b; cbn; auto. Qed.

Definition acked_upload (s : sys) (bucket upload_id : string) (pn : Z) (data : bytes) (st : store) : Prop :=
  exists u, uploads st !! (bucket, upload_id) = Some u /\ rtc (step hash_order) s (after_upload s pn data u).

(** Phase 3 on a directory whose metadata is [m2]. *)
Lemma finish_part_post rq bucket upload_id pn p e u m2 st (P : store -> Prop) :
  upload_at bucket upload_id st u -> meta_json u = Some m2 ->
  (m_state m2 = Active -> forall st', upload_at bucket upload_id st' (set_meta_json (Some (record_part hash_order pn p m2)) u) -> P st') ->
  ends (finish_part rq bucket upload_id pn p (UploadPartOk e) st) (on_ack P) (on_ack P).
Proof.
  intros Hu Hm HP. unfold finish_part, Multipart.sys. rewrite ends_bind. destruct (succeeds (io LockAgain)); [rewrite ends_ret|done].
  rewrite ends_bind. unfold read_meta. rewrite ends_get, Hu. cbn [mbind option_bind]. rewrite Hm.
  rewrite ends_bind. apply ack_refuse_if. intros Ha%negb_false_iff%bool_decide_eq_true. rewrite ends_bind.
  unfold write_meta, Multipart.sys. rewrite ends_bind. destruct (succeeds (io WriteMetaRecord)); [rewrite ends_ret|done].
  apply (post_update _ _ _ _ u); [done|]. intros st' Hu' _. rewrite ends_ret. by apply HP.
Qed.

(** Phase 1: the metadata on disk is the planned one. *)
Lemma plan_part_post rq bucket key upload_id pn len u m st (Q : option Z -> store -> Prop) P :
  upload_at bucket upload_id st u -> meta_json u = Some m ->
  (m_state m = Active -> forall m2 b st', promote_assumed pn len m = (m2, b) ->
     upload_at bucket upload_id st' (set_meta_json (Some m2) u) -> Q (direct_offset pn len m2) st') ->
  ends (plan_part rq bucket key upload_id pn len st) Q (on_ack P).
Proof.
  intros Hu Hm HQ. unfold plan_part, lock_and_read, Multipart.sys. rewrite ends_bind, ends_bind.
  destruct (succeeds (io Lock)); [rewrite ends_ret|done]. rewrite ends_bind. unfold read_meta.
  rewrite ends_get, Hu. cbn [mbind option_bind]. rewrite Hm. destruct (_ || _); [done|]. rewrite ends_ret.
  rewrite ends_bind. apply ack_refuse_if. intros Ha%negb_false_iff%bool_decide_eq_true.
  destruct (promote_assumed pn len m) as [m2 b] eqn:Ep. rewrite ends_bind. destruct b.
  - unfold write_meta, Multipart.sys. rewrite ends_bind. destruct (succeeds (io WriteMetaPlan)); [rewrite ends_ret|done].
    apply (post_update _ _ _ _ u); [done|]. intros st' Hu' _. rewrite ends_ret. by eapply HQ.
  - rewrite !ends_ret. eapply HQ; [done|done|].
    assert (m2 = m) as ->. { unfold promote_assumed in Ep. repeat case_match; by simplify_eq. }
    rewrite <- Hm. unfold upload_at in *. rewrite Hu. by destruct u.
Qed.

(** Phase 2 in place: the payload is at its offset of [direct.bin]. *)
Lemma write_direct_post rq bucket upload_id c off len u st (Q : unit -> store -> Prop) P :
  upload_at bucket upload_id st u -> 0 <= off -> 0 <= len <= i64_max ->
  (len <= blen (body_payload rq c) -> forall st', upload_at bucket upload_id st'
     (set_direct_bin (Some (write_at (default [] (direct_bin u)) off (take (Z.to_nat len) (body_payload rq c)))) u) ->
   Q tt st') ->
  ends (write_direct rq bucket upload_id c off len st) Q (on_ack P).
Proof.
  intros Hu Hoff Hlen HQ. unfold write_direct, Multipart.sys. rewrite ends_bind.
  destruct (succeeds (io OpenDirectBin)); [rewrite ends_ret|done]. rewrite ends_bind, ends_get.
  rewrite (upload_of_at _ _ _ _ Hu). destruct (write_body _ _ _ _ _ _) as [r f] eqn:Ew. rewrite ends_bind.
  apply (post_update _ _ _ _ u); [done|]. intros st2 Hu2 _. destruct r as [[[]|e|]|]; try done. rewrite ends_ret.
  apply upload_body_ok in Ew as [Hle ->]; [|done|done|done|done]. by apply HQ.
Qed.

Lemma remove_tmp_refuse bucket upload_id tmp r st (Q : unit -> store -> Prop) P :
  ends ((_ ← remove_tmp bucket upload_id tmp; refuse r) st) Q (on_ack P).
Proof. rewrite ends_bind. unfold remove_tmp. destruct (succeeds _); exact I. Qed.

(** Phase 2 as a file of its own: the payload is the part's file. *)
Lemma write_part_file_post rq bucket upload_id c pn len u st (Q : unit -> store -> Prop) P :
  upload_at bucket upload_id st u -> 0 <= len <= i64_max ->
  (len <= blen (body_payload rq c) -> forall st', upload_at bucket upload_id st'
     (set_parts_dir (<[part_file_name pn := take (Z.to_nat len) (body_payload rq c)]>
                       (delete (part_tmp_name pn) (parts_dir u))) u) -> Q tt st') ->
  ends (write_part_file rq bucket upload_id c pn len st) Q (on_ack P).
Proof.
  intros Hu Hlen HQ. unfold write_part_file. rewrite ends_bind, ends_get.
  destruct (write_body _ _ _ _ _ _) as [r f] eqn:Ew. rewrite ends_bind.
  destruct (open_ok body_env) eqn:Eopen.
  2:{ rewrite ends_ret. destruct r as [[[]|e|]|]; try done; [|apply remove_tmp_refuse].
      exfalso. unfold write_body, write_object_body in Ew. rewrite Eopen in Ew. by destruct c. }
  apply (post_update _ _ _ _ u); [done|]. intros st2 Hu2 _.
  destruct r as [[[]|e|]|]; try done; [|apply remove_tmp_refuse].
  apply upload_body_ok in Ew as [Hle ->]; [|done..].
  unfold rename_part. destruct (succeeds (io RenamePart)); [|apply remove_tmp_refuse].
  eapply post_update; [exact Hu2|]. intros st3 Hu3 _. cbn in Hu3. rewrite lookup_insert_eq in Hu3.
  apply HQ; [done|]. revert Hu3. unfold set_parts_dir. cbn. by rewrite delete_insert_eq.
Qed.

End Refinement.

(** ** Witness: part 1 of a new upload *)
Definition part1_rq : request :=
  {| rq_headers := headers_of [("content-length", "6")]%string; rq_path := "/b/k"%string;
     rq_body := [Data (take 2 pa); Data (drop 2 pa)] |}.

