(* ===== verification/Uring.v ===== *)
(** * s32p-gateway/src/uring_io.rs: completion of an upload session

    [SessionInner] counts the operations of one sender that are in flight and
    reports the end of the session once, through a oneshot channel.  Its
    methods run on two threads: the request task (submit, close, wait) and
    the io_uring thread (completions).  The model interleaves their atomic
    steps: one load, store or mutex section each. *)

From Stdlib Require Import ZArith Lia.
From stdpp Require Import base list strings numbers option.
From S2P Require Import Prelude.

Local Open Scope Z_scope.

(** [SessionInner]; [done] says whether the oneshot sender is still there, and
    [sent] is what went through it. *)
Record SessionInner := {
  pending : Z;
  closed : bool;
  err : option string;
  done : bool;
  cancel : bool;
  sent : option (option string);
}.

Definition new_session : SessionInner := {|
  pending := 0; closed := false; err := None; done := true; cancel := false; sent := None |}.

(** ** The atomic steps of the methods *)
Definition on_submit (s : SessionInner) : SessionInner := {|
  pending := wrap64 (pending s + 1); closed := closed s; err := err s; done := done s;
  cancel := cancel s; sent := sent s |}.

(** [pending.fetch_sub(1)]: the new state and [prev <= 1] *)
Definition fetch_sub (s : SessionInner) : SessionInner * bool :=
  ({| pending := wrap64 (pending s - 1); closed := closed s; err := err s; done := done s;
      cancel := cancel s; sent := sent s |}, pending s <=? 1).

Definition swap_closed (s : SessionInner) : SessionInner := {|
  pending := pending s; closed := true; err := err s; done := done s; cancel := cancel s; sent := sent s |}.

Definition set_error_once (e : string) (s : SessionInner) : SessionInner :=
  match err s with
  | None => {| pending := pending s; closed := closed s; err := Some e; done := done s;
               cancel := true; sent := sent s |}
  | Some _ => s
  end.

(** [done.lock().unwrap().take()] *)
Definition take_done (s : SessionInner) : SessionInner * bool :=
  ({| pending := pending s; closed := closed s; err := err s; done := false;
      cancel := cancel s; sent := sent s |}, done s).

(** [err.lock().unwrap().take()] and [tx.send(res)] *)
Definition take_err_send (s : SessionInner) : SessionInner := {|
  pending := pending s; closed := closed s; err := None; done := done s; cancel := cancel s;
  sent := Some (err s) |}.

(** Where a thread is inside [try_finish]: before the load of [closed], of
    [pending], before taking [done], before taking [err] and sending. *)
Inductive tf_pc := LoadClosed | LoadPending | TakeDone | TakeErr.

(** One step of [try_finish]; [None] is its return. *)
Definition tf_step (pc : tf_pc) (s : SessionInner) : SessionInner * option tf_pc :=
  match pc with
  | LoadClosed => (s, if closed s then Some LoadPending else None)
  | LoadPending => (s, if pending s =? 0 then Some TakeDone else None)
  | TakeDone => let '(s, was) := take_done s in (s, if was then Some TakeErr else None)
  | TakeErr => (take_err_send s, None)
  end.

(** ** The two threads *)
Inductive req_pc :=
| Running                 (* between calls, not closed *)
| Submitted               (* after [on_submit], before the channel send *)
| SendFailed              (* the send failed: about to record the error *)
| DroppingOp              (* about to [fetch_sub] the operation never queued *)
| ReqFinishing (ret_closed : bool) (pc : tf_pc)
| Closed.                 (* after [close]; [wait] and [drop] close again *)

Inductive io_pc :=
| Idle
| Failing (e : string)    (* a completion with an error: about to record it *)
| Completing              (* about to [fetch_sub] *)
| IoFinishing (pc : tf_pc).

(** [ring]: operations queued or in the ring; [leaked] and [failures] are
    ghost: submissions abandoned between [on_submit] and the send, and the
    errors in the order they were recorded. *)
Record sys := {
  sess : SessionInner;
  req : req_pc;
  io : io_pc;
  ring : Z;
  leaked : Z;
  failures : list string;
}.

Definition init : sys := {| sess := new_session; req := Running; io := Idle; ring := 0; leaked := 0; failures := [] |}.

Definition after_req (ret_closed : bool) (o : option tf_pc) : req_pc :=
  match o with
  | Some pc => ReqFinishing ret_closed pc
  | None => if ret_closed then Closed else Running
  end.
Definition after_io (o : option tf_pc) : io_pc :=
  match o with Some pc => IoFinishing pc | None => Idle end.

(** What [write] and [read] call "uring io thread stopped". *)
Definition stopped : string := "uring io thread stopped"%string.

Inductive step : sys -> sys -> Prop :=
(* the request task: [write] / [read] *)
| step_submit s i r l f : step {| sess := s; req := Running; io := i; ring := r; leaked := l; failures := f |}
    {| sess := on_submit s; req := Submitted; io := i; ring := r; leaked := l; failures := f |}
| step_enqueue s i r l f : step {| sess := s; req := Submitted; io := i; ring := r; leaked := l; failures := f |}
    {| sess := s; req := Running; io := i; ring := r + 1; leaked := l; failures := f |}
| step_send_err s i r l f : step {| sess := s; req := Submitted; io := i; ring := r; leaked := l; failures := f |}
    {| sess := s; req := SendFailed; io := i; ring := r; leaked := l; failures := f |}
| step_record_stopped s i r l f : step {| sess := s; req := SendFailed; io := i; ring := r; leaked := l; failures := f |}
    {| sess := set_error_once stopped s; req := DroppingOp; io := i; ring := r; leaked := l;
       failures := f ++ [stopped] |}
| step_drop_op s i r l f : step {| sess := s; req := DroppingOp; io := i; ring := r; leaked := l; failures := f |}
    {| sess := fst (fetch_sub s);
       req := if snd (fetch_sub s) then ReqFinishing false LoadClosed else Running;
       io := i; ring := r; leaked := l; failures := f |}
(* the future is dropped by [select!] while the send is pending *)
| step_abandon s i r l f : step {| sess := s; req := Submitted; io := i; ring := r; leaked := l; failures := f |}
    {| sess := s; req := Running; io := i; ring := r; leaked := l + 1; failures := f |}
(* [close], also from [wait] and [drop] *)
| step_close s i r l f q : q = Running \/ q = Closed ->
    step {| sess := s; req := q; io := i; ring := r; leaked := l; failures := f |}
    {| sess := swap_closed s; req := ReqFinishing true LoadClosed; io := i; ring := r; leaked := l; failures := f |}
| step_req_finish s i r l f b pc :
    step {| sess := s; req := ReqFinishing b pc; io := i; ring := r; leaked := l; failures := f |}
    {| sess := fst (tf_step pc s); req := after_req b (snd (tf_step pc s)); io := i; ring := r; leaked := l;
       failures := f |}
(* the io_uring thread: [reap_all], [fail_item] *)
| step_cqe_ok s q r l f : 0 < r -> step {| sess := s; req := q; io := Idle; ring := r; leaked := l; failures := f |}
    {| sess := s; req := q; io := Completing; ring := r - 1; leaked := l; failures := f |}
| step_cqe_err s q r l f e : 0 < r -> step {| sess := s; req := q; io := Idle; ring := r; leaked := l; failures := f |}
    {| sess := s; req := q; io := Failing e; ring := r - 1; leaked := l; failures := f |}
| step_record_err s q r l f e : step {| sess := s; req := q; io := Failing e; ring := r; leaked := l; failures := f |}
    {| sess := set_error_once e s; req := q; io := Completing; ring := r; leaked := l; failures := f ++ [e] |}
| step_complete s q r l f : step {| sess := s; req := q; io := Completing; ring := r; leaked := l; failures := f |}
    {| sess := fst (fetch_sub s); req := q; io := if snd (fetch_sub s) then IoFinishing LoadClosed else Idle;
       ring := r; leaked := l; failures := f |}
| step_io_finish s q r l f pc :
    step {| sess := s; req := q; io := IoFinishing pc; ring := r; leaked := l; failures := f |}
    {| sess := fst (tf_step pc s); req := q; io := after_io (snd (tf_step pc s)); ring := r; leaked := l;
       failures := f |}.

(** The system as run: fewer than [2^63] operations are ever in flight. *)
Inductive reachable : sys -> Prop :=
| reach_init : reachable init
| reach_step s s' : reachable s -> step s s' -> ring s' + leaked s' < 2 ^ 63 -> reachable s'.

(** ** The invariant *)
Definition req_holds (q : req_pc) : Z :=
  match q with Submitted | SendFailed | DroppingOp => 1 | _ => 0 end.
Definition io_holds (i : io_pc) : Z :=
  match i with Failing _ | Completing => 1 | _ => 0 end.
Definition req_open (q : req_pc) : bool :=
  match q with Running | Submitted | SendFailed | DroppingOp | ReqFinishing false _ => true | _ => false end.
Definition req_tf (q : req_pc) : option tf_pc := match q with ReqFinishing _ pc => Some pc | _ => None end.
Definition io_tf (i : io_pc) : option tf_pc := match i with IoFinishing pc => Some pc | _ => None end.

Definition past_closed (o : option tf_pc) : bool :=
  match o with Some LoadClosed | None => false | _ => true end.
Definition past_pending (o : option tf_pc) : bool :=
  match o with Some TakeDone | Some TakeErr => true | _ => false end.
Definition at_send (o : option tf_pc) : bool := match o with Some TakeErr => true | _ => false end.
Definition will_take (o : option tf_pc) : bool :=
  match o with Some LoadClosed | Some LoadPending | Some TakeDone => true | _ => false end.

Record sys_inv (s : sys) : Prop := {
  inv_counts : pending (sess s) = ring s + leaked s + req_holds (req s) + io_holds (io s);
  inv_ring : 0 <= ring s /\ 0 <= leaked s /\ ring s + leaked s < 2 ^ 63;
  inv_closed : closed (sess s) = negb (req_open (req s));
  inv_past_closed : past_closed (req_tf (req s)) = true \/ past_closed (io_tf (io s)) = true ->
    closed (sess s) = true;
  inv_past_pending : past_pending (req_tf (req s)) = true \/ past_pending (io_tf (io s)) = true ->
    pending (sess s) = 0;
  inv_done : done (sess s) = true <->
    sent (sess s) = None /\ at_send (req_tf (req s)) = false /\ at_send (io_tf (io s)) = false;
  inv_one_sender : at_send (req_tf (req s)) = true -> at_send (io_tf (io s)) = true -> False;
  inv_sender_unsent : at_send (req_tf (req s)) = true \/ at_send (io_tf (io s)) = true ->
    sent (sess s) = None;
  inv_sent : sent (sess s) <> None -> closed (sess s) = true /\ pending (sess s) = 0;
  inv_err : match sent (sess s) with
            | None => err (sess s) = head (failures s)
            | Some r => r = head (failures s)
            end;
  inv_wakeup : closed (sess s) = true -> done (sess s) = true ->
    0 < pending (sess s) \/ will_take (req_tf (req s)) = true \/ will_take (io_tf (io s)) = true;
}.

Lemma wrap_small n : 0 <= n < 2 ^ 64 -> wrap64 n = n.
Proof. intros. apply wrap64_id. unfold is_u64, u64_max. lia. Qed.

Lemma head_snoc {A} (l : list A) x : head (l ++ [x]) = match head l with Some y => Some y | None => Some x end.
Proof. by destruct l. Qed.

Lemma sys_inv_init : sys_inv init.
Proof. split; cbn; try done; lia. Qed.

Lemma past_pending_closed o : past_pending o = true -> past_closed o = true.
Proof. by destruct o as [[]|]. Qed.

Ltac light := try tauto; try lia; try congruence.
Ltac solve_inv :=
  split; cbn; rewrite ?wrap_small by lia; light;
  repeat match goal with |- context [if ?b then _ else _] => destruct b eqn:?; cbn end;
  reflect_all; light; try (intuition (congruence || lia)).

Lemma sys_inv_step s s' : sys_inv s -> step s s' -> ring s' + leaked s' < 2 ^ 63 -> sys_inv s'.
Proof.
  intros Hinv Hstep Hbound. destruct Hinv as [Hc Hr Hcl Hpc Hpp Hd H1 Hsu Hs He Hw].
  assert (forall i, 0 <= io_holds i <= 1) as Hio by (intros []; cbn; lia).
  assert (forall q, 0 <= req_holds q <= 1) as Hrq by (intros []; cbn; lia).
  destruct Hstep as [| | | | | |?????? [-> | ->]| | | | | |];
    destruct s as [p c e' d k st]; cbn in *;
    try (pose proof (Hio i); pose proof (past_pending_closed (io_tf i)));
    try (pose proof (Hrq q); pose proof (past_pending_closed (req_tf q))); clear Hio Hrq.
  all: try destruct b.
  all: try solve [solve_inv].
  1,4: destruct st as [r0|]; [destruct Hs as [_ ?]; [done|lia]|];
       destruct e' as [e0|]; cbn; split; cbn; rewrite ?head_snoc, <- ?He; light; intuition (congruence || lia).
  all: destruct pc; [solve_inv..|rewrite Hsu in * by tauto; solve_inv].
Qed.

Lemma reachable_inv s : reachable s -> sys_inv s.
Proof. induction 1; eauto using sys_inv_init, sys_inv_step. Qed.

(** ** Properties *)

(** The session answers truthfully: in every interleaving of the request
    task and the io_uring thread, when the oneshot has been answered the
    session is closed, no operation is pending anywhere, and the answer is
    [Ok] exactly when no operation failed, and otherwise the first error
    recorded; and it is answered at most once (the sender is gone). *)
Theorem session_answer_truthful (s : sys) (r : option string) :
  reachable s -> sent (sess s) = Some r ->
  r = head (failures s) /\ closed (sess s) = true /\ done (sess s) = false /\
  ring s = 0 /\ leaked s = 0 /\ req_holds (req s) = 0 /\ io_holds (io s) = 0.
Proof.
  intros [Hc Hr _ _ _ Hd _ _ Hs He _]%reachable_inv E. rewrite E in *.
  destruct Hs as [Hcl Hp]; [done|].
  assert (0 <= req_holds (req s)) by (destruct (req s); cbn; lia).
  assert (0 <= io_holds (io s)) by (destruct (io s); cbn; lia).
  destruct (done (sess s)); [by destruct (proj1 Hd eq_refl)|]. split_and!; done || lia.
Qed.

(** No wake-up is lost: whatever the interleaving, once the request task
    has closed the session and both threads have left its methods, with every
    queued operation completed and none abandoned, the answer has been
    sent, so [wait] returns. *)
Theorem session_no_lost_wakeup (s : sys) :
  reachable s -> req s = Closed -> io s = Idle -> ring s = 0 -> leaked s = 0 ->
  sent (sess s) = Some (head (failures s)).
Proof.
  intros [Hc _ Hcl _ _ Hd _ _ _ He Hw]%reachable_inv Eq Ei Er El.
  rewrite Eq, Ei, ?Er, ?El in *. cbn in *.
  destruct (sent (sess s)) as [r|]; [by subst|]. exfalso.
  assert (done (sess s) = true) as Hdone by (by apply Hd).
  destruct (Hw Hcl Hdone) as [?|[?|?]]; done || lia.
Qed.

(** A cancelled send hangs the session: once a submission has been
    abandoned between [on_submit] and the channel send (the [cancelled()]
    branch of the [select!] in the upload loop), the count never returns to
    zero and the answer is never sent: [wait] does not return. *)
Theorem abandoned_submit_hangs (s : sys) :
  reachable s -> 0 < leaked s -> sent (sess s) = None /\ forall s', step s s' -> 0 < leaked s'.
Proof.
  intros [Hc Hr _ _ _ _ _ _ Hs _ _]%reachable_inv Hl. split.
  - destruct (sent (sess s)); [|done]. destruct Hs as [_ Hp]; [done|].
    assert (0 <= req_holds (req s)) by (destruct (req s); cbn; lia).
    assert (0 <= io_holds (io s)) by (destruct (io s); cbn; lia). lia.
  - intros s' Hstep. destruct Hstep; cbn in *; lia.
Qed.

(** ** Witnesses *)

(** [advance H st]: extend the run [H] by the step [st]. *)
Ltac advance H st :=
  let H' := fresh in
  pose proof (reach_step _ _ H st ltac:(vm_compute; reflexivity)) as H'; clear H;
  rename H' into H; vm_compute in H.

(** One write, completed before the session is closed. *)
Lemma run_one_write : reachable
  {| sess := {| pending := 0; closed := true; err := None; done := false; cancel := false; sent := Some None |};
     req := Closed; io := Idle; ring := 0; leaked := 0; failures := [] |}.
Proof.
  pose proof reach_init as H. vm_compute in H.
  advance H (step_submit new_session Idle 0 0 []).
  advance H (step_enqueue (on_submit new_session) Idle 0 0 []).
  advance H (step_cqe_ok (on_submit new_session) Running 1 0 [] eq_refl).
  advance H (step_complete (on_submit new_session) Running 0 0 []).
  advance H (step_io_finish new_session Running 0 0 [] LoadClosed).
  advance H (step_close new_session Idle 0 0 [] Running (or_introl eq_refl)).
  advance H (step_req_finish (swap_closed new_session) Idle 0 0 [] true LoadClosed).
  advance H (step_req_finish (swap_closed new_session) Idle 0 0 [] true LoadPending).
  advance H (step_req_finish (swap_closed new_session) Idle 0 0 [] true TakeDone).
  advance H (step_req_finish (fst (take_done (swap_closed new_session))) Idle 0 0 [] true TakeErr).
  exact H.
Qed.

Lemma session_answer_truthful_witness :
  (None : option string) = head ([] : list string) /\ true = true /\ false = false /\ 0 = 0 /\ 0 = 0 /\ 0 = 0 /\ 0 = 0.
Proof. apply (session_answer_truthful _ None run_one_write eq_refl). Defined.

Lemma session_no_lost_wakeup_witness : Some None = Some (head ([] : list string)).
Proof. apply (session_no_lost_wakeup _ run_one_write eq_refl eq_refl eq_refl eq_refl). Defined.

(** One write abandoned while its send was pending. *)
Lemma run_abandoned : reachable
  {| sess := on_submit new_session; req := Running; io := Idle; ring := 0; leaked := 1; failures := [] |}.
Proof.
  pose proof reach_init as H. vm_compute in H.
  advance H (step_submit new_session Idle 0 0 []).
  advance H (step_abandon (on_submit new_session) Idle 0 0 []).
  exact H.
Qed.

Lemma abandoned_submit_hangs_witness :
  (None : option (option string)) = None /\
  forall s', step {| sess := on_submit new_session; req := Running; io := Idle; ring := 0; leaked := 1;
                     failures := [] |} s' -> 0 < leaked s'.
Proof. apply (abandoned_submit_hangs _ run_abandoned). reflexivity. Defined.
