(* ===== verification/BufPool.v ===== *)
(** * s32p-gateway/src/buffer.rs: the pool of aligned buffers

    A bounded queue of buffers guarded by a semaphore with one permit per
    buffer.  A task takes a permit (after a permit of its stream, for
    [acquire_for_stream]), pops a buffer, and gives both back when the
    [PooledBuf] is dropped: first the buffer, in [drop], then the permits,
    as the fields are dropped.  The tasks run on several threads, so the
    model interleaves these steps; [expect] and an overflowing queue panic. *)

From Stdlib Require Import ZArith Lia.
From stdpp Require Import base list strings numbers option gmap.
From S2P Require Import Prelude.

(** [BufPool]: [q] is the queue (a buffer is the number it was created with),
    [sem] the free permits. *)
Record BufPool := { chunk_size : Z; capacity : nat; q : list nat; sem : nat }.
Definition BufPool_new (chunk_size : Z) (pool_size : nat) : BufPool :=
  {| chunk_size := chunk_size; capacity := pool_size `max` 1; q := []; sem := 0 |}.

(** [ArrayQueue::push] fails on a full queue. *)
Definition push (b : nat) (p : BufPool) : option BufPool :=
  if decide (length (q p) < capacity p) then Some {| chunk_size := chunk_size p; capacity := capacity p; q := q p ++ [b]; sem := sem p |} else None.
Definition pop (p : BufPool) : option (nat * BufPool) :=
  match q p with b :: l => Some (b, {| chunk_size := chunk_size p; capacity := capacity p; q := l; sem := sem p |}) | [] => None end.
Definition set_sem (n : nat) (p : BufPool) : BufPool := {| chunk_size := chunk_size p; capacity := capacity p; q := q p; sem := n |}.

(** [warm]: [None] is the panic "pool warm overflow". *)
Fixpoint warm_push (n first : nat) (p : BufPool) : option BufPool :=
  match n with
  | O => Some p
  | S n => p ← push first p; warm_push n (S first) p
  end.
Definition warm (n : nat) (p : BufPool) : option BufPool := p ← warm_push n (length (q p)) p; Some (set_sem (sem p + n) p).

(** ** Tasks
    Where a task is in [acquire] or [acquire_for_stream] ([stream] names the
    stream whose permit it holds or wants) and in the drop of its buffer. *)
Inductive place :=
| WantStream (s : nat)                      (* awaiting [stream_sem] *)
| WantGlobal (stream : option nat)          (* awaiting [sem] *)
| Popping (stream : option nat)             (* has the permit, before [q.pop()] *)
| Holding (b : nat) (stream : option nat)   (* owns a [PooledBuf] *)
| Returned (stream : option nat)            (* [put_back] done, [_global] not dropped *)
| LastPermit (s : nat)                      (* [_global] dropped, [_stream] not *)
| Over.

(** [streams] are the free permits of each stream's semaphore. *)
Record pool_state := { pool : BufPool; streams : gmap nat nat; tasks : list place }.
Inductive pool_event :=
| Begin (stream : option nat)     (* a task calls [acquire] or [acquire_for_stream] *)
| TakeStream (t : nat) | TakeGlobal (t : nat) | Pop (t : nat)
| Drop (t : nat) | DropGlobal (t : nat) | DropStream (t : nat)
| Cancel (t : nat).               (* the acquiring future is dropped while it waits *)
(** [None]: the step is not enabled. *)
Inductive pool_outcome := Goes (st : pool_state) | Panic.

Definition at_place (t : nat) (pl : place) (st : pool_state) : pool_state :=
  {| pool := pool st; streams := streams st; tasks := <[t := pl]> (tasks st) |}.
Definition with_pool (p : BufPool) (st : pool_state) : pool_state := {| pool := p; streams := streams st; tasks := tasks st |}.
Definition give_stream (s : nat) (st : pool_state) : pool_state :=
  {| pool := pool st; streams := <[s := S (default O (streams st !! s))]> (streams st); tasks := tasks st |}.

Definition pool_step (st : pool_state) (e : pool_event) : option pool_outcome :=
  match e with
  | Begin stream =>
      let pl := match stream with Some s => WantStream s | None => WantGlobal None end in
      Some (Goes {| pool := pool st; streams := streams st; tasks := tasks st ++ [pl] |})
  | TakeStream t =>
      match tasks st !! t with
      | Some (WantStream s) =>
          match streams st !! s with
          | Some (S n) => Some (Goes (at_place t (WantGlobal (Some s)) {| pool := pool st; streams := <[s := n]> (streams st); tasks := tasks st |}))
          | _ => None
          end
      | _ => None
      end
  | TakeGlobal t =>
      match tasks st !! t, sem (pool st) with
      | Some (WantGlobal o), S n => Some (Goes (at_place t (Popping o) (with_pool (set_sem n (pool st)) st)))
      | _, _ => None
      end
  | Pop t =>
      match tasks st !! t with
      | Some (Popping o) => Some (match pop (pool st) with Some (b, p) => Goes (at_place t (Holding b o) (with_pool p st)) | None => Panic end)
      | _ => None
      end
  | Drop t =>
      match tasks st !! t with
      | Some (Holding b o) => Some (match push b (pool st) with Some p => Goes (at_place t (Returned o) (with_pool p st)) | None => Panic end)
      | _ => None
      end
  | DropGlobal t =>
      match tasks st !! t with
      | Some (Returned o) =>
          let st := with_pool (set_sem (S (sem (pool st))) (pool st)) st in
          Some (Goes (at_place t (match o with Some s => LastPermit s | None => Over end) st))
      | _ => None
      end
  | DropStream t =>
      match tasks st !! t with Some (LastPermit s) => Some (Goes (at_place t Over (give_stream s st))) | _ => None end
  | Cancel t =>
      match tasks st !! t with
      | Some (WantStream _) | Some (WantGlobal None) => Some (Goes (at_place t Over st))
      | Some (WantGlobal (Some s)) => Some (Goes (at_place t Over (give_stream s st)))
      | _ => None
      end
  end.
Fixpoint pool_run (st : pool_state) (es : list pool_event) : option pool_outcome :=
  match es with
  | [] => Some (Goes st)
  | e :: es => match pool_step st e with Some (Goes st') => pool_run st' es | r => r end
  end.

(** ** Counting *)
Definition in_hand (pl : place) : list nat := match pl with Holding b _ => [b] | _ => [] end.
Definition permit_of (pl : place) : nat := match pl with Popping _ | Holding _ _ | Returned _ => 1 | _ => 0 end.
Definition stream_of (s : nat) (pl : place) : nat :=
  match pl with
  | WantGlobal (Some s') | Popping (Some s') | Holding _ (Some s') | Returned (Some s') | LastPermit s' => if decide (s = s') then 1 else 0
  | _ => 0
  end.
Definition total (f : place -> nat) (l : list place) : nat := sum_list_with f l.
Definition held (l : list place) : list nat := l ≫= in_hand.

Lemma total_snoc f l pl : total f (l ++ [pl]) = total f l + f pl.
Proof. unfold total. rewrite sum_list_with_app. cbn. lia. Qed.
Lemma total_move f l t old pl : l !! t = Some old -> total f (<[t := pl]> l) + f old = total f l + f pl.
Proof.
  unfold total. revert t. induction l as [|x l IH]; intros [|t]; csimpl; try done.
  - intros [= ->]. lia.
  - intros H. apply IH in H. lia.
Qed.
Lemma total_ge f l t old : l !! t = Some old -> f old <= total f l.
Proof.
  unfold total. revert t. induction l as [|x l IH]; intros [|t]; csimpl; try done.
  - intros [= ->]. lia.
  - intros H. apply IH in H. lia.
Qed.
Lemma held_snoc l pl : held (l ++ [pl]) = held l ++ in_hand pl.
Proof. unfold held. rewrite bind_app. cbn. by rewrite app_nil_r. Qed.
Lemma held_move l t old pl : l !! t = Some old -> in_hand old ++ held (<[t := pl]> l) ≡ₚ in_hand pl ++ held l.
Proof.
  revert t. induction l as [|x l IH]; intros [|t]; csimpl; try done.
  - intros [= ->]. apply Permutation_app_swap_app.
  - intros H. apply IH in H. unfold held in H. rewrite Permutation_app_swap_app, H. apply Permutation_app_swap_app.
Qed.

(** ** The invariant
    [n] buffers exist and [lim] permits per stream. *)
Record pool_inv (n : nat) (lim : nat -> nat) (st : pool_state) : Prop := {
  pi_capacity : n <= capacity (pool st);
  pi_buffers : q (pool st) ++ held (tasks st) ≡ₚ seq 0 n;
  pi_permits : sem (pool st) + total permit_of (tasks st) = n;
  pi_streams : forall s, default 0 (streams st !! s) + total (stream_of s) (tasks st) = lim s;
}.

Lemma held_count l : length (held l) <= total permit_of l.
Proof. induction l as [|pl l IH]; cbn; [done|]. unfold total, held in *. rewrite length_app. destruct pl; cbn; lia. Qed.
Lemma held_free l t o : l !! t = Some (Popping o) -> length (held l) < total permit_of l.
Proof.
  revert t. induction l as [|pl l IH]; intros [|t]; csimpl; try done.
  - intros [= ->]. cbn. pose proof (held_count l). unfold total, held in *. lia.
  - intros H%IH. unfold total, held in *. rewrite length_app. destruct pl; cbn; lia.
Qed.
Lemma pool_sizes n lim st : pool_inv n lim st -> length (q (pool st)) + length (held (tasks st)) = n.
Proof. intros H. rewrite <- length_app, (pi_buffers _ _ _ H). by rewrite length_seq. Qed.

(** A permit in hand means a buffer in the queue; a buffer in hand means
    room in it. *)
Lemma pop_succeeds n lim st t o : pool_inv n lim st -> tasks st !! t = Some (Popping o) -> exists b l, q (pool st) = b :: l.
Proof.
  intros H Ht. pose proof (pool_sizes _ _ _ H). pose proof (held_free _ _ _ Ht). pose proof (pi_permits _ _ _ H).
  destruct (q (pool st)) as [|b l]; [cbn in *; lia|eauto].
Qed.
Lemma push_succeeds n lim st t b o : pool_inv n lim st -> tasks st !! t = Some (Holding b o) -> length (q (pool st)) < capacity (pool st).
Proof.
  intros H Ht. pose proof (pool_sizes _ _ _ H). pose proof (pi_capacity _ _ _ H).
  pose proof (held_move _ _ _ Over Ht) as Hm. apply Permutation_length in Hm. cbn in Hm. lia.
Qed.

Lemma inv_move n lim st t old pl p' streams' :
  pool_inv n lim st -> tasks st !! t = Some old -> capacity p' = capacity (pool st) -> q p' ++ in_hand pl ≡ₚ q (pool st) ++ in_hand old ->
  sem p' + permit_of pl = sem (pool st) + permit_of old ->
  (forall s, default 0 (streams' !! s) + stream_of s pl = default 0 (streams st !! s) + stream_of s old) ->
  pool_inv n lim {| pool := p'; streams := streams'; tasks := <[t := pl]> (tasks st) |}.
Proof.
  intros [Hc Hb Hp Hs] Ht Ec Eq Ep Es. split; cbn -[total held].
  - lia.
  - pose proof (held_move _ _ _ pl Ht) as Hm. apply (Permutation_app_inv_l (in_hand old)).
    rewrite Permutation_app_swap_app, Hm, app_assoc, Eq, <- Hb, <- app_assoc. apply Permutation_app_swap_app.
  - pose proof (total_move permit_of _ _ _ pl Ht). lia.
  - intros s. pose proof (total_move (stream_of s) _ _ _ pl Ht). specialize (Hs s). specialize (Es s). lia.
Qed.
Lemma default_insert_eq (m : gmap nat nat) s v x : default 0 (<[s := v]> m !! x) = if decide (x = s) then v else default 0 (m !! x).
Proof. case_decide; [subst; by rewrite lookup_insert_eq|by rewrite lookup_insert_ne]. Qed.

Ltac pool_cases :=
  repeat match goal with
  | H : context [match tasks ?st !! ?t with _ => _ end] |- _ => destruct (tasks st !! t) as [[]|] eqn:?; simplify_eq
  | H : context [match ?o with Some _ => _ | None => _ end] |- _ => is_var o; destruct o; simplify_eq
  | H : context [match streams ?st !! ?s with _ => _ end] |- _ => destruct (streams st !! s) as [[|]|] eqn:?; simplify_eq
  | H : context [match sem ?p with _ => _ end] |- _ => destruct (sem p) eqn:?; simplify_eq
  end.

Lemma pool_step_inv n lim st e r : pool_inv n lim st -> pool_step st e = Some r -> exists st', r = Goes st' /\ pool_inv n lim st'.
Proof.
  intros Hi E. destruct e; cbn -[pop push] in E; simplify_eq.
  - eexists. split; [done|]. destruct Hi as [Hc Hb Hp Hs]. split; cbn -[total]; rewrite ?total_snoc, ?held_snoc.
    + done.
    + destruct stream; cbn; by rewrite app_nil_r.
    + destruct stream; cbn -[total]; lia.
    + intros s'. rewrite total_snoc. destruct stream; cbn -[total]; rewrite Nat.add_0_r; apply Hs.
  - pool_cases. eexists. split; [done|]. eapply (inv_move _ _ st); try done.
    intros s'. cbn. rewrite ?default_insert_eq. repeat case_decide; subst; simplify_option_eq; done || lia.
  - pool_cases. eexists. split; [done|]. eapply (inv_move _ _ st); cbn -[permit_of]; try done. rewrite Heqn0. cbn. lia.
  - pool_cases. destruct (pop_succeeds _ _ _ _ _ Hi Heqo) as (b & l & Eq). unfold pop. rewrite Eq.
    eexists. split; [done|]. eapply (inv_move _ _ st); cbn; try done. rewrite Eq, app_nil_r. symmetry. apply Permutation_cons_append.
  - pool_cases. pose proof (push_succeeds _ _ _ _ _ _ Hi Heqo). unfold push. rewrite decide_True by done.
    eexists. split; [done|]. eapply (inv_move _ _ st); cbn; try done. by rewrite app_nil_r.
  - pool_cases. eexists. split; [done|]. eapply (inv_move _ _ st); cbn; try done; destruct stream; cbn; done || lia.
  - pool_cases. eexists. split; [done|]. eapply (inv_move _ _ st); try done.
    intros s'. cbn. rewrite ?default_insert_eq. repeat case_decide; subst; done || lia.
  - pool_cases; (eexists; split; [done|]; eapply (inv_move _ _ st); try done).
    intros s'. cbn. rewrite ?default_insert_eq. repeat case_decide; subst; done || lia.
Qed.
Lemma run_inv n lim es st r : pool_inv n lim st -> pool_run st es = Some r -> exists st', r = Goes st' /\ pool_inv n lim st'.
Proof.
  revert st. induction es as [|e es IH]; cbn; intros st Hi E; [simplify_eq; eauto|].
  destruct (pool_step st e) as [r'|] eqn:Es; [|done].
  destruct (pool_step_inv _ _ _ _ _ Hi Es) as (st' & -> & Hi'). eauto.
Qed.

(** *** A warmed pool *)
Lemma push_room b p : length (q p) < capacity p ->
  push b p = Some {| chunk_size := chunk_size p; capacity := capacity p; q := q p ++ [b]; sem := sem p |}.
Proof. intros. unfold push. by rewrite decide_True. Qed.
Lemma warm_push_all n p : length (q p) + n <= capacity p ->
  warm_push n (length (q p)) p = Some {| chunk_size := chunk_size p; capacity := capacity p; q := q p ++ seq (length (q p)) n; sem := sem p |}.
Proof.
  revert p. induction n as [|n IH]; intros p H; cbn -[push].
  - rewrite app_nil_r. by destruct p.
  - rewrite push_room by lia. cbn -[push].
    set (p' := {| chunk_size := _; capacity := _; q := q p ++ [length (q p)]; sem := _ |}).
    assert (S (length (q p)) = length (q p')) as -> by (cbn; rewrite length_app; cbn; lia).
    rewrite IH by (cbn; rewrite length_app; cbn; lia). cbn. rewrite length_app, <- app_assoc. cbn. by rewrite Nat.add_1_r.
Qed.
Lemma warmed chunk pool_size : 1 <= pool_size -> warm pool_size (BufPool_new chunk pool_size) =
  Some {| chunk_size := chunk; capacity := pool_size `max` 1; q := seq 0 pool_size; sem := pool_size |}.
Proof. intros. unfold warm. rewrite warm_push_all by (cbn; lia). done. Qed.

(** What the gateway starts with: a pool warmed with its size, and streams
    with the permits of the configuration. *)
Definition starts (chunk : Z) (pool_size : nat) (limits : gmap nat nat) : option pool_state :=
  p ← warm pool_size (BufPool_new chunk pool_size); Some {| pool := p; streams := limits; tasks := [] |}.
Lemma starts_inv chunk pool_size limits st : 1 <= pool_size -> starts chunk pool_size limits = Some st ->
  pool_inv pool_size (fun s => default 0 (limits !! s)) st.
Proof.
  intros H E. unfold starts in E. rewrite warmed in E by done. cbn in E. simplify_eq. split; cbn; [lia|by rewrite app_nil_r|lia|]. intros; lia.
Qed.

(** *** Who can move *)
Definition holds_for (s : nat) (pl : place) : bool := match pl with Holding _ (Some s') => bool_decide (s = s') | _ => false end.
Lemma holders_bounded s l : length (filter (fun pl => holds_for s pl) l) <= total (stream_of s) l.
Proof.
  unfold total. induction l as [|pl l IH]; [done|]. rewrite filter_cons. case_decide as H; csimpl; [|lia].
  destruct pl as [| | |b [s'|]| | |]; cbn in *; try done. case_bool_decide; [|done]. subst. rewrite decide_True by done. lia.
Qed.
Lemma total_pos f l : 0 < total f l -> exists t pl, l !! t = Some pl /\ 0 < f pl.
Proof.
  unfold total. induction l as [|pl l IH]; cbn; [lia|]. intros H. destruct (decide (0 < f pl)) as [Hf|Hf]; [by exists 0, pl|].
  destruct IH as (t & pl' & ? & ?); [lia|]. by exists (S t), pl'.
Qed.
Definition forward (e : pool_event) : Prop := match e with Begin _ | Cancel _ => False | _ => True end.
Definition can_move (st : pool_state) : Prop := exists e st', forward e /\ pool_step st e = Some (Goes st').

Section Progress.
Context (n : nat) (lim : nat -> nat) (st : pool_state) (Hi : pool_inv n lim st) (Hn : 1 <= n).

Lemma permit_moves t pl : tasks st !! t = Some pl -> 0 < permit_of pl -> can_move st.
Proof using Hi Hn.
  intros Ht Hp.
  assert (exists e r, forward e /\ pool_step st e = Some r) as (e & r & He & Er).
  { destruct pl; cbn in Hp; try lia; [exists (Pop t)|exists (Drop t)|exists (DropGlobal t)]; cbn -[pop push]; rewrite Ht; eauto. }
  destruct (pool_step_inv _ _ _ _ _ Hi Er) as (st' & -> & _). by exists e, st'.
Qed.
Lemma global_moves t o : tasks st !! t = Some (WantGlobal o) -> can_move st.
Proof using Hi Hn.
  intros Ht. destruct (sem (pool st)) as [|k] eqn:Es.
  - pose proof (pi_permits _ _ _ Hi). destruct (total_pos permit_of (tasks st)) as (t' & pl & ? & ?); [lia|]. eauto using permit_moves.
  - eexists (TakeGlobal t), _. split; [done|]. cbn. by rewrite Ht, Es.
Qed.
Lemma task_moves t pl : (forall s, tasks st !! t = Some (WantStream s) -> 1 <= lim s) -> tasks st !! t = Some pl -> pl <> Over -> can_move st.
Proof using Hi Hn.
  intros Hlim Ht Ho. destruct pl as [s|o|o|b o|o|s|]; [|by eapply global_moves|by (eapply permit_moves; [done|cbn; lia])..| |done].
  - destruct (streams st !! s) as [[|k]|] eqn:Es.
    2: { eexists (TakeStream t), _. split; [done|]. cbn. by rewrite Ht, Es. }
    all: pose proof (pi_streams _ _ _ Hi s) as Hs; specialize (Hlim s Ht); rewrite Es in Hs; cbn in Hs.
    all: destruct (total_pos (stream_of s) (tasks st)) as (t' & pl & Ht' & Hp); [lia|].
    all: destruct pl as [|o| | | |s'|]; cbn in Hp; try lia; try (by eapply global_moves); try (by (eapply permit_moves; [done|cbn; lia])).
    all: by eexists (DropStream t'), _; split; [done|]; cbn; rewrite Ht'.
  - eexists (DropStream t), _. split; [done|]. cbn. by rewrite Ht.
Qed.
End Progress.

(** ** Properties *)

(** C21. The buffer pool is safe however tasks interleave, wait, give up and
    drop their buffers: no permit is ever granted without a buffer in the
    queue and no buffer comes back to a full queue (so neither [expect]
    panics), no buffer is in two hands at once or both in a hand and in the
    queue, at most [pool_size] are out, and no stream holds more than its
    limit. *)
Theorem pool_safe (chunk : Z) (pool_size : nat) (limits : gmap nat nat) (st0 : pool_state) (es : list pool_event) (r : pool_outcome) :
  1 <= pool_size -> starts chunk pool_size limits = Some st0 -> pool_run st0 es = Some r ->
  exists st, r = Goes st /\
    NoDup (q (pool st) ++ held (tasks st)) /\ length (held (tasks st)) <= pool_size /\
    forall s, length (filter (fun pl => holds_for s pl) (tasks st)) <= default 0 (limits !! s).
Proof.
  intros Hn E0 E. destruct (run_inv _ _ _ _ _ (starts_inv _ _ _ _ Hn E0) E) as (st & -> & Hi). exists st. split_and!; [done|..].
  - rewrite (pi_buffers _ _ _ Hi). apply NoDup_seq.
  - pose proof (pool_sizes _ _ _ Hi). lia.
  - intros s. pose proof (pi_streams _ _ _ Hi s). pose proof (holders_bounded s (tasks st)). lia.
Qed.

(** The pool is never stuck: in every state the tasks can reach, as long
    as one of them has not finished (its stream, if it waits for one, having
    a positive limit), some task can take its next step, holders dropping
    their buffers in any order; and once all have finished every buffer is
    back in the queue with its permit. *)
Theorem pool_live (chunk : Z) (pool_size : nat) (limits : gmap nat nat) (st0 : pool_state) (es : list pool_event) (st : pool_state) :
  1 <= pool_size -> starts chunk pool_size limits = Some st0 -> pool_run st0 es = Some (Goes st) ->
  (forall t pl, tasks st !! t = Some pl -> pl <> Over -> (forall s, pl = WantStream s -> 1 <= default 0 (limits !! s)) -> can_move st) /\
  (Forall (fun pl => pl = Over) (tasks st) -> q (pool st) ≡ₚ seq 0 pool_size /\ sem (pool st) = pool_size /\
     forall s, default 0 (streams st !! s) = default 0 (limits !! s)).
Proof.
  intros Hn E0 E. destruct (run_inv _ _ _ _ _ (starts_inv _ _ _ _ Hn E0) E) as (st' & [= <-] & Hi). split.
  - intros t pl Ht Ho Hlim. eapply task_moves; eauto. intros s Hs. apply Hlim. congruence.
  - intros Hall. assert (forall f, f Over = 0 -> total f (tasks st) = 0) as Ht.
    { intros f Hf. unfold total. induction Hall as [|? l ->]; cbn; [done|]. lia. }
    assert (held (tasks st) = []) as Hh by (clear -Hall; unfold held; induction Hall as [|? l ->]; cbn; done).
    destruct Hi as [_ Hb Hp Hs]. rewrite Hh, app_nil_r in Hb. rewrite Ht in Hp by done. split_and!; [done|lia|].
    intros s. specialize (Hs s). rewrite Ht in Hs by done. lia.
Qed.

(** ** Witnesses *)
Definition demo_pool : option pool_state := starts 4096 1 {[ 7 := 1 ]}.
Definition demo_pool_events : list pool_event :=
  [Begin (Some 7); Begin None; TakeStream 0; TakeGlobal 0; Pop 0; Drop 0; DropGlobal 0; TakeGlobal 1; Pop 1].
Definition demo_pool_start : pool_state := default {| pool := BufPool_new 0 0; streams := ∅; tasks := [] |} demo_pool.
Definition demo_pool_end : pool_state := match pool_run demo_pool_start demo_pool_events with Some (Goes st) => st | _ => demo_pool_start end.

Lemma pool_safe_witness : exists st, Goes demo_pool_end = Goes st /\ tasks st = [LastPermit 7; Holding 0 None] /\ NoDup (q (pool st) ++ held (tasks st)).
Proof.
  destruct (pool_safe 4096 1 {[ 7 := 1 ]} demo_pool_start demo_pool_events (Goes demo_pool_end)) as (st & E & H & _);
    [lia|vm_compute; reflexivity|vm_compute; reflexivity|].
  exists st. split_and!; [done| |done]. injection E as <-. vm_compute. reflexivity.
Defined.

Lemma pool_live_witness : can_move demo_pool_end.
Proof.
  destruct (pool_live 4096 1 {[ 7 := 1 ]} demo_pool_start demo_pool_events demo_pool_end) as [H _];
    [lia|vm_compute; reflexivity|vm_compute; reflexivity|].
  apply (H 0 (LastPermit 7)); [vm_compute; reflexivity|done|done].
Defined.
