(* ===== verification/IoThread.v ===== *)
(** * s32p-gateway/src/uring_io.rs: the io_uring thread

    [io_thread] takes operations from a bounded channel, gives each a slot
    and a submission, and finishes it when its completion arrives.  The model
    runs the loop one section at a time ([loop_pc] says where it is), between
    which senders put operations into the channel and the kernel completes
    submissions in any order.  The kernel is the part of the state a
    completion queue shows ([kernel], [cq]); the results of the system calls
    are inputs.  [finished] records the calls on each operation's session:
    one [on_complete] per entry, after [set_error_once] when [outcome_error]
    says so; the session itself is in Uring.v. *)

From Stdlib Require Import ZArith Lia.
From stdpp Require Import base list strings numbers option.
From S2P Require Import Prelude.

(** [OpCode] with [ReadItem] and [WriteItem]; [pooled] is the buffer and
    [done_tx] says whether the completion sender of a read is there. *)
Inductive op_kind := OpRead (done_tx : bool) | OpWrite.
Record OpCode := { op : op_kind; op_off : Z; op_len : Z; pooled : nat; op_session : nat }.

Inductive op_outcome :=
| Wrote | WriteFailed (errno : Z) | ShortWrite (n : Z)
| ReadDone (n : Z) | ReadFailed (errno : Z) | ReadTooLong (n : Z) | NoReceiver
| FailedWith (msg : string).                (* [fail_item] *)
Definition outcome_error (o : op_outcome) : bool := match o with Wrote | ReadDone _ => false | _ => true end.

Inductive loop_pc :=
| Reaping | Checking | Draining | Filling (pushed : nat) | Submitting (pushed : nat) | ReapingAgain | Deciding
| Waiting | Sleeping (submitted : nat)  (* [submit_and_wait]: before and after it submits *)
| Receiving
| Leaving   (* out of the loop, the receiver not yet dropped *)
| Gone.

Record ring := { sq : list nat; kernel : list nat; cq : list (nat * Z) }.
Record io_state := {
  slots : list (option OpCode); free : list nat; inflight : nat; backlog : list OpCode; rx_closed : bool; fatal_err : option string; pc : loop_pc;
  cancelled : bool;                          (* [global_cancel] *)
  uring : ring;
  rx : list OpCode; senders : bool;          (* the channel and whether a sender is left *)
  sent : list OpCode;                        (* every operation a send succeeded for *)
  finished : list (OpCode * op_outcome);
  lost : list OpCode;                        (* dropped with the receiver *)
}.

Definition at_pc (p : loop_pc) (st : io_state) : io_state :=
  {| slots := slots st; free := free st; inflight := inflight st; backlog := backlog st; rx_closed := rx_closed st; fatal_err := fatal_err st; pc := p;
     cancelled := cancelled st; uring := uring st; rx := rx st; senders := senders st; sent := sent st; finished := finished st; lost := lost st |}.
Definition set_ring (r : ring) (st : io_state) : io_state :=
  {| slots := slots st; free := free st; inflight := inflight st; backlog := backlog st; rx_closed := rx_closed st; fatal_err := fatal_err st; pc := pc st;
     cancelled := cancelled st; uring := r; rx := rx st; senders := senders st; sent := sent st; finished := finished st; lost := lost st |}.
Definition set_table (sl : list (option OpCode)) (fr : list nat) (n : nat) (st : io_state) : io_state :=
  {| slots := sl; free := fr; inflight := n; backlog := backlog st; rx_closed := rx_closed st; fatal_err := fatal_err st; pc := pc st;
     cancelled := cancelled st; uring := uring st; rx := rx st; senders := senders st; sent := sent st; finished := finished st; lost := lost st |}.
Definition set_queues (b r : list OpCode) (c : bool) (st : io_state) : io_state :=
  {| slots := slots st; free := free st; inflight := inflight st; backlog := b; rx_closed := c; fatal_err := fatal_err st; pc := pc st;
     cancelled := cancelled st; uring := uring st; rx := r; senders := senders st; sent := sent st; finished := finished st; lost := lost st |}.
Definition set_channel (r : list OpCode) (o : bool) (s l : list OpCode) (st : io_state) : io_state :=
  {| slots := slots st; free := free st; inflight := inflight st; backlog := backlog st; rx_closed := rx_closed st; fatal_err := fatal_err st; pc := pc st;
     cancelled := cancelled st; uring := uring st; rx := r; senders := o; sent := s; finished := finished st; lost := l |}.
Definition add_finished (l : list (OpCode * op_outcome)) (st : io_state) : io_state :=
  {| slots := slots st; free := free st; inflight := inflight st; backlog := backlog st; rx_closed := rx_closed st; fatal_err := fatal_err st; pc := pc st;
     cancelled := cancelled st; uring := uring st; rx := rx st; senders := senders st; sent := sent st; finished := finished st ++ l; lost := lost st |}.
(** [fatal_err = Some(msg)] and [global_cancel.cancel()] *)
Definition set_cancel (fatal : option string) (st : io_state) : io_state :=
  {| slots := slots st; free := free st; inflight := inflight st; backlog := backlog st; rx_closed := rx_closed st; fatal_err := fatal; pc := pc st;
     cancelled := true; uring := uring st; rx := rx st; senders := senders st; sent := sent st; finished := finished st; lost := lost st |}.

(** ** [reap_all] *)
(** What a completion with result [res] means for an operation, and whether
    [global_cancel] is cancelled. *)
Definition completion (it : OpCode) (res : Z) : op_outcome * bool :=
  match op it with
  | OpWrite => (if (res <? 0)%Z then WriteFailed (- res) else if (res =? op_len it)%Z then Wrote else ShortWrite res, false)
  | OpRead done_tx =>
      if (res <? 0)%Z then (ReadFailed (- res), false)
      else if (op_len it <? res)%Z then (ReadTooLong res, true)
      else if done_tx then (ReadDone res, false) else (NoReceiver, true)
  end.
Definition reap_one (st : io_state) (cqe : nat * Z) : io_state :=
  let '(id, res) := cqe in
  let item := mjoin (slots st !! id) in
  let st := set_table (<[id := None]> (slots st)) (free st ++ [id]) (inflight st - 1) st in
  match item with
  | None => set_cancel (Some "io_uring completion for unknown id"%string) st
  | Some it =>
      let '(o, cancel) := completion it res in
      let st := add_finished [(it, o)] st in
      if cancel then set_cancel (fatal_err st) st else st
  end.
Definition reap_all (st : io_state) : io_state :=
  foldl reap_one (set_ring {| sq := sq (uring st); kernel := kernel (uring st); cq := [] |} st) (cq (uring st)).

(** ** [fail_item], and the loop that fails everything *)
Definition fail_item (msg : string) (it : OpCode) : OpCode * op_outcome := (it, FailedWith msg).
Definition slot_items (sl : list (option OpCode)) : list OpCode := omap id sl.
Definition cancel_message (st : io_state) : string := default "uring io cancelled"%string (fatal_err st).
Definition fail_all (st : io_state) : io_state :=
  let l := fail_item (cancel_message st) <$> (backlog st ++ slot_items (slots st)) in
  add_finished l (set_queues [] (rx st) (rx_closed st) (set_table (replicate (length (slots st)) None) (free st) (inflight st) st)).

(** ** Filling the submission queue *)
(** [rx.try_recv()] *)
Inductive try_recv_result := Received (it : OpCode) (rest : list OpCode) | Empty | Disconnected.
Definition try_recv (st : io_state) : try_recv_result :=
  match rx st with it :: rest => Received it rest | [] => if senders st then Empty else Disconnected end.
Definition next_item (st : io_state) : (OpCode * io_state) + io_state :=
  match backlog st with
  | it :: l => inl (it, set_queues l (rx st) (rx_closed st) st)
  | [] =>
      match try_recv st with
      | Received it rest => inl (it, set_queues [] rest (rx_closed st) st)
      | Empty => inr st
      | Disconnected => inr (set_queues [] (rx st) true st)
      end
  end.
(** [submit_item] for the slot [id] taken off the front of [free]; the push
    fails when the submission queue has [entries] entries, and the caller
    then puts everything back. *)
Definition submit_item (entries id : nat) (fr : list nat) (it : OpCode) (st : io_state) : io_state + io_state :=
  let r := uring st in
  if decide (length (sq r) < entries)
  then inl (set_ring {| sq := sq r ++ [id]; kernel := kernel r; cq := cq r |} (set_table (<[id := Some it]> (slots st)) fr (inflight st + 1) st))
  else inr (set_cancel (Some "io_uring SQ full"%string) (set_queues (it :: backlog st) (rx st) (rx_closed st) st)).
Definition fill_one (depth entries pushed : nat) (st : io_state) : io_state :=
  if decide (inflight st < depth) then
    match free st with
    | [] => at_pc (Submitting pushed) st
    | id :: fr =>
        match next_item st with
        | inl (it, st) =>
            match submit_item entries id fr it st with
            | inl st => at_pc (Filling (S pushed)) st
            | inr st => at_pc (Submitting pushed) st
            end
        | inr st => at_pc (Submitting pushed) st
        end
    end
  else at_pc (Submitting pushed) st.

(** [ring.submit()]: the kernel takes the first [k] submissions. *)
Inductive sys_result := SysOk (k : nat) | SysErr.
Definition take_submissions (k : nat) (st : io_state) : io_state :=
  let r := uring st in set_ring {| sq := drop k (sq r); kernel := kernel r ++ take k (sq r); cq := cq r |} st.

(** ** One section of the loop; [None]: the thread is blocked. *)
Definition io_turn (depth entries : nat) (o : sys_result) (st : io_state) : option io_state :=
  match pc st with
  | Reaping => let st := reap_all st in Some (at_pc Checking (match fatal_err st with Some _ => set_cancel (fatal_err st) st | None => st end))
  | Checking => Some (if cancelled st then at_pc Draining (fail_all st) else at_pc (Filling 0) st)
  | Draining =>
      match try_recv st with
      | Received it rest => Some (add_finished [fail_item (cancel_message st) it] (set_queues (backlog st) rest (rx_closed st) st))
      | _ => Some (at_pc Leaving st)
      end
  | Filling pushed => Some (fill_one depth entries pushed st)
  | Submitting pushed =>
      match pushed, o with
      | O, _ => Some (at_pc ReapingAgain st)
      | _, SysOk k => Some (at_pc ReapingAgain (take_submissions k st))
      | _, SysErr => Some (at_pc Reaping (set_cancel (Some "io_uring submit failed"%string) st))
      end
  | ReapingAgain =>
      let st := reap_all st in
      Some (match fatal_err st with Some _ => at_pc Reaping (set_cancel (fatal_err st) st) | None => at_pc Deciding st end)
  | Deciding =>
      Some (if rx_closed st && (inflight st =? 0) && (match backlog st with [] => true | _ => false end) then at_pc Leaving st
            else if 0 <? inflight st then at_pc Waiting st
            else if rx_closed st then at_pc Reaping st else at_pc Receiving st)
  | Waiting =>
      match o with
      | SysOk k => Some (at_pc (Sleeping (k `min` length (sq (uring st)))) (take_submissions k st))
      | SysErr => Some (at_pc Reaping (set_cancel (Some "io_uring submit_and_wait failed"%string) st))
      end
  | Sleeping submitted =>
      (* an interrupted wait is an error only when nothing was submitted *)
      match o, submitted with
      | SysOk _, _ => match cq (uring st) with [] => None | _ => Some (at_pc Reaping st) end
      | SysErr, O => Some (at_pc Reaping (set_cancel (Some "io_uring submit_and_wait failed"%string) st))
      | SysErr, _ => Some (at_pc Reaping st)
      end
  | Receiving =>
      match try_recv st with
      | Received it rest => Some (at_pc Reaping (set_queues (backlog st ++ [it]) rest (rx_closed st) st))
      | Disconnected => Some (at_pc Reaping (set_queues (backlog st) (rx st) true st))
      | Empty => None
      end
  | Leaving => Some (at_pc Gone (set_channel [] (senders st) (sent st) (lost st ++ rx st) st))
  | Gone => None
  end.

Inductive io_event := Turn (o : sys_result) | Send (it : OpCode) | SendersGone | Complete (id : nat) (res : Z).
Definition io_step (depth entries : nat) (st : io_state) (e : io_event) : option io_state :=
  match e with
  | Turn o => io_turn depth entries o st
  | Send it =>
      (* a send into the channel of [depth] places; it fails once the receiver is gone *)
      if senders st && (match pc st with Gone => false | _ => true end) && (length (rx st) <? depth)
      then Some (set_channel (rx st ++ [it]) true (sent st ++ [it]) (lost st) st) else None
  | SendersGone => Some (set_channel (rx st) false (sent st) (lost st) st)
  | Complete id res =>
      let r := uring st in
      if decide (id ∈ kernel r) then Some (set_ring {| sq := sq r; kernel := list_difference (kernel r) [id]; cq := cq r ++ [(id, res)] |} st) else None
  end.
Definition io_run (depth entries : nat) (st : io_state) (es : list io_event) : option io_state :=
  foldl (fun o e => st ← o; io_step depth entries st e) (Some st) es.
Definition io_start (depth : nat) : io_state :=
  {| slots := replicate depth None; free := seq 0 depth; inflight := 0; backlog := []; rx_closed := false; fatal_err := None; pc := Reaping;
     cancelled := false; uring := {| sq := []; kernel := []; cq := [] |}; rx := []; senders := true; sent := []; finished := []; lost := [] |}.

(** Runs in which every step satisfies [ok]. *)
Inductive io_reaches (depth entries : nat) (ok : io_state -> io_event -> Prop) : io_state -> Prop :=
| reaches_start : io_reaches depth entries ok (io_start depth)
| reaches_step st e st' : io_reaches depth entries ok st -> ok st e -> io_step depth entries st e = Some st' -> io_reaches depth entries ok st'.

(** What the kernel reports in a step: the operation of the submission that
    completes, and the result *)
Definition kernel_says (st : io_state) (e : io_event) : list (OpCode * Z) :=
  match e with
  | Complete id res => match slots st !! id with Some (Some it) => [(it, res)] | _ => [] end
  | _ => []
  end.
(** The same runs with all that the kernel has reported, in order *)
Inductive io_traces (depth entries : nat) (ok : io_state -> io_event -> Prop) : list (OpCode * Z) -> io_state -> Prop :=
| traces_start : io_traces depth entries ok [] (io_start depth)
| traces_step tr st e st' : io_traces depth entries ok tr st -> ok st e -> io_step depth entries st e = Some st' ->
    io_traces depth entries ok (tr ++ kernel_says st e) st'.
Lemma traces_reach depth entries ok tr st : io_traces depth entries ok tr st -> io_reaches depth entries ok st.
Proof. induction 1; [apply reaches_start|by eapply reaches_step]. Qed.
Lemma reaches_trace depth entries ok st : io_reaches depth entries ok st -> exists tr, io_traces depth entries ok tr st.
Proof. induction 1 as [|st e st' _ [tr IH] ? ?]; [eexists; apply traces_start|eexists; by eapply traces_step]. Qed.

(** ** Slots *)
Lemma slot_items_move sl id o o' : sl !! id = Some o -> option_list o ++ slot_items (<[id := o']> sl) ≡ₚ option_list o' ++ slot_items sl.
Proof.
  unfold slot_items. revert id. induction sl as [|x sl IH]; intros [|id]; csimpl; try done.
  - intros [= ->]. destruct o, o'; csimpl; try done. apply Permutation_swap.
  - intros H%IH. destruct x as [y|]; csimpl; [|done]. by rewrite <- !Permutation_middle, H.
Qed.
Lemma slot_items_none n : slot_items (replicate n None) = [].
Proof. induction n; cbn; done. Qed.
Lemma slot_items_empty sl : (forall id o, sl !! id = Some o -> o = None) -> slot_items sl = [].
Proof.
  unfold slot_items. induction sl as [|x sl IH]; intros H; [done|]. csimpl. rewrite (H 0 x) by done. csimpl. apply IH. intros id. apply (H (S id)).
Qed.
Lemma slot_items_elem sl id it : sl !! id = Some (Some it) -> it ∈ slot_items sl.
Proof. intros H. apply list_elem_of_omap. exists (Some it). split; [by eapply list_elem_of_lookup_2|done]. Qed.

(** ** The table: slots, free ids and the ring agree
    [c] are the completions not yet reaped. *)
Definition busy (c : list (nat * Z)) (st : io_state) : list nat := sq (uring st) ++ kernel (uring st) ++ c.*1.
Record table_inv (depth : nat) (c : list (nat * Z)) (st : io_state) : Prop := {
  ti_slots : length (slots st) = depth;
  ti_ids : free st ++ busy c st ≡ₚ seq 0 depth;
  ti_busy : forall id, id ∈ busy c st -> exists it, slots st !! id = Some (Some it);
  ti_free : forall id, id ∈ free st -> slots st !! id = Some None;
  ti_inflight : inflight st = length (busy c st);
}.
Definition accounted (st : io_state) : Prop := sent st ≡ₚ rx st ++ backlog st ++ slot_items (slots st) ++ (finished st).*1 ++ lost st.

Definition unchanged (st : io_state) := (pc st, uring st, rx st, senders st, backlog st, rx_closed st, sent st, lost st).
Lemma reap_one_frame st c : unchanged (reap_one st c) = unchanged st.
Proof. destruct c as [id res]. unfold reap_one. destruct (mjoin _) as [it|]; [|done]. by destruct (completion it res) as [o []]. Qed.
Lemma reap_one_slots st id res : slots (reap_one st (id, res)) = <[id := None]> (slots st) /\ free (reap_one st (id, res)) = free st ++ [id] /\
  inflight (reap_one st (id, res)) = inflight st - 1.
Proof. unfold reap_one. destruct (mjoin _) as [it|]; [|done]. by destruct (completion it res) as [o []]. Qed.
Lemma busy_cons id res c st : busy ((id, res) :: c) st ≡ₚ id :: busy c st.
Proof. unfold busy. csimpl. rewrite (app_assoc _ (kernel _)), <- Permutation_middle. by rewrite <- app_assoc. Qed.
Lemma busy_frame c st st' : uring st = uring st' -> busy c st = busy c st'.
Proof. unfold busy. by intros ->. Qed.
Lemma ids_nodup depth c st : table_inv depth c st -> NoDup (free st ++ busy c st).
Proof. intros H. rewrite (ti_ids _ _ _ H). apply NoDup_seq. Qed.

Lemma reap_one_table depth id res c st : table_inv depth ((id, res) :: c) st -> table_inv depth c (reap_one st (id, res)).
Proof.
  intros Hi. pose proof (ids_nodup _ _ _ Hi) as Hnd. destruct Hi as [Hl Hp Hb Hf Hn]. destruct (reap_one_slots st id res) as (Es & Ef & Ei).
  pose proof (reap_one_frame st (id, res)) as Efr. unfold unchanged in Efr. simplify_eq.
  assert (busy c (reap_one st (id, res)) = busy c st) as Eb by (by apply busy_frame).
  rewrite busy_cons in Hnd, Hp. apply list.NoDup_app in Hnd as (_ & Hd & [Hni _]%list.NoDup_cons).
  split; rewrite ?Es, ?Ef, ?Ei, ?Eb.
  - by rewrite length_insert.
  - by rewrite <- app_assoc.
  - intros id' Hid. destruct (Hb id') as [it Hit]; [rewrite busy_cons; by right|]. exists it. rewrite list_lookup_insert_ne; [done|]. by intros ->.
  - intros id' [Hid| ->%list_elem_of_singleton]%elem_of_app.
    + rewrite list_lookup_insert_ne; [by apply Hf|]. intros ->. apply (Hd id' Hid). by left.
    + apply list_lookup_insert_eq. destruct (Hb id) as [it Hit]; [rewrite busy_cons; by left|]. by eapply lookup_lt_Some.
  - rewrite Hn, busy_cons. cbn. lia.
Qed.
Lemma reap_one_accounted st c : accounted st -> accounted (reap_one st c).
Proof.
  destruct c as [id res]. unfold accounted, reap_one. intros Ha. destruct (slots st !! id) as [[it|]|] eqn:E; cbn [mjoin option_join].
  - pose proof (slot_items_move _ _ _ None E) as Hm. cbn in Hm. destruct (completion it res) as [o []]; cbn -[slot_items]; rewrite Ha, <- Hm, fmap_app; cbn -[slot_items];
      do 2 f_equiv; rewrite <- (app_assoc _ [it]); cbn; by rewrite !Permutation_middle.
  - pose proof (slot_items_move _ _ _ None E) as Hm. cbn in Hm |- *. by rewrite Hm.
  - cbn. rewrite list_insert_ge; [done|]. by apply lookup_ge_None_1.
Qed.
Lemma reap_table depth c st : table_inv depth c st -> table_inv depth [] (foldl reap_one st c).
Proof. revert st. induction c as [|[id res] c IH]; intros st Hi; [done|]. cbn [foldl]. by apply IH, reap_one_table. Qed.
Lemma reap_accounted c st : accounted st -> accounted (foldl reap_one st c).
Proof. revert st. induction c as [|x c IH]; intros st Hi; [done|]. cbn [foldl]. by apply IH, reap_one_accounted. Qed.
Lemma reap_frame c st : unchanged (foldl reap_one st c) = unchanged st.
Proof. revert st. induction c as [|x c IH]; intros st; [done|]. cbn [foldl]. by rewrite IH, reap_one_frame. Qed.

(** ** The invariant of the thread, whatever the system calls return *)
Definition live (p : loop_pc) : bool := match p with Draining | Leaving | Gone => false | _ => true end.
Record io_inv (depth : nat) (st : io_state) : Prop := {
  inv_table : live (pc st) = true -> table_inv depth (cq (uring st)) st;
  inv_account : accounted st;
  inv_lost : pc st <> Gone -> lost st = [];
  inv_closed : rx_closed st = true -> rx st = [] /\ senders st = false;
}.
Lemma table_ext depth c st st' : slots st' = slots st -> free st' = free st -> inflight st' = inflight st -> busy c st' = busy c st ->
  table_inv depth c st -> table_inv depth c st'.
Proof. intros Es Ef Ei Eb [Hl Hp Hb Hf Hn]. split; rewrite ?Es, ?Ef, ?Ei, ?Eb; done. Qed.
Lemma table_perm depth c c' st st' : slots st' = slots st -> free st' = free st -> inflight st' = inflight st -> busy c' st' ≡ₚ busy c st ->
  table_inv depth c st -> table_inv depth c' st'.
Proof.
  intros Es Ef Ei Eb [Hl Hp Hb Hf Hn]. split; rewrite ?Es, ?Ef, ?Ei, ?Eb; try done. intros id Hid. apply Hb. by rewrite <- Eb.
Qed.
Lemma reap_all_inv depth st : table_inv depth (cq (uring st)) st -> accounted st ->
  table_inv depth (cq (uring (reap_all st))) (reap_all st) /\ accounted (reap_all st) /\
  cq (uring (reap_all st)) = [] /\ sq (uring (reap_all st)) = sq (uring st) /\ kernel (uring (reap_all st)) = kernel (uring st) /\
  rx (reap_all st) = rx st /\ senders (reap_all st) = senders st /\ backlog (reap_all st) = backlog st /\ rx_closed (reap_all st) = rx_closed st /\
  sent (reap_all st) = sent st /\ lost (reap_all st) = lost st.
Proof.
  intros Ht Ha. unfold reap_all. set (st0 := set_ring _ st).
  pose proof (reap_frame (cq (uring st)) st0) as Ef. unfold unchanged in Ef. injection Ef as _ Eu E1 E2 E3 E4 E5 E6. rewrite Eu.
  split_and!; try done; [|by apply reap_accounted]. apply reap_table. by eapply (table_ext _ _ st).
Qed.
Lemma remove_one (l : list nat) x : NoDup l -> x ∈ l -> l ≡ₚ x :: list_difference l [x].
Proof.
  intros Hnd Hx. apply NoDup_Permutation; [done| |].
  - apply list.NoDup_cons. split; [|by apply NoDup_list_difference]. rewrite list_elem_of_difference. intros [_ H]. apply H. by left.
  - intros y. rewrite elem_of_cons, list_elem_of_difference, list_elem_of_singleton. destruct (decide (y = x)) as [->|]; tauto.
Qed.
Lemma slots_all_free depth st : table_inv depth [] st -> inflight st = 0 -> slot_items (slots st) = [].
Proof.
  intros [Hl Hp Hb Hf Hn] E. assert (busy [] st = []) as Eb by (apply nil_length_inv; lia). rewrite Eb, app_nil_r in Hp.
  apply slot_items_empty. intros id o Ho. assert (id ∈ free st) as Hid. { rewrite Hp. apply elem_of_seq. apply lookup_lt_Some in Ho. lia. }
  apply Hf in Hid. congruence.
Qed.

(** *** Filling *)
Lemma submit_ok depth entries id fr it st st' : free st = id :: fr -> table_inv depth (cq (uring st)) st ->
  submit_item entries id fr it st = inl st' ->
  table_inv depth (cq (uring st')) st' /\ slot_items (slots st') ≡ₚ it :: slot_items (slots st) /\ cq (uring st') = cq (uring st) /\
  rx st' = rx st /\ backlog st' = backlog st /\ senders st' = senders st /\ rx_closed st' = rx_closed st /\ sent st' = sent st /\ finished st' = finished st /\
  lost st' = lost st /\ cancelled st' = cancelled st /\ fatal_err st' = fatal_err st /\ inflight st' = inflight st + 1.
Proof.
  intros Efr Hi E. pose proof (ids_nodup _ _ _ Hi) as Hnd. destruct Hi as [Hl Hp Hb Hf Hn].
  unfold submit_item in E. case_decide; [|done]. simplify_eq/=. rewrite Efr in *.
  assert (slots st !! id = Some None) as Eid by (apply Hf; by left). pose proof (slot_items_move _ _ _ (Some it) Eid) as Hm. cbn in Hm.
  set (st' := set_ring _ _). assert (busy (cq (uring st)) st' ≡ₚ id :: busy (cq (uring st)) st) as Ebusy.
  { unfold busy. cbn. rewrite <- app_assoc. cbn. symmetry. apply Permutation_middle. }
  apply list.NoDup_cons in Hnd as [Hni Hnd]. rewrite elem_of_app in Hni. split_and!; try done. change (cq (uring st')) with (cq (uring st)). split.
  - cbn. by rewrite length_insert.
  - cbn [free st' set_ring set_table]. by rewrite Ebusy, <- Permutation_middle.
  - intros id'. rewrite Ebusy, elem_of_cons. intros [->|Hid].
    + exists it. cbn. apply list_lookup_insert_eq. by eapply lookup_lt_Some.
    + destruct (Hb _ Hid) as [it' ?]. exists it'. cbn. rewrite list_lookup_insert_ne; [done|]. intros ->. tauto.
  - cbn. intros id' Hid. rewrite list_lookup_insert_ne; [|intros ->; tauto]. apply Hf. by right.
  - rewrite Ebusy. cbn. lia.
Qed.

Lemma next_item_spec st : match next_item st with
  | inl (it, st') => rx st ++ backlog st ≡ₚ it :: rx st' ++ backlog st' /\ (slots st', free st', inflight st', uring st', sent st', finished st', lost st') =
      (slots st, free st, inflight st, uring st, sent st, finished st, lost st) /\ (cancelled st', fatal_err st', senders st', rx_closed st') =
      (cancelled st, fatal_err st, senders st, rx_closed st) /\ length (backlog st') = length (backlog st) - 1 /\
      (rx st = [] -> rx st' = [])
  | inr st' => st' = set_queues [] (rx st) (rx_closed st || negb (senders st)) st /\ rx st = [] /\ backlog st = []
  end.
Proof.
  unfold next_item, try_recv. destruct (backlog st) as [|it l] eqn:Eb.
  - destruct (rx st) as [|it rest] eqn:Er.
    + destruct st as [? ? ? ? c ? ? ? ? ? b]. cbn in *; subst. destruct b; cbn; by rewrite ?orb_false_r, ?orb_true_r.
    + done.
  - cbn. split_and!; [by rewrite Permutation_middle|done|done|lia|done].
Qed.
Definition same (st st' : io_state) : Prop :=
  (slots st', free st', inflight st', uring st', sent st', finished st', lost st') = (slots st, free st, inflight st, uring st, sent st, finished st, lost st) /\
  (rx st', backlog st', senders st', rx_closed st') = (rx st, backlog st, senders st, rx_closed st).
Lemma inv_relabel depth st st' : same st st' -> (live (pc st') = true -> live (pc st) = true) -> (pc st' <> Gone -> pc st <> Gone) ->
  io_inv depth st -> io_inv depth st'.
Proof.
  intros [E1 E2] Hlive Hgone [Ht Ha Hl Hc]. injection E1 as Es Ef Ei Eu Esn Efi Elo. injection E2 as Er Eb Ese Erc. unfold accounted in *.
  split; unfold accounted; rewrite ?Es, ?Ef, ?Ei, ?Eu, ?Esn, ?Efi, ?Elo, ?Er, ?Eb, ?Ese, ?Erc; auto.
  intros H. eapply (table_ext _ _ st); eauto using busy_frame.
Qed.
Lemma fill_inv depth entries pushed st : pc st = Filling pushed -> io_inv depth st -> io_inv depth (fill_one depth entries pushed st).
Proof.
  intros Epc Hi. pose proof Hi as [Ht Ha Hl Hc]. rewrite Epc in *. specialize (Ht eq_refl). unfold fill_one.
  case_decide; [|apply (inv_relabel _ st); [by split|cbn; by rewrite Epc..|done]].
  destruct (free st) as [|id fr] eqn:Efr; [apply (inv_relabel _ st); [by split|cbn; by rewrite Epc..|done]|].
  pose proof (next_item_spec st) as Hn. destruct (next_item st) as [[it st1]|st1].
  - destruct Hn as (Hp & E1 & E2 & _ & Hrx0). injection E1 as Es Ef Ei Eu Esn Efi Elo. injection E2 as Eca Efa Ese Erc.
    assert (table_inv depth (cq (uring st1)) st1) as Ht1 by (rewrite Eu; eapply (table_ext _ _ st); eauto using busy_frame).
    assert (forall st2, sent st2 = sent st1 -> lost st2 = lost st1 -> finished st2 = finished st1 -> rx st2 = rx st1 ->
              backlog st2 ++ slot_items (slots st2) ≡ₚ it :: backlog st1 ++ slot_items (slots st1) -> accounted st2) as Hacc.
    { unfold accounted in *. intros st2 -> -> -> -> Hb. rewrite Esn, Ha, Efi, Elo, (app_assoc (backlog st2)), Hb, app_assoc, Hp, Es. cbn.
      by rewrite <- !Permutation_middle, <- !app_assoc. }
    destruct (submit_item entries id fr it st1) as [st2|st2] eqn:Esub.
    + apply (submit_ok depth) in Esub as (Ht2 & Hsl & _ & Hrx & Hbl & Hse & Hrc & Hsn & Hfi & Hlo & _); [|by rewrite Ef|done].
      split; cbn; [intros; by eapply (table_ext _ _ st2)| |rewrite Hlo, Elo; intros; by apply Hl|].
      * apply (Hacc st2); try done. rewrite Hsl, Hbl. symmetry. apply Permutation_middle.
      * rewrite Hrc, Erc, Hrx, Hse, Ese. intros [Hr Hs]%Hc. auto.
    + unfold submit_item in Esub. case_decide; [done|]. simplify_eq. split; cbn; [intros; by eapply (table_ext _ _ st1)| |rewrite Elo; intros; by apply Hl|].
      * by apply Hacc.
      * rewrite Erc, Ese. intros [Hr Hs]%Hc. auto.
  - destruct Hn as (-> & Er & Eb). split; cbn; [intros; by eapply (table_ext _ _ st)| |intros; by apply Hl|].
    + unfold accounted in *. cbn. by rewrite Ha, Eb.
    + rewrite Er. intros [H1|H1]%orb_true_iff; [by apply Hc in H1 as [_ ?]|]. by destruct (senders st).
Qed.

(** *** The other sections *)
Lemma fail_all_accounted st : accounted st -> accounted (fail_all st).
Proof.
  unfold accounted, fail_all. cbn. intros ->. rewrite slot_items_none. cbn. rewrite !fmap_app, <- !list_fmap_compose. cbn.
  rewrite !list_fmap_id. f_equiv. rewrite (app_assoc (backlog st)), (app_assoc (_ ++ _) _ (lost st)). f_equiv. apply Permutation_app_comm.
Qed.
Lemma reap_section depth st st' : live (pc st) = true -> io_inv depth st -> same (reap_all st) st' -> live (pc st') = true -> io_inv depth st'.
Proof.
  intros Hlive [Ht Ha Hl Hc] Hs Hlive'. apply (inv_relabel _ (at_pc Reaping (reap_all st))); [by destruct Hs|done|done|].
  destruct (reap_all_inv _ _ (Ht Hlive) Ha) as (Ht1 & Ha1 & E1 & E2 & E3 & E4 & E5 & E6 & E7 & E8 & E9).
  split; cbn; [intros _; by eapply (table_ext _ _ (reap_all st))|done| |].
  - rewrite E9. intros _. apply Hl. by destruct (pc st).
  - by rewrite E4, E5, E7.
Qed.
Lemma submissions_inv depth k p st : live (pc st) = true -> io_inv depth st -> p <> Gone -> io_inv depth (at_pc p (take_submissions k st)).
Proof.
  intros Hlive [Ht Ha Hl Hc] Hp. split; cbn; [|done|intros _; apply Hl; by destruct (pc st)|done].
  intros _. eapply (table_perm _ (cq (uring st)) _ st); [done..| |auto]. unfold busy. cbn.
  rewrite <- (app_assoc (kernel _)), (Permutation_app_swap_app (kernel _)), app_assoc. f_equiv.
  rewrite Permutation_app_comm. by rewrite take_drop.
Qed.
Ltac relabel st := apply (inv_relabel _ st); [by split|cbn; by intros; simplify_eq/=..|done].
Lemma turn_inv depth entries o st st' : io_inv depth st -> io_turn depth entries o st = Some st' -> io_inv depth st'.
Proof.
  intros Hi. unfold io_turn. destruct (pc st) as [| | |pushed|pushed| | | |submitted| | |] eqn:Epc; intros E; simplify_eq.
  - eapply (reap_section _ st); [by rewrite Epc|done| |]; by destruct (fatal_err (reap_all st)).
  - destruct (cancelled st).
    + destruct Hi as [Ht Ha Hl Hc]. split; cbn; [done|by apply fail_all_accounted|intros _; apply Hl; by rewrite Epc|done].
    + apply (inv_relabel _ st); [by split|by rewrite Epc..|done].
  - unfold try_recv in E. destruct Hi as [Ht Ha Hl Hc]. rewrite Epc in *. destruct (rx st) as [|it rest] eqn:Er.
    + destruct (senders st) eqn:Es; simplify_eq; (split; cbn; [done|done|by intros; apply Hl|rewrite ?Er, ?Es; done]).
    + simplify_eq. split; cbn; [by rewrite Epc|  |intros _; by apply Hl|intros [? _]%Hc; done].
      unfold accounted in *. cbn. rewrite Ha, Er, fmap_app. cbn. rewrite <- (app_assoc _ [it]). cbn. by rewrite !Permutation_middle.
  - by apply fill_inv.
  - destruct pushed as [|pushed]; [simplify_eq; apply (inv_relabel _ st); [by split|by rewrite Epc..|done]|].
    destruct o as [k|]; simplify_eq; [apply submissions_inv; [by rewrite Epc|done..]|apply (inv_relabel _ st); [by split|by rewrite Epc..|done]].
  - eapply (reap_section _ st); [by rewrite Epc|done| |]; by destruct (fatal_err (reap_all st)).
  - apply (inv_relabel _ st); [|by rewrite Epc..|done]. repeat case_match; by split.
  - destruct o as [k|]; simplify_eq; [apply submissions_inv; [by rewrite Epc|done..]|apply (inv_relabel _ st); [by split|by rewrite Epc..|done]].
  - destruct o as [k|], submitted; try destruct (cq (uring st)); simplify_eq; (apply (inv_relabel _ st); [by split|by rewrite Epc..|done]).
  - unfold try_recv in E. destruct Hi as [Ht Ha Hl Hc]. rewrite Epc in *. destruct (rx st) as [|it rest] eqn:Er.
    + destruct (senders st) eqn:Es; simplify_eq. split; cbn; [intros; eapply (table_ext _ _ st); eauto|unfold accounted in *; cbn; by rewrite Ha, Er|by intros; apply Hl|done].
    + simplify_eq. split; cbn; [intros; by eapply (table_ext _ _ st); eauto| |intros _; by apply Hl|intros [? _]%Hc; done].
      unfold accounted in *. cbn. rewrite Ha, Er. cbn. rewrite <- (app_assoc _ [it]). cbn. by rewrite !Permutation_middle.
  - destruct Hi as [Ht Ha Hl Hc]. rewrite Epc in *. split; cbn; [done| |done|by intros [_ ?]%Hc].
    unfold accounted in *. cbn. rewrite Ha, Hl by done. rewrite app_nil_r. cbn -[slot_items]. by rewrite (Permutation_app_comm (rx st)), <- !app_assoc.
Qed.
Lemma io_step_inv depth entries st e st' : io_inv depth st -> io_step depth entries st e = Some st' -> io_inv depth st'.
Proof.
  intros Hi. destruct e as [o|it| |id res]; cbn [io_step]; intros E.
  - by eapply turn_inv.
  - destruct (senders st && _ && _) eqn:Es; [|done]. apply andb_true_iff in Es as [[Es _]%andb_true_iff _]. simplify_eq. destruct Hi as [Ht Ha Hl Hc]. split; cbn; [intros; by eapply (table_ext _ _ st); eauto| |done|].
    + unfold accounted in *. cbn. rewrite Ha, <- (app_assoc (rx st) [it]), <- (app_assoc (rx st) _ [it]). f_equiv. apply Permutation_app_comm.
    + intros [_ ?]%Hc. congruence.
  - simplify_eq. destruct Hi as [Ht Ha Hl Hc]. split; cbn; [intros; by eapply (table_ext _ _ st); eauto|done|done|]. by intros [? _]%Hc.
  - case_decide as Hid; [|done]. simplify_eq. destruct Hi as [Ht Ha Hl Hc]. split; cbn; [|done..]. intros Hlive.
    specialize (Ht Hlive). eapply (table_perm _ (cq (uring st)) _ st); [done..| |done]. unfold busy. cbn.
    pose proof (ids_nodup _ _ _ Ht) as Hnd. unfold busy in Hnd. rewrite !list.NoDup_app in Hnd.
    rewrite (remove_one (kernel (uring st)) id) at 2 by tauto. rewrite fmap_app. cbn. f_equiv.
    rewrite app_assoc, Permutation_app_comm. cbn. done.
Qed.
Lemma io_start_inv depth : io_inv depth (io_start depth).
Proof.
  split; cbn; [intros _|unfold accounted; cbn; by rewrite slot_items_none|done|done]. split; cbn.
  - apply length_replicate.
  - by rewrite app_nil_r.
  - by intros id []%not_elem_of_nil.
  - intros id Hid%elem_of_seq. apply lookup_replicate. split; [done|lia].
  - done.
Qed.
Lemma io_reaches_inv depth entries ok st : io_reaches depth entries ok st -> io_inv depth st.
Proof. induction 1; eauto using io_start_inv, io_step_inv. Qed.

(** ** Runs without failing system calls
    The kernel takes every submission, no system call fails, no read returns
    more than was asked for, and reads carry their completion sender. *)
Definition quiet (st : io_state) (e : io_event) : Prop :=
  match e with
  | Turn (SysOk k) => length (sq (uring st)) <= k
  | Turn SysErr => False
  | Send it => op it <> OpRead false
  | SendersGone => True
  | Complete id res => forall it, slots st !! id = Some (Some it) -> (res <= op_len it)%Z
  end.
(** What the kernel's result for an operation stands for: an error number,
    the bytes written in full or in part, or the bytes read *)
Definition answers (it : OpCode) (res : Z) (o : op_outcome) : Prop :=
  match op it with
  | OpWrite => (res < 0)%Z /\ o = WriteFailed (- res) \/ (0 <= res)%Z /\ res = op_len it /\ o = Wrote \/
      (0 <= res)%Z /\ res <> op_len it /\ o = ShortWrite res
  | OpRead _ => (res < 0)%Z /\ o = ReadFailed (- res) \/ (0 <= res)%Z /\ o = ReadDone res
  end.
Definition answered (c : OpCode * Z) (f : OpCode * op_outcome) : Prop := f.1 = c.1 /\ answers c.1 c.2 f.2.
(** A completion that has not been reaped yet *)
Definition unreaped (sl : list (option OpCode)) (c : OpCode * Z) (q : nat * Z) : Prop := sl !! q.1 = Some (Some c.1) /\ q.2 = c.2.
(** All the kernel has reported: first what was finished with it, in order,
    then what is in the completion queue *)
Definition traced (tr : list (OpCode * Z)) (fin : list (OpCode * op_outcome)) (sl : list (option OpCode)) (q : list (nat * Z)) : Prop :=
  exists reaped pending, tr = reaped ++ pending /\ Forall2 answered reaped fin /\ Forall2 (unreaped sl) pending q.
Definition good_cqe (sl : list (option OpCode)) (c : nat * Z) : Prop :=
  forall it, sl !! c.1 = Some (Some it) -> op it <> OpRead false /\ (c.2 <= op_len it)%Z.
Definition pc_facts (st : io_state) : Prop :=
  match pc st with
  | Draining => False
  | Leaving | Gone => rx st = [] /\ backlog st = [] /\ slot_items (slots st) = [] /\ senders st = false /\ kernel (uring st) = []
  | Receiving => inflight st = 0 /\ rx_closed st = false
  | Waiting => 0 < inflight st
  | Sleeping _ => 0 < inflight st /\ sq (uring st) = []
  | _ => True
  end.
Record quiet_inv (tr : list (OpCode * Z)) (st : io_state) : Prop := {
  qi_clean : cancelled st = false /\ fatal_err st = None;
  qi_sent : Forall (fun it => op it <> OpRead false) (sent st);
  qi_cq : Forall (good_cqe (slots st)) (cq (uring st));
  qi_pc : pc_facts st;
  qi_backlog : backlog st = [] \/ (inflight st = 0 /\ length (backlog st) = 1 /\ match pc st with Reaping | Checking | Filling O => True | _ => False end);
  qi_finished : traced tr (finished st) (slots st) (cq (uring st));
  qi_lost : lost st = [];
}.

Lemma completion_good it res : op it <> OpRead false -> (res <= op_len it)%Z -> snd (completion it res) = false.
Proof. intros Hop Hres. unfold completion. destruct (op it) as [[]|]; try done. case_match; [done|]. case_match; [lia|done]. Qed.
Lemma good_cqe_reaped sl id c : Forall (good_cqe sl) c -> Forall (good_cqe (<[id := None]> sl)) c.
Proof.
  intros H. apply (list.Forall_impl _ _ _ H). intros [id' res] Hg it E. cbn in *. apply (Hg it). cbn.
  apply list_lookup_insert_Some in E as [(-> & ? & ?)|[? ?]]; done.
Qed.
Lemma completion_answers it res : op it <> OpRead false -> (res <= op_len it)%Z -> answers it res (fst (completion it res)).
Proof.
  intros Hop Hres. unfold completion, answers. destruct (op it) as [[]|]; [|done|].
  - destruct (Z.ltb_spec res 0); [by left|]. destruct (Z.ltb_spec (op_len it) res); [lia|]. by right.
  - cbn [fst]. destruct (Z.ltb_spec res 0); [by left|]. destruct (Z.eqb_spec res (op_len it)); auto.
Qed.
Lemma unreaped_insert sl id x pending q : id ∉ q.*1 -> Forall2 (unreaped sl) pending q -> Forall2 (unreaped (<[id := x]> sl)) pending q.
Proof.
  intros Hid H. induction H as [|c [id' res] cs q [H1 H2] _ IH]; [done|]. cbn in Hid. apply not_elem_of_cons in Hid as [Hne Hid].
  constructor; [|auto]. split; [|done]. cbn in *. by rewrite list_lookup_insert_ne.
Qed.
Lemma reap_quiet depth tr c st : table_inv depth c st -> Forall (good_cqe (slots st)) c -> cancelled st = false -> fatal_err st = None ->
  traced tr (finished st) (slots st) c ->
  cancelled (foldl reap_one st c) = false /\ fatal_err (foldl reap_one st c) = None /\
  traced tr (finished (foldl reap_one st c)) (slots (foldl reap_one st c)) [].
Proof.
  revert st. induction c as [|[id res] c IH]; intros st Ht Hg Hc Hf Hr; [done|]. cbn [foldl].
  apply list.Forall_cons in Hg as [Hg Hgs]. destruct (ti_busy _ _ _ Ht id) as [it Hit]; [rewrite busy_cons; by left|].
  destruct (Hg it Hit) as [Hop Hres]. cbn in Hres. pose proof (completion_good _ _ Hop Hres) as Hcomp.
  assert (reap_one st (id, res) = add_finished [(it, fst (completion it res))] (set_table (<[id := None]> (slots st)) (free st ++ [id]) (inflight st - 1) st)) as E.
  { unfold reap_one. rewrite Hit. cbn [mjoin option_join]. destruct (completion it res) as [o b]. cbn in Hcomp. by subst. }
  apply IH; [by apply reap_one_table|rewrite E; by apply good_cqe_reaped|by rewrite E..|rewrite E].
  destruct Hr as (reaped & pending & -> & Hfin & Hpend). inversion Hpend as [|[it' res'] ? pend ? [Hs Hv] Hpend']; subst. cbn in Hs, Hv. simplify_eq.
  exists (reaped ++ [(it, res')]), pend. cbn. split_and!; [by rewrite <- app_assoc| |].
  - apply Forall2_app; [done|]. constructor; [|done]. split; [done|]. by apply completion_answers.
  - apply unreaped_insert; [|done]. pose proof (ids_nodup _ _ _ Ht) as Hnd. rewrite busy_cons in Hnd.
    apply list.NoDup_app in Hnd as (_ & _ & [Hni _]%list.NoDup_cons). unfold busy in Hni. rewrite !elem_of_app in Hni. tauto.
Qed.
Lemma reap_all_quiet depth tr st : table_inv depth (cq (uring st)) st -> quiet_inv tr st ->
  cancelled (reap_all st) = false /\ fatal_err (reap_all st) = None /\ traced tr (finished (reap_all st)) (slots (reap_all st)) [].
Proof.
  intros Ht [[Hc Hf] _ Hcq _ _ Hr _]. unfold reap_all. eapply reap_quiet; try done. by eapply (table_ext _ _ st).
Qed.
Lemma reap_all_inflight depth st : table_inv depth (cq (uring st)) st -> accounted st -> inflight (reap_all st) <= inflight st.
Proof.
  intros Ht Ha. destruct (reap_all_inv _ _ Ht Ha) as (Ht1 & _ & E1 & E2 & E3 & _). rewrite (ti_inflight _ _ _ Ht), (ti_inflight _ _ _ Ht1).
  unfold busy. rewrite E1, E2, E3, !length_app. cbn. lia.
Qed.
Lemma reap_quiet_inv depth tr st p : io_inv depth st -> live (pc st) = true -> quiet_inv tr st ->
  match p with Checking => pc st = Reaping | Deciding => pc st = ReapingAgain | _ => False end -> quiet_inv tr (at_pc p (reap_all st)).
Proof.
  intros Hi Hlive Hq Hp. specialize (inv_table _ _ Hi Hlive) as Ht. destruct (reap_all_inv _ _ Ht (inv_account _ _ Hi)) as (Ht1 & Ha1 & E1 & E2 & E3 & E4 & E5 & E6 & E7 & E8 & E9).
  destruct (reap_all_quiet _ _ _ Ht Hq) as (H1 & H2 & H3). pose proof (reap_all_inflight _ _ Ht (inv_account _ _ Hi)) as Hn. destruct Hq as [_ Hs _ _ Hb _ Hlo].
  split; cbn; [done|by rewrite E8|by rewrite E1|by destruct p| |by rewrite E1|by rewrite E9].
  rewrite E6. destruct Hb as [Hb|(Hb & Hb1 & Hb2)]; [by left|]. destruct p; try done; rewrite Hp in Hb2; [|done]. right. split_and!; [lia|done|done].
Qed.

Lemma quiet_relabel tr st st' : same st st' -> cancelled st' = cancelled st -> fatal_err st' = fatal_err st -> pc_facts st' -> 
  (backlog st = [] \/ match pc st' with Reaping | Checking | Filling O => True | _ => False end) -> quiet_inv tr st -> quiet_inv tr st'.
Proof.
  intros [E1 E2] Ec Ef Hp Hb' [Hc Hs Hcq _ Hb Hr Hlo]. injection E1 as Es Efr Ei Eu Esn Efi Elo. injection E2 as Er Eb Ese Erc.
  split; rewrite ?Es, ?Efr, ?Ei, ?Eu, ?Esn, ?Efi, ?Elo, ?Er, ?Eb, ?Ec, ?Ef; try done. destruct Hb as [?|(? & ? & _)], Hb'; auto.
Qed.
Lemma slots_empty depth c st : table_inv depth c st -> inflight st = 0 -> slot_items (slots st) = [] /\ c = [] /\ length (free st) = depth.
Proof.
  intros Ht E. assert (busy c st = []) as Eb by (apply nil_length_inv; rewrite <- (ti_inflight _ _ _ Ht); lia).
  assert (c = []) as -> by (unfold busy in Eb; apply app_nil in Eb as [_ [_ ?%fmap_nil_inv]%app_nil]; done).
  split_and!; [by eapply slots_all_free|done|]. pose proof (ti_ids _ _ _ Ht) as Hp. rewrite Eb, app_nil_r in Hp. rewrite Hp. apply length_seq.
Qed.
Lemma kernel_empty depth c st : table_inv depth c st -> inflight st = 0 -> kernel (uring st) = [].
Proof.
  intros Ht E. assert (busy c st = []) as Eb by (apply nil_length_inv; rewrite <- (ti_inflight _ _ _ Ht); lia).
  unfold busy in Eb. by apply app_nil in Eb as [_ [? _]%app_nil].
Qed.
Lemma free_not_completed depth st id : table_inv depth (cq (uring st)) st -> id ∈ free st -> id ∉ (cq (uring st)).*1.
Proof.
  intros Ht Hid Hc. pose proof (ids_nodup _ _ _ Ht) as (_ & Hd & _)%list.NoDup_app. apply (Hd id Hid). unfold busy. rewrite !elem_of_app. auto.
Qed.
Lemma traced_submitted tr fin sl q id x : id ∉ q.*1 -> traced tr fin sl q -> traced tr fin (<[id := x]> sl) q.
Proof. intros Hid (r & p & ? & ? & ?). exists r, p. split_and!; [done..|]. by apply unreaped_insert. Qed.
Lemma good_cqe_submitted depth st id it : table_inv depth (cq (uring st)) st -> id ∈ free st -> Forall (good_cqe (slots st)) (cq (uring st)) ->
  Forall (good_cqe (<[id := Some it]> (slots st))) (cq (uring st)).
Proof.
  intros Ht Hid Hg. apply list.Forall_forall. intros [id' res] Hc it' E. cbn in *.
  assert (id' <> id) as Hne.
  { intros ->. apply (free_not_completed _ _ _ Ht Hid). apply list_elem_of_fmap. by exists (id, res). }
  rewrite list_lookup_insert_ne in E by done. rewrite list.Forall_forall in Hg. by apply (Hg _ Hc it').
Qed.
Lemma fill_quiet depth entries pushed tr st : 1 <= depth <= entries -> pc st = Filling pushed -> io_inv depth st -> quiet_inv tr st ->
  quiet_inv tr (fill_one depth entries pushed st).
Proof.
  intros Hd Epc Hi Hq. specialize (inv_table _ _ Hi) as Ht. rewrite Epc in Ht. specialize (Ht eq_refl). pose proof Hq as [Hc Hs Hcq _ Hb Hr Hlo]. unfold fill_one.
  case_decide as Hin; [|apply (quiet_relabel _ st); [by split|done..| |done]; destruct Hb as [?|(? & ? & _)]; [by left|lia]].
  destruct (free st) as [|id fr] eqn:Efr.
  { apply (quiet_relabel _ st); [by split|done..| |done]. destruct Hb as [?|(H0 & _ & _)]; [by left|].
    destruct (slots_empty _ _ _ Ht H0) as (_ & _ & Hl). rewrite Efr in Hl. cbn in Hl. lia. }
  pose proof (next_item_spec st) as Hn. destruct (next_item st) as [[it st1]|st1].
  - destruct Hn as (Hp & E1 & E2 & Hbl & Hrx0). injection E1 as Es Ef Ei Eu Esn Efi Elo. injection E2 as Eca Efa Ese Erc.
    assert (table_inv depth (cq (uring st1)) st1) as Ht1 by (rewrite Eu; eapply (table_ext _ _ st); eauto using busy_frame).
    assert (backlog st1 = []) as Hb1 by (apply nil_length_inv; destruct Hb as [Hb0|(_ & ? & _)]; [rewrite Hb0 in Hbl; cbn in Hbl|]; lia).
    destruct (submit_item entries id fr it st1) as [st2|st2] eqn:Esub.
    + unfold submit_item in Esub. case_decide; [|done]. simplify_eq. split; cbn.
      * by rewrite Eca, Efa.
      * by rewrite Esn.
      * eapply good_cqe_submitted; eauto; [rewrite Ef, Efr; by left|by rewrite Es, Eu].
      * done.
      * by left.
      * rewrite Efi. apply traced_submitted; [|by rewrite Es, Eu]. eapply free_not_completed; [done|]. rewrite Ef, Efr. by left.
      * by rewrite Elo.
    + unfold submit_item in Esub. case_decide as Hsq; [done|]. exfalso. apply Hsq. pose proof (ti_inflight _ _ _ Ht1) as Hin1.
      unfold busy in Hin1. rewrite length_app in Hin1. lia.
  - destruct Hn as (-> & Er & Eb). split; cbn; try done. by left.
Qed.
Lemma turn_quiet depth entries k tr st st' : 1 <= depth <= entries -> io_inv depth st -> quiet_inv tr st -> length (sq (uring st)) <= k ->
  io_turn depth entries (SysOk k) st = Some st' -> quiet_inv tr st'.
Proof.
  intros Hd Hi Hq Hk. pose proof Hq as [[Hc Hf] Hs Hcq Hp Hb Hr Hlo]. unfold io_turn, pc_facts in *.
  destruct (pc st) as [| | |pushed|pushed| | | |submitted| | |] eqn:Epc; intros E; simplify_eq; try done.
  - destruct (reap_all_quiet depth tr st) as (_ & -> & _); [apply (inv_table _ _ Hi); by rewrite Epc|done|].
    apply (reap_quiet_inv depth); [done|by rewrite Epc|done|done].
  - rewrite Hc. apply (quiet_relabel _ st); try done. by right.
  - by apply fill_quiet.
  - destruct Hb as [Hb|(_ & _ & [])].
    destruct pushed; simplify_eq; [apply (quiet_relabel _ st); [done..|by left|done]|]. split; cbn; try done. by left.
  - destruct (reap_all_quiet depth tr st) as (_ & -> & _); [apply (inv_table _ _ Hi); by rewrite Epc|done|].
    apply (reap_quiet_inv depth); [done|by rewrite Epc|done|done].
  - destruct Hb as [Hb|(_ & _ & [])]. specialize (inv_table _ _ Hi) as Ht. rewrite Epc in Ht. specialize (Ht eq_refl).
    apply (quiet_relabel _ st); [|by repeat case_match..| |by left|done]; [by repeat case_match|].
    destruct (rx_closed st) eqn:Erc; cbn; destruct (inflight st) eqn:En; cbn; rewrite ?Hb; cbn; unfold pc_facts; cbn; try lia; [|done].
    destruct (slots_empty _ _ _ Ht En) as (? & _ & _). pose proof (kernel_empty _ _ _ Ht En). by destruct (inv_closed _ _ Hi Erc).
  - destruct Hb as [Hb|(_ & _ & [])]. split; cbn; try done; [|by left]. split; [done|]. by apply drop_ge.
  - destruct Hb as [Hb|(_ & _ & [])]. destruct (cq (uring st)) eqn:Ecq; simplify_eq. apply (quiet_relabel _ st); try done. by left.
  - destruct Hb as [Hb|(_ & _ & [])]. destruct Hp as [Hp _]. unfold try_recv in E. destruct (rx st) as [|it rest]; [destruct (senders st); [done|]|]; simplify_eq; split; cbn; try done; [by left|].
    rewrite Hb. by right.
  - destruct Hp as (-> & ? & ? & ? & ?). destruct Hb as [Hb|(_ & _ & [])]. split; cbn; try done; [by left|]. by rewrite Hlo.
Qed.
Lemma step_quiet depth entries tr st e st' : 1 <= depth <= entries -> io_inv depth st -> quiet_inv tr st -> quiet st e ->
  io_step depth entries st e = Some st' -> quiet_inv (tr ++ kernel_says st e) st'.
Proof.
  intros Hd Hi Hq Hok. destruct e as [[k|]|it| |id res]; cbn [io_step quiet] in *; intros E; rewrite ?app_nil_r; [by eapply turn_quiet|done|..].
  - destruct (senders st && _ && _) eqn:Es; [|done]. apply andb_true_iff in Es as [[Es _]%andb_true_iff _]. simplify_eq.
    destruct Hq as [Hc Hs Hcq Hp Hb Hr Hlo]. split; cbn; try done.
    + apply list.Forall_app. split; [done|]. by apply list.Forall_singleton.
    + unfold pc_facts in *. cbn. destruct (pc st); try done; destruct Hp as (_ & _ & _ & ? & _); congruence.
  - simplify_eq. destruct Hq as [Hc Hs Hcq Hp Hb Hr Hlo]. split; cbn; try done. unfold pc_facts in *. cbn. destruct (pc st); tauto.
  - case_decide as Hid; [|done]. simplify_eq. destruct Hq as [Hc Hs Hcq Hp Hb Hr Hlo].
    assert (live (pc st) = true) as Hlive.
    { unfold pc_facts in Hp. destruct (pc st); try done; destruct Hp as (_ & _ & _ & _ & Hk); rewrite Hk in Hid; by apply not_elem_of_nil in Hid. }
    assert (exists it, slots st !! id = Some (Some it)) as [it0 Hit0].
    { apply (ti_busy _ _ _ (inv_table _ _ Hi Hlive)). unfold busy. rewrite !elem_of_app. auto. }
    unfold kernel_says. rewrite Hit0. split; cbn; try done; [|by unfold pc_facts in *; cbn; destruct (pc st)|].
    2: { destruct Hr as (reaped & pending & -> & Hfin & Hpend). exists reaped, (pending ++ [(it0, res)]). split_and!; [by rewrite app_assoc|done|].
         apply Forall2_app; [done|]. by repeat constructor. }
    + apply list.Forall_app. split; [done|]. apply list.Forall_singleton. intros it Hit. cbn in *. split; [|by apply Hok].
      rewrite list.Forall_forall in Hs. apply Hs. pose proof (inv_account _ _ Hi) as Ha. unfold accounted in Ha. rewrite Ha, !elem_of_app. right. right. left. by eapply slot_items_elem.
Qed.
Lemma start_quiet depth : quiet_inv [] (io_start depth).
Proof. split; cbn; try done; [by left|]. by exists [], []. Qed.
Lemma traces_quiet depth entries tr st : 1 <= depth <= entries -> io_traces depth entries quiet tr st -> quiet_inv tr st.
Proof. induction 2; eauto using start_quiet, step_quiet, io_reaches_inv, traces_reach. Qed.

(** ** Properties *)

(** C9. Every operation is finished exactly once, with its own result.  In
    every interleaving of the thread with its senders and the kernel in which
    no system call fails, the thread is never cancelled; each operation whose
    send succeeded is in exactly one place (the channel, the backlog, a slot,
    or the list of finished ones, once); the list of the operations that were
    finished, with what they were finished with, is in order what the kernel's
    completions stand for, up to those the thread has not reaped yet, whose
    operations are in their slots; and when the thread ends all operations are
    finished. *)
Theorem io_exactly_once (depth entries : nat) (tr : list (OpCode * Z)) (st : io_state) :
  1 <= depth <= entries -> io_traces depth entries quiet tr st ->
  cancelled st = false /\ fatal_err st = None /\
  sent st ≡ₚ rx st ++ backlog st ++ slot_items (slots st) ++ (finished st).*1 /\
  (exists reaped pending, tr = reaped ++ pending /\ Forall2 answered reaped (finished st) /\ Forall2 (unreaped (slots st)) pending (cq (uring st))) /\
  (pc st = Leaving \/ pc st = Gone -> sent st ≡ₚ (finished st).*1).
Proof.
  intros Hd Hr. pose proof (traces_quiet _ _ _ _ Hd Hr) as [[Hc Hf] _ _ Hp _ Hrep Hlo].
  pose proof (io_reaches_inv _ _ _ _ (traces_reach _ _ _ _ _ Hr)) as [_ Ha _ _].
  unfold accounted in Ha. rewrite Hlo, app_nil_r in Ha. split_and!; try done.
  unfold pc_facts in Hp. intros [E|E]; rewrite E in Hp; destruct Hp as (Er & Eb & Es & _); by rewrite Ha, Er, Eb, Es.
Qed.

(** C10. Buffers are pinned while the kernel may use them.  Whatever the
    system calls return, as long as the thread has not begun to fail its
    operations, every submission the kernel knows (queued, running or
    completed and not yet reaped) has a slot of its own that still holds its
    operation with the buffer, there are at most [depth] of them, and a free
    slot id is no submission's. *)
Theorem io_buffers_pinned (depth entries : nat) (st : io_state) :
  io_reaches depth entries (fun _ _ => True) st -> live (pc st) = true ->
  NoDup (free st ++ busy (cq (uring st)) st) /\ length (busy (cq (uring st)) st) <= depth /\
  forall id, id ∈ busy (cq (uring st)) st -> exists it, slots st !! id = Some (Some it) /\ it ∈ sent st.
Proof.
  intros Hr Hlive. pose proof (io_reaches_inv _ _ _ _ Hr) as Hi. specialize (inv_table _ _ Hi Hlive) as Ht. split_and!.
  - by apply ids_nodup in Ht.
  - pose proof (Permutation_length (ti_ids _ _ _ Ht)) as H. rewrite length_app, length_seq in H. lia.
  - intros id [it Hit]%(ti_busy _ _ _ Ht). exists it. split; [done|]. pose proof (inv_account _ _ Hi) as Ha. unfold accounted in Ha.
    rewrite Ha, !elem_of_app. right. right. left. by eapply slot_items_elem.
Qed.

(** The thread sleeps only when it must: in a run without failing system
    calls it is blocked only after its end, or when no operation is left
    anywhere and a sender may still bring one, or when every submission it
    waits for is with the kernel and none has completed. *)
Theorem io_blocked_only (depth entries k : nat) (st : io_state) :
  1 <= depth <= entries -> io_reaches depth entries quiet st -> io_turn depth entries (SysOk k) st = None ->
  pc st = Gone \/
  (sent st ≡ₚ (finished st).*1 /\ senders st = true) \/
  (kernel (uring st) <> [] /\ sq (uring st) = [] /\ cq (uring st) = []).
Proof.
  intros Hd Hr E. destruct (reaches_trace _ _ _ _ Hr) as [tr Htr]. pose proof (traces_quiet _ _ _ _ Hd Htr) as [_ _ _ Hp Hb _ Hlo]. pose proof (io_reaches_inv _ _ _ _ Hr) as [Ht Ha _ _].
  unfold io_turn, pc_facts in *. destruct (pc st) as [| | |pushed|pushed| | | |submitted| | |] eqn:Epc; try done.
  - by destruct pushed.
  - right. right. destruct Hp as [Hn Hsq]. destruct (cq (uring st)) eqn:Ecq; [|done]. specialize (Ht eq_refl).
    rewrite (ti_inflight _ _ _ Ht) in Hn. unfold busy in Hn. rewrite Hsq in Hn. cbn in Hn. rewrite app_nil_r in Hn. split_and!; [|done..].
    intros Ek. rewrite Ek in Hn. cbn in Hn. lia.
  - right. left. destruct Hp as [Hn _]. destruct Hb as [Hb|(_ & _ & [])]. unfold try_recv in E. destruct (rx st) as [|] eqn:Er; [|done].
    destruct (senders st) eqn:Es; [|done]. destruct (slots_empty _ _ _ (Ht eq_refl) Hn) as (Esl & _ & _).
    unfold accounted in Ha. by rewrite Er, Hb, Esl, Hlo, app_nil_r in Ha.
  - by left.
Qed.

(** A failing wait frees buffers the kernel still owns: when
    [submit_and_wait] fails while operations are in flight, three turns
    later each of them has been failed, its slot is empty and its buffer
    back in the pool, while the kernel has not completed it. *)
Theorem failed_wait_frees_busy_buffers (depth entries : nat) (st : io_state) (o1 o2 : sys_result) :
  io_reaches depth entries (fun _ _ => True) st -> pc st = Sleeping 0 -> cq (uring st) = [] -> fatal_err st = None ->
  exists st', io_run depth entries st [Turn SysErr; Turn o1; Turn o2] = Some st' /\
    kernel (uring st') = kernel (uring st) /\
    forall id, id ∈ kernel (uring st) -> exists it msg, slots st !! id = Some (Some it) /\ slots st' !! id = Some None /\ (it, FailedWith msg) ∈ finished st'.
Proof.
  intros Hr Epc Ecq Ef. pose proof (io_reaches_inv _ _ _ _ Hr) as Hi. specialize (inv_table _ _ Hi) as Ht. rewrite Epc in Ht. specialize (Ht eq_refl).
  set (msg := "io_uring submit_and_wait failed"%string). set (st1 := at_pc Reaping (set_cancel (Some msg) st)).
  assert (io_turn depth entries SysErr st = Some st1) as E1 by (unfold io_turn; by rewrite Epc).
  assert (exists st2, io_turn depth entries o1 st1 = Some st2 /\ (pc st2, cancelled st2, fatal_err st2, slots st2, uring st2) =
            (Checking, true, Some msg, slots st, {| sq := sq (uring st); kernel := kernel (uring st); cq := [] |})) as (st2 & E2 & Est2).
  { eexists. split; [done|]. unfold reap_all. cbn [uring st1 set_cancel at_pc]. by rewrite Ecq. }
  injection Est2 as Epc2 Ec2 Ef2 Es2 Eu2.
  assert (io_turn depth entries o2 st2 = Some (at_pc Draining (fail_all st2))) as E3 by (unfold io_turn; by rewrite Epc2, Ec2).
  unfold io_run. cbn [foldl mbind option_bind io_step]. rewrite E1. cbn [mbind option_bind]. rewrite E2. cbn [mbind option_bind]. rewrite E3.
  eexists. split; [done|]. cbn. rewrite Eu2, Es2. split; [done|]. intros id Hid. destruct (ti_busy _ _ _ Ht id) as [it Hit]; [unfold busy; rewrite !elem_of_app; auto|].
  exists it, msg. split_and!; [done| |].
  - apply lookup_replicate. split; [done|]. by eapply lookup_lt_Some.
  - rewrite elem_of_app. right. apply list_elem_of_fmap. exists it. unfold fail_item, cancel_message. rewrite Ef2. split; [done|]. rewrite elem_of_app. right. by eapply slot_items_elem.
Qed.

(** An operation can be lost: one sent after the cancelled thread has
    drained the channel and before it drops the receiver is accepted, and
    then neither finished nor failed, so its session never ends. *)
Theorem late_item_lost (depth entries : nat) (st : io_state) (it : OpCode) (o : sys_result) :
  io_reaches depth entries (fun _ _ => True) st -> pc st = Leaving -> senders st = true -> length (rx st) < depth ->
  exists st', io_run depth entries st [Send it; Turn o] = Some st' /\
    pc st' = Gone /\ sent st' = sent st ++ [it] /\ finished st' = finished st /\ it ∈ lost st'.
Proof.
  intros Hr Epc Es Hl. unfold io_run. cbn [foldl mbind option_bind io_step]. rewrite Es, Epc, (proj2 (Nat.ltb_lt _ _) Hl). cbn [andb mbind option_bind].
  unfold io_turn. cbn [pc set_channel]. rewrite Epc. eexists. split; [done|]. cbn. split_and!; [done..|]. rewrite !elem_of_app. right. right. by left.
Qed.

(** ** Witnesses *)
Lemma io_run_none depth entries es : foldl (fun o e => st ← o; io_step depth entries st e) None es = None.
Proof. induction es; cbn; done. Qed.
Lemma run_reaches depth entries es st st' : io_reaches depth entries (fun _ _ => True) st -> io_run depth entries st es = Some st' ->
  io_reaches depth entries (fun _ _ => True) st'.
Proof.
  revert st. induction es as [|e es IH]; intros st Hr E; [by injection E as <-|]. unfold io_run in E. cbn [foldl mbind option_bind] in E.
  destruct (io_step depth entries st e) as [st1|] eqn:E1; [|by rewrite io_run_none in E].
  eapply IH; [by eapply reaches_step|done].
Qed.
Fixpoint quiets (depth entries : nat) (st : io_state) (es : list io_event) : Prop :=
  match es with [] => True | e :: es => quiet st e /\ match io_step depth entries st e with Some st' => quiets depth entries st' es | None => True end end.
Fixpoint says (depth entries : nat) (st : io_state) (es : list io_event) : list (OpCode * Z) :=
  match es with
  | [] => []
  | e :: es => kernel_says st e ++ match io_step depth entries st e with Some st' => says depth entries st' es | None => [] end
  end.
Lemma traces_run depth entries es tr st st' : io_traces depth entries quiet tr st -> quiets depth entries st es ->
  io_run depth entries st es = Some st' -> io_traces depth entries quiet (tr ++ says depth entries st es) st'.
Proof.
  revert tr st. induction es as [|e es IH]; intros tr st Hr Hq E; [injection E as <-; by rewrite app_nil_r|].
  unfold io_run in E. cbn [foldl mbind option_bind quiets says] in *.
  destruct Hq as [Hq Hqs]. destruct (io_step depth entries st e) as [st1|] eqn:E1; [|by rewrite io_run_none in E].
  rewrite app_assoc. apply IH; [by eapply traces_step|done|done].
Qed.
Lemma run_quiet depth entries es st st' : io_reaches depth entries quiet st -> quiets depth entries st es -> io_run depth entries st es = Some st' ->
  io_reaches depth entries quiet st'.
Proof.
  revert st. induction es as [|e es IH]; intros st Hr Hq E; [by injection E as <-|]. unfold io_run in E. cbn [foldl mbind option_bind quiets] in *.
  destruct Hq as [Hq Hqs]. destruct (io_step depth entries st e) as [st1|] eqn:E1; [|by rewrite io_run_none in E].
  eapply IH; [by eapply reaches_step|done|done].
Qed.
Definition demo_write : OpCode := {| op := OpWrite; op_off := 0; op_len := 4096; pooled := 3; op_session := 1 |}.
Definition ok1 : io_event := Turn (SysOk 1).
(** One write: submitted, then completed, then the senders leave. *)
Definition demo_submitted : list io_event := [ok1; ok1; Send demo_write; ok1; ok1; ok1; ok1; ok1; ok1].
Definition demo_io : list io_event := demo_submitted ++ [Complete 0 4096; ok1; ok1; SendersGone; ok1; ok1; ok1; ok1; ok1; ok1].
Definition demo_state (es : list io_event) : io_state := default (io_start 1) (io_run 1 1 (io_start 1) es).
Ltac solve_quiets := vm_compute; repeat (split; [done || lia || (intros; simplify_eq; done)|]); done.

Lemma io_exactly_once_witness :
  pc (demo_state demo_io) = Gone /\ finished (demo_state demo_io) = [(demo_write, Wrote)] /\ sent (demo_state demo_io) ≡ₚ (finished (demo_state demo_io)).*1 /\
  io_traces 1 1 quiet [(demo_write, 4096%Z)] (demo_state demo_io).
Proof.
  assert (io_traces 1 1 quiet [(demo_write, 4096%Z)] (demo_state demo_io)) as Hr.
  { apply (traces_run 1 1 demo_io [] (io_start 1)); [apply traces_start|solve_quiets|vm_compute; reflexivity]. }
  destruct (io_exactly_once 1 1 [(demo_write, 4096%Z)] (demo_state demo_io) ltac:(lia) Hr) as (_ & _ & _ & _ & H).
  split_and!; [vm_compute; reflexivity..| |exact Hr]. apply H. right. vm_compute. reflexivity.
Defined.

Lemma io_buffers_pinned_witness : busy (cq (uring (demo_state demo_submitted))) (demo_state demo_submitted) = [0] /\
  exists it, slots (demo_state demo_submitted) !! 0 = Some (Some it) /\ it ∈ sent (demo_state demo_submitted).
Proof.
  split; [vm_compute; reflexivity|]. eapply (io_buffers_pinned 1 1); [|vm_compute; reflexivity|vm_compute; by left].
  eapply (run_reaches 1 1 demo_submitted); [apply reaches_start|vm_compute; reflexivity].
Defined.

Lemma io_blocked_only_witness : io_turn 1 1 (SysOk 1) (demo_state demo_submitted) = None /\ kernel (uring (demo_state demo_submitted)) <> [].
Proof.
  assert (io_reaches 1 1 quiet (demo_state demo_submitted)) as Hr by (eapply (run_quiet 1 1 demo_submitted); [apply reaches_start|solve_quiets|vm_compute; reflexivity]).
  assert (io_turn 1 1 (SysOk 1) (demo_state demo_submitted) = None) as E by (vm_compute; reflexivity). split; [done|].
  destruct (io_blocked_only 1 1 1 (demo_state demo_submitted) ltac:(lia) Hr E) as [H|[[H _]|(H & _)]]; [by vm_compute in H| |done].
  apply Permutation_length in H. by vm_compute in H.
Defined.

Lemma failed_wait_frees_busy_buffers_witness : exists st', io_run 1 1 (demo_state demo_submitted) [Turn SysErr; ok1; ok1] = Some st' /\
  kernel (uring st') = [0] /\ slots st' !! 0 = Some None.
Proof.
  destruct (failed_wait_frees_busy_buffers 1 1 (demo_state demo_submitted) (SysOk 1) (SysOk 1)) as (st' & E & Ek & H);
    [eapply (run_reaches 1 1 demo_submitted); [apply reaches_start|vm_compute; reflexivity]|vm_compute; reflexivity..|].
  exists st'. split; [exact E|]. rewrite Ek. split; [vm_compute; reflexivity|]. destruct (H 0) as (it & msg & _ & H0 & _); [vm_compute; by left|exact H0].
Defined.

(** The thread of the failed wait has drained the channel. *)
Definition demo_leaving : list io_event := demo_submitted ++ [Turn SysErr; ok1; ok1; ok1].
Lemma late_item_lost_witness : pc (demo_state demo_leaving) = Leaving /\
  exists st', io_run 1 1 (demo_state demo_leaving) [Send demo_write; ok1] = Some st' /\ pc st' = Gone /\ finished st' = finished (demo_state demo_leaving) /\ demo_write ∈ lost st'.
Proof.
  split; [vm_compute; reflexivity|].
  destruct (late_item_lost 1 1 (demo_state demo_leaving) demo_write (SysOk 1)) as (st' & E & E1 & _ & E2 & E3);
    [eapply (run_reaches 1 1 demo_leaving); [apply reaches_start|vm_compute; reflexivity]|vm_compute; reflexivity|vm_compute; reflexivity|vm_compute; lia|].
  exists st'. split_and!; [exact E|done..].
Defined.
