(* ===== verification/SigV4.v ===== *)
(** * s32p-support/src/lib.rs: SigV4 verification

    Parsing of the Authorization header and of presigned URLs, the window
    checks, the variants tried, and the mapping of a failure to a response.
    Errors are the message texts of the code, because the response is chosen
    by looking for substrings in them.  Parameters: the [time] crate's date
    parsing, [form_urlencoded::parse], [aws-sigv4]'s signer, Rust's [{:?}]
    rendering of a string, and the clock. *)

From Stdlib Require Import ZArith Lia Ascii.
From stdpp Require Import base list strings numbers option gmap sorting.
From S2P Require Import Prelude RustStr Http Utils S3Resp UriEncoding.

Local Open Scope s3_scope.
Local Open Scope string_scope.
Local Open Scope Z_scope.

(** [SigV4Auth] and [PresignedSigV4Auth] *)
Record SigV4Auth := {
  access_key : string; scope_date : string; region : string; service : string;
  signed_headers : string; signature : string;
}.

Record PresignedSigV4Auth := {
  p_auth : SigV4Auth;
  amz_date : string;
  expires : Z;
  security_token : option string;
}.

Definition HEADER_SIGV4_MAX_SKEW : duration := from_secs (15 * 60).
Definition PRESIGN_MAX_EXPIRES : Z := 7 * 24 * 60 * 60.

(** What is handed to [aws-sigv4]: the body mode, and the settings the two
    callers choose. *)
Inductive SignableBody := UnsignedPayload | Precomputed (hash : string).

Record signing_params := {
  sp_access_key : string; sp_secret : string; sp_token : option string;
  sp_region : string; sp_service : string; sp_time : system_time;
  sp_expires : option Z;   (* presigned: query-string signature with this lifetime *)
}.

(** [validate_sigv4_format] *)
Definition validate_sigv4_format (sig date : string) : res string unit :=
  if negb (Z.of_nat (String.length sig) =? 64) then
    Err ("signature wrong length: got " +:+ print_u64 (Z.of_nat (String.length sig)) +:+ " expected 64")
  else if negb (all_bytes is_ascii_hexdigit sig) then Err "signature contains non-hex character"
  else if negb (Z.of_nat (String.length date) =? 8) then
    Err ("scope date wrong length: got " +:+ print_u64 (Z.of_nat (String.length date)) +:+ " expected 8")
  else if negb (all_bytes is_ascii_digit date) then Err "scope date contains non-digit character"
  else Ok tt.

(** [require_host_signed] *)
Definition require_host_signed (signed : string) : res string unit :=
  ensure (existsb (fun h => eq_ignore_ascii_case (trim h) "host") (split ";" signed))
    "SignedHeaders must include 'host' (AWS SigV4 requirement)".

(** [access_key/YYYYMMDD/region/service/...]; [what] is the field's name in
    the error texts. *)
Definition split_credential (what credential : string) : res string (string * string * string * string) :=
  match split "/" credential with
  | [] => Err ("bad " +:+ what)
  | [_] => Err ("bad " +:+ what +:+ " date")
  | [_; _] => Err ("bad " +:+ what +:+ " region")
  | [_; _; _] => Err ("bad " +:+ what +:+ " service")
  | k :: d :: r :: s :: _ => Ok (k, d, r, s)
  end.

(** The field loop of [parse_authorization]: the last occurrence wins. *)
Record auth_fields := {
  f_credential : option string; f_signed_headers : option string; f_signature : option string;
}.

Definition add_field (acc : auth_fields) (part : string) : auth_fields :=
  match split_once "=" (trim part) with
  | None => acc
  | Some (k, v) =>
      let k := trim k in
      if k =s "Credential" then
        {| f_credential := Some (trim v); f_signed_headers := f_signed_headers acc; f_signature := f_signature acc |}
      else if k =s "SignedHeaders" then
        {| f_credential := f_credential acc; f_signed_headers := Some (trim v); f_signature := f_signature acc |}
      else if k =s "Signature" then
        {| f_credential := f_credential acc; f_signed_headers := f_signed_headers acc; f_signature := Some (trim v) |}
      else acc
  end.

Definition no_fields : auth_fields :=
  {| f_credential := None; f_signed_headers := None; f_signature := None |}.

(** [headers.get(name).ok_or(missing)?.to_str().map_err(bad)?] *)
Definition header_text (headers : header_map) (name missing bad : string) : res string string :=
  v ← ok_or (hm_get headers name) missing;
  ok_or v bad.

(** [parse_authorization] *)
Definition parse_authorization (headers : header_map) : res string SigV4Auth :=
  auth ← header_text headers "authorization" "missing Authorization" "bad Authorization";
  '(algo, rest) ← ok_or (split_once " " auth) "bad Authorization format";
  if negb (trim algo =s "AWS4-HMAC-SHA256") then Err ("unsupported auth algo: " +:+ algo)
  else
    let fields := foldl add_field no_fields (split "," rest) in
    credential ← ok_or (f_credential fields) "missing Credential";
    signed ← ok_or (f_signed_headers fields) "missing SignedHeaders";
    sig ← ok_or (f_signature fields) "missing Signature";
    _ ← require_host_signed signed;
    '(k, d, r, s) ← split_credential "Credential" credential;
    Ok {| access_key := k; scope_date := d; region := r; service := s;
          signed_headers := signed; signature := sig |}.

(** The text up to the first [,] or white space. *)
Fixpoint until_separator (s : string) : string :=
  match s with
  | "" => ""
  | String c s' =>
      if (c =c ",") || (match strip_ws s with Some _ => true | None => false end) then ""
      else String c (until_separator s')
  end%string.

(** [extract_access_key] *)
Definition extract_access_key (headers : header_map) : res string string :=
  auth ← header_text headers "authorization" "missing Authorization" "bad Authorization";
  '(_, after) ← ok_or (split_at_str "Credential=" auth) "missing Credential in Authorization";
  let cred_val := until_separator after in
  k ← ok_or (head (split "/" cred_val)) "bad Credential value";
  if is_empty k then Err "empty access key in Credential" else Ok k.

(** [truncate_sig]: slicing inside a UTF-8 character panics. *)
Definition is_continuation (c : ascii) : bool := in_range 0x80 0xBF c.

Definition truncate_sig (s : string) : res string string :=
  if (String.length s <=? 8)%nat then Ok s
  else match String.get 8 s with
       | Some c => if is_continuation c then Panics else Ok (String.substring 0 8 s +:+ "...")
       | None => Ok (String.substring 0 8 s +:+ "...")
       end.

(** [path_variants_for_sigv4] *)
Definition path_variants_for_sigv4 (path_and_query : string) : list string :=
  let '(path, query) :=
    match split_once "?" path_and_query with
    | Some (p, q) => (p, Some q)
    | None => (path_and_query, None)
    end in
  let canonical := canonicalize_uri_path_for_sigv4 path in
  if negb (canonical =s path) then
    [path_and_query; match query with Some q => canonical +:+ "?" +:+ q | None => canonical end]
  else [path_and_query].

(** [host_header_variants]: [None] is the value as received. *)
Definition split_host_port (host_val : string) : string * option string :=
  match strip_prefix "[" host_val with
  | Some rest =>
      match split_at_str "]:" rest with
      | Some (n, p) => ("[" +:+ n +:+ "]", Some p)
      | None => (host_val, None)
      end
  | None =>
      match rsplit_once ":" host_val with
      | Some (n, p) => if contains_char ":" n then (host_val, None) else (n, Some p)
      | None => (host_val, None)
      end
  end.

Definition find_host (headers : list (string * string)) : option string :=
  snd <$> find (fun kv => fst kv =s "host") headers.

Definition host_header_variants (headers : list (string * string)) : list (option string) :=
  match find_host headers with
  | None => [None]
  | Some host_val =>
      let '(name, port) := split_host_port host_val in
      match port with
      | Some p => if (p =s "80") || (p =s "443") then [None; Some name] else [None]
      | None => [None; Some (name +:+ ":443"); Some (name +:+ ":80")]
      end
  end.

(** [slot.1 = new_host] on the first [host] entry *)
Fixpoint set_host (new_host : string) (headers : list (string * string)) : list (string * string) :=
  match headers with
  | [] => []
  | (k, v) :: rest => if k =s "host" then (k, new_host) :: rest else (k, v) :: set_host new_host rest
  end.

Definition attempt_headers (headers : list (string * string)) (variant : option string)
    : list (string * string) :=
  match variant with None => headers | Some h => set_host h headers end.

(** The lower-cased header map; [skip] leaves out one name. *)
Fixpoint lower_headers (skip : option string) (l : list (string * header_value)) (acc : gmap string string)
    : res string (gmap string string) :=
  match l with
  | [] => Ok acc
  | (name, value) :: l =>
      let n := to_ascii_lowercase name in
      if bool_decide (skip = Some n) then lower_headers skip l acc
      else
        v ← ok_or value ("non-utf8 header value for " +:+ n);
        lower_headers skip l (<[n := trim v]> acc)
  end.

(** The headers listed in [SignedHeaders], in that order. *)
Fixpoint select_signed (names : list string) (m : gmap string string) : res string (list (string * string)) :=
  match names with
  | [] => Ok []
  | h :: names =>
      let h := to_ascii_lowercase (trim h) in
      if is_empty h then select_signed names m
      else
        v ← ok_or (m !! h) ("signed header '" +:+ h +:+ "' missing in request");
        rest ← select_signed names m;
        Ok ((h, v) :: rest)
  end.

Definition is_presign_param (key_lc : string) : bool :=
  existsb (String.eqb key_lc)
    ["x-amz-algorithm"; "x-amz-credential"; "x-amz-date"; "x-amz-expires"; "x-amz-signedheaders";
     "x-amz-signature"; "x-amz-security-token"]%string.

(** ** The mismatch diagnostic *)

(** [slice::sort] and [sort_by]: stable. *)
Section sorting.
Context {A : Type} (le : A -> A -> bool).
Fixpoint insert_sorted (x : A) (l : list A) : list A :=
  match l with
  | [] => [x]
  | y :: l' => if le x y then x :: l else y :: insert_sorted x l'
  end.
Definition stable_sort (l : list A) : list A := foldr insert_sorted [] l.
End sorting.

Definition pair_leb (a b : string * string) : bool :=
  if fst a =s fst b then String.leb (snd a) (snd b) else String.leb (fst a) (fst b).

Definition newline : string := String "010" EmptyString.

(** [build_canonical_request] *)
Definition build_canonical_request (method path_and_query : string) (headers : list (string * string))
    (signed payload_hash : string) : string :=
  let '(path, query) := default (path_and_query, ""%string) (split_once "?" path_and_query) in
  let q_parts :=
    if is_empty query then []
    else stable_sort pair_leb ((fun seg => default (seg, ""%string) (split_once "=" seg)) <$> split "&" query) in
  let canonical_query := join "&" ((fun kv => fst kv +:+ "=" +:+ snd kv) <$> q_parts) in
  let signed_set := trim <$> split ";" signed in
  let hpairs :=
    (fun kv => (to_ascii_lowercase (fst kv), trim (snd kv))) <$>
      List.filter (fun kv => existsb (fun s => eq_ignore_ascii_case s (fst kv)) signed_set) headers in
  let hpairs := stable_sort (fun a b => String.leb (fst a) (fst b)) hpairs in
  let canonical_headers := join "" ((fun kv => fst kv +:+ ":" +:+ snd kv +:+ newline) <$> hpairs) in
  let signed_str :=
    join ";" (stable_sort String.leb
      (List.filter (fun s => negb (is_empty s)) (to_ascii_lowercase <$> signed_set))) in
  method +:+ newline +:+ path +:+ newline +:+ canonical_query +:+ newline +:+ canonical_headers +:+ newline
    +:+ signed_str +:+ newline +:+ payload_hash.

(** The answer of [aws-sigv4]. *)
Inductive sign_result := Signed (sig : string) | SignableError (e : string) | SignError (e : string).

Section Verify.
(** Rust's [{:?}] of a [str]. *)
Context (debug_str : string -> string).
(** [url::form_urlencoded::parse] *)
Context (form_parse : string -> list (string * string)).
(** The [time] crate: parsing [YYYYMMDDTHHMMSSZ] (errors as text), the Unix
    time stamp, and formatting [YYYYMMDD]. *)
Context (odt : Type) (pdt_parse : string -> res string odt)
  (unix_timestamp : odt -> Z) (format_ymd : odt -> res string string).
(** [aws-sigv4]: building the parameters, the signable request, signing. *)
Context (build_params : signing_params -> option string)
  (sign : signing_params -> string -> string -> list (string * string) -> SignableBody -> sign_result).
(** [SystemTime::now()] *)
Context (now : system_time).

Definition diag_headers (headers : list (string * string)) : string :=
  join ", " ((fun kv => fst kv +:+ "=" +:+ debug_str (snd kv)) <$> headers).

Fixpoint diag_tried (tried : list (string * string)) : res string (list string) :=
  match tried with
  | [] => Ok []
  | (h, s) :: rest =>
      t ← truncate_sig s;
      ts ← diag_tried rest;
      Ok (("host=" +:+ debug_str h +:+ "->" +:+ t) :: ts)
  end.

(** [sigv4_mismatch_diagnostic] *)
Definition sigv4_mismatch_diagnostic (method path_and_query : string) (headers : list (string * string))
    (signed : string) (auth : SigV4Auth) (payload_hash : string) (tried : list (string * string))
    : res string string :=
  let canonical := build_canonical_request method path_and_query headers signed payload_hash in
  client ← truncate_sig (signature auth);
  ts ← diag_tried tried;
  Ok ("method=" +:+ method +:+ " path_and_query=" +:+ debug_str path_and_query
      +:+ " signed_headers=" +:+ debug_str signed
      +:+ " scope_date=" +:+ debug_str (scope_date auth) +:+ " region=" +:+ debug_str (region auth)
      +:+ " service=" +:+ debug_str (service auth) +:+ " access_key=" +:+ debug_str (access_key auth)
      +:+ " headers=[" +:+ diag_headers headers +:+ "] client_sig=" +:+ client
      +:+ " tried=[" +:+ join ", " ts +:+ "] canonical_request=" +:+ debug_str canonical).

(** [offset_to_system_time] and [parse_amz_date] *)
Definition time_sub {E} (t : system_time) (d : duration) : res E system_time :=
  if time_in_range (t - d) then Ok (t - d) else Panics.

Definition offset_to_system_time (dt : odt) : res string system_time :=
  let ts := unix_timestamp dt in
  if 0 <=? ts then time_add 0 (from_secs ts) else time_sub 0 (from_secs (- ts)).

Definition parse_amz_date (s : string) : res string (odt * string * system_time) :=
  dt ← match pdt_parse s with Err e => Err ("bad X-Amz-Date: " +:+ e) | r => r end;
  date_str ← format_ymd dt;
  signing_time ← offset_to_system_time dt;
  Ok (dt, date_str, signing_time).

(** The presign parameters found in the query; the last occurrence wins. *)
Record presign_fields := {
  q_algo : option string; q_credential : option string; q_date : option string;
  q_expires : option string; q_signed_headers : option string; q_signature : option string;
  q_token : option string;
}.

Definition no_presign : presign_fields := {| q_algo := None; q_credential := None; q_date := None;
  q_expires := None; q_signed_headers := None; q_signature := None; q_token := None |}.

Definition add_presign (a : presign_fields) (kv : string * string) : presign_fields :=
  let k := to_ascii_lowercase (trim (fst kv)) in
  let v := Some (snd kv) in
  let '(Build_presign_fields al cr da ex sh si to) := a in
  if k =s "x-amz-algorithm" then Build_presign_fields v cr da ex sh si to
  else if k =s "x-amz-credential" then Build_presign_fields al v da ex sh si to
  else if k =s "x-amz-date" then Build_presign_fields al cr v ex sh si to
  else if k =s "x-amz-expires" then Build_presign_fields al cr da v sh si to
  else if k =s "x-amz-signedheaders" then Build_presign_fields al cr da ex v si to
  else if k =s "x-amz-signature" then Build_presign_fields al cr da ex sh v to
  else if k =s "x-amz-security-token" then Build_presign_fields al cr da ex sh si v
  else a.

(** [parse_presigned_query] *)
Definition parse_presigned_query (u : uri) : res string (option PresignedSigV4Auth) :=
  match uri_query u with
  | None => Ok None
  | Some q =>
      if is_empty q then Ok None
      else
        let f := foldl add_presign no_presign (form_parse q) in
        match q_algo f with
        | None => Ok None
        | Some algo =>
            if negb (trim algo =s "AWS4-HMAC-SHA256") then Err ("unsupported presign algo: " +:+ algo)
            else
              credential ← ok_or (q_credential f) "missing X-Amz-Credential";
              date ← ok_or (q_date f) "missing X-Amz-Date";
              exp ← match q_expires f with
                    | None => Err "missing X-Amz-Expires"
                    | Some s => ok_or (parse_u64_str (trim s))
                        ("invalid X-Amz-Expires " +:+ debug_str (trim s) +:+
                         ": must be a non-negative integer number of seconds")
                    end;
              signed ← ok_or (q_signed_headers f) "missing X-Amz-SignedHeaders";
              sig ← ok_or (q_signature f) "missing X-Amz-Signature";
              _ ← require_host_signed signed;
              '(k, d, r, s) ← split_credential "X-Amz-Credential" credential;
              Ok (Some {| p_auth := {| access_key := k; scope_date := d; region := r; service := s;
                                       signed_headers := signed; signature := sig |};
                          amz_date := date; expires := exp; security_token := q_token f |})
        end
  end.

(** [extract_access_key_from_request] *)
Definition extract_access_key_from_request (u : uri) (headers : header_map) : res string string :=
  if contains_key headers "authorization" then extract_access_key headers
  else
    p ← parse_presigned_query u;
    match p with
    | Some p => if is_empty (access_key (p_auth p)) then Err "empty access key in X-Amz-Credential"
                else Ok (access_key (p_auth p))
    | None => Err "missing Authorization and missing presign params"
    end.

(** The attempts, in the order of the two nested loops. *)
Definition attempts (paths : list string) (hosts : list (option string)) : list (string * option string) :=
  p ← paths; h ← hosts; [(p, h)].

(** The signature check: [Ok true] at the first match, [Ok false] with the
    (host, signature) pairs tried otherwise. *)
Fixpoint try_attempts (params : signing_params) (method : string) (headers : list (string * string))
    (body : SignableBody) (sig : string) (atts : list (string * option string))
    (tried : list (string * string)) : res string (bool * list (string * string)) :=
  match atts with
  | [] => Ok (false, tried)
  | (path, host) :: atts =>
      let attempt := attempt_headers headers host in
      let attempted_host := default ""%string (find_host attempt) in
      match sign params method path attempt body with
      | SignableError e => Err ("signable request error: " +:+ e)
      | SignError e => Err ("sigv4 sign error: " +:+ e)
      | Signed our_sig =>
          if our_sig =s sig then Ok (true, tried)
          else try_attempts params method headers body sig atts (tried ++ [(attempted_host, our_sig)])
      end
  end.

(** The tail both verifiers share: build the parameters, try the variants,
    report the mismatch. *)
Definition check_signature (params : signing_params) (method path_and_query : string)
    (headers : list (string * string)) (body : SignableBody) (auth : SigV4Auth) (payload_hash : string)
    : res string unit :=
  match build_params params with
  | Some e => Err ("failed building signing params: " +:+ e)
  | None =>
      '(found, tried) ← try_attempts params method headers body (signature auth)
        (attempts (path_variants_for_sigv4 path_and_query) (host_header_variants headers)) [];
      if found : bool then Ok tt
      else
        diag ← sigv4_mismatch_diagnostic method path_and_query headers (signed_headers auth) auth payload_hash tried;
        Err ("signature mismatch (" +:+ diag +:+ ")")
  end.

(** The skew gate of [verify_sigv4_header_only]. *)
Definition skew_of (t : system_time) : duration :=
  match duration_since now t, duration_since t now with
  | Some d, _ => d
  | _, Some d => d
  | _, _ => 0
  end.

Definition check_skew (max_skew : option duration) (signing_time : system_time) : res string unit :=
  match max_skew with
  | None => Ok tt
  | Some max =>
      if max <? skew_of signing_time then
        Err ("request time skewed: |now - x-amz-date| = " +:+ print_u64 (as_secs (skew_of signing_time))
             +:+ "s exceeds max " +:+ print_u64 (as_secs max) +:+ "s")
      else Ok tt
  end.

(** [verify_sigv4_header_only] *)
Definition verify_sigv4_header_only (method : string) (u : uri) (headers : header_map) (auth : SigV4Auth)
    (secret_key : string) (max_skew : option duration) : res string unit :=
  x_amz_date ← header_text headers "x-amz-date" "missing x-amz-date" "bad x-amz-date";
  '(_, date_str, signing_time) ← parse_amz_date (trim x_amz_date);
  if negb (date_str =s scope_date auth) then
    Err ("date mismatch: scope=" +:+ scope_date auth +:+ " x-amz-date=" +:+ date_str)
  else
    _ ← check_skew max_skew signing_time;
    payload ← header_text headers "x-amz-content-sha256" "missing x-amz-content-sha256" "bad x-amz-content-sha256";
    let payload_hash := trim payload in
    let body := if payload_hash =s "UNSIGNED-PAYLOAD" then UnsignedPayload else Precomputed payload_hash in
    let path_and_query := default "/"%string (uri_path_and_query u) in
    hmap ← lower_headers (Some "authorization"%string) (hm_iter headers) ∅;
    storage ← select_signed (split ";" (signed_headers auth)) hmap;
    check_signature
      {| sp_access_key := access_key auth; sp_secret := secret_key; sp_token := None;
         sp_region := region auth; sp_service := service auth; sp_time := signing_time; sp_expires := None |}
      method path_and_query storage body auth payload_hash.

(** The query without the presign parameters, in the original text. *)
Definition segment_key (seg : string) : string :=
  let key_raw := match split_once "=" seg with Some (k, _) => k | None => seg end in
  match form_parse (key_raw +:+ "=") with (k, _) :: _ => k | [] => key_raw end.

Definition filter_query (q : string) : string :=
  join "&" (List.filter (fun seg => negb (is_empty seg) &&
              negb (is_presign_param (to_ascii_lowercase (trim (segment_key seg))))) (split "&" q)).

Definition unsigned_uri (u : uri) : string :=
  let q := default ""%string (uri_query u) in
  let filtered := if is_empty q then ""%string else filter_query q in
  if is_empty filtered then uri_path u else uri_path u +:+ "?" +:+ filtered.

(** The window checks of [verify_sigv4_presigned_url]. *)
Definition check_expiry (auth : PresignedSigV4Auth) (signing_time : system_time) : res string unit :=
  if expires auth =? 0 then Err "X-Amz-Expires must be > 0"
  else if PRESIGN_MAX_EXPIRES <? expires auth then
    Err ("X-Amz-Expires=" +:+ print_u64 (expires auth) +:+ " exceeds maximum "
         +:+ print_u64 PRESIGN_MAX_EXPIRES +:+ " seconds")
  else
    exp_at ← time_add signing_time (from_secs (expires auth));
    if exp_at <? now then Err "presigned URL expired" else Ok tt.

(** [verify_sigv4_presigned_url] *)
Definition verify_sigv4_presigned_url (method : string) (u : uri) (headers : header_map)
    (auth : PresignedSigV4Auth) (secret_key : string) : res string unit :=
  let a := p_auth auth in
  '(_, date_str, signing_time) ← parse_amz_date (trim (amz_date auth));
  if negb (date_str =s scope_date a) then
    Err ("date mismatch: scope=" +:+ scope_date a +:+ " x-amz-date=" +:+ date_str)
  else
    _ ← check_expiry auth signing_time;
    hmap ← lower_headers None (hm_iter headers) ∅;
    storage ← select_signed (split ";" (signed_headers a)) hmap;
    check_signature
      {| sp_access_key := access_key a; sp_secret := secret_key; sp_token := security_token auth;
         sp_region := region a; sp_service := service a; sp_time := signing_time;
         sp_expires := Some (expires auth) |}
      method (unsigned_uri u) storage UnsignedPayload a "UNSIGNED-PAYLOAD".

(** [SigV4Rejection] *)
Record SigV4Rejection := { response : HttpResponse; reason : string }.

Definition CLIENT_MSG_BAD_AUTH : string := "invalid Authorization".
Definition CLIENT_MSG_BAD_KEY : string := "access denied".
Definition CLIENT_MSG_BAD_SIG : string :=
  "the request signature we calculated does not match the signature you provided".
Definition CLIENT_MSG_NO_AUTH : string := "request is missing authentication information".
Definition CLIENT_MSG_EXPIRED : string := "Request has expired".
Definition CLIENT_MSG_SKEWED : string :=
  "request time differs from server time by more than the allowed margin".

(** [match c { Err(e) => return Err(f(e)), Ok(a) => a }] *)
Definition or_reject {A} (c : res string A) (f : string -> SigV4Rejection) : res SigV4Rejection A :=
  match c with Ok a => Ok a | Err e => Err (f e) | Panics => Panics end.

Definition bad_signature (resource : option string) (prefix e : string) : SigV4Rejection :=
  {| response := signature_does_not_match CLIENT_MSG_BAD_SIG resource; reason := prefix +:+ e |}.

(** The access-key gate. *)
Definition check_key (expected : option string) (key : string) (resource : option string)
    : res SigV4Rejection unit :=
  match expected with
  | Some exp => if negb (key =s exp)
                then Err {| response := access_denied CLIENT_MSG_BAD_KEY resource; reason := "unknown access key" |}
                else Ok tt
  | None => Ok tt
  end.

Definition reject_header (resource : option string) (reason : string) : SigV4Rejection :=
  {| response := if contains_str "request time skewed" reason
                 then request_time_too_skewed CLIENT_MSG_SKEWED resource
                 else signature_does_not_match CLIENT_MSG_BAD_SIG resource;
     reason := reason |}.

Definition reject_presigned (resource : option string) (reason : string) : SigV4Rejection :=
  {| response := if contains_str "expired" reason
                 then access_denied CLIENT_MSG_EXPIRED resource
                 else signature_does_not_match CLIENT_MSG_BAD_SIG resource;
     reason := reason |}.

(** The two halves of [verify_sigv4_request_any]. *)
Definition verify_header_request (method : string) (u : uri) (headers : header_map)
    (expected : option string) (secret_key : string) (resource : option string) : res SigV4Rejection unit :=
  auth ← or_reject (parse_authorization headers) (fun e =>
    {| response := access_denied CLIENT_MSG_BAD_AUTH resource; reason := "bad Authorization: " +:+ e |});
  _ ← or_reject (validate_sigv4_format (signature auth) (scope_date auth))
        (bad_signature resource "malformed sigv4 (pre-HMAC): ");
  _ ← check_key expected (access_key auth) resource;
  or_reject (verify_sigv4_header_only method u headers auth secret_key (Some HEADER_SIGV4_MAX_SKEW))
    (reject_header resource).

Definition verify_presigned_request (method : string) (u : uri) (headers : header_map)
    (expected : option string) (secret_key : string) (resource : option string) : res SigV4Rejection unit :=
  parsed ← or_reject (parse_presigned_query u) (fun e =>
    {| response := access_denied CLIENT_MSG_BAD_AUTH resource; reason := "bad presign params: " +:+ e |});
  match parsed with
  | None => Err {| response := access_denied CLIENT_MSG_NO_AUTH resource;
                   reason := "missing Authorization and missing presign params" |}
  | Some auth =>
      let a := p_auth auth in
      _ ← or_reject (validate_sigv4_format (signature a) (scope_date a))
            (bad_signature resource "malformed sigv4 presign (pre-HMAC): ");
      _ ← check_key expected (access_key a) resource;
      or_reject (verify_sigv4_presigned_url method u headers auth secret_key) (reject_presigned resource)
  end.

(** [verify_sigv4_request_any] *)
Definition verify_sigv4_request_any (method : string) (u : uri) (headers : header_map)
    (expected : option string) (secret_key : string) (resource : option string) : res SigV4Rejection unit :=
  if contains_key headers "authorization"
  then verify_header_request method u headers expected secret_key resource
  else verify_presigned_request method u headers expected secret_key resource.
End Verify.

(** ** Facts on the pieces *)
Lemma split_at_str_some p s a b : split_at_str p s = Some (a, b) -> s = (a +:+ p +:+ b)%string.
Proof.
  revert a b. induction s as [|x s IH]; intros a b; cbn.
  - destruct (strip_prefix p "") as [r|] eqn:E; [|done]. intros [= <- <-].
    by apply strip_prefix_some in E.
  - destruct (strip_prefix p (String x s)) as [r|] eqn:E.
    + intros [= <- <-]. by apply strip_prefix_some in E.
    + destruct (split_at_str p s) as [[a' b']|]; [|done]. cbn. intros [= <- <-]. cbn. f_equal. auto.
Qed.

(** The shape of a host split: the port, if any, is at the end. *)
Lemma split_host_port_some v name port :
  split_host_port v = (name, port) ->
  v = match port with Some p => (name +:+ ":" +:+ p)%string | None => name end.
Proof.
  unfold split_host_port. destruct (strip_prefix "[" v) as [rest|] eqn:Eb.
  - apply strip_prefix_some in Eb as ->. destruct (split_at_str "]:" rest) as [[n p]|] eqn:Es.
    + apply split_at_str_some in Es as ->. intros [= <- <-]. cbn. by rewrite str_app_assoc.
    + by intros [= <- <-].
  - destruct (rsplit_once ":" v) as [[n p]|] eqn:Er; [|by intros [= <- <-]].
    apply rsplit_once_some in Er as ->. case_match; by intros [= <- <-].
Qed.

(** Two hosts that differ in a default port only. *)
Definition same_host_modulo_port (v w : string) : Prop :=
  v = w \/ exists p, (p = "80" \/ p = "443")%string /\
    (v = (w +:+ ":" +:+ p)%string \/ w = (v +:+ ":" +:+ p)%string).

Lemma host_variants_spec headers o :
  o ∈ host_header_variants headers ->
  match o with
  | None => True
  | Some h => exists v, find_host headers = Some v /\ same_host_modulo_port v h
  end.
Proof.
  unfold host_header_variants. destruct o as [h|]; [|done].
  destruct (find_host headers) as [v|]; [|by intros [?|?%elem_of_nil]%elem_of_cons].
  destruct (split_host_port v) as [name port] eqn:Es. apply split_host_port_some in Es.
  intros Hin. exists v. split; [done|]. right. destruct port as [p|].
  - destruct ((p =s "80") || (p =s "443"))%string eqn:Ep; set_unfold in Hin; [|naive_solver].
    exists p. reflect_all. naive_solver.
  - set_unfold in Hin. subst v. destruct Hin as [?|[?|[?|[]]]]; simplify_eq.
    + exists "443"%string. auto.
    + exists "80"%string. auto.
Qed.

Lemma path_variants_spec pq v :
  v ∈ path_variants_for_sigv4 pq ->
  v = pq \/ exists path tail, pq = (path +:+ tail)%string /\
    v = (canonicalize_uri_path_for_sigv4 path +:+ tail)%string /\
    (tail = ""%string \/ exists q, tail = ("?" +:+ q)%string).
Proof.
  unfold path_variants_for_sigv4. destruct (split_once "?" pq) as [[p q]|] eqn:E.
  - apply split_once_some in E as [-> _]. case_match; set_unfold; [|naive_solver].
    intros [->|[->|[]]]; [by left|right]. exists p, ("?" +:+ q)%string. split_and!; [done|done|eauto].
  - case_match; set_unfold; [|naive_solver]. intros [->|[->|[]]]; [by left|right].
    exists pq, ""%string. rewrite !str_app_nil_r. auto.
Qed.

Lemma attempts_length paths hosts : length (attempts paths hosts) = (length paths * length hosts)%nat.
Proof.
  unfold attempts. induction paths as [|p paths IH]; cbn; [done|].
  rewrite length_app, IH. f_equal. clear IH. induction hosts as [|h hosts IH]; cbn; [done|]. by rewrite IH.
Qed.

Lemma elem_of_attempts p h paths hosts : (p, h) ∈ attempts paths hosts <-> p ∈ paths /\ h ∈ hosts.
Proof.
  unfold attempts. rewrite list_elem_of_bind. setoid_rewrite list_elem_of_bind. set_unfold. naive_solver.
Qed.

(** ** What a signed request is

    Stated on the request itself: what its headers and its query say, and what
    the signature covers. *)

(** The value a list of attributed values gives a name: the last one. *)
Definition last_value {A} (f : A -> option string) (l : list A) : option string := list.last (omap f l).

Lemma last_value_cons {A} (f : A -> option string) x l :
  last_value f (x :: l) = match last_value f l with Some v => Some v | None => f x end.
Proof.
  unfold last_value. cbn. destruct (f x) as [v|]; [rewrite last_cons|]; by destruct (list.last (omap f l)).
Qed.

(** The value of a header that a name (in lower case) stands for *)
Definition header_named (n : string) (kv : string * header_value) : option string :=
  if bool_decide (to_ascii_lowercase (fst kv) = n) then trim <$> snd kv else None.
Definition carried (headers : header_map) (n : string) : option string := last_value (header_named n) (hm_iter headers).

(** The names of a [SignedHeaders] list, and their values in the request *)
Definition signed_names (signed : string) : list string :=
  filter (fun h => h <> ""%string) ((fun h => to_ascii_lowercase (trim h)) <$> split ";" signed).
Definition covers (headers : header_map) (signed : string) (storage : list (string * string)) : Prop :=
  Forall2 (fun n kv => fst kv = n /\ carried headers n = Some (snd kv)) (signed_names signed) storage.

(** A target that names the same resource: the same query, and the same path
    after unescaping. *)
Definition same_target (pq pq' : string) : Prop :=
  pq = pq' \/ exists p p' tail, pq = (p +:+ tail)%string /\ pq' = (p' +:+ tail)%string /\ unescape p' = unescape p /\
    (tail = ""%string \/ exists q, tail = ("?" +:+ q)%string).
(** The same headers, with the host up to a default port *)
Definition same_headers (l l' : list (string * string)) : Prop :=
  l = l' \/ exists l1 l2 v w, l = (l1 ++ ("host"%string, v) :: l2)%list /\ l' = (l1 ++ ("host"%string, w) :: l2)%list /\ same_host_modulo_port v w.

(** The signature is the one computed over this target, these headers and
    this body. *)
Definition signed_over (sign : signing_params -> string -> string -> list (string * string) -> SignableBody -> sign_result)
    (params : signing_params) (method pq : string) (storage : list (string * string)) (body : SignableBody) (sig : string) : Prop :=
  exists pq' storage', same_target pq pq' /\ same_headers storage storage' /\ sign params method pq' storage' body = Signed sig.

(** The credential [key/date/region/service/...] *)
Definition credential_of (auth : SigV4Auth) (credential : string) : Prop :=
  exists rest, split "/" credential = access_key auth :: scope_date auth :: region auth :: service auth :: rest.

(** The fields of an [Authorization] header *)
Definition field_named (n part : string) : option string :=
  match split_once "=" (trim part) with Some (k, v) => if bool_decide (trim k = n) then Some (trim v) else None | None => None end.
Definition named_by_header (headers : header_map) (auth : SigV4Auth) : Prop :=
  exists txt algo rest, hm_get headers "authorization" = Some (Some txt) /\ split_once " " txt = Some (algo, rest) /\
    trim algo = "AWS4-HMAC-SHA256"%string /\
    (exists c, last_value (field_named "Credential") (split "," rest) = Some c /\ credential_of auth c) /\
    last_value (field_named "SignedHeaders") (split "," rest) = Some (signed_headers auth) /\
    last_value (field_named "Signature") (split "," rest) = Some (signature auth).

(** The parameters of a presigned query *)
Definition param_named (n : string) (kv : string * string) : option string :=
  if bool_decide (to_ascii_lowercase (trim (fst kv)) = n) then Some (snd kv) else None.
Definition named_by_query (form_parse : string -> list (string * string)) (u : uri) (p : PresignedSigV4Auth) : Prop :=
  exists q, uri_query u = Some q /\ let param n := last_value (param_named n) (form_parse q) in
    (exists algo, param "x-amz-algorithm"%string = Some algo /\ trim algo = "AWS4-HMAC-SHA256"%string) /\
    (exists c, param "x-amz-credential"%string = Some c /\ credential_of (p_auth p) c) /\
    param "x-amz-date"%string = Some (amz_date p) /\
    (exists e, param "x-amz-expires"%string = Some e /\ parse_u64_str (trim e) = Some (expires p)) /\
    param "x-amz-signedheaders"%string = Some (signed_headers (p_auth p)) /\
    param "x-amz-signature"%string = Some (signature (p_auth p)) /\
    security_token p = param "x-amz-security-token"%string.

(** The target a presigned URL signs: its path, and every part of its query
    that is not one of the presign parameters. *)
Definition presign_names : list string :=
  ["x-amz-algorithm"; "x-amz-credential"; "x-amz-date"; "x-amz-expires"; "x-amz-signedheaders"; "x-amz-signature"; "x-amz-security-token"]%string.
Definition signed_target (form_parse : string -> list (string * string)) (u : uri) (pq : string) : Prop :=
  exists kept, kept = filter (fun seg => seg <> ""%string /\ to_ascii_lowercase (trim (segment_key form_parse seg)) ∉ presign_names)
                        (split "&" (default ""%string (uri_query u))) /\
    pq = match kept with [] => uri_path u | _ => (uri_path u +:+ "?" +:+ join "&" kept)%string end.

(** ** The pieces give what the request says *)
Lemma path_variants_same pq v : v ∈ path_variants_for_sigv4 pq -> same_target pq v.
Proof.
  intros [->|(p & tail & -> & -> & Ht)]%path_variants_spec; [by left|right].
  exists p, (canonicalize_uri_path_for_sigv4 p), tail. split_and!; [done|done|apply unescape_canon|done].
Qed.

Lemma set_host_spec h headers v : find_host headers = Some v ->
  exists l1 l2, headers = (l1 ++ ("host"%string, v) :: l2)%list /\ set_host h headers = (l1 ++ ("host"%string, h) :: l2)%list.
Proof.
  unfold find_host. induction headers as [|[k w] headers IH]; cbn; [done|].
  destruct (String.eqb_spec k "host") as [->|]; cbn.
  - intros [= ->]. by exists [], headers.
  - intros (l1 & l2 & -> & ->)%IH. by exists ((k, w) :: l1), l2.
Qed.

Lemma host_variants_same headers o : o ∈ host_header_variants headers -> same_headers headers (attempt_headers headers o).
Proof.
  intros H%host_variants_spec. destruct o as [h|]; [|by left]. right. destruct H as (v & Hv & Hs).
  destruct (set_host_spec h _ _ Hv) as (l1 & l2 & E1 & E2). exists l1, l2, v, h. split_and!; [done|exact E2|done].
Qed.

Lemma lower_headers_spec skip l acc m n :
  lower_headers skip l acc = Ok m -> skip <> Some n ->
  m !! n = match last_value (header_named n) l with Some v => Some v | None => acc !! n end.
Proof.
  revert acc. induction l as [|[name value] l IH]; intros acc; cbn [lower_headers]; [by intros [= ->]|].
  rewrite last_value_cons. case_bool_decide as Hskip.
  - intros H Hn. rewrite (IH acc) by done. destruct (last_value _ l); [done|].
    unfold header_named. cbn. by rewrite bool_decide_false by congruence.
  - intros (v & Hv%ok_or_ok_inv & H)%bind_ok_inv Hn. rewrite (IH _ H Hn). destruct (last_value _ l); [done|].
    unfold header_named. cbn. case_bool_decide as E; [subst; by rewrite lookup_insert_eq|by rewrite lookup_insert_ne].
Qed.

Lemma select_signed_covers names m l :
  select_signed names m = Ok l ->
  Forall2 (fun n kv => fst kv = n /\ m !! n = Some (snd kv)) (filter (fun h => h <> ""%string) ((fun h => to_ascii_lowercase (trim h)) <$> names)) l.
Proof.
  revert l. induction names as [|x names IH]; intros l; cbn [select_signed fmap list_fmap]; [intros [= <-]; constructor|].
  destruct (is_empty (to_ascii_lowercase (trim x))) eqn:Ex.
  - apply is_empty_true in Ex. rewrite filter_cons_False by (rewrite Ex; naive_solver). apply IH.
  - intros (v & Hv%ok_or_ok_inv & Hs)%bind_ok_inv. apply bind_ok_inv in Hs as (rest & Hr & [= <-]).
    rewrite filter_cons_True by (intros E; by rewrite E in Ex). constructor; [done|auto].
Qed.

Lemma storage_covers skip headers signed m l :
  lower_headers skip (hm_iter headers) ∅ = Ok m -> select_signed (split ";" signed) m = Ok l ->
  (forall n v, skip = Some n -> m !! n = Some v -> False) -> covers headers signed l.
Proof.
  intros Hm Hl Hskip. apply select_signed_covers in Hl. unfold covers, signed_names.
  eapply Forall2_impl; [exact Hl|]. cbn. intros n [k v] [-> Hv]. split; [done|]. cbn in *.
  assert (skip <> Some n) as Hn by (intros ->; by eapply Hskip). rewrite (lower_headers_spec _ _ _ _ n Hm Hn) in Hv.
  unfold carried. destruct (last_value _ _); [done|]. by rewrite lookup_empty in Hv.
Qed.

(** The map has no entry for the name that is left out. *)
Lemma lower_headers_skipped n l acc m : lower_headers (Some n) l acc = Ok m -> acc !! n = None -> m !! n = None.
Proof.
  revert acc. induction l as [|[name value] l IH]; intros acc; cbn [lower_headers]; [by intros [= ->]|].
  case_bool_decide as E; [apply IH|]. intros (v & _ & H)%bind_ok_inv Ha. eapply IH; [exact H|].
  rewrite lookup_insert_ne; congruence.
Qed.

(** ** What acceptance means *)
Section Soundness.
Context (debug_str : string -> string) (form_parse : string -> list (string * string)).
Context (odt : Type) (pdt_parse : string -> res string odt)
  (unix_timestamp : odt -> Z) (format_ymd : odt -> res string string).
Context (build_params : signing_params -> option string)
  (sign : signing_params -> string -> string -> list (string * string) -> SignableBody -> sign_result).
Context (now : system_time).

Lemma try_attempts_true params method headers body sig atts tried tried' :
  try_attempts sign params method headers body sig atts tried = Ok (true, tried') ->
  exists path host, (path, host) ∈ atts /\
    sign params method path (attempt_headers headers host) body = Signed sig.
Proof.
  revert tried. induction atts as [|[p h] atts IH]; intros tried; cbn [try_attempts]; [done|].
  destruct (sign params method p (attempt_headers headers h) body) as [s| |] eqn:Es; [|done..].
  destruct (String.eqb_spec s sig) as [->|].
  - intros _. exists p, h. split; [apply list_elem_of_here|done].
  - intros (path & host & ? & ?)%IH. exists path, host. split; [by apply list_elem_of_further|done].
Qed.

Lemma check_signature_ok params method pq headers body auth payload :
  check_signature debug_str build_params sign params method pq headers body auth payload = Ok tt ->
  signed_over sign params method pq headers body (signature auth).
Proof.
  unfold check_signature. destruct (build_params params); [done|].
  intros ([found tried] & Ht & H)%bind_ok_inv. destruct found.
  - apply try_attempts_true in Ht as (p & h & [Hp Hh]%elem_of_attempts & Hs).
    exists p, (attempt_headers headers h). split_and!; [by apply path_variants_same|by apply host_variants_same|done].
  - apply bind_ok_inv in H as (d & _ & H). done.
Qed.

Lemma parse_amz_date_ok s dt date t :
  parse_amz_date odt pdt_parse unix_timestamp format_ymd s = Ok (dt, date, t) ->
  pdt_parse s = Ok dt /\ format_ymd dt = Ok date /\ t = from_secs (unix_timestamp dt).
Proof.
  unfold parse_amz_date. intros (x & Hx & H)%bind_ok_inv.
  assert (pdt_parse s = Ok x) as Hp by (destruct (pdt_parse s); simplify_eq; done). clear Hx.
  apply bind_ok_inv in H as (d & Hd & H). apply bind_ok_inv in H as (t' & Ht & [= <- <- <-]).
  split_and!; try done. revert Ht. unfold offset_to_system_time, time_sub, time_add, from_secs.
  repeat case_match; intros; simplify_eq; lia.
Qed.

Lemma check_skew_ok max t :
  check_skew now (Some max) t = Ok tt -> Z.abs (now - t) <= max.
Proof.
  unfold check_skew, skew_of, duration_since. repeat case_match; intros; simplify_eq; reflect_all; lia.
Qed.

Lemma check_expiry_iff auth t :
  is_u64 (expires auth) -> time_in_range (t + from_secs (expires auth)) = true ->
  check_expiry now auth t = Ok tt <->
  0 < expires auth <= PRESIGN_MAX_EXPIRES /\ now <= t + from_secs (expires auth).
Proof.
  intros Hu Hr. unfold check_expiry, time_add, is_u64 in *.
  destruct (Z.eqb_spec (expires auth) 0); [split; [done|lia]|].
  destruct (Z.ltb_spec PRESIGN_MAX_EXPIRES (expires auth)); [split; [done|lia]|].
  rewrite Hr. cbn. destruct (Z.ltb_spec (t + from_secs (expires auth)) now); split; done || lia.
Qed.

Lemma check_expiry_ok auth t :
  0 <= expires auth -> check_expiry now auth t = Ok tt ->
  0 < expires auth <= PRESIGN_MAX_EXPIRES /\ now <= t + from_secs (expires auth).
Proof.
  intros Hu. unfold check_expiry, time_add.
  destruct (Z.eqb_spec (expires auth) 0); [done|].
  destruct (Z.ltb_spec PRESIGN_MAX_EXPIRES (expires auth)); [done|].
  case_match; cbn; [|done]. destruct (Z.ltb_spec (t + from_secs (expires auth)) now); [done|lia].
Qed.

Lemma or_reject_ok {A} (c : res string A) f a : or_reject c f = Ok a -> c = Ok a.
Proof. destruct c; cbn; congruence. Qed.

Lemma validate_format_ok sig date :
  validate_sigv4_format sig date = Ok tt ->
  String.length sig = 64%nat /\ all_bytes is_ascii_hexdigit sig = true /\
  String.length date = 8%nat /\ all_bytes is_ascii_digit date = true.
Proof.
  unfold validate_sigv4_format. destruct (Z.eqb_spec (Z.of_nat (String.length sig)) 64); cbn; [|done].
  destruct (all_bytes is_ascii_hexdigit sig); cbn; [|done].
  destruct (Z.eqb_spec (Z.of_nat (String.length date)) 8); cbn; [|done].
  destruct (all_bytes is_ascii_digit date); cbn; [|done]. intros _. split_and!; done || lia.
Qed.

Definition host_listed (signed : string) : Prop :=
  exists h, h ∈ split ";" signed /\ to_ascii_lowercase (trim h) = "host"%string.

Lemma require_host_ok signed : require_host_signed signed = Ok tt -> host_listed signed.
Proof.
  unfold require_host_signed. intros H%ensure_ok_inv. apply existsb_exists in H as (h & Hin & Hh).
  exists h. split; [by apply list_elem_of_In|]. by apply String.eqb_eq in Hh.
Qed.

Lemma header_text_ok headers name m b v : header_text headers name m b = Ok v -> hm_get headers name = Some (Some v).
Proof. unfold header_text. intros (o & Ho%ok_or_ok_inv & H%ok_or_ok_inv)%bind_ok_inv. by subst. Qed.

Lemma split_credential_ok what c k d r s :
  split_credential what c = Ok (k, d, r, s) -> exists rest, split "/" c = k :: d :: r :: s :: rest.
Proof. unfold split_credential. repeat case_match; intros; simplify_eq. by eexists. Qed.

(** The loops over fields and parameters keep the last value of each name. *)
Definition first_of {A} (o d : option A) : option A := match o with Some a => Some a | None => d end.
Lemma first_of_none {A} (o : option A) v : first_of o None = Some v -> o = Some v.
Proof. by destruct o. Qed.
Lemma first_of_none_eq {A} (o : option A) : first_of o None = o.
Proof. by destruct o. Qed.

Lemma fields_last parts acc :
  let f := foldl add_field acc parts in
  f_credential f = first_of (last_value (field_named "Credential") parts) (f_credential acc) /\
  f_signed_headers f = first_of (last_value (field_named "SignedHeaders") parts) (f_signed_headers acc) /\
  f_signature f = first_of (last_value (field_named "Signature") parts) (f_signature acc).
Proof.
  revert acc. induction parts as [|x parts IH]; intros acc; [done|]. cbn [foldl]. rewrite !last_value_cons.
  destruct (IH (add_field acc x)) as (-> & -> & ->). unfold add_field, field_named.
  destruct (split_once "=" (trim x)) as [[k v]|]; [|by repeat case_match].
  destruct (String.eqb_spec (trim k) "Credential") as [E|E]; [rewrite E|];
    [|destruct (String.eqb_spec (trim k) "SignedHeaders") as [E'|E']; [rewrite E'|];
      [|destruct (String.eqb_spec (trim k) "Signature") as [E''|E'']; [rewrite E''|]]];
    rewrite ?(bool_decide_true _ eq_refl), ?(bool_decide_false _ E), ?(bool_decide_false _ E'), ?(bool_decide_false _ E'');
    cbn; by repeat case_match.
Qed.

Lemma add_presign_param a kv :
  q_algo (add_presign a kv) = first_of (param_named "x-amz-algorithm" kv) (q_algo a) /\
  q_credential (add_presign a kv) = first_of (param_named "x-amz-credential" kv) (q_credential a) /\
  q_date (add_presign a kv) = first_of (param_named "x-amz-date" kv) (q_date a) /\
  q_expires (add_presign a kv) = first_of (param_named "x-amz-expires" kv) (q_expires a) /\
  q_signed_headers (add_presign a kv) = first_of (param_named "x-amz-signedheaders" kv) (q_signed_headers a) /\
  q_signature (add_presign a kv) = first_of (param_named "x-amz-signature" kv) (q_signature a) /\
  q_token (add_presign a kv) = first_of (param_named "x-amz-security-token" kv) (q_token a).
Proof.
  destruct a as [al cr da ex sh si to], kv as [k v]. unfold add_presign, param_named. cbn [fst snd].
  generalize (to_ascii_lowercase (trim k)) as n. intros n.
  repeat match goal with |- context [String.eqb n ?x] => destruct (String.eqb_spec n x) as [->|]; [by split_and!|] end.
  rewrite !bool_decide_false by done. by split_and!.
Qed.

Lemma presign_last kvs acc :
  let f := foldl add_presign acc kvs in
  let pick n o := first_of (last_value (param_named n) kvs) o in
  q_algo f = pick "x-amz-algorithm"%string (q_algo acc) /\ q_credential f = pick "x-amz-credential"%string (q_credential acc) /\
  q_date f = pick "x-amz-date"%string (q_date acc) /\ q_expires f = pick "x-amz-expires"%string (q_expires acc) /\
  q_signed_headers f = pick "x-amz-signedheaders"%string (q_signed_headers acc) /\
  q_signature f = pick "x-amz-signature"%string (q_signature acc) /\ q_token f = pick "x-amz-security-token"%string (q_token acc).
Proof.
  cbn zeta. revert acc. induction kvs as [|kv kvs IH]; intros acc; [done|]. cbn [foldl]. rewrite !last_value_cons.
  destruct (IH (add_presign acc kv)) as (-> & -> & -> & -> & -> & -> & ->). destruct (add_presign_param acc kv) as (-> & -> & -> & -> & -> & -> & ->).
  clear IH. split_and!; by destruct (last_value _ kvs).
Qed.

Lemma parse_authorization_ok headers auth :
  parse_authorization headers = Ok auth -> host_listed (signed_headers auth) /\ named_by_header headers auth.
Proof.
  unfold parse_authorization. intros (txt & Ht%header_text_ok & H)%bind_ok_inv.
  apply bind_ok_inv in H as ([algo rest] & Hs%ok_or_ok_inv & H). destruct (String.eqb_spec (trim algo) "AWS4-HMAC-SHA256") as [Ea|]; [|done]. cbn [negb] in H.
  destruct (fields_last (split "," rest) no_fields) as (Ec & Esh & Esi). cbn in Ec, Esh, Esi.
  apply bind_ok_inv in H as (c & Hc%ok_or_ok_inv & H). apply bind_ok_inv in H as (sh & Hsh%ok_or_ok_inv & H).
  apply bind_ok_inv in H as (sig & Hsi%ok_or_ok_inv & H). apply bind_ok_inv in H as ([] & Hh & H).
  apply bind_ok_inv in H as ([[[k d] r] s] & Hcr%split_credential_ok & [= <-]). split; [by apply require_host_ok|].
  rewrite Ec in Hc. rewrite Esh in Hsh. rewrite Esi in Hsi. apply first_of_none in Hc, Hsh, Hsi.
  exists txt, algo, rest. split_and!; [done..|by exists c|done|done].
Qed.

Lemma parse_presigned_ok u p :
  parse_presigned_query debug_str form_parse u = Ok (Some p) ->
  host_listed (signed_headers (p_auth p)) /\ is_u64 (expires p) /\ named_by_query form_parse u p.
Proof.
  unfold parse_presigned_query. destruct (uri_query u) as [q|] eqn:Eq; [|done]. destruct (is_empty q); [done|].
  destruct (presign_last (form_parse q) no_presign) as (Eal & Ecr & Eda & Eex & Esh & Esi & Eto).
  destruct (q_algo _) as [algo|] eqn:Ea; [|done]. destruct (String.eqb_spec (trim algo) "AWS4-HMAC-SHA256") as [Et|]; [|done]. cbn [negb].
  intros (c & Hc%ok_or_ok_inv & H)%bind_ok_inv. apply bind_ok_inv in H as (da & Hda%ok_or_ok_inv & H).
  apply bind_ok_inv in H as (ex & Hex & H). apply bind_ok_inv in H as (sh & Hsh%ok_or_ok_inv & H).
  apply bind_ok_inv in H as (sig & Hsi%ok_or_ok_inv & H). apply bind_ok_inv in H as ([] & Hh & H).
  apply bind_ok_inv in H as ([[[k d] r] s'] & Hcr%split_credential_ok & [= <-]). cbn in *.
  destruct (q_expires _) as [e|] eqn:Ee; [|done]. apply ok_or_ok_inv in Hex.
  split_and!; [by apply require_host_ok|by apply parse_u64_range in Hex|]. exists q. split; [done|]. cbn.
  rewrite Ecr in Hc. rewrite Eda in Hda. rewrite Esh in Hsh. rewrite Esi in Hsi. symmetry in Eal, Eex.
  apply first_of_none in Eal, Hc, Hda, Eex, Hsh, Hsi. rewrite Eto, first_of_none_eq.
  split_and!; [by exists algo|by exists c|done|by exists e|done..].
Qed.

Lemma covers_host headers signed storage : host_listed signed -> covers headers signed storage -> exists v, ("host"%string, v) ∈ storage.
Proof.
  intros (h & Hh & Hlow) Hc. unfold covers, signed_names in Hc.
  assert ("host"%string ∈ filter (fun h => h <> ""%string) ((fun h => to_ascii_lowercase (trim h)) <$> split ";" signed)) as Hin.
  { apply list_elem_of_filter. split; [done|]. apply list_elem_of_fmap. by exists h. }
  apply list_elem_of_lookup in Hin as [i Hi]. destruct (Forall2_lookup_l _ _ _ _ _ Hc Hi) as ([k v] & Hv & Hk & _). cbn in Hk. subst k.
  exists v. by eapply list_elem_of_lookup_2.
Qed.

Lemma unsigned_uri_target u : signed_target form_parse u (unsigned_uri form_parse u).
Proof.
  unfold signed_target, unsigned_uri, filter_query. eexists. split; [done|]. set (q := default _ _).
  set (kept := filter _ (split "&" q)).
  assert (List.filter (fun seg => negb (is_empty seg) && negb (is_presign_param (to_ascii_lowercase (trim (segment_key form_parse seg))))) (split "&" q) = kept) as Hk.
  { unfold kept. induction (split "&" q) as [|x l IH]; [done|]. cbn [List.filter]. rewrite IH, filter_cons. clear IH.
    assert (is_presign_param (to_ascii_lowercase (trim (segment_key form_parse x))) =
            bool_decide (to_ascii_lowercase (trim (segment_key form_parse x)) ∈ presign_names)) as ->.
    { unfold is_presign_param, presign_names. generalize (to_ascii_lowercase (trim (segment_key form_parse x))) as n. intros n.
      apply eq_true_iff_eq. rewrite bool_decide_eq_true, existsb_exists. setoid_rewrite String.eqb_eq. setoid_rewrite <- list_elem_of_In. naive_solver. }
    destruct x as [|c x]; cbn [is_empty negb andb]; [by rewrite decide_False by naive_solver|].
    case_bool_decide; cbn [negb]; [rewrite decide_False by naive_solver|rewrite decide_True by naive_solver]; done. }
  assert (Forall (fun seg => seg <> ""%string) kept) as Hne by (apply list.Forall_forall; intros x; by intros [[? _] _]%list_elem_of_filter).
  rewrite Hk. destruct (is_empty q) eqn:Eq.
  - apply is_empty_true in Eq. assert (kept = []) as -> by (unfold kept; rewrite Eq; done). done.
  - destruct kept as [|x l]; [done|]. apply list.Forall_cons in Hne as [Hx _].
    assert (is_empty (join "&" (x :: l)) = false) as -> by (destruct x; [done|]; by destruct l). done.
Qed.

(** The signing time: the day of the credential, and the time that is signed *)
Definition signing_date (auth : SigV4Auth) (text : string) (t : system_time) : Prop :=
  exists dt, pdt_parse (trim text) = Ok dt /\ format_ymd dt = Ok (scope_date auth) /\ t = from_secs (unix_timestamp dt).

Lemma header_only_ok method u headers auth secret :
  verify_sigv4_header_only debug_str odt pdt_parse unix_timestamp format_ymd build_params sign now
    method u headers auth secret (Some HEADER_SIGV4_MAX_SKEW) = Ok tt ->
  exists date t hash storage,
    hm_get headers "x-amz-date" = Some (Some date) /\ signing_date auth date t /\ Z.abs (now - t) <= HEADER_SIGV4_MAX_SKEW /\
    hm_get headers "x-amz-content-sha256" = Some (Some hash) /\ covers headers (signed_headers auth) storage /\
    signed_over sign {| sp_access_key := access_key auth; sp_secret := secret; sp_token := None; sp_region := region auth;
                        sp_service := service auth; sp_time := t; sp_expires := None |}
      method (default "/"%string (uri_path_and_query u)) storage
      (if trim hash =s "UNSIGNED-PAYLOAD" then UnsignedPayload else Precomputed (trim hash)) (signature auth).
Proof.
  unfold verify_sigv4_header_only. intros (xd & Hxd & H)%bind_ok_inv. apply bind_ok_inv in H as ([[dt date] t] & Hd & H).
  apply parse_amz_date_ok in Hd as (Hp & Hf & Ht).
  destruct (String.eqb_spec date (scope_date auth)) as [->|]; [|done]. cbn [negb] in H.
  apply bind_ok_inv in H as ([] & Hsk & H). apply check_skew_ok in Hsk.
  apply bind_ok_inv in H as (pl & Hpl & H). apply bind_ok_inv in H as (hm & Hhm & H).
  apply bind_ok_inv in H as (st & Hsel & H). apply check_signature_ok in H.
  exists xd, t, pl, st. split_and!; [by eapply header_text_ok|by exists dt|done|by eapply header_text_ok| |done].
  eapply storage_covers; [exact Hhm|exact Hsel|]. intros n v [= <-] Hv. by rewrite (lower_headers_skipped _ _ _ _ Hhm) in Hv.
Qed.

Lemma presigned_ok method u headers p secret :
  is_u64 (expires p) ->
  verify_sigv4_presigned_url debug_str form_parse odt pdt_parse unix_timestamp format_ymd build_params sign now
    method u headers p secret = Ok tt ->
  exists t storage,
    signing_date (p_auth p) (amz_date p) t /\ 0 < expires p <= PRESIGN_MAX_EXPIRES /\ now <= t + from_secs (expires p) /\
    covers headers (signed_headers (p_auth p)) storage /\
    signed_over sign {| sp_access_key := access_key (p_auth p); sp_secret := secret; sp_token := security_token p;
                        sp_region := region (p_auth p); sp_service := service (p_auth p); sp_time := t; sp_expires := Some (expires p) |}
      method (unsigned_uri form_parse u) storage UnsignedPayload (signature (p_auth p)).
Proof.
  intros Hu. unfold verify_sigv4_presigned_url.
  intros ([[dt date] t] & Hd & H)%bind_ok_inv. apply parse_amz_date_ok in Hd as (Hp & Hf & Ht).
  destruct (String.eqb_spec date (scope_date (p_auth p))) as [->|]; [|done]. cbn [negb] in H.
  apply bind_ok_inv in H as ([] & Hex & H). apply check_expiry_ok in Hex as [Hex Hnow]; [|unfold is_u64 in Hu; lia].
  apply bind_ok_inv in H as (hm & Hhm & H). apply bind_ok_inv in H as (st & Hsel & H).
  apply check_signature_ok in H. exists t, st. split_and!; [by exists dt|lia..| |done].
  eapply storage_covers; [exact Hhm|exact Hsel|done].
Qed.

Lemma check_key_ok expected key resource :
  check_key expected key resource = Ok tt -> forall k, expected = Some k -> key = k.
Proof.
  unfold check_key. intros H k ->. destruct (String.eqb_spec key k); [done|]. cbn in H. done.
Qed.


(** The window of a presigned URL, exactly: within the range of the
    clock, the check passes iff the lifetime is between one second and seven
    days and the end of the lifetime is not over.  There is no lower bound:
    a URL dated in the future passes, at every moment before its end. *)
Theorem presign_window (auth : PresignedSigV4Auth) (t : system_time) :
  is_u64 (expires auth) -> time_in_range (t + from_secs (expires auth)) = true ->
  (check_expiry now auth t = Ok tt <->
   0 < expires auth <= PRESIGN_MAX_EXPIRES /\ now <= t + from_secs (expires auth)) /\
  (0 < expires auth <= PRESIGN_MAX_EXPIRES -> forall earlier, earlier <= t -> check_expiry earlier auth t = Ok tt).
Proof.
  intros Hu Hr. split; [by apply check_expiry_iff|]. intros Hw earlier He.
  unfold check_expiry, time_add. rewrite (proj2 (Z.eqb_neq _ 0)), (proj2 (Z.ltb_ge _ _)), Hr by lia.
  cbn. rewrite (proj2 (Z.ltb_ge _ _)); [done|]. unfold from_secs, nanos_per_sec. lia.
Qed.
End Soundness.

(** The leniency is bounded: at most six signatures are computed for a
    request, every path tried names the same resource as the path received
    (same bytes after unescaping, same query), and every host tried is the
    received one up to a default port. *)
Theorem variants_bounded (pq : string) (headers : list (string * string)) :
  (length (attempts (path_variants_for_sigv4 pq) (host_header_variants headers)) <= 6)%nat /\
  forall path host, (path, host) ∈ attempts (path_variants_for_sigv4 pq) (host_header_variants headers) ->
    (path = pq \/ exists p tail, pq = (p +:+ tail)%string /\
       (tail = ""%string \/ exists q, tail = ("?" +:+ q)%string) /\
       exists p', path = (p' +:+ tail)%string /\ unescape p' = unescape p) /\
    match host with
    | None => True
    | Some h => exists v, find_host headers = Some v /\ same_host_modulo_port v h
    end.
Proof.
  split.
  - rewrite attempts_length.
    assert (length (path_variants_for_sigv4 pq) <= 2)%nat.
    { unfold path_variants_for_sigv4. destruct (split_once "?" pq) as [[]|]; case_match; cbn; lia. }
    assert (length (host_header_variants headers) <= 3)%nat.
    { unfold host_header_variants. repeat case_match; cbn; lia. }
    nia.
  - intros path host [Hp Hh]%elem_of_attempts. split; [|by apply host_variants_spec in Hh].
    apply path_variants_spec in Hp as [->|(p & tail & -> & -> & Ht)]; [by left|right].
    exists p, tail. split_and!; [done|done|]. eexists. split; [done|]. apply unescape_canon.
Qed.

(** ** The Authorization header of the SDKs *)

(** A field value: visible, and none of the separators. *)
Definition plain (c : ascii) : bool :=
  is_visible c && negb (c =c ",") && negb (c =c "/") && negb (c =c "=").

Definition format_credential (k d r s : string) : string := join "/" [k; d; r; s; "aws4_request"%string].

Definition format_authorization (k d r s signed sig : string) : string :=
  ("AWS4-HMAC-SHA256 Credential=" +:+ format_credential k d r s +:+ ", SignedHeaders=" +:+ signed
   +:+ ", Signature=" +:+ sig)%string.

Lemma plain_visible x : all_bytes plain x = true -> all_bytes is_visible x = true.
Proof.
  apply all_bytes_impl. intros c H. unfold plain in H. by do 3 (apply andb_true_iff in H as [H _]).
Qed.

Lemma plain_absent c x : plain c = false -> all_bytes plain x = true -> contains_char c x = false.
Proof. apply all_bytes_not_contains. Qed.

Lemma strip_ws_head c x : is_visible c = true -> strip_ws (String c x) = None.
Proof.
  intros H. unfold strip_ws. rewrite visible_not_ws by done.
  destruct x as [|b x]; [done|]. rewrite visible_not_ws2 by done.
  destruct x as [|b' x]; [done|]. by rewrite visible_not_ws3.
Qed.

Lemma trim_space x : all_bytes is_visible x = true -> trim (String " " x) = x.
Proof.
  intros H. transitivity (trim x); [done|by apply trim_visible].
Qed.

Lemma until_separator_plain a b :
  all_bytes is_visible a = true -> contains_char "," a = false ->
  until_separator (a +:+ String "," b) = a.
Proof.
  induction a as [|c a IH]; intros Hv Hc; [done|]. cbn [all_bytes contains_char] in *.
  apply andb_true_iff in Hv as [Hv1 Hv2]. apply orb_false_iff in Hc as [Hc1 Hc2].
  change (String c a +:+ String "," b) with (String c (a +:+ String "," b)). cbn [until_separator].
  rewrite Hc1, strip_ws_head by done. cbn. by rewrite IH.
Qed.

Lemma format_credential_bytes k d r s :
  all_bytes plain k = true -> all_bytes plain d = true -> all_bytes plain r = true -> all_bytes plain s = true ->
  all_bytes is_visible (format_credential k d r s) = true /\
  contains_char "," (format_credential k d r s) = false /\
  split "/" (format_credential k d r s) = [k; d; r; s; "aws4_request"%string].
Proof.
  intros Hk Hd Hr Hs. assert (all_bytes (fun c => plain c || (c =c "/")) (format_credential k d r s) = true) as Ha.
  { unfold format_credential. cbn [join]. rewrite !all_bytes_app. cbn.
    rewrite !(fun x H => all_bytes_impl plain (fun c => plain c || (c =c "/")) x H); try done;
      intros c Hc; by rewrite Hc. }
  split_and!.
  - revert Ha. apply all_bytes_impl. intros c. unfold plain. destruct (Ascii.eqb_spec c "/") as [->|]; [done|].
    intros H%orb_true_iff. destruct H as [H|H]; [|done].
    by do 3 (apply andb_true_iff in H as [H _]).
  - eapply all_bytes_not_contains; [|exact Ha]. done.
  - apply split_join; [done|]. repeat constructor; by apply plain_absent.
Qed.

Lemma header_text_some headers name m b v :
  hm_get headers name = Some (Some v) -> header_text headers name m b = Ok v.
Proof. intros H. unfold header_text. by rewrite H. Qed.

(** One field of the comma-separated list. *)
Lemma add_credential acc v :
  all_bytes is_visible v = true ->
  add_field acc ("Credential=" +:+ v) =
    {| f_credential := Some v; f_signed_headers := f_signed_headers acc; f_signature := f_signature acc |}.
Proof.
  intros H. unfold add_field. rewrite trim_visible by (by rewrite all_bytes_app, H).
  change (split_once "=" ("Credential=" +:+ v)) with (Some ("Credential"%string, v)). cbn -[trim].
  change (trim "Credential") with "Credential"%string. cbn -[trim]. by rewrite trim_visible.
Qed.

Lemma add_signed_headers acc v :
  all_bytes is_visible v = true ->
  add_field acc (" SignedHeaders=" +:+ v) =
    {| f_credential := f_credential acc; f_signed_headers := Some v; f_signature := f_signature acc |}.
Proof.
  intros H. unfold add_field. change (" SignedHeaders=" +:+ v) with (String " " ("SignedHeaders=" +:+ v)).
  rewrite trim_space by (by rewrite all_bytes_app, H).
  change (split_once "=" ("SignedHeaders=" +:+ v)) with (Some ("SignedHeaders"%string, v)). cbn -[trim].
  change (trim "SignedHeaders") with "SignedHeaders"%string. cbn -[trim]. by rewrite trim_visible.
Qed.

Lemma add_signature acc v :
  all_bytes is_visible v = true ->
  add_field acc (" Signature=" +:+ v) =
    {| f_credential := f_credential acc; f_signed_headers := f_signed_headers acc; f_signature := Some v |}.
Proof.
  intros H. unfold add_field. change (" Signature=" +:+ v) with (String " " ("Signature=" +:+ v)).
  rewrite trim_space by (by rewrite all_bytes_app, H).
  change (split_once "=" ("Signature=" +:+ v)) with (Some ("Signature"%string, v)). cbn -[trim].
  change (trim "Signature") with "Signature"%string. cbn -[trim]. by rewrite trim_visible.
Qed.

(** The header every SDK sends parses to its fields, and the cheap
    routing helper reads the same access key as the full parser. *)
Theorem authorization_roundtrip (headers : header_map) (k d r s signed sig : string) :
  all_bytes plain k = true -> k <> ""%string -> all_bytes plain d = true -> all_bytes plain r = true ->
  all_bytes plain s = true -> all_bytes plain signed = true -> all_bytes plain sig = true ->
  require_host_signed signed = Ok tt ->
  hm_get headers "authorization" = Some (Some (format_authorization k d r s signed sig)) ->
  parse_authorization headers =
    Ok {| access_key := k; scope_date := d; region := r; service := s; signed_headers := signed; signature := sig |} /\
  extract_access_key headers = Ok k.
Proof.
  intros Hk Hne Hd Hr Hs Hsh Hsig Hhost Hget.
  destruct (format_credential_bytes k d r s) as (Hcv & Hcc & Hcs); [done..|].
  set (cred := format_credential k d r s) in *. unfold parse_authorization, extract_access_key.
  rewrite !(header_text_some _ _ _ _ _ Hget). cbn [mbind res_bind].
  set (rest := (cred +:+ ", SignedHeaders=" +:+ signed +:+ ", Signature=" +:+ sig)%string).
  assert (format_authorization k d r s signed sig = "AWS4-HMAC-SHA256 Credential=" +:+ rest) as -> by done.
  split.
  - change (split_once " " ("AWS4-HMAC-SHA256 Credential=" +:+ rest))
      with (Some ("AWS4-HMAC-SHA256"%string, ("Credential=" +:+ rest)%string)).
    cbn [ok_or mbind res_bind]. change (negb (trim "AWS4-HMAC-SHA256" =s "AWS4-HMAC-SHA256")) with false. cbn iota.
    assert (split "," ("Credential=" +:+ rest) =
      ["Credential=" +:+ cred; " SignedHeaders=" +:+ signed; " Signature=" +:+ sig]%string) as ->.
    { subst rest. change ("Credential=" +:+ cred +:+ ", SignedHeaders=" +:+ signed +:+ ", Signature=" +:+ sig)
        with ("Credential=" +:+ (cred +:+ String "," (" SignedHeaders=" +:+ (signed +:+ String "," (" Signature=" +:+ sig))))).
      rewrite <- str_app_assoc, split_app_sep by (by rewrite contains_char_app).
      rewrite <- (str_app_assoc " SignedHeaders="), split_app_sep.
      2:{ rewrite contains_char_app. cbn. by apply plain_absent. }
      rewrite split_absent; [done|]. rewrite contains_char_app. cbn. by apply plain_absent. }
    cbn [foldl]. rewrite add_credential, add_signed_headers, add_signature by auto using plain_visible.
    cbn [f_credential f_signed_headers f_signature ok_or mbind res_bind]. rewrite Hhost. cbn [mbind res_bind].
    unfold split_credential. rewrite Hcs. done.
  - change (split_at_str "Credential=" ("AWS4-HMAC-SHA256 Credential=" +:+ rest))
      with (Some ("AWS4-HMAC-SHA256 "%string, rest)).
    cbn [ok_or mbind res_bind]. subst rest.
    change (", SignedHeaders=" +:+ ?z)%string with (String "," (" SignedHeaders=" +:+ z)).
    rewrite until_separator_plain, Hcs by done. cbn. by rewrite (proj2 (is_empty_false k)).
Qed.

(** ** Responses chosen by substring *)
Lemma contains_str_cons p c s : contains_str p s = true -> contains_str p (String c s) = true.
Proof. apply (contains_str_app_l p (String c EmptyString)). Qed.

Lemma join_contains p sep l x : x ∈ l -> contains_str p x = true -> contains_str p (join sep l) = true.
Proof.
  intros Hin Hp. induction l as [|y l IH]; [by apply elem_of_nil in Hin|].
  destruct l as [|z l].
  - apply list_elem_of_singleton in Hin as <-. done.
  - rewrite join_cons by done. apply elem_of_cons in Hin as [<-|Hin].
    + by apply contains_str_app_r.
    + do 2 apply contains_str_app_l. by apply IH.
Qed.

Section Responses.
Context (debug_str : string -> string) (build_params : signing_params -> option string)
  (sign : signing_params -> string -> string -> list (string * string) -> SignableBody -> sign_result).

(** A wrong signature can be reported as an expired URL: the mismatch
    report quotes the names of the signed headers, and the response is chosen
    by looking for "expired" in it; so a presigned request with a signed
    header such as [x-amz-meta-expired-at] and a signature that does not
    match is answered [AccessDenied], "Request has expired", whatever the
    clock says. *)
Theorem mismatch_reported_as_expired (params : signing_params) (method pq : string)
    (headers : list (string * string)) (body : SignableBody) (auth : SigV4Auth) (payload k v e : string)
    (tried : list (string * string)) (resource : option string) :
  build_params params = None ->
  try_attempts sign params method headers body (signature auth)
    (attempts (path_variants_for_sigv4 pq) (host_header_variants headers)) [] = Ok (false, tried) ->
  (k, v) ∈ headers -> contains_str "expired" k = true ->
  check_signature debug_str build_params sign params method pq headers body auth payload = Err e ->
  response (reject_presigned resource e) = access_denied CLIENT_MSG_EXPIRED resource.
Proof.
  intros Hb Ht Hin Hk. unfold check_signature. rewrite Hb, Ht. cbn [mbind res_bind].
  destruct (sigv4_mismatch_diagnostic debug_str method pq headers _ auth payload tried) as [diag|e'|] eqn:Ed;
    cbn [mbind res_bind]; [intros He| |done].
  - assert (e = ("signature mismatch (" +:+ diag +:+ ")")%string) as -> by congruence.
    unfold reject_presigned. cbn [response].
    assert (contains_str "expired" diag = true) as Hd.
    { revert Ed. unfold sigv4_mismatch_diagnostic.
      intros (c & _ & H)%bind_ok_inv. apply bind_ok_inv in H as (ts & _ & [= <-]).
      repeat lazymatch goal with
        | |- contains_str _ (diag_headers _ _ +:+ _) = true => apply contains_str_app_r
        | |- contains_str _ (String _ _) = true => apply contains_str_cons
        | |- contains_str _ (_ +:+ _) = true => apply contains_str_app_l
        end.
      unfold diag_headers. eapply join_contains; [by apply list_elem_of_fmap_2|]. cbn.
      by apply contains_str_app_r. }
    assert (contains_str "expired" ("signature mismatch (" +:+ diag +:+ ")") = true) as ->; [|done].
    apply contains_str_app_l. by apply contains_str_app_r.
  - intros _. exfalso. revert Ed. unfold sigv4_mismatch_diagnostic.
    assert (forall s e, truncate_sig s <> Err e) as Htr by (intros; unfold truncate_sig; by repeat case_match).
    assert (forall l e, diag_tried debug_str l <> Err e) as Hdt.
    { induction l as [|[h s] l IH]; intros e0; cbn; [done|].
      destruct (truncate_sig s) eqn:E; cbn; [|by apply Htr in E|done].
      destruct (diag_tried debug_str l) as [|e2|]; cbn; [done|by destruct (IH e2)|done]. }
    destruct (truncate_sig (signature auth)) eqn:E; cbn; [|by apply Htr in E|done].
    destruct (diag_tried debug_str tried) eqn:E2; cbn; [done|by apply Hdt in E2|done].
Qed.
End Responses.

(** ** No panic *)
Section NoPanic.
Context (debug_str : string -> string) (form_parse : string -> list (string * string)).
Context (odt : Type) (pdt_parse : string -> res string odt)
  (unix_timestamp : odt -> Z) (format_ymd : odt -> res string string).
Context (build_params : signing_params -> option string)
  (sign : signing_params -> string -> string -> list (string * string) -> SignableBody -> sign_result).
Context (now : system_time).

Definition is_ascii (c : ascii) : bool := in_range 0 127 c.

(** The documented range of the [time] crate (years -9999 to 9999), and the
    hexadecimal output of the signer. *)
Context (pdt_total : forall s, no_panic (pdt_parse s)) (ymd_total : forall d, no_panic (format_ymd d)).
Context (timestamp_range : forall d, -377705116800 <= unix_timestamp d <= 253402300799).
Context (sign_ascii : forall p m q h b s, sign p m q h b = Signed s -> all_bytes is_ascii s = true).

Lemma all_bytes_get p n s c : all_bytes p s = true -> String.get n s = Some c -> p c = true.
Proof.
  revert n. induction s as [|x s IH]; intros [|n]; cbn; try done; intros H%andb_true_iff; [naive_solver|].
  apply IH, H.
Qed.

Lemma truncate_sig_no_panic s : all_bytes is_ascii s = true -> no_panic (truncate_sig s).
Proof.
  intros H. unfold truncate_sig, no_panic. case_match; [done|].
  destruct (String.get 8 s) as [c|] eqn:E; [|done]. eapply all_bytes_get in E; [|done].
  assert (is_continuation c = false) as ->; [|done].
  unfold is_ascii, is_continuation, in_range in *. lia.
Qed.

Lemma diag_tried_no_panic l :
  Forall (fun hs => all_bytes is_ascii (snd hs) = true) l -> no_panic (diag_tried debug_str l).
Proof.
  induction 1 as [|[h s] l Hs _ IH]; cbn [diag_tried]; [done|].
  apply bind_no_panic; [by apply truncate_sig_no_panic|intros]. apply bind_no_panic; [done|by intros].
Qed.

Lemma try_attempts_shape params method headers body sig atts tried r :
  Forall (fun hs => all_bytes is_ascii (snd hs) = true) tried ->
  try_attempts sign params method headers body sig atts tried = r ->
  r <> Panics /\ forall f t, r = Ok (f, t) -> Forall (fun hs => all_bytes is_ascii (snd hs) = true) t.
Proof.
  revert tried. induction atts as [|[p h] atts IH]; intros tried Ht; cbn [try_attempts]; [naive_solver|].
  destruct (sign _ _ _ _ _) as [s| |] eqn:Es; [|naive_solver..].
  destruct (s =s sig); [naive_solver|]. apply IH. apply Forall_app. split; [done|].
  constructor; [|done]. by eapply sign_ascii.
Qed.

Lemma check_signature_no_panic params method pq headers body auth payload :
  all_bytes is_ascii (signature auth) = true ->
  no_panic (check_signature debug_str build_params sign params method pq headers body auth payload).
Proof.
  intros Hs. unfold check_signature. destruct (build_params params); [done|].
  destruct (try_attempts_shape params method headers body (signature auth)
    (attempts (path_variants_for_sigv4 pq) (host_header_variants headers)) [] _ ltac:(constructor) eq_refl)
    as [Hn Hf].
  apply bind_no_panic; [done|]. intros [found tried] Ht. destruct found; [done|].
  apply bind_no_panic; [|done]. unfold sigv4_mismatch_diagnostic.
  apply bind_no_panic; [by apply truncate_sig_no_panic|intros].
  apply bind_no_panic; [apply diag_tried_no_panic; by eapply Hf|done].
Qed.

Lemma from_secs_range n : - (i64_max + 1) <= n <= i64_max -> time_in_range (from_secs n) = true.
Proof.
  intros. unfold time_in_range, from_secs. rewrite Z.div_mul by done. unfold i64_max in *. lia.
Qed.

Lemma parse_amz_date_no_panic s :
  no_panic (parse_amz_date odt pdt_parse unix_timestamp format_ymd s).
Proof.
  unfold parse_amz_date. apply bind_no_panic.
  { pose proof (pdt_total s) as H. destruct (pdt_parse s); done. }
  intros dt _. apply bind_no_panic; [done|]. intros d _. apply bind_no_panic; [|done].
  pose proof (timestamp_range dt). unfold offset_to_system_time, time_add, time_sub.
  assert (time_in_range (from_secs (unix_timestamp dt)) = true) as Hr.
  { apply from_secs_range. unfold i64_max. lia. }
  case_match; [rewrite Z.add_0_l|replace (0 - from_secs (- unix_timestamp dt)) with (from_secs (unix_timestamp dt))
    by (unfold from_secs; lia)]; by rewrite Hr.
Qed.

Lemma lower_headers_no_panic skip l acc : no_panic (lower_headers skip l acc).
Proof.
  revert acc. induction l as [|[n v] l IH]; intros acc; cbn [lower_headers]; [done|].
  case_match; [done|]. apply bind_no_panic; auto with s3.
Qed.

Lemma select_signed_no_panic names m : no_panic (select_signed names m).
Proof.
  induction names as [|h names IH]; cbn [select_signed]; [done|]. case_match; [done|].
  apply bind_no_panic; [auto with s3|intros]. apply bind_no_panic; [done|by intros].
Qed.

Lemma header_text_no_panic headers name m b : no_panic (header_text headers name m b).
Proof. unfold header_text. apply bind_no_panic; auto with s3. Qed.

Lemma hex_ascii s : all_bytes is_ascii_hexdigit s = true -> all_bytes is_ascii s = true.
Proof.
  apply all_bytes_impl. intros c. unfold is_ascii_hexdigit, is_ascii_digit, is_ascii, in_range. lia.
Qed.
#[local] Hint Resolve check_signature_no_panic parse_amz_date_no_panic lower_headers_no_panic
  select_signed_no_panic header_text_no_panic hex_ascii : s3.

Lemma or_reject_no_panic {A} (c : res string A) f : no_panic c -> no_panic (or_reject c f).
Proof. unfold no_panic. by destruct c. Qed.

Ltac np := repeat first
  [ progress auto with s3
  | apply bind_no_panic; [|intros ? ?]
  | case_match ].

Lemma header_only_no_panic method u headers auth secret skew :
  all_bytes is_ascii (signature auth) = true ->
  no_panic (verify_sigv4_header_only debug_str odt pdt_parse unix_timestamp format_ymd build_params sign now
    method u headers auth secret skew).
Proof.
  intros Hs. unfold verify_sigv4_header_only. np. unfold check_skew. np.
Qed.

Lemma presigned_no_panic method u headers p secret :
  all_bytes is_ascii (signature (p_auth p)) = true -> is_u64 (expires p) ->
  no_panic (verify_sigv4_presigned_url debug_str form_parse odt pdt_parse unix_timestamp format_ymd build_params
    sign now method u headers p secret).
Proof.
  intros Hs Hu. unfold verify_sigv4_presigned_url. apply bind_no_panic; [auto with s3|].
  intros [[dt date] t] Hd. case_match; [done|]. apply bind_no_panic; [|intros; np].
  apply parse_amz_date_ok in Hd as (_ & _ & ->). unfold check_expiry. np.
  unfold time_add. pose proof (timestamp_range dt). unfold is_u64, PRESIGN_MAX_EXPIRES in *. reflect_all.
  replace (from_secs (unix_timestamp dt) + from_secs (expires p)) with (from_secs (unix_timestamp dt + expires p))
    by (unfold from_secs; lia).
  rewrite from_secs_range; [done|]. unfold i64_max. lia.
Qed.

Lemma parse_authorization_no_panic headers : no_panic (parse_authorization headers).
Proof.
  unfold parse_authorization, split_credential, require_host_signed. np.
Qed.

Lemma parse_presigned_no_panic u : no_panic (parse_presigned_query debug_str form_parse u).
Proof. unfold parse_presigned_query, split_credential, require_host_signed. np. Qed.

(** No request crashes the verifier: whatever the method, target and
    headers, [verify_sigv4_request_any] returns; in particular the window
    arithmetic stays in the range of [SystemTime] and the diagnostics never
    cut a string inside a character. *)
Theorem verify_never_panics (method : string) (u : uri) (headers : header_map)
    (expected : option string) (secret : string) (resource : option string) :
  no_panic (verify_sigv4_request_any debug_str form_parse odt pdt_parse unix_timestamp format_ymd
    build_params sign now method u headers expected secret resource).
Proof.
  assert (forall k, no_panic (check_key expected k resource)) as Hk by (intros; unfold check_key; np).
  unfold verify_sigv4_request_any. case_match.
  - apply bind_no_panic; [apply or_reject_no_panic, parse_authorization_no_panic|]. intros auth _.
    apply bind_no_panic; [apply or_reject_no_panic; unfold validate_sigv4_format; np|].
    intros [] (_ & Hhex & _)%or_reject_ok%validate_format_ok.
    apply bind_no_panic; [done|intros]. apply or_reject_no_panic, header_only_no_panic. by apply hex_ascii.
  - apply bind_no_panic; [apply or_reject_no_panic, parse_presigned_no_panic|].
    intros [p|] Hp%or_reject_ok; [|done]. apply parse_presigned_ok in Hp as (_ & Hu & _).
    apply bind_no_panic; [apply or_reject_no_panic; unfold validate_sigv4_format; np|].
    intros [] (_ & Hhex & _)%or_reject_ok%validate_format_ok.
    apply bind_no_panic; [done|intros]. apply or_reject_no_panic, presigned_no_panic; [by apply hex_ascii|done].
Qed.
End NoPanic.

(** ** Witnesses: a toy clock, date parser and signer *)
Definition toy_debug (s : string) : string := String "034" (s +:+ String "034" EmptyString).
Definition toy_parse (s : string) : res string Z :=
  if s =s "20250101T000000Z" then Ok 1735689600 else Err "invalid".
Definition toy_ymd (_ : Z) : res string string := Ok "20250101"%string.
Definition toy_ts (d : Z) : Z := Z.max (-377705116800) (Z.min 253402300799 d).
Definition toy_build (_ : signing_params) : option string := None.
Definition toy_sig : string := "0123456789abcdef0123456789abcdef0123456789abcdef0123456789abcdef".
Definition toy_sign (p : signing_params) (_ _ : string) (_ : list (string * string)) (_ : SignableBody) : sign_result :=
  if sp_secret p =s "secret" then Signed toy_sig else Signed "00".
Definition toy_now : system_time := from_secs 1735689700.
Definition toy_form (_ : string) : list (string * string) := [].

Definition toy_auth : string :=
  format_authorization "AKIA" "20250101" "us-east-1" "s3" "host;x-amz-date" toy_sig.
Definition toy_headers : header_map := headers_of
  [("host", "h:443"); ("authorization", toy_auth); ("x-amz-date", "20250101T000000Z");
   ("x-amz-content-sha256", "UNSIGNED-PAYLOAD")]%string.


Definition toy_presigned (e : Z) : PresignedSigV4Auth := {|
  p_auth := {| access_key := "AKIA"; scope_date := "20250101"; region := "r"; service := "s3";
               signed_headers := "host"; signature := toy_sig |};
  amz_date := "20250101T000000Z"; expires := e; security_token := None |}.

Lemma presign_window_witness :
  (check_expiry toy_now (toy_presigned 60) (from_secs 1735689600) = Ok tt <->
   0 < 60 <= PRESIGN_MAX_EXPIRES /\ toy_now <= from_secs 1735689600 + from_secs 60) /\
  (0 < 60 <= PRESIGN_MAX_EXPIRES -> forall earlier, earlier <= from_secs 1735689600 ->
     check_expiry earlier (toy_presigned 60) (from_secs 1735689600) = Ok tt).
Proof.
  apply (presign_window toy_now (toy_presigned 60) (from_secs 1735689600)); vm_compute; [|done].
  split; discriminate.
Defined.

Lemma authorization_roundtrip_witness :
  parse_authorization toy_headers =
    Ok {| access_key := "AKIA"; scope_date := "20250101"; region := "us-east-1"; service := "s3";
          signed_headers := "host;x-amz-date"; signature := toy_sig |} /\
  extract_access_key toy_headers = Ok "AKIA"%string.
Proof.
  apply (authorization_roundtrip toy_headers "AKIA" "20250101" "us-east-1" "s3" "host;x-amz-date" toy_sig);
    vm_compute; done.
Defined.

Definition wrong_params : signing_params := {|
  sp_access_key := "AKIA"; sp_secret := "other"; sp_token := None; sp_region := "r"; sp_service := "s3";
  sp_time := 0; sp_expires := Some 60 |}.
Definition expired_headers : list (string * string) :=
  [("host", "h:9000"); ("x-amz-meta-expired-at", "never")]%string.
Definition expired_reason : string :=
  match check_signature toy_debug toy_build toy_sign wrong_params "GET" "/b/k" expired_headers UnsignedPayload
          (p_auth (toy_presigned 60)) "UNSIGNED-PAYLOAD" with
  | Err e => e
  | _ => ""
  end%string.

Lemma mismatch_reported_as_expired_witness :
  response (reject_presigned None expired_reason) = access_denied CLIENT_MSG_EXPIRED None.
Proof.
  apply (mismatch_reported_as_expired toy_debug toy_build toy_sign wrong_params "GET" "/b/k" expired_headers
           UnsignedPayload (p_auth (toy_presigned 60)) "UNSIGNED-PAYLOAD" "x-amz-meta-expired-at" "never"
           expired_reason [("h:9000", "00")]%string None).
  - reflexivity.
  - vm_compute. reflexivity.
  - apply list_elem_of_further, list_elem_of_here.
  - vm_compute. reflexivity.
  - vm_compute. reflexivity.
Defined.

Lemma verify_never_panics_witness :
  no_panic (verify_sigv4_request_any toy_debug toy_form Z toy_parse toy_ts toy_ymd toy_build toy_sign toy_now
    "GET" (uri_of "/b/k" None) toy_headers (Some "AKIA"%string) "secret" None).
Proof.
  apply (verify_never_panics toy_debug toy_form Z toy_parse toy_ts toy_ymd toy_build toy_sign toy_now).
  - intros s. unfold toy_parse. by case_match.
  - done.
  - intros d. unfold toy_ts. lia.
  - intros p m q h b s. unfold toy_sign. case_match; intros [= <-]; reflexivity.
Defined.
