(* ===== verification/LogRedact.v ===== *)
(** * s32p-support/src/log_redact.rs

    The signature and the session token of a presigned URL as they are
    logged. *)

From Stdlib Require Import ZArith Lia Ascii.
From stdpp Require Import base list strings numbers option.
From S2P Require Import Prelude RustStr Http S3Xml SigV4.

Local Open Scope s3_scope.
Local Open Scope string_scope.

Definition PREFIX_CHARS : Z := 8.
(** U+2026 in UTF-8 *)
Definition ELLIPSIS : string := String "226" (String "128" (String "166" "")).

Definition is_sensitive_param (key : string) : bool :=
  eq_ignore_ascii_case key "X-Amz-Signature" || eq_ignore_ascii_case key "X-Amz-Security-Token".

(** The loop over [char_indices]: the text before the first character past
    [PREFIX_CHARS], [None] when the text ends before *)
Fixpoint cut_prefix (taken : Z) (value : string) : option string :=
  match value with
  | "" => None
  | String c rest =>
      if in_range 128 191 c then String c <$> cut_prefix taken rest
      else if (taken =? PREFIX_CHARS)%Z then Some ""
      else String c <$> cut_prefix (taken + 1) rest
  end.
Definition truncate (value : string) : string :=
  match cut_prefix 0 value with Some prefix => prefix +:+ ELLIPSIS | None => value end.

Definition redact_param (kv : string) : string :=
  match split_once "=" kv with
  | None => kv
  | Some (key, val) => key +:+ "=" +:+ (if is_sensitive_param key then truncate val else val)
  end.
Definition redact_query_for_log (query : string) : string :=
  if is_empty query then "" else join "&" (redact_param <$> split "&" query).
Definition redact_uri_for_log (u : uri) : string :=
  match uri_query u with
  | None => uri_path u
  | Some q => uri_path u +:+ "?" +:+ redact_query_for_log q
  end.

(** ** What is kept *)
Lemma cut_prefix_some k v prefix : (k <= PREFIX_CHARS)%Z -> cut_prefix k v = Some prefix ->
  exists rest, v = prefix +:+ rest /\ char_count prefix = (PREFIX_CHARS - k)%Z /\ rest <> "" /\
    forall tail, cut_prefix k (prefix +:+ ELLIPSIS +:+ tail) = Some prefix.
Proof.
  revert k prefix. induction v as [|c v IH]; intros k prefix Hk; cbn [cut_prefix]; [done|].
  destruct (in_range 128 191 c) eqn:Hc.
  - destruct (cut_prefix k v) as [p|] eqn:E; [|done]. intros [= <-]. destruct (IH k p Hk E) as (rest & -> & Hn & Hr & Ht).
    exists rest. split_and!; [done| |done|]; [cbn; by rewrite Hc|]. intros tail. change (String c p +:+ ?t) with (String c (p +:+ t)). cbn [cut_prefix]. by rewrite Hc, Ht.
  - destruct (Z.eqb_spec k PREFIX_CHARS) as [->|Hne].
    + intros [= <-]. exists (String c v). split_and!; [done|cbn; lia|done|]. intros tail. reflexivity.
    + destruct (cut_prefix (k + 1) v) as [p|] eqn:E; [|done]. intros [= <-]. destruct (IH (k + 1)%Z p ltac:(lia) E) as (rest & -> & Hn & Hr & Ht).
      exists rest. split_and!; [done| |done|]; [cbn; rewrite Hc; lia|]. intros tail. change (String c p +:+ ?t) with (String c (p +:+ t)). cbn [cut_prefix].
      by rewrite Hc, (proj2 (Z.eqb_neq _ _) Hne), Ht.
Qed.
Lemma cut_prefix_none k v : (k <= PREFIX_CHARS)%Z -> cut_prefix k v = None -> (char_count v <= PREFIX_CHARS - k)%Z.
Proof.
  revert k. induction v as [|c v IH]; intros k Hk; cbn [cut_prefix char_count]; [lia|].
  destruct (in_range 128 191 c).
  - destruct (cut_prefix k v) eqn:E; [done|]. intros _. specialize (IH k Hk E). lia.
  - destruct (Z.eqb_spec k PREFIX_CHARS) as [->|Hne]; [done|]. destruct (cut_prefix (k + 1) v) eqn:E; [done|]. intros _.
    specialize (IH (k + 1)%Z ltac:(lia) E). lia.
Qed.
Lemma truncate_idem v : truncate (truncate v) = truncate v.
Proof.
  unfold truncate. destruct (cut_prefix 0 v) as [p|] eqn:E; [|by rewrite E].
  destruct (cut_prefix_some 0 v p ltac:(done) E) as (_ & _ & _ & _ & Ht). specialize (Ht ""). rewrite str_app_nil_r in Ht. by rewrite Ht.
Qed.
Lemma truncate_no_amp c v : contains_char c ELLIPSIS = false -> contains_char c v = false -> contains_char c (truncate v) = false.
Proof.
  intros He. unfold truncate. destruct (cut_prefix 0 v) as [p|] eqn:E; [|done].
  destruct (cut_prefix_some 0 v p ltac:(done) E) as (rest & -> & _). rewrite !contains_char_app, orb_false_iff. intros [-> _]. done.
Qed.
Lemma redact_param_no_amp kv : contains_char "&" kv = false -> contains_char "&" (redact_param kv) = false.
Proof.
  unfold redact_param. destruct (split_once "=" kv) as [[key v]|] eqn:E; [|done]. apply split_once_some in E as [-> _].
  rewrite !contains_char_app. cbn [contains_char]. rewrite !orb_false_iff. intros [-> [_ Hv]]. split_and!; try done.
  case_match; [by apply truncate_no_amp|done].
Qed.
Lemma redact_param_idem kv : redact_param (redact_param kv) = redact_param kv.
Proof.
  unfold redact_param at 2 3. destruct (split_once "=" kv) as [[key v]|] eqn:E; [|unfold redact_param; by rewrite E].
  pose proof (proj1 (split_once_some _ _ _ _) E) as [_ Hk].
  assert (forall w, split_once "=" (key +:+ "=" +:+ w) = Some (key, w)) as Hs by (intros w; by apply split_once_some).
  unfold redact_param. rewrite Hs. case_match; [by rewrite truncate_idem|done].
Qed.
Lemma redacted_params q : q <> "" -> split "&" (redact_query_for_log q) = redact_param <$> split "&" q.
Proof.
  intros Hq. unfold redact_query_for_log. rewrite (proj2 (is_empty_false q) Hq). apply (split_join "&"%char).
  - intros Hn. destruct (split "&" q) eqn:Es; [by apply split_nonempty in Es|done].
  - apply Forall_fmap. rewrite list.Forall_forall. intros kv Hkv. apply redact_param_no_amp. revert kv Hkv. rewrite <- list.Forall_forall. apply split_no_sep.
Qed.

(** What may be logged of a parameter: itself, or its name and at most eight
    characters of its value *)
Definition logged_as (kv out : string) : Prop :=
  match split_once "=" kv with
  | Some (key, v) =>
      if is_sensitive_param key then
        (out = kv /\ (char_count v <= PREFIX_CHARS)%Z) \/
        exists prefix rest, v = prefix +:+ rest /\ char_count prefix = PREFIX_CHARS /\ rest <> "" /\ out = key +:+ "=" +:+ prefix +:+ ELLIPSIS
      else out = kv
  | None => out = kv
  end.
Lemma redact_param_logged kv : logged_as kv (redact_param kv).
Proof.
  unfold logged_as, redact_param. destruct (split_once "=" kv) as [[key v]|] eqn:E; [|done].
  pose proof (proj1 (split_once_some _ _ _ _) E) as [Hkv _]. case_match; [|done]. unfold truncate. destruct (cut_prefix 0 v) as [p|] eqn:Ec.
  - right. destruct (cut_prefix_some 0 v p ltac:(done) Ec) as (rest & Hv & Hn & Hr & _). exists p, rest. by split_and!.
  - left. split; [done|]. pose proof (cut_prefix_none 0 v ltac:(done) Ec). lia.
Qed.

(** Redaction: a logged query has the parameters of the query in their
    order; of a signature or a session token it shows at most eight
    characters, everything else is unchanged, and redacting again changes
    nothing. *)
Theorem redaction_exact (q : string) :
  redact_query_for_log (redact_query_for_log q) = redact_query_for_log q /\
  (q <> "" -> Forall2 logged_as (split "&" q) (split "&" (redact_query_for_log q))).
Proof.
  split.
  - destruct (decide (q = "")) as [->|Hq]; [done|]. pose proof (redacted_params q Hq) as Hs.
    destruct (is_empty (redact_query_for_log q)) eqn:Ee.
    + apply is_empty_true in Ee. by rewrite Ee.
    + unfold redact_query_for_log at 1. rewrite Ee, Hs. unfold redact_query_for_log. rewrite (proj2 (is_empty_false q) Hq), <- list_fmap_compose.
      f_equal. apply list_fmap_ext. intros _ kv _. apply redact_param_idem.
  - intros Hq. rewrite redacted_params by done. apply Forall2_fmap_r, Forall_Forall2_diag, Forall_true. intros kv. apply redact_param_logged.
Qed.

(** The name of a parameter is compared before it is decoded: a signature
    under a percent-encoded name, which the presigned-URL parser decodes and
    takes as the signature, is logged in full. *)
Theorem encoded_name_logged (form_parse : string -> list (string * string)) (v : string) :
  form_parse ("X%2DAmz-Signature=" +:+ v) = [("X-Amz-Signature", v)] -> contains_char "&" v = false ->
  q_signature (foldl add_presign no_presign (form_parse ("X%2DAmz-Signature=" +:+ v))) = Some v /\
  redact_query_for_log ("X%2DAmz-Signature=" +:+ v) = "X%2DAmz-Signature=" +:+ v.
Proof.
  intros Hf Hv. split; [by rewrite Hf|]. unfold redact_query_for_log. change (is_empty ("X%2DAmz-Signature=" +:+ v)) with false. cbn iota.
  rewrite split_absent by (rewrite contains_char_app; by rewrite Hv). cbn [fmap list_fmap join]. unfold redact_param.
  replace (split_once "=" ("X%2DAmz-Signature=" +:+ v)) with (Some ("X%2DAmz-Signature", v)) by (symmetry; by apply split_once_some). done.
Qed.
Lemma encoded_name_logged_witness : redact_query_for_log "X%2DAmz-Signature=0123456789abcdef" = "X%2DAmz-Signature=0123456789abcdef".
Proof.
  exact (proj2 (encoded_name_logged (fun _ => [("X-Amz-Signature", "0123456789abcdef")]) "0123456789abcdef" eq_refl eq_refl)).
Defined.
