(* ===== verification/Proxy.v ===== *)
(** * s32p-proxy/src/main.rs and responses.rs: the front of the system

    [request_filter] decides for every request whether it is answered here or
    forwarded to a worker of its user, [upstream_request_filter] prepares the
    headers of a forwarded request, [logging] ends it.  The directory and the
    worker manager are interfaces ([Directory], [WorkerOps]); the crates, the
    clock and the random bytes are arguments ([ProxyEnv]). *)

From Stdlib Require Import ZArith Lia Ascii.
From stdpp Require Import base list strings numbers option gmap.
From S2P Require Import Classifier.
From S2P Require Import Prelude RustStr Http Utils S3Resp Handler ConnLimit SigV4 Directory Workers Sessions.

Local Open Scope s3_scope.
Local Open Scope Z_scope.

(** ** Configuration and requests *)
Inductive RouteAction := ProxyTo (worker_profile : string) | NotImplemented (message : string) | MintSession | AwsCompat.

(** [session.client_addr()] *)
Inductive client_addr := Inet (ip : ip_addr) | UnixSocket.
Definition peer_ip (a : option client_addr) : option ip_addr := match a with Some (Inet ip) => Some ip | _ => None end.

Record proxy_request := {
  pr_method : string;
  pr_uri : uri;
  pr_authority : option string;
  pr_headers : header_map;
  pr_client : option client_addr;
}.

Record ProxyCtx := {
  ctx_uid : option Z;
  ctx_username : option string;
  orig_host : option string;
  ctx_profile : option string;
  upstream : option WorkerEndpoint;
  worker : option WorkerHandle;
  session_validated : bool;
  ctx_slot : option ip_addr;
}.
Definition new_ctx : ProxyCtx := {|
  ctx_uid := None; ctx_username := None; orig_host := None; ctx_profile := None; upstream := None; worker := None;
  session_validated := false; ctx_slot := None |}.

(** What the proxy expects of the worker manager.  [ensure_running] answers
    [None] when it waits forever. *)
Class WorkerOps (W : Type) := {
  get_running : W -> string -> string -> option WorkerHandle * W;
  ensure_running : W -> UserDoc -> list BucketView -> string -> option (res spawn_error WorkerHandle) * W;
}.
Class WorkerLaws (W : Type) `{!WorkerOps W} := {
  get_running_key : forall w ak p h w',
    get_running w ak p = (Some h, w') -> h_key h = {| wk_access_key := ak; wk_profile := p |};
  ensure_running_key : forall w u bs p h w',
    ensure_running w u bs p = (Some (Ok h), w') -> h_key h = {| wk_access_key := user_access_key u; wk_profile := p |};
}.

Class ProxyEnv := {
  p_limiter : ConnectionLimiter;
  p_routing : gmap string RouteAction;
  p_suffixes : list string;
  p_session_ttl : duration;
  p_max_active : nat;
  p_reconcile_interval : Z;
  p_accept_loop : bool;
  p_now_inst : Z;
  p_now : system_time;
  p_seed : session_seed;
  p_base64 : list Z -> string;
  p_session_xml : SessionEntry -> bool;
  p_show_ip : ip_addr -> string;
  p_show_error : spawn_error -> string;
  p_percent_decode : string -> option string;
  p_form_parse : string -> list (string * string);
  p_debug_str : string -> string;
  p_time : Type;
  p_pdt_parse : string -> res string p_time;
  p_unix_timestamp : p_time -> Z;
  p_format_ymd : p_time -> res string string;
  p_build_params : signing_params -> option string;
  p_sign : signing_params -> string -> string -> list (string * string) -> SignableBody -> sign_result;
}.

(** The tasks that the first request starts, and the listener for name
    lookups, which is taken once *)
Record background := {
  sweeper_started : bool; reconciler_started : bool; cleanup_started : bool;
  nss_started : bool; nss_pending : bool; nss_handle : bool;
}.

Record proxy_state (W : Type) := {
  px_inflight : counters;
  px_sessions : sessions;
  px_workers : W;
  px_headers : header_map;
  px_ctx : ProxyCtx;
  px_background : background;
}.
Arguments px_inflight {W} _.
Arguments px_sessions {W} _.
Arguments px_workers {W} _.
Arguments px_headers {W} _.
Arguments px_ctx {W} _.
Arguments px_background {W} _.

(** What is sent to the client, or the error the server turns into one *)
Inductive proxy_reply :=
| Answer (r : HttpResponse)
| VersioningNotConfigured
| SessionCreated (e : SessionEntry)
| Fault (message : string).

(** ** responses.rs: [aws_compat_response] *)
Definition aws_compat_response (op : S3Op) (resource : option string) : proxy_reply :=
  match op with
  | Versioning GetBucketVersioning => VersioningNotConfigured
  | ObjectLock GetBucketObjectLockConfiguration =>
      Answer (s3_error 404 "ObjectLockConfigurationNotFoundError" "Object Lock configuration does not exist for this bucket" resource None)
  | ObjectLock GetObjectRetention | ObjectLock GetObjectLegalHold =>
      Answer (s3_error 404 "NoSuchObjectLockConfiguration" "The specified object does not have an ObjectLock configuration" resource None)
  | ObjectLock PutObjectRetention | ObjectLock PutObjectLegalHold =>
      Answer (invalid_request "Bucket is missing Object Lock Configuration" resource)
  | HeadService => Answer (method_not_allowed "The specified method is not allowed against this resource." resource "GET")
  | _ => Answer (not_implemented "operation is not implemented by this proxy" resource)
  end.

Section Proxy.
Context {PE : ProxyEnv} {D : Type} `{!Directory D} {W : Type} `{!WorkerOps W} (d : D).

Abbreviation P := (handler (proxy_state W) proxy_reply).

Definition set_ctx (f : ProxyCtx -> ProxyCtx) (s : proxy_state W) : proxy_state W :=
  {| px_inflight := px_inflight s; px_sessions := px_sessions s; px_workers := px_workers s; px_headers := px_headers s;
     px_ctx := f (px_ctx s); px_background := px_background s |}.
Definition set_headers (f : header_map -> header_map) (s : proxy_state W) : proxy_state W :=
  {| px_inflight := px_inflight s; px_sessions := px_sessions s; px_workers := px_workers s; px_headers := f (px_headers s);
     px_ctx := px_ctx s; px_background := px_background s |}.
Definition set_sessions (m : sessions) (s : proxy_state W) : proxy_state W :=
  {| px_inflight := px_inflight s; px_sessions := m; px_workers := px_workers s; px_headers := px_headers s;
     px_ctx := px_ctx s; px_background := px_background s |}.
Definition set_workers (w : W) (s : proxy_state W) : proxy_state W :=
  {| px_inflight := px_inflight s; px_sessions := px_sessions s; px_workers := w; px_headers := px_headers s;
     px_ctx := px_ctx s; px_background := px_background s |}.
Definition set_inflight (c : counters) (s : proxy_state W) : proxy_state W :=
  {| px_inflight := c; px_sessions := px_sessions s; px_workers := px_workers s; px_headers := px_headers s;
     px_ctx := px_ctx s; px_background := px_background s |}.
Definition set_background (f : background -> background) (s : proxy_state W) : proxy_state W :=
  {| px_inflight := px_inflight s; px_sessions := px_sessions s; px_workers := px_workers s; px_headers := px_headers s;
     px_ctx := px_ctx s; px_background := f (px_background s) |}.

(** [start_sweeper], [start_reconciler], [start_cleanup] and
    [ensure_nss_listener] *)
Definition ensure_nss_listener (b : background) : background :=
  if nss_started b then b
  else {| sweeper_started := sweeper_started b; reconciler_started := reconciler_started b; cleanup_started := cleanup_started b;
          nss_started := true; nss_pending := false; nss_handle := nss_pending b && p_accept_loop |}.
Definition start_background (b : background) : background :=
  ensure_nss_listener {|
    sweeper_started := true; reconciler_started := reconciler_started b || negb (p_reconcile_interval =? 0); cleanup_started := true;
    nss_started := nss_started b; nss_pending := nss_pending b; nss_handle := nss_handle b |}.

(** [presign_session_token_from_query] *)
Definition presign_session_token_from_query (q : string) : option string :=
  if is_empty q then None
  else snd <$> find (fun kv => eq_ignore_ascii_case (fst kv) "x-amz-s3session-token" && negb (is_empty (snd kv))) (p_form_parse q).

Definition header_text (h : header_map) (name : string) : option string := hm_get h name ≫= fun v => v.

Definition verify_with (rq : proxy_request) (headers : header_map) (secret : string) : res SigV4Rejection unit :=
  verify_sigv4_request_any p_debug_str p_form_parse p_time p_pdt_parse p_unix_timestamp p_format_ymd p_build_params p_sign p_now
    (pr_method rq) (pr_uri rq) headers None secret (Some (uri_path (pr_uri rq))).

Definition classify_request (rq : proxy_request) (headers : header_map) : S3RequestClass :=
  classify_with_headers p_percent_decode p_form_parse (pr_method rq) (pr_uri rq) (Some headers) p_suffixes.

(** [validate_sigv4_header_only_or_reject] *)
Definition validate_sigv4_header_only_or_reject (rq : proxy_request) (headers : header_map) (user : UserDoc) : P unit :=
  unwrap_or_reply (verify_with rq headers (user_secret_key user)) (fun rej => Answer (response rej)).

Definition denied (rq : proxy_request) (message : string) : proxy_reply :=
  Answer (access_denied message (Some (uri_path (pr_uri rq)))).

(** [self.directory.user_by_access_key(...).await.map_err(...)?] *)
Definition find_user (k : string) : P (option UserDoc) := unwrap_or_reply (user_by_access_key d k) (fun _ => Fault "directory error").

(** The session branch of step 2 *)
Definition provided_token (rq : proxy_request) (headers : header_map) : string :=
  default ""%string
    match header_text headers "x-amz-s3session-token" with
    | Some t => Some t
    | None => presign_session_token_from_query (default ""%string (uri_query (pr_uri rq)))
    end.
Definition read_only_mode (m : SessionMode) : bool := match m with ModeReadOnly => true | ModeReadWrite => false end.
Definition check_session (rq : proxy_request) (headers : header_map) (class : S3RequestClass) (access_key : string) (e : SessionEntry)
    : P UserDoc :=
  _ ← reply_if (negb (provided_token rq headers =s session_token e)) (denied rq "Access Denied");
  _ ← reply_if (negb (bool_decide (bucket class = Some (session_bucket e)))) (denied rq "Access Denied");
  _ ← reply_if (read_only_mode (mode e) && needs_write (op class))
        (denied rq "session is ReadOnly; write operations are not permitted");
  real ← find_user (real_access_key e);
  match real with
  | None =>
      _ ← modify (fun s => set_sessions (invalidate access_key (px_sessions s)) s);
      reply_with (denied rq "session owner has been removed")
  | Some u =>
      _ ← unwrap_or_reply (verify_with rq headers (secret_key e)) (fun rej => Answer (response rej));
      mret u
  end.

(** The long-term branch *)
Definition check_long_term (rq : proxy_request) (access_key : string) : P UserDoc :=
  u ← find_user access_key;
  match u with
  | Some u => mret u
  | None => reply_with (Answer (invalid_access_key_id "unknown access key" (Some (uri_path (pr_uri rq)))))
  end.

Definition lookup_session (k : string) : P (option SessionEntry) := fun s =>
  let r := Sessions.lookup p_now_inst k (px_sessions s) in (Next (fst r), set_sessions (snd r) s).

Definition resolve_user (rq : proxy_request) (headers : header_map) (class : S3RequestClass) (access_key : string) : P (UserDoc * bool) :=
  e ← lookup_session access_key;
  match e with
  | Some e => u ← check_session rq headers class access_key e; mret (u, true)
  | None => u ← check_long_term rq access_key; mret (u, false)
  end.

(** The [CreateSession] action *)
Definition create_session (rq : proxy_request) (headers : header_map) (class : S3RequestClass) (user : UserDoc) : P unit :=
  let path := uri_path (pr_uri rq) in
  bucket ← match bucket class with
           | Some b => if is_empty b then reply_with (Answer (invalid_request "CreateSession requires a bucket" (Some path))) else mret b
           | None => reply_with (Answer (invalid_request "CreateSession requires a bucket" (Some path)))
           end;
  let m := from_header (header_text headers "x-amz-create-session-mode") in
  e ← (fun s => let r := create p_max_active p_base64 p_now_inst p_now p_seed (user_access_key user) bucket m p_session_ttl (px_sessions s) in
                (Next (fst r), set_sessions (snd r) s)) : P (option SessionEntry);
  match e with
  | None => reply_with (Answer (service_unavailable "session store is at capacity" (Some path) None))
  | Some e => if p_session_xml e then reply_with (SessionCreated e) else reply_with (Fault "xml")
  end.

(** Steps 3 to 5: the worker *)
Definition use_worker (h : WorkerHandle) : P unit :=
  modify (set_ctx (fun c => {|
    ctx_uid := ctx_uid c; ctx_username := ctx_username c; orig_host := orig_host c; ctx_profile := ctx_profile c;
    upstream := Some (h_endpoint h); worker := Some h; session_validated := session_validated c; ctx_slot := ctx_slot c |})).
Definition run_get_running (ak profile : string) : P (option WorkerHandle) := fun s =>
  let r := get_running (px_workers s) ak profile in (Next (fst r), set_workers (snd r) s).
Definition run_ensure_running (rq : proxy_request) (user : UserDoc) (buckets : list BucketView) (profile : string) : P WorkerHandle := fun s =>
  let r := ensure_running (px_workers s) user buckets profile in
  match fst r with
  | Some (Ok h) => (Next h, set_workers (snd r) s)
  | Some (Err e) =>
      (Return (Answer (service_unavailable ("failed to start worker: " +:+ p_show_error e) (Some (uri_path (pr_uri rq))) None)), set_workers (snd r) s)
  | Some Panics => (Crash, set_workers (snd r) s)
  | None => (Hangs, set_workers (snd r) s)
  end.
Definition route_to_worker (rq : proxy_request) (headers : header_map) (user : UserDoc) (session_validated_ : bool) (profile : string) : P unit :=
  _ ← modify (set_ctx (fun c => {|
        ctx_uid := ctx_uid c; ctx_username := ctx_username c; orig_host := orig_host c; ctx_profile := Some profile;
        upstream := upstream c; worker := worker c; session_validated := session_validated c; ctx_slot := ctx_slot c |}));
  running ← run_get_running (user_access_key user) profile;
  match running with
  | Some h => use_worker h
  | None =>
      _ ← (if session_validated_ then mret tt else validate_sigv4_header_only_or_reject rq headers user);
      buckets ← unwrap_or_reply (buckets_for_access_key d (user_access_key user)) (fun _ => Fault "directory buckets error");
      h ← run_ensure_running rq user buckets profile;
      use_worker h
  end.

(** Admission, and the headers the client may not set *)
Definition admission (rq : proxy_request) : P unit :=
  o ← (fun s => let r := acquire p_limiter (peer_ip (pr_client rq)) (px_inflight s) in (Next (fst r), set_inflight (snd r) s)) : P AcquireOutcome;
  match o with
  | Acquired ip => modify (set_ctx (fun c => {|
        ctx_uid := ctx_uid c; ctx_username := ctx_username c; orig_host := orig_host c; ctx_profile := ctx_profile c;
        upstream := upstream c; worker := worker c; session_validated := session_validated c; ctx_slot := Some ip |}))
  | Bypassed => mret tt
  | Throttled _ => reply_with (Answer (slow_down "request rate too high" (Some (uri_path (pr_uri rq))) 1))
  end.
Definition prepare_headers (rq : proxy_request) (h : header_map) : header_map :=
  let h := match hm_get h "host", pr_authority rq with
           | None, Some a => hm_insert "host" (Some a) h
           | _, _ => h
           end in
  hm_remove "x-s32p-validated" h.

Definition select_action (class : S3RequestClass) : P RouteAction :=
  match p_routing !! class_key class with
  | Some a => mret a
  | None => match p_routing !! "other"%string with Some a => mret a | None => reply_with (Fault "no routing configured") end
  end.

(** Steps 2.0 to 2b: what is answered here, and the worker otherwise *)
Definition perform (rq : proxy_request) (headers : header_map) (class : S3RequestClass) (action : RouteAction) (user : UserDoc) (validated : bool) : P unit :=
  let path := uri_path (pr_uri rq) in
  let check := if validated then mret tt else validate_sigv4_header_only_or_reject rq headers user in
  match action with
  | NotImplemented message => _ ← check; reply_with (Answer (not_implemented message (Some path)))
  | AwsCompat => _ ← check; reply_with (aws_compat_response (op class) (Some path))
  | MintSession =>
      _ ← reply_if validated (Answer (invalid_request "CreateSession requires long-term credentials" (Some path)));
      _ ← validate_sigv4_header_only_or_reject rq headers user;
      create_session rq headers class user
  | ProxyTo profile => route_to_worker rq headers user validated profile
  end.

(** [request_filter]: it goes on when the request is forwarded. *)
Definition request_filter (rq : proxy_request) : P unit :=
  _ ← admission rq;
  _ ← modify (set_background start_background);
  _ ← modify (set_headers (prepare_headers rq));
  headers ← get px_headers;
  let class := classify_request rq headers in
  action ← select_action class;
  _ ← modify (set_ctx (fun c => {|
        ctx_uid := ctx_uid c; ctx_username := ctx_username c; orig_host := header_text headers "host"; ctx_profile := ctx_profile c;
        upstream := upstream c; worker := worker c; session_validated := session_validated c; ctx_slot := ctx_slot c |}));
  access_key ← unwrap_or_reply (extract_access_key_from_request p_debug_str p_form_parse (pr_uri rq) headers)
                 (fun _ => denied rq "invalid or missing credentials");
  '(user, validated) ← resolve_user rq headers class access_key;
  _ ← modify (set_ctx (fun c => {|
        ctx_uid := Some (user_uid user); ctx_username := Some (user_username user); orig_host := orig_host c; ctx_profile := ctx_profile c;
        upstream := upstream c; worker := worker c; session_validated := validated; ctx_slot := ctx_slot c |}));
  _ ← match detect_unsupported_sse headers with
      | Some kind => reply_with (Answer (sse_not_supported kind (Some (uri_path (pr_uri rq)))))
      | None => mret tt
      end;
  perform rq headers class action user validated.

(** [upstream_request_filter] on the headers of the forwarded request *)
Definition upstream_headers (rq : proxy_request) (c : ProxyCtx) (h : header_map) : header_map :=
  let h := match orig_host c with Some host => hm_insert "host" (Some host) h | None => h end in
  let h := match pr_client rq with
           | Some (Inet ip) => hm_insert "x-forwarded-for" (Some (p_show_ip ip)) h
           | Some UnixSocket => hm_insert "x-forwarded-for" (Some "unix"%string) h
           | None => hm_remove "x-forwarded-for" h
           end in
  let h := foldl (fun h n => hm_remove n h) h ["connection"; "proxy-connection"; "keep-alive"; "te"; "upgrade"]%string in
  match session_validated c, worker c with
  | true, Some handle => hm_insert "x-s32p-validated" (Some (h_worker_token handle)) h
  | _, _ => h
  end.

(** [response_filter] and [logging] *)
Definition response_filter (h : header_map) : header_map := hm_remove "alt-svc" (hm_insert "server" (Some "s32p-proxy"%string) h).
Definition logging (s : proxy_state W) : proxy_state W :=
  match ctx_slot (px_ctx s) with
  | None => s
  | Some ip => set_inflight (release ip (px_inflight s))
      (set_ctx (fun c => {|
        ctx_uid := ctx_uid c; ctx_username := ctx_username c; orig_host := orig_host c; ctx_profile := ctx_profile c;
        upstream := upstream c; worker := worker c; session_validated := session_validated c; ctx_slot := None |}) s)
  end.
End Proxy.
