(* ===== verification/StartUp.v ===== *)
(** * s32p-proxy: configuration and start-up

    s32p-proxy/src/config.rs, the checks of s32p-support/src/secret_file.rs and
    what [main] builds from them.  [serde_yaml] is a parameter; a [BTreeMap] is
    the list of its entries in key order. *)

From Stdlib Require Import ZArith Lia Ascii.
From stdpp Require Import base list strings numbers option gmap fin_maps.
From S2P Require Import Classifier.
From S2P Require Import Prelude RustStr Http Utils Directory DirectoryCache ConnLimit Sessions Workers Proxy.

Local Open Scope s3_scope.
Local Open Scope string_scope.

(** ** config.rs: sections and their defaults *)
Record SessionConfig := { ttl_secs : Z; cleanup_interval_secs : Z; session_max_active : Z }.
Definition default_session : SessionConfig := {| ttl_secs := 300; cleanup_interval_secs := 60; session_max_active := 10000 |}.

Record ConnectionLimitsConfig := { max_concurrent_requests_per_ip : Z; conf_keepalive_idle_secs : Z; trusted_loopback_bypass : bool }.
Definition default_limits : ConnectionLimitsConfig :=
  {| max_concurrent_requests_per_ip := 256; conf_keepalive_idle_secs := 60; trusted_loopback_bypass := true |}.
(** [ConnectionLimiter::new] *)
Definition new_limiter (c : ConnectionLimitsConfig) : ConnectionLimiter :=
  {| per_ip := max_concurrent_requests_per_ip c; loopback_bypass := trusted_loopback_bypass c; keepalive_idle_secs := conf_keepalive_idle_secs c |}.

Record ServerConfig := {
  listen : string; public_scheme : string; tls_cert_path : option string; tls_key_path : option string; srv_region : string;
  srv_log_level : option string; srv_log_format : option string; shutdown_grace_period_secs : Z; srv_suffixes : list string;
  connection_limits : ConnectionLimitsConfig }.

Record CacheToggle := { cache_on : option bool; user_ttl_secs : Z; buckets_ttl_secs : Z; negative_ttl_secs : Z; conf_max_entries : nat }.
Definition default_cache : CacheToggle :=
  {| cache_on := None; user_ttl_secs := 30; buckets_ttl_secs := 30; negative_ttl_secs := 5; conf_max_entries := 4096 |}.
Inductive AuthBackend := YamlBackend | OpenBaoBackend.
Record OpenBaoAuthConfig := {
  bao_address : string; approle_mount : string; role_id_file : string; secret_id_file : string; bao_kv_mount : string; bao_prefix : string }.
Record AuthConfig := { backend : AuthBackend; auth_yaml : option string; auth_openbao : option OpenBaoAuthConfig; auth_cache : CacheToggle }.

Record LifecycleConfig := { idle_timeout_secs : Z; sweep_interval_secs : Z; reconcile_interval_secs : Z; reconcile_grace_secs : Z }.
Record WorkersConfig := {
  w_posix_root : string; w_allowed_roots : list string; w_launcher : LauncherConfig; lifecycle : LifecycleConfig;
  w_profiles : list (string * WorkerProfile) }.
Record Config := {
  version : Z; server : ServerConfig; auth : AuthConfig; workers : WorkersConfig; class_map : list (string * RouteAction); session : SessionConfig }.

Inductive start_error :=
| NotReadable (path : string) | NotYaml | XdgUnset | XdgEmpty | BadVersion (v : Z) | Empty (field : string) | BadScheme (s : string) | TlsPathsMissing
| TlsFilesMissing | SectionMissing (name : string) | RelativeRoot (root : string) | NoProfiles | RunDirEmpty | ClassUnknownProfile (class profile : string)
| EmptyMessage (class : string) | SessionOnly (class : string) | BadLogFormat (f : string) | NotRegular (path : string) | WrongOwner (path : string) | OpenToOthers (path : string)
| DirectoryFailed | BindFailed | TlsFailed.

(** What the kernel and the libraries answer *)
Record file_stat := { st_regular : bool; st_uid : Z; st_mode : Z }.
Class StartEnv := {
  euid : Z;
  xdg_runtime_dir : option string;
  read_to_string : string -> option string;
  from_yaml : string -> option Config;
  file_exists : string -> bool;
  (* [open] and [fstat] *)
  open_stat : string -> option file_stat;
  load_yaml_directory : string -> bool;
  openbao_client_builds : bool;
  nss_bind : option string;
  load_tls : string -> string -> bool;
  current_exe_dir : option string;
}.

Section Start.
Context {E : StartEnv}.

(** [default_uds_run_dir] *)
Definition default_uds_run_dir : res start_error string :=
  if (euid =? 0)%Z then Ok "/run/s32p"
  else
    xdg ← ok_or xdg_runtime_dir XdgUnset;
    let xdg := trim_end_matches "/" xdg in
    _ ← ensure (negb (is_empty xdg)) XdgEmpty;
    Ok (xdg +:+ "/s32p").

(** ** [normalize_defaults] *)
Definition run_dir_set (p : WorkerProfile) : bool := match uds_run_dir p with Some s => negb (is_empty (trim s)) | None => false end.
Definition with_run_dir (d : string) (p : WorkerProfile) : WorkerProfile :=
  {| exec := exec p; args := args p; kind := kind p; uds_run_dir := Some d; env := env p |}.
Definition normalize_profile (p : WorkerProfile) : res start_error WorkerProfile :=
  match kind p with
  | UpTcp => Ok p
  | UpUds => if run_dir_set p then Ok p else d ← default_uds_run_dir; Ok (with_run_dir d p)
  end.
Fixpoint normalize_profiles (l : list (string * WorkerProfile)) : res start_error (list (string * WorkerProfile)) :=
  match l with
  | [] => Ok []
  | (name, p) :: l => p ← normalize_profile p; l ← normalize_profiles l; Ok ((name, p) :: l)
  end.
Definition set_profiles (l : list (string * WorkerProfile)) (c : Config) : Config :=
  {| version := version c; server := server c; auth := auth c;
     workers := {| w_posix_root := w_posix_root (workers c); w_allowed_roots := w_allowed_roots (workers c); w_launcher := w_launcher (workers c);
                   lifecycle := lifecycle (workers c); w_profiles := l |};
     class_map := class_map c; session := session c |}.
Definition normalize_defaults (c : Config) : res start_error Config :=
  l ← normalize_profiles (w_profiles (workers c)); Ok (set_profiles l c).

(** ** [validate] *)
Definition not_blank (field s : string) : res start_error unit := ensure (negb (is_empty (trim s))) (Empty field).
Definition validate_server (s : ServerConfig) : res start_error unit :=
  _ ← not_blank "server.listen" (listen s);
  _ ← ensure ((public_scheme s =s "http") || (public_scheme s =s "https")) (BadScheme (public_scheme s));
  _ ← (if public_scheme s =s "https" then
         match tls_cert_path s, tls_key_path s with
         | Some cert, Some key => ensure (file_exists cert && file_exists key) TlsFilesMissing
         | _, _ => Err TlsPathsMissing
         end
       else Ok tt);
  not_blank "server.region" (srv_region s).
Definition validate_auth (a : AuthConfig) : res start_error unit :=
  match backend a with
  | YamlBackend => path ← ok_or (auth_yaml a) (SectionMissing "auth.yaml"); not_blank "auth.yaml.path" path
  | OpenBaoBackend =>
      o ← ok_or (auth_openbao a) (SectionMissing "auth.openbao");
      _ ← not_blank "auth.openbao.address" (bao_address o);
      _ ← not_blank "auth.openbao.approle_mount" (approle_mount o);
      _ ← not_blank "auth.openbao.role_id_file" (role_id_file o);
      _ ← not_blank "auth.openbao.secret_id_file" (secret_id_file o);
      _ ← not_blank "auth.openbao.kv_mount" (bao_kv_mount o);
      not_blank "auth.openbao.prefix" (bao_prefix o)
  end.
Fixpoint each {A} (f : A -> res start_error unit) (l : list A) : res start_error unit :=
  match l with [] => Ok tt | x :: l => _ ← f x; each f l end.
Definition validate_profile (np : string * WorkerProfile) : res start_error unit :=
  match kind (snd np) with
  | UpTcp => Ok tt
  | UpUds => ensure (negb (is_empty (trim (default "" (uds_run_dir (snd np)))))) RunDirEmpty
  end.
Definition known_profile (name : string) (l : list (string * WorkerProfile)) : bool := existsb (fun np => fst np =s name) l.
Definition validate_route (profiles : list (string * WorkerProfile)) (ca : string * RouteAction) : res start_error unit :=
  match snd ca with
  | ProxyTo p => ensure (known_profile p profiles) (ClassUnknownProfile (fst ca) p)
  | NotImplemented m => ensure (negb (is_empty (trim m))) (EmptyMessage (fst ca))
  | MintSession => ensure (fst ca =s "session") (SessionOnly (fst ca))
  | AwsCompat => Ok tt
  end.
Definition validate_workers (w : WorkersConfig) : res start_error unit :=
  _ ← not_blank "workers.posix_root" (w_posix_root w);
  _ ← each (fun root => ensure (is_absolute root) (RelativeRoot root)) (w_allowed_roots w);
  _ ← not_blank "workers.launcher.path" (launcher_path (w_launcher w));
  _ ← ensure (match w_profiles w with [] => false | _ => true end) NoProfiles;
  each validate_profile (w_profiles w).
Definition validate (c : Config) : res start_error unit :=
  _ ← ensure (version c =? 1)%Z (BadVersion (version c));
  _ ← validate_server (server c);
  _ ← validate_auth (auth c);
  _ ← validate_workers (workers c);
  each (validate_route (w_profiles (workers c))) (class_map c).

Definition from_str (yaml : string) : res start_error Config :=
  c ← ok_or (from_yaml yaml) NotYaml; c ← normalize_defaults c; _ ← validate c; Ok c.
Definition from_path (path : string) : res start_error Config :=
  text ← ok_or (read_to_string path) (NotReadable path); from_str text.

(** [String::replace] *)
Fixpoint replace_loop (fuel : nat) (pat by_ s : string) : string :=
  match fuel with
  | O => s
  | S fuel => match split_at_str pat s with Some (a, b) => a +:+ by_ +:+ replace_loop fuel pat by_ b | None => s end
  end.
Definition replace (pat by_ s : string) : string := replace_loop (S (String.length s)) pat by_ s.
(** [resolve_placeholders]; replacing in a text without the placeholder
    changes nothing *)
Definition resolve_placeholders (install_bin_dir : string) (c : Config) : Config :=
  let r := replace "{{install_bin_dir}}" install_bin_dir in
  let w := workers c in
  {| version := version c; server := server c; auth := auth c;
     workers := {| w_posix_root := w_posix_root w; w_allowed_roots := w_allowed_roots w;
                   w_launcher := {| launcher_path := r (launcher_path (w_launcher w)); pass_user_flag_if_root := pass_user_flag_if_root (w_launcher w);
                                    landlock := landlock (w_launcher w); landlock_strict := landlock_strict (w_launcher w) |};
                   lifecycle := lifecycle w;
                   w_profiles := (fun np => (fst np, {| exec := r (exec (snd np)); args := args (snd np); kind := kind (snd np);
                                                        uds_run_dir := uds_run_dir (snd np); env := env (snd np) |})) <$> w_profiles w |};
     class_map := class_map c; session := session c |}.

(** ** secret_file.rs *)
Definition stat_or_reject (path : string) : res start_error unit :=
  md ← ok_or (open_stat path) (NotReadable path);
  _ ← ensure (st_regular md) (NotRegular path);
  _ ← ensure (st_uid md =? euid)%Z (WrongOwner path);
  ensure (Z.land (Z.land (st_mode md) 511) 63 =? 0)%Z (OpenToOthers path).

(** ** [main] *)
Definition read_secret (path : string) : res start_error string :=
  _ ← stat_or_reject path; s ← ok_or (read_to_string path) (NotReadable path); Ok (trim s).
Inductive directory_source := FromYaml (path : string) | FromOpenBao (c : OpenBaoAuthConfig) (role_id secret_id : string).
Definition open_directory (a : AuthConfig) : res start_error directory_source :=
  match backend a with
  | YamlBackend =>
      path ← ok_or (auth_yaml a) (SectionMissing "auth.yaml");
      _ ← stat_or_reject path;
      _ ← ensure (load_yaml_directory path) DirectoryFailed;
      Ok (FromYaml path)
  | OpenBaoBackend =>
      o ← ok_or (auth_openbao a) (SectionMissing "auth.openbao");
      role_id ← read_secret (role_id_file o);
      secret_id ← read_secret (secret_id_file o);
      _ ← ensure openbao_client_builds DirectoryFailed;
      Ok (FromOpenBao o role_id secret_id)
  end.
Definition secs (n : Z) : Z := (n * 1000000000)%Z.
Definition directory_cache (a : AuthConfig) : option CacheConfig :=
  if default (match backend a with OpenBaoBackend => true | YamlBackend => false end) (cache_on (auth_cache a))
  then Some {| user_ttl := secs (user_ttl_secs (auth_cache a)); buckets_ttl := secs (buckets_ttl_secs (auth_cache a));
               negative_ttl := secs (negative_ttl_secs (auth_cache a)); max_entries := conf_max_entries (auth_cache a) |}
  else None.
Definition spawn_config (c : Config) (nss_sock_env_value : string) : SpawnConfig :=
  {| posix_root := w_posix_root (workers c); allowed_data_path_roots := w_allowed_roots (workers c); launcher := w_launcher (workers c);
     profiles := list_to_map (w_profiles (workers c)); region := srv_region (server c); virtual_hosted_suffixes := srv_suffixes (server c);
     log_level := srv_log_level (server c); log_format := srv_log_format (server c); nss_sock_env := nss_sock_env_value |}.
Inductive listener := PlainTcp (addr : string) | Tls (addr cert key : string).
Definition open_listener (s : ServerConfig) : res start_error listener :=
  if public_scheme s =s "https" then
    match tls_key_path s, tls_cert_path s with
    | Some key, Some cert => _ ← stat_or_reject key; _ ← ensure (load_tls cert key) TlsFailed; Ok (Tls (listen s) cert key)
    | _, _ => Panics
    end
  else Ok (PlainTcp (listen s)).

Record started := {
  su_config : Config; su_directory : directory_source; su_cache : option CacheConfig; su_workers : SpawnConfig; su_routing : gmap string RouteAction;
  su_limiter : ConnectionLimiter; su_listener : listener }.
Definition main (config_path : string) : res start_error started :=
  c ← from_path config_path;
  let c := resolve_placeholders (default "target/debug" current_exe_dir) c in
  let format := default "text" (srv_log_format (server c)) in
  _ ← ensure ((format =s "json") || (format =s "text")) (BadLogFormat format);
  d ← open_directory (auth c);
  nss ← ok_or nss_bind BindFailed;
  l ← open_listener (server c);
  Ok {| su_config := c; su_directory := d; su_cache := directory_cache (auth c); su_workers := spawn_config c nss; su_routing := list_to_map (class_map c);
        su_limiter := new_limiter (connection_limits (server c)); su_listener := l |}.
End Start.

(** ** Trimming a text that ends in a visible byte *)
Lemma strip_ws_last a c s' : is_visible c = true -> strip_ws (a +:+ String c "") = Some s' -> exists a', s' = a' +:+ String c "".
Proof.
  intros Hc. destruct a as [|x [|y [|z a]]]; cbn.
  - by rewrite visible_not_ws.
  - destruct (is_ascii_ws x); [intros [= <-]; by exists ""|]. by rewrite visible_not_ws2_last.
  - destruct (is_ascii_ws x); [intros [= <-]; by exists (String y "")|]. destruct (is_ws2 x y); [intros [= <-]; by exists ""|].
    by rewrite visible_not_ws3_last.
  - destruct (is_ascii_ws x); [intros [= <-]; by exists (String y (String z a))|]. destruct (is_ws2 x y); [intros [= <-]; by exists (String z a)|].
    destruct (is_ws3 x y z); [|done]. intros [= <-]. by exists a.
Qed.
Lemma trim_start_last n a c : is_visible c = true -> exists a', strip_while n strip_ws (a +:+ String c "") = a' +:+ String c "".
Proof.
  intros Hc. revert a. induction n as [|n IH]; intros a; cbn [strip_while]; [by exists a|].
  destruct (strip_ws (a +:+ String c "")) as [s'|] eqn:Es; [|by exists a]. destruct (strip_ws_last a c s' Hc Es) as [a' ->]. apply IH.
Qed.
Lemma trim_last a c : is_visible c = true -> is_empty (trim (a +:+ String c "")) = false.
Proof.
  intros Hc. unfold trim, trim_start. destruct (trim_start_last (String.length (a +:+ String c "")) a c Hc) as [a' ->].
  unfold trim_end. rewrite str_rev_app_distr. cbn [str_rev String.append].
  rewrite strip_while_none.
  - change (String c "" +:+ str_rev a') with (String c (str_rev a')). cbn [str_rev]. rewrite str_rev_involutive. by destruct a'.
  - cbn. destruct (str_rev a') as [|y [|z r]]; rewrite ?visible_not_ws, ?visible_not_ws2_last, ?visible_not_ws3_last by done; done.
Qed.

Section Proofs.
Context {E : StartEnv}.

(** ** Profiles *)
Lemma default_run_dir_set d : default_uds_run_dir = Ok d -> is_empty (trim d) = false.
Proof.
  unfold default_uds_run_dir. case_match; [by intros [= <-]|]. destruct xdg_runtime_dir as [x|]; cbn [ok_or mbind res_bind]; [|done].
  destruct (ensure _ _) as [[]| |]; cbn [mbind res_bind]; try done. intros [= <-].
  replace (trim_end_matches "/" x +:+ "/s32p") with ((trim_end_matches "/" x +:+ "/s32") +:+ String "p" "") by by rewrite str_app_assoc.
  by apply trim_last.
Qed.
Lemma normalize_profile_ok name p p' : normalize_profile p = Ok p' -> validate_profile (name, p') = Ok tt.
Proof.
  unfold normalize_profile, validate_profile, run_dir_set. cbn [snd]. destruct (kind p) eqn:Ek; [intros [= <-]; by rewrite Ek|].
  destruct (uds_run_dir p) as [d|] eqn:Ed.
  - destruct (negb (is_empty (trim d))) eqn:En.
    + intros [= <-]. rewrite Ek, Ed. cbn [default from_option id]. unfold ensure. by rewrite En.
    + destruct default_uds_run_dir as [d'| |] eqn:Edef; cbn [mbind res_bind]; try done. intros [= <-]. cbn [with_run_dir kind uds_run_dir default from_option id].
      rewrite Ek. cbn [default from_option id]. unfold ensure. by rewrite (default_run_dir_set d' Edef).
  - destruct default_uds_run_dir as [d'| |] eqn:Edef; cbn [mbind res_bind]; try done. intros [= <-]. cbn [with_run_dir kind uds_run_dir].
    rewrite Ek. cbn [default from_option id]. unfold ensure. by rewrite (default_run_dir_set d' Edef).
Qed.
Lemma normalize_profiles_ok l l' : normalize_profiles l = Ok l' -> Forall (fun np => validate_profile np = Ok tt) l'.
Proof.
  revert l'. induction l as [|[name p] l IH]; intros l'; cbn [normalize_profiles]; [by intros [= <-]|].
  destruct (normalize_profile p) as [p'| |] eqn:Ep; cbn [mbind res_bind]; try done.
  destruct (normalize_profiles l) as [l1| |]; cbn [mbind res_bind]; try done. intros [= <-]. constructor; [by eapply normalize_profile_ok|by apply IH].
Qed.
Lemma each_ok {A} (f : A -> res start_error unit) l : each f l = Ok tt <-> Forall (fun x => f x = Ok tt) l.
Proof.
  induction l as [|x l IH]; cbn [each]; [by split|]. rewrite Forall_cons_iff, <- IH.
  destruct (f x) as [[]| |]; cbn [mbind res_bind]; naive_solver.
Qed.

(** ** What a configuration that loads promises *)
Lemma validate_split c : validate c = Ok tt ->
  validate_workers (workers c) = Ok tt /\ each (validate_route (w_profiles (workers c))) (class_map c) = Ok tt.
Proof.
  unfold validate. destruct (ensure _ _) as [[]| |]; cbn [mbind res_bind]; try done. destruct (validate_server _) as [[]| |]; cbn [mbind res_bind]; try done.
  destruct (validate_auth _) as [[]| |]; cbn [mbind res_bind]; try done. by destruct (validate_workers _) as [[]| |].
Qed.
Lemma validate_workers_profiles w : validate_workers w = Ok tt -> each validate_profile (w_profiles w) = Ok tt.
Proof. unfold validate_workers. do 4 (intros (? & _ & H)%bind_ok_inv; revert H). done. Qed.
Lemma from_path_ok path c : from_path path = Ok c ->
  Forall (fun np => validate_profile np = Ok tt) (w_profiles (workers c)) /\
  Forall (fun ca => validate_route (w_profiles (workers c)) ca = Ok tt) (class_map c).
Proof.
  unfold from_path, from_str. destruct (read_to_string path); cbn [ok_or mbind res_bind]; [|done]. destruct (from_yaml _) as [c0|]; cbn [ok_or mbind res_bind]; [|done].
  destruct (normalize_defaults c0) as [c1| |]; cbn [mbind res_bind]; try done. destruct (validate c1) as [[]| |] eqn:Ev; cbn [mbind res_bind]; try done.
  intros [= <-]. apply validate_split in Ev as [Hw Hr]. split; [by apply each_ok, validate_workers_profiles|by apply each_ok].
Qed.
Lemma known_profile_lookup {A} (f : string * WorkerProfile -> string * A) name (l : list (string * WorkerProfile)) :
  (forall np, fst (f np) = fst np) -> known_profile name l = true ->
  exists np, np ∈ l /\ fst np = name /\ (list_to_map (f <$> l) : gmap string A) !! name = Some (snd (f np)).
Proof.
  intros Hf. unfold known_profile. induction l as [|np l IH]; cbn [existsb]; [done|]. rewrite fmap_cons, (surjective_pairing (f np)), list_to_map_cons, Hf.
  destruct (fst np =s name) eqn:En.
  - intros _. apply str_eqb_true in En. exists np. split_and!; [constructor|done|]. by rewrite En, lookup_insert_eq.
  - intros Hl. destruct (IH Hl) as (np' & Hin & Hn & Hl'). exists np'. split_and!; [by constructor|done|].
    rewrite lookup_insert_ne; [done|]. by apply str_eqb_false.
Qed.

(** ** Spawning *)
Definition not_misconfigured (e : spawn_error) : Prop := match e with UnknownProfile _ | MissingRunDir => False | _ => True end.
Definition avoids {A} (r : res spawn_error A) : Prop := forall e, r = Err e -> not_misconfigured e.
Lemma avoids_bind {A B} (m : res spawn_error A) (f : A -> res spawn_error B) : avoids m -> (forall a, m = Ok a -> avoids (f a)) -> avoids (m ≫= f).
Proof. intros Hm Hf e. destruct m as [a|e'|]; cbn; [by apply Hf|intros [= <-]; by apply Hm|done]. Qed.
Lemma avoids_ok {A} (a : A) : avoids (Ok a).
Proof. done. Qed.
Lemma avoids_ensure b e : not_misconfigured e -> avoids (ensure b e).
Proof. intros He e'. destruct b; cbn; [done|]. by intros [= <-]. Qed.
Lemma avoids_ok_or {A} (o : option A) e : not_misconfigured e -> avoids (ok_or o e).
Proof. intros He e'. destruct o; cbn; [done|]. by intros [= <-]. Qed.
Hint Resolve avoids_ok avoids_ensure avoids_ok_or : s3.
Ltac avoid := repeat first [apply avoids_bind; [|intros ? ?] | solve [auto with s3] | apply avoids_ensure; exact I | apply avoids_ok_or; exact I].
Lemma avoids_stage `{SpawnEnv} bs seen links : avoids (stage_links bs seen links).
Proof. revert seen links. induction bs as [|b bs IH]; intros seen links; cbn [stage_links]; avoid. Qed.
Lemma avoids_render fuel input vars rest out : avoids (render_loop fuel input vars rest out).
Proof.
  revert rest out. induction fuel as [|fuel IH]; intros rest out; cbn [render_loop]; [done|]. repeat case_match; try (by intros e [= <-]); auto with s3.
Qed.
Lemma avoids_args args vars : avoids (render_args args vars).
Proof. induction args as [|a args IH]; cbn [render_args]; avoid. apply avoids_render. Qed.
Lemma avoids_env env vars : avoids (render_env env vars).
Proof. induction env as [|[k v] env IH]; cbn [render_env]; avoid. apply avoids_render. Qed.
Lemma avoids_staged `{SpawnEnv} sc user buckets : avoids (create_staged_posix_root sc user buckets).
Proof. unfold create_staged_posix_root. avoid. apply avoids_stage. Qed.
Lemma avoids_wait `{SpawnEnv} fuel i : avoids (default Panics (wait_loop fuel i)).
Proof.
  revert i. induction fuel as [|fuel IH]; intros i; cbn [wait_loop]; [by intros e|].
  repeat case_match; [by intros e| |apply IH]. by intros e [= <-].
Qed.
Lemma avoids_ready `{SpawnEnv} : avoids (default Panics wait_until_ready).
Proof. apply avoids_wait. Qed.
Lemma avoids_spawn `{SpawnEnv} sc user buckets name p :
  profiles sc !! name = Some p -> (kind p = UpUds -> is_Some (uds_run_dir p)) -> avoids (spawn_worker sc user buckets name).
Proof.
  intros Hp Hd. unfold spawn_worker. rewrite Hp. cbn [ok_or mbind res_bind]. apply avoids_bind; [apply avoids_staged|]. intros [root links] _. avoid.
  - unfold choose_endpoint. destruct (kind p) eqn:Ek; [avoid|]. destruct (Hd eq_refl) as [d ->]. cbn [ok_or mbind res_bind]. unfold uds_socket_path. avoid.
  - apply avoids_args.
  - apply avoids_env.
  - apply avoids_ready.
Qed.
Lemma main_ok path s : main path = Ok s -> exists c nss, from_path path = Ok c /\
  su_config s = resolve_placeholders (default "target/debug" current_exe_dir) c /\ open_directory (auth (su_config s)) = Ok (su_directory s) /\
  open_listener (server (su_config s)) = Ok (su_listener s) /\ su_workers s = spawn_config (su_config s) nss /\ su_routing s = list_to_map (class_map (su_config s)).
Proof.
  unfold main. intros (c & Hc & H)%bind_ok_inv. apply bind_ok_inv in H as (_ & _ & H). apply bind_ok_inv in H as (d & Hd & H).
  apply bind_ok_inv in H as (nss & _ & H). apply bind_ok_inv in H as (l & Hl & H). injection H as <-. cbn. eauto 10.
Qed.
Lemma valid_run_dir name p : validate_profile (name, p) = Ok tt -> kind p = UpUds -> is_Some (uds_run_dir p).
Proof. unfold validate_profile. cbn [snd]. intros H Hk. rewrite Hk in H. destruct (uds_run_dir p); [eauto|done]. Qed.
End Proofs.

(** A proxy that starts can start its workers: whatever class a request
    has and whatever the worker profile its route names, the profile exists
    and, when it uses a socket, has a run directory, so a start never fails
    for its configuration. *)
Theorem started_routes_launch `{StartEnv} `{SpawnEnv} (config_path : string) (s : started) (class profile : string) (user : UserDoc) (buckets : list BucketView) :
  main config_path = Ok s -> su_routing s !! class = Some (ProxyTo profile) ->
  spawn_worker (su_workers s) user buckets profile <> Err (UnknownProfile profile) /\ spawn_worker (su_workers s) user buckets profile <> Err MissingRunDir.
Proof.
  intros (c & nss & Hc & Hs & _ & _ & Hw & Hr)%main_ok Hroute. rewrite Hr, Hs in Hroute. apply elem_of_list_to_map_2 in Hroute.
  destruct (from_path_ok _ _ Hc) as [Hp Hv]. cbn [resolve_placeholders class_map] in Hroute.
  rewrite list.Forall_forall in Hv. apply Hv in Hroute. cbn [validate_route snd fst] in Hroute.
  destruct (known_profile profile (w_profiles (workers c))) eqn:Hk; [|done].
  set (f := fun np : string * WorkerProfile => (fst np, {| exec := replace "{{install_bin_dir}}" (default "target/debug" current_exe_dir) (exec (snd np));
    args := args (snd np); kind := kind (snd np); uds_run_dir := uds_run_dir (snd np); env := env (snd np) |})).
  destruct (known_profile_lookup f profile _ (fun _ => eq_refl) Hk) as ([n p] & Hin & Hn & Hl). cbn in Hn. subst n.
  rewrite list.Forall_forall in Hp. specialize (Hp _ Hin).
  assert (avoids (spawn_worker (su_workers s) user buckets profile)) as Ha.
  { eapply avoids_spawn; [rewrite Hw, Hs; exact Hl|]. cbn. by eapply valid_run_dir. }
  split; intros Heq; by apply (Ha _ Heq).
Qed.

(** ** Secrets *)
Section Secrets.
Context {E : StartEnv}.

(** A regular file of the proxy's user, without any permission of the group
    or of others *)
Definition private_file (path : string) : Prop :=
  exists md, open_stat path = Some md /\ st_regular md = true /\ st_uid md = euid /\ forall i, (0 <= i < 6)%Z -> Z.testbit (st_mode md) i = false.
Lemma no_low_bits m : (Z.land (Z.land m 511) 63 =? 0)%Z = true <-> forall i, (0 <= i < 6)%Z -> Z.testbit m i = false.
Proof.
  rewrite Z.eqb_eq, <- Z.land_assoc. change (Z.land 511 63) with (Z.ones 6). split.
  - intros Hz i Hi. apply (f_equal (fun z => Z.testbit z i)) in Hz. rewrite Z.land_spec, Z.ones_spec_low, Z.bits_0, andb_true_r in Hz by lia. done.
  - intros Hi. apply Z.bits_inj'. intros i Hi0. rewrite Z.land_spec, Z.bits_0. destruct (decide (i < 6)%Z); [by rewrite Hi by lia|].
    rewrite Z.ones_spec_high by lia. apply andb_false_r.
Qed.
Lemma stat_or_reject_spec path : stat_or_reject path = Ok tt <-> private_file path.
Proof.
  unfold stat_or_reject, private_file. destruct (open_stat path) as [md|]; cbn [ok_or mbind res_bind]; [|by split; [|intros (? & ? & _)]]. split.
  - intros (u1 & H1 & H)%bind_ok_inv. apply bind_ok_inv in H as (u2 & H2 & H). apply ensure_ok_inv in H1, H2, H. apply Z.eqb_eq in H2.
    exists md. split_and!; try done. by apply no_low_bits.
  - intros (md' & [= <-] & H1 & H2 & H3). apply no_low_bits in H3. unfold ensure. rewrite H1, H2, Z.eqb_refl, H3. done.
Qed.
Lemma read_secret_private path s : read_secret path = Ok s -> private_file path.
Proof. unfold read_secret. intros ([] & Hs & _)%bind_ok_inv. by apply stat_or_reject_spec. Qed.

(** The files whose content is a secret the proxy uses *)
Definition secret_files (s : started) : list string :=
  (match su_directory s with FromYaml path => [path] | FromOpenBao c _ _ => [role_id_file c; secret_id_file c] end ++
   match su_listener s with Tls _ _ key => [key] | PlainTcp _ => [] end)%list.
Lemma open_directory_private a d : open_directory a = Ok d ->
  Forall private_file (match d with FromYaml path => [path] | FromOpenBao c _ _ => [role_id_file c; secret_id_file c] end).
Proof.
  unfold open_directory. destruct (backend a).
  - intros (path & _ & H)%bind_ok_inv. apply bind_ok_inv in H as ([] & Hs & H). apply bind_ok_inv in H as (? & _ & H). injection H as <-.
    apply Forall_singleton. by apply stat_or_reject_spec.
  - intros (o & _ & H)%bind_ok_inv. apply bind_ok_inv in H as (r & Hr & H). apply bind_ok_inv in H as (k & Hk & H). apply bind_ok_inv in H as (? & _ & H).
    injection H as <-. repeat constructor; eauto using read_secret_private.
Qed.
Lemma open_listener_private srv l : open_listener srv = Ok l -> Forall private_file (match l with Tls _ _ key => [key] | PlainTcp _ => [] end).
Proof.
  unfold open_listener. destruct (public_scheme srv =s "https"); [|by intros [= <-]]. destruct (tls_key_path srv) as [key|], (tls_cert_path srv) as [cert|]; try done.
  intros ([] & Hs & H)%bind_ok_inv. apply bind_ok_inv in H as (? & _ & H). injection H as <-. apply Forall_singleton. by apply stat_or_reject_spec.
Qed.
End Secrets.

(** C33. Secrets are private: a proxy that starts took its secrets, the
    directory file, the OpenBao credentials and the TLS key, only from regular
    files of its own user that nobody else has any permission on, and its
    listener follows the configured scheme. *)
Theorem started_secrets_private `{StartEnv} (config_path : string) (s : started) :
  main config_path = Ok s ->
  Forall private_file (secret_files s) /\
  (public_scheme (server (su_config s)) = "https" <-> exists addr cert key, su_listener s = Tls addr cert key).
Proof.
  intros (c & nss & _ & _ & Hd & Hl & _)%main_ok. split.
  - apply Forall_app. eauto using open_directory_private, open_listener_private.
  - unfold open_listener in Hl. destruct (public_scheme (server (su_config s)) =s "https") eqn:Es.
    + apply str_eqb_true in Es. split; [|done]. intros _. repeat case_match; try done. invert_bind Hl. injection Hl as <-. eauto.
    + apply str_eqb_false in Es. injection Hl as <-. naive_solver.
Qed.

(** ** The error that asks for a report *)
Section Unreachable.
Context {E : StartEnv}.
Definition silent {A} (r : res start_error A) : Prop := r <> Err RunDirEmpty.
Lemma silent_bind {A B} (m : res start_error A) (f : A -> res start_error B) : silent m -> (forall a, silent (f a)) -> silent (m ≫= f).
Proof. unfold silent. intros Hm Hf. destruct m; cbn; [apply Hf|congruence|done]. Qed.
Lemma silent_ok {A} (a : A) : silent (Ok a).
Proof. done. Qed.
Lemma silent_ensure b e : e <> RunDirEmpty -> silent (ensure b e).
Proof. unfold silent, ensure. intros He. destruct b; congruence. Qed.
Lemma silent_ok_or {A} (o : option A) e : e <> RunDirEmpty -> silent (ok_or o e).
Proof. unfold silent, ok_or. intros He. destruct o; congruence. Qed.
Lemma silent_each {A} (f : A -> res start_error unit) l : (forall x, silent (f x)) -> silent (each f l).
Proof. intros Hf. induction l as [|x l IH]; cbn [each]; [done|]. by apply silent_bind. Qed.
Ltac hush := repeat first [apply silent_bind; [|intros ?] | apply silent_ok | apply silent_ensure; done | apply silent_ok_or; done | apply silent_each; intros ? | case_match].
Lemma normalize_silent l : silent (normalize_profiles l).
Proof. induction l as [|[name p] l IH]; cbn [normalize_profiles]; [done|]. unfold normalize_profile, default_uds_run_dir. hush; done. Qed.
Lemma validate_silent c : each validate_profile (w_profiles (workers c)) = Ok tt -> silent (validate c).
Proof. intros Hp. unfold validate, validate_server, validate_auth, validate_workers, validate_route, not_blank. rewrite Hp. hush; done. Qed.
End Unreachable.

(** The message "this should not happen - please report" cannot appear:
    after [normalize_defaults] every profile on a socket has a run directory
    that is not blank. *)
Theorem run_dir_never_empty `{StartEnv} (yaml : string) : from_str yaml <> Err RunDirEmpty.
Proof.
  unfold from_str. apply silent_bind; [by apply silent_ok_or|]. intros c. unfold normalize_defaults.
  destruct (normalize_profiles (w_profiles (workers c))) as [l|e|] eqn:El; cbn [mbind res_bind]; [|intros [= ->]; by apply (normalize_silent _ El)|done].
  apply silent_bind; [|by intros]. apply validate_silent. apply each_ok, (normalize_profiles_ok _ _ El).
Qed.

(** Nothing checks the intervals: a cleanup interval of zero, with which
    [tokio::time::interval] panics in the task that drops expired sessions, is
    accepted. *)
Definition set_session (s : SessionConfig) (c : Config) : Config :=
  {| version := version c; server := server c; auth := auth c; workers := workers c; class_map := class_map c; session := s |}.
Lemma intervals_unchecked `{StartEnv} (c : Config) (s : SessionConfig) : validate (set_session s c) = validate c.
Proof. done. Qed.

(** ** A start at concrete values *)
Definition demo_profile : WorkerProfile := {| exec := "{{install_bin_dir}}/gw"; args := []; kind := UpUds; uds_run_dir := None; env := [] |}.
Definition demo_config : Config := {|
  version := 1;
  server := {| listen := ":9000"; public_scheme := "https"; tls_cert_path := Some "/c"; tls_key_path := Some "/k"; srv_region := "r"; srv_log_level := None;
               srv_log_format := None; shutdown_grace_period_secs := 10; srv_suffixes := []; connection_limits := default_limits |};
  auth := {| backend := YamlBackend; auth_yaml := Some "/d"; auth_openbao := None; auth_cache := default_cache |};
  workers := {| w_posix_root := "/srv"; w_allowed_roots := []; w_launcher := {| launcher_path := "l"; pass_user_flag_if_root := true; landlock := true; landlock_strict := true |};
                lifecycle := {| idle_timeout_secs := 60; sweep_interval_secs := 60; reconcile_interval_secs := 60; reconcile_grace_secs := 30 |};
                w_profiles := [("gw", demo_profile)] |};
  class_map := [("other", ProxyTo "gw")]; session := default_session |}.
Definition demo_start : StartEnv := {|
  euid := 1000; xdg_runtime_dir := Some "/run/user/1000/"; read_to_string := fun _ => Some "yaml"; from_yaml := fun _ => Some demo_config; file_exists := fun _ => true;
  open_stat := fun _ => Some {| st_regular := true; st_uid := 1000; st_mode := 33152 |}; load_yaml_directory := fun _ => true; openbao_client_builds := true;
  nss_bind := Some "@s32p-nss-1"; load_tls := fun _ _ => true; current_exe_dir := Some "/opt/bin" |}.
Definition demo_spawn : SpawnEnv := {|
  euid_is_root := false; runtime_root_ok := true; tempdir_in := fun _ _ => Some "/srv/s32p-1"; chown_ok := true; symlink_ok := fun _ => true; link_rename_ok := fun _ => true;
  to_str_ok := true; pick_free_port := None; run_dir_ok := true; gen_instance_id := "i"; gen_worker_token := "t"; utc_offset := 0; launches := false; connects := fun _ => true;
  elapsed := fun _ => 0%Z; sip_hash := fun _ => 0%Z; process := 0%nat |}.
Definition demo_started : option started := match @main demo_start "cfg" with Ok s => Some s | _ => None end.

Lemma started_routes_launch_witness : exists s, @main demo_start "cfg" = Ok s /\ su_routing s !! "other" = Some (ProxyTo "gw") /\
  forall user, @spawn_worker demo_spawn (su_workers s) user [] "gw" <> Err MissingRunDir.
Proof.
  destruct (@main demo_start "cfg") as [s|e|] eqn:Hm; [|vm_compute in Hm; discriminate..]. exists s.
  assert (su_routing s !! "other" = Some (ProxyTo "gw")) as Hr by (vm_compute in Hm; injection Hm as <-; vm_compute; reflexivity).
  split_and!; [done|exact Hr|]. intros user.
  exact (proj2 (@started_routes_launch demo_start demo_spawn "cfg" s "other" "gw" user [] Hm Hr)).
Defined.
Lemma started_secrets_private_witness : exists s, @main demo_start "cfg" = Ok s /\ secret_files s = ["/d"; "/k"] /\ Forall (@private_file demo_start) (secret_files s).
Proof.
  destruct (@main demo_start "cfg") as [s|e|] eqn:Hm; [|vm_compute in Hm; discriminate..]. exists s.
  split_and!; [done|vm_compute in Hm; injection Hm as <-; reflexivity|]. exact (proj1 (@started_secrets_private demo_start "cfg" s Hm)).
Defined.
