(* ===== verification/CtlConnect.v ===== *)
(** * s32p-ctl/src/main.rs: which directory a command works on

    The operator's tool takes its connection from the command line, the
    environment and, with [--config], the proxy's configuration file.  The
    [auth] section of that file is read twice, by the proxy (config.rs, the
    directory opened in StartUp.v) and by the tool, with different derived
    parsers: [RawAuth] is the section, the two readings are functions of it. *)

From Stdlib Require Import ZArith Lia Ascii.
From stdpp Require Import base list strings numbers option gmap.
From S2P Require Import Prelude RustStr Http Utils Directory BaoClient Workers Proxy StartUp.

Local Open Scope s3_scope.
Local Open Scope string_scope.

(** ** The [auth] section *)
Record RawOpenBao := {
  raw_address : option string; raw_approle_mount : option string; raw_role_id_file : option string; raw_secret_id_file : option string;
  raw_admin_role_id_file : option string; raw_admin_secret_id_file : option string; raw_kv_mount : option string; raw_prefix : option string }.
Record RawAuth := { raw_backend : option AuthBackend; raw_yaml : option string; raw_openbao : option RawOpenBao; raw_cache : CacheToggle }.

(** The proxy's reading: [backend] has a default, [approle_mount] too, the
    other fields of [openbao] are required. *)
Definition default_approle_mount : string := "approle".
Definition proxy_openbao (o : RawOpenBao) : option OpenBaoAuthConfig :=
  address ← raw_address o; role ← raw_role_id_file o; secret ← raw_secret_id_file o; kv ← raw_kv_mount o; prefix ← raw_prefix o;
  Some {| bao_address := address; approle_mount := default default_approle_mount (raw_approle_mount o); role_id_file := role; secret_id_file := secret;
          bao_kv_mount := kv; bao_prefix := prefix |}.
Definition proxy_auth (r : RawAuth) : option AuthConfig :=
  openbao ← match raw_openbao r with None => Some None | Some o => Some <$> proxy_openbao o end;
  Some {| backend := default YamlBackend (raw_backend r); auth_yaml := raw_yaml r; auth_openbao := openbao; auth_cache := raw_cache r |}.

(** ** The tool *)
Record OpenBaoConnArgs := {
  cli_address : option string; cli_kv_mount : option string; cli_prefix : option string; cli_token : option string; cli_approle_mount : option string;
  cli_role_id : option string; cli_secret_id : option string; cli_role_id_file : option string; cli_secret_id_file : option string }.
Record Cli := { cli_backend : option AuthBackend; cli_yaml_path : option string; cli_openbao : OpenBaoConnArgs }.

(** [Option::or] *)
Definition or_else {A} (o o' : option A) : option A := match o with Some _ => o | None => o' end.
Definition openbao_defaults (o : RawOpenBao) (c : OpenBaoConnArgs) : OpenBaoConnArgs :=
  let role_id_file := or_else (raw_admin_role_id_file o) (raw_role_id_file o) in
  let secret_id_file := or_else (raw_admin_secret_id_file o) (raw_secret_id_file o) in
  {| cli_address := or_else (cli_address c) (raw_address o); cli_kv_mount := or_else (cli_kv_mount c) (raw_kv_mount o);
     cli_prefix := or_else (cli_prefix c) (raw_prefix o); cli_token := cli_token c;
     cli_approle_mount := or_else (cli_approle_mount c) (raw_approle_mount o); cli_role_id := cli_role_id c; cli_secret_id := cli_secret_id c;
     cli_role_id_file := match cli_role_id c, cli_role_id_file c with None, None => role_id_file | _, f => f end;
     cli_secret_id_file := match cli_secret_id c, cli_secret_id_file c with None, None => secret_id_file | _, f => f end |}.
Definition apply_config_defaults (config : option RawAuth) (cli : Cli) : Cli :=
  match config with
  | None => cli
  | Some cfg =>
      {| cli_backend := or_else (cli_backend cli) (raw_backend cfg); cli_yaml_path := or_else (cli_yaml_path cli) (raw_yaml cfg);
         cli_openbao := match raw_openbao cfg with Some o => openbao_defaults o (cli_openbao cli) | None => cli_openbao cli end |}
  end.
(** [cli.backend.unwrap_or(Backend::Openbao)] *)
Definition ctl_backend (cli : Cli) : AuthBackend := default OpenBaoBackend (cli_backend cli).

Inductive connect_error := MissingAddress | MissingRole | MissingSecret | NotReadableFile (path : string).
(** [OpenBaoAdmin] and [OpenBaoDirectory]: a client, the mount and the layout's prefix *)
Record store_handle := { sh_kv_mount : string; sh_prefix : string; sh_client : OpenBaoClient }.
Definition layout_new (prefix : string) : string := trim_matches "/" (trim prefix).
Definition handle_of (c : OpenBaoClient) (kv_mount prefix : string) : store_handle :=
  {| sh_kv_mount := trim_slashes kv_mount; sh_prefix := layout_new prefix; sh_client := c |}.

Section Connect.
Context (read_file : string -> option string).
Definition read_trimmed (path : string) : res connect_error string := s ← ok_or (read_file path) (NotReadableFile path); Ok (trim s).
Definition given (value file : option string) (missing : connect_error) : res connect_error string :=
  match value, file with Some v, _ => Ok (trim v) | None, Some p => read_trimmed p | None, None => Err missing end.
Definition openbao_admin (c : OpenBaoConnArgs) : res connect_error store_handle :=
  address ← ok_or (cli_address c) MissingAddress;
  let address := trim address in
  let kv_mount := default "secret" (cli_kv_mount c) in
  let prefix := default "s32p" (cli_prefix c) in
  let mount := default "approle" (cli_approle_mount c) in
  match cli_token c with
  | Some t => Ok (handle_of (new_token address t) kv_mount prefix)
  | None =>
      role_id ← given (cli_role_id c) (cli_role_id_file c) MissingRole;
      secret_id ← given (cli_secret_id c) (cli_secret_id_file c) MissingSecret;
      Ok (handle_of (new_approle address mount role_id secret_id) kv_mount prefix)
  end.
End Connect.
(** [OpenBaoDirectory::new], as the proxy calls it *)
Definition OpenBaoDirectory_new (o : OpenBaoAuthConfig) (role_id secret_id : string) : store_handle :=
  handle_of (new_approle (bao_address o) (approle_mount o) role_id secret_id) (bao_kv_mount o) (bao_prefix o).

(** ** Properties *)
Definition no_flags : OpenBaoConnArgs :=
  {| cli_address := None; cli_kv_mount := None; cli_prefix := None; cli_token := None; cli_approle_mount := None; cli_role_id := None; cli_secret_id := None;
     cli_role_id_file := None; cli_secret_id_file := None |}.
Definition only_config : Cli := {| cli_backend := None; cli_yaml_path := None; cli_openbao := no_flags |}.

(** C34. With nothing but [--config] the tool works on the proxy's store: when
    the proxy's reading of the section selects OpenBao and names it (an
    address without blanks around it), and the credential files can be read,
    the tool connects to the same address, auth mount, key-value mount and
    prefix, with the administrator's role where the file has one and the
    proxy's otherwise. *)
Theorem ctl_and_proxy_same_store (read_file : string -> option string) (r : RawAuth) (raw : RawOpenBao) (a : AuthConfig) (o : OpenBaoAuthConfig)
    (role_text secret_text role_id secret_id : string) :
  raw_backend r = Some OpenBaoBackend -> proxy_auth r = Some a -> raw_openbao r = Some raw -> auth_openbao a = Some o -> trim (bao_address o) = bao_address o ->
  read_file (default (role_id_file o) (raw_admin_role_id_file raw)) = Some role_text ->
  read_file (default (secret_id_file o) (raw_admin_secret_id_file raw)) = Some secret_text ->
  let cli := apply_config_defaults (Some r) only_config in
  ctl_backend cli = backend a /\
  exists h, openbao_admin read_file (cli_openbao cli) = Ok h /\
    let p := OpenBaoDirectory_new o role_id secret_id in
    sh_kv_mount h = sh_kv_mount p /\ sh_prefix h = sh_prefix p /\ address (sh_client h) = address (sh_client p) /\
    BaoClient.auth (sh_client h) = AppRole (trim_slashes (approle_mount o)) (trim role_text) (trim secret_text) /\
    (raw_admin_role_id_file raw = None -> role_id = trim role_text -> raw_admin_secret_id_file raw = None -> secret_id = trim secret_text -> h = p).
Proof.
  intros Hb Ha Hraw Ho Htrim Hrole Hsecret. unfold proxy_auth in Ha. rewrite Hraw in Ha. destruct (proxy_openbao raw) as [o'|] eqn:Eo; [|done].
  cbn in Ha. injection Ha as <-. cbn in Ho. injection Ho as ->. unfold proxy_openbao in Eo.
  destruct (raw_address raw) as [ad|] eqn:E1; [|done]. destruct (raw_role_id_file raw) as [rf|] eqn:E2; [|done].
  destruct (raw_secret_id_file raw) as [sf|] eqn:E3; [|done]. destruct (raw_kv_mount raw) as [kv|] eqn:E4; [|done].
  destruct (raw_prefix raw) as [pf|] eqn:E5; [|done]. cbn in Eo. injection Eo as <-. cbn -[trim] in *. rewrite Hb, Hraw. split; [done|].
  unfold openbao_admin, openbao_defaults, given, read_trimmed. cbn -[trim]. rewrite E1, E2, E3, E4, E5. cbn -[trim]. rewrite Htrim.
  assert (or_else (raw_admin_role_id_file raw) (Some rf) = Some (default rf (raw_admin_role_id_file raw))) as -> by (by destruct (raw_admin_role_id_file raw)).
  assert (or_else (raw_admin_secret_id_file raw) (Some sf) = Some (default sf (raw_admin_secret_id_file raw))) as -> by (by destruct (raw_admin_secret_id_file raw)).
  rewrite Hrole. cbn -[trim]. rewrite Hsecret. cbn -[trim]. eexists. split; [reflexivity|]. split_and!; try done. by intros _ -> _ ->.
Qed.

(** A configuration without [auth.backend] is read differently by the two
    programs: the proxy serves from the YAML file, and a command of the tool
    with the same file goes to OpenBao. *)
Theorem omitted_backend_diverges (r : RawAuth) (a : AuthConfig) :
  raw_backend r = None -> proxy_auth r = Some a ->
  backend a = YamlBackend /\ ctl_backend (apply_config_defaults (Some r) only_config) = OpenBaoBackend.
Proof.
  intros Hb Ha. unfold proxy_auth in Ha. destruct (match raw_openbao r with None => Some None | Some o => Some <$> proxy_openbao o end) as [o|]; [|done].
  cbn in Ha. injection Ha as <-. cbn. by rewrite Hb.
Qed.

(** The administrator's role id can be paired with the proxy's secret id. *)
Lemma roles_mixed (raw : RawOpenBao) (f g : string) :
  raw_admin_role_id_file raw = Some f -> raw_admin_secret_id_file raw = None -> raw_secret_id_file raw = Some g ->
  cli_role_id_file (openbao_defaults raw no_flags) = Some f /\ cli_secret_id_file (openbao_defaults raw no_flags) = Some g.
Proof. intros H1 H2 H3. cbn. by rewrite H1, H2, H3. Qed.

(** ** Witnesses *)
Definition demo_raw : RawOpenBao := {| raw_address := Some "https://bao/"; raw_approle_mount := None; raw_role_id_file := Some "/r"; raw_secret_id_file := Some "/s";
  raw_admin_role_id_file := Some "/ar"; raw_admin_secret_id_file := Some "/as"; raw_kv_mount := Some "/kv/"; raw_prefix := Some "s32p" |}.
Definition demo_auth (b : option AuthBackend) : RawAuth := {| raw_backend := b; raw_yaml := Some "/d.yaml"; raw_openbao := Some demo_raw; raw_cache := default_cache |}.
Definition demo_openbao : OpenBaoAuthConfig := {| bao_address := "https://bao/"; approle_mount := "approle"; role_id_file := "/r"; secret_id_file := "/s";
  bao_kv_mount := "/kv/"; bao_prefix := "s32p" |}.
Definition demo_auth_config (b : AuthBackend) : AuthConfig :=
  {| backend := b; auth_yaml := Some "/d.yaml"; auth_openbao := Some demo_openbao; auth_cache := default_cache |}.
Lemma ctl_and_proxy_same_store_witness : exists h,
  openbao_admin (fun p => Some (p +:+ "!")) (cli_openbao (apply_config_defaults (Some (demo_auth (Some OpenBaoBackend))) only_config)) = Ok h /\
  sh_kv_mount h = "kv" /\ BaoClient.auth (sh_client h) = AppRole "approle" "/ar!" "/as!".
Proof.
  destruct (ctl_and_proxy_same_store (fun p => Some (p +:+ "!")) (demo_auth (Some OpenBaoBackend)) demo_raw (demo_auth_config OpenBaoBackend) demo_openbao
    "/ar!" "/as!" "x" "y") as (_ & h & E & Hk & _ & _ & Ha & _); [reflexivity..|].
  exists h. split_and!; [exact E|rewrite Hk; reflexivity|rewrite Ha; reflexivity].
Defined.
Lemma omitted_backend_diverges_witness :
  YamlBackend = YamlBackend /\ ctl_backend (apply_config_defaults (Some (demo_auth None)) only_config) = OpenBaoBackend.
Proof. apply (omitted_backend_diverges (demo_auth None) (demo_auth_config YamlBackend)); reflexivity. Defined.
