(* ===== verification/ProxyProofs.v ===== *)
(** * What the proxy forwards

    Theorems on [request_filter] and [upstream_request_filter] of
    s32p-proxy/src/main.rs, against the interfaces of the directory and of
    the worker manager. *)

From Stdlib Require Import ZArith Lia Ascii.
From stdpp Require Import base list strings numbers option gmap.
From S2P Require Import Classifier.
From S2P Require Import Prelude RustStr Http Utils S3Resp Handler ConnLimit SigV4 Directory Workers Sessions Proxy.

Local Open Scope s3_scope.
Local Open Scope Z_scope.

Section Forwarding.
Context {PE : ProxyEnv} {D : Type} `{!Directory D} {W : Type} `{!WorkerOps W} `{!WorkerLaws W} (d : D).
Abbreviation P := (handler (proxy_state W) proxy_reply).
Implicit Types (st : proxy_state W) (rq : proxy_request).

(** ** Steps that do not touch the workers *)
Definition spares {A} (m : P A) : Prop := forall st, px_workers (snd (m st)) = px_workers st.

Lemma spares_bind {A B} (m : P A) (f : A -> P B) : spares m -> (forall a, spares (f a)) -> spares (m ≫= f).
Proof.
  intros Hm Hf st. unfold mbind, handler_bind. specialize (Hm st). destruct (m st) as [[a|r| |] s1]; cbn in *; try done.
  by rewrite Hf.
Qed.
Lemma spares_ret {A} (a : A) : spares (mret a).
Proof. by intros st. Qed.
Lemma spares_reply {A} r : spares (reply_with r : P A).
Proof. by intros st. Qed.
Lemma spares_reply_if b r : spares (reply_if b r).
Proof. by intros st; destruct b. Qed.
Lemma spares_unwrap {A X} (r : res X A) f : spares (unwrap_or_reply r f).
Proof. by intros st; destruct r. Qed.
Lemma spares_modify f : (forall st, px_workers (f st) = px_workers st) -> spares (modify f).
Proof. intros H st. apply H. Qed.
Lemma spares_next {A} (g : proxy_state W -> A * proxy_state W) :
  (forall st, px_workers (snd (g st)) = px_workers st) -> spares (fun s => (Next (fst (g s)), snd (g s)) : flow proxy_reply A * proxy_state W).
Proof. intros H st. apply H. Qed.

Lemma resolve_spares rq hs class k : spares (resolve_user d rq hs class k).
Proof.
  unfold resolve_user. apply spares_bind; [by intros st|]. intros [e|]; apply spares_bind; try (intros; apply spares_ret).
  - unfold check_session, find_user. repeat first [apply spares_reply_if | apply spares_unwrap | apply spares_ret | apply spares_reply
      | apply spares_modify; done | apply spares_bind; [|intros] | case_match].
  - unfold check_long_term, find_user. apply spares_bind; [apply spares_unwrap|]. intros [u|]; [apply spares_ret|apply spares_reply].
Qed.
Lemma admit_spares rq : spares (admission rq).
Proof. unfold admission. apply spares_bind; [by intros st|]. intros [ip| |ip]; [by apply spares_modify|apply spares_ret|apply spares_reply]. Qed.
Lemma create_spares rq hs class user : spares (create_session rq hs class user).
Proof.
  unfold create_session. apply spares_bind; [repeat case_match; first [apply spares_ret|apply spares_reply]|]. intros b.
  apply spares_bind; [by intros st|]. intros [e|]; [case_match|]; apply spares_reply.
Qed.

(** ** Who a request acts for *)
Definition seen_headers rq st : header_map := prepare_headers rq (px_headers st).
Definition seen_class rq st : S3RequestClass := classify_request rq (seen_headers rq st).

(** A live session, with its token, for this bucket, in a mode that allows
    the operation, whose owner is in the directory, and a signature made with
    its secret *)
Definition session_allows rq (hs : header_map) (class : S3RequestClass) (m : sessions) (k : string) (user : UserDoc) : Prop :=
  exists e, m !! k = Some e /\ p_now_inst < expires_at_inst e /\ provided_token rq hs = session_token e /\
    bucket class = Some (session_bucket e) /\ (mode e = ModeReadOnly -> needs_write (op class) = false) /\
    user_by_access_key d (real_access_key e) = Ok (Some user) /\ verify_with rq hs (secret_key e) = Ok tt.

Definition acts_for rq (hs : header_map) (class : S3RequestClass) (m : sessions) (k : string) (user : UserDoc) (validated : bool) : Prop :=
  if validated then session_allows rq hs class m k user
  else fst (read_entry p_now_inst k m) = None /\ user_by_access_key d k = Ok (Some user).

Lemma check_session_post rq hs class k e st :
  post (check_session d rq hs class k e) (fun _ _ => True)
    (fun u s' => s' = st /\ provided_token rq hs = session_token e /\ bucket class = Some (session_bucket e) /\
       (mode e = ModeReadOnly -> needs_write (op class) = false) /\
       user_by_access_key d (real_access_key e) = Ok (Some u) /\ verify_with rq hs (secret_key e) = Ok tt) st.
Proof.
  unfold check_session, find_user. autorewrite with wp.
  destruct (provided_token rq hs =s session_token e) eqn:Et; cbn [negb]; [|done]. apply String.eqb_eq in Et. autorewrite with wp.
  case_bool_decide as Hb; cbn [negb]; [|done]. autorewrite with wp.
  destruct (read_only_mode (mode e) && needs_write (op class)) eqn:Em; [done|]. autorewrite with wp.
  destruct (user_by_access_key d (real_access_key e)) as [[u|]|x|] eqn:Eu; try done; autorewrite with wp; try done.
  destruct (verify_with rq hs (secret_key e)) as [[]|x|] eqn:Ev; try done. autorewrite with wp. split_and!; try done.
  intros Hm. rewrite Hm in Em. done.
Qed.

Lemma resolve_post rq hs class k st :
  post (resolve_user d rq hs class k) (fun _ _ => True)
    (fun uv s' => s' = set_sessions (snd (Sessions.lookup p_now_inst k (px_sessions st))) st /\
       acts_for rq hs class (px_sessions st) k (fst uv) (snd uv)) st.
Proof.
  unfold resolve_user. rewrite post_bind. unfold lookup_session, post at 1. cbn zeta. set (st1 := set_sessions _ st).
  unfold Sessions.lookup in *. cbn [fst snd] in *. destruct (read_entry p_now_inst k (px_sessions st)) as [[e|] b] eqn:Er; cbn [fst].
  - rewrite post_bind. eapply post_mono; [apply check_session_post|done|]. intros u s' (-> & H). rewrite post_ret. split; [done|].
    cbn. exists e. unfold read_entry in Er. destruct (px_sessions st !! k) as [e'|]; [|done].
    destruct (expired p_now_inst e') eqn:Ex; [done|]. injection Er as -> _. apply Z.leb_gt in Ex. done.
  - rewrite post_bind. unfold check_long_term, find_user. rewrite post_bind, post_unwrap.
    destruct (user_by_access_key d k) as [[u|]|x|] eqn:Eu; try done. rewrite !post_ret. split; [done|]. cbn. by rewrite Er.
Qed.

Lemma bind_inv {A B} (m : P A) (f : A -> P B) st r :
  (m ≫= f) st = r ->
  (exists a s1, m st = (Next a, s1) /\ f a s1 = r) \/ ((forall b, fst r <> Next b) /\ snd r = snd (m st)).
Proof.
  unfold mbind, handler_bind. destruct (m st) as [[a|x| |] s1]; intros <-; [left; eauto|right; done..].
Qed.

Lemma bind_modify {B} g (f : unit -> P B) st : (modify g ≫= f) st = f tt (g st).
Proof. done. Qed.
Lemma bind_get {A B} (g : proxy_state W -> A) (f : A -> P B) st : (get g ≫= f) st = f (g st) st.
Proof. done. Qed.

(** The part of the context that decides how a request is forwarded *)
Definition routed rq st (action : RouteAction) (k : string) (user : UserDoc) (validated : bool) (s1 : proxy_state W) : Prop :=
  (p_routing !! class_key (seen_class rq st) = Some action \/
   p_routing !! class_key (seen_class rq st) = None /\ p_routing !! "other"%string = Some action) /\
  extract_access_key_from_request p_debug_str p_form_parse (pr_uri rq) (seen_headers rq st) = Ok k /\
  acts_for rq (seen_headers rq st) (seen_class rq st) (px_sessions st) k user validated /\
  detect_unsupported_sse (seen_headers rq st) = None /\
  px_workers s1 = px_workers st /\ px_headers s1 = seen_headers rq st /\
  session_validated (px_ctx s1) = validated /\ orig_host (px_ctx s1) = header_text (seen_headers rq st) "host".

Lemma admit_frame rq st a s1 :
  admission rq st = (Next a, s1) -> px_sessions s1 = px_sessions st /\ px_workers s1 = px_workers st /\ px_headers s1 = px_headers st.
Proof.
  unfold admission, mbind, handler_bind. cbn zeta. destruct (acquire _ _ _) as [[ip| |ip] c]; cbn; intros [=]; by subst s1.
Qed.

Lemma reaches_perform rq st r :
  request_filter d rq st = r ->
  (exists action k user validated s1,
     routed rq st action k user validated s1 /\
     perform d rq (seen_headers rq st) (seen_class rq st) action user validated s1 = r) \/
  ((forall a, fst r <> Next a) /\ px_workers (snd r) = px_workers st).
Proof.
  unfold request_filter. intros H. apply bind_inv in H as [([] & s1 & Ha & H)|[Hn ->]]; [|right; split; [done|apply admit_spares]].
  apply admit_frame in Ha as (Hs & Hw & Hh).
  rewrite !bind_modify, bind_get in H. cbn [px_headers set_headers set_background] in H. rewrite Hh in H.
  change (prepare_headers rq (px_headers st)) with (seen_headers rq st) in H. cbn zeta in H.
  change (classify_request rq (seen_headers rq st)) with (seen_class rq st) in H.
  assert (forall a s' : proxy_state W, px_workers a = px_workers s' -> px_workers s' = px_workers st -> px_workers a = px_workers st) as Htr by congruence.
  apply bind_inv in H as [(action & s2 & Hsel & H)|[Hn ->]].
  2: { right. split; [done|]. unfold select_action. by repeat case_match. }
  assert ((p_routing !! class_key (seen_class rq st) = Some action \/
           p_routing !! class_key (seen_class rq st) = None /\ p_routing !! "other"%string = Some action) /\
          s2 = set_headers (prepare_headers rq) (set_background start_background s1)) as [Hact ->].
  { unfold select_action in Hsel. destruct (p_routing !! class_key _) as [a|]; [injection Hsel as -> <-; auto|].
    destruct (p_routing !! "other"%string) as [a|]; [injection Hsel as -> <-; auto|done]. }
  clear Hsel. rewrite bind_modify in H.
  apply bind_inv in H as [(k & s3 & Hk & H)|[Hn ->]]; [|right; split; [done|eapply Htr; [apply spares_unwrap|done]]].
  destruct (extract_access_key_from_request _ _ _ _) as [k'|x|] eqn:Ek; [|done..]. injection Hk as -> <-.
  match type of H with context [resolve_user d rq ?hs ?c k ≫= _] => set (rest := resolve_user d rq hs c k) in H end.
  apply bind_inv in H as [([user v] & s4 & Hr & H)|[Hn ->]].
  2: { right. split; [done|]. eapply Htr; [apply resolve_spares|done]. }
  match type of Hr with rest ?s = _ => pose proof (resolve_post rq (seen_headers rq st) (seen_class rq st) k s) as Hp; unfold post in Hp;
    fold rest in Hp; rewrite Hr in Hp end.
  destruct Hp as [-> Hacts]. cbn [fst snd] in Hacts. clear Hr rest.
  rewrite bind_modify in H.
  destruct (detect_unsupported_sse (seen_headers rq st)) as [kind|] eqn:Esse.
  { right. subst r. split; done. }
  unfold mbind at 1, handler_bind at 1 in H. cbn [mret handler_ret] in H. left. exists action, k, user, v. eexists. split; [|exact H].
  unfold routed. split_and!; try done; [by rewrite <- Hs|by cbn; rewrite Hh].
Qed.

(** A worker of the user is in the context, the rest of it is as before. *)
Definition worker_set (s s' : proxy_state W) (user : UserDoc) (profile : string) (h : WorkerHandle) : Prop :=
  worker (px_ctx s') = Some h /\ upstream (px_ctx s') = Some (h_endpoint h) /\
  h_key h = {| wk_access_key := user_access_key user; wk_profile := profile |} /\
  px_headers s' = px_headers s /\ session_validated (px_ctx s') = session_validated (px_ctx s) /\ orig_host (px_ctx s') = orig_host (px_ctx s).

Definition trusted rq (hs : header_map) (user : UserDoc) (validated : bool) : Prop :=
  validated = true \/ verify_with rq hs (user_secret_key user) = Ok tt.

Lemma route_result rq hs user v profile s1 f s' :
  route_to_worker d rq hs user v profile s1 = (f, s') ->
  let g := get_running (px_workers s1) (user_access_key user) profile in
  (fst g = None -> px_workers s' = snd g \/ trusted rq hs user v) /\
  (is_Some (fst g) -> px_workers s' = snd g) /\
  (forall a, f = Next a -> exists h, worker_set s1 s' user profile h).
Proof.
  unfold route_to_worker. rewrite bind_modify. intros H. cbn zeta.
  unfold mbind, handler_bind, run_get_running in H. cbn [px_workers set_ctx] in H.
  destruct (get_running (px_workers s1) (user_access_key user) profile) as [[h|] w1] eqn:Eg; cbn [fst snd] in *.
  - unfold use_worker, modify in H. injection H as <- <-. split_and!; [done|done|]. intros _ _. exists h. unfold worker_set. cbn.
    split_and!; try done. by eapply get_running_key.
  - split_and!; [intros _|by intros [? ?]|].
    + destruct v; [by right; left|]. unfold validate_sigv4_header_only_or_reject in H.
      destruct (verify_with rq hs (user_secret_key user)) as [[]|x|] eqn:Ev; [by right; right|left; by injection H as <- <-..].
    + intros a ->. assert (exists s2, px_workers s2 = w1 /\ px_ctx s2 = px_ctx (set_workers w1 (set_ctx (fun c => {|
        ctx_uid := ctx_uid c; ctx_username := ctx_username c; orig_host := orig_host c; ctx_profile := Some profile;
        upstream := upstream c; worker := worker c; session_validated := session_validated c; ctx_slot := ctx_slot c |}) s1)) /\
        px_headers s2 = px_headers s1 /\
        (match unwrap_or_reply (buckets_for_access_key d (user_access_key user)) (fun _ => Fault "directory buckets error") s2 with
         | (Next buckets, s3) => (h ← run_ensure_running rq user buckets profile; use_worker h) s3
         | (Return r, s3) => (Return r, s3) | (Crash, s3) => (Crash, s3) | (Hangs, s3) => (Hangs, s3) end) = (Next a, s')) as (s2 & Hw & Hc & Hh & H2).
      { destruct v; [cbn in H; eexists; split_and!; [..|exact H]; done|]. unfold validate_sigv4_header_only_or_reject in H.
        destruct (verify_with rq hs (user_secret_key user)) as [[]|x|]; cbn in H; [|done..]. eexists; split_and!; [..|exact H]; done. }
      clear H. destruct (buckets_for_access_key d (user_access_key user)) as [bs|x|]; cbn in H2; [|done..].
      unfold mbind, handler_bind, run_ensure_running in H2. rewrite Hw in H2.
      destruct (ensure_running w1 user bs profile) as [[[h|x|]|] w2] eqn:Ee; cbn in H2; try done.
      injection H2 as <- <-. exists h. unfold worker_set. cbn. rewrite Hc, Hh. cbn. split_and!; try done. by eapply ensure_running_key.
Qed.

Lemma perform_forwards rq hs class action user v s1 a s' :
  perform d rq hs class action user v s1 = (Next a, s') ->
  exists profile h, action = ProxyTo profile /\ worker_set s1 s' user profile h.
Proof.
  destruct action as [profile|m| |]; cbn [perform]; intros H.
  - apply route_result in H as (_ & _ & H). destruct (H a eq_refl) as [h Hh]. by exists profile, h.
  - exfalso. apply bind_inv in H as [(? & ? & _ & H)|[H _]]; [done|by eapply H].
  - exfalso. apply bind_inv in H as [(? & ? & _ & H)|[H _]]; [|by eapply H].
    apply bind_inv in H as [(? & ? & _ & H)|[H _]]; [|by eapply H]. unfold create_session in H.
    apply bind_inv in H as [(b & ? & _ & H)|[H _]]; [|by eapply H]. cbn zeta in H.
    apply bind_inv in H as [([e|] & ? & _ & H)|[H _]]; [by destruct (p_session_xml e)|done|by eapply H].
  - exfalso. apply bind_inv in H as [(? & ? & _ & H)|[H _]]; [done|by eapply H].
Qed.

(** C3. What the proxy lets through.  A request that is forwarded names an
    access key; with session credentials the session is live, its token is in
    the request, the request's bucket is the session's bucket, a read-only
    session reads, the owner is still in the directory and the signature is
    made with the session's secret; otherwise the key belongs to a user of
    the directory.  Either way the request goes to a worker of that user, and
    asks for no encryption. *)
Theorem forwarded_requests_authorised (rq : proxy_request) (st st' : proxy_state W) :
  request_filter d rq st = (Next tt, st') ->
  exists k user profile h,
    extract_access_key_from_request p_debug_str p_form_parse (pr_uri rq) (seen_headers rq st) = Ok k /\
    acts_for rq (seen_headers rq st) (seen_class rq st) (px_sessions st) k user (session_validated (px_ctx st')) /\
    worker (px_ctx st') = Some h /\ h_key h = {| wk_access_key := user_access_key user; wk_profile := profile |} /\
    detect_unsupported_sse (seen_headers rq st) = None.
Proof.
  intros [(action & k & user & v & s1 & (Hact & Hk & Hu & Hsse & Hw & Hh & Hv & Ho) & Hp)|[Hn _]]%reaches_perform; [|by destruct (Hn tt)].
  apply perform_forwards in Hp as (profile & h & -> & (Hwk & _ & Hkey & _ & Hsv & _)).
  exists k, user, profile, h. rewrite Hsv, Hv. done.
Qed.

(** No worker is started for a stranger.  Whatever a request is and
    however it ends, it does not change the workers beyond the look for a
    running one (which removes a dead one), unless the request carries a live
    session or a signature made with the secret of the user whose worker it
    is. *)
Theorem no_worker_for_strangers (rq : proxy_request) (st st' : proxy_state W) (f : flow proxy_reply unit) :
  request_filter d rq st = (f, st') ->
  px_workers st' = px_workers st \/
  exists k user profile v, acts_for rq (seen_headers rq st) (seen_class rq st) (px_sessions st) k user v /\
    (px_workers st' = snd (get_running (px_workers st) (user_access_key user) profile) \/ trusted rq (seen_headers rq st) user v).
Proof.
  intros [(action & k & user & v & s1 & (Hact & Hk & Hu & Hsse & Hw & Hh & Hv & Ho) & Hp)|[_ Hn]]%reaches_perform; [|by left].
  assert (spares (if v then mret tt else validate_sigv4_header_only_or_reject rq (seen_headers rq st) user)) as Hc
    by (destruct v; [apply spares_ret|apply spares_unwrap]).
  destruct action as [profile|m| |]; cbn [perform] in Hp.
  - right. exists k, user, profile, v. split; [done|]. apply route_result in Hp as (H1 & H2 & _). rewrite Hw in *.
    destruct (fst (get_running _ _ _)) eqn:Eg; [left; apply H2; eauto|by apply H1].
  - left. rewrite <- Hw. change st' with (snd (f, st')). rewrite <- Hp. apply spares_bind; [done|intros; apply spares_reply].
  - left. rewrite <- Hw. change st' with (snd (f, st')). rewrite <- Hp. apply spares_bind; [apply spares_reply_if|intros].
    apply spares_bind; [apply spares_unwrap|intros; apply create_spares].
  - left. rewrite <- Hw. change st' with (snd (f, st')). rewrite <- Hp. apply spares_bind; [done|intros; apply spares_reply].
Qed.
End Forwarding.

(** ** A worker manager for one request at a time

    The table of running workers, with [spawn_worker] to start one; it has
    the laws the proxy relies on.  [up] tells which processes run. *)
Record worker_table := { table : gmap WorkerKey WorkerHandle; table_keys : map_Forall (fun k h => h_key h = k) table }.

Section Table.
Context {E : SpawnEnv} (cfg : SpawnConfig) (up : WorkerHandle -> bool).

Definition update_table (m : gmap WorkerKey WorkerHandle) (t : worker_table) : worker_table :=
  match decide (map_Forall (fun k h => h_key h = k) m) with left H => {| table := m; table_keys := H |} | right _ => t end.

#[global] Instance table_workers : WorkerOps worker_table := {|
  get_running := fun t ak p =>
    let k := {| wk_access_key := ak; wk_profile := p |} in
    match table t !! k with
    | Some h => if up h then (Some h, t) else (None, update_table (delete k (table t)) t)
    | None => (None, t)
    end;
  ensure_running := fun t u bs p =>
    let k := {| wk_access_key := user_access_key u; wk_profile := p |} in
    match table t !! k with
    | Some h => if up h then (Some (Ok h), t) else (None, t)
    | None =>
        match spawn_worker cfg u bs p with
        | Ok s => (Some (Ok (s_handle s)), update_table (<[k := s_handle s]> (table t)) t)
        | Err e => (Some (Err e), t)
        | Panics => (Some Panics, t)
        end
    end |}.

#[global] Instance table_laws : WorkerLaws worker_table.
Proof.
  split.
  - intros t ak p h t' H. cbn in H. destruct (table t !! _) as [h0|] eqn:Et; [|done]. destruct (up h0); [|done].
    injection H as <- <-. exact (table_keys t _ _ Et).
  - intros t u bs p h t' H. cbn in H. destruct (table t !! _) as [h0|] eqn:Et.
    + destruct (up h0); [|done]. injection H as <- <-. exact (table_keys t _ _ Et).
    + destruct (spawn_worker cfg u bs p) as [s|e|] eqn:Es; [|done..]. injection H as <- <-.
      apply spawn_inv in Es as (? & ? & ? & ? & _ & _ & _ & _ & ->). done.
Qed.
End Table.
