(* ===== verification/Gateway.v ===== *)
(** * The gateway's front door (main.rs)

    [PeerAddr], [require_sigv4] and [handle]: authentication, the access
    level of the bucket, and the dispatch to the handlers. *)

From Stdlib Require Import ZArith Lia Ascii.
From stdpp Require Import base list strings numbers option gmap sorting.
From S2P Require Import Classifier.
From S2P Require Import Prelude RustStr Http Utils Preconditions UriEncoding S3Resp S3Xml Bytes FsHelpers FileSystem Handler Idempotency Streaming PayloadSource Upload Copy GatewayHelpers Objects PutObject GetObject DeleteObject CopyObject RenameObject ObjectMeta Directory BucketAcl SigV4.

Local Open Scope s3_scope.
Local Open Scope Z_scope.

(** [PeerAddr] and [is_local]; [ip().is_loopback()] is 127.0.0.0/8 or ::1. *)
Inductive PeerAddr := Tcp (ip : ip_addr) | Unix.
Definition is_local (p : PeerAddr) : bool := match p with Tcp ip => is_loopback ip | Unix => true end.

Record gateway_request := {
  g_method : string;
  g_uri : uri;
  g_headers : header_map;
  g_body : list item;
  g_peer : option PeerAddr;
}.

(** The configuration, and the crates SigV4 verification calls *)
Class GatewayEnv := {
  g_objects :: ObjEnv;
  g_access_key : string;
  g_secret_key : string;
  g_worker_token : string;
  g_bucket_acl : gmap string AccessLevel;
  g_virtual_hosted_suffixes : list string;
  g_debug_str : string -> string;
  g_time : Type;
  g_pdt_parse : string -> res string g_time;
  g_unix_timestamp : g_time -> Z;
  g_format_ymd : g_time -> res string string;
  g_build_params : signing_params -> option string;
  g_sign : signing_params -> string -> string -> list (string * string) -> SignableBody -> sign_result;
}.

(** Handlers modelled on a state of their own, in Listing.v and Multipart.v *)
Inductive delegated := ToListBuckets | ToListObjectsV2 | ToListObjectsV1 | ToMultipart (op : MultipartOp).

Section Gateway.
Context {E : GatewayEnv}.

Definition verify_request (rq : gateway_request) : res SigV4Rejection unit :=
  verify_sigv4_request_any g_debug_str form_parse g_time g_pdt_parse g_unix_timestamp g_format_ymd g_build_params g_sign now
    (g_method rq) (g_uri rq) (g_headers rq) (Some g_access_key) g_secret_key (Some (uri_path (g_uri rq))).

(** [require_sigv4] *)
Definition validation_rejected (rq : gateway_request) (why : string) : SigV4Rejection :=
  {| response := access_denied "validation header rejected" (Some (uri_path (g_uri rq))); reason := why |}.
Definition require_sigv4 (rq : gateway_request) : res SigV4Rejection unit :=
  match hm_get (g_headers rq) "x-s32p-validated", is_empty g_worker_token with
  | Some hv, false =>
      if negb (match g_peer rq with Some p => is_local p | None => false end)
      then Err (validation_rejected rq "X-S32P-Validated from non-local peer")
      else if default ""%string hv =s g_worker_token then Ok tt
      else Err (validation_rejected rq "X-S32P-Validated token mismatch")
  | _, _ => verify_request rq
  end.

Definition classify (rq : gateway_request) : S3RequestClass :=
  classify_with_headers o_percent_decode_utf8 form_parse (g_method rq) (g_uri rq) (Some (g_headers rq)) g_virtual_hosted_suffixes.
Definition to_object_request (rq : gateway_request) : object_request :=
  {| oq_headers := g_headers rq; oq_path := uri_path (g_uri rq); oq_query := from_uri form_parse (g_uri rq);
     oq_body := g_body rq; oq_class := classify rq |}.

(** [handle_versioning] and [handle_other] *)
Definition handle_versioning : Act obj_reply := refuse (not_implemented "versioning is not implemented" None).
Definition handle_other (rq : gateway_request) : Act obj_reply :=
  let path_and_query := default (uri_path (g_uri rq)) (uri_path_and_query (g_uri rq)) in
  refuse (not_implemented ("unsupported request shape: " +:+ g_method rq +:+ " " +:+ path_and_query) (Some (uri_path (g_uri rq)))).

Definition answer_with (m : Act obj_reply) : Act (obj_reply + delegated) := r ← m; mret (inl r).

(** The match on [class.op] *)
Definition dispatch (rq : gateway_request) (op : S3Op) : Act (obj_reply + delegated) :=
  let orq := to_object_request rq in
  match op with
  | Read ListBuckets => mret (inr ToListBuckets)
  | Read GetBucketLocation =>
      answer_with (handle_get_bucket_location orq (g_method rq =s "GET") (bool_decide (is_Some (uri_query (g_uri rq)))))
  | Read HeadBucket => answer_with (handle_head_bucket orq)
  | Read GetObject | Read HeadObject => answer_with (handle_get_object orq)
  | Read ListObjectsV2 => mret (inr ToListObjectsV2)
  | Read ListObjectsV1 => mret (inr ToListObjectsV1)
  | Read GetObjectAcl => answer_with (handle_get_object_acl orq)
  | Read GetBucketAcl => answer_with (handle_get_bucket_acl orq)
  | Write PutObjectAcl => answer_with (handle_put_object_acl orq)
  | Write PutBucketAcl => answer_with (handle_put_bucket_acl orq)
  | Write PutObject => answer_with (handle_put_object orq)
  | Write RenameObject => answer_with (handle_rename_object orq)
  | Write CopyObject => answer_with (handle_copy_object orq)
  | Write DeleteObject => answer_with (handle_delete_object orq)
  | Write DeleteObjects => answer_with (handle_delete_objects orq)
  | Read GetObjectTagging => answer_with (handle_get_object_tagging orq)
  | Write PutObjectTagging => answer_with (handle_put_object_tagging orq)
  | Write DeleteObjectTagging => answer_with (handle_delete_object_tagging orq)
  | Multipart op => mret (inr (ToMultipart op))
  | Versioning _ => answer_with handle_versioning
  | _ => answer_with (handle_other rq)
  end.

Definition read_only_grant (class : S3RequestClass) : bool :=
  match Classifier.bucket class with
  | Some b => bool_decide (g_bucket_acl !! b = Some ReadOnly)
  | None => false
  end.
Definition is_put_object (op : S3Op) : bool := match op with Write PutObject => true | _ => false end.

(** [handle] *)
Definition handle (rq : gateway_request) : Act (obj_reply + delegated) :=
  let path := uri_path (g_uri rq) in
  let class := classify rq in
  _ ← or_refuse (require_sigv4 rq) response;
  _ ← refuse_if (needs_write (op class) && read_only_grant class) (access_denied "access denied" (Some path));
  _ ← refuse_if (contains_key (g_headers rq) "x-amz-write-offset-bytes" && negb (is_put_object (op class)))
        (error400 "InvalidArgument" "x-amz-write-offset-bytes is only valid on PutObject" path);
  dispatch rq (op class).
End Gateway.

(** ** What gets past the front door *)
Section Proofs.
Context {E : GatewayEnv}.

(** A request is authenticated when its signature verifies, or when the local
    proxy vouches for it with this worker's token. *)
Definition authenticated (rq : gateway_request) : Prop :=
  verify_request rq = Ok tt \/
  (g_worker_token <> ""%string /\ hm_get (g_headers rq) "x-s32p-validated" = Some (Some g_worker_token) /\
   exists p, g_peer rq = Some p /\ is_local p = true).

Lemma require_sigv4_ok rq : require_sigv4 rq = Ok tt -> authenticated rq.
Proof.
  unfold require_sigv4, authenticated. destruct (hm_get (g_headers rq) "x-s32p-validated") as [hv|]; [|auto].
  destruct (is_empty g_worker_token) eqn:Ee; [auto|]. apply is_empty_false in Ee.
  destruct (g_peer rq) as [p|]; [|done]. destruct (is_local p) eqn:El; [|done]. cbn.
  destruct (default ""%string hv =s g_worker_token) eqn:Et; [|done]. apply String.eqb_eq in Et. intros _. right.
  split_and!; [done| |by exists p]. destruct hv as [s|]; cbn in Et; [by subst s|by subst].
Qed.

(** C2. Nothing happens without authentication.  A request that is not
    authenticated, by a signature over the request with this worker's key or
    by the worker token from a local peer, never reaches a handler: it is
    answered with the verifier's rejection and the state is as before. *)
Theorem unauthenticated_requests_do_nothing (rq : gateway_request) (w : world) :
  ~ authenticated rq ->
  (exists rej, require_sigv4 rq = Err rej /\ handle rq w = (Return (Error (response rej)), w)) \/ handle rq w = (Crash, w).
Proof.
  intros Hn. unfold handle, mbind, handler_bind, or_refuse. destruct (require_sigv4 rq) as [[]|rej|] eqn:Er.
  - by apply require_sigv4_ok in Er.
  - left. by exists rej.
  - by right.
Qed.

(** The proxy's word is taken from the proxy only.  A worker that has a
    token refuses a request with the validation header when the peer is not
    local or the token is not its own, even if the request also carries a
    valid signature. *)
Theorem forged_validation_header_refused (rq : gateway_request) (w : world) (hv : header_value) :
  g_worker_token <> ""%string -> hm_get (g_headers rq) "x-s32p-validated" = Some hv ->
  (forall p, g_peer rq = Some p -> is_local p = false) \/ hv <> Some g_worker_token ->
  handle rq w = (Return (Error (access_denied "validation header rejected" (Some (uri_path (g_uri rq))))), w).
Proof.
  intros Ht Hh Hbad. unfold handle, mbind, handler_bind, or_refuse, require_sigv4. rewrite Hh.
  assert (is_empty g_worker_token = false) as -> by (by apply is_empty_false).
  destruct (match g_peer rq with Some p => is_local p | None => false end) eqn:El; cbn [negb]; [|done].
  destruct Hbad as [Hp|Hv]; [destruct (g_peer rq) as [p|]; [by rewrite Hp in El|done]|].
  destruct (default ""%string hv =s g_worker_token) eqn:Et; [|done]. apply String.eqb_eq in Et.
  destruct hv as [s|]; cbn in Et; [by subst s|by subst].
Qed.

(** *** Reads *)
Definition looks {A} (m : Act A) : Prop := forall w, files (snd (m w)) = files w.

Lemma looks_check {A} (m : Act A) : check m -> looks m.
Proof. intros H w. apply H. Qed.
Lemma looks_reply {A} r : looks (reply_with r : Act A).
Proof. by intros w. Qed.
Lemma looks_bind {A B} (m : Act A) (f : A -> Act B) : looks m -> (forall a, looks (f a)) -> looks (m ≫= f).
Proof.
  intros Hm Hf w. unfold mbind, handler_bind. specialize (Hm w). destruct (m w) as [[a|r| |] w1]; cbn in *; try done.
  rewrite Hf. done.
Qed.
Ltac solve_looks := repeat first [apply looks_reply | solve [apply looks_check; solve_check] | apply looks_bind; [|intros] | case_match].

Lemma check_read_looks rq n : looks (check_read rq n).
Proof. unfold check_read, read_preconditions. solve_looks. Qed.
Lemma get_object_looks rq : looks (handle_get_object rq).
Proof.
  unfold handle_get_object, open_object, head_response_from_lstat, resolve_object_headers, read_user_meta, object_body, one_range, requested_ranges.
  repeat first [apply check_read_looks | apply looks_reply | solve [apply looks_check; solve_check] | apply looks_bind; [|intros] | case_match].
Qed.

Lemma answer_with_looks m : looks m -> looks (answer_with m).
Proof. intros H. unfold answer_with. apply looks_bind; [done|]. intros r. by intros w. Qed.

Definition writer (d : delegated) : bool := match d with ToMultipart op => needs_write (Multipart op) | _ => false end.

Lemma dispatch_reads rq op w :
  needs_write op = false ->
  files (snd (dispatch rq op w)) = files w /\ (forall d, fst (dispatch rq op w) = Next (inr d) -> writer d = false).
Proof.
  assert (forall m, looks m -> files (snd (answer_with m w)) = files w /\ (forall d, fst (answer_with m w) = Next (inr d) -> writer d = false)) as Ha.
  { intros m Hm. split; [by apply answer_with_looks|]. intros d. unfold answer_with, mbind, handler_bind. by destruct (m w) as [[]]. }
  assert (forall m : Act obj_reply, only_looks m -> looks m) as Ho by (intros m; apply looks_check).
  intros Hn. assert (forall r, looks (refuse r : Act obj_reply)) as Hr by (intros r; apply looks_check, check_refuse).
  destruct op as [op|op|op|op|op|op|op| |]; cbn in Hn; try discriminate Hn; try (apply Ha; apply Hr).
  - split; [done|]. by intros d [= <-].
  - destruct op; try (split; [done|by intros d [= <-]]); apply Ha;
      first [apply get_object_looks | apply Ho; first [apply head_bucket_looks | apply bucket_location_looks | apply get_object_acl_looks
            | apply get_bucket_acl_looks | apply get_tagging_looks]].
Qed.

Lemma handle_keeps_files (rq : gateway_request) (w w' : world) (f : flow obj_reply (obj_reply + delegated)) :
  read_only_grant (classify rq) = true \/ needs_write (op (classify rq)) = false ->
  handle rq w = (f, w') ->
  files w' = files w /\ (forall d, f = Next (inr d) -> writer d = false).
Proof.
  intros Hro Hh. replace w' with (snd (handle rq w)) by (by rewrite Hh). replace f with (fst (handle rq w)) by (by rewrite Hh).
  clear Hh. unfold handle, mbind, handler_bind, or_refuse, refuse_if, unwrap_or_reply.
  destruct (require_sigv4 rq); [|done..]. cbn [mret handler_ret].
  destruct (needs_write (op (classify rq))) eqn:En; cbn [andb].
  - destruct Hro as [->|]; [done|done].
  - cbn [reply_if mret handler_ret]. destruct (_ && _); [done|]. cbn [reply_if mret handler_ret]. by apply dispatch_reads.
Qed.

(** C28. A read-only grant is kept.  When the bucket a request names is
    granted read-only, or when the classifier calls the operation a read, the
    request leaves every file, directory and attribute of the tree as it was,
    whatever it is and however it ends, and it reaches no multipart operation
    that writes. *)
Theorem read_only_bucket_never_changes (rq : gateway_request) (w w' : world) (f : flow obj_reply (obj_reply + delegated)) :
  read_only_grant (classify rq) = true \/ needs_write (op (classify rq)) = false ->
  handle rq w = (f, w') ->
  files w' = files w /\ (forall d, f = Next (inr d) -> writer d = false).
Proof. apply handle_keeps_files. Qed.
End Proofs.
