(* ===== verification/EndToEnd.v ===== *)
(** * The proxy and the gateway together

    A request that [request_filter] forwards arrives at the worker's [handle]
    with the headers [upstream_request_filter] made. *)

From Stdlib Require Import ZArith Lia Ascii.
From stdpp Require Import base list strings numbers option gmap.
From S2P Require Import Classifier.
From S2P Require Import Prelude RustStr Http Utils Preconditions UriEncoding S3Resp S3Xml Bytes FsHelpers FileSystem Handler Streaming PayloadSource Upload Copy GatewayHelpers Objects CopyObject ConnLimit SigV4 Directory BucketAcl Workers Sessions Proxy ProxyProofs Gateway.

Local Open Scope s3_scope.
Local Open Scope Z_scope.

(** ** Headers *)
Lemma get_insert n v h m : hm_get (hm_insert n v h) m = if String.eqb m n then Some v else hm_get h m.
Proof. done. Qed.
Lemma get_remove n h m : hm_get (hm_remove n h) m = if String.eqb m n then None else hm_get h m.
Proof. done. Qed.

Section EndToEnd.
Context {PE : ProxyEnv} {D : Type} `{!Directory D} {W : Type} `{!WorkerOps W} `{!WorkerLaws W} (d : D).
Implicit Types (st : proxy_state W) (rq : proxy_request).

(** [upstream_request_filter] touches these headers. *)
Definition proxy_owned : list string :=
  ["host"; "x-forwarded-for"; "connection"; "proxy-connection"; "keep-alive"; "te"; "upgrade"; "x-s32p-validated"]%string.

Lemma upstream_other rq c h n : n ∉ proxy_owned -> hm_get (upstream_headers rq c h) n = hm_get h n.
Proof.
  intros Hn. assert (forall x, x ∈ proxy_owned -> String.eqb n x = false) as Hne by (intros x Hx; apply String.eqb_neq; intros ->; done).
  unfold upstream_headers. cbn [foldl]. cbn zeta. unfold proxy_owned in Hne.
  repeat (case_match; rewrite ?get_insert, ?get_remove, ?Hne by set_solver; try done).
Qed.

Lemma upstream_host rq c h : hm_get (upstream_headers rq c h) "host" = match orig_host c with Some x => Some (Some x) | None => hm_get h "host" end.
Proof. unfold upstream_headers. cbn [foldl]. by repeat case_match. Qed.

Lemma upstream_validated rq c h :
  hm_get h "x-s32p-validated" = None ->
  hm_get (upstream_headers rq c h) "x-s32p-validated" =
    match session_validated c, worker c with true, Some w => Some (Some (h_worker_token w)) | _, _ => None end.
Proof. intros Hn. unfold upstream_headers. cbn [foldl]. repeat case_match; done. Qed.

Lemma seen_not_validated rq st : hm_get (seen_headers rq st) "x-s32p-validated" = None.
Proof. unfold seen_headers, prepare_headers. by rewrite get_remove. Qed.

(** The classifier reads three headers. *)
Lemma classify_headers decode form m u h h' suffixes :
  (hm_get h "host" ≫= fun v => v) = (hm_get h' "host" ≫= fun v => v) ->
  hm_get h "x-amz-copy-source" = hm_get h' "x-amz-copy-source" -> hm_get h "x-amz-rename-source" = hm_get h' "x-amz-rename-source" ->
  classify_with_headers decode form m u (Some h) suffixes = classify_with_headers decode form m u (Some h') suffixes.
Proof.
  intros Hh Hc Hr. unfold classify_with_headers, parse_bucket_key_auto, host_header. cbn [mbind option_bind]. rewrite Hh.
  destruct (match _ with Some (bucket, key) => _ | None => _ end) as [[b k] vh]. f_equal.
  unfold classify_op, classify_plain, contains_key. by rewrite Hc, Hr.
Qed.

(** The request a worker receives for a forwarded one *)
Definition forwarded_request rq (st' : proxy_state W) (body : list item) (peer : option PeerAddr) : gateway_request := {|
  g_method := pr_method rq; g_uri := pr_uri rq; g_headers := upstream_headers rq (px_ctx st') (px_headers st');
  g_body := body; g_peer := peer |}.

Context {E : GatewayEnv}.

(** Proxy and worker are built from the same crates and given the same list
    of host suffixes. *)
Record same_build : Prop := {
  same_decode : p_percent_decode = o_percent_decode_utf8;
  same_form : p_form_parse = form_parse;
  same_suffixes : p_suffixes = g_virtual_hosted_suffixes;
}.

Lemma forwarded_frame rq st st' :
  request_filter d rq st = (Next tt, st') ->
  exists k user profile h,
    extract_access_key_from_request p_debug_str p_form_parse (pr_uri rq) (seen_headers rq st) = Ok k /\
    acts_for d rq (seen_headers rq st) (seen_class rq st) (px_sessions st) k user (session_validated (px_ctx st')) /\
    worker (px_ctx st') = Some h /\ h_key h = {| wk_access_key := user_access_key user; wk_profile := profile |} /\
    px_headers st' = seen_headers rq st /\ orig_host (px_ctx st') = header_text (seen_headers rq st) "host".
Proof.
  intros [(action & k & user & v & s1 & (Hact & Hk & Hu & Hsse & Hw & Hh & Hv & Ho) & Hp)|[Hn _]]%reaches_perform; [|by destruct (Hn tt)].
  apply perform_forwards in Hp as (profile & h & -> & (Hwk & _ & Hkey & Hhd & Hsv & Hoh)).
  exists k, user, profile, h. rewrite Hsv, Hv, Hhd, Hoh. split_and!; congruence.
Qed.

Lemma same_class rq st st' body peer :
  same_build -> request_filter d rq st = (Next tt, st') -> classify (forwarded_request rq st' body peer) = seen_class rq st.
Proof.
  intros [H1 H2 H3] (k & user & profile & h & _ & _ & _ & _ & Hh & Ho)%forwarded_frame.
  unfold classify, seen_class, classify_request. cbn. rewrite <- H1, <- H2, <- H3. apply classify_headers.
  - rewrite upstream_host, Hh, Ho. unfold header_text. by destruct (hm_get (seen_headers rq st) "host") as [[x|]|].
  - rewrite upstream_other, Hh; [done|]. unfold proxy_owned. apply (bool_decide_eq_false _). reflexivity.
  - rewrite upstream_other, Hh; [done|]. unfold proxy_owned. apply (bool_decide_eq_false _). reflexivity.
Qed.

(** Routing decisions do not drift.  The worker classifies a forwarded
    request, after the proxy has changed its headers, exactly as the proxy
    did when it chose the route. *)
Theorem classification_agrees (rq : proxy_request) (st st' : proxy_state W) (body : list item) (peer : option PeerAddr) :
  same_build -> request_filter d rq st = (Next tt, st') ->
  classify (forwarded_request rq st' body peer) = classify_request rq (seen_headers rq st).
Proof. apply same_class. Qed.

(** C4. Authentication across the two processes.  The worker's
    [require_sigv4] accepts a forwarded request only when its signature
    verifies with the worker's own key, or when the proxy has checked a
    session for it: nothing a client writes into the request makes the worker
    skip the check.  And a request
    the proxy has checked is accepted from a local connection. *)
Theorem forwarded_authentication (rq : proxy_request) (st st' : proxy_state W) (body : list item) (peer : option PeerAddr) (h : WorkerHandle) :
  request_filter d rq st = (Next tt, st') -> worker (px_ctx st') = Some h -> h_worker_token h = g_worker_token -> g_worker_token <> ""%string ->
  let fw := forwarded_request rq st' body peer in
  (require_sigv4 fw = Ok tt -> verify_request fw = Ok tt \/
     exists k user, session_validated (px_ctx st') = true /\
       session_allows d rq (seen_headers rq st) (seen_class rq st) (px_sessions st) k user /\ wk_access_key (h_key h) = user_access_key user) /\
  (session_validated (px_ctx st') = true -> (exists p, peer = Some p /\ is_local p = true) -> require_sigv4 fw = Ok tt).
Proof.
  intros (k & user & profile & h' & _ & Hacts & Hw & Hkey & Hh & _)%forwarded_frame Hw' Ht Hne. cbn zeta.
  rewrite Hw in Hw'. injection Hw' as ->.
  assert (hm_get (g_headers (forwarded_request rq st' body peer)) "x-s32p-validated" =
          if session_validated (px_ctx st') then Some (Some g_worker_token) else None) as Hv.
  { cbn [forwarded_request g_headers]. rewrite upstream_validated, Hw, Ht by (rewrite Hh; apply seen_not_validated).
    by destruct (session_validated (px_ctx st')). }
  split.
  - intros [?|(_ & Hg & _)]%require_sigv4_ok; [by left|]. right. rewrite Hv in Hg. exists k, user.
    destruct (session_validated (px_ctx st')); [|done]. split_and!; [done|done|by rewrite Hkey].
  - intros Hs (p & -> & Hp). unfold require_sigv4. rewrite Hv, Hs. rewrite (proj2 (is_empty_false _) Hne). cbn [forwarded_request g_peer].
    rewrite Hp. cbn. by rewrite String.eqb_refl.
Qed.

(** C16. A read-only session changes nothing.  When the session a request
    belongs to is read-only, the worker leaves every file, directory and
    attribute as it was, whatever the request is, and no multipart operation
    that writes is reached. *)
Theorem read_only_session_changes_nothing (rq : proxy_request) (st st' : proxy_state W) (body : list item) (peer : option PeerAddr)
    (k : string) (e : SessionEntry) (w w' : world) (f : flow obj_reply (obj_reply + delegated)) :
  same_build -> request_filter d rq st = (Next tt, st') -> session_validated (px_ctx st') = true ->
  extract_access_key_from_request p_debug_str p_form_parse (pr_uri rq) (seen_headers rq st) = Ok k ->
  px_sessions st !! k = Some e -> mode e = ModeReadOnly ->
  handle (forwarded_request rq st' body peer) w = (f, w') ->
  files w' = files w /\ (forall dl, f = Next (inr dl) -> writer dl = false).
Proof.
  intros Hb Hf Hs Hk He Hm Hh. eapply handle_keeps_files; [|exact Hh]. right. rewrite (same_class rq st st') by done.
  apply forwarded_frame in Hf as (k' & user & _ & _ & Hk' & Hacts & _). rewrite Hs in Hacts.
  destruct Hacts as (e' & He' & _ & _ & _ & Hmode & _). assert (k' = k) as -> by congruence. apply Hmode. congruence.
Qed.
End EndToEnd.
