(* ===== verification/ListBuckets.v ===== *)
(** * ListBuckets (main.rs)

    [ListBucketsToken] and [handle_list_buckets]: the buckets are the
    directories at the top of the export root, and a client that follows the
    continuation tokens gets each of them once. *)

From Stdlib Require Import ZArith Lia Ascii.
From stdpp Require Import base list strings numbers option gmap sorting.
From S2P Require Import Classifier.
From S2P Require Import Prelude RustStr Http S3Resp Bytes FsHelpers FileSystem.

Local Open Scope s3_scope.
Local Open Scope Z_scope.

Record ListBucketsToken := { bt_v : Z; bt_region : option string; bt_prefix : option string; bt_after : string }.

(** [BucketInfo]; [bucket_arn] is always [None]. *)
Record BucketInfo := { bi_name : string; bi_region : option string; bi_created : system_time }.

Class BucketsEnv := {
  b_fs : filesystem;
  b_root : path;
  b_region : string;
  (* [read_dir] of the root fails, or one entry cannot be read *)
  b_read_dir_fault : option io_kind;
  b_entry_fault : string -> bool;
  b_show_io : io_kind -> string;
  (* serde_json and base64 *)
  b_encode_token : ListBucketsToken -> res string string;
  b_decode_token : string -> res string ListBucketsToken;
}.

Section ListBuckets.
Context {E : BucketsEnv}.

(** One turn of the loop over the entries: a link counts as what it leads to,
    a link to nothing is skipped. *)
Definition bucket_entry (e : string * node) : option (string * system_time) :=
  if b_entry_fault (fst e) then None
  else match snd e with
       | Directory i _ _ =>
           if is_empty (fst e) || (fst e =s ".") || (fst e =s "..") then None else Some (fst e, i_mtime i)
       | _ => None
       end.

Definition name_le (a b : string * system_time) : Prop := str_le (fst a) (fst b).
#[global] Instance name_le_dec : RelDecision name_le.
Proof. intros a b. unfold name_le. apply _. Defined.

Definition top_buckets : res io_kind (list (string * system_time)) :=
  match b_read_dir_fault with
  | Some e => Err e
  | None => l ← read_dir b_fs b_root; Ok (merge_sort name_le (omap bucket_entry l))
  end.

(** [if class.query.has(k) { Some(first.unwrap_or("")) } else { None }] *)
Definition query_value (q : QueryParams) (k : string) : option string :=
  if has q k then Some (default ""%string (first q k)) else None.

Definition bad_query (message path : string) : HttpResponse := s3_error 400 "InvalidRequest" message (Some path) None.

Definition max_buckets (q : QueryParams) (path : string) : res HttpResponse (option Z) :=
  match first q "max-buckets" with
  | None => Ok None
  | Some s =>
      match parse_u32_str s with
      | None => Err (bad_query "invalid max-buckets" path)
      | Some m => if (m <? 1) || (10000 <? m) then Err (bad_query "max-buckets must be between 1 and 10000" path) else Ok (Some m)
      end
  end.

Definition is_paginated (q : QueryParams) (max : option Z) : bool :=
  bool_decide (is_Some max) || has q "bucket-region" || has q "prefix" || has q "continuation-token".

(** The name a continuation token resumes after *)
Definition start_after (q : QueryParams) (region prefix : option string) (path : string) : res HttpResponse string :=
  match first q "continuation-token" with
  | Some ct =>
      if is_empty ct then Ok ""%string
      else match b_decode_token ct with
           | Ok tok =>
               if negb (bt_v tok =? 1) then Err (bad_query "unsupported continuation-token version" path)
               else if negb (bool_decide (bt_prefix tok = prefix)) || negb (bool_decide (bt_region tok = region))
               then Err (bad_query "continuation-token does not match request parameters" path)
               else Ok (bt_after tok)
           | Err e => Err (bad_query e path)
           | Panics => Panics
           end
  | None => Ok ""%string
  end.

(** The page and the token for the next one; [page[ps - 1]] is there. *)
Definition cut_page (page_size : option Z) (region prefix : option string) (path : string) (l : list (string * system_time))
    : res HttpResponse (list (string * system_time) * option string) :=
  match page_size with
  | None => Ok (l, None)
  | Some ps =>
      if ps <? Z.of_nat (length l) then
        match l !! Z.to_nat (ps - 1) with
        | None => Panics
        | Some last =>
            match b_encode_token {| bt_v := 1; bt_region := region; bt_prefix := prefix; bt_after := fst last |} with
            | Ok s => Ok (take (Z.to_nat ps) l, Some s)
            | Err e => Err (internal_error e (Some path) None)
            | Panics => Panics
            end
        end
      else Ok (l, None)
  end.

Definition bucket_info (region : bool) (e : string * system_time) : BucketInfo :=
  {| bi_name := fst e; bi_region := if region then Some b_region else None; bi_created := snd e |}.

Definition bucket_infos (region : bool) (l : list (string * system_time)) : list BucketInfo := bucket_info region <$> l.

(** [handle_list_buckets]: the buckets, the echoed prefix, the next token *)
Definition handle_list_buckets (q : QueryParams) (path : string) : res HttpResponse (list BucketInfo * option string * option string) :=
  let region := query_value q "bucket-region" in
  if match region with Some br => negb (is_empty br) && negb (br =s b_region) | None => false end
  then Err (bad_query "bucket-region does not match this endpoint region" path)
  else
    let prefix := query_value q "prefix" in
    max ← max_buckets q path;
    let paginated := is_paginated q max in
    let page_size := match max with Some m => Some m | None => if paginated then Some 10000 else None end in
    buckets ← (match top_buckets with
               | Ok buckets => Ok buckets
               | Err e => Err (access_denied ("read_dir failed: " +:+ b_show_io e) (Some path))
               | Panics => Panics
               end : res HttpResponse (list (string * system_time)));
    let buckets := match prefix with Some pfx => filter (fun e => starts_with pfx (fst e) = true) buckets | None => buckets end in
    after ← start_after q region prefix path;
    let buckets := if is_empty after then buckets else filter (fun e => (after <s fst e) = true) buckets in
    cut ← cut_page page_size region prefix path buckets;
    Ok (bucket_infos paginated (fst cut), prefix, snd cut).

(** A client that follows the tokens *)
Fixpoint follow_buckets (n : nat) (q : QueryParams) (path : string) : option (list BucketInfo) :=
  match handle_list_buckets q path with
  | Ok (out, _, None) => Some out
  | Ok (out, _, Some t) =>
      match n with
      | O => None
      | S n => app out <$> follow_buckets n (<["continuation-token"%string := [t]]> q) path
      end
  | _ => None
  end.
End ListBuckets.

(** ** Following the tokens *)
Section Proofs.
Context {E : BucketsEnv}.

Definition name_lt (a b : string * system_time) : Prop := str_lt (fst a) (fst b).

(** The buckets there are, in order *)
Definition all_buckets (q : QueryParams) : list (string * system_time) :=
  match top_buckets with
  | Ok l => match query_value q "prefix" with Some pfx => filter (fun e => starts_with pfx (fst e) = true) l | None => l end
  | _ => []
  end.

Lemma top_buckets_sorted l : top_buckets = Ok l -> StronglySorted name_lt l /\ Forall (fun e => fst e <> ""%string) l.
Proof.
  unfold top_buckets. destruct b_read_dir_fault; [done|]. destruct (read_dir b_fs b_root) as [c| |] eqn:Er; [|done..].
  cbn. intros [= <-]. apply read_dir_ok in Er as [_ ->]. set (es := omap bucket_entry (children b_fs b_root)).
  assert (NoDup (fst <$> es)) as Hnd.
  { apply omap_NoDup_key; [apply children_NoDup|]. intros k a b c Hk k' a' c' Hk'. unfold bucket_entry in Hk, Hk'. cbn in *.
    repeat case_match; simplify_eq; done. }
  assert (Permutation (merge_sort name_le es) es) as Hp by apply merge_sort_Permutation.
  assert (Transitive name_le) as Htr by (intros a b c H1 H2; unfold name_le in *; by etrans).
  assert (Total name_le) as Hto by (intros a b; unfold name_le; apply (total str_le)).
  split.
  - assert (StronglySorted name_le (merge_sort name_le es)) as Hs by (by apply StronglySorted_merge_sort).
    assert (NoDup (fst <$> merge_sort name_le es)) as Hnd' by (by rewrite Hp).
    clearbody es. clear Hp Hnd. induction Hs as [|x l Hs IH Hx]; [constructor|]. cbn in Hnd'. apply NoDup_cons in Hnd' as [Hn Hnd'].
    constructor; [by apply IH|]. rewrite list.Forall_forall in Hx |- *. intros y Hy. apply str_lt_iff. split; [by apply Hx|].
    intros Heq. apply Hn. rewrite Heq. by apply list_elem_of_fmap_2.
  - rewrite Hp. apply list.Forall_forall. intros [name t] Hin. apply list_elem_of_omap in Hin as ([k n] & _ & He).
    unfold bucket_entry in He. cbn in He. destruct (b_entry_fault k); [done|]. destruct n; try done. destruct (is_empty k) eqn:Ee; [done|].
    cbn in He. case_match; simplify_eq. by apply is_empty_false.
Qed.

Lemma filter_keeps {A} (P : A -> Prop) `{!forall x, Decision (P x)} (l : list A) : Forall P l -> filter P l = l.
Proof. induction 1 as [|x l Hx _ IH]; [done|]. by rewrite filter_cons_True, IH. Qed.
Lemma filter_drops {A} (P : A -> Prop) `{!forall x, Decision (P x)} (l : list A) : Forall (fun x => ~ P x) l -> filter P l = [].
Proof. induction 1 as [|x l Hx _ IH]; [done|]. by rewrite filter_cons_False. Qed.
Lemma sorted_filter {A} (R : relation A) (P : A -> Prop) `{!forall x, Decision (P x)} (l : list A) :
  StronglySorted R l -> StronglySorted R (filter P l).
Proof.
  induction 1 as [|x l _ IH Hx]; [constructor|]. rewrite filter_cons. case_decide; [|done]. constructor; [done|].
  rewrite list.Forall_forall in Hx |- *. intros y [_ Hy]%list_elem_of_filter. by apply Hx.
Qed.

Lemma all_buckets_sorted q : StronglySorted name_lt (all_buckets q) /\ Forall (fun e => fst e <> ""%string) (all_buckets q).
Proof.
  unfold all_buckets. destruct top_buckets as [l| |] eqn:Et; [|split; constructor..].
  destruct (top_buckets_sorted l Et) as [Hs Hn]. case_match; [|done]. split; [by apply sorted_filter|].
  rewrite list.Forall_forall in Hn |- *. intros y [_ Hy]%list_elem_of_filter. by apply Hn.
Qed.

(** What is left after a name of the list *)
Lemma filter_after (d t : list (string * system_time)) x :
  StronglySorted name_lt (d ++ x :: t) -> filter (fun e => (fst x <s fst e) = true) (d ++ x :: t) = t.
Proof.
  intros Hs. rewrite filter_app. rewrite filter_cons_False.
  2: { rewrite str_lt_leb. intros H. apply H. done. }
  assert (filter (fun e => (fst x <s fst e) = true) d = []) as ->.
  { apply filter_drops, list.Forall_forall. intros y Hy. rewrite str_lt_leb. intros Hlt.
    assert (name_lt y x) as Hyx by (eapply StronglySorted_app_1_elem_of; [exact Hs|done|by left]). unfold name_lt in Hyx.
    assert (str_lt (fst x) (fst x)) as Hbad by (by etrans). by apply Hbad. }
  apply StronglySorted_app_1_r in Hs. apply StronglySorted_inv in Hs as [_ Hx]. cbn.
  apply filter_keeps. rewrite list.Forall_forall in *. intros y Hy. apply str_lt_leb. by apply Hx.
Qed.

Definition ct : string := "continuation-token".
Definition resumed (q : QueryParams) (t : string) : QueryParams := <[ct := [t]]> q.

(** A token changes nothing but where the page starts. *)
Lemma resumed_other q t k : to_ascii_lowercase k <> ct -> has (resumed q t) k = has q k /\ first (resumed q t) k = first q k.
Proof. intros Hk. unfold has, first, resumed. by rewrite lookup_insert_ne. Qed.
Lemma resumed_first q t : first (resumed q t) ct = Some t /\ has (resumed q t) ct = true.
Proof. unfold first, has, resumed. change (to_ascii_lowercase ct) with ct. by rewrite lookup_insert_eq. Qed.
Lemma resumed_value q t k : to_ascii_lowercase k <> ct -> query_value (resumed q t) k = query_value q k.
Proof. intros Hk. unfold query_value. by destruct (resumed_other q t k Hk) as [-> ->]. Qed.
Lemma resumed_max q t path : max_buckets (resumed q t) path = max_buckets q path.
Proof. unfold max_buckets. by destruct (resumed_other q t "max-buckets") as [_ ->]. Qed.
Lemma resumed_all q t : all_buckets (resumed q t) = all_buckets q.
Proof. unfold all_buckets. by rewrite resumed_value. Qed.

(** A request that is not refused, and its page size *)
Record listable_buckets (q : QueryParams) (path : string) (max : option Z) : Prop := {
  lb_region : match query_value q "bucket-region" with Some br => negb (is_empty br) && negb (br =s b_region) | None => false end = false;
  lb_max : max_buckets q path = Ok max;
  lb_top : exists l, top_buckets = Ok l;
}.
Definition page_size (q : QueryParams) (max : option Z) : option Z :=
  match max with Some m => Some m | None => if is_paginated q max then Some 10000 else None end.

Lemma page_size_pos q path max ps : max_buckets q path = Ok max -> page_size q max = Some ps -> 1 <= ps.
Proof.
  unfold max_buckets, page_size. destruct (first q "max-buckets") as [s|].
  - destruct (parse_u32_str s) as [m|]; [|done]. destruct (m <? 1) eqn:E1; [done|]. cbn. destruct (10000 <? m); [done|].
    intros [= <-] [= <-]. lia.
  - intros [= <-]. case_match; [intros [= <-]; lia|done].
Qed.

Lemma handle_page q path max a todo :
  listable_buckets q path max -> start_after q (query_value q "bucket-region") (query_value q "prefix") path = Ok a ->
  (if is_empty a then all_buckets q else filter (fun e => (a <s fst e) = true) (all_buckets q)) = todo ->
  handle_list_buckets q path =
    (cut ← cut_page (page_size q max) (query_value q "bucket-region") (query_value q "prefix") path todo;
     Ok (bucket_infos (is_paginated q max) (fst cut), query_value q "prefix", snd cut)).
Proof.
  intros [Hr Hm [l Hl]] Ha Ht. unfold handle_list_buckets. rewrite Hr, Hm. cbn [mbind res_bind]. rewrite Hl. cbn [mbind res_bind].
  rewrite Ha. cbn [mbind res_bind]. unfold all_buckets in Ht. rewrite Hl in Ht. by rewrite Ht.
Qed.

(** Cutting a page off what is left *)
Lemma cut_page_split ps region prefix path todo s :
  1 <= ps -> b_encode_token {| bt_v := 1; bt_region := region; bt_prefix := prefix; bt_after := default ""%string (fst <$> todo !! Z.to_nat (ps - 1)) |} = Ok s ->
  if ps <? Z.of_nat (length todo)
  then exists d x rest, todo = d ++ x :: rest /\ (length rest < length todo)%nat /\ fst x = default ""%string (fst <$> todo !! Z.to_nat (ps - 1)) /\
         cut_page (Some ps) region prefix path todo = Ok (d ++ [x], Some s)
  else cut_page (Some ps) region prefix path todo = Ok (todo, None).
Proof.
  intros Hps Hs. unfold cut_page. destruct (ps <? Z.of_nat (length todo)) eqn:El; [|done].
  assert (is_Some (todo !! Z.to_nat (ps - 1))) as [x Hx] by (apply lookup_lt_is_Some; lia).
  rewrite Hx in *. cbn in Hs. rewrite Hs. exists (take (Z.to_nat (ps - 1)) todo), x, (drop (Z.to_nat ps) todo).
  replace (Z.to_nat ps) with (S (Z.to_nat (ps - 1))) by lia. split_and!; [by rewrite take_drop_middle| |done|].
  - rewrite length_drop. lia.
  - by rewrite (take_S_r _ _ x).
Qed.

Section Following.
Context (codec : forall t, exists s, b_encode_token t = Ok s /\ s <> ""%string /\ b_decode_token s = Ok t).

Lemma resumed_listable q t path max : listable_buckets q path max -> listable_buckets (resumed q t) path max.
Proof using Type. intros [Hr Hm Hl]. split; [by rewrite resumed_value|by rewrite resumed_max|done]. Qed.

(** From a token to the end *)
Lemma follow_rest n q path max ps d x todo t :
  listable_buckets q path max -> page_size q max = Some ps ->
  all_buckets q = d ++ x :: todo -> t <> ""%string ->
  b_decode_token t = Ok {| bt_v := 1; bt_region := query_value q "bucket-region"; bt_prefix := query_value q "prefix"; bt_after := fst x |} ->
  (length todo <= n)%nat ->
  follow_buckets n (resumed q t) path = Some (bucket_infos true todo).
Proof using codec.
  intros Hl Hps. pose proof (page_size_pos _ _ _ _ (lb_max _ _ _ Hl) Hps) as Hpos.
  revert d x todo t. induction n as [n IH] using lt_wf_ind. intros d x todo t Hall Hne Hdec Hn.
  destruct (all_buckets_sorted q) as [Hsort Hnames]. rewrite Hall in Hsort, Hnames.
  assert (is_empty (fst x) = false) as Hx.
  { apply is_empty_false. rewrite list.Forall_forall in Hnames. apply Hnames. set_solver. }
  assert (start_after (resumed q t) (query_value (resumed q t) "bucket-region") (query_value (resumed q t) "prefix") path = Ok (fst x)) as Hsa.
  { rewrite !resumed_value by done. unfold start_after. destruct (resumed_first q t) as [Hf _]. unfold ct in Hf.
    rewrite Hf, (proj2 (is_empty_false t)), Hdec by done. cbn [bt_v bt_prefix bt_region bt_after]. by rewrite !bool_decide_true. }
  assert (page_size (resumed q t) max = Some ps) as Hps'.
  { unfold page_size in *. destruct max; [done|]. unfold is_paginated in *. cbn [bool_decide] in *.
    destruct (resumed_first q t) as [_ Hh]. unfold ct in Hh. rewrite Hh, !orb_true_r. by case_match; simplify_eq. }
  assert (is_paginated (resumed q t) max = true) as Hpag.
  { unfold is_paginated. destruct (resumed_first q t) as [_ Hh]. unfold ct in Hh. rewrite Hh. apply orb_true_r. }
  pose proof (handle_page (resumed q t) path max (fst x) todo (resumed_listable q t path max Hl) Hsa) as Hh.
  rewrite Hx, resumed_all, Hall, filter_after, Hps', Hpag in Hh by done. specialize (Hh eq_refl). rewrite !resumed_value in Hh by done.
  edestruct (codec {| bt_v := 1; bt_region := query_value q "bucket-region"; bt_prefix := query_value q "prefix";
                      bt_after := default ""%string (fst <$> todo !! Z.to_nat (ps - 1)) |}) as (s & Hs & Hsne & Hsd).
  pose proof (cut_page_split ps _ _ path todo s Hpos Hs) as Hcut. destruct (ps <? Z.of_nat (length todo)) eqn:El.
  - destruct Hcut as (d' & y & rest & Htodo & Hlen & Hy & Hcut). rewrite Hcut in Hh. cbn [mbind res_bind fst snd] in Hh.
    destruct n as [|n]; [lia|]. cbn [follow_buckets]. rewrite Hh.
    replace (<["continuation-token"%string := [s]]> (resumed q t)) with (resumed q s) by (unfold resumed; by rewrite insert_insert_eq).
    rewrite (IH n ltac:(lia) (d ++ x :: d') y rest s); [|by rewrite Hall, Htodo, <- app_assoc|done|by rewrite Hy|lia].
    cbn. f_equal. rewrite Htodo. unfold bucket_infos. by rewrite !fmap_app, <- app_assoc.
  - rewrite Hcut in Hh. cbn [mbind res_bind fst snd] in Hh. destruct n; cbn [follow_buckets]; by rewrite Hh.
Qed.
End Following.

(** ListBuckets, paged.  A client that follows the continuation tokens
    receives, over all its pages, every directory at the top of the export
    root that the prefix admits, linked or not, once and in byte order; the
    number of requests is bounded by the number of buckets. *)
Theorem list_buckets_complete (q : QueryParams) (path : string) (max : option Z) :
  (forall t, exists s, b_encode_token t = Ok s /\ s <> ""%string /\ b_decode_token s = Ok t) ->
  listable_buckets q path max -> q !! ct = None ->
  follow_buckets (length (all_buckets q)) q path = Some (bucket_infos (is_paginated q max) (all_buckets q)).
Proof.
  intros codec Hl Hct. assert (first q "continuation-token" = None) as Hf by (unfold first; change (to_ascii_lowercase _) with ct; by rewrite Hct).
  assert (start_after q (query_value q "bucket-region") (query_value q "prefix") path = Ok ""%string) as Hsa by (unfold start_after; by rewrite Hf).
  pose proof (handle_page q path max ""%string (all_buckets q) Hl Hsa eq_refl) as Hh.
  assert (page_size q max = None \/ exists ps, page_size q max = Some ps /\ is_paginated q max = true) as [Hps|(ps & Hps & Hpag)].
  { unfold page_size, is_paginated. destruct max as [m|]; [by right; exists m|]. case_match eqn:Ep; [right; by exists 10000|by left]. }
  - rewrite Hps in Hh. cbn [cut_page mbind res_bind fst snd] in Hh. destruct (length _); cbn [follow_buckets]; by rewrite Hh.
  - pose proof (page_size_pos _ _ _ _ (lb_max _ _ _ Hl) Hps) as Hpos. rewrite Hps, Hpag in Hh. rewrite Hpag.
    edestruct (codec {| bt_v := 1; bt_region := query_value q "bucket-region"; bt_prefix := query_value q "prefix";
                        bt_after := default ""%string (fst <$> all_buckets q !! Z.to_nat (ps - 1)) |}) as (s & Hs & Hsne & Hsd).
    pose proof (cut_page_split ps _ _ path (all_buckets q) s Hpos Hs) as Hcut. destruct (ps <? Z.of_nat (length (all_buckets q))) eqn:El.
    + destruct Hcut as (d & y & rest & Hall & Hlen & Hy & Hcut). rewrite Hcut in Hh. cbn [mbind res_bind fst snd] in Hh.
      destruct (length (all_buckets q)) as [|n] eqn:En; [lia|]. cbn [follow_buckets]. rewrite Hh.
      change (<["continuation-token"%string := [s]]> q) with (resumed q s).
      rewrite (follow_rest codec n q path max ps d y rest s); [|done|done|done|done|by rewrite Hy|lia].
      cbn. f_equal. rewrite Hall. unfold bucket_infos. by rewrite fmap_app, fmap_app, <- app_assoc.
    + rewrite Hcut in Hh. cbn [mbind res_bind fst snd] in Hh. destruct (length _); cbn [follow_buckets]; by rewrite Hh.
Qed.
End Proofs.
