(* ===== verification/GatewayWitness.v ===== *)
(** * Requests at the front door

    The hypotheses of the theorems on [handle] hold together: a worker with a
    token and one bucket that is granted read-only. *)

From Stdlib Require Import ZArith Lia Ascii.
From stdpp Require Import base list strings numbers option gmap sorting countable.
From S2P Require Import Classifier.
From S2P Require Import Prelude RustStr Http S3Resp S3Xml Bytes FsHelpers FileSystem Handler PayloadSource Objects Directory BucketAcl SigV4 Gateway ListBuckets ObjectWitness ListingWitness.

Local Open Scope Z_scope.

#[local] Instance demo_gateway : GatewayEnv := {|
  g_objects := demo_objects; g_access_key := "AK"%string; g_secret_key := "sk"%string; g_worker_token := "secret-token"%string;
  g_bucket_acl := {["b"%string := ReadOnly]}; g_virtual_hosted_suffixes := [];
  g_debug_str := id; g_time := Z; g_pdt_parse := fun _ => Ok 0; g_unix_timestamp := id; g_format_ymd := fun _ => Ok ""%string;
  g_build_params := fun _ => None; g_sign := fun _ _ _ _ _ => SignError "no key"%string |}.

Definition put_request (headers : list (string * string)) (peer : PeerAddr) : gateway_request :=
  {| g_method := "PUT"%string; g_uri := uri_of "/b/old" None; g_headers := headers_of (("content-length", "4")%string :: headers);
     g_body := [Data (bytes_of "wxyz")]; g_peer := Some peer |}.
Definition vouched : gateway_request := put_request [("x-s32p-validated", "secret-token")%string] Unix.
Definition forged : gateway_request := put_request [("x-s32p-validated", "secret-token")%string] (Tcp (V4 10 0 0 1)).
Definition unsigned : gateway_request := put_request [] Unix.

Lemma read_only_bucket_never_changes_witness :
  require_sigv4 vouched = Ok tt /\ op (classify vouched) = Write PutObject /\
  files (snd (handle vouched demo_world)) = files demo_world.
Proof.
  split; [reflexivity|]. split; [vm_compute; reflexivity|].
  apply (read_only_bucket_never_changes vouched demo_world (snd (handle vouched demo_world)) (fst (handle vouched demo_world)));
    [left; vm_compute; reflexivity|by destruct (handle vouched demo_world)].
Defined.

Lemma forged_validation_header_refused_witness :
  handle forged demo_world = (Return (Error (access_denied "validation header rejected" (Some "/b/old"%string))), demo_world).
Proof.
  apply (forged_validation_header_refused forged demo_world (Some "secret-token"%string)); [discriminate|reflexivity|].
  left. intros p [= <-]. reflexivity.
Defined.

Lemma unauthenticated_requests_do_nothing_witness :
  (exists rej, require_sigv4 unsigned = Err rej /\ handle unsigned demo_world = (Return (Error (response rej)), demo_world)) \/
  handle unsigned demo_world = (Crash, demo_world).
Proof.
  apply (unauthenticated_requests_do_nothing unsigned demo_world). intros [H|(_ & H & _)]; [|discriminate H].
  vm_compute in H. discriminate H.
Defined.

(** ** ListBuckets *)
Definition bucket_token_parts (t : ListBucketsToken) := (bt_v t, bt_region t, bt_prefix t, bt_after t).
Definition bucket_token_of (x : Z * option string * option string * string) : ListBucketsToken :=
  let '(v, r, p, a) := x in {| bt_v := v; bt_region := r; bt_prefix := p; bt_after := a |}.
Definition demo_encode_bucket (t : ListBucketsToken) : res string string := Ok (String "t" (bits (encode (bucket_token_parts t)))).
Definition demo_decode_bucket (s : string) : res string ListBucketsToken :=
  match s with
  | String _ s => match decode (unbits s) with Some x => Ok (bucket_token_of x) | None => Err "invalid"%string end
  | _ => Err "empty"%string
  end.

#[local] Instance demo_buckets : BucketsEnv := {|
  b_fs := list_to_map [([], demo_dir 1); (["export"], demo_dir 2); (["export"; "b2"], demo_dir 3); (["export"; "b1"], demo_dir 4);
                       (["export"; "file"], demo_file 5); (["export"; "b3"], FileSystem.Directory (demo_inode 6) 4096 true)]%string;
  b_root := ["export"%string]; b_region := "r1"%string; b_read_dir_fault := None; b_entry_fault := fun _ => false;
  b_show_io := fun _ => "io"%string; b_encode_token := demo_encode_bucket; b_decode_token := demo_decode_bucket |}.

Definition two_at_a_time : QueryParams := {["max-buckets"%string := ["2"%string]]}.

Lemma list_buckets_complete_witness :
  bi_name <$> default [] (follow_buckets 3 two_at_a_time "/") = ["b1"; "b2"; "b3"]%string /\
  follow_buckets (length (all_buckets two_at_a_time)) two_at_a_time "/" = Some (bucket_infos true (all_buckets two_at_a_time)).
Proof.
  split; [vm_compute; reflexivity|]. apply (list_buckets_complete two_at_a_time "/" (Some 2)).
  - intros t. eexists. split; [reflexivity|]. split; [discriminate|]. cbn. rewrite unbits_bits, decode_encode. by destruct t.
  - split; [reflexivity|vm_compute; reflexivity|]. eexists. vm_compute. reflexivity.
  - reflexivity.
Defined.
