(* ===== verification/EndToEndWitness.v ===== *)
(** * A session used end to end

    The hypotheses of the theorems on the proxy hold together: a session for
    bucket [a], requests signed with its secret, the worker of its owner; and
    what the session reaches beyond its bucket. *)

From Stdlib Require Import ZArith Lia Ascii.
From stdpp Require Import base list strings numbers option gmap.
From S2P Require Import Classifier.
From S2P Require Import Prelude RustStr Http S3Resp S3Xml Bytes FsHelpers FileSystem Handler PayloadSource Objects ConnLimit SigV4 Directory BucketAcl Workers Sessions Reconciler Proxy ProxyProofs Gateway EndToEnd ObjectWitness.

Local Open Scope Z_scope.

Definition alice : UserDoc :=
  {| user_access_key := "AK1"; user_secret_key := "long-term"; user_username := "alice"; user_uid := 1000; user_gid := 100 |}.
Definition two_views : list BucketView :=
  [{| bucket_id := "1"; bucket_name := "a"; data_path := "/srv/a"; access := ReadWrite |};
   {| bucket_id := "2"; bucket_name := "b"; data_path := "/srv/b"; access := ReadWrite |}].
#[local] Instance alice_directory : Directory unit := fixed_directory (Some alice) two_views.
#[local] Instance alice_workers : WorkerOps worker_table := @table_workers demo_spawn demo_cfg (fun _ => true).
#[local] Instance alice_laws : WorkerLaws worker_table := @table_laws demo_spawn demo_cfg (fun _ => true).

#[local] Instance demo_proxy : ProxyEnv := {|
  p_limiter := {| per_ip := 2; loopback_bypass := true; keepalive_idle_secs := 60 |};
  p_routing := list_to_map [("read", ProxyTo "gw"); ("write", ProxyTo "gw"); ("session", MintSession); ("other", NotImplemented "no")]%string;
  p_suffixes := []; p_session_ttl := 300; p_max_active := 8; p_reconcile_interval := 60; p_accept_loop := true;
  p_now_inst := 100; p_now := toy_now; p_seed := {| key_bytes := []; secret_bytes := []; uuid := "u"%string |}; p_base64 := fun _ => ""%string;
  p_session_xml := fun _ => true; p_show_ip := fun _ => "10.0.0.1"%string; p_show_error := fun _ => "e"%string;
  p_percent_decode := Some; p_form_parse := @form_parse demo_form; p_debug_str := toy_debug; p_time := Z; p_pdt_parse := toy_parse;
  p_unix_timestamp := toy_ts; p_format_ymd := toy_ymd; p_build_params := toy_build; p_sign := toy_sign |}.

Definition a_session (m : SessionMode) : SessionEntry :=
  {| Sessions.access_key := "ASIA1"; secret_key := "secret"; session_token := "tok-1"; real_access_key := "AK1"; session_bucket := "a";
     mode := m; expires_at_inst := 200; expires_at_system := 0 |}.

Definition signed_headers_of (key : string) (extra : list (string * string)) : header_map :=
  headers_of ([("host", "h:443"); ("authorization", format_authorization key "20250101" "us-east-1" "s3express" "host;x-amz-date" toy_sig);
               ("x-amz-date", "20250101T000000Z"); ("x-amz-content-sha256", "UNSIGNED-PAYLOAD")]%string ++ extra).

Definition session_request (method path : string) (extra : list (string * string)) : proxy_request :=
  {| pr_method := method; pr_uri := uri_of path None; pr_authority := None;
     pr_headers := signed_headers_of "ASIA1" (("x-amz-s3session-token", "tok-1")%string :: extra); pr_client := Some (Inet (V4 10 0 0 1)) |}.

Definition idle_proxy (rq : proxy_request) (m : SessionMode) : proxy_state worker_table := {|
  px_inflight := ∅; px_sessions := {["ASIA1"%string := a_session m]};
  px_workers := {| table := ∅; table_keys := map_Forall_empty _ |}; px_headers := pr_headers rq; px_ctx := new_ctx;
  px_background := {| sweeper_started := false; reconciler_started := false; cleanup_started := false; nss_started := false; nss_pending := true; nss_handle := false |} |}.

Definition read_rq : proxy_request := session_request "GET" "/a/old" [("x-s32p-validated", "forged")]%string.
Definition after_filter (rq : proxy_request) (m : SessionMode) : proxy_state worker_table := snd (request_filter tt rq (idle_proxy rq m)).

Lemma filter_forwards rq m : fst (request_filter tt rq (idle_proxy rq m)) = Next tt -> request_filter tt rq (idle_proxy rq m) = (Next tt, after_filter rq m).
Proof. unfold after_filter. destruct (request_filter tt rq (idle_proxy rq m)). cbn. by intros ->. Qed.

Lemma read_forwarded m : request_filter tt read_rq (idle_proxy read_rq m) = (Next tt, after_filter read_rq m).
Proof. apply filter_forwards. destruct m; vm_compute; reflexivity. Qed.

Lemma forwarded_requests_authorised_witness :
  session_validated (px_ctx (after_filter read_rq ModeReadOnly)) = true /\
  exists k user profile h,
    extract_access_key_from_request p_debug_str p_form_parse (pr_uri read_rq) (seen_headers read_rq (idle_proxy read_rq ModeReadOnly)) = Ok k /\
    acts_for tt read_rq (seen_headers read_rq (idle_proxy read_rq ModeReadOnly)) (seen_class read_rq (idle_proxy read_rq ModeReadOnly))
      (px_sessions (idle_proxy read_rq ModeReadOnly)) k user true /\
    worker (px_ctx (after_filter read_rq ModeReadOnly)) = Some h /\ h_key h = {| wk_access_key := user_access_key user; wk_profile := profile |}.
Proof.
  assert (session_validated (px_ctx (after_filter read_rq ModeReadOnly)) = true) as Hv by (vm_compute; reflexivity). split; [exact Hv|].
  destruct (forwarded_requests_authorised tt read_rq (idle_proxy read_rq ModeReadOnly) _ (read_forwarded ModeReadOnly))
    as (k & user & profile & h & H1 & H2 & H3 & H4 & _).
  exists k, user, profile, h. rewrite Hv in H2. auto.
Defined.

(** A stranger: a long-term key with a signature made by somebody else *)
Definition stranger_rq : proxy_request :=
  {| pr_method := "GET"; pr_uri := uri_of "/a/old" None; pr_authority := None; pr_headers := signed_headers_of "AK1" []; pr_client := None |}.

Lemma no_worker_for_strangers_witness :
  table (px_workers (after_filter stranger_rq ModeReadWrite)) = ∅ /\
  (px_workers (after_filter stranger_rq ModeReadWrite) = px_workers (idle_proxy stranger_rq ModeReadWrite) \/
   exists k user profile v, acts_for tt stranger_rq (seen_headers stranger_rq (idle_proxy stranger_rq ModeReadWrite))
       (seen_class stranger_rq (idle_proxy stranger_rq ModeReadWrite)) (px_sessions (idle_proxy stranger_rq ModeReadWrite)) k user v /\
     (px_workers (after_filter stranger_rq ModeReadWrite) =
        snd (get_running (px_workers (idle_proxy stranger_rq ModeReadWrite)) (user_access_key user) profile) \/
      trusted stranger_rq (seen_headers stranger_rq (idle_proxy stranger_rq ModeReadWrite)) user v)).
Proof.
  split; [vm_compute; reflexivity|].
  apply (no_worker_for_strangers tt stranger_rq (idle_proxy stranger_rq ModeReadWrite) (after_filter stranger_rq ModeReadWrite)
           (fst (request_filter tt stranger_rq (idle_proxy stranger_rq ModeReadWrite)))).
  unfold after_filter. by destruct (request_filter tt stranger_rq (idle_proxy stranger_rq ModeReadWrite)).
Defined.

(** ** The worker *)
#[local] Instance alice_gateway : GatewayEnv := {|
  g_objects := demo_objects; g_access_key := "AK1"%string; g_secret_key := "long-term"%string; g_worker_token := "tok"%string;
  g_bucket_acl := ∅; g_virtual_hosted_suffixes := [];
  g_debug_str := toy_debug; g_time := Z; g_pdt_parse := toy_parse; g_unix_timestamp := toy_ts; g_format_ymd := toy_ymd;
  g_build_params := toy_build; g_sign := toy_sign |}.
Definition two_buckets : world :=
  {| files := <[["export"; "a"]%string := FileSystem.Directory (demo_node 20) 4096 false]> demo_tree; xattr_support := ∅; idempotency := ∅ |}.

Lemma demo_build : same_build.
Proof. split; reflexivity. Qed.

Lemma classification_agrees_witness :
  classify (forwarded_request read_rq (after_filter read_rq ModeReadOnly) [] (Some Unix)) =
    classify_request read_rq (seen_headers read_rq (idle_proxy read_rq ModeReadOnly)) /\
  op (classify (forwarded_request read_rq (after_filter read_rq ModeReadOnly) [] (Some Unix))) = Read GetObject.
Proof.
  split; [|vm_compute; reflexivity].
  apply (classification_agrees tt read_rq (idle_proxy read_rq ModeReadOnly) (after_filter read_rq ModeReadOnly) [] (Some Unix) demo_build).
  apply read_forwarded.
Defined.

Lemma forwarded_authentication_witness :
  exists h, worker (px_ctx (after_filter read_rq ModeReadOnly)) = Some h /\ h_worker_token h = "tok"%string /\
    require_sigv4 (forwarded_request read_rq (after_filter read_rq ModeReadOnly) [] (Some Unix)) = Ok tt.
Proof.
  destruct (worker (px_ctx (after_filter read_rq ModeReadOnly))) as [h|] eqn:Ew; [|vm_compute in Ew; discriminate Ew].
  exists h. split; [reflexivity|]. assert (h_worker_token h = "tok"%string) as Ht.
  { apply (f_equal (fun o => default ""%string (h_worker_token <$> o))) in Ew. vm_compute in Ew. symmetry. exact Ew. }
  split; [exact Ht|].
  apply (forwarded_authentication (E := alice_gateway) tt read_rq (idle_proxy read_rq ModeReadOnly) (after_filter read_rq ModeReadOnly) [] (Some Unix) h
           (read_forwarded ModeReadOnly) Ew Ht).
  - discriminate.
  - vm_compute. reflexivity.
  - exists Unix. split; reflexivity.
Defined.

Lemma read_only_session_changes_nothing_witness :
  files (snd (handle (forwarded_request read_rq (after_filter read_rq ModeReadOnly) [] (Some Unix)) two_buckets)) = files two_buckets.
Proof.
  apply (read_only_session_changes_nothing tt read_rq (idle_proxy read_rq ModeReadOnly) (after_filter read_rq ModeReadOnly) [] (Some Unix)
           "ASIA1" (a_session ModeReadOnly) two_buckets _
           (fst (handle (forwarded_request read_rq (after_filter read_rq ModeReadOnly) [] (Some Unix)) two_buckets)) demo_build
           (read_forwarded ModeReadOnly)).
  - vm_compute. reflexivity.
  - vm_compute. reflexivity.
  - reflexivity.
  - reflexivity.
  - by destruct (handle (forwarded_request read_rq (after_filter read_rq ModeReadOnly) [] (Some Unix)) two_buckets).
Defined.

(** A session for bucket [a] reads bucket [b]: the proxy compares the bucket
    a request addresses with the session's bucket, and a copy addresses its
    target.  The worker, which trusts the proxy, copies an object of [b] into
    [a], where the session may read it. *)
Definition copy_rq : proxy_request := session_request "PUT" "/a/stolen" [("x-amz-copy-source", "/b/old")]%string.

Theorem session_scope_escapes :
  fst (request_filter tt copy_rq (idle_proxy copy_rq ModeReadWrite)) = Next tt /\
  session_validated (px_ctx (after_filter copy_rq ModeReadWrite)) = true /\
  session_bucket (a_session ModeReadWrite) = "a"%string /\
  let r := handle (forwarded_request copy_rq (after_filter copy_rq ModeReadWrite) [] (Some Unix)) two_buckets in
  match fst r with Next (inl (CopyObjectOk _ _)) => true | _ => false end = true /\
  content_at ["export"; "a"; "stolen"]%string (files (snd r)) = content_at ["export"; "b"; "old"]%string (files two_buckets) /\
  content_at ["export"; "b"; "old"]%string (files two_buckets) = bytes_of "abcd".
Proof. cbn zeta. split_and!; vm_compute; reflexivity. Qed.
