(* ===== verification/XmlDocs.v ===== *)
(** * s32p-support/src/s3xml.rs: the documents of responses

    Every response document is a struct whose serde attributes say how
    [quick_xml::se::to_string] writes it: the element's name, its attributes
    ([@name]), its text ([$text]) and which empty fields are left out.  A
    document is modelled by its record and by the tree it is written as. *)

From Stdlib Require Import ZArith Lia Ascii.
From stdpp Require Import base list strings numbers option gmap.
From S2P Require Import Prelude RustStr Http S3Xml S3Resp Objects Listing Multipart ListBuckets.

Local Open Scope s3_scope.
Local Open Scope string_scope.

(** ** Trees *)
Inductive xml_node := Elem (tag : string) (attrs : list (string * string)) (kids : list xml_node) | Txt (s : string).

#[global] Instance xml_node_eq_dec : EqDecision xml_node.
Proof.
  refine (fix go n1 n2 := let _ : EqDecision _ := @go in
    match n1, n2 with
    | Txt a, Txt b => cast_if (decide (a = b))
    | Elem t1 a1 c1, Elem t2 a2 c2 => cast_if_and3 (decide (t1 = t2)) (decide (a1 = a2)) (decide (c1 = c2))
    | _, _ => right _
    end); congruence.
Defined.

(** A field: an empty string is an empty element, a number is its decimals,
    [Vec] is one element per item, [skip_serializing_if = "Option::is_none"]
    leaves the field out. *)
Definition field (tag s : string) : xml_node := Elem tag [] (if is_empty s then [] else [Txt s]).
Definition opt_field (tag : string) (o : option string) : list xml_node := match o with Some s => [field tag s] | None => [] end.
Definition num_field (tag : string) (n : Z) : xml_node := field tag (print_u64 n).
Definition bool_field (tag : string) (b : bool) : xml_node := field tag (if b then "true" else "false").

Definition S3_XMLNS : string := "http://s3.amazonaws.com/doc/2006-03-01/".
Definition result (tag : string) (kids : list xml_node) : xml_node := Elem tag [("xmlns", S3_XMLNS)] kids.

(** ** Documents *)
Record ErrorDocument := { err_code : string; err_message : string; err_resource : option string; err_request_id : option string; err_host_id : option string }.
Definition error_xml (d : ErrorDocument) : xml_node :=
  Elem "Error" [] ([field "Code" (err_code d); field "Message" (err_message d)] ++ opt_field "Resource" (err_resource d) ++
    opt_field "RequestId" (err_request_id d) ++ opt_field "HostId" (err_host_id d))%list.
Definition s3_error_body (code message : string) (resource request_id host_id : option string) : ErrorDocument :=
  {| err_code := code; err_message := message; err_resource := resource; err_request_id := request_id; err_host_id := host_id |}.

Definition owner_xml (id display_name : string) : xml_node := Elem "Owner" [] [field "ID" id; field "DisplayName" display_name].

Record Bucket := { bk_arn : option string; bk_region : option string; bk_name : string; bk_creation_date : string }.
Definition bucket_xml (b : Bucket) : xml_node :=
  Elem "Bucket" [] (opt_field "BucketArn" (bk_arn b) ++ opt_field "BucketRegion" (bk_region b) ++
    [field "Name" (bk_name b); field "CreationDate" (bk_creation_date b)])%list.
Record ListAllMyBucketsResult := {
  lb_buckets : list Bucket; lb_owner_id : string; lb_owner_name : string; lb_token : option string; lb_prefix : option string }.
Definition list_buckets_xml (d : ListAllMyBucketsResult) : xml_node :=
  result "ListAllMyBucketsResult" ([Elem "Buckets" [] (bucket_xml <$> lb_buckets d); owner_xml (lb_owner_id d) (lb_owner_name d)] ++
    opt_field "ContinuationToken" (lb_token d) ++ opt_field "Prefix" (lb_prefix d))%list.
(** [fmt] is [format_s3_time_system]. *)
Definition list_buckets_body_paginated (fmt : system_time -> string) (owner_id owner_display_name : string) (buckets : list BucketInfo)
    (prefix next_continuation_token : option string) : ListAllMyBucketsResult :=
  {| lb_buckets := (fun b => {| bk_arn := None; bk_region := bi_region b; bk_name := bi_name b; bk_creation_date := fmt (bi_created b) |}) <$> buckets;
     lb_owner_id := owner_id; lb_owner_name := owner_display_name; lb_token := next_continuation_token; lb_prefix := prefix |}.

Definition location_xml (value : option string) : xml_node :=
  result "LocationConstraint" (match value with Some s => if is_empty s then [] else [Txt s] | None => [] end).
Definition get_bucket_location_body (region : string) : option string := if region =s "us-east-1" then None else Some region.

Definition versioning_configuration_empty : xml_node := result "VersioningConfiguration" [].

(** Access lists *)
Record Grantee := { gr_type : string; gr_id : option string; gr_display_name : option string; gr_uri : option string }.
Record Grant := { grantee : Grantee; permission : string }.
Record AccessControlPolicy := { acp_owner_id : string; acp_owner_name : string; acp_grants : list Grant }.
Definition XSI_NS : string := "http://www.w3.org/2001/XMLSchema-instance".
Definition ALL_USERS_URI : string := "http://acs.amazonaws.com/groups/global/AllUsers".
Definition grantee_xml (g : Grantee) : xml_node :=
  Elem "Grantee" [("xmlns:xsi", XSI_NS); ("xsi:type", gr_type g)]
    (opt_field "ID" (gr_id g) ++ opt_field "DisplayName" (gr_display_name g) ++ opt_field "URI" (gr_uri g))%list.
Definition grant_xml (g : Grant) : xml_node := Elem "Grant" [] [grantee_xml (grantee g); field "Permission" (permission g)].
Definition acl_xml (d : AccessControlPolicy) : xml_node :=
  result "AccessControlPolicy" [owner_xml (acp_owner_id d) (acp_owner_name d); Elem "AccessControlList" [] (grant_xml <$> acp_grants d)].
Definition get_acl_body (owner_id owner_display_name : string) (world_readable : bool) : AccessControlPolicy :=
  {| acp_owner_id := owner_id; acp_owner_name := owner_display_name;
     acp_grants :=
       ({| grantee := {| gr_type := "CanonicalUser"; gr_id := Some owner_id; gr_display_name := Some owner_display_name; gr_uri := None |};
           permission := "FULL_CONTROL" |} ::
        if world_readable then
          [{| grantee := {| gr_type := "Group"; gr_id := None; gr_display_name := None; gr_uri := Some ALL_USERS_URI |}; permission := "READ" |}]
        else []) |}.

(** Tags *)
Definition tag_xml (kv : string * string) : xml_node := Elem "Tag" [] [field "Key" (fst kv); field "Value" (snd kv)].
Definition tagging_xml (tags : list (string * string)) : xml_node := result "Tagging" [Elem "TagSet" [] (tag_xml <$> tags)].
Definition get_object_tagging_body `{FormCodec} (tags_urlform : string) : list (string * string) := form_parse tags_urlform.

(** Listings *)
Definition non_empty (o : option string) : option string := match o with Some s => if is_empty s then None else Some s | None => None end.
Definition common_prefix_xml (p : string) : xml_node := Elem "CommonPrefixes" [] [field "Prefix" p].
Definition opt_owner_xml (o : option ListOwnerInfo) : list xml_node :=
  match o with Some w => [owner_xml (owner_id w) (owner_display_name w)] | None => [] end.
Definition contents_v2_xml (o : ListObjectInfo) : xml_node :=
  Elem "Contents" [] ([field "Key" (lo_key o); field "LastModified" (lo_last_modified o); field "ETag" (lo_etag o); num_field "Size" (lo_size o);
    field "StorageClass" "STANDARD"] ++ opt_owner_xml (lo_owner o))%list.
Record ListBucketResultV2 := {
  r2_name : string; r2_prefix : option string; r2_delimiter : option string; r2_key_count : Z; r2_max_keys : Z; r2_is_truncated : bool;
  r2_token : option string; r2_next_token : option string; r2_start_after : option string; r2_encoding_type : option string;
  r2_contents : list ListObjectInfo; r2_common_prefixes : list string }.
(** The handlers pass the prefix, empty or not. *)
Definition list_objects_v2_body (d : list_v2) : ListBucketResultV2 :=
  {| r2_name := v2_bucket d; r2_prefix := non_empty (Some (v2_prefix d)); r2_delimiter := non_empty (v2_delimiter d); r2_key_count := v2_key_count d;
     r2_max_keys := v2_max_keys d; r2_is_truncated := v2_is_truncated d; r2_token := v2_token d; r2_next_token := v2_next_token d;
     r2_start_after := v2_start_after d; r2_encoding_type := non_empty (v2_encoding_type d); r2_contents := v2_contents d;
     r2_common_prefixes := v2_common_prefixes d |}.
Definition list_v2_xml (d : ListBucketResultV2) : xml_node :=
  result "ListBucketResult" ([field "Name" (r2_name d)] ++ opt_field "Prefix" (r2_prefix d) ++ opt_field "Delimiter" (r2_delimiter d) ++
    [num_field "KeyCount" (r2_key_count d); num_field "MaxKeys" (r2_max_keys d); bool_field "IsTruncated" (r2_is_truncated d)] ++
    opt_field "ContinuationToken" (r2_token d) ++ opt_field "NextContinuationToken" (r2_next_token d) ++ opt_field "StartAfter" (r2_start_after d) ++
    opt_field "EncodingType" (r2_encoding_type d) ++ (contents_v2_xml <$> r2_contents d) ++ (common_prefix_xml <$> r2_common_prefixes d))%list.
(** [Contents] of version 1 always carries an [Owner]. *)
Definition owner_v1 (o : ListObjectInfo) : ListOwnerInfo := default {| owner_id := ""; owner_display_name := "" |} (lo_owner o).
Definition contents_v1_xml (o : ListObjectInfo) : xml_node :=
  Elem "Contents" [] [field "Key" (lo_key o); field "LastModified" (lo_last_modified o); field "ETag" (lo_etag o); num_field "Size" (lo_size o);
    field "StorageClass" "STANDARD"; owner_xml (owner_id (owner_v1 o)) (owner_display_name (owner_v1 o))].
Record ListBucketResultV1 := {
  r1_name : string; r1_prefix : string; r1_marker : string; r1_next_marker : option string; r1_delimiter : option string; r1_max_keys : Z;
  r1_is_truncated : bool; r1_encoding_type : option string; r1_contents : list ListObjectInfo; r1_common_prefixes : list string }.
Definition list_objects_v1_body (d : list_v1) : ListBucketResultV1 :=
  {| r1_name := v1_bucket d; r1_prefix := v1_prefix d; r1_marker := v1_marker d; r1_next_marker := v1_next_marker d;
     r1_delimiter := non_empty (v1_delimiter d); r1_max_keys := v1_max_keys d; r1_is_truncated := v1_is_truncated d;
     r1_encoding_type := non_empty (v1_encoding_type d); r1_contents := v1_contents d; r1_common_prefixes := v1_common_prefixes d |}.
Definition list_v1_xml (d : ListBucketResultV1) : xml_node :=
  result "ListBucketResult" ([field "Name" (r1_name d); field "Prefix" (r1_prefix d); field "Marker" (r1_marker d)] ++
    opt_field "NextMarker" (r1_next_marker d) ++ opt_field "Delimiter" (r1_delimiter d) ++
    [num_field "MaxKeys" (r1_max_keys d); bool_field "IsTruncated" (r1_is_truncated d)] ++ opt_field "EncodingType" (r1_encoding_type d) ++
    (contents_v1_xml <$> r1_contents d) ++ (common_prefix_xml <$> r1_common_prefixes d))%list.

(** Sessions and copies *)
Definition create_session_xml (access_key secret_key session_token expiration : string) : xml_node :=
  Elem "CreateSessionResult" [] [Elem "Credentials" []
    [field "AccessKeyId" access_key; field "SecretAccessKey" secret_key; field "SessionToken" session_token; field "Expiration" expiration]].
(** [fmt] is [format_s3_time_system]. *)
Definition create_session_result_body (fmt : system_time -> string) (access_key secret_key session_token : string) (expiration : system_time) : xml_node :=
  create_session_xml access_key secret_key session_token (fmt expiration).
Definition copy_object_xml (last_modified etag : string) : xml_node :=
  result "CopyObjectResult" [field "LastModified" last_modified; field "ETag" etag;
    field "ChecksumCRC32" ""; field "ChecksumCRC32C" ""; field "ChecksumSHA1" ""; field "ChecksumSHA256" ""].
Definition copy_object_result_body (last_modified etag : string) : xml_node := copy_object_xml last_modified etag.
Definition copy_part_xml (last_modified etag : string) : xml_node := result "CopyPartResult" [field "LastModified" last_modified; field "ETag" etag].
Definition copy_part_result_body (last_modified etag : string) : xml_node := copy_part_xml last_modified etag.

(** DeleteObjects *)
Definition deleted_xml (key : string) : xml_node := Elem "Deleted" [] [field "Key" key].
Definition delete_error_xml (e : DeleteErrorInfo) : xml_node :=
  Elem "Error" [] [field "Key" (de_key e); field "Code" (de_code e); field "Message" (de_message e)].
Definition delete_result_xml (deleted : list string) (errors : list DeleteErrorInfo) : xml_node :=
  result "DeleteResult" ((deleted_xml <$> deleted) ++ (delete_error_xml <$> errors))%list.
Definition delete_objects_result_body (deleted_keys : list string) (errors : list DeleteErrorInfo) : xml_node := delete_result_xml deleted_keys errors.

(** Multipart uploads *)
Definition initiate_xml (bucket key upload_id : string) : xml_node :=
  result "InitiateMultipartUploadResult" [field "Bucket" bucket; field "Key" key; field "UploadId" upload_id].
Definition initiate_multipart_upload_result_body (bucket key upload_id : string) : xml_node := initiate_xml bucket key upload_id.
Definition upload_xml (u : upload_info) : xml_node :=
  Elem "Upload" [] [field "Key" (ui_key u); field "UploadId" (ui_upload_id u); field "Initiated" (ui_initiated u)].
Definition list_uploads_xml (bucket : string) (uploads : list upload_info) : xml_node :=
  result "ListMultipartUploadsResult" (field "Bucket" bucket :: (upload_xml <$> uploads)).
Definition list_multipart_uploads_body (bucket : string) (uploads : list upload_info) : xml_node := list_uploads_xml bucket uploads.
Definition part_xml (p : part_info) : xml_node :=
  Elem "Part" [] [num_field "PartNumber" (pi_number p); field "LastModified" (pi_last_modified p); field "ETag" (pi_etag p); num_field "Size" (pi_size p)].
Definition list_parts_xml (bucket key upload_id : string) (parts : list part_info) : xml_node :=
  result "ListPartsResult" ([field "Bucket" bucket; field "Key" key; field "UploadId" upload_id] ++ (part_xml <$> parts))%list.
Definition list_parts_body (bucket key upload_id : string) (parts : list part_info) : xml_node := list_parts_xml bucket key upload_id parts.
Definition complete_xml (location bucket key etag : string) : xml_node :=
  result "CompleteMultipartUploadResult" [field "Location" location; field "Bucket" bucket; field "Key" key; field "ETag" etag].
Definition complete_multipart_upload_result_body (location bucket key etag : string) : xml_node := complete_xml location bucket key etag.

(** ** Reading a document

    What a client finds in a tree: the elements of a name, in order, and the
    text of an element. *)
Definition elems (tag : string) (l : list xml_node) : list (list xml_node) :=
  omap (fun n => match n with Elem t _ c => if t =s tag then Some c else None | Txt _ => None end) l.
Definition text (l : list xml_node) : string := match l with [Txt s] => s | _ => "" end.
Definition get (tag : string) (l : list xml_node) : option string := text <$> head (elems tag l).
Definition get_num (tag : string) (l : list xml_node) : option Z := s ← get tag l; parse_u64_str s.
Definition get_bool (tag : string) (l : list xml_node) : option bool :=
  s ← get tag l; if s =s "true" then Some true else if s =s "false" then Some false else None.

Definition kids (n : xml_node) : list xml_node := match n with Elem _ _ c => c | Txt _ => [] end.

Lemma elems_app tag a b : elems tag (a ++ b)%list = (elems tag a ++ elems tag b)%list.
Proof. unfold elems. by rewrite omap_app. Qed.
Lemma elems_nil tag : elems tag [] = [].
Proof. done. Qed.
Lemma elems_cons tag t a c l : elems tag (Elem t a c :: l) = ((if t =s tag then [c] else []) ++ elems tag l)%list.
Proof. unfold elems. cbn [omap list_omap]. by destruct (t =s tag). Qed.
Definition leaf (s : string) : list xml_node := if is_empty s then [] else [Txt s].
Lemma elems_field tag t s l : elems tag (field t s :: l) = ((if t =s tag then [leaf s] else []) ++ elems tag l)%list.
Proof. apply elems_cons. Qed.
Lemma elems_opt tag t o : elems tag (opt_field t o) = if t =s tag then leaf <$> option_list o else [].
Proof. destruct o; cbn [opt_field]; [rewrite elems_field|]; by destruct (t =s tag). Qed.
Lemma elems_fmap {A} (f : A -> xml_node) tag t l :
  (forall x, f x = Elem t [] (kids (f x))) -> elems tag (f <$> l) = if t =s tag then (fun x => kids (f x)) <$> l else [].
Proof.
  intros Hf. induction l as [|x l IH]; [by destruct (t =s tag)|]. rewrite !fmap_cons, Hf, elems_cons, IH. by destruct (t =s tag).
Qed.
Lemma text_leaf s : text (leaf s) = s.
Proof. by destruct s. Qed.
Lemma head_opt o : text <$> head (leaf <$> option_list o) = o.
Proof. destruct o; cbn; by rewrite ?text_leaf. Qed.
Lemma mapM_fmap {A B C} (f : B -> option C) (g : A -> C) (c : A -> B) l :
  Forall (fun x => f (c x) = Some (g x)) l -> mapM f (c <$> l) = Some (g <$> l).
Proof. induction 1 as [|x l Hx _ IH]; [done|]. rewrite fmap_cons. cbn [mapM]. by rewrite Hx, IH. Qed.

(** ** The documents a client asks for *)
Inductive document :=
| DError (d : ErrorDocument) | DBuckets (d : ListAllMyBucketsResult) | DLocation (region : option string) | DVersioning
| DAcl (d : AccessControlPolicy) | DTagging (tags : list (string * string)) | DListV2 (d : list_v2) | DListV1 (d : list_v1)
| DSession (access_key secret_key session_token expiration : string) | DCopyObject (last_modified etag : string)
| DCopyPart (last_modified etag : string) | DDelete (deleted : list string) (errors : list DeleteErrorInfo)
| DInitiate (bucket key upload_id : string) | DUploads (bucket : string) (uploads : list upload_info)
| DParts (bucket key upload_id : string) (parts : list part_info) | DComplete (location bucket key etag : string).

Definition encode (d : document) : xml_node :=
  match d with
  | DError d => error_xml d | DBuckets d => list_buckets_xml d | DLocation r => location_xml r | DVersioning => versioning_configuration_empty
  | DAcl d => acl_xml d | DTagging t => tagging_xml t | DListV2 d => list_v2_xml (list_objects_v2_body d)
  | DListV1 d => list_v1_xml (list_objects_v1_body d)
  | DSession a s t e => create_session_xml a s t e | DCopyObject m e => copy_object_xml m e | DCopyPart m e => copy_part_xml m e
  | DDelete ks es => delete_result_xml ks es | DInitiate b k u => initiate_xml b k u | DUploads b us => list_uploads_xml b us
  | DParts b k u ps => list_parts_xml b k u ps | DComplete l b k e => complete_xml l b k e
  end.

(** The kinds differ by the request; both listings have one root element. *)
Inductive kind := KError | KBuckets | KLocation | KVersioning | KAcl | KTagging | KListV2 | KListV1 | KSession | KCopyObject | KCopyPart
| KDelete | KInitiate | KUploads | KParts | KComplete.
Definition kind_of (d : document) : kind :=
  match d with
  | DError _ => KError | DBuckets _ => KBuckets | DLocation _ => KLocation | DVersioning => KVersioning | DAcl _ => KAcl
  | DTagging _ => KTagging | DListV2 _ => KListV2 | DListV1 _ => KListV1 | DSession _ _ _ _ => KSession | DCopyObject _ _ => KCopyObject
  | DCopyPart _ _ => KCopyPart | DDelete _ _ => KDelete | DInitiate _ _ _ => KInitiate | DUploads _ _ => KUploads
  | DParts _ _ _ _ => KParts | DComplete _ _ _ _ => KComplete
  end.

(** *** A client's readers *)
Definition root (tag : string) (n : xml_node) : option (list xml_node) :=
  match n with Elem t _ c => if t =s tag then Some c else None | Txt _ => None end.
Definition only_child (tag : string) (l : list xml_node) : option (list xml_node) := head (elems tag l).

Definition read_owner (l : list xml_node) : option (string * string) := i ← get "ID" l; n ← get "DisplayName" l; Some (i, n).
Definition parse_bucket (l : list xml_node) : option Bucket :=
  n ← get "Name" l; c ← get "CreationDate" l;
  Some {| bk_arn := get "BucketArn" l; bk_region := get "BucketRegion" l; bk_name := n; bk_creation_date := c |}.
Definition attr_of (a : string) (attrs : list (string * string)) : option string := snd <$> find (fun kv => fst kv =s a) attrs.
Definition read_grant (l : list xml_node) : option Grant :=
  p ← get "Permission" l;
  match find (fun n => match n with Elem t _ _ => t =s "Grantee" | Txt _ => false end) l with
  | Some (Elem _ attrs c) =>
      ty ← attr_of "xsi:type" attrs;
      Some {| grantee := {| gr_type := ty; gr_id := get "ID" c; gr_display_name := get "DisplayName" c; gr_uri := get "URI" c |}; permission := p |}
  | _ => None
  end.
Definition read_tag (l : list xml_node) : option (string * string) := k ← get "Key" l; v ← get "Value" l; Some (k, v).
Definition read_contents (l : list xml_node) : option ListObjectInfo :=
  k ← get "Key" l; m ← get "LastModified" l; e ← get "ETag" l; n ← get_num "Size" l;
  Some {| lo_key := k; lo_last_modified := m; lo_etag := e; lo_size := n;
          lo_owner := c ← only_child "Owner" l; o ← read_owner c; Some {| owner_id := o.1; owner_display_name := o.2 |} |}.
Definition read_delete_error (l : list xml_node) : option DeleteErrorInfo :=
  k ← get "Key" l; c ← get "Code" l; m ← get "Message" l; Some {| de_key := k; de_code := c; de_message := m |}.
Definition read_upload (l : list xml_node) : option upload_info :=
  k ← get "Key" l; u ← get "UploadId" l; i ← get "Initiated" l; Some {| ui_key := k; ui_upload_id := u; ui_initiated := i |}.
Definition read_part (l : list xml_node) : option part_info :=
  n ← get_num "PartNumber" l; m ← get "LastModified" l; e ← get "ETag" l; s ← get_num "Size" l;
  Some {| pi_number := n; pi_last_modified := m; pi_etag := e; pi_size := s |}.

Definition decode (k : kind) (n : xml_node) : option document :=
  match k with
  | KError => l ← root "Error" n; c ← get "Code" l; m ← get "Message" l;
      Some (DError {| err_code := c; err_message := m; err_resource := get "Resource" l; err_request_id := get "RequestId" l; err_host_id := get "HostId" l |})
  | KBuckets => l ← root "ListAllMyBucketsResult" n; bs ← only_child "Buckets" l; bs ← mapM parse_bucket (elems "Bucket" bs);
      o ← only_child "Owner" l; o ← read_owner o;
      Some (DBuckets {| lb_buckets := bs; lb_owner_id := o.1; lb_owner_name := o.2; lb_token := get "ContinuationToken" l; lb_prefix := get "Prefix" l |})
  | KLocation => l ← root "LocationConstraint" n; Some (DLocation (non_empty (Some (text l))))
  | KVersioning => l ← root "VersioningConfiguration" n; match get "Status" l with None => Some DVersioning | Some _ => None end
  | KAcl => l ← root "AccessControlPolicy" n; o ← only_child "Owner" l; o ← read_owner o; g ← only_child "AccessControlList" l;
      gs ← mapM read_grant (elems "Grant" g); Some (DAcl {| acp_owner_id := o.1; acp_owner_name := o.2; acp_grants := gs |})
  | KTagging => l ← root "Tagging" n; ts ← only_child "TagSet" l; ts ← mapM read_tag (elems "Tag" ts); Some (DTagging ts)
  | KListV2 => l ← root "ListBucketResult" n; b ← get "Name" l; kc ← get_num "KeyCount" l; mk ← get_num "MaxKeys" l; t ← get_bool "IsTruncated" l;
      cs ← mapM read_contents (elems "Contents" l); ps ← mapM (get "Prefix") (elems "CommonPrefixes" l);
      Some (DListV2 {| v2_bucket := b; v2_prefix := default "" (get "Prefix" l); v2_delimiter := get "Delimiter" l; v2_key_count := kc; v2_max_keys := mk;
        v2_is_truncated := t; v2_token := get "ContinuationToken" l; v2_next_token := get "NextContinuationToken" l; v2_start_after := get "StartAfter" l;
        v2_encoding_type := get "EncodingType" l; v2_contents := cs; v2_common_prefixes := ps |})
  | KListV1 => l ← root "ListBucketResult" n; b ← get "Name" l; p ← get "Prefix" l; m ← get "Marker" l; mk ← get_num "MaxKeys" l; t ← get_bool "IsTruncated" l;
      cs ← mapM read_contents (elems "Contents" l); ps ← mapM (get "Prefix") (elems "CommonPrefixes" l);
      Some (DListV1 {| v1_bucket := b; v1_prefix := p; v1_delimiter := get "Delimiter" l; v1_marker := m; v1_next_marker := get "NextMarker" l;
        v1_max_keys := mk; v1_is_truncated := t; v1_encoding_type := get "EncodingType" l; v1_contents := cs; v1_common_prefixes := ps |})
  | KSession => l ← root "CreateSessionResult" n; c ← only_child "Credentials" l;
      a ← get "AccessKeyId" c; s ← get "SecretAccessKey" c; t ← get "SessionToken" c; e ← get "Expiration" c; Some (DSession a s t e)
  | KCopyObject => l ← root "CopyObjectResult" n; m ← get "LastModified" l; e ← get "ETag" l; Some (DCopyObject m e)
  | KCopyPart => l ← root "CopyPartResult" n; m ← get "LastModified" l; e ← get "ETag" l; Some (DCopyPart m e)
  | KDelete => l ← root "DeleteResult" n; ks ← mapM (get "Key") (elems "Deleted" l); es ← mapM read_delete_error (elems "Error" l); Some (DDelete ks es)
  | KInitiate => l ← root "InitiateMultipartUploadResult" n; b ← get "Bucket" l; k ← get "Key" l; u ← get "UploadId" l; Some (DInitiate b k u)
  | KUploads => l ← root "ListMultipartUploadsResult" n; b ← get "Bucket" l; us ← mapM read_upload (elems "Upload" l); Some (DUploads b us)
  | KParts => l ← root "ListPartsResult" n; b ← get "Bucket" l; k ← get "Key" l; u ← get "UploadId" l; ps ← mapM read_part (elems "Part" l); Some (DParts b k u ps)
  | KComplete => l ← root "CompleteMultipartUploadResult" n;
      lo ← get "Location" l; b ← get "Bucket" l; k ← get "Key" l; e ← get "ETag" l; Some (DComplete lo b k e)
  end.

(** *** What survives

    Numbers fit [u64].  An empty delimiter or encoding type is left out, an
    empty region is none, and every entry of a version 1 listing has an owner. *)
Definition with_owner (o : ListObjectInfo) : ListObjectInfo :=
  {| lo_key := lo_key o; lo_last_modified := lo_last_modified o; lo_etag := lo_etag o; lo_size := lo_size o; lo_owner := Some (owner_v1 o) |}.
Definition canonical (d : document) : document :=
  match d with
  | DLocation r => DLocation (non_empty r)
  | DListV2 (Build_list_v2 b p dl kc mk t tk nt sa et cs ps) => DListV2 (Build_list_v2 b p (non_empty dl) kc mk t tk nt sa (non_empty et) cs ps)
  | DListV1 (Build_list_v1 b p dl m nm mk t et cs ps) => DListV1 (Build_list_v1 b p (non_empty dl) m nm mk t (non_empty et) (with_owner <$> cs) ps)
  | _ => d
  end.
Definition doc_numbers (d : document) : Prop :=
  match d with
  | DListV2 l => is_u64 (v2_key_count l) /\ is_u64 (v2_max_keys l) /\ Forall (fun o => is_u64 (lo_size o)) (v2_contents l)
  | DListV1 l => is_u64 (v1_max_keys l) /\ Forall (fun o => is_u64 (lo_size o)) (v1_contents l)
  | DParts _ _ _ ps => Forall (fun p => is_u64 (pi_number p) /\ is_u64 (pi_size p)) ps
  | _ => True
  end.

(** Reading is rewriting with the equations of [elems]. *)
Create Rewrite HintDb xml.
#[export] Hint Rewrite @elems_app elems_nil elems_cons elems_field elems_opt text_leaf app_nil_r : xml.
Ltac eval_tags :=
  repeat match goal with
  | |- context [String.eqb ?a ?b] =>
      let v := eval vm_compute in (String.eqb a b) in
      lazymatch v with true => change (String.eqb a b) with true | false => change (String.eqb a b) with false end
  end; cbn beta iota; cbn [app].
Ltac read_pass :=
  autorewrite with xml; eval_tags; rewrite ?app_nil_r, ?head_opt; cbn [head fmap option_fmap option_map mbind option_bind].
Ltac read_doc := unfold num_field, bool_field, get_num, get_bool, get, only_child, root; repeat (progress read_pass).

(** The repeated elements of the documents *)
Lemma elems_bucket_xml tag l : elems tag (bucket_xml <$> l) = if "Bucket" =s tag then (fun x => kids (bucket_xml x)) <$> l else [].
Proof. by apply elems_fmap. Qed.
Lemma elems_grant_xml tag l : elems tag (grant_xml <$> l) = if "Grant" =s tag then (fun x => kids (grant_xml x)) <$> l else [].
Proof. by apply elems_fmap. Qed.
Lemma elems_tag_xml tag l : elems tag (tag_xml <$> l) = if "Tag" =s tag then (fun x => kids (tag_xml x)) <$> l else [].
Proof. by apply elems_fmap. Qed.
Lemma elems_contents_v2_xml tag l : elems tag (contents_v2_xml <$> l) = if "Contents" =s tag then (fun x => kids (contents_v2_xml x)) <$> l else [].
Proof. by apply elems_fmap. Qed.
Lemma elems_contents_v1_xml tag l : elems tag (contents_v1_xml <$> l) = if "Contents" =s tag then (fun x => kids (contents_v1_xml x)) <$> l else [].
Proof. by apply elems_fmap. Qed.
Lemma elems_common_prefix_xml tag l : elems tag (common_prefix_xml <$> l) = if "CommonPrefixes" =s tag then (fun x => kids (common_prefix_xml x)) <$> l else [].
Proof. by apply elems_fmap. Qed.
Lemma elems_deleted_xml tag l : elems tag (deleted_xml <$> l) = if "Deleted" =s tag then (fun x => kids (deleted_xml x)) <$> l else [].
Proof. by apply elems_fmap. Qed.
Lemma elems_delete_error_xml tag l : elems tag (delete_error_xml <$> l) = if "Error" =s tag then (fun x => kids (delete_error_xml x)) <$> l else [].
Proof. by apply elems_fmap. Qed.
Lemma elems_upload_xml tag l : elems tag (upload_xml <$> l) = if "Upload" =s tag then (fun x => kids (upload_xml x)) <$> l else [].
Proof. by apply elems_fmap. Qed.
Lemma elems_part_xml tag l : elems tag (part_xml <$> l) = if "Part" =s tag then (fun x => kids (part_xml x)) <$> l else [].
Proof. by apply elems_fmap. Qed.
#[export] Hint Rewrite elems_bucket_xml elems_grant_xml elems_tag_xml elems_contents_v2_xml elems_contents_v1_xml elems_common_prefix_xml elems_deleted_xml elems_delete_error_xml elems_upload_xml elems_part_xml : xml.

Ltac open_doc :=
  cbn [decode encode]; unfold error_xml, list_buckets_xml, location_xml, versioning_configuration_empty, acl_xml, tagging_xml, list_v2_xml, list_v1_xml, list_objects_v2_body, list_objects_v1_body,
    create_session_xml, copy_object_xml, copy_part_xml, delete_result_xml, initiate_xml, list_uploads_xml, list_parts_xml, complete_xml, owner_xml, result;
  cbn [err_code err_message err_resource err_request_id err_host_id lb_buckets lb_owner_id lb_owner_name lb_token lb_prefix
    acp_owner_id acp_owner_name acp_grants
    r2_name r2_prefix r2_delimiter r2_key_count r2_max_keys r2_is_truncated r2_token r2_next_token r2_start_after r2_encoding_type r2_contents r2_common_prefixes
    r1_name r1_prefix r1_delimiter r1_marker r1_next_marker r1_max_keys r1_is_truncated r1_encoding_type r1_contents r1_common_prefixes
    v2_bucket v2_prefix v2_delimiter v2_key_count v2_max_keys v2_is_truncated v2_token v2_next_token v2_start_after v2_encoding_type v2_contents v2_common_prefixes
    v1_bucket v1_prefix v1_delimiter v1_marker v1_next_marker v1_max_keys v1_is_truncated v1_encoding_type v1_contents v1_common_prefixes].
Ltac open_item :=
  unfold bucket_xml, grant_xml, tag_xml, common_prefix_xml, contents_v2_xml, contents_v1_xml, deleted_xml, delete_error_xml, upload_xml, part_xml, opt_owner_xml, owner_xml;
  cbn [kids fst snd bk_arn bk_region bk_name bk_creation_date lo_key lo_last_modified lo_etag lo_size lo_owner owner_id owner_display_name
    de_key de_code de_message ui_key ui_upload_id ui_initiated pi_number pi_last_modified pi_etag pi_size].

(** *** Items *)
Lemma read_owner_xml i n : read_owner [field "ID" i; field "DisplayName" n] = Some (i, n).
Proof. unfold read_owner. by read_doc. Qed.
Lemma read_bucket_xml b : parse_bucket (kids (bucket_xml b)) = Some b.
Proof. destruct b. unfold parse_bucket. open_item. by read_doc. Qed.
Lemma read_tag_xml t : read_tag (kids (tag_xml t)) = Some t.
Proof. destruct t. unfold read_tag. open_item. by read_doc. Qed.
Lemma read_grant_xml g : read_grant (kids (grant_xml g)) = Some g.
Proof.
  destruct g as [[ty i n u] p]. unfold read_grant. open_item. cbn [find grantee permission grantee_xml]. read_doc.
  unfold grantee_xml, attr_of. cbn [find fst snd]. eval_tags. cbn [find fst snd fmap option_fmap option_map gr_type gr_id gr_display_name gr_uri].
  eval_tags. by read_doc.
Qed.
Lemma read_contents_v2_xml o : is_u64 (lo_size o) -> read_contents (kids (contents_v2_xml o)) = Some o.
Proof.
  destruct o as [k m e n [[i d]|]]; intros Hn; unfold read_contents; open_item; read_doc; rewrite parse_print_u64 by done; cbn [mbind option_bind];
    rewrite ?read_owner_xml; done.
Qed.
Lemma read_contents_v1_xml o : is_u64 (lo_size o) -> read_contents (kids (contents_v1_xml o)) = Some (with_owner o).
Proof.
  destruct o as [k m e n [[i d]|]]; intros Hn; unfold read_contents; open_item; read_doc; rewrite parse_print_u64 by done; cbn [mbind option_bind];
    by rewrite read_owner_xml.
Qed.
Lemma read_prefix_xml p : get "Prefix" (kids (common_prefix_xml p)) = Some p.
Proof. open_item. by read_doc. Qed.
Lemma read_deleted_xml k : get "Key" (kids (deleted_xml k)) = Some k.
Proof. open_item. by read_doc. Qed.
Lemma read_delete_error_xml e : read_delete_error (kids (delete_error_xml e)) = Some e.
Proof. destruct e. unfold read_delete_error. open_item. by read_doc. Qed.
Lemma read_upload_xml u : read_upload (kids (upload_xml u)) = Some u.
Proof. destruct u. unfold read_upload. open_item. by read_doc. Qed.
Lemma read_part_xml p : is_u64 (pi_number p) /\ is_u64 (pi_size p) -> read_part (kids (part_xml p)) = Some p.
Proof.
  destruct p; intros [Hn Hs]; unfold read_part; open_item; read_doc. rewrite !parse_print_u64 by done. done.
Qed.
Lemma mapM_items {A} (read : list xml_node -> option A) (f : A -> xml_node) l :
  Forall (fun x => read (kids (f x)) = Some x) l -> mapM read ((fun x => kids (f x)) <$> l) = Some l.
Proof. intros H. rewrite (mapM_fmap _ id) by exact H. by rewrite list_fmap_id. Qed.
Lemma mapM_all {A} (read : list xml_node -> option A) (f : A -> xml_node) l :
  (forall x, read (kids (f x)) = Some x) -> mapM read ((fun x => kids (f x)) <$> l) = Some l.
Proof. intros H. apply mapM_items, Forall_true, H. Qed.
Lemma mapM_prefixes l : mapM (fun l => text <$> head (elems "Prefix" l)) ((fun x => kids (common_prefix_xml x)) <$> l) = Some l.
Proof. apply (mapM_all (get "Prefix")), read_prefix_xml. Qed.
Lemma mapM_deleted l : mapM (fun l => text <$> head (elems "Key" l)) ((fun x => kids (deleted_xml x)) <$> l) = Some l.
Proof. apply (mapM_all (get "Key")), read_deleted_xml. Qed.
Lemma mapM_contents_v2 l :
  Forall (fun o => is_u64 (lo_size o)) l -> mapM read_contents ((fun x => kids (contents_v2_xml x)) <$> l) = Some l.
Proof. intros H. apply mapM_items. by eapply Forall_impl, read_contents_v2_xml. Qed.
Lemma mapM_contents_v1 l :
  Forall (fun o => is_u64 (lo_size o)) l -> mapM read_contents ((fun x => kids (contents_v1_xml x)) <$> l) = Some (with_owner <$> l).
Proof. intros H. apply mapM_fmap. by eapply Forall_impl, read_contents_v1_xml. Qed.
Lemma mapM_parts l :
  Forall (fun p => is_u64 (pi_number p) /\ is_u64 (pi_size p)) l -> mapM read_part ((fun x => kids (part_xml x)) <$> l) = Some l.
Proof. intros H. apply mapM_items. by eapply Forall_impl, read_part_xml. Qed.
Lemma read_region r : non_empty (Some (text (match r with Some s => if is_empty s then [] else [Txt s] | None => [] end))) = non_empty r.
Proof. by destruct r as [[]|]. Qed.

Lemma read_bool (b : bool) : (if (if b then "true" else "false") =s "true" then Some true
  else if (if b then "true" else "false") =s "false" then Some false else None) = Some b.
Proof. by destruct b. Qed.
Lemma read_prefix p : default "" (non_empty (Some p)) = p.
Proof. by destruct p. Qed.

Lemma documents_read d : doc_numbers d -> decode (kind_of d) (encode d) = Some (canonical d).
Proof.
  destruct d as [[]|[]|r| |[]|t|[]|[]|a s t e|m e|m e|ks es|b k u|b us|b k u ps|l b k e];
    cbn [kind_of doc_numbers canonical]; intros Hn; open_doc; read_doc; try done.
  - rewrite (mapM_all parse_bucket) by apply read_bucket_xml. cbn [mbind option_bind]. by rewrite read_owner_xml.
  - by rewrite read_region.
  - rewrite read_owner_xml, (mapM_all read_grant) by apply read_grant_xml. done.
  - by rewrite (mapM_all read_tag) by apply read_tag_xml.
  - destruct Hn as (? & ? & ?). by rewrite !parse_print_u64, read_bool, mapM_contents_v2, mapM_prefixes, read_prefix by done.
  - destruct Hn as (? & ?). by rewrite parse_print_u64, read_bool, mapM_contents_v1, mapM_prefixes by done.
  - by rewrite mapM_deleted, (mapM_all read_delete_error) by apply read_delete_error_xml.
  - by rewrite (mapM_all read_upload) by apply read_upload_xml.
  - by rewrite mapM_parts.
Qed.

(** Round trip of the response documents: a client that reads the
    tree of any document finds the document again, with its empty delimiter,
    encoding type and region left out and an owner in every entry of a
    version 1 listing. *)
Theorem documents_roundtrip d : doc_numbers d -> decode (kind_of d) (encode d) = Some (canonical d).
Proof. apply documents_read. Qed.
