(* ===== verification/XmlText.v ===== *)
(** * s32p-support/src/s3xml.rs: documents as text

    [quick_xml] turns the trees of XmlDocs into text and a client's reader
    turns text into trees; neither is part of the program.  XML carries a tree
    unchanged only when the tree is tidy (names are names, no text is empty or
    next to another text) and legible (no control characters, which XML does
    not allow or normalises).  Every response document is tidy.  The writer
    and the reader below show that such a pair exists for all tidy trees. *)

From Stdlib Require Import ZArith Lia Ascii.
From stdpp Require Import base list strings numbers option.
From S2P Require Import Prelude RustStr Http Utils S3Xml S3Resp Objects Listing Multipart ListBuckets XmlDocs.

Local Open Scope s3_scope.
Local Open Scope string_scope.

(** ** Trees that XML carries *)
Definition name_char (c : ascii) : bool := is_ascii_alphanumeric c || is_one_of ":_-." c.
Definition xml_name (s : string) : bool := negb (is_empty s) && all_bytes name_char s.
Definition is_text (n : xml_node) : bool := match n with Txt _ => true | Elem _ _ _ => false end.
Fixpoint spaced (l : list xml_node) : bool :=
  match l with
  | [] => true
  | n :: l => negb (is_text n && match l with m :: _ => is_text m | [] => false end) && spaced l
  end.
Fixpoint tidy (n : xml_node) : bool :=
  match n with
  | Txt s => negb (is_empty s)
  | Elem t attrs kids => xml_name t && forallb (fun kv => xml_name (fst kv)) attrs && spaced kids && forallb tidy kids
  end.

(** Characters that are not control characters; a byte above 127 is part of one that is not ASCII. *)
Definition legible_char (c : ascii) : bool := (32 <=? byte_val c)%Z && negb (byte_val c =? 127)%Z.
Fixpoint legible (n : xml_node) : bool :=
  match n with
  | Txt s => all_bytes legible_char s
  | Elem _ attrs kids => forallb (fun kv => all_bytes legible_char (snd kv)) attrs && forallb legible kids
  end.

(** An induction principle that reaches the children *)
Lemma xml_node_rect' (P : xml_node -> Prop) :
  (forall s, P (Txt s)) -> (forall t a l, Forall P l -> P (Elem t a l)) -> forall n, P n.
Proof.
  intros Ht He. fix IH 1. intros [t a l|s]; [|apply Ht]. apply He. induction l as [|n l IHl]; constructor; [apply IH|exact IHl].
Qed.

(** ** Documents are tidy *)
Lemma spaced_elements l : forallb (fun n => negb (is_text n)) l = true -> spaced l = true.
Proof. induction l as [|[] l IH]; cbn; [done|exact IH|done]. Qed.
(** A list of elements, each tidy *)
Definition tidy_elements (l : list xml_node) : bool := forallb (fun n => negb (is_text n) && tidy n) l.
Lemma tidy_elem t a l : xml_name t = true -> forallb (fun kv => xml_name (fst kv)) a = true -> tidy_elements l = true -> tidy (Elem t a l) = true.
Proof.
  intros Ht Ha Hl. cbn [tidy]. rewrite Ht, Ha. cbn [andb].
  assert (forallb (fun n => negb (is_text n)) l = true /\ forallb tidy l = true) as [H1 H2].
  { unfold tidy_elements in Hl. clear Ht Ha. induction l as [|n l IH]; [done|]. cbn in *.
    apply andb_true_iff in Hl as [[Hn Ht]%andb_true_iff Hl]. destruct (IH Hl) as [IH1 IH2]. by rewrite Hn, Ht, IH1, IH2. }
  by rewrite spaced_elements, H2.
Qed.
Lemma tidy_elements_app a b : tidy_elements (a ++ b)%list = tidy_elements a && tidy_elements b.
Proof. apply forallb_app. Qed.
Lemma tidy_elements_cons t a l m : tidy (Elem t a l) = true -> tidy_elements m = true -> tidy_elements (Elem t a l :: m) = true.
Proof. unfold tidy_elements. intros H1 H2. cbn [forallb is_text negb andb]. by rewrite H1, H2. Qed.
Lemma tidy_elements_map {A} (f : A -> xml_node) l : (forall x, tidy_elements [f x] = true) -> tidy_elements (f <$> l) = true.
Proof.
  intros Hf. induction l as [|x l IH]; [done|]. rewrite fmap_cons. change (f x :: (f <$> l)) with ([f x] ++ (f <$> l))%list.
  by rewrite tidy_elements_app, Hf, IH.
Qed.
Lemma tidy_field t s l : xml_name t = true -> tidy_elements l = true -> tidy_elements (field t s :: l) = true.
Proof. intros Ht Hl. apply tidy_elements_cons; [|done]. cbn [tidy]. rewrite Ht. destruct s; done. Qed.
Lemma tidy_opt t o : xml_name t = true -> tidy_elements (opt_field t o) = true.
Proof. intros Ht. destruct o; [by apply tidy_field|done]. Qed.

Ltac tidy_up :=
  repeat match goal with
  | |- xml_name _ = true => reflexivity
  | |- forallb _ _ = true => reflexivity
  | |- tidy_elements [] = true => reflexivity
  | |- tidy_elements (field _ _ :: _) = true => apply tidy_field
  | |- tidy_elements (opt_field _ _) = true => apply tidy_opt
  | |- tidy_elements (_ <$> _) = true => apply tidy_elements_map; intros ?
  | |- tidy_elements (_ ++ _)%list = true => rewrite tidy_elements_app; apply andb_true_iff; split
  | |- tidy_elements (Elem _ _ _ :: _) = true => apply tidy_elements_cons
  | |- tidy (Elem _ _ _) = true => apply tidy_elem
  end.
Create HintDb xml_trees.
#[local] Hint Unfold error_xml list_buckets_xml result owner_xml bucket_xml acl_xml grant_xml grantee_xml tagging_xml tag_xml list_v2_xml list_v1_xml
  num_field bool_field contents_v2_xml contents_v1_xml common_prefix_xml create_session_xml copy_object_xml copy_part_xml delete_result_xml deleted_xml
  delete_error_xml initiate_xml list_uploads_xml upload_xml list_parts_xml part_xml complete_xml : xml_trees.
Lemma tidy_owner o : tidy_elements (opt_owner_xml o) = true.
Proof. destruct o; [|done]. unfold opt_owner_xml. autounfold with xml_trees. tidy_up. Qed.
Lemma encode_tidy d : tidy (encode d) = true.
Proof.
  destruct d; cbn [encode]; autounfold with xml_trees; tidy_up; auto using tidy_owner.
  unfold location_xml, result. by destruct region as [[|]|].
Qed.

(** ** A writer *)
Definition escape_char (c : ascii) : string :=
  if (c =? "&")%char then "&amp;" else if (c =? "<")%char then "&lt;" else if (c =? ">")%char then "&gt;"
  else if (c =? "034")%char then "&quot;" else String c "".
Fixpoint escape (s : string) : string := match s with "" => "" | String c s => escape_char c +:+ escape s end.
Fixpoint write_attrs (a : list (string * string)) : string :=
  match a with [] => "" | (k, v) :: a => " " +:+ k +:+ "=" +:+ quote +:+ escape v +:+ quote +:+ write_attrs a end.
Definition tagged (s : string) : string := "<" +:+ s +:+ ">".
Fixpoint write (n : xml_node) : string :=
  match n with
  | Txt s => escape s
  | Elem t a [] => tagged (t +:+ write_attrs a +:+ "/")
  | Elem t a l => tagged (t +:+ write_attrs a) +:+ foldr (fun n s => write n +:+ s) "" l +:+ tagged ("/" +:+ t)
  end.

(** ** A reader

    The text is cut at the angle brackets; a tag is cut at the quotes. *)
Definition entity (e : string) : option ascii :=
  if e =s "amp" then Some "&"%char else if e =s "lt" then Some "<"%char else if e =s "gt" then Some ">"%char
  else if e =s "quot" then Some "034"%char else None.
Fixpoint unescape_text (ent : option string) (s : string) : option string :=
  match s, ent with
  | "", None => Some ""
  | "", Some _ => None
  | String c s, None => if (c =? "&")%char then unescape_text (Some "") s else String c <$> unescape_text None s
  | String c s, Some e => if (c =? ";")%char then x ← entity e; String x <$> unescape_text None s else unescape_text (Some (e +:+ String c "")) s
  end.
Inductive piece := Mark (s : string) | Chars (s : string).
Definition chars (acc : string) : list piece := if is_empty acc then [] else [Chars acc].
(** [inside]: after a [<] that is not closed yet *)
Fixpoint pieces (inside : bool) (acc s : string) : list piece :=
  match s with
  | "" => if inside then [] else chars acc
  | String c s =>
      if inside then if (c =? ">")%char then Mark acc :: pieces false "" s else pieces true (acc +:+ String c "") s
      else if (c =? "<")%char then (chars acc ++ pieces true "" s)%list else pieces false (acc +:+ String c "") s
  end.
(** The text before the first [c] and after it *)
Fixpoint cut (c : ascii) (s : string) : option (string * string) :=
  match s with
  | "" => None
  | String x s => if (x =? c)%char then Some ("", s) else '(a, b) ← cut c s; Some (String x a, b)
  end.
(** The attributes, after the name of the element or the value before: [fuel] is the length of the text *)
Fixpoint read_attrs (fuel : nat) (s : string) : option (list (string * string) * string) :=
  match fuel, s with
  | S fuel, String " " s =>
      '(k, s) ← cut "=" s; '(_, s) ← cut "034" s; '(v, s) ← cut "034" s;
      v ← unescape_text None v; '(a, s) ← read_attrs fuel s; Some ((k, v) :: a, s)
  | _, _ => Some ([], s)
  end.
Fixpoint read_name (s : string) : string * string :=
  match s with "" => ("", "") | String c r => if name_char c then let '(n, r) := read_name r in (String c n, r) else ("", s) end.
Definition read_open (s : string) : option (string * list (string * string) * bool) :=
  let '(t, s) := read_name s in '(a, s) ← read_attrs (String.length s) s; Some (t, a, s =s "/").

(** Open elements, innermost first, with the children before them reversed *)
Abbreviation frame := (string * list (string * string) * list xml_node)%type.
Definition end_tag (s : string) : option string := match s with String c t => if (c =? "/")%char then Some t else None | "" => None end.
Fixpoint build (ps : list piece) (stack : list frame) (done : list xml_node) : option xml_node :=
  match ps with
  | [] => match stack, done with [], [n] => Some n | _, _ => None end
  | Chars s :: ps => s ← unescape_text None s; build ps stack (Txt s :: done)
  | Mark s :: ps =>
      match end_tag s, stack with
      | Some t, (t', a, before) :: stack => if t =s t' then build ps stack (Elem t' a (rev done) :: before) else None
      | Some _, [] => None
      | None, _ =>
          '(t, a, empty) ← read_open s;
          if empty : bool then build ps stack (Elem t a [] :: done) else build ps ((t, a, done) :: stack) []
      end
  end.
Definition read (s : string) : option xml_node := build (pieces false "" s) [] [].

(** ** What is written is read *)
Lemma text_unescaped s r : unescape_text None (escape s +:+ r) = (fun x => s +:+ x) <$> unescape_text None r.
Proof.
  induction s as [|c s IH]; cbn [escape]; [cbn; by destruct (unescape_text None r)|]. rewrite str_app_assoc.
  assert (forall x, unescape_text None (escape_char c +:+ x) = String c <$> unescape_text None x) as Hc.
  { intros x. by destruct c as [[] [] [] [] [] [] [] []]. }
  rewrite Hc, IH. by destruct (unescape_text None r).
Qed.
Definition unmarked (c : ascii) : bool := negb (is_one_of "<>" c).
Definition unquoted (c : ascii) : bool := unmarked c && negb (c =? "034")%char.
Lemma escape_unquoted s : all_bytes unquoted (escape s) = true.
Proof.
  induction s as [|c s IH]; [done|]. cbn [escape]. rewrite all_bytes_app, IH, andb_true_r. unfold escape_char.
  destruct c as [[] [] [] [] [] [] [] []]; reflexivity.
Qed.
Lemma name_unquoted c : name_char c = true -> unquoted c && negb (c =? "=")%char = true.
Proof. destruct c as [[] [] [] [] [] [] [] []]; vm_compute; congruence. Qed.

Lemma unmarked_neq c : unmarked c = true -> (c =? "<")%char = false /\ (c =? ">")%char = false.
Proof. by destruct c as [[] [] [] [] [] [] [] []]. Qed.
Lemma pieces_chars acc t r : all_bytes unmarked t = true -> pieces false acc (t +:+ r) = pieces false (acc +:+ t) r.
Proof.
  revert acc. induction t as [|c t IH]; intros acc Ht; cbn; [by rewrite str_app_nil_r|]. cbn in Ht. apply andb_true_iff in Ht as [Hc Ht].
  rewrite (proj1 (unmarked_neq c Hc)), IH by done. by rewrite str_app_assoc.
Qed.
Lemma pieces_mark acc m r : all_bytes unmarked m = true -> pieces true acc (m +:+ String ">" r) = Mark (acc +:+ m) :: pieces false "" r.
Proof.
  revert acc. induction m as [|c m IH]; intros acc Hm; cbn; [by rewrite str_app_nil_r|]. cbn in Hm. apply andb_true_iff in Hm as [Hc Hm].
  rewrite (proj2 (unmarked_neq c Hc)), IH by done. by rewrite str_app_assoc.
Qed.

Lemma cut_at c a b : all_bytes (fun x => negb (x =? c)%char) a = true -> cut c (a +:+ String c b) = Some (a, b).
Proof.
  induction a as [|x a IH]; cbn; [by rewrite Ascii.eqb_refl|]. intros [Hx Ha]%andb_true_iff. by destruct (x =? c)%char; [|rewrite IH].
Qed.
Lemma all_names p t : (forall c, name_char c = true -> p c = true) -> xml_name t = true -> all_bytes p t = true.
Proof. intros Hp [_ Ht]%andb_true_iff. by eapply all_bytes_impl. Qed.
Lemma write_attrs_unmarked a : forallb (fun kv => xml_name (fst kv)) a = true -> all_bytes unmarked (write_attrs a) = true.
Proof.
  induction a as [|[k v] a IH]; [done|]. cbn [forallb write_attrs fst]. intros [Hk Ha]%andb_true_iff. rewrite !all_bytes_app, IH by done.
  rewrite (all_names unmarked k), (all_bytes_impl unquoted unmarked (escape v)) by
    (done || apply escape_unquoted || by intros c [[? _]%andb_true_iff _]%name_unquoted%andb_true_iff || by intros c [? _]%andb_true_iff). done.
Qed.
Lemma attrs_length a : (length a <= String.length (write_attrs a))%nat.
Proof. induction a as [|[k v] a IH]; [done|]. cbn [write_attrs]. rewrite !str_length_app. cbn. lia. Qed.
Lemma read_attrs_written a tl fuel :
  forallb (fun kv => xml_name (fst kv)) a = true -> tl = "" \/ tl = "/" -> (length a <= fuel)%nat -> read_attrs fuel (write_attrs a +:+ tl) = Some (a, tl).
Proof.
  intros Ha Ht. revert fuel. induction a as [|[k v] a IH]; intros fuel Hf; [destruct Ht as [-> | ->]; by destruct fuel|].
  destruct fuel as [|fuel]; [cbn in Hf; lia|]. cbn [forallb fst] in Ha. apply andb_true_iff in Ha as [Hk Ha]. cbn [write_attrs]. rewrite !str_app_assoc.
  cbn [String.append read_attrs]. rewrite cut_at by (apply all_names; [|done]; by intros c [_ ?]%name_unquoted%andb_true_iff).
  cbn [mbind option_bind quote String.append cut]. change ("034" =? "034")%char with true. cbn iota. cbn [mbind option_bind].
  rewrite cut_at by (eapply all_bytes_impl; [|apply escape_unquoted]; by intros c [_ ?]%andb_true_iff). cbn [mbind option_bind].
  rewrite <- (str_app_nil_r (escape v)), text_unescaped. cbn [unescape_text fmap option_fmap option_map mbind option_bind].
  rewrite str_app_nil_r, IH by (done || (cbn in Hf; lia)). done.
Qed.
Lemma read_name_written t r : xml_name t = true -> match r with "" => True | String c _ => name_char c = false end -> read_name (t +:+ r) = (t, r).
Proof.
  intros [_ Ht]%andb_true_iff Hr. induction t as [|c t IH]; cbn in *; [destruct r; [done|]; cbn; by rewrite Hr|].
  apply andb_true_iff in Ht as [-> Ht]. by rewrite IH.
Qed.
Lemma read_open_written t a tl :
  xml_name t = true -> forallb (fun kv => xml_name (fst kv)) a = true -> tl = "" \/ tl = "/" ->
  read_open (t +:+ write_attrs a +:+ tl) = Some (t, a, tl =s "/") /\ end_tag (t +:+ write_attrs a +:+ tl) = None.
Proof.
  intros Ht Ha Htl. split.
  - unfold read_open. rewrite read_name_written by (done || (destruct a as [|[] ?], Htl as [-> | ->]; done)). cbv zeta.
    rewrite read_attrs_written; [done..|]. rewrite str_length_app. pose proof (attrs_length a). lia.
  - unfold xml_name in Ht. destruct t as [|c t]; [done|]. cbn in *. apply andb_true_iff in Ht as [Hc _].
    destruct (c =? "/")%char eqn:E; [|done]. apply chr_eqb_true in E as ->. done.
Qed.

(** The pieces of a tree *)
Fixpoint marks (n : xml_node) : list piece :=
  match n with
  | Txt s => [Chars (escape s)]
  | Elem t a [] => [Mark (t +:+ write_attrs a +:+ "/")]
  | Elem t a l => (Mark (t +:+ write_attrs a) :: concat (marks <$> l) ++ [Mark ("/" +:+ t)])%list
  end.
Lemma build_marks n : tidy n = true -> forall ps stack done, build (marks n ++ ps)%list stack done = build ps stack (n :: done).
Proof.
  induction n as [s|t a l IH] using xml_node_rect'; intros Hn ps stack done.
  - cbn [marks app build]. rewrite <- (str_app_nil_r (escape s)), text_unescaped. cbn [unescape_text fmap option_fmap option_map mbind option_bind]. by rewrite str_app_nil_r.
  - cbn [tidy] in Hn. apply andb_true_iff in Hn as [[[Ht Ha]%andb_true_iff _]%andb_true_iff Hl].
    assert (forall ps stack done, build (concat (marks <$> l) ++ ps)%list stack done = build ps stack (rev l ++ done)%list) as Hall.
    { clear Ht Ha. induction IH as [|n l Hn _ IHl]; intros ps0 st d; [done|]. cbn [forallb] in Hl. apply andb_true_iff in Hl as [H1 H2].
      rewrite fmap_cons. cbn [concat rev]. rewrite <- !app_assoc, Hn by done. rewrite IHl by done. done. }
    destruct l as [|n l].
    + cbn [marks app build]. destruct (read_open_written t a "/") as [-> ->]; auto.
    + set (kids := n :: l) in *. replace (marks (Elem t a kids)) with (Mark (t +:+ write_attrs a +:+ "") :: concat (marks <$> kids) ++ [Mark ("/" +:+ t)])%list
        by (by rewrite str_app_nil_r).
      cbn [app build]. destruct (read_open_written t a "") as [-> ->]; auto. change ("" =s "/") with false. cbn [mbind option_bind].
      rewrite <- app_assoc, Hall. cbn [app build end_tag String.append]. change ("/" =? "/")%char with true. cbn iota.
      rewrite (String.eqb_refl t), app_nil_r. by rewrite rev_involutive.
Qed.
Lemma pieces_text_first s r : tidy (Txt s) = true -> (exists x, r = String "<" x) -> pieces false "" (escape s +:+ r) = Chars (escape s) :: pieces false "" r.
Proof.
  intros Hs [x ->]. rewrite pieces_chars by (eapply all_bytes_impl; [|apply escape_unquoted]; by intros c [? _]%andb_true_iff).
  cbn [pieces String.append]. change ("<" =? "<")%char with true. cbn iota. cbn [chars is_empty app]. unfold chars.
  destruct s as [|c s]; [done|]. cbn [escape]. by destruct c as [[] [] [] [] [] [] [] []].
Qed.
Lemma pieces_marks n r : tidy n = true -> is_text n = false -> pieces false "" (write n +:+ r) = (marks n ++ pieces false "" r)%list.
Proof.
  revert r. induction n as [s|t a l IH] using xml_node_rect'; intros r Hn Hx; [done|].
  cbn [tidy] in Hn. apply andb_true_iff in Hn as [[[Ht Ha]%andb_true_iff Hs]%andb_true_iff Hl].
  assert (all_bytes unmarked t = true) as Hut by (apply all_names; [|done]; by intros c [[? _]%andb_true_iff _]%name_unquoted%andb_true_iff).
  pose proof (write_attrs_unmarked a Ha) as Hua.
  assert (forall m r, all_bytes unmarked m = true -> pieces false "" (tagged m +:+ r) = Mark m :: pieces false "" r) as Hm.
  { intros m r0 H0. unfold tagged. rewrite !str_app_assoc. cbn [String.append pieces]. change ("<" =? "<")%char with true. cbn [chars is_empty app].
    by rewrite pieces_mark. }
  assert (forall r, pieces false "" (foldr (fun n s => write n +:+ s) "" l +:+ String "<" r) = (concat (marks <$> l) ++ pieces false "" (String "<" r))%list) as Hall.
  { clear Ht Ha Hut Hua Hm Hx. induction IH as [|n l Hn _ IHl]; intros r0; [done|]. cbn [forallb spaced] in Hl, Hs.
    apply andb_true_iff in Hl as [H1 H2], Hs as [H3 H4]. rewrite fmap_cons. cbn [foldr concat]. rewrite str_app_assoc, <- app_assoc, <- IHl by done.
    destruct n as [t' a' l'|s]; [by apply Hn|]. apply pieces_text_first; [done|]. cbn [is_text andb] in H3.
    destruct l as [|[t' a' [|k l']|s'] l]; [by eexists| | |done]; cbn [foldr write]; unfold tagged; rewrite !str_app_assoc; by eexists. }
  destruct l as [|n l]; cbn [write marks].
  - rewrite Hm; [done|]. by rewrite !all_bytes_app, Hut, Hua.
  - set (kids := n :: l) in *. rewrite !str_app_assoc, Hm by (by rewrite all_bytes_app, Hut, Hua). cbn [app]. f_equal. rewrite <- app_assoc.
    cbn [app]. rewrite <- (Hm ("/" +:+ t)) by done. apply Hall.
Qed.

(** Every tidy element is read back from what is written of it. *)
Theorem write_read n : tidy n = true -> is_text n = false -> read (write n) = Some n.
Proof.
  intros Hn Hx. unfold read. rewrite <- (str_app_nil_r (write n)), pieces_marks by done. cbn [pieces chars is_empty].
  rewrite build_marks by done. done.
Qed.
