(* ===== verification/XmlEcho.v ===== *)
(** * s32p-support/src/s3xml.rs: documents sent back

    A client that reads an access list or a tag set and sends it back reaches
    the parsers of S3Xml with the events of the tree that was written: an
    element without content is one [Empty] event, which the parsers do not
    look at, and a text is the runs and references the reader splits it
    into. *)

From Stdlib Require Import ZArith Lia Ascii.
From stdpp Require Import base list strings numbers option.
From S2P Require Import Prelude RustStr Http S3Xml XmlDocs.

Local Open Scope s3_scope.
Local Open Scope string_scope.

(** Text without markup and without spaces at its ends *)
Definition plain_text (s : string) : bool :=
  negb (is_empty s) && all_bytes (fun c => in_range 32 126 c && negb (is_one_of "<>&'" c) && negb (byte_val c =? 34)%Z) s && (trim s =s s).

(** What the [quick-xml] reader reports for the content [s] of an element:
    text and references only, and plain text as it is. *)
Class XmlReader := {
  text_events : string -> list xml_event;
  text_events_pieces s : Forall (fun e => match e with XText (Ok _) | XRef _ => True | _ => False end) (text_events s);
  text_events_plain s : plain_text s = true -> text_events s = [XText (Ok s)];
}.

Section Echo.
Context `{XmlReader}.

Fixpoint node_events (n : xml_node) : list xml_event :=
  match n with
  | Txt s => text_events s
  | Elem _ _ [] => [XOther]
  | Elem t _ c => (XStart t :: concat (map node_events c) ++ [XEnd t])%list
  end.

(** ** Tag sets *)
Definition plain_tag (kv : string * string) : Prop := plain_text (fst kv) = true /\ (snd kv = "" \/ plain_text (snd kv) = true).

Lemma field_events t s : node_events (field t s) =
  if is_empty s then [XOther] else (XStart t :: text_events s ++ [XEnd t])%list.
Proof. unfold field. destruct (is_empty s); cbn; [done|]. by rewrite app_nil_r. Qed.
Lemma plain_nonempty s : plain_text s = true -> is_empty s = false.
Proof. unfold plain_text. by destruct (is_empty s). Qed.

Lemma tag_events kv k0 v0 ps : plain_tag kv ->
  run_events tag_event (Build_tag_state false false k0 v0 ps) (node_events (tag_xml kv)) = Ok (Build_tag_state false false None None (ps ++ [kv])%list).
Proof.
  destruct kv as [k v]. intros [Hk Hv]. cbn [fst snd] in Hk, Hv. unfold tag_xml. cbn [node_events map concat fst snd].
  rewrite !field_events, (plain_nonempty k Hk), (text_events_plain k Hk).
  destruct Hv as [->|Hv]; [reflexivity|]. rewrite (plain_nonempty v Hv), (text_events_plain v Hv). reflexivity.
Qed.

Lemma tags_events tags ps : Forall plain_tag tags -> exists k v,
  run_events tag_event (Build_tag_state false false None None ps) (concat (map node_events (tag_xml <$> tags))) =
  Ok (Build_tag_state false false k v (ps ++ tags)%list).
Proof.
  intros Hf. revert ps. induction Hf as [|kv tags Hkv _ IH]; intros ps; [exists None, None; by rewrite app_nil_r|].
  rewrite fmap_cons. cbn [map concat]. rewrite run_events_app, tag_events by done. cbn [mbind res_bind].
  destruct (IH (ps ++ [kv])%list) as (k & v & ->). exists k, v. by rewrite <- app_assoc.
Qed.

(** ** Access lists *)
Definition outside (st : acl_state) : Prop := acl_in_uri st = false /\ acl_in_permission st = false.
Lemma acl_pieces st es : outside st -> Forall (fun e => match e with XText (Ok _) | XRef _ => True | _ => False end) es ->
  run_events acl_event st es = Ok st.
Proof.
  intros Ho Hf. induction Hf as [|e es He _ IH]; [done|]. cbn [run_events].
  destruct e as [| |[s| |]| | |]; try done; cbn [acl_event mbind res_bind].
  destruct st as [g u p cu cp w], Ho as [Hu Hp]. cbn in Hu, Hp. subst. exact IH.
Qed.
(** An element the parser does not know *)
Lemma acl_unknown st t s : outside st -> (forall st, acl_start st (local_name t) = st) -> (forall st, acl_end st (local_name t) = st) ->
  run_events acl_event st (node_events (field t s)) = Ok st.
Proof.
  intros Ho Hs He. rewrite field_events. destruct (is_empty s); [done|]. cbn [run_events acl_event mbind res_bind].
  rewrite Hs, run_events_app, acl_pieces by (done || apply text_events_pieces). cbn [mbind res_bind run_events acl_event]. by rewrite He.
Qed.
Lemma acl_start_other st t : existsb (fun n => t =s n) ["Grantee"; "URI"; "Grant"; "Permission"] = false -> acl_start st t = st.
Proof.
  destruct st as [[] ? ? ? ? ?]; cbn; by destruct (t =s "Grantee"), (t =s "URI"), (t =s "Grant"), (t =s "Permission").
Qed.
Lemma acl_end_other st t : existsb (fun n => t =s n) ["Grantee"; "URI"; "Grant"; "Permission"] = false -> acl_end st t = st.
Proof.
  destruct st. cbn. by destruct (t =s "Grantee"), (t =s "URI"), (t =s "Grant"), (t =s "Permission").
Qed.
Lemma acl_field st t s : outside st -> existsb (fun n => local_name t =s n) ["Grantee"; "URI"; "Grant"; "Permission"] = false ->
  run_events acl_event st (node_events (field t s)) = Ok st.
Proof. intros Ho Ht. apply acl_unknown; [done|..]; intros; [by apply acl_start_other|by apply acl_end_other]. Qed.
Lemma node_events_elem t a n l : node_events (Elem t a (n :: l)) = (XStart t :: concat (map node_events (n :: l)) ++ [XEnd t])%list.
Proof. done. Qed.
Lemma acl_owner st i n : outside st -> run_events acl_event st (node_events (owner_xml i n)) = Ok st.
Proof.
  intros Ho. unfold owner_xml. rewrite node_events_elem. cbn [map concat run_events acl_event mbind res_bind].
  rewrite acl_start_other, !run_events_app, acl_field by done. cbn [mbind res_bind]. rewrite run_events_app, acl_field by done.
  cbn [mbind res_bind run_events acl_event].
  by rewrite acl_end_other.
Qed.
Lemma acl_owner_grant i n w :
  run_events acl_event (Build_acl_state false false false None None w)
    (node_events (grant_xml {| grantee := {| gr_type := "CanonicalUser"; gr_id := Some i; gr_display_name := Some n; gr_uri := None |};
                               permission := "FULL_CONTROL" |})) = Ok (Build_acl_state false false false None None w).
Proof.
  unfold grant_xml, grantee_xml. cbn [grantee permission gr_type gr_id gr_display_name gr_uri opt_field app].
  rewrite !node_events_elem. cbn [map concat]. rewrite !node_events_elem. cbn [map concat].
  cbn [run_events mbind res_bind acl_event]. rewrite <- !app_assoc. cbn [app].
  change (acl_start _ (local_name "Grant")) with (Build_acl_state false false false None None w). cbn [run_events mbind res_bind acl_event].
  change (acl_start _ (local_name "Grantee")) with (Build_acl_state true false false None None w).
  rewrite <- !app_assoc.   rewrite run_events_app, acl_field by done. cbn [mbind res_bind]. rewrite run_events_app, acl_field by done. cbn [mbind res_bind app run_events acl_event].
  rewrite field_events. change (is_empty "FULL_CONTROL") with false. cbn iota.
  rewrite text_events_plain by reflexivity. reflexivity.
Qed.
Lemma acl_public_grant w :
  run_events acl_event (Build_acl_state false false false None None w)
    (node_events (grant_xml {| grantee := {| gr_type := "Group"; gr_id := None; gr_display_name := None; gr_uri := Some ALL_USERS_URI |};
                               permission := "READ" |})) = Ok (Build_acl_state false false false None None true).
Proof.
  unfold grant_xml, grantee_xml. cbn [grantee permission gr_type gr_id gr_display_name gr_uri opt_field app].
  rewrite !node_events_elem. cbn [map concat]. rewrite !node_events_elem. cbn [map concat].
  rewrite !field_events. change (is_empty "READ") with false. change (is_empty ALL_USERS_URI) with false. cbn iota.
  rewrite !text_events_plain by reflexivity. reflexivity.
Qed.
Lemma acl_document_events i n w :
  run_events acl_event (Build_acl_state false false false None None false) (node_events (acl_xml (get_acl_body i n w))) =
  Ok (Build_acl_state false false false None None w).
Proof.
  unfold acl_xml, get_acl_body, result. cbn [acp_owner_id acp_owner_name acp_grants]. rewrite node_events_elem. cbn [map concat run_events acl_event mbind res_bind].
  rewrite acl_start_other, !run_events_app, acl_owner by done. cbn [mbind res_bind]. rewrite fmap_cons, node_events_elem, app_nil_r.
  cbn [map concat run_events acl_event mbind res_bind]. rewrite acl_start_other, !run_events_app, acl_owner_grant by done. cbn [mbind res_bind].
  destruct w; cbn [fmap list_fmap map concat]; rewrite ?app_nil_r, ?acl_public_grant; reflexivity.
Qed.
End Echo.

(** Echo of access lists: the body of a GetObjectAcl answer sent back as a
    PutObjectAcl request asks for the state it reports, whoever the owner. *)
Theorem acl_echo `{XmlReader} owner_id owner_name world_readable xml :
  all_bytes is_ascii_whitespace xml = false ->
  parse_put_acl_request_world_readable xml (node_events (acl_xml (get_acl_body owner_id owner_name world_readable))) = Ok world_readable.
Proof. intros Hx. unfold parse_put_acl_request_world_readable. by rewrite Hx, acl_document_events. Qed.

(** Echo of tag sets: the body of a GetObjectTagging answer sent back as a
    PutObjectTagging request stores the tags it reports, in their order. *)
Theorem tagging_echo `{XmlReader} `{FormCodec} tags_urlform xml :
  all_bytes is_ascii_whitespace xml = false ->
  Forall plain_tag (form_parse tags_urlform) ->
  parse_object_tagging_request xml (node_events (tagging_xml (get_object_tagging_body tags_urlform))) = Ok (form_serialize (form_parse tags_urlform)).
Proof.
  intros Hx Hf. unfold parse_object_tagging_request. rewrite Hx. unfold tagging_xml, result, get_object_tagging_body.
  rewrite node_events_elem. cbn [map concat run_events mbind res_bind]. rewrite app_nil_r.
  destruct (form_parse tags_urlform) as [|kv tags]; [reflexivity|].
  destruct (tags_events _ [] Hf) as (k & v & E). rewrite fmap_cons in E |- *. rewrite node_events_elem. cbn [run_events app].
  change (tag_event _ (XStart "Tagging")) with (Ok (E := string) (Build_tag_state false false None None [])). cbn [mbind res_bind].
  change (tag_event _ (XStart "TagSet")) with (Ok (E := string) (Build_tag_state false false None None [])). cbn [mbind res_bind].
  rewrite <- app_assoc, run_events_app, E. reflexivity.
Qed.
