(* ===== verification/Wire.v ===== *)
(** * s32p-support/src/s3resp.rs: responses on the wire

    The builders that turn the replies of the handlers into a status, headers
    and a body.  [http::HeaderValue] decides which values it takes and
    [quick_xml] writes the documents: both are parameters. *)

From Stdlib Require Import ZArith Lia Ascii.
From stdpp Require Import base list strings numbers option.
From S2P Require Import Prelude RustStr Http Utils S3Xml S3Resp Bytes GatewayHelpers Objects Listing Multipart ListBuckets XmlDocs XmlText.

Local Open Scope s3_scope.
Local Open Scope string_scope.

(** [HeaderValue::try_from], [HeaderName::try_from] and
    [quick_xml::se::to_string] with the XML reader of a client: a header value
    takes printable ASCII, and the reader finds the tree that was written when
    it is an element without empty or adjacent texts and without control
    characters.  Nothing is assumed of other trees. *)
Definition is_printable (c : ascii) : bool := in_range 32 126 c.
Class WireCodec := {
  header_value_ok : string -> bool;
  header_name_ok : string -> bool;
  to_xml_string : xml_node -> option string;
  from_xml_string : string -> option xml_node;
  printable_value s : all_bytes is_printable s = true -> header_value_ok s = true;
  xml_written n s : is_text n = false -> tidy n = true -> legible n = true -> to_xml_string n = Some s -> from_xml_string s = Some n;
}.

(** A body in memory or one a task streams *)
Inductive wire_body := Full (s : string) | Object (b : body).
Abbreviation headers := (list (string * string)).
Record wire := { w_status : Z; w_headers : headers; w_body : wire_body }.

(** [HeaderMap::insert] with a name in lower case, and [get] *)
Definition insert_header (name v : string) (h : headers) : headers := (filter (fun kv => fst kv <> name) h ++ [(name, v)])%list.
Definition get_header (name : string) (h : headers) : option string := snd <$> find (fun kv => fst kv =s name) h.

Section Wire.
Context `{WireCodec}.

(** [v.parse().unwrap()] *)
Definition unwrap_value (v : string) : res string string := if header_value_ok v then Ok v else Panics.
Definition insert_value (name v : string) (h : headers) : res string headers := v ← unwrap_value v; Ok (insert_header name v h).

(** The loop of [response_bytes]: a value that does not parse is skipped. *)
Definition insert_if_ok (h : headers) (kv : string * string) : headers :=
  if header_value_ok (snd kv) then insert_header (to_ascii_lowercase (fst kv)) (snd kv) h else h.
Definition response_bytes (status : Z) (content_type body : string) (hs : headers) : res string wire :=
  h ← insert_value "content-type" content_type [];
  h ← insert_value "content-length" (print_u64 (str_len body)) h;
  Ok {| w_status := status; w_headers := foldl insert_if_ok h hs; w_body := Full body |}.

(** [resp.headers_mut().insert("server", ..)] *)
Definition with_server (r : res string wire) : res string wire :=
  w ← r; h ← insert_value "server" "s32p-gateway" (w_headers w); Ok {| w_status := w_status w; w_headers := h; w_body := w_body w |}.

Definition XML : string := "application/xml".
Definition xml_build_failed : string := "<Error><Code>InternalError</Code><Message>xml build failed</Message></Error>".
(** A document, or the text used when it cannot be written *)
Definition xml_or (fallback : string) (n : xml_node) : string := default fallback (to_xml_string n).

(** ** Errors *)
Definition request_id_of (r : HttpResponse) : option string := get_header "x-amz-request-id" (resp_headers r).
Definition error_document (r : HttpResponse) : ErrorDocument :=
  s3_error_body (resp_code r) (resp_message r) (resp_resource r) (request_id_of r) None.
Definition error_wire (r : HttpResponse) : res string wire :=
  response_bytes (resp_status r) XML
    (xml_or ("<Error><Code>" +:+ resp_code r +:+ "</Code><Message>" +:+ resp_message r +:+ "</Message></Error>") (error_xml (error_document r)))
    (resp_headers r).

(** [not_modified] *)
Definition not_modified (etag last_modified : option string) : res string wire :=
  h ← insert_value "content-length" "0" [];
  h ← match etag with Some e => insert_value "etag" e h | None => Ok h end;
  h ← match last_modified with Some m => insert_value "last-modified" m h | None => Ok h end;
  h ← insert_value "server" "s32p-gateway" h;
  Ok {| w_status := 304; w_headers := h; w_body := Full "" |}.

(** ** Buckets *)
Definition versioning_not_configured : res string wire :=
  response_bytes 200 XML (xml_or ("<VersioningConfiguration xmlns=" +:+ quote +:+ "http://s3.amazonaws.com/doc/2006-03-01/" +:+ quote +:+ "/>") versioning_configuration_empty) [].
Definition list_buckets_paginated (d : ListAllMyBucketsResult) : res string wire :=
  response_bytes 200 XML (xml_or xml_build_failed (list_buckets_xml d)) [].
Definition get_bucket_location (region : string) : res string wire :=
  response_bytes 200 XML
    (xml_or ("<LocationConstraint xmlns=" +:+ quote +:+ "http://s3.amazonaws.com/doc/2006-03-01/" +:+ quote +:+ "></LocationConstraint>") (location_xml (get_bucket_location_body region)))
    [("x-amz-bucket-region", region)].
Definition head_bucket_ok (region : string) : res string wire := response_bytes 200 XML "" [("x-amz-bucket-region", region)].
Definition create_session_ok (fmt : system_time -> string) (access_key secret_key session_token : string) (expires : system_time) : res string wire :=
  match to_xml_string (create_session_result_body fmt access_key secret_key session_token expires) with
  | Some body => response_bytes 200 XML body []
  | None => Err "xml"
  end.

(** ** Access lists and tags *)
Definition get_acl (owner_id owner_display_name : string) (world_readable : bool) : res string wire :=
  response_bytes 200 XML
    (xml_or (("<AccessControlPolicy xmlns=" +:+ quote +:+ "http://s3.amazonaws.com/doc/2006-03-01/" +:+ quote +:+ "><Owner><ID>") +:+ owner_id +:+ "</ID><DisplayName>" +:+ owner_display_name +:+
        ("</DisplayName></Owner><AccessControlList><Grant><Grantee xmlns:xsi=" +:+ quote +:+ "http://www.w3.org/2001/XMLSchema-instance" +:+ quote +:+ " xsi:type=" +:+ quote +:+ "CanonicalUser" +:+ quote +:+ "><ID>") +:+
        owner_id +:+ "</ID><DisplayName>" +:+ owner_display_name +:+
        "</DisplayName></Grantee><Permission>FULL_CONTROL</Permission></Grant></AccessControlList></AccessControlPolicy>")
      (acl_xml (get_acl_body owner_id owner_display_name world_readable))) [].
Definition put_acl_ok : res string wire := with_server (response_bytes 200 XML "" []).
Definition get_object_tagging `{FormCodec} (tags_urlform : string) : res string wire :=
  response_bytes 200 XML (xml_or ("<Tagging xmlns=" +:+ quote +:+ "http://s3.amazonaws.com/doc/2006-03-01/" +:+ quote +:+ "><TagSet/></Tagging>")
    (tagging_xml (get_object_tagging_body tags_urlform))) [].
Definition put_object_tagging_ok : res string wire := response_bytes 200 XML "" [].
Definition delete_object_tagging_ok : res string wire := response_bytes 204 XML "" [].

(** ** Objects *)
Definition insert_meta (h : headers) (kv : string * string) : headers :=
  let name := "x-amz-meta-" +:+ fst kv in
  if header_name_ok name && header_value_ok (snd kv) then insert_header (to_ascii_lowercase name) (snd kv) h else h.
Definition apply_object_headers (r : object_response) : res string headers :=
  let h := insert_header "content-type" (if header_value_ok (or_content_type r) then or_content_type r else OBJECT_CONTENT_TYPE) [] in
  h ← insert_value "content-length" (print_u64 (or_content_length r)) h;
  h ← insert_value "accept-ranges" "bytes" h;
  h ← insert_value "etag" (or_etag r) h;
  h ← insert_value "last-modified" (or_last_modified r) h;
  h ← match or_content_range r with Some cr => insert_value "content-range" cr h | None => Ok h end;
  insert_value "server" "s32p-gateway" (foldl insert_meta h (or_user_meta r)).
Definition object_response (r : object_response) : res string wire :=
  h ← apply_object_headers r; Ok {| w_status := or_status r; w_headers := h; w_body := Object (or_body r) |}.

Definition put_object_ok (etag : string) : res string wire := with_server (response_bytes 200 XML "" [("etag", etag)]).
Definition copy_object_ok (etag last_modified : string) : res string wire :=
  with_server (response_bytes 200 XML (xml_or xml_build_failed (copy_object_result_body last_modified etag)) [("etag", etag)]).
Definition delete_object_no_content : res string wire := with_server (response_bytes 204 XML "" []).
Definition delete_objects_result (deleted : list string) (errors : list DeleteErrorInfo) : res string wire :=
  with_server (response_bytes 200 XML (xml_or xml_build_failed (delete_objects_result_body deleted errors)) []).
Definition list_objects_v1 (d : list_v1) : res string wire := response_bytes 200 XML (xml_or xml_build_failed (list_v1_xml (list_objects_v1_body d))) [].
Definition list_objects_v2 (d : list_v2) : res string wire := response_bytes 200 XML (xml_or xml_build_failed (list_v2_xml (list_objects_v2_body d))) [].

(** ** Multipart uploads *)
Definition create_multipart_upload_ok (bucket key upload_id : string) : res string wire :=
  with_server (response_bytes 200 XML (xml_or xml_build_failed (initiate_multipart_upload_result_body bucket key upload_id)) []).
Definition upload_part_ok (etag : string) : res string wire := with_server (response_bytes 200 XML "" [("etag", etag)]).
Definition upload_part_copy_ok (etag last_modified : string) : res string wire :=
  with_server (response_bytes 200 XML (xml_or xml_build_failed (copy_part_result_body last_modified etag)) [("etag", etag)]).
Definition list_multipart_uploads_ok (bucket : string) (uploads : list upload_info) : res string wire :=
  with_server (response_bytes 200 XML (xml_or xml_build_failed (list_multipart_uploads_body bucket uploads)) []).
Definition list_parts_ok (bucket key upload_id : string) (parts : list part_info) : res string wire :=
  with_server (response_bytes 200 XML (xml_or xml_build_failed (list_parts_body bucket key upload_id parts)) []).
Definition complete_multipart_upload_ok (location bucket key etag : string) : res string wire :=
  with_server (response_bytes 200 XML (xml_or xml_build_failed (complete_multipart_upload_result_body location bucket key etag)) [("etag", etag)]).
Definition abort_multipart_upload_no_content : res string wire := with_server (response_bytes 204 XML "" []).

(** ** Replies *)
Definition obj_reply_wire `{FormCodec} (r : obj_reply) : res string wire :=
  match r with
  | Error r => error_wire r
  | PutObjectOk etag => put_object_ok etag
  | ObjectReply r => object_response r
  | NotModifiedReply etag m => not_modified (Some etag) (Some m)
  | CopyObjectOk etag m => copy_object_ok etag m
  | DeleteNoContent => delete_object_no_content
  | DeleteObjectsResult ks es => delete_objects_result ks es
  | RenameReply status b => response_bytes status XML b []
  | TaggingReply tags => get_object_tagging tags
  | PutTaggingOk => put_object_tagging_ok
  | DeleteTaggingOk => delete_object_tagging_ok
  | AclReply i n w => get_acl i n w
  | PutAclOk => put_acl_ok
  | HeadBucketOk region => head_bucket_ok region
  | LocationReply region => get_bucket_location region
  end.
Definition reply_wire (r : reply) : res string wire :=
  match r with
  | Refused r => error_wire r
  | CreateOk b k u => create_multipart_upload_ok b k u
  | UploadPartOk e => upload_part_ok e
  | UploadPartCopyOk e m => upload_part_copy_ok e m
  | ListPartsOk b k u ps => list_parts_ok b k u ps
  | ListUploadsOk b us => list_multipart_uploads_ok b us
  | CompleteOk l b k e => complete_multipart_upload_ok l b k e
  | AbortNoContent => abort_multipart_upload_no_content
  end.

(** Everything the gateway answers: the replies of the object and multipart
    handlers and the pages of the listings *)
Inductive response :=
| AObject (r : obj_reply) | AMultipart (r : reply) | AListV2 (d : list_v2) | AListV1 (d : list_v1) | ABuckets (d : ListAllMyBucketsResult).
Definition response_wire `{FormCodec} (a : response) : res string wire :=
  match a with
  | AObject r => obj_reply_wire r | AMultipart r => reply_wire r | AListV2 d => list_objects_v2 d | AListV1 d => list_objects_v1 d
  | ABuckets d => list_buckets_paginated d
  end.

(** *** What a response says *)
Definition response_status (a : response) : Z :=
  match a with
  | AObject (Error r) | AMultipart (Refused r) => resp_status r
  | AObject (ObjectReply r) => or_status r
  | AObject (NotModifiedReply _ _) => 304
  | AObject (RenameReply status _) => status
  | AObject (DeleteNoContent | DeleteTaggingOk) | AMultipart AbortNoContent => 204
  | _ => 200
  end.
Definition response_document `{FormCodec} (a : response) : option document :=
  match a with
  | AObject (Error r) | AMultipart (Refused r) => Some (DError (error_document r))
  | AObject (CopyObjectOk etag m) => Some (DCopyObject m etag)
  | AObject (DeleteObjectsResult ks es) => Some (DDelete ks es)
  | AObject (TaggingReply tags) => Some (DTagging (form_parse tags))
  | AObject (AclReply i n w) => Some (DAcl (get_acl_body i n w))
  | AObject (LocationReply region) => Some (DLocation (get_bucket_location_body region))
  | AMultipart (CreateOk b k u) => Some (DInitiate b k u)
  | AMultipart (UploadPartCopyOk e m) => Some (DCopyPart m e)
  | AMultipart (ListPartsOk b k u ps) => Some (DParts b k u ps)
  | AMultipart (ListUploadsOk b us) => Some (DUploads b us)
  | AMultipart (CompleteOk l b k e) => Some (DComplete l b k e)
  | AListV2 d => Some (DListV2 d) | AListV1 d => Some (DListV1 d) | ABuckets d => Some (DBuckets d)
  | _ => None
  end.

(** A client that knows what it asked for *)
Definition client_read (k : kind) (w : wire) : option document :=
  match w_body w with Full s => n ← from_xml_string s; decode k n | Object _ => None end.
End Wire.
