(* ===== verification/WireProofs.v ===== *)
(** * s32p-support/src/s3resp.rs: what a client receives

    Answers in memory have the length of their body as [Content-Length] and
    the document they carry is read back; every answer of GetObject and
    HeadObject is written without a panic and announces what it sends. *)

From Stdlib Require Import ZArith Lia Ascii.
From stdpp Require Import base list strings numbers option.
From S2P Require Import Prelude RustStr Http Utils Classifier S3Xml S3Resp Bytes ChunkCodec GatewayHelpers FsHelpers FileSystem Handler Objects GetObject Listing Multipart ListBuckets XmlDocs XmlText Streaming Wire.

Local Open Scope s3_scope.
Local Open Scope string_scope.

(** ** Headers *)
Lemma get_insert_header name n v h : get_header name (insert_header n v h) = if n =s name then Some v else get_header name h.
Proof.
  unfold get_header, insert_header. induction h as [|[k x] h IH]; [cbn; by destruct (n =s name)|].
  rewrite filter_cons. cbn [fst find]. case_decide as Hk.
  - cbn. destruct (k =s name) eqn:E; [|apply IH]. apply str_eqb_true in E as ->.
    destruct (n =s name) eqn:E; [by apply str_eqb_true in E|done].
  - rewrite IH. destruct (n =s name) eqn:E; [done|]. destruct (k =s name) eqn:E'; [|done].
    apply str_eqb_true in E'. apply str_eqb_false in E. destruct (decide (k = n)); naive_solver.
Qed.

(** ** Printable text *)
Lemma all_printable (p : ascii -> bool) s : (forall c, p c = true -> is_printable c = true) -> all_bytes p s = true -> all_bytes is_printable s = true.
Proof. apply all_bytes_impl. Qed.
Lemma print_digits_printable fuel n s : all_bytes is_printable s = true -> all_bytes is_printable (print_digits fuel n s) = true.
Proof.
  revert n s. induction fuel as [|fuel IH]; intros n s Hs; [done|]. cbn [print_digits].
  assert (is_printable (digit_char (n mod 10)) = true) as Hd.
  { pose proof (Z.mod_pos_bound n 10 ltac:(lia)). unfold is_printable, in_range, digit_char. rewrite byte_val_of by lia. lia. }
  case_match; [|apply IH]; cbn [all_bytes]; by rewrite Hd.
Qed.
Lemma print_u64_printable n : all_bytes is_printable (print_u64 n) = true.
Proof. by apply print_digits_printable. Qed.
Lemma hex_print_printable fuel n s : all_bytes is_printable s = true -> all_bytes is_printable (hex_print fuel n s) = true.
Proof.
  revert n s. induction fuel as [|fuel IH]; intros n s Hs; [done|]. cbn [hex_print].
  assert (is_printable (hex_char (n mod 16)) = true) as Hd.
  { pose proof (Z.mod_pos_bound n 16 ltac:(lia)) as Hb. pose proof (hex_char_lower (n mod 16) Hb) as Hl.
    revert Hl. generalize (hex_char (n mod 16)). clear. intros [[] [] [] [] [] [] [] []]; vm_compute; congruence. }
  case_match; [|apply IH]; cbn [all_bytes]; by rewrite Hd.
Qed.
Lemma hex16_printable n : all_bytes is_printable (hex16 n) = true.
Proof.
  unfold hex16, zero_pad. rewrite all_bytes_app. apply andb_true_iff. split; [|by apply hex_print_printable].
  generalize (16 - String.length (print_hex n))%nat. intros k. induction k as [|k IH]; [done|]. cbn. exact IH.
Qed.
Lemma etag_printable ino mtime size : all_bytes is_printable (format_object_etag ino mtime size) = true.
Proof. unfold format_object_etag, format_object_etag_unquoted. rewrite !all_bytes_app, !hex16_printable. done. Qed.
Lemma content_range_printable a b n : all_bytes is_printable (object_content_range a b n) = true.
Proof. unfold object_content_range. rewrite !all_bytes_app, !print_u64_printable. done. Qed.

Section Proofs.
Context `{WireCodec} `{FormCodec}.

Lemma insert_value_ok name v h : header_value_ok v = true -> insert_value name v h = Ok (insert_header name v h).
Proof. intros Hv. unfold insert_value, unwrap_value. by rewrite Hv. Qed.
Lemma insert_value_printable name v h : all_bytes is_printable v = true -> insert_value name v h = Ok (insert_header name v h).
Proof. intros Hv. by apply insert_value_ok, printable_value. Qed.

(** ** Responses in memory *)
Lemma response_bytes_ok status body hs : response_bytes status XML body hs = Ok {| w_status := status;
  w_headers := foldl insert_if_ok (insert_header "content-length" (print_u64 (str_len body)) (insert_header "content-type" XML [])) hs; w_body := Full body |}.
Proof.
  unfold response_bytes. rewrite insert_value_printable by done. cbn [mbind res_bind].
  by rewrite insert_value_printable by apply print_u64_printable.
Qed.
Lemma with_server_ok w : with_server (Ok w) = Ok {| w_status := w_status w; w_headers := insert_header "server" "s32p-gateway" (w_headers w); w_body := w_body w |}.
Proof. unfold with_server. cbn [mbind res_bind]. by rewrite insert_value_printable. Qed.
Lemma get_extra name hs h : Forall (fun kv => to_ascii_lowercase (fst kv) <> name) hs -> get_header name (foldl insert_if_ok h hs) = get_header name h.
Proof.
  intros Hf. revert h. induction Hf as [|kv hs Hkv _ IH]; intros h; [done|]. cbn [foldl]. rewrite IH. unfold insert_if_ok.
  case_match; [|done]. rewrite get_insert_header. by rewrite (proj2 (str_eqb_false _ _) Hkv).
Qed.
Lemma get_meta name hs h : starts_with "x-amz-meta-" name = false -> get_header name (foldl insert_meta h hs) = get_header name h.
Proof.
  intros Hn. revert h. induction hs as [|kv hs IH]; intros h; [done|]. cbn [foldl]. rewrite IH. unfold insert_meta.
  case_match; [|done]. rewrite get_insert_header. case_match eqn:E; [|done]. apply str_eqb_true in E. subst name. done.
Qed.

Lemma object_response_ok r :
  header_value_ok (or_etag r) = true -> header_value_ok (or_last_modified r) = true -> (forall cr, or_content_range r = Some cr -> header_value_ok cr = true) ->
  exists h, object_response r = Ok {| w_status := or_status r; w_headers := h; w_body := Object (or_body r) |} /\
    get_header "content-length" h = Some (print_u64 (or_content_length r)).
Proof.
  intros He Hm Hc. unfold object_response, apply_object_headers.
  rewrite insert_value_printable by apply print_u64_printable. cbn [mbind res_bind]. rewrite insert_value_printable by done. cbn [mbind res_bind].
  rewrite insert_value_ok by done. cbn [mbind res_bind]. rewrite insert_value_ok by done. cbn [mbind res_bind].
  destruct (or_content_range r) as [cr|]; cbn [mbind res_bind]; [rewrite insert_value_ok by auto; cbn [mbind res_bind]|];
    rewrite insert_value_printable by done; eexists; (split; [done|]); rewrite get_insert_header, get_meta by done; by rewrite !get_insert_header.
Qed.
Lemma not_modified_ok etag m : header_value_ok etag = true -> header_value_ok m = true ->
  exists h, not_modified (Some etag) (Some m) = Ok {| w_status := 304; w_headers := h; w_body := Full "" |} /\ get_header "content-length" h = Some "0".
Proof.
  intros He Hm. unfold not_modified. rewrite insert_value_printable by done. cbn [mbind res_bind].
  rewrite insert_value_ok by done. cbn [mbind res_bind]. rewrite insert_value_ok by done. cbn [mbind res_bind]. rewrite insert_value_printable by done.
  eexists. split; [done|]. by rewrite !get_insert_header.
Qed.
(** Every other response is a body in memory; when it carries a document, the
    body is the document as written or a fixed text. *)
Definition no_length (extra : headers) : Prop := Forall (fun kv => to_ascii_lowercase (fst kv) <> "content-length") extra.
Definition in_memory (r : res string wire) (status : Z) (body : string) (extra : headers) : Prop :=
  r = response_bytes status XML body extra \/ r = with_server (response_bytes status XML body extra).
Lemma in_memory_ok r status body extra : in_memory r status body extra -> exists w,
  r = Ok w /\ w_status w = status /\ w_body w = Full body /\
  (no_length extra -> get_header "content-length" (w_headers w) = Some (print_u64 (str_len body))).
Proof.
  intros [->| ->]; rewrite response_bytes_ok, ?with_server_ok; eexists; (split_and!; [done..|]); cbn [w_headers]; intros He;
    rewrite ?get_insert_header, get_extra, get_insert_header by done; done.
Qed.
Definition written_as (a : response) (body : string) : Prop := forall d, response_document a = Some d -> exists fallback, body = xml_or fallback (encode d).
Definition unwraps (a : response) : bool := match a with AObject (ObjectReply _ | NotModifiedReply _ _) => true | _ => false end.
(** The headers an error brings *)
Definition own_headers (a : response) : headers := match a with AObject (Error r) | AMultipart (Refused r) => resp_headers r | _ => [] end.
Lemma answers_in_memory a : unwraps a = false -> exists body extra,
  in_memory (response_wire a) (response_status a) body extra /\ written_as a body /\ (no_length (own_headers a) -> no_length extra).
Proof.
  destruct a as [r|r|d|d|d]; [destruct r|destruct r|..]; intros Hu; try done.
  all: eexists _, _; split; [first [left; reflexivity|right; reflexivity]|split; [intros ? [= <-]; eexists; reflexivity|]].
  all: intros Ho; first [exact Ho|repeat constructor; done].
Qed.

(** Framing of answers in memory: an answer that is neither an object nor a
    304 is written without a panic, with its status and the length of its
    body as [Content-Length]. *)
Theorem memory_answers_framed (a : response) : unwraps a = false -> no_length (own_headers a) -> exists w body,
  response_wire a = Ok w /\ w_status w = response_status a /\ w_body w = Full body /\
  get_header "content-length" (w_headers w) = Some (print_u64 (str_len body)).
Proof.
  intros Hu Ho. destruct (answers_in_memory a Hu) as (body & extra & (w & E & Hst & Hb & Hl)%in_memory_ok & _ & Hx). exists w, body. split_and!; auto.
Qed.

(** C30. Delivery of documents.  When a response of the gateway stands for a
    document whose numbers fit [u64] and whose texts have no control
    characters, and the document is serialised, then the response is written
    without a panic and a client that reads its body with an XML reader finds
    the document: all of it, except that an empty delimiter, encoding type or
    region is absent and every entry of a version 1 listing has an owner. *)
Theorem answers_read_back (a : response) (d : document) :
  response_document a = Some d -> doc_numbers d -> legible (encode d) = true -> is_Some (to_xml_string (encode d)) ->
  exists w, response_wire a = Ok w /\ client_read (kind_of d) w = Some (canonical d).
Proof.
  intros Hd Hn Hleg [s Hs]. assert (unwraps a = false) as Hu by (by destruct a as [[]| | | |]).
  destruct (answers_in_memory a Hu) as (body & extra & (w & E & _ & Hb & _)%in_memory_ok & Has & _).
  destruct (Has d Hd) as [fb ->]. exists w. split; [done|]. unfold client_read, xml_or in *. rewrite Hb, Hs. cbn [from_option id mbind option_bind].
  rewrite (xml_written (encode d) s) by (done || apply encode_tidy || by destruct d). cbn [mbind option_bind]. by apply documents_read.
Qed.
End Proofs.

(** ** GetObject and HeadObject *)
Section Reads.
Context {E : ObjEnv}.

(** A program that only looks, and returns early only with an error that
    brings no headers of its own *)
Definition peeks {A} (m : Act A) : Prop := forall w,
  snd (m w) = w /\ match fst (m w) with Return r => exists e, r = Error e /\ resp_headers e = [] | _ => True end.
Lemma peeks_ret {A} (a : A) : peeks (mret a).
Proof. by intros w. Qed.
Lemma peeks_get {A} (f : world -> A) : peeks (Handler.get f).
Proof. by intros w. Qed.
Lemma peeks_refuse {A} r : resp_headers r = [] -> peeks (Objects.refuse (A := A) r).
Proof. intros Hr w. split; [done|]. by exists r. Qed.
Lemma peeks_refuse_if b r : resp_headers r = [] -> peeks (Objects.refuse_if b r).
Proof. intros Hr. destruct b; [by apply peeks_refuse|apply peeks_ret]. Qed.
Lemma peeks_or_refuse {A X} (r : res X A) f : (forall e, resp_headers (f e) = []) -> peeks (Objects.or_refuse r f).
Proof. intros Hf w. destruct r; cbn; eauto. Qed.
Lemma peeks_bind {A B} (m : Act A) (f : A -> Act B) : peeks m -> (forall a, peeks (f a)) -> peeks (m ≫= f).
Proof.
  intros Hm Hf w. unfold mbind, handler_bind. specialize (Hm w). destruct (m w) as [[a|r| |] w1]; cbn in *; try done.
  destruct (Hf a w1) as [Hw H1]. destruct Hm as [<- _]. done.
Qed.
Lemma post_peeks {A} (m : Act A) P (Q : A -> world -> Prop) w :
  peeks m -> (forall e, resp_headers e = [] -> P (Error e) w) -> (forall a, fst (m w) = Next a -> Q a w) -> post m P Q w.
Proof.
  intros Hm HP HQ. unfold post. destruct (Hm w) as [Hw Hr]. destruct (m w) as [[a|r| |] w1]; cbn in *; subst; auto.
  destruct Hr as (e & -> & He). auto.
Qed.
End Reads.
Create HintDb peeks.
#[export] Hint Resolve peeks_ret peeks_get peeks_refuse peeks_refuse_if peeks_or_refuse : peeks.
Ltac solve_peeks := repeat first [progress auto with peeks|apply peeks_bind; [|intros ?]|case_match].

(** *** What a request asks for *)
Section Framing.
Context `{WireCodec} {E : ObjEnv}.

Definition ranges_of (rq : object_request) (size : Z) : list ByteRange :=
  match hm_get (oq_headers rq) "range" with
  | Some (Some s) => match parse_ranges_header s size with Ok rs => rs | _ => [] end
  | _ => []
  end.
(** The body of a GET: the bytes of the file, of one range, or of several
    ranges as parts of a multipart body; a directory has none. *)
Definition get_body (rq : object_request) (n : node) : bytes :=
  match n with
  | RegFile _ [] _ => []
  | RegFile _ b _ =>
      match ranges_of rq (blen b) with
      | [] => b
      | [r] => slice b (start r) (end_excl r)
      | rs => multirange_body b new_boundary (blen b) rs
      end
  | _ => []
  end.
(** The length a HEAD announces: the size of the file or of the one range *)
Definition head_length (rq : object_request) (n : node) : Z :=
  match n with
  | RegFile _ [] _ => 0
  | RegFile _ b _ => match ranges_of rq (blen b) with [r] => end_excl r - start r | _ => blen b end
  | Directory _ _ _ => 0
  | Dangling _ size => size
  end.

(** A response [wr] to [rq] that announces [n] bytes *)
Definition framed (rq : object_request) (fs : filesystem) (wr : wire) (n : Z) : Prop :=
  get_header "content-length" (w_headers wr) = Some (print_u64 n) /\
  match w_body wr with
  | Full s => n = str_len s
  | Object b => exists p node, join_object_path o_posix_root (o_bucket rq) (o_key rq) = Ok p /\ fs !! p = Some node /\
      if is_head rq then b = InMemory [] /\ (fault COpen p = None -> n = head_length rq node)
      else delivered b = Some (get_body rq node) /\ n = blen (get_body rq node)
  end.

(** *** What it gets *)
Hypothesis dates_printable : forall t, all_bytes is_printable (fmt_http_date t) = true.
Variables (rq : object_request) (w : world).
Hypothesis full_reads : forall p i b l,
  join_object_path o_posix_root (o_bucket rq) (o_key rq) = Ok p -> files w !! p = Some (RegFile i b l) -> undisturbed_read p b.

Definition answered (r : obj_reply) (_ : world) : Prop :=
  exists wr n, obj_reply_wire r = Ok wr /\ w_status wr = response_status (AObject r) /\ framed rq (files w) wr n.

Lemma answered_error e : resp_headers e = [] -> answered (Error e) w.
Proof.
  intros He. destruct (memory_answers_framed (AObject (Error e))) as (wr & s & Hw & Hst & Hb & Hl); [done|cbn; rewrite He; constructor|].
  exists wr, (str_len s). split_and!; [done..|]. unfold framed. rewrite Hb. done.
Qed.
Lemma answered_not_modified n : answered (NotModifiedReply (meta_etag n) (fmt_http_date (i_mtime (node_inode n)))) w.
Proof.
  destruct (not_modified_ok (meta_etag n) (fmt_http_date (i_mtime (node_inode n)))) as (h & Hw & Hl); [apply printable_value, etag_printable|apply printable_value, dates_printable|].
  eexists _, 0%Z. split; [exact Hw|]. split; [done|]. split; [exact Hl|]. done.
Qed.
Lemma answered_object p node status b ct len n cr um :
  join_object_path o_posix_root (o_bucket rq) (o_key rq) = Ok p -> files w !! p = Some node ->
  (if is_head rq then b = InMemory [] /\ (fault COpen p = None -> len = head_length rq node)
   else delivered b = Some (get_body rq node) /\ len = blen (get_body rq node)) ->
  (cr = None \/ exists a b c, cr = Some (object_content_range a b c)) -> answered (respond status b ct len n cr um) w.
Proof.
  intros Hp Hn Hb Hc. unfold answered, respond. cbn [obj_reply_wire]. edestruct object_response_ok as (h & Eh & Hl).
  4:{ eexists _, _. split; [exact Eh|]. split; [done|]. split; [exact Hl|]. by exists p, node. }
  - apply printable_value, etag_printable.
  - apply printable_value, dates_printable.
  - cbn. intros c Hcr. apply printable_value. destruct Hc as [->|(a' & b' & c' & ->)]; [done|]. injection Hcr as <-. apply content_range_printable.
Qed.
Ltac look := apply post_peeks; [solve_peeks|exact answered_error|intros ? ?].

Lemma post_check_read n Q : Q tt w -> post (check_read rq n) answered Q w.
Proof.
  intros HQ. unfold check_read, read_preconditions, conditional_headers. rewrite post_bind. look.
  case_match; [apply HQ|apply answered_not_modified|by apply answered_error].
Qed.
Lemma lstat_some fs p n : lstat fs p = Ok n -> fs !! p = Some n.
Proof. unfold lstat. destruct (fs !! p); naive_solver. Qed.
Lemma post_open_object p Q :
  join_object_path o_posix_root (o_bucket rq) (o_key rq) = Ok p -> (forall n, Q n w) -> post (open_object rq p) answered Q w.
Proof.
  intros Hp HQ. unfold open_object. rewrite post_bind. apply post_look.
  destruct (match fault COpen p with Some e => Err e | None => stat (files w) p end) as [n|[]|] eqn:Ho; try (apply HQ || by apply answered_error || done).
  destruct (is_head rq) eqn:Hh; [|by apply answered_error]. rewrite post_bind. unfold symlink_metadata. apply post_look.
  destruct (match fault CSymlinkMetadata p with Some e => Err e | None => lstat (files w) p end) as [n|e|] eqn:Hl; try by apply answered_error.
  destruct (node_linked n) eqn:Hn; [|by apply answered_error]. rewrite post_bind. unfold head_response_from_lstat. rewrite post_bind.
  apply post_check_read. cbn. assert (files w !! p = Some n) as Hf by (apply lstat_some; by destruct (fault CSymlinkMetadata p)).
  eapply answered_object; [exact Hp|exact Hf| |by left]. rewrite Hh. split; [done|]. intros Hno. rewrite Hno in Ho. unfold stat in Ho. rewrite Hf in Ho.
  by destruct n.
Qed.

(** The reply for a file that is not empty *)
Definition fits (b : bytes) (r : ByteRange) : Prop := (0 <= start r < end_excl r /\ end_excl r <= blen b)%Z.
Lemma requested_ranges_are b rs : (0 < blen b <= i64_max)%Z -> fst (requested_ranges rq (blen b) w) = Next rs ->
  ranges_of rq (blen b) = default [] rs /\ Forall (fits b) (default [] rs).
Proof.
  intros Hb. unfold requested_ranges, ranges_of. destruct (hm_get _ _) as [[s|]|]; [|done|by intros [= <-]].
  destruct (parse_ranges_header s (blen b)) as [l| |] eqn:Hp; cbn; [|done|done]. intros [= <-]. split; [done|]. cbn.
  eapply parse_ranges_header_bounds; [|lia|exact Hp]. unfold is_u64, i64_max, u64_max in *. lia.
Qed.
Lemma file_lengths i b l : (0 < blen b)%Z ->
  get_body rq (RegFile i b l) = match ranges_of rq (blen b) with [] => b | [r] => slice b (start r) (end_excl r) | rs => multirange_body b new_boundary (blen b) rs end /\
  head_length rq (RegFile i b l) = match ranges_of rq (blen b) with [r] => (end_excl r - start r)%Z | _ => blen b end.
Proof. by destruct b. Qed.

Lemma post_one_range p i b l ct um single :
  join_object_path o_posix_root (o_bucket rq) (o_key rq) = Ok p -> files w !! p = Some (RegFile i b l) -> (0 < blen b)%Z ->
  ranges_of rq (blen b) = option_list single -> Forall (fits b) (option_list single) ->
  post (one_range rq p (RegFile i b l) b ct um single) answered answered w.
Proof.
  intros Hp Hf Hb Hro Hfit. pose proof (full_reads p i b l Hp Hf) as [Hc Hs Hu Hr Ho Hcl]. destruct (file_lengths i b l Hb) as [Hg Hh]. unfold one_range. cbv zeta.
  set (want := default {| start := 0; end_excl := blen b |} single).
  assert (fits b want /\ get_body rq (RegFile i b l) = slice b (start want) (end_excl want) /\ head_length rq (RegFile i b l) = (end_excl want - start want)%Z) as (Hw & Hgb & Hhl).
  { rewrite Hg, Hh, Hro. subst want. destruct single as [r|]; cbn.
    - split; [exact (Forall_inv Hfit)|]. by split.
    - split; [unfold fits; cbn; lia|]. split; [|lia]. unfold slice. rewrite Z.sub_0_r, drop_0, take_ge; [done|]. unfold blen. lia. }
  assert (single = None -> blen b = end_excl want - start want)%Z as Hn by (subst want; intros ->; cbn; lia). destruct Hw as [Hw1 Hw2].
  assert (blen (slice b (start want) (end_excl want)) = end_excl want - start want)%Z as Hlen by (rewrite blen_slice by lia; lia).
  clearbody want.
  destruct (is_head rq) eqn:Eh.
  - destruct single; cbn; eapply answered_object; [exact Hp|exact Hf|rewrite Eh; split; [done|intros _; by rewrite Hhl]|by eauto|exact Hp|exact Hf| |by left].
    rewrite Eh. split; [done|]. intros _. rewrite Hhl. by apply Hn.
  - destruct (Z.leb_spec (end_excl want - start want) (chunk_size o_stream_cfg)).
    + assert (read_small p b (start want) (end_excl want - start want) = Ok (slice b (start want) (end_excl want))) as ->.
      { unfold read_small. rewrite Hr by lia. rewrite (proj2 (Z.eqb_neq _ 0)) by lia. do 2 f_equal. lia. }
      cbn. destruct single; cbn; (eapply answered_object; [exact Hp|exact Hf|rewrite Eh, Hgb; split; [done|]|by eauto]); [done|]. rewrite Hlen. by apply Hn.
    + destruct (emit_range_full b (o_uring_read p) (o_read_at p) (o_open_read p) (blen b) want o_stream_cfg open_channel)
        as (out' & Hem & _ & Hsent); try (done || lia). rewrite Hem.
      destruct single; cbn; (eapply answered_object; [exact Hp|exact Hf|rewrite Eh, Hgb, Hlen; cbn; rewrite Hsent; split; [done|]|by eauto]); [done|]. by apply Hn.
Qed.
Lemma post_object_body p i b l ct um :
  join_object_path o_posix_root (o_bucket rq) (o_key rq) = Ok p -> files w !! p = Some (RegFile i b l) -> (0 < blen b)%Z ->
  post (object_body rq p (RegFile i b l) b ct um) answered answered w.
Proof.
  intros Hp Hf Hb. pose proof (full_reads p i b l Hp Hf) as [Hc Hs Hu Hr Ho Hcl]. unfold object_body. rewrite post_bind.
  apply post_peeks; [unfold requested_ranges; solve_peeks|exact answered_error|]. intros rs [Hro Hbd]%requested_ranges_are; [|lia].
  destruct rs as [[|r [|r2 rs]]|].
  - by apply (post_one_range p i b l ct um None).
  - by apply (post_one_range p i b l ct um (Some r)).
  - destruct (file_lengths i b l Hb) as [Hg Hh]. rewrite Hro in Hg, Hh. cbn [default from_option id] in Hg, Hh, Hbd.
    destruct (is_head rq) eqn:Eh; cbn [negb]; (eapply answered_object; [exact Hp|exact Hf|rewrite Eh|by left]); [by rewrite Hh|].
    rewrite Hg. destruct (emit_multirange_full b (o_uring_read p) (o_read_at p) (o_open_read p) (r :: r2 :: rs) new_boundary o_stream_cfg open_channel)
      as (out' & -> & Hsent); try (done || lia). cbn [delivered]. rewrite Hsent. split; [done|]. symmetry. by apply multirange_body_length.
  - by apply (post_one_range p i b l ct um None).
Qed.
Lemma stat_some fs p n : stat fs p = Ok n -> fs !! p = Some n /\ forall i s, n <> Dangling i s.
Proof. unfold stat. destruct (fs !! p) as [[]|]; naive_solver. Qed.
Lemma post_resolve p n : join_object_path o_posix_root (o_bucket rq) (o_key rq) = Ok p -> files w !! p = Some n -> is_dir_node n = false ->
  (forall i s, n <> Dangling i s) ->
  post (resolve_object_headers p ≫= fun '(content_type, user_meta) =>
    let file := match n with RegFile _ b _ => b | _ => [] end in
    if (blen file =? 0)%Z then mret (respond 200 (InMemory []) content_type 0 n None user_meta) else object_body rq p n file content_type user_meta) answered answered w.
Proof.
  intros Hp Hn Hd Hnd. rewrite post_bind. apply post_peeks; [|exact answered_error|intros [ct um] _].
  { unfold resolve_object_headers, read_content_type, read_user_meta, read_text, read_xattr_string, xattr_get, Objects.look. solve_peeks. }
  destruct n as [i b l| |i s]; [|done|by destruct (Hnd i s)]. cbv zeta. destruct (Z.eqb_spec (blen b) 0) as [Hb|Hb].
  - eapply answered_object; [exact Hp|exact Hn| |by left]. assert (b = []) as -> by (by destruct b). by destruct (is_head rq).
  - apply post_object_body; [done..|]. pose proof (blen_nonneg b). lia.
Qed.
Lemma post_get_object : post (handle_get_object rq) answered answered w.
Proof.
  unfold handle_get_object, no_effective_query, require_bucket_dir, metadata, Objects.look.
  do 3 (rewrite post_bind; look). rewrite post_bind. unfold object_path.
  apply post_peeks; [solve_peeks|exact answered_error|]. intros p Hp.
  assert (join_object_path o_posix_root (o_bucket rq) (o_key rq) = Ok p) as Hj by (clear - Hp; destruct (join_object_path _ _ _); cbn in Hp; congruence).
  rewrite post_bind. apply post_open_object; [done|]. intros n0. rewrite post_bind. apply post_get. rewrite post_bind. unfold Objects.or_internal.
  apply post_peeks; [solve_peeks|exact answered_error|]. intros n Hn.
  assert (stat (files w) p = Ok n) as [Hf Hnd]%stat_some by (clear - Hn; destruct (fault CFstat p), (stat (files w) p); cbn in Hn; congruence).
  destruct n as [i b l|i sz l|i sz].
  - rewrite post_bind. look. rewrite post_bind. apply post_check_read. by apply (post_resolve p (RegFile i b l)).
  - rewrite post_bind. look. rewrite post_bind. apply post_check_read. eapply answered_object; [exact Hj|exact Hf| |by left]. by destruct (is_head rq).
  - by destruct (Hnd i sz).
Qed.

(** C29. Framing of GetObject and HeadObject.  Whatever the request and the
    tree, when the kernel answers reads of the requested file in full and the
    client stays: no answer makes the response builder panic (its ETag, date
    and range are header values, stored metadata that is not is left out), and
    its [Content-Length] is right.  An error or a 304 has the length of its
    text.  A GET delivers the whole file, the one range, or the multipart body
    of several ranges, and announces exactly that many bytes.  A HEAD has no
    body and, when opening the file does not fail, announces the size of the
    file or of the one range, or of the link when it is a dangling one. *)
Theorem get_answers_framed (w' : world) (r : obj_reply) :
  replies (handle_get_object rq) w = (Some r, w') ->
  exists wr n, obj_reply_wire r = Ok wr /\ w_status wr = response_status (AObject r) /\ framed rq (files w) wr n.
Proof. apply (post_replies _ answered), post_get_object. Qed.
End Framing.
