(* ===== verification/WireWitness.v ===== *)
(** * Responses at concrete values *)

From Stdlib Require Import ZArith Lia Ascii.
From stdpp Require Import base list strings numbers option.
From S2P Require Import Prelude RustStr Http Utils Classifier S3Xml S3Resp Bytes FsHelpers FileSystem Handler Objects GetObject ObjectWitness Listing Multipart ListBuckets XmlDocs XmlText XmlEcho Wire WireProofs.

Local Open Scope s3_scope.
Local Open Scope string_scope.

#[local] Existing Instance demo_objects.

(** The writer and the reader of XmlText, and headers of printable text *)
Definition xml_codec : WireCodec.
Proof.
  refine {| header_value_ok := all_bytes is_printable; header_name_ok := fun _ => true; to_xml_string := fun n => Some (write n); from_xml_string := read |}.
  - done.
  - intros n s Hx Ht _ [= <-]. by apply write_read.
Defined.
Definition demo_reader : XmlReader.
Proof.
  refine {| text_events := fun s => if is_empty s then [] else [XText (Ok s)] |}.
  - intros s. destruct (is_empty s); repeat constructor.
  - intros s Hs. by rewrite (plain_nonempty s Hs).
Defined.

Definition demo_page : list_v2 := {|
  v2_bucket := "b"; v2_prefix := "p/"; v2_delimiter := Some ""; v2_key_count := 1; v2_max_keys := 1000; v2_is_truncated := true; v2_token := None;
  v2_next_token := Some "t"; v2_start_after := None; v2_encoding_type := Some "url";
  v2_contents := [{| lo_key := "p/a"; lo_last_modified := "time"; lo_etag := "e"; lo_size := 5; lo_owner := None |}]; v2_common_prefixes := ["p/q/"] |}.
Lemma demo_page_numbers : doc_numbers (DListV2 demo_page).
Proof. cbn. unfold is_u64, u64_max. split_and!; try lia. repeat constructor; cbn; lia. Qed.

Lemma documents_roundtrip_witness : decode KListV2 (encode (DListV2 demo_page)) = Some (canonical (DListV2 demo_page)).
Proof. apply (documents_roundtrip (DListV2 demo_page)). exact demo_page_numbers. Defined.

Lemma memory_answers_framed_witness : exists w body, @response_wire xml_codec demo_form (AListV2 demo_page) = Ok w /\
  w_status w = 200%Z /\ w_body w = Full body /\ get_header "content-length" (w_headers w) = Some (print_u64 (str_len body)).
Proof. apply (@memory_answers_framed xml_codec demo_form (AListV2 demo_page)); [reflexivity|constructor]. Defined.

Lemma answers_read_back_witness : exists w, @response_wire xml_codec demo_form (AListV2 demo_page) = Ok w /\
  @client_read xml_codec KListV2 w = Some (canonical (DListV2 demo_page)).
Proof.
  apply (@answers_read_back xml_codec demo_form (AListV2 demo_page) (DListV2 demo_page)).
  - reflexivity.
  - exact demo_page_numbers.
  - vm_compute. reflexivity.
  - by eexists.
Defined.

Lemma demo_full_reads p i b l :
  join_object_path o_posix_root (o_bucket (demo_get "old")) (o_key (demo_get "old")) = Ok p -> files demo_world !! p = Some (RegFile i b l) -> undisturbed_read p b.
Proof. intros Hp Hf. vm_compute in Hp. injection Hp as <-. vm_compute in Hf. injection Hf as <- <- <-. by apply demo_reads. Qed.
Lemma get_answers_framed_witness : exists r wr n, replies (handle_get_object (demo_get "old")) demo_world = (Some r, demo_world) /\
  @obj_reply_wire xml_codec _ r = Ok wr /\ w_status wr = 206%Z /\ framed (demo_get "old") (files demo_world) wr n.
Proof.
  destruct (replies (handle_get_object (demo_get "old")) demo_world) as [[r|] w'] eqn:Hr; [|vm_compute in Hr; discriminate].
  destruct (@get_answers_framed xml_codec demo_objects (fun _ => eq_refl) (demo_get "old") demo_world demo_full_reads w' r Hr) as (wr & n & Hwr & Hst & Hf).
  exists r, wr, n. split; [|split; [exact Hwr|split; [|exact Hf]]].
  - vm_compute in Hr |- *. injection Hr as <- <-. reflexivity.
  - rewrite Hst. vm_compute in Hr. injection Hr as <- <-. reflexivity.
Defined.

Lemma acl_echo_witness : parse_put_acl_request_world_readable "x" (@node_events demo_reader (acl_xml (get_acl_body "uid-1000" "alice" true))) = Ok true.
Proof. apply (@acl_echo demo_reader "uid-1000" "alice" true "x"). reflexivity. Defined.

Lemma tagging_echo_witness :
  @parse_object_tagging_request demo_form "x" (@node_events demo_reader (tagging_xml (@get_object_tagging_body demo_form "v"))) = Ok "v".
Proof.
  apply (@tagging_echo demo_reader demo_form "v" "x"); [reflexivity|]. apply Forall_singleton. split; [reflexivity|]. by right.
Defined.
